(* ===== verification/_CoqProject ===== *)
-Q . S2P
Prelude.v
Bits.v
Htif.v
Shadow.v
SolidityCompat.v
UarchStep.v
UarchSim.v
Rv64i.v
UarchDecode.v
HashTree.v
Memory.v
UarchFacts.v
AccessLog.v
SymHash.v
Machine.v
MachineFacts.v
UarchMemory.v
UarchIsa.v
UarchReplay.v
ReplaySound.v
UarchRecord.v
RecordSound.v
ReplayAccepts.v
UarchMachine.v
UarchInvariant.v
Recording.v
Samples.v
UarchProofs.v
IsaProofs.v
MachineProofs.v
Riscv.v
Hart.v
Trap.v
Csr.v
Devices.v
VirtualMemory.v
StatusBits.v
HartFacts.v
TrapFacts.v
TrapProofs.v
CsrFacts.v
CsrProofs.v
PageTables.v
PageTableProofs.v
Decode.v
Execute.v
SoftFloat.v
ExecuteFloat.v
Compressed.v
JumpTable.v
Interpreter.v
Rv64gc.v
Dispatch.v
DecodeProofs.v
SimdVector.v
Keccakf.v
KeccakSpec.v
KeccakFacts.v
Keccak256.v
Keccak256Facts.v
Sha256.v
Sha256Spec.v
Sha256Facts.v
Sha256Context.v
VariantHasher.v
HashProofs.v
RiscvIsa.v
RiscvProofs.v
BackMerkleTree.v
BackMerkleFacts.v
BackMerkleProofs.v
HartSafety.v
InsnSafety.v
InterpretSafety.v
InterpretProofs.v
StepLog.v
StepLogFacts.v
StepAccess.v
StepSound.v
