(* ===== verification/Prelude.v ===== *)
(** * Formal model of the Cartesi machine emulator: overview and prelude

    The Cartesi machine is a deterministic RV64GC computer whose state has a
    root hash, so that a claim about a computation can be checked by others.
    Its RISC-V interpreter (the "big" machine) is compiled a second time to a
    RV64I program, which a smaller interpreter, the microarchitecture, runs
    inside of the same state: one step of the microarchitecture is what a
    blockchain verifies.  The development follows this structure.

    ** How the program is embedded

    A w-bit integer is a [Z] in its range, and every operation that can wrap
    does so explicitly ([uint64], [int32], ... of this file).  Code that
    reads and writes state is a computation [M S A] (SolidityCompat.v):
    a function of the state that returns a value and the new state, or throws
    a message, and the state it leaves then.  A template over a state access
    is a definition over a type class, or over the access of Hart.v.  Names are those of the C++ code.  The whole state of the machine, the
    registers included, is its physical address space (Memory.v): a finite
    map of 64-bit words, with zeros where nothing is mapped.

    ** The microarchitecture

    - SolidityCompat.v (uarch-solidity-compat.hpp): the fixed-width arithmetic
      and the interface [IUarchStateAccess] of state accesses, a class.
    - UarchStep.v (uarch-step.cpp, uarch-interpret.cpp, uarch-reset-state.cpp): every instruction
      handler, [executeInsn], [uarch_step], [uarch_interpret], over the class.
    - Rv64i.v: an independent RV64I reference (opcode table, fields, effects);
      UarchDecode.v, UarchMemory.v and UarchIsa.v relate the handlers to it.
    - UarchSim.v: simulation of a step on one access by a step on
      another, and the number of accesses of a step.  They are proved once over
      the class, and used for each instance.
    - UarchFacts.v, UarchInvariant.v: cycle counter, halting, register x0.

    C6 to C8 and C10 to C12 show that a step decodes and runs RV64I as the manual says, what
    its status means, and what it never changes.  C4 shows that the loop ends.
    Its fuel is the number of cycles left up to the target or the overflow,
    which is enough because each step that goes on counts one cycle.

    ** Logs and proofs

    - HashTree.v (i-hasher.hpp, hash-tree-proof.hpp): Merkle trees over an
      abstract hasher (class [IHasher]), proofs, slicing.  SymHash.v is a
      concrete collision-free instance, on which the theorems are instantiated.
    - AccessLog.v (access-log.hpp), UarchRecord.v
      (uarch-record-state-access.hpp, uarch-state-access.hpp, and the methods
      of machine.cpp that log), UarchReplay.v (uarch-replay-state-access.hpp).
    - ReplaySound.v, RecordSound.v, ReplayAccepts.v, UarchMachine.v,
      Recording.v: replay against the root hash simulates the step on the
      contents; recording logs what replay accepts.

    C1 and C2: a log that is accepted proves the transition, when the hash has
    no collision and every access has its complete list of siblings.  C5: the
    second condition is needed, and the code does not check it.  C3: logging
    never fails on a step that runs.  C21 and C23: what proofs bind.

    ** The machine

    - Htif.v, Shadow.v, Machine.v (htif-constants.hpp, shadow-*.hpp, pmas.hpp,
      machine-reg.hpp, machine.cpp): the address map of registers, TLB slots
      and PMAs, and the access to registers, words and regions with its guards.
      MachineFacts.v has the invariant [machine_ok] and what accesses do.

    C13 to C15 are about memory and registers, C19 is about the TLB's shadow.

    ** The RISC-V interpreter

    - Riscv.v (riscv-constants.hpp, riscv-warl.hpp), Hart.v
      (i-state-access.hpp, as uarch-bridge-state-access.hpp implements it).
    - Trap.v (TLB flushes, traps, interrupts, timer: interpret.cpp, rtc.hpp),
      Csr.v (control and status registers), Devices.v (CLINT, PLIC, HTIF),
      VirtualMemory.v (find-pma.hpp, translate-virtual-address.hpp, loads and
      stores through the TLB).
    - Decode.v, Execute.v, ExecuteFloat.v, Compressed.v: the fields of
      instructions and one definition for each execute function.
      SoftFloat.v is soft-float.hpp.
    - JumpTable.v: the generator of the jump table (a Lua program that the
      build runs, tools/gen-interpret-jump-table.lua).
    - Interpreter.v: fetch, the switch, [interpret_loop] and [interpret].
    - StatusBits.v, HartFacts.v, TrapFacts.v, CsrFacts.v: status bits, reads
      after writes, traps as state changes.  PageTables.v: virtual memory as the
      architecture defines it.  Rv64gc.v: the 160 encodings of RV64GC.
      Dispatch.v: from the table of 65536 labels to these encodings, by one
      computation over the 512 entries that the 32-bit instructions use.
      RiscvIsa.v, RiscvProofs.v: the instructions of RV64IM, against Rv64i.v (the
      reference that the microarchitecture is proved against too) and the M
      extension.  Loads and stores are those whose page is in the TLB.
    - HartSafety.v, InsnSafety.v, InterpretSafety.v: an invariant of every
      program of the interpreter, with rules in the style of weakest
      preconditions, for the functions of the switch, the labels of the table
      and the loops.

    C24, C25 and C28: traps and returns.  C26, C27 and C30: interrupts and the
    timer.  C31 to C34: control and status registers.  C35: translation of
    addresses.  C36: decoding.  C39: effects of
    instructions.  C18, C20 and C40: a call to interpret returns and makes progress,
    keeps the registers well-formed, and writes nothing but registers, TLB slots
    and the memory ranges; they hold of builds without assertions.  C29, C27 and C34 state behaviours that differ
    from what the code means to do; they are listed as findings.

    The walk of the page tables recurses on the level, at most four.  The loops
    of the interpreter get as fuel the number of cycles left to [mcycle_end]
    and to the end of the tick, and return [None] when they run out of it: a
    round of the loop counts one cycle.

    ** Hash functions

    - SimdVector.v (simd-vector-type.hpp, machine-hash.hpp): vectors of words,
      one lane for each message that is hashed at the same time.
    - Keccakf.v (keccakf.hpp): the permutation, unrolled in the code, one
      definition for each round.  KeccakSpec.v is FIPS 202 by bits, and
      KeccakFacts.v relates the two.  Keccak256.v (keccak-256-hasher.cpp) is the
      sponge, with Keccak256Facts.v.
    - Sha256.v (sha-256-hasher.cpp), with FIPS 180-4 in Sha256Spec.v (its constants
      are computed from the primes), Sha256Facts.v and Sha256Context.v.
    - VariantHasher.v (variant-hasher.hpp, i-hasher.hpp): the choice between the
      two, as an instance of the class [IHasher] of HashTree.v.

    C37 and C38: both compute the hash of the standard, for each number of
    messages that can be hashed together.

    ** Step logs

    A step of the big machine, of many cycles, is verified on a log of the pages
    that it touches, with the hashes of the tree that are missing to find the root.

    - StepLog.v (record-step-state-access.hpp and the constructor of
      replay-step-state-access.hpp): the format of the log, the root hash of a
      log, what a recording keeps of a page and what it writes at its end.
    - StepAccess.v (replay-step-state-access.hpp, mock-address-range.hpp,
      rejected-manual-yield.hpp, and [verify_step] of machine.cpp): the access
      of the replay, with registers, PMAs and TLB slots in the pages of the log,
      and fast addresses that are host addresses in its image.  The class
      [StepAccess] is the interface, with the memory of the machine as
      the other instance.  The interpreter is a template over the access; here
      it is any [program] that asks for accesses and goes on with the answers.
      Programs hold fast addresses as handles: they do not look into
      them, as the template does not.
    - StepLogFacts.v: the frontier of a set of pages (the siblings they need),
      the root hash of a log both ways, the format, recordings.
    - StepSound.v: the relation between a replay and the memory that it
      stands for, kept by each access.

    C9: a log that is accepted proves what the interpreter does on the memory
    with that root hash.  C17: exactly the images of well-formed logs are
    parsed.  C22: what a recording writes is opened, with the pages as they were.
    The recursion over ranges of pages is on the logarithm of their number, 52
    for the address space.

    ** Incremental trees

    - BackMerkleTree.v (back-merkle-tree.hpp, .cpp): leaves and blocks of padding are
      pushed in order and only a logarithmic context is kept.  C16: any sequence
      of operations is an implementation of appending to a list, and the root
      is that of the complete tree of the list, padded.  BackMerkleFacts.v has
      the invariant, BackMerkleProofs.v the theorem, and an input on which
      [pad_back] counts leaves in a full tree (a finding).

    ** Other files

    Bits.v: fields of words.  Samples.v: concrete states.  UarchProofs.v,
    IsaProofs.v, MachineProofs.v, TrapProofs.v, CsrProofs.v, PageTableProofs.v,
    DecodeProofs.v, HashProofs.v, RiscvProofs.v, BackMerkleProofs.v,
    InterpretProofs.v, StepLogFacts.v, StepSound.v: the theorems C1 to C40, each with an instance at a concrete state, its
    witness, where it has hypotheses.

    ** Not modelled

    - The theorems about trees are for any hash function, not only for
      those above; that it has no collision is a hypothesis of the theorems
      that need it.
    - The queues of simd-hasher.hpp, and the versions of the hash functions for
      processors with more vector instructions, which have the same bodies.
    - The image of the microarchitecture (uarch-pristine) is generated by the
      build, and is a parameter.
    - hash-tree.cpp, the sparse tree with its cache of pages and its parallel
      update: the machine uses the reference tree over its contents.
    - The access of the interpreter on the host (state-access.hpp), which keeps
      host pointers in the TLB, and interactive runs, which poll the console.
    - The accesses of a recording of a big step, but for those to registers: they
      work on host memory and on the TLB of the host.  C22 is about any
      sequence of touching pages and changing touched pages.
    - Collection of hashes, delivery of inputs (send-cmio-response.cpp).
    - VirtIO devices, construction from a configuration, JSON, the remote
      machine, C and Lua interfaces, services of the host: input and output,
      formats and bindings.
    - Traces, dumps, statistics and the notes inside of logs, which change no
      state. *)

From Stdlib Require Export ZArith Lia Bool Btauto.
From stdpp Require Export base numbers list strings gmap functions pretty.
#[global] Open Scope Z_scope.

(** ** Machine integers

    An unsigned w-bit C++ value is a [Z] in [0, 2^w); a signed one is a [Z]
    in [-2^(w-1), 2^(w-1)).  The casts below are the C++ [static_cast]s
    between them (modulo conversions, as interpret.cpp and
    uarch-solidity-compat.hpp assume). *)

Definition uwrap (w x : Z) : Z := x mod 2 ^ w.
Definition swrap (w x : Z) : Z := (x + 2 ^ (w - 1)) mod 2 ^ w - 2 ^ (w - 1).

Definition uint8 (x : Z) : Z := uwrap 8 x.
Definition uint16 (x : Z) : Z := uwrap 16 x.
Definition uint32 (x : Z) : Z := uwrap 32 x.
Definition uint64 (x : Z) : Z := uwrap 64 x.
Definition int8 (x : Z) : Z := swrap 8 x.
Definition int16 (x : Z) : Z := swrap 16 x.
Definition int32 (x : Z) : Z := swrap 32 x.
Definition int64 (x : Z) : Z := swrap 64 x.

(** C++ [~x] on an unsigned 64-bit (32-bit) value. *)
Definition not64 (x : Z) : Z := 2 ^ 64 - 1 - x.
Definition not32 (x : Z) : Z := 2 ^ 32 - 1 - x.

(** C++ conversion of a [bool] to an integer. *)
Definition b2u (b : bool) : Z := if b then 1 else 0.

(** Ranges of the machine types, as decidable predicates. *)
Definition is_u (w x : Z) : Prop := 0 <= x < 2 ^ w.
Definition is_s (w x : Z) : Prop := - 2 ^ (w - 1) <= x < 2 ^ (w - 1).

#[export] Instance is_u_dec w x : Decision (is_u w x).
Proof. unfold is_u. apply _. Defined.
#[export] Instance is_s_dec w x : Decision (is_s w x).
Proof. unfold is_s. apply _. Defined.

Lemma is_u_weaken w w' x : 0 <= w <= w' -> is_u w x -> is_u w' x.
Proof. unfold is_u. intros Hw Hx. pose proof (Z.pow_le_mono_r 2 w w' ltac:(lia) ltac:(lia)). lia. Qed.
Lemma is_u_63_64 x : is_u 63 x -> is_u 64 x.
Proof. by apply is_u_weaken. Qed.

Lemma pow2_pos w : 0 <= w -> 0 < 2 ^ w.
Proof. intros. apply Z.pow_pos_nonneg; lia. Qed.

Lemma uwrap_range w x : 0 <= w -> is_u w (uwrap w x).
Proof. intros. apply Z.mod_pos_bound, pow2_pos; lia. Qed.

Lemma uwrap_small w x : is_u w x -> uwrap w x = x.
Proof. intros H. unfold uwrap. by apply Z.mod_small. Qed.

Lemma uwrap_idem w x : 0 <= w -> uwrap w (uwrap w x) = uwrap w x.
Proof. intros. apply uwrap_small, uwrap_range. lia. Qed.

Lemma swrap_range w x : 0 < w -> is_s w (swrap w x).
Proof.
  intros. unfold is_s, swrap.
  pose proof (Z.mod_pos_bound (x + 2 ^ (w - 1)) (2 ^ w) (pow2_pos w ltac:(lia))).
  assert (2 ^ w = 2 * 2 ^ (w - 1)) by (rewrite <-Z.pow_succ_r; [f_equal|]; lia).
  lia.
Qed.

Lemma swrap_small w x : 0 < w -> is_s w x -> swrap w x = x.
Proof.
  intros Hw [H1 H2]. unfold swrap.
  assert (2 ^ w = 2 * 2 ^ (w - 1)) by (rewrite <-Z.pow_succ_r; [f_equal|]; lia).
  rewrite Z.mod_small; lia.
Qed.

Lemma uwrap_swrap w x : 0 < w -> uwrap w (swrap w x) = uwrap w x.
Proof.
  intros. unfold uwrap, swrap.
  rewrite Zminus_mod_idemp_l. f_equal. lia.
Qed.

Lemma swrap_uwrap w x : 0 < w -> swrap w (uwrap w x) = swrap w x.
Proof.
  intros. unfold uwrap, swrap. by rewrite Zplus_mod_idemp_l.
Qed.

Lemma uwrap_add_l w x y : uwrap w (uwrap w x + y) = uwrap w (x + y).
Proof. apply Zplus_mod_idemp_l. Qed.
Lemma uwrap_add_r w x y : uwrap w (x + uwrap w y) = uwrap w (x + y).
Proof. apply Zplus_mod_idemp_r. Qed.

(** ** Bits *)

Lemma testbit_uwrap w x i :
  0 <= w -> 0 <= i -> Z.testbit (uwrap w x) i = bool_decide (i < w) && Z.testbit x i.
Proof.
  intros. unfold uwrap. case_bool_decide.
  - by rewrite Z.mod_pow2_bits_low.
  - rewrite Z.mod_pow2_bits_high; [done | lia].
Qed.

Lemma is_u_testbit w x i : is_u w x -> 0 <= w <= i -> Z.testbit x i = false.
Proof.
  intros Hx Hi. rewrite <-(uwrap_small w x Hx), testbit_uwrap by lia.
  rewrite bool_decide_eq_false_2 by lia. done.
Qed.

Lemma testbit_is_u w x :
  0 <= w -> (forall i, w <= i -> Z.testbit x i = false) -> is_u w x.
Proof.
  intros Hw H.
  assert (x = uwrap w x) as ->; [|by apply uwrap_range].
  apply Z.bits_inj'. intros i Hi. rewrite testbit_uwrap by lia.
  case_bool_decide; simpl; [done | apply H; lia].
Qed.

Lemma testbit_ones w i : 0 <= w -> 0 <= i -> Z.testbit (Z.ones w) i = bool_decide (i < w).
Proof.
  intros. case_bool_decide.
  - apply Z.ones_spec_low; lia.
  - apply Z.ones_spec_high; lia.
Qed.

Lemma swrap_sign w x :
  0 < w ->
  swrap w x = if Z.testbit x (w - 1) then uwrap w x - 2 ^ w else uwrap w x.
Proof.
  intros Hw.
  assert (Hp : 2 ^ w = 2 * 2 ^ (w - 1)) by (rewrite <-Z.pow_succ_r; [f_equal|]; lia).
  pose proof (pow2_pos (w - 1) ltac:(lia)) as Hpos.
  pose proof (uwrap_range w x ltac:(lia)) as Hr. unfold is_u in Hr.
  assert (Hbit : Z.testbit x (w - 1) = bool_decide (2 ^ (w - 1) <= uwrap w x)).
  { transitivity (Z.testbit (uwrap w x) (w - 1)).
    { rewrite testbit_uwrap by lia. rewrite bool_decide_eq_true_2 by lia. done. }
    rewrite Z.testbit_eqb by lia.
    case_bool_decide as Hc.
    - assert (uwrap w x / 2 ^ (w - 1) = 1) as -> by (symmetry; apply Z.div_unique with (uwrap w x - 2 ^ (w - 1)); lia).
      done.
    - rewrite Z.div_small by lia. done. }
  rewrite Hbit, <-swrap_uwrap by lia. unfold swrap.
  case_bool_decide.
  - assert ((uwrap w x + 2 ^ (w - 1)) mod 2 ^ w = uwrap w x - 2 ^ (w - 1)) as ->; [|lia].
    symmetry. apply Z.mod_unique with 1; lia.
  - rewrite Z.mod_small; lia.
Qed.

Lemma lor_disjoint x y : Z.land x y = 0 -> Z.lor x y = x + y.
Proof. intros H. rewrite <-Z.lxor_lor, Z.add_nocarry_lxor; done. Qed.

Lemma low_high_disjoint w x y : 0 <= w -> Z.land (uwrap w x) (Z.shiftl y w) = 0.
Proof.
  intros. apply Z.bits_inj'. intros i Hi.
  rewrite Z.land_spec, Z.bits_0, Z.shiftl_spec, testbit_uwrap by lia.
  case_bool_decide; [|done]. by rewrite (Z.testbit_neg_r y), andb_false_r by lia.
Qed.

Lemma testbit_swrap w x i :
  0 < w -> 0 <= i ->
  Z.testbit (swrap w x) i = Z.testbit x (if bool_decide (i < w) then i else w - 1).
Proof.
  intros Hw Hi. rewrite swrap_sign by lia.
  destruct (Z.testbit x (w - 1)) eqn:Hs.
  - assert (uwrap w x - 2 ^ w = Z.lor (uwrap w x) (Z.shiftl (-1) w)) as ->.
    { rewrite lor_disjoint, Z.shiftl_mul_pow2 by (solve [lia | apply low_high_disjoint; lia]). lia. }
    rewrite Z.lor_spec, testbit_uwrap, Z.shiftl_spec by lia.
    case_bool_decide; simpl.
    + rewrite (Z.testbit_neg_r (-1)) by lia. by rewrite orb_false_r.
    + rewrite Z.bits_m1 by lia. done.
  - rewrite testbit_uwrap by lia. case_bool_decide; simpl; [done|by rewrite Hs].
Qed.

Lemma testbit_not64 x i :
  0 <= i -> is_u 64 x -> Z.testbit (not64 x) i = bool_decide (i < 64) && negb (Z.testbit x i).
Proof.
  intros Hi Hx. assert (not64 x = uwrap 64 (Z.lnot x)) as ->.
  { unfold not64, uwrap, Z.lnot. apply Z.mod_unique with (-1); unfold is_u in Hx; lia. }
  rewrite testbit_uwrap, Z.lnot_spec by lia. done.
Qed.

(** Field [len] bits wide starting at bit [lo], as the ISA manual writes it. *)
Definition bitfield (lo len x : Z) : Z := Z.land (Z.shiftr x lo) (Z.ones len).

(** Rewriting of [Z.testbit] through the bit operators; the side conditions
    on the index are linear. *)
Ltac testbit_side := solve [lia | assumption].
Ltac testbit_simpl :=
  repeat first
    [ rewrite Z.land_spec | rewrite Z.lor_spec | rewrite Z.lxor_spec
    | rewrite Z.bits_0
    | rewrite Z.shiftl_spec by testbit_side | rewrite Z.shiftr_spec by testbit_side
    | rewrite testbit_uwrap by testbit_side | rewrite testbit_swrap by testbit_side
    | rewrite testbit_ones by testbit_side | rewrite testbit_not64 by testbit_side
    | rewrite Z.testbit_neg_r by testbit_side ].

(** Splits on the index comparisons that remain, and closes each case. *)
Ltac bits_close :=
  repeat first
    [ case_bool_decide
    | match goal with
      | |- context [Z.testbit ?x ?i] =>
          first [ assert_fails (is_var i); assert (i < 0) by lia; rewrite (Z.testbit_neg_r x i) by lia ]
      end ];
  simpl; rewrite ?andb_true_r, ?andb_false_r, ?orb_false_r, ?orb_true_r;
  try solve [ done | lia | exfalso; lia | f_equal; lia | repeat (f_equal; try lia) | btauto ].

Ltac bitwise :=
  apply Z.bits_inj'; intros ?i ?Hi; testbit_simpl; bits_close.

(** Equality of two words built from shifts, by cases on the bit. *)
Ltac bitwise_cases :=
  apply Z.bits_inj'; intros ?i ?Hi;
  repeat first
    [ progress testbit_simpl
    | case_bool_decide; cbn [andb orb]; try lia
    | rewrite andb_true_r | rewrite andb_false_r | rewrite orb_false_r
    | match goal with
      | |- context [Z.testbit ?x ?j] =>
          assert_fails (assert (0 <= j) by lia); assert_fails (is_var j);
          destruct (Z.neg_nonneg_cases j); [rewrite (Z.testbit_neg_r x j) by lia|]
      end ];
  try solve [done | repeat (f_equal; try lia)].

Lemma bitfield_div lo len x :
  0 <= lo -> 0 <= len -> bitfield lo len x = (x / 2 ^ lo) mod 2 ^ len.
Proof. intros. unfold bitfield. by rewrite Z.land_ones, Z.shiftr_div_pow2. Qed.

Lemma bitfield_range lo len x : 0 <= len -> is_u len (bitfield lo len x).
Proof. intros. unfold bitfield. rewrite Z.land_ones by lia. by apply uwrap_range. Qed.

(** Extracting a field by shifting left, then right, in w bits. *)
Lemma shl_shr_field w x a b :
  0 <= a <= b -> b <= w ->
  Z.shiftr (uwrap w (Z.shiftl x a)) b = bitfield (b - a) (w - b) x.
Proof. intros. unfold bitfield. bitwise. Qed.

(** ** Exceptions and state

    C++ code that mutates an object and may throw is a function from the
    state before to an outcome and the state reached, which is kept when the
    outcome is an exception: nothing is rolled back. *)

Inductive exn :=
| runtime_error (what : string)
| invalid_argument (what : string)
| out_of_range (what : string)
| domain_error (what : string)
| logic_error (what : string)
| assertion_failed (what : string).

#[export] Instance exn_eq_dec : EqDecision exn.
Proof. solve_decision. Defined.

Inductive outcome (A : Type) :=
| Ret (a : A)
| Throw (e : exn).
Arguments Ret {A} a.
Arguments Throw {A} e.

Definition M (S A : Type) : Type := S -> outcome A * S.

#[export] Instance M_ret S : MRet (M S) := fun A a s => (Ret a, s).
#[export] Instance M_bind S : MBind (M S) := fun A B f m s =>
  match m s with
  | (Ret a, s') => f a s'
  | (Throw e, s') => (Throw e, s')
  end.

Definition throw {S A} (e : exn) : M S A := fun s => (Throw e, s).
Definition get {S} : M S S := fun s => (Ret s, s).
Definition gets {S A} (f : S -> A) : M S A := fun s => (Ret (f s), s).
Definition modify {S} (f : S -> S) : M S unit := fun s => (Ret tt, f s).

(** Lifts a computation that only throws. *)
Definition lift {S A} (o : outcome A) : M S A := fun s => (o, s).

(** [if (c) { m }] without an [else]. *)
Definition when {S} (c : bool) (m : M S unit) : M S unit := if c then m else mret ().

Definition is_ret {A} (o : outcome A) : bool := match o with Ret _ => true | Throw _ => false end.

Lemma bind_ret_l {S A B} (a : A) (f : A -> M S B) s : (mret a ≫= f) s = f a s.
Proof. done. Qed.

Lemma bind_assoc {S A B C} (m : M S A) (f : A -> M S B) (g : B -> M S C) s :
  ((m ≫= f) ≫= g) s = (m ≫= (fun x => f x ≫= g)) s.
Proof. unfold mbind, M_bind. by destruct (m s) as [[?|?] ?]. Qed.

(** A computation that returns went through each of its parts. *)
Lemma bind_Ret_inv {S A B} (m : M S A) (f : A -> M S B) s b s' :
  (m ≫= f) s = (Ret b, s') -> exists a s1, m s = (Ret a, s1) /\ f a s1 = (Ret b, s').
Proof. unfold mbind, M_bind. destruct (m s) as [[a|e] s1]; [eauto | done]. Qed.

Lemma bind_Ret {S A B} (m : M S A) (f : A -> M S B) s a s1 :
  m s = (Ret a, s1) -> (m ≫= f) s = f a s1.
Proof. unfold mbind, M_bind. by intros ->. Qed.

(** Inverts a hypothesis that a sequence of binds returned. *)
Ltac inv_bind H :=
  let a := fresh "a" in let s := fresh "s" in let H1 := fresh "Hm" in let H2 := fresh "Hk" in
  apply bind_Ret_inv in H as (a & s & H1 & H2).
Ltac inv_ret H := injection H as ??; subst.

(** ** Simulation between computations

    [sim P R m1 m2]: from related states, when [m1] returns in a state that
    satisfies [P], [m2] returns the same value in a related state; and [P]
    cannot start to hold by running [m1], so that the statement composes.
    [P] is the knowledge of the end of the run that a relation may need (the
    complete access log, say); it is [fun _ => True] when none is needed. *)

Definition sim {S1 S2 A} (P : S1 -> Prop) (R : S1 -> S2 -> Prop) (m1 : M S1 A) (m2 : M S2 A) : Prop :=
  (forall s1 a s1', m1 s1 = (Ret a, s1') -> P s1' -> P s1) /\
  (forall s1 s2 a s1', R s1 s2 -> m1 s1 = (Ret a, s1') -> P s1' ->
     exists s2', m2 s2 = (Ret a, s2') /\ R s1' s2').

Create HintDb sim.

Section simulation.
Context {S1 S2 : Type} (P : S1 -> Prop) (R : S1 -> S2 -> Prop).

Lemma sim_ret {A} (a : A) : sim P R (mret a) (mret a).
Proof.
  split; unfold mret, M_ret; intros; [congruence|].
  exists s2. split; congruence.
Qed.

Lemma sim_throw {A} e (m2 : M S2 A) : sim P R (throw e) m2.
Proof. split; unfold throw; congruence. Qed.

Lemma sim_lift {A} (o : outcome A) : sim P R (lift o) (lift o).
Proof. destruct o; [apply sim_ret | apply sim_throw]. Qed.

Lemma sim_bind {A B} (m1 : M S1 A) (m2 : M S2 A) (f1 : A -> M S1 B) (f2 : A -> M S2 B) :
  sim P R m1 m2 -> (forall a, sim P R (f1 a) (f2 a)) -> sim P R (m1 ≫= f1) (m2 ≫= f2).
Proof.
  intros [Hm1 Hm2] Hf. split.
  - intros s1 b s1' H HP. inv_bind H. eapply Hm1; [done|]. by eapply (Hf a).
  - intros s1 s2 b s1' HR H HP. inv_bind H.
    destruct (Hf a) as [Hf1 Hf2].
    destruct (Hm2 s1 s2 a s HR Hm) as (s2' & E2 & HR'); [by eapply Hf1|].
    destruct (Hf2 s s2' b s1' HR' Hk HP) as (s2'' & E & HR'').
    exists s2''. split; [|done]. by erewrite bind_Ret.
Qed.

Lemma sim_when c m1 m2 : (c = true -> sim P R m1 m2) -> sim P R (when c m1) (when c m2).
Proof. intros. destruct c; [by auto | apply sim_ret]. Qed.
End simulation.

(** Proves a simulation between two copies of the same generic program from
    the simulations of its primitive operations (in the hint database). *)
Ltac sim_step :=
  first
    [ apply sim_ret | apply sim_throw | apply sim_lift
    | apply sim_when; intros ?
    | solve [eauto with sim nocore]
    | apply sim_bind; [|intros ?]
    | case_match
    | progress cbv zeta ].
Ltac sim_auto := repeat sim_step.

(** ** Outcomes as a monad *)

#[export] Instance outcome_ret : MRet outcome := fun A a => Ret a.
#[export] Instance outcome_bind : MBind outcome := fun A B f o =>
  match o with Ret a => f a | Throw e => Throw e end.

Lemma outcome_bind_Ret {A B} (o : outcome A) (f : A -> outcome B) b :
  (o ≫= f) = Ret b -> exists a, o = Ret a /\ f a = Ret b.
Proof. destruct o; simpl; [eauto | done]. Qed.

(** ** Words as bytes *)

Definition le_bytes (n v : Z) : list Z := Z_to_little_endian n 8 v.
Definition le_value (bs : list Z) : Z := little_endian_to_Z 8 bs.

Lemma length_le_bytes n v : 0 <= n -> length (le_bytes n v) = Z.to_nat n.
Proof.
  intros. pose proof (length_Z_to_little_endian n 8 v ltac:(lia)) as E.
  unfold le_bytes. lia.
Qed.

Lemma le_value_bytes n v : 0 <= n -> le_value (le_bytes n v) = uwrap (n * 8) v.
Proof. intros. by apply little_endian_to_Z_to_little_endian. Qed.

Lemma le_bytes_inj n v v' :
  0 <= n -> is_u (n * 8) v -> is_u (n * 8) v' -> le_bytes n v = le_bytes n v' -> v = v'.
Proof.
  intros Hn Hv Hv' E.
  rewrite <-(uwrap_small _ v Hv), <-(uwrap_small _ v' Hv'), <-!le_value_bytes by lia.
  by rewrite E.
Qed.

(** ** Numbers in messages *)

(** [std::hex] output of an unsigned value. *)
Fixpoint hex_digits (fuel : nat) (v : Z) (acc : string) : string :=
  match fuel with
  | O => acc
  | S fuel =>
      let d := default "0" (["0"; "1"; "2"; "3"; "4"; "5"; "6"; "7"; "8"; "9"; "a"; "b"; "c"; "d"; "e"; "f"]
                              !! Z.to_nat (v mod 16)) in
      if v <? 16 then d +:+ acc else hex_digits fuel (v / 16) (d +:+ acc)
  end.
Definition to_hex (v : Z) : string := hex_digits 16 v "".

(** [<< " at address 0x" << std::hex << paddr << "(" << std::dec << paddr << ")"] *)
Definition at_address (paddr : Z) : string :=
  "at address 0x" +:+ to_hex paddr +:+ "(" +:+ pretty paddr +:+ ")".

(** ** Lists in blocks

    [f] over the blocks of [n] elements of a list; [fuel] bounds the number of
    blocks. *)
Fixpoint fold_blocks {S A} (f : S -> list A -> S) (n fuel : nat) (s : S) (l : list A) : S :=
  match fuel, l with
  | S fuel, _ :: _ => fold_blocks f n fuel (f s (take n l)) (drop n l)
  | _, _ => s
  end.

Section fold_blocks.
Context {S A : Type} (f : S -> list A -> S) (n : nat).

Lemma fold_blocks_nil fuel s : fold_blocks f n fuel s [] = s.
Proof using Type. by destruct fuel. Qed.

Lemma fold_blocks_step fuel s l :
  l <> [] -> fold_blocks f n (Datatypes.S fuel) s l = fold_blocks f n fuel (f s (take n l)) (drop n l).
Proof using Type. by destruct l. Qed.

(** [k] whole blocks, and what follows them. *)
Lemma fold_blocks_app k fuel s l l' :
  (0 < n)%nat -> length l = (n * k)%nat -> (k <= fuel)%nat ->
  fold_blocks f n fuel s (l ++ l') = fold_blocks f n (fuel - k) (fold_blocks f n k s l) l'.
Proof using Type.
  intros Hn. revert fuel s l. induction k as [|k IH]; intros fuel s l Hl Hf.
  - destruct l; [|cbn in Hl; lia]. by rewrite Nat.sub_0_r.
  - destruct fuel as [|fuel]; [lia|]. assert (Hne : l <> []) by (intros ->; cbn in Hl; lia).
    rewrite !fold_blocks_step by (done || by destruct l). rewrite take_app_le, drop_app_le by lia.
    apply IH; [rewrite length_drop|]; lia.
Qed.

Lemma fold_blocks_one s l : length l = n -> (0 < n)%nat -> fold_blocks f n 1 s l = f s l.
Proof using Type.
  intros Hl Hn. rewrite fold_blocks_step by (intros ->; cbn in Hl; lia). by rewrite take_ge by lia.
Qed.
End fold_blocks.
