(* ===== verification/Bits.v ===== *)
(** * Bit fields of words

    Reading and replacing a field of a 64-bit word, and clearing its low
    bits: the forms that masks and shifts in the program are reduced to. *)

From S2P Require Import Prelude.

(** ** Ranges of bitwise operations *)

Lemma land_range w x y : 0 <= w -> is_u w y -> is_u w (Z.land x y).
Proof. intros Hw Hy. apply testbit_is_u; [done|]. intros i Hi. by rewrite Z.land_spec, (is_u_testbit w y), andb_false_r. Qed.
Lemma lor_range w x y : 0 <= w -> is_u w x -> is_u w y -> is_u w (Z.lor x y).
Proof. intros Hw Hx Hy. apply testbit_is_u; [done|]. intros i Hi. by rewrite Z.lor_spec, !(is_u_testbit w). Qed.

(** A field [len] bits wide at bit [lo], replaced by the low bits of [v]. *)
Definition replace_bits (lo len v reg : Z) : Z :=
  Z.lor (Z.land reg (not64 (Z.shiftl (Z.ones len) lo)))
        (Z.land (uint64 (Z.shiftl v lo)) (Z.shiftl (Z.ones len) lo)).

Lemma masked_field lo len x :
  0 <= lo -> 0 <= len -> Z.shiftr (Z.land x (Z.shiftl (Z.ones len) lo)) lo = bitfield lo len x.
Proof. intros. unfold bitfield. bitwise. Qed.

Lemma field_mask_u64 lo len : 0 <= lo -> 0 <= len -> lo + len <= 64 -> is_u 64 (Z.shiftl (Z.ones len) lo).
Proof.
  intros. apply testbit_is_u; [lia|]. intros i Hi. rewrite Z.shiftl_spec, testbit_ones by lia.
  apply bool_decide_eq_false_2. lia.
Qed.

Lemma testbit_bitfield lo len x i :
  0 <= lo -> 0 <= len -> 0 <= i -> Z.testbit (bitfield lo len x) i = bool_decide (i < len) && Z.testbit x (i + lo).
Proof. intros. unfold bitfield. rewrite Z.land_spec, Z.shiftr_spec, testbit_ones by lia. apply andb_comm. Qed.

Lemma testbit_replace_bits lo len v reg i :
  0 <= lo -> 0 <= len -> lo + len <= 64 -> 0 <= i ->
  Z.testbit (replace_bits lo len v reg) i =
    if bool_decide (lo <= i < lo + len) then Z.testbit v (i - lo)
    else bool_decide (i < 64) && Z.testbit reg i.
Proof.
  intros Hlo Hlen Hw Hi. unfold replace_bits, uint64. pose proof (field_mask_u64 lo len Hlo Hlen Hw).
  rewrite Z.lor_spec, !Z.land_spec, testbit_not64, testbit_uwrap, !Z.shiftl_spec by (lia || done).
  assert (Em : Z.testbit (Z.ones len) (i - lo) = bool_decide (lo <= i < lo + len)).
  { destruct (decide (lo <= i)).
    - rewrite testbit_ones by lia. apply bool_decide_ext. lia.
    - rewrite Z.testbit_neg_r, bool_decide_eq_false_2 by lia. done. }
  rewrite Em. case_bool_decide.
  - rewrite bool_decide_eq_true_2 by lia. simpl. by rewrite andb_false_r, andb_true_r.
  - rewrite andb_false_r, orb_false_r, andb_true_r. apply andb_comm.
Qed.

(** Replacing a field sets it, modulo its width, and leaves the others. *)
Lemma field_replace_same lo len v reg :
  0 <= lo -> 0 <= len -> lo + len <= 64 -> bitfield lo len (replace_bits lo len v reg) = uwrap len v.
Proof.
  intros. apply Z.bits_inj'. intros i Hi. rewrite testbit_bitfield, testbit_uwrap by lia.
  case_bool_decide; [|done]. rewrite testbit_replace_bits, bool_decide_eq_true_2 by lia. simpl. f_equal. lia.
Qed.

Lemma field_replace_other lo len lo' len' v reg :
  0 <= lo -> 0 <= len -> lo + len <= 64 -> 0 <= lo' -> 0 <= len' -> lo' + len' <= 64 ->
  (lo' + len' <= lo \/ lo + len <= lo') ->
  bitfield lo' len' (replace_bits lo len v reg) = bitfield lo' len' reg.
Proof.
  intros. apply Z.bits_inj'. intros i Hi. rewrite !testbit_bitfield by lia.
  case_bool_decide; [|done]. rewrite testbit_replace_bits by lia.
  rewrite (bool_decide_eq_false_2 (lo <= _ < _)), bool_decide_eq_true_2 by lia. done.
Qed.


(** Replacing two adjacent fields is replacing both at once. *)
Lemma replace_bits_adjacent lo n n' v v' x :
  0 <= lo -> 0 <= n -> 0 <= n' -> lo + n + n' <= 64 ->
  replace_bits (lo + n) n' v' (replace_bits lo n v x) =
    replace_bits lo (n + n') (Z.lor (uwrap n v) (Z.shiftl v' n)) x.
Proof.
  intros. apply Z.bits_inj'. intros i Hi. rewrite !testbit_replace_bits by lia.
  repeat case_bool_decide; try lia; rewrite ?Z.lor_spec, ?testbit_uwrap, ?Z.shiftl_spec by lia.
  - rewrite bool_decide_eq_false_2 by lia. simpl. f_equal. lia.
  - rewrite bool_decide_eq_true_2, (Z.testbit_neg_r v') by lia. simpl. by rewrite orb_false_r.
  - done.
Qed.

Lemma replace_bits_nothing lo v x : 0 <= lo <= 64 -> is_u 64 x -> replace_bits lo 0 v x = x.
Proof.
  intros Hlo Hx. apply Z.bits_inj'. intros i Hi. rewrite testbit_replace_bits by lia.
  rewrite (bool_decide_eq_false_2 (lo <= _ < _)) by lia. case_bool_decide; [done|].
  by rewrite (is_u_testbit 64 x i) by (done || lia).
Qed.

Lemma replace_bits_range lo n v x : 0 <= lo -> 0 <= n -> lo + n <= 64 -> is_u 64 (replace_bits lo n v x).
Proof.
  intros. apply testbit_is_u; [lia|]. intros i Hi. rewrite testbit_replace_bits by lia.
  by rewrite !bool_decide_eq_false_2 by lia.
Qed.

Lemma replace_bits_uwrap lo n v x :
  0 <= lo -> 0 <= n -> lo + n <= 64 -> replace_bits lo n (uwrap n v) x = replace_bits lo n v x.
Proof.
  intros. apply Z.bits_inj'. intros i Hi. rewrite !testbit_replace_bits by lia. case_bool_decide; [|done].
  rewrite testbit_uwrap, bool_decide_eq_true_2 by lia. done.
Qed.

(** Clearing the low [k] bits. *)
Lemma land_not64_ones x k : is_u 64 x -> 0 <= k <= 64 -> Z.land x (not64 (Z.ones k)) = x / 2 ^ k * 2 ^ k.
Proof.
  intros Hx Hk. rewrite <-Z.shiftr_div_pow2, <-Z.shiftl_mul_pow2 by lia.
  assert (is_u 64 (Z.ones k)) by (apply testbit_is_u; [lia|]; intros; by apply Z.ones_spec_high; lia).
  apply Z.bits_inj'. intros i Hi. rewrite Z.land_spec, testbit_not64, testbit_ones, Z.shiftl_spec by (done || lia).
  destruct (decide (k <= i)).
  - rewrite Z.shiftr_spec, (bool_decide_eq_false_2 (i < k)) by lia. simpl. replace (i - k + k) with i by lia.
    case_bool_decide; [by rewrite andb_true_r|]. by rewrite (is_u_testbit 64 x i) by (done || lia).
  - rewrite (bool_decide_eq_true_2 (i < k)), (Z.testbit_neg_r (Z.shiftr x k)) by lia. by rewrite !andb_false_r.
Qed.

Lemma land_ones_mod x k : 0 <= k -> Z.land x (Z.ones k) = x mod 2 ^ k.
Proof. intros. by apply Z.land_ones. Qed.

(** Residues and signed values. *)
Lemma uwrap_uwrap w w' x : 0 <= w <= w' -> uwrap w (uwrap w' x) = uwrap w x.
Proof.
  intros. apply Z.bits_inj'. intros i Hi. rewrite !testbit_uwrap by lia.
  repeat case_bool_decide; try lia; done.
Qed.

Lemma swrap_eq w x y : 0 < w -> uwrap w x = uwrap w y -> swrap w x = swrap w y.
Proof. intros Hw E. by rewrite <-(swrap_uwrap w x), E, swrap_uwrap by lia. Qed.
