(* ===== verification/Htif.v ===== *)
(** * The words of the host-target interface (src/htif-constants.hpp)

    A tohost or fromhost word holds a device, a command, a reason and data,
    packed by [HTIF_BUILD], read by the [_FIELD] functions and written in
    place by the [_REPLACE] ones. *)

From S2P Require Import Prelude Bits.

Definition HTIF_DEV_SHIFT : Z := 56.
Definition HTIF_CMD_SHIFT : Z := 48.
Definition HTIF_REASON_SHIFT : Z := 32.
Definition HTIF_DATA_SHIFT : Z := 0.
Definition HTIF_DEV_MASK : Z := 0xFF00000000000000.
Definition HTIF_CMD_MASK : Z := 0x00FF000000000000.
Definition HTIF_REASON_MASK : Z := 0x0000FFFF00000000.
Definition HTIF_DATA_MASK : Z := 0x00000000FFFFFFFF.

Definition HTIF_DEV_HALT : Z := 0.
Definition HTIF_DEV_CONSOLE : Z := 1.
Definition HTIF_DEV_YIELD : Z := 2.
Definition HTIF_HALT_CMD_HALT : Z := 0.
Definition HTIF_CONSOLE_CMD_GETCHAR : Z := 0.
Definition HTIF_CONSOLE_CMD_PUTCHAR : Z := 1.
Definition HTIF_YIELD_CMD_AUTOMATIC : Z := 0.
Definition HTIF_YIELD_CMD_MANUAL : Z := 1.
Definition HTIF_YIELD_MANUAL_REASON_RX_ACCEPTED : Z := 1.
Definition HTIF_YIELD_MANUAL_REASON_RX_REJECTED : Z := 2.

Definition HTIF_BUILD (dev cmd reason data : Z) : Z :=
  Z.lor (Z.lor (Z.lor (Z.land (uint64 (Z.shiftl dev HTIF_DEV_SHIFT)) HTIF_DEV_MASK)
                      (Z.land (uint64 (Z.shiftl cmd HTIF_CMD_SHIFT)) HTIF_CMD_MASK))
               (Z.land (uint64 (Z.shiftl reason HTIF_REASON_SHIFT)) HTIF_REASON_MASK))
        (Z.land (uint64 (Z.shiftl data HTIF_DATA_SHIFT)) HTIF_DATA_MASK).

Definition HTIF_DEV_FIELD (reg : Z) : Z := Z.shiftr (Z.land reg HTIF_DEV_MASK) HTIF_DEV_SHIFT.
Definition HTIF_CMD_FIELD (reg : Z) : Z := Z.shiftr (Z.land reg HTIF_CMD_MASK) HTIF_CMD_SHIFT.
Definition HTIF_REASON_FIELD (reg : Z) : Z := Z.shiftr (Z.land reg HTIF_REASON_MASK) HTIF_REASON_SHIFT.
Definition HTIF_DATA_FIELD (reg : Z) : Z := Z.shiftr (Z.land reg HTIF_DATA_MASK) HTIF_DATA_SHIFT.

Definition HTIF_REPLACE_DEV (reg dev : Z) : Z :=
  Z.lor (Z.land reg (not64 HTIF_DEV_MASK)) (Z.land (uint64 (Z.shiftl dev HTIF_DEV_SHIFT)) HTIF_DEV_MASK).
Definition HTIF_REPLACE_CMD (reg cmd : Z) : Z :=
  Z.lor (Z.land reg (not64 HTIF_CMD_MASK)) (Z.land (uint64 (Z.shiftl cmd HTIF_CMD_SHIFT)) HTIF_CMD_MASK).
Definition HTIF_REPLACE_REASON (reg cmd : Z) : Z :=
  Z.lor (Z.land reg (not64 HTIF_REASON_MASK)) (Z.land (uint64 (Z.shiftl cmd HTIF_REASON_SHIFT)) HTIF_REASON_MASK).
Definition HTIF_REPLACE_DATA (reg data : Z) : Z :=
  Z.lor (Z.land reg (not64 HTIF_DATA_MASK)) (Z.land (uint64 (Z.shiftl data HTIF_DATA_SHIFT)) HTIF_DATA_MASK).

(** ** Fields as bit fields *)

(** The four fields and their replacements, as bit fields. *)
Lemma HTIF_DEV_FIELD_spec r : HTIF_DEV_FIELD r = bitfield 56 8 r.
Proof. by apply (masked_field 56 8). Qed.
Lemma HTIF_CMD_FIELD_spec r : HTIF_CMD_FIELD r = bitfield 48 8 r.
Proof. by apply (masked_field 48 8). Qed.
Lemma HTIF_REASON_FIELD_spec r : HTIF_REASON_FIELD r = bitfield 32 16 r.
Proof. by apply (masked_field 32 16). Qed.
Lemma HTIF_DATA_FIELD_spec r : HTIF_DATA_FIELD r = bitfield 0 32 r.
Proof. by apply (masked_field 0 32). Qed.
Lemma HTIF_REPLACE_DEV_spec r v : HTIF_REPLACE_DEV r v = replace_bits 56 8 v r.
Proof. done. Qed.
Lemma HTIF_REPLACE_CMD_spec r v : HTIF_REPLACE_CMD r v = replace_bits 48 8 v r.
Proof. done. Qed.
Lemma HTIF_REPLACE_REASON_spec r v : HTIF_REPLACE_REASON r v = replace_bits 32 16 v r.
Proof. done. Qed.
Lemma HTIF_REPLACE_DATA_spec r v : HTIF_REPLACE_DATA r v = replace_bits 0 32 v r.
Proof. done. Qed.

Lemma HTIF_BUILD_spec dev cmd reason data :
  HTIF_BUILD dev cmd reason data =
    HTIF_REPLACE_DATA (HTIF_REPLACE_REASON (HTIF_REPLACE_CMD (HTIF_REPLACE_DEV 0 dev) cmd) reason) data.
Proof.
  rewrite HTIF_REPLACE_DATA_spec, HTIF_REPLACE_REASON_spec, HTIF_REPLACE_CMD_spec, HTIF_REPLACE_DEV_spec.
  apply Z.bits_inj'. intros i Hi. rewrite !testbit_replace_bits by lia. unfold HTIF_BUILD, uint64.
  change HTIF_DEV_MASK with (Z.shiftl (Z.ones 8) 56). change HTIF_CMD_MASK with (Z.shiftl (Z.ones 8) 48).
  change HTIF_REASON_MASK with (Z.shiftl (Z.ones 16) 32). change HTIF_DATA_MASK with (Z.shiftl (Z.ones 32) 0).
  rewrite !Z.lor_spec, !Z.land_spec, !testbit_uwrap, !Z.shiftl_spec, Z.bits_0 by lia.
  unfold HTIF_DEV_SHIFT, HTIF_CMD_SHIFT, HTIF_REASON_SHIFT, HTIF_DATA_SHIFT.
  assert (Hm : forall lo len, 0 <= lo -> 0 <= len ->
    Z.testbit (Z.ones len) (i - lo) = bool_decide (lo <= i < lo + len)).
  { intros lo len Hlo Hlen. destruct (decide (lo <= i)).
    - rewrite testbit_ones by lia. apply bool_decide_ext. lia.
    - rewrite Z.testbit_neg_r, bool_decide_eq_false_2 by lia. done. }
  rewrite !Hm by lia.
  repeat case_bool_decide; try lia; rewrite ?andb_false_r, ?orb_false_r, ?andb_true_r; simpl; done.
Qed.

(** Reading back what [HTIF_BUILD] packed, field by field. *)
Lemma fields_of_build dev cmd reason data :
  HTIF_DEV_FIELD (HTIF_BUILD dev cmd reason data) = uint8 dev /\
  HTIF_CMD_FIELD (HTIF_BUILD dev cmd reason data) = uint8 cmd /\
  HTIF_REASON_FIELD (HTIF_BUILD dev cmd reason data) = uint16 reason /\
  HTIF_DATA_FIELD (HTIF_BUILD dev cmd reason data) = uint32 data.
Proof.
  rewrite HTIF_BUILD_spec, HTIF_DEV_FIELD_spec, HTIF_CMD_FIELD_spec, HTIF_REASON_FIELD_spec, HTIF_DATA_FIELD_spec,
    HTIF_REPLACE_DATA_spec, HTIF_REPLACE_REASON_spec, HTIF_REPLACE_CMD_spec, HTIF_REPLACE_DEV_spec.
  repeat split; repeat first [rewrite field_replace_same by lia|rewrite field_replace_other by lia]; done.
Qed.

(** A word is built from its own fields. *)
Lemma build_of_fields r :
  is_u 64 r -> HTIF_BUILD (HTIF_DEV_FIELD r) (HTIF_CMD_FIELD r) (HTIF_REASON_FIELD r) (HTIF_DATA_FIELD r) = r.
Proof.
  intros Hr. rewrite HTIF_BUILD_spec, HTIF_DEV_FIELD_spec, HTIF_CMD_FIELD_spec, HTIF_REASON_FIELD_spec,
    HTIF_DATA_FIELD_spec, HTIF_REPLACE_DATA_spec, HTIF_REPLACE_REASON_spec, HTIF_REPLACE_CMD_spec, HTIF_REPLACE_DEV_spec.
  apply Z.bits_inj'. intros i Hi. rewrite !testbit_replace_bits, Z.bits_0 by lia.
  repeat case_bool_decide; try lia; simpl;
    rewrite ?testbit_bitfield by lia; rewrite ?bool_decide_eq_true_2 by lia; simpl; try (f_equal; lia).
  by rewrite (is_u_testbit 64 r i) by (done || lia).
Qed.
