(* ===== verification/Shadow.v ===== *)
(** * The physical address map (src/address-range-constants.hpp, src/shadow-*.hpp, src/pmas.hpp)

    Where the registers, the microarchitecture registers, the TLB slots and
    the PMA entries of the machine lie in the physical address space, and the
    names addresses have in messages.  Registers are identified by the
    address of their shadow, as the [enum class]es of the code are. *)

From S2P Require Import Prelude Bits.

(** ** Fixed address ranges (address-range-defines.h) *)

Definition AR_SHADOW_STATE_START : Z := 0x0.
Definition AR_SHADOW_STATE_LENGTH : Z := 0x8000.
Definition AR_SHADOW_REGISTERS_START : Z := 0x0.
Definition AR_SHADOW_REGISTERS_LENGTH : Z := 0x1000.
Definition AR_SHADOW_REVERT_ROOT_HASH_START : Z := 0xfe0.
Definition AR_SHADOW_TLB_START : Z := 0x1000.
Definition AR_SHADOW_TLB_LENGTH : Z := 0x6000.
Definition AR_PMAS_START : Z := 0x10000.
Definition AR_PMAS_LENGTH : Z := 0x1000.
Definition AR_DTB_START : Z := 0x7ff00000.
Definition AR_DTB_LENGTH : Z := 0x100000.
Definition AR_SHADOW_UARCH_STATE_START : Z := 0x400000.
Definition AR_SHADOW_UARCH_STATE_LENGTH : Z := 0x1000.
Definition AR_CLINT_START : Z := 0x2000000.
Definition AR_CLINT_LENGTH : Z := 0xC0000.
Definition AR_PLIC_START : Z := 0x40100000.
Definition AR_PLIC_LENGTH : Z := 0x00400000.
Definition AR_HTIF_START : Z := 0x40008000.
Definition AR_HTIF_LENGTH : Z := 0x1000.
Definition AR_UARCH_RAM_START : Z := 0x600000.
Definition AR_UARCH_RAM_LENGTH : Z := 0x200000.
Definition AR_CMIO_RX_BUFFER_START : Z := 0x60000000.
Definition AR_CMIO_RX_BUFFER_LOG2_SIZE : Z := 21.
Definition AR_CMIO_RX_BUFFER_LENGTH : Z := Z.shiftl 1 AR_CMIO_RX_BUFFER_LOG2_SIZE.
Definition AR_CMIO_TX_BUFFER_START : Z := 0x60800000.
Definition AR_CMIO_TX_BUFFER_LOG2_SIZE : Z := 21.
Definition AR_CMIO_TX_BUFFER_LENGTH : Z := Z.shiftl 1 AR_CMIO_TX_BUFFER_LOG2_SIZE.
Definition AR_FIRST_VIRTIO_START : Z := 0x40010000.
Definition AR_LAST_VIRTIO_END : Z := 0x40020000.
Definition AR_RAM_START : Z := 0x80000000.
Definition AR_PAGE_SIZE : Z := Z.shiftl 1 12.
Definition PAGE_OFFSET_MASK : Z := 4095.
Definition LOG2_PAGE_SIZE : Z := 12.

Definition UARCH_STATE_START_ADDRESS : Z := AR_SHADOW_UARCH_STATE_START.
Definition UARCH_STATE_LOG2_SIZE : Z := 22.

(** [paddr >= start && paddr - start < length] on unsigned values. *)
Definition in_range (paddr start length : Z) : bool :=
  (start <=? paddr) && (uint64 (paddr - start) <? length).

(** [enum class ... : uint64_t { unknown_ = UINT64_C(1) << 63 }] *)
Definition unknown_ : Z := Z.shiftl 1 63.

(** ** Microarchitecture registers (shadow-uarch-state.hpp) *)

(** The members of [shadow_uarch_state], in order, by their names in messages. *)
Definition shadow_uarch_state_names : list string :=
  ["uarch.halt_flag"; "uarch.cycle"; "uarch.pc";
   "uarch.x0"; "uarch.x1"; "uarch.x2"; "uarch.x3"; "uarch.x4"; "uarch.x5"; "uarch.x6"; "uarch.x7";
   "uarch.x8"; "uarch.x9"; "uarch.x10"; "uarch.x11"; "uarch.x12"; "uarch.x13"; "uarch.x14";
   "uarch.x15"; "uarch.x16"; "uarch.x17"; "uarch.x18"; "uarch.x19"; "uarch.x20"; "uarch.x21";
   "uarch.x22"; "uarch.x23"; "uarch.x24"; "uarch.x25"; "uarch.x26"; "uarch.x27"; "uarch.x28";
   "uarch.x29"; "uarch.x30"; "uarch.x31"].
Definition sizeof_shadow_uarch_state : Z := 35 * 8.

Module shadow_uarch_state_what.
Definition uarch_halt_flag : Z := AR_SHADOW_UARCH_STATE_START + 0.
Definition uarch_cycle : Z := AR_SHADOW_UARCH_STATE_START + 8.
Definition uarch_pc : Z := AR_SHADOW_UARCH_STATE_START + 16.
Definition uarch_x0 : Z := AR_SHADOW_UARCH_STATE_START + 24.
End shadow_uarch_state_what.

Definition shadow_uarch_state_get_what (paddr : Z) : Z :=
  if (paddr <? AR_SHADOW_UARCH_STATE_START)
     || (sizeof_shadow_uarch_state <=? uint64 (paddr - AR_SHADOW_UARCH_STATE_START))
     || negb (Z.land paddr 7 =? 0)
  then unknown_ else paddr.

(** The overload with an index: the [i]-th register after [what]. *)
Definition shadow_uarch_state_get_what_i (what i : Z) : Z := uint64 (what + i * 8).

Definition shadow_uarch_state_get_what_address (what : Z) : Z := what.

Definition shadow_uarch_state_get_what_name (what : Z) : string :=
  let paddr := what in
  if (paddr <? AR_SHADOW_UARCH_STATE_START)
     || (sizeof_shadow_uarch_state <=? uint64 (paddr - AR_SHADOW_UARCH_STATE_START))
     || negb (Z.land paddr 7 =? 0)
  then "uarch.unknown_"
  else default "uarch.unknown_"
         (shadow_uarch_state_names !! Z.to_nat ((paddr - AR_SHADOW_UARCH_STATE_START) / 8)).

(** ** Registers (shadow-registers.hpp) *)

(** The members of [shadow_registers_state], in order, by their names in messages. *)
Definition shadow_registers_names : list string :=
  ["x0"; "x1"; "x2"; "x3"; "x4"; "x5"; "x6"; "x7"; "x8"; "x9"; "x10"; "x11"; "x12"; "x13"; "x14";
   "x15"; "x16"; "x17"; "x18"; "x19"; "x20"; "x21"; "x22"; "x23"; "x24"; "x25"; "x26"; "x27";
   "x28"; "x29"; "x30"; "x31";
   "mcycle"; "pc"; "fcsr";
   "f0"; "f1"; "f2"; "f3"; "f4"; "f5"; "f6"; "f7"; "f8"; "f9"; "f10"; "f11"; "f12"; "f13"; "f14";
   "f15"; "f16"; "f17"; "f18"; "f19"; "f20"; "f21"; "f22"; "f23"; "f24"; "f25"; "f26"; "f27";
   "f28"; "f29"; "f30"; "f31";
   "iprv";
   "mstatus"; "mtvec"; "mscratch"; "mepc"; "mcause"; "mtval"; "misa"; "mie"; "mip"; "medeleg";
   "mideleg"; "mcounteren"; "menvcfg"; "mvendorid"; "marchid"; "mimpid";
   "stvec"; "sscratch"; "sepc"; "scause"; "stval"; "satp"; "scounteren"; "senvcfg";
   "ilrsc"; "icycleinstret"; "iunrep"; "iflags.X"; "iflags.Y"; "iflags.H";
   "clint.mtimecmp"; "plic.girqpend"; "plic.girqsrvd";
   "htif.tohost"; "htif.fromhost"; "htif.ihalt"; "htif.iconsole"; "htif.iyield"].
Definition sizeof_shadow_registers_state : Z := 106 * 8.

Definition shadow_registers_get_what (paddr : Z) : Z :=
  if (paddr <? AR_SHADOW_REGISTERS_START)
     || (sizeof_shadow_registers_state <=? uint64 (paddr - AR_SHADOW_REGISTERS_START))
     || negb (Z.land paddr 7 =? 0)
  then unknown_ else paddr.

Definition shadow_registers_get_what_name (what : Z) : string :=
  let paddr := what in
  if (paddr <? AR_SHADOW_REGISTERS_START)
     || (sizeof_shadow_registers_state <=? uint64 (paddr - AR_SHADOW_REGISTERS_START))
     || negb (Z.land paddr 7 =? 0)
  then "state.unknown_"
  else default "state.unknown_"
         (shadow_registers_names !! Z.to_nat ((paddr - AR_SHADOW_REGISTERS_START) / 8)).

(** [machine_reg_address]: the address of the register's shadow
    ([IFLAGS_Y_ADDRESS] and [HTIF_TOHOST_ADDRESS] of uarch-constants.hpp). *)
Definition machine_reg_address (reg i : Z) : Z := uint64 (reg + i * 8).
Module machine_reg.
Definition x0 : Z := 0.
Definition mcycle : Z := 32 * 8.
Definition pc : Z := 33 * 8.
Definition fcsr : Z := 34 * 8.
Definition f0 : Z := 35 * 8.
Definition iprv : Z := 67 * 8.
Definition mstatus : Z := 68 * 8.
Definition mtvec : Z := 69 * 8.
Definition mscratch : Z := 70 * 8.
Definition mepc : Z := 71 * 8.
Definition mcause : Z := 72 * 8.
Definition mtval : Z := 73 * 8.
Definition misa : Z := 74 * 8.
Definition mie : Z := 75 * 8.
Definition mip : Z := 76 * 8.
Definition medeleg : Z := 77 * 8.
Definition mideleg : Z := 78 * 8.
Definition mcounteren : Z := 79 * 8.
Definition menvcfg : Z := 80 * 8.
Definition mvendorid : Z := 81 * 8.
Definition marchid : Z := 82 * 8.
Definition mimpid : Z := 83 * 8.
Definition stvec : Z := 84 * 8.
Definition sscratch : Z := 85 * 8.
Definition sepc : Z := 86 * 8.
Definition scause : Z := 87 * 8.
Definition stval : Z := 88 * 8.
Definition satp : Z := 89 * 8.
Definition scounteren : Z := 90 * 8.
Definition senvcfg : Z := 91 * 8.
Definition ilrsc : Z := 92 * 8.
Definition icycleinstret : Z := 93 * 8.
Definition iunrep : Z := 94 * 8.
Definition iflags_X : Z := 95 * 8.
Definition iflags_Y : Z := 96 * 8.
Definition iflags_H : Z := 97 * 8.
Definition clint_mtimecmp : Z := 98 * 8.
Definition plic_girqpend : Z := 99 * 8.
Definition plic_girqsrvd : Z := 100 * 8.
Definition htif_tohost : Z := 101 * 8.
Definition htif_fromhost : Z := 102 * 8.
Definition htif_ihalt : Z := 103 * 8.
Definition htif_iconsole : Z := 104 * 8.
Definition htif_iyield : Z := 105 * 8.
Definition uarch_x0 : Z := shadow_uarch_state_what.uarch_x0.
(** Views of registers *)
Definition htif_tohost_dev : Z := unknown_ + 1.
Definition htif_tohost_cmd : Z := unknown_ + 2.
Definition htif_tohost_reason : Z := unknown_ + 3.
Definition htif_tohost_data : Z := unknown_ + 4.
Definition htif_fromhost_dev : Z := unknown_ + 5.
Definition htif_fromhost_cmd : Z := unknown_ + 6.
Definition htif_fromhost_reason : Z := unknown_ + 7.
Definition htif_fromhost_data : Z := unknown_ + 8.
End machine_reg.
Definition IFLAGS_Y_ADDRESS : Z := machine_reg_address machine_reg.iflags_Y 0.
Definition HTIF_TOHOST_ADDRESS : Z := machine_reg_address machine_reg.htif_tohost 0.

(** The address tables agree with the layout. *)
Example register_addresses :
  map shadow_registers_get_what_name
    [machine_reg.x0; machine_reg.mcycle; machine_reg.pc; machine_reg.fcsr; machine_reg.f0;
     machine_reg.iprv; machine_reg.mstatus; machine_reg.mtvec; machine_reg.mscratch; machine_reg.mepc;
     machine_reg.mcause; machine_reg.mtval; machine_reg.misa; machine_reg.mie; machine_reg.mip;
     machine_reg.medeleg; machine_reg.mideleg; machine_reg.mcounteren; machine_reg.menvcfg; machine_reg.mvendorid;
     machine_reg.marchid; machine_reg.mimpid; machine_reg.stvec; machine_reg.sscratch; machine_reg.sepc;
     machine_reg.scause; machine_reg.stval; machine_reg.satp; machine_reg.scounteren; machine_reg.senvcfg;
     machine_reg.ilrsc; machine_reg.icycleinstret; machine_reg.iunrep; machine_reg.iflags_X; machine_reg.iflags_Y;
     machine_reg.iflags_H; machine_reg.clint_mtimecmp; machine_reg.plic_girqpend; machine_reg.plic_girqsrvd; machine_reg.htif_tohost;
     machine_reg.htif_fromhost; machine_reg.htif_ihalt; machine_reg.htif_iconsole; machine_reg.htif_iyield] =
  ["x0"; "mcycle"; "pc"; "fcsr"; "f0"; "iprv"; "mstatus"; "mtvec";
   "mscratch"; "mepc"; "mcause"; "mtval"; "misa"; "mie"; "mip"; "medeleg";
   "mideleg"; "mcounteren"; "menvcfg"; "mvendorid"; "marchid"; "mimpid"; "stvec"; "sscratch";
   "sepc"; "scause"; "stval"; "satp"; "scounteren"; "senvcfg"; "ilrsc"; "icycleinstret";
   "iunrep"; "iflags.X"; "iflags.Y"; "iflags.H"; "clint.mtimecmp"; "plic.girqpend"; "plic.girqsrvd"; "htif.tohost";
   "htif.fromhost"; "htif.ihalt"; "htif.iconsole"; "htif.iyield"].
Proof. reflexivity. Qed.

(** ** TLB (shadow-tlb.hpp) *)

Definition TLB_CODE : Z := 0.
Definition TLB_READ : Z := 1.
Definition TLB_WRITE : Z := 2.
Definition TLB_NUM_SETS_ : Z := 3.
Definition TLB_SET_SIZE : Z := 256.
Definition TLB_INVALID_PAGE : Z := 2 ^ 64 - 1.
Definition TLB_UNVERIFIED_PAGE : Z := 2 ^ 64 - 2.
Definition TLB_INVALID_PMA_INDEX : Z := 2 ^ 64 - 1.
Definition SHADOW_TLB_SLOT_SIZE : Z := 32.
Definition SHADOW_TLB_SLOT_LOG2_SIZE : Z := 5.
Definition sizeof_shadow_tlb_set : Z := TLB_SET_SIZE * SHADOW_TLB_SLOT_SIZE.
Definition sizeof_shadow_tlb_state : Z := TLB_NUM_SETS_ * sizeof_shadow_tlb_set.

Definition tlb_slot_index (vaddr : Z) : Z := Z.land (Z.shiftr vaddr LOG2_PAGE_SIZE) (TLB_SET_SIZE - 1).

(** [tlb_is_hit<T>]; [size] is [sizeof(T)]. *)
Definition tlb_is_hit (size slot_vaddr_page vaddr : Z) : bool :=
  slot_vaddr_page =? Z.land vaddr (not64 (Z.land PAGE_OFFSET_MASK (not64 (size - 1)))).

Definition tlb_addr_page (addr : Z) : Z := Z.land addr (not64 PAGE_OFFSET_MASK).

Record shadow_tlb_slot := {
  slot_vaddr_page : Z;
  slot_vp_offset : Z;
  slot_pma_index : Z;
  slot_zero_padding_ : Z
}.

Definition shadow_tlb_get_abs_addr (set_index slot_index : Z) : Z :=
  uint64 (AR_SHADOW_TLB_START + set_index * sizeof_shadow_tlb_set + slot_index * SHADOW_TLB_SLOT_SIZE).

(** The field at [paddr], with its set and slot. *)
Definition shadow_tlb_get_what (paddr : Z) : Z * option (Z * Z) :=
  if (paddr <? AR_SHADOW_TLB_START)
     || (sizeof_shadow_tlb_state <=? uint64 (paddr - AR_SHADOW_TLB_START))
     || negb (Z.land paddr 7 =? 0)
  then (unknown_, None)
  else
    let paddr := paddr - AR_SHADOW_TLB_START in
    (paddr mod SHADOW_TLB_SLOT_SIZE,
     Some (paddr / sizeof_shadow_tlb_set, (paddr mod sizeof_shadow_tlb_set) / SHADOW_TLB_SLOT_SIZE)).

Definition shadow_tlb_get_what_name (what : Z) : string :=
  let offset := what in
  if (unknown_ <? offset) || negb (Z.land offset 7 =? 0) then "tlb.unknown_"
  else if offset =? 0 then "tlb.slot.vaddr_page"
  else if offset =? 8 then "tlb.slot.vp_offset"
  else if offset =? 16 then "tlb.slot.pma_index"
  else if offset =? 24 then "tlb.slot.zero_padding_"
  else "tlb.unknown_".

(** The address range is passed as its three attributes. *)
Definition shadow_tlb_verify_slot (vaddr_page vp_offset zero_padding : Z)
    (ar_is_memory : bool) (ar_start ar_length : Z) : Z :=
  if vaddr_page =? TLB_INVALID_PAGE then TLB_INVALID_PAGE
  else if negb (zero_padding =? 0) then TLB_INVALID_PAGE
  else if negb (Z.land vaddr_page PAGE_OFFSET_MASK =? 0) then TLB_INVALID_PAGE
  else
    let paddr_page := uint64 (vaddr_page + vp_offset) in
    if negb (Z.land paddr_page PAGE_OFFSET_MASK =? 0) then TLB_INVALID_PAGE
    else if negb ar_is_memory then TLB_INVALID_PAGE
    else
      let pmas_end := uint64 (ar_start + (ar_length - AR_PAGE_SIZE)) in
      if (paddr_page <? ar_start) || (pmas_end <? paddr_page) then TLB_INVALID_PAGE
      else vaddr_page.

Definition shadow_tlb_fill_slot (vaddr_page vp_offset pma_index : Z) : shadow_tlb_slot :=
  {| slot_vaddr_page := vaddr_page; slot_vp_offset := vp_offset;
     slot_pma_index := pma_index; slot_zero_padding_ := 0 |}.

(** The object representation of a slot. *)
Definition shadow_tlb_slot_bytes (s : shadow_tlb_slot) : list Z :=
  le_bytes 8 (slot_vaddr_page s) ++ le_bytes 8 (slot_vp_offset s) ++
  le_bytes 8 (slot_pma_index s) ++ le_bytes 8 (slot_zero_padding_ s).

(** ** Physical memory attributes (pmas.hpp, pmas-constants.hpp) *)

Definition PMA_MAX : Z := 32.
Definition PMA_ISTART_START_MASK : Z := uint64 (Z.shiftl (-1) 12).

Module PMA_ISTART_DID.
Definition empty : Z := 0.
Definition memory : Z := 1.
Definition shadow_state : Z := 2.
Definition flash_drive : Z := 3.
Definition CLINT : Z := 4.
Definition HTIF : Z := 5.
Definition PLIC : Z := 6.
Definition cmio_rx_buffer : Z := 7.
Definition cmio_tx_buffer : Z := 8.
Definition shadow_uarch_state : Z := 9.
Definition VIRTIO : Z := 10.
Definition nvram : Z := 11.
End PMA_ISTART_DID.

Definition pmas_get_DID_name (did : Z) : string :=
  default "DID.unknown"
    (["DID.empty"; "DID.memory"; "DID.shadow_state"; "DID.flash_drive"; "DID.CLINT"; "DID.HTIF";
      "DID.PLIC"; "DID.cmio_rx_buffer"; "DID.cmio_tx_buffer"; "DID.shadow_uarch_state";
      "DID.VIRTIO"; "DID.nvram"] !! Z.to_nat did).

Definition pmas_is_protected (DID : Z) : bool :=
  negb ((DID =? PMA_ISTART_DID.memory) || (DID =? PMA_ISTART_DID.flash_drive)
        || (DID =? PMA_ISTART_DID.nvram) || (DID =? PMA_ISTART_DID.cmio_rx_buffer)
        || (DID =? PMA_ISTART_DID.cmio_tx_buffer)).

Record pmas_flags := {
  flag_M : bool; flag_IO : bool; flag_R : bool; flag_W : bool; flag_X : bool;
  flag_IR : bool; flag_IW : bool; flag_DID : Z
}.

#[export] Instance pmas_flags_eq_dec : EqDecision pmas_flags.
Proof. solve_decision. Defined.

(** [(istart & MASK) >> SHIFT != 0] for a one-bit mask. *)
Definition pma_bit (istart shift : Z) : bool :=
  negb (Z.shiftr (Z.land istart (Z.shiftl 1 shift)) shift =? 0).

(** Returns the flags and the [start] out-parameter. *)
Definition pmas_unpack_istart (istart : Z) : pmas_flags * Z :=
  ({| flag_M := pma_bit istart 0; flag_IO := pma_bit istart 1; flag_R := pma_bit istart 2;
      flag_W := pma_bit istart 3; flag_X := pma_bit istart 4; flag_IR := pma_bit istart 5;
      flag_IW := pma_bit istart 6;
      flag_DID := uint8 (Z.shiftr (Z.land istart (Z.shiftl 31 7)) 7) |},
   Z.land istart PMA_ISTART_START_MASK).

Definition pmas_pack_istart (flags : pmas_flags) (start : Z) : Z :=
  let istart := start in
  let istart := Z.lor istart (uint64 (Z.shiftl (b2u (flag_M flags)) 0)) in
  let istart := Z.lor istart (uint64 (Z.shiftl (b2u (flag_IO flags)) 1)) in
  let istart := Z.lor istart (uint64 (Z.shiftl (b2u (flag_R flags)) 2)) in
  let istart := Z.lor istart (uint64 (Z.shiftl (b2u (flag_W flags)) 3)) in
  let istart := Z.lor istart (uint64 (Z.shiftl (b2u (flag_X flags)) 4)) in
  let istart := Z.lor istart (uint64 (Z.shiftl (b2u (flag_IR flags)) 5)) in
  let istart := Z.lor istart (uint64 (Z.shiftl (b2u (flag_IW flags)) 6)) in
  Z.lor istart (uint64 (Z.shiftl (flag_DID flags) 7)).

Definition sizeof_pmas_entry : Z := 16.
Definition sizeof_pmas_state : Z := PMA_MAX * sizeof_pmas_entry.

Definition pmas_get_abs_addr (p : Z) : Z :=
  AR_PMAS_START + (if p <? PMA_MAX then p else PMA_MAX) * sizeof_pmas_entry.

Definition pmas_get_what (paddr : Z) : Z :=
  if (paddr <? AR_PMAS_START) || (sizeof_pmas_state <=? uint64 (paddr - AR_PMAS_START))
     || negb (Z.land paddr 7 =? 0)
  then unknown_ else (paddr - AR_PMAS_START) mod sizeof_pmas_entry.

Definition pmas_get_what_name (what : Z) : string :=
  if (sizeof_pmas_entry <=? what) || negb (Z.land what 7 =? 0) then "pma.unknown_"
  else if what =? 0 then "pma.istart"
  else if what =? 8 then "pma.ilength"
  else "pmas.unknown_".

(** ** machine::get_address_name (src/machine.cpp) *)

Definition get_address_name (paddr : Z) : string :=
  if in_range paddr AR_UARCH_RAM_START AR_UARCH_RAM_LENGTH then "uarch.ram"
  else if in_range paddr AR_SHADOW_REGISTERS_START AR_SHADOW_REGISTERS_LENGTH then
    shadow_registers_get_what_name (shadow_registers_get_what paddr)
  else if in_range paddr AR_SHADOW_TLB_START AR_SHADOW_TLB_LENGTH then
    shadow_tlb_get_what_name (fst (shadow_tlb_get_what paddr))
  else if in_range paddr AR_PMAS_START AR_PMAS_LENGTH then pmas_get_what_name (pmas_get_what paddr)
  else if in_range paddr AR_SHADOW_UARCH_STATE_START AR_SHADOW_UARCH_STATE_LENGTH then
    shadow_uarch_state_get_what_name (shadow_uarch_state_get_what paddr)
  else if in_range paddr AR_DTB_START AR_DTB_LENGTH then "dtb"
  else if in_range paddr AR_CLINT_START AR_CLINT_LENGTH then "clint"
  else if in_range paddr AR_HTIF_START AR_HTIF_LENGTH then "htif"
  else if in_range paddr AR_PLIC_START AR_PLIC_LENGTH then "plic"
  else if in_range paddr AR_CMIO_RX_BUFFER_START AR_CMIO_RX_BUFFER_LENGTH then "cmio.rx_buffer"
  else if in_range paddr AR_CMIO_TX_BUFFER_START AR_CMIO_TX_BUFFER_LENGTH then "cmio.tx_buffer"
  else if (AR_FIRST_VIRTIO_START <=? paddr) && (paddr <? AR_LAST_VIRTIO_END) then "virtio"
  else "memory".

(** ** Facts *)

Lemma testbit_b2u b i : 0 <= i -> Z.testbit (b2u b) i = b && bool_decide (i = 0).
Proof.
  intros. destruct b; simpl; [|apply Z.bits_0].
  case_bool_decide; [by subst|]. by apply (is_u_testbit 1 1); unfold is_u; lia.
Qed.

Lemma pma_bit_testbit istart k : 0 <= k -> pma_bit istart k = Z.testbit istart k.
Proof.
  intros. unfold pma_bit. change 1 with (Z.ones 1). rewrite masked_field by lia.
  rewrite bitfield_div, <-Z.bit0_mod, Z.div_pow2_bits, Z.add_0_l by lia.
  by destruct (Z.testbit istart k).
Qed.

Lemma pack_istart_testbit flags start i :
  0 <= i < 64 -> is_u 5 (flag_DID flags) ->
  Z.testbit (pmas_pack_istart flags start) i =
    Z.testbit start i
    || flag_M flags && bool_decide (i = 0) || flag_IO flags && bool_decide (i = 1)
    || flag_R flags && bool_decide (i = 2) || flag_W flags && bool_decide (i = 3)
    || flag_X flags && bool_decide (i = 4) || flag_IR flags && bool_decide (i = 5)
    || flag_IW flags && bool_decide (i = 6)
    || bool_decide (7 <= i) && Z.testbit (flag_DID flags) (i - 7).
Proof.
  intros Hi Hd. unfold pmas_pack_istart, uint64. testbit_simpl.
  rewrite (bool_decide_eq_true_2 (i < 64)) by lia. rewrite !andb_true_l.
  assert (Hb : forall b k, 0 <= k -> Z.testbit (b2u b) (i - k) = b && bool_decide (i = k)).
  { intros b k Hk. destruct (decide (i < k)).
    - rewrite Z.testbit_neg_r, bool_decide_eq_false_2, andb_false_r by lia. done.
    - rewrite testbit_b2u by lia. f_equal. apply bool_decide_ext. lia. }
  rewrite !Hb by lia. f_equal.
  case_bool_decide; [done|]. by rewrite Z.testbit_neg_r by lia.
Qed.
Lemma pmas_istart_pack flags start :
  is_u 64 start -> Z.land start PAGE_OFFSET_MASK = 0 -> is_u 5 (flag_DID flags) ->
  pmas_unpack_istart (pmas_pack_istart flags start) = (flags, start).
Proof.
  intros Hs Ha Hd.
  assert (Hs' : forall i, 0 <= i < 12 -> Z.testbit start i = false).
  { intros i Hi. apply (f_equal (fun x => Z.testbit x i)) in Ha.
    rewrite Z.bits_0, Z.land_spec in Ha. change PAGE_OFFSET_MASK with (Z.ones 12) in Ha.
    rewrite testbit_ones, bool_decide_eq_true_2, andb_true_r in Ha by lia. done. }
  unfold pmas_unpack_istart. rewrite !pma_bit_testbit, !pack_istart_testbit, !Hs' by (done || lia).
  simpl. rewrite !andb_true_r, !andb_false_r, !orb_false_r.
  f_equal.
  - destruct flags as [M IO R W X IR IW DID]; cbn [flag_M flag_IO flag_R flag_W flag_X flag_IR flag_IW flag_DID] in *.
    f_equal. change 31 with (Z.ones 5). rewrite masked_field by lia.
    unfold uint8. rewrite uwrap_small by (pose proof (bitfield_range 7 5 (pmas_pack_istart {| flag_M := M; flag_IO := IO; flag_R := R; flag_W := W; flag_X := X; flag_IR := IR; flag_IW := IW; flag_DID := DID |} start)); unfold is_u in *; lia).
    apply Z.bits_inj'. intros i Hi. rewrite testbit_bitfield, (andb_comm (bool_decide (i < 5))), (Z.add_comm _ 7) by lia.
    case_bool_decide as Hi5; [|by rewrite andb_false_r, (is_u_testbit 5) by (done || lia)].
    rewrite andb_true_r, pack_istart_testbit, Hs' by (done || lia).
    cbn [flag_M flag_IO flag_R flag_W flag_X flag_IR flag_IW flag_DID].
    rewrite !(bool_decide_eq_false_2 (7 + i = _)) by lia. rewrite !andb_false_r.
    rewrite bool_decide_eq_true_2 by lia. simpl. f_equal. lia.
  - apply Z.bits_inj'. intros i Hi. rewrite Z.land_spec.
    change PMA_ISTART_START_MASK with (uwrap 64 (Z.shiftl (-1) 12)).
    rewrite testbit_uwrap, Z.shiftl_spec by lia.
    destruct (decide (12 <= i < 64)).
    + rewrite bool_decide_eq_true_2, Z.bits_m1, pack_istart_testbit by (done || lia).
      rewrite !(bool_decide_eq_false_2 (i = _)) by lia.
      rewrite (is_u_testbit 5 (flag_DID flags)) by (done || lia).
      by rewrite !andb_false_r, !orb_false_r, andb_true_r.
    + destruct (decide (i < 12)).
      * by rewrite (Z.testbit_neg_r (-1)), !andb_false_r, Hs' by lia.
      * by rewrite (bool_decide_eq_false_2 (i < 64)), andb_false_r, (is_u_testbit 64 start) by (done || lia).
Qed.

Lemma pmas_istart_unpack istart :
  is_u 64 istart ->
  pmas_pack_istart (fst (pmas_unpack_istart istart)) (snd (pmas_unpack_istart istart)) = istart.
Proof.
  intros Hs.
  assert (HD : uint8 (Z.shiftr (Z.land istart (Z.shiftl 31 7)) 7) = bitfield 7 5 istart).
  { change 31 with (Z.ones 5). rewrite masked_field by lia. apply uwrap_small.
    pose proof (bitfield_range 7 5 istart). unfold is_u in *. lia. }
  unfold pmas_unpack_istart. cbn [fst snd]. rewrite HD, !pma_bit_testbit by lia.
  apply Z.bits_inj'. intros i Hi.
  destruct (decide (i < 64)).
  - rewrite pack_istart_testbit by (try lia; apply (bitfield_range 7 5); lia).
    cbn [flag_M flag_IO flag_R flag_W flag_X flag_IR flag_IW flag_DID].
    change PMA_ISTART_START_MASK with (uwrap 64 (Z.shiftl (-1) 12)).
    rewrite Z.land_spec, testbit_uwrap, Z.shiftl_spec, (bool_decide_eq_true_2 (i < 64)), andb_true_l by lia.
    assert (i = 0 \/ i = 1 \/ i = 2 \/ i = 3 \/ i = 4 \/ i = 5 \/ i = 6 \/ 7 <= i < 12 \/ 12 <= i)
      as [->|[->|[->|[->|[->|[->|[->|[?|?]]]]]]]] by lia.
    1-7: rewrite (Z.testbit_neg_r (-1)) by lia; simpl;
      rewrite ?andb_true_r, ?andb_false_r, ?orb_false_r, ?orb_true_l; done.
    + rewrite (Z.testbit_neg_r (-1)) by lia. rewrite testbit_bitfield, (andb_comm (bool_decide (_ < 5))), (Z.add_comm _ 7) by lia.
      rewrite !(bool_decide_eq_false_2 (i = _)) by lia.
      rewrite !bool_decide_eq_true_2 by lia. rewrite !andb_false_r, andb_true_r. simpl. f_equal. lia.
    + rewrite Z.bits_m1 by lia. rewrite !(bool_decide_eq_false_2 (i = _)) by lia.
      rewrite (is_u_testbit 5 (bitfield 7 5 istart)) by (try lia; apply (bitfield_range 7 5); lia).
      by rewrite !andb_false_r, !orb_false_r, andb_true_r.
  - rewrite (is_u_testbit 64 istart i) by (done || lia).
    unfold pmas_pack_istart, uint64. testbit_simpl.
    rewrite (bool_decide_eq_false_2 (i < 64)) by lia. cbn [fst snd]. testbit_simpl.
    by rewrite (is_u_testbit 64 istart i) by (done || lia).
Qed.

Lemma shadow_tlb_get_what_slot set_index slot_index field :
  0 <= set_index < TLB_NUM_SETS_ -> 0 <= slot_index < TLB_SET_SIZE -> field ∈ [0; 8; 16; 24] ->
  shadow_tlb_get_what (shadow_tlb_get_abs_addr set_index slot_index + field) =
    (field, Some (set_index, slot_index)).
Proof.
  unfold TLB_NUM_SETS_, TLB_SET_SIZE. intros Hset Hslot Hf.
  assert (Hf' : 0 <= field < 32 /\ field mod 8 = 0) by (set_unfold in Hf; intuition subst; lia || reflexivity).
  unfold shadow_tlb_get_what, shadow_tlb_get_abs_addr, sizeof_shadow_tlb_state, sizeof_shadow_tlb_set,
    TLB_NUM_SETS_, TLB_SET_SIZE, SHADOW_TLB_SLOT_SIZE, AR_SHADOW_TLB_START, uint64.
  rewrite !uwrap_small by (unfold is_u; lia).
  change 7 with (Z.ones 3). rewrite Z.land_ones by lia. change (2 ^ 3) with 8.
  replace ((4096 + set_index * (256 * 32) + slot_index * 32 + field) mod 8) with (field mod 8)
    by (replace (4096 + set_index * (256 * 32) + slot_index * 32 + field)
          with (field + (512 + set_index * 1024 + slot_index * 4) * 8) by lia; by rewrite Z.mod_add).
  destruct Hf' as [Hr ->]. simpl (negb _). 
  replace (_ <? _) with false by lia. replace (_ <=? _) with false by lia. cbn [orb].
  replace (4096 + _ + _ + field - 4096) with (set_index * 8192 + (slot_index * 32 + field)) by lia.
  f_equal; [|do 2 f_equal].
  - symmetry. apply Z.mod_unique with (set_index * 256 + slot_index); lia.
  - symmetry. apply Z.div_unique with (slot_index * 32 + field); lia.
  - change (256 * 32) with 8192.
    replace ((set_index * 8192 + (slot_index * 32 + field)) mod 8192) with (slot_index * 32 + field)
      by (apply Z.mod_unique with set_index; lia).
    symmetry. apply Z.div_unique with field; lia.
Qed.

Lemma tlb_is_hit_spec k page vaddr :
  0 <= k <= 12 -> is_u 64 vaddr -> Z.land page PAGE_OFFSET_MASK = 0 ->
  tlb_is_hit (2 ^ k) page vaddr = bool_decide (tlb_addr_page vaddr = page /\ vaddr mod 2 ^ k = 0).
Proof.
  intros Hk Hv Hp.
  assert (Hones : 2 ^ k - 1 = Z.ones k) by (rewrite Z.ones_equiv; lia).
  assert (Hku : is_u 64 (Z.ones k)).
  { apply testbit_is_u; [lia|]. intros i Hi. rewrite testbit_ones by lia. apply bool_decide_eq_false_2. lia. }
  assert (H12 : is_u 64 (Z.ones 12)) by (change (Z.ones 12) with 4095; unfold is_u; lia).
  unfold tlb_is_hit, tlb_addr_page. change PAGE_OFFSET_MASK with (Z.ones 12) in *. rewrite Hones.
  set (m := Z.land (Z.ones 12) (not64 (Z.ones k))).
  assert (Hm : is_u 64 m) by (apply testbit_is_u; [lia|]; intros i Hi; unfold m;
    rewrite Z.land_spec, testbit_ones, bool_decide_eq_false_2 by lia; done).
  (* the part compared is the page and the offset within the access *)
  assert (E : Z.land vaddr (not64 m) = Z.lor (Z.land vaddr (not64 (Z.ones 12))) (vaddr mod 2 ^ k)).
  { rewrite <-Z.land_ones by lia. apply Z.bits_inj'. intros i Hi. unfold m.
    rewrite Z.lor_spec, !Z.land_spec, !testbit_not64, Z.land_spec, testbit_not64, !testbit_ones by (done || lia).
    destruct (Z.testbit vaddr i) eqn:Ev; [|done].
    assert (i < 64) by (destruct (decide (i < 64)); [done|]; by rewrite (is_u_testbit 64) in Ev by (done || lia)).
    repeat case_bool_decide; done || lia. }
  rewrite E. set (p := Z.land vaddr (not64 (Z.ones 12))).
  assert (Hlow : forall x, Z.land x (Z.ones 12) = 0 -> Z.land (Z.lor x (vaddr mod 2 ^ k)) (Z.ones 12) = vaddr mod 2 ^ k).
  { intros x Hx. rewrite Z.land_lor_distr_l, Hx, Z.lor_0_l, Z.land_ones by lia.
    apply Z.mod_small. pose proof (Z.mod_pos_bound vaddr (2 ^ k) ltac:(lia)).
    pose proof (Z.pow_le_mono_r 2 k 12 ltac:(lia) ltac:(lia)). lia. }
  assert (Hp0 : Z.land p (Z.ones 12) = 0).
  { unfold p. apply Z.bits_inj'. intros i Hi.
    rewrite !Z.land_spec, testbit_not64, testbit_ones, Z.bits_0 by (done || lia).
    repeat case_bool_decide; simpl; rewrite ?andb_false_r; done || lia. }
  apply eq_true_iff_eq. rewrite bool_decide_eq_true, Z.eqb_eq. split.
  - intros ->. rewrite Hlow in Hp by done. split; [|done]. by rewrite Hp, Z.lor_0_r.
  - intros [<- ->]. by rewrite Z.lor_0_r.
Qed.
