(* ===== verification/SolidityCompat.v ===== *)
(** * The Solidity compatibility layer (src/uarch-solidity-compat.hpp)

    The interface [i_uarch_state_access] that the microarchitecture stepper is
    a template over, the free functions that forward to it, and the
    fixed-width arithmetic with the overflow behaviour the Solidity port
    relies on. *)

From S2P Require Import Prelude Htif.

(** ** Constants (uarch-defines.h) *)

Definition UARCH_LOG2_CYCLE_MAX : Z := 20.
Definition UARCH_CYCLE_MAX : Z := Z.shiftl 1 UARCH_LOG2_CYCLE_MAX.
Definition UARCH_ECALL_FN_HALT : Z := 1.
Definition UARCH_ECALL_FN_PUTCHAR : Z := 2.
Definition UARCH_ECALL_FN_WRITE_TLB : Z := 4.

(** Whether [assert] is compiled out (NDEBUG): the default build keeps it,
    the release build does not. *)
Class BuildConfig := { NDEBUG : bool }.

(** ** i_uarch_state_access (src/i-uarch-state-access.hpp)

    Register indices are [int]s, addresses and values [uint64_t]s. *)
Class IUarchStateAccess (S : Type) := {
  read_uarch_x : Z -> M S Z;
  write_uarch_x : Z -> Z -> M S unit;
  read_uarch_pc : M S Z;
  write_uarch_pc : Z -> M S unit;
  read_uarch_cycle : M S Z;
  write_uarch_cycle : Z -> M S unit;
  read_uarch_halt_flag : M S Z;
  write_uarch_halt_flag : Z -> M S unit;
  read_word : Z -> M S Z;
  write_word : Z -> Z -> M S unit;
  uarch_putchar : Z -> M S bool;
  write_tlb : Z -> Z -> Z -> Z -> Z -> M S unit;
  reset_uarch : M S unit;
  revert_state : M S unit
}.

Section accessors.
Context {S : Type} {a : IUarchStateAccess S}.

(** The [uint64] parameters convert. *)
Definition readWord (paddr : Z) : M S Z := read_word (uint64 paddr).
Definition writeWord (paddr val : Z) : M S unit := write_word (uint64 paddr) (uint64 val).
Definition readCycle : M S Z := read_uarch_cycle.
Definition writeCycle (val : Z) : M S unit := write_uarch_cycle val.
Definition readHaltFlag : M S Z := read_uarch_halt_flag.
Definition writeHaltFlag (val : Z) : M S unit := write_uarch_halt_flag val.
Definition readPc : M S Z := read_uarch_pc.
Definition writePc (val : Z) : M S unit := write_uarch_pc val.
Definition readX (reg : Z) : M S Z := read_uarch_x reg.
Definition writeX (reg val : Z) : M S unit := write_uarch_x reg val.
Definition resetState : M S unit := reset_uarch.
Definition revertState : M S unit := revert_state.
Definition throwRuntimeError {A} (message : string) : M S A := throw (runtime_error message).
Definition putCharECALL (c : Z) : M S unit := uarch_putchar c ≫= fun _ => mret ().
Definition writeTlbECALL (set_index slot_index vaddr_page vp_offset pma_index : Z) : M S unit :=
  write_tlb (uint64 set_index) (uint64 slot_index) (uint64 vaddr_page) (uint64 vp_offset) (uint64 pma_index).

(** [require] is an [assert]: it aborts, unless compiled out. *)
Definition require `{BuildConfig} (condition : bool) (message : string) : M S unit :=
  if NDEBUG then mret () else if condition then mret () else throw (assertion_failed message).
End accessors.

(** ** Conversions and arithmetic functions *)

Definition uint64ToInt32 (v : Z) : Z := int32 v.
Definition uint64AddInt32 (v w : Z) : Z := uint64 (v + w).
Definition uint64SubUint64 (v w : Z) : Z := uint64 (v - w).
Definition uint64AddUint64 (v w : Z) : Z := uint64 (v + w).
Definition uint64ShiftRight (v count : Z) : Z := Z.shiftr v (Z.land count 0x3f).
Definition uint64ShiftLeft (v count : Z) : Z := uint64 (Z.shiftl v (Z.land count 0x3f)).
Definition int64ShiftRight (v count : Z) : Z := Z.shiftr v (Z.land count 0x3f).
(** [__builtin_add_overflow] stores the sum modulo 2^64. *)
Definition int64AddInt64 (v w : Z) : Z := int64 (v + w).
Definition uint32ShiftRight (v count : Z) : Z := Z.shiftr v (Z.land count 0x1f).
Definition uint32ShiftLeft (v count : Z) : Z := uint32 (Z.shiftl v (Z.land count 0x1f)).
Definition int32ToUint64 (v : Z) : Z := uint64 v.
Definition int32ShiftRight (v count : Z) : Z := Z.shiftr v (Z.land count 0x1f).
Definition int32AddInt32 (v w : Z) : Z := int32 (v + w).
Definition int32SubInt32 (v w : Z) : Z := int32 (v - w).
Definition int16ToUint64 (v : Z) : Z := uint64 v.
Definition int8ToUint64 (v : Z) : Z := uint64 v.

(** [31 - __builtin_clz(v)]; undefined in C when v is 0. *)
Definition uint32Log2 (v : Z) : Z := Z.log2 v.

Definition isYieldedManualWith (tohost yieldReason : Z) : bool :=
  let dev := uint64ShiftRight (Z.land tohost HTIF_DEV_MASK) HTIF_DEV_SHIFT in
  let cmd := uint64ShiftRight (Z.land tohost HTIF_CMD_MASK) HTIF_CMD_SHIFT in
  let reason := uint64ShiftRight (Z.land tohost HTIF_REASON_MASK) HTIF_REASON_SHIFT in
  (dev =? HTIF_DEV_YIELD) && (cmd =? HTIF_YIELD_CMD_MANUAL) && (reason =? yieldReason).
