(* ===== verification/UarchStep.v ===== *)
(** * The microarchitecture stepper (src/uarch-step.cpp, src/uarch-interpret.cpp)

    A RV64I interpreter, generic in the state it runs on: every definition of
    the section is a template function of uarch-step.cpp over an
    [i_uarch_state_access].  [dumpInsn] only traces and has no counterpart. *)

From S2P Require Import Prelude Htif Shadow SolidityCompat.

(** ** Instruction operand decoders *)

Definition operandRd (insn : Z) : Z := uint8 (uint32ShiftRight (uint32ShiftLeft insn 20) 27).
Definition operandRs1 (insn : Z) : Z := uint8 (uint32ShiftRight (uint32ShiftLeft insn 12) 27).
Definition operandRs2 (insn : Z) : Z := uint8 (uint32ShiftRight (uint32ShiftLeft insn 7) 27).
Definition operandImm12 (insn : Z) : Z := int32ShiftRight (int32 insn) 20.
Definition operandImm20 (insn : Z) : Z := int32 (uint32ShiftLeft (uint32ShiftRight insn 12) 12).

Definition operandJimm20 (insn : Z) : Z :=
  let a := int32 (uint32ShiftLeft (uint32 (int32ShiftRight (int32 insn) 31)) 20) in
  let b := uint32ShiftLeft (uint32ShiftRight (uint32ShiftLeft insn 1) 22) 1 in
  let c := uint32ShiftLeft (uint32ShiftRight (uint32ShiftLeft insn 11) 31) 11 in
  let d := uint32ShiftLeft (uint32ShiftRight (uint32ShiftLeft insn 12) 24) 12 in
  int32 (Z.lor (Z.lor (Z.lor (uint32 a) b) c) d).

Definition operandShamt5 (insn : Z) : Z := int32 (uint32ShiftRight (uint32ShiftLeft insn 7) 27).
Definition operandShamt6 (insn : Z) : Z := int32 (uint32ShiftRight (uint32ShiftLeft insn 6) 26).

Definition operandSbimm12 (insn : Z) : Z :=
  let a := int32 (uint32ShiftLeft (uint32 (int32ShiftRight (int32 insn) 31)) 12) in
  let b := uint32ShiftLeft (uint32ShiftRight (uint32ShiftLeft insn 1) 26) 5 in
  let c := uint32ShiftLeft (uint32ShiftRight (uint32ShiftLeft insn 20) 28) 1 in
  let d := uint32ShiftLeft (uint32ShiftRight (uint32ShiftLeft insn 24) 31) 11 in
  int32 (Z.lor (Z.lor (Z.lor (uint32 a) b) c) d).

Definition operandSimm12 (insn : Z) : Z :=
  int32 (Z.lor (uint32ShiftLeft (uint32 (int32ShiftRight (int32 insn) 25)) 5)
               (uint32ShiftRight (uint32ShiftLeft insn 20) 27)).

(** ** Instruction matchers *)

Definition insnMatchOpcode (insn opcode : Z) : bool := Z.land insn 0x7f =? opcode.

Definition insnMatchOpcodeFunct3 (insn opcode funct3 : Z) : bool :=
  let mask := Z.lor (Z.shiftl 7 12) 0x7f in
  Z.land insn mask =? Z.lor (uint32ShiftLeft funct3 12) opcode.

Definition insnMatchOpcodeFunct3Funct7 (insn opcode funct3 funct7 : Z) : bool :=
  let mask := Z.lor (Z.lor (Z.shiftl 0x7f 25) (Z.shiftl 7 12)) 0x7f in
  Z.land insn mask =? Z.lor (Z.lor (uint32ShiftLeft funct7 25) (uint32ShiftLeft funct3 12)) opcode.

Definition insnMatchOpcodeFunct3Funct7Sr1 (insn opcode funct3 funct7Sr1 : Z) : bool :=
  let mask := Z.lor (Z.lor (Z.shiftl 0x3f 26) (Z.shiftl 7 12)) 0x7f in
  Z.land insn mask =? Z.lor (Z.lor (uint32ShiftLeft funct7Sr1 26) (uint32ShiftLeft funct3 12)) opcode.

(** ** Memory read/write access *)

(** The word that [copyBits] returns, once its [require] passed. *)
Definition copyBitsWord (from count to offset : Z) : Z :=
  let eraseMask := uint64 (uint64ShiftLeft 1 count - 1) in
  let eraseMask := not64 (uint64ShiftLeft eraseMask offset) in
  Z.lor (uint64ShiftLeft from offset) (Z.land to eraseMask).

Inductive UArchStepStatus := Success | CycleOverflow | UArchHalted.

Inductive uarch_interpreter_break_reason := reached_target_cycle | uarch_halted | cycle_overflow.

#[export] Instance UArchStepStatus_eq_dec : EqDecision UArchStepStatus.
Proof. solve_decision. Defined.
#[export] Instance uarch_interpreter_break_reason_eq_dec : EqDecision uarch_interpreter_break_reason.
Proof. solve_decision. Defined.

Section uarch.
Context {cfg : BuildConfig} {S : Type} {a : IUarchStateAccess S}.

Definition readUint64 (paddr : Z) : M S Z :=
  require (Z.land paddr 7 =? 0) "misaligned readUint64 address" ;;
  readWord paddr.

Definition readUint32 (paddr : Z) : M S Z :=
  require (Z.land paddr 3 =? 0) "misaligned readUint32 address" ;;
  let palign := Z.land paddr (not64 7) in
  let bitoffset := uint32ShiftLeft (Z.land (uint32 paddr) 7) 3 in
  val64 ← readUint64 palign;
  mret (uint32 (uint64ShiftRight val64 bitoffset)).

Definition readUint16 (paddr : Z) : M S Z :=
  require (Z.land paddr 1 =? 0) "misaligned readUint16 address" ;;
  let palign := Z.land paddr (not64 7) in
  let bitoffset := uint32ShiftLeft (Z.land (uint32 paddr) 7) 3 in
  val64 ← readUint64 palign;
  mret (uint16 (uint64ShiftRight val64 bitoffset)).

Definition readUint8 (paddr : Z) : M S Z :=
  let palign := Z.land paddr (not64 7) in
  let bitoffset := uint32ShiftLeft (Z.land (uint32 paddr) 7) 3 in
  val64 ← readUint64 palign;
  mret (uint8 (uint64ShiftRight val64 bitoffset)).

Definition writeUint64 (paddr val : Z) : M S unit :=
  require (Z.land paddr 7 =? 0) "misaligned writeUint64 address" ;;
  writeWord paddr val.

Definition copyBits (from count to offset : Z) : M S Z :=
  require (offset + count <=? 64) "copyBits count exceeds limit of 64" ;;
  mret (copyBitsWord from count to offset).

Definition writeUint32 (paddr val : Z) : M S unit :=
  require (Z.land paddr 3 =? 0) "misaligned writeUint32 address" ;;
  let palign := Z.land paddr (not64 7) in
  let bitoffset := uint32ShiftLeft (Z.land (uint32 paddr) 7) 3 in
  oldval64 ← readUint64 palign;
  newval64 ← copyBits val 32 oldval64 bitoffset;
  writeUint64 palign newval64.

Definition writeUint16 (paddr val : Z) : M S unit :=
  require (Z.land paddr 1 =? 0) "misaligned writeUint16 address" ;;
  let palign := Z.land paddr (not64 7) in
  let bitoffset := uint32ShiftLeft (Z.land (uint32 paddr) 7) 3 in
  oldval64 ← readUint64 palign;
  newval64 ← copyBits val 16 oldval64 bitoffset;
  writeUint64 palign newval64.

Definition writeUint8 (paddr val : Z) : M S unit :=
  let palign := Z.land paddr (not64 7) in
  let bitoffset := uint32ShiftLeft (Z.land (uint32 paddr) 7) 3 in
  oldval64 ← readUint64 palign;
  newval64 ← copyBits val 8 oldval64 bitoffset;
  writeUint64 palign newval64.

(** *** Execute instruction *)

Definition advancePc (pc : Z) : M S unit :=
  let newPc := uint64AddUint64 pc 4 in
  writePc newPc.

Definition branch (pc : Z) : M S unit := writePc pc.

Definition executeLUI (insn pc : Z) : M S unit :=
  let rd := operandRd insn in
  let imm := operandImm20 insn in
  when (negb (rd =? 0)) (writeX rd (int32ToUint64 imm)) ;;
  advancePc pc.

Definition executeAUIPC (insn pc : Z) : M S unit :=
  let imm := operandImm20 insn in
  let rd := operandRd insn in
  when (negb (rd =? 0)) (writeX rd (uint64AddInt32 pc imm)) ;;
  advancePc pc.

Definition executeJAL (insn pc : Z) : M S unit :=
  let imm := operandJimm20 insn in
  let rd := operandRd insn in
  when (negb (rd =? 0)) (writeX rd (uint64AddUint64 pc 4)) ;;
  branch (uint64AddInt32 pc imm).

Definition executeJALR (insn pc : Z) : M S unit :=
  let imm := operandImm12 insn in
  let rd := operandRd insn in
  let rs1 := operandRs1 insn in
  rs1val ← readX rs1;
  when (negb (rd =? 0)) (writeX rd (uint64AddUint64 pc 4)) ;;
  branch (Z.land (uint64AddInt32 rs1val imm) (not64 1)).

Definition executeBEQ (insn pc : Z) : M S unit :=
  let imm := operandSbimm12 insn in
  let rs1 := operandRs1 insn in
  let rs2 := operandRs2 insn in
  rs1val ← readX rs1;
  rs2val ← readX rs2;
  if rs1val =? rs2val then branch (uint64AddInt32 pc imm) else advancePc pc.

Definition executeBNE (insn pc : Z) : M S unit :=
  let imm := operandSbimm12 insn in
  let rs1 := operandRs1 insn in
  let rs2 := operandRs2 insn in
  rs1val ← readX rs1;
  rs2val ← readX rs2;
  if negb (rs1val =? rs2val) then branch (uint64AddInt32 pc imm) else advancePc pc.

Definition executeBLT (insn pc : Z) : M S unit :=
  let imm := operandSbimm12 insn in
  let rs1 := operandRs1 insn in
  let rs2 := operandRs2 insn in
  rs1reg ← readX rs1;
  rs2reg ← readX rs2;
  let rs1val := int64 rs1reg in
  let rs2val := int64 rs2reg in
  if rs1val <? rs2val then branch (uint64AddInt32 pc imm) else advancePc pc.

Definition executeBGE (insn pc : Z) : M S unit :=
  let imm := operandSbimm12 insn in
  let rs1 := operandRs1 insn in
  let rs2 := operandRs2 insn in
  rs1reg ← readX rs1;
  rs2reg ← readX rs2;
  let rs1val := int64 rs1reg in
  let rs2val := int64 rs2reg in
  if rs2val <=? rs1val then branch (uint64AddInt32 pc imm) else advancePc pc.

Definition executeBLTU (insn pc : Z) : M S unit :=
  let imm := operandSbimm12 insn in
  let rs1 := operandRs1 insn in
  let rs2 := operandRs2 insn in
  rs1val ← readX rs1;
  rs2val ← readX rs2;
  if rs1val <? rs2val then branch (uint64AddInt32 pc imm) else advancePc pc.

Definition executeBGEU (insn pc : Z) : M S unit :=
  let imm := operandSbimm12 insn in
  let rs1 := operandRs1 insn in
  let rs2 := operandRs2 insn in
  rs1val ← readX rs1;
  rs2val ← readX rs2;
  if rs2val <=? rs1val then branch (uint64AddInt32 pc imm) else advancePc pc.

Definition executeLB (insn pc : Z) : M S unit :=
  let imm := operandImm12 insn in
  let rd := operandRd insn in
  let rs1 := operandRs1 insn in
  rs1val ← readX rs1;
  v ← readUint8 (uint64AddInt32 rs1val imm);
  when (negb (rd =? 0)) (writeX rd (int8ToUint64 (int8 v))) ;;
  advancePc pc.

Definition executeLHU (insn pc : Z) : M S unit :=
  let imm := operandImm12 insn in
  let rd := operandRd insn in
  let rs1 := operandRs1 insn in
  rs1val ← readX rs1;
  v ← readUint16 (uint64AddInt32 rs1val imm);
  when (negb (rd =? 0)) (writeX rd v) ;;
  advancePc pc.

Definition executeLH (insn pc : Z) : M S unit :=
  let imm := operandImm12 insn in
  let rd := operandRd insn in
  let rs1 := operandRs1 insn in
  rs1val ← readX rs1;
  v ← readUint16 (uint64AddInt32 rs1val imm);
  when (negb (rd =? 0)) (writeX rd (int16ToUint64 (int16 v))) ;;
  advancePc pc.

Definition executeLW (insn pc : Z) : M S unit :=
  let imm := operandImm12 insn in
  let rd := operandRd insn in
  let rs1 := operandRs1 insn in
  rs1val ← readX rs1;
  v ← readUint32 (uint64AddInt32 rs1val imm);
  when (negb (rd =? 0)) (writeX rd (int32ToUint64 (int32 v))) ;;
  advancePc pc.

Definition executeLBU (insn pc : Z) : M S unit :=
  let imm := operandImm12 insn in
  let rd := operandRd insn in
  let rs1 := operandRs1 insn in
  rs1val ← readX rs1;
  v ← readUint8 (uint64AddInt32 rs1val imm);
  when (negb (rd =? 0)) (writeX rd v) ;;
  advancePc pc.

Definition executeLWU (insn pc : Z) : M S unit :=
  let imm := operandImm12 insn in
  let rd := operandRd insn in
  let rs1 := operandRs1 insn in
  rs1val ← readX rs1;
  v ← readUint32 (uint64AddInt32 rs1val imm);
  when (negb (rd =? 0)) (writeX rd v) ;;
  advancePc pc.

Definition executeLD (insn pc : Z) : M S unit :=
  let imm := operandImm12 insn in
  let rd := operandRd insn in
  let rs1 := operandRs1 insn in
  rs1val ← readX rs1;
  v ← readUint64 (uint64AddInt32 rs1val imm);
  when (negb (rd =? 0)) (writeX rd v) ;;
  advancePc pc.

Definition executeSB (insn pc : Z) : M S unit :=
  let imm := operandSimm12 insn in
  let rs1 := operandRs1 insn in
  let rs2 := operandRs2 insn in
  rs1val ← readX rs1;
  rs2val ← readX rs2;
  writeUint8 (uint64AddInt32 rs1val imm) (uint8 rs2val) ;;
  advancePc pc.

Definition executeSH (insn pc : Z) : M S unit :=
  let imm := operandSimm12 insn in
  let rs1 := operandRs1 insn in
  let rs2 := operandRs2 insn in
  rs1val ← readX rs1;
  rs2val ← readX rs2;
  writeUint16 (uint64AddInt32 rs1val imm) (uint16 rs2val) ;;
  advancePc pc.

Definition executeSW (insn pc : Z) : M S unit :=
  let imm := operandSimm12 insn in
  let rs1 := operandRs1 insn in
  let rs2 := operandRs2 insn in
  rs1val ← readX rs1;
  rs2val ← readX rs2;
  writeUint32 (uint64AddInt32 rs1val imm) (uint32 rs2val) ;;
  advancePc pc.

Definition executeSD (insn pc : Z) : M S unit :=
  let imm := operandSimm12 insn in
  let rs1 := operandRs1 insn in
  let rs2 := operandRs2 insn in
  rs1val ← readX rs1;
  rs2val ← readX rs2;
  writeUint64 (uint64AddInt32 rs1val imm) rs2val ;;
  advancePc pc.

Definition executeADDI (insn pc : Z) : M S unit :=
  let imm := operandImm12 insn in
  let rd := operandRd insn in
  let rs1 := operandRs1 insn in
  when (negb (rd =? 0))
    (rs1val ← readX rs1;
     let val := int64AddInt64 (int64 rs1val) imm in
     writeX rd (uint64 val)) ;;
  advancePc pc.

Definition executeSLTI (insn pc : Z) : M S unit :=
  let imm := operandImm12 insn in
  let rd := operandRd insn in
  let rs1 := operandRs1 insn in
  when (negb (rd =? 0))
    (rs1val ← readX rs1;
     if int64 rs1val <? imm then writeX rd 1 else writeX rd 0) ;;
  advancePc pc.

Definition executeSLTIU (insn pc : Z) : M S unit :=
  let imm := operandImm12 insn in
  let rd := operandRd insn in
  let rs1 := operandRs1 insn in
  when (negb (rd =? 0))
    (rs1val ← readX rs1;
     if rs1val <? int32ToUint64 imm then writeX rd 1 else writeX rd 0) ;;
  advancePc pc.

Definition executeXORI (insn pc : Z) : M S unit :=
  let imm := operandImm12 insn in
  let rd := operandRd insn in
  let rs1 := operandRs1 insn in
  when (negb (rd =? 0))
    (rs1val ← readX rs1;
     writeX rd (Z.lxor rs1val (int32ToUint64 imm))) ;;
  advancePc pc.

Definition executeORI (insn pc : Z) : M S unit :=
  let imm := operandImm12 insn in
  let rd := operandRd insn in
  let rs1 := operandRs1 insn in
  when (negb (rd =? 0))
    (rs1val ← readX rs1;
     writeX rd (Z.lor rs1val (int32ToUint64 imm))) ;;
  advancePc pc.

Definition executeANDI (insn pc : Z) : M S unit :=
  let imm := operandImm12 insn in
  let rd := operandRd insn in
  let rs1 := operandRs1 insn in
  when (negb (rd =? 0))
    (rs1val ← readX rs1;
     writeX rd (Z.land rs1val (int32ToUint64 imm))) ;;
  advancePc pc.

Definition executeSLLI (insn pc : Z) : M S unit :=
  let imm := operandShamt6 insn in
  let rd := operandRd insn in
  let rs1 := operandRs1 insn in
  when (negb (rd =? 0))
    (rs1val ← readX rs1;
     writeX rd (uint64ShiftLeft rs1val (uint32 imm))) ;;
  advancePc pc.

Definition executeSRLI (insn pc : Z) : M S unit :=
  let imm := operandShamt6 insn in
  let rd := operandRd insn in
  let rs1 := operandRs1 insn in
  when (negb (rd =? 0))
    (rs1val ← readX rs1;
     writeX rd (uint64ShiftRight rs1val (uint32 imm))) ;;
  advancePc pc.

Definition executeSRAI (insn pc : Z) : M S unit :=
  let imm := operandShamt6 insn in
  let rd := operandRd insn in
  let rs1 := operandRs1 insn in
  when (negb (rd =? 0))
    (rs1val ← readX rs1;
     writeX rd (uint64 (int64ShiftRight (int64 rs1val) (uint32 imm)))) ;;
  advancePc pc.

Definition executeADDIW (insn pc : Z) : M S unit :=
  let imm := operandImm12 insn in
  let rd := operandRd insn in
  let rs1 := operandRs1 insn in
  rs1reg ← readX rs1;
  let rs1val := uint64ToInt32 rs1reg in
  when (negb (rd =? 0)) (let val := int32AddInt32 rs1val imm in writeX rd (int32ToUint64 val)) ;;
  advancePc pc.

Definition executeSLLIW (insn pc : Z) : M S unit :=
  let imm := operandShamt5 insn in
  let rd := operandRd insn in
  let rs1 := operandRs1 insn in
  rs1reg ← readX rs1;
  let rs1val := uint32 rs1reg in
  when (negb (rd =? 0)) (writeX rd (int32ToUint64 (int32 (uint32ShiftLeft rs1val (uint32 imm))))) ;;
  advancePc pc.

Definition executeSRLIW (insn pc : Z) : M S unit :=
  let imm := operandShamt5 insn in
  let rd := operandRd insn in
  let rs1 := operandRs1 insn in
  rs1reg ← readX rs1;
  let rs1val := uint32 rs1reg in
  let rdval := int32 (uint32ShiftRight rs1val (uint32 imm)) in
  when (negb (rd =? 0)) (writeX rd (int32ToUint64 rdval)) ;;
  advancePc pc.

Definition executeSRAIW (insn pc : Z) : M S unit :=
  let imm := operandShamt5 insn in
  let rd := operandRd insn in
  let rs1 := operandRs1 insn in
  rs1reg ← readX rs1;
  let rs1val := uint64ToInt32 rs1reg in
  when (negb (rd =? 0)) (writeX rd (int32ToUint64 (int32ShiftRight rs1val (uint32 imm)))) ;;
  advancePc pc.

Definition executeADD (insn pc : Z) : M S unit :=
  let rd := operandRd insn in
  let rs1 := operandRs1 insn in
  let rs2 := operandRs2 insn in
  when (negb (rd =? 0))
    (rs1val ← readX rs1;
     rs2val ← readX rs2;
     writeX rd (uint64AddUint64 rs1val rs2val)) ;;
  advancePc pc.

Definition executeSUB (insn pc : Z) : M S unit :=
  let rd := operandRd insn in
  let rs1 := operandRs1 insn in
  let rs2 := operandRs2 insn in
  when (negb (rd =? 0))
    (rs1val ← readX rs1;
     rs2val ← readX rs2;
     writeX rd (uint64SubUint64 rs1val rs2val)) ;;
  advancePc pc.

Definition executeSLL (insn pc : Z) : M S unit :=
  let rd := operandRd insn in
  let rs1 := operandRs1 insn in
  let rs2 := operandRs2 insn in
  when (negb (rd =? 0))
    (rs1val ← readX rs1;
     rs2val ← readX rs2;
     writeX rd (uint64ShiftLeft rs1val (uint32 rs2val))) ;;
  advancePc pc.

Definition executeSLT (insn pc : Z) : M S unit :=
  let rd := operandRd insn in
  let rs1 := operandRs1 insn in
  let rs2 := operandRs2 insn in
  when (negb (rd =? 0))
    (rs1val ← readX rs1;
     rs2val ← readX rs2;
     let rdval := if int64 rs1val <? int64 rs2val then 1 else 0 in
     writeX rd rdval) ;;
  advancePc pc.

Definition executeSLTU (insn pc : Z) : M S unit :=
  let rd := operandRd insn in
  let rs1 := operandRs1 insn in
  let rs2 := operandRs2 insn in
  when (negb (rd =? 0))
    (rs1val ← readX rs1;
     rs2val ← readX rs2;
     let rdval := if rs1val <? rs2val then 1 else 0 in
     writeX rd rdval) ;;
  advancePc pc.

Definition executeXOR (insn pc : Z) : M S unit :=
  let rd := operandRd insn in
  let rs1 := operandRs1 insn in
  let rs2 := operandRs2 insn in
  when (negb (rd =? 0))
    (rs1val ← readX rs1;
     rs2val ← readX rs2;
     writeX rd (Z.lxor rs1val rs2val)) ;;
  advancePc pc.

Definition executeSRL (insn pc : Z) : M S unit :=
  let rd := operandRd insn in
  let rs1 := operandRs1 insn in
  let rs2 := operandRs2 insn in
  when (negb (rd =? 0))
    (rs1val ← readX rs1;
     rs2val ← readX rs2;
     writeX rd (uint64ShiftRight rs1val (uint32 rs2val))) ;;
  advancePc pc.

Definition executeSRA (insn pc : Z) : M S unit :=
  let rd := operandRd insn in
  let rs1 := operandRs1 insn in
  let rs2 := operandRs2 insn in
  when (negb (rd =? 0))
    (rs1val ← readX rs1;
     rs2val ← readX rs2;
     writeX rd (uint64 (int64ShiftRight (int64 rs1val) (uint32 rs2val)))) ;;
  advancePc pc.

Definition executeOR (insn pc : Z) : M S unit :=
  let rd := operandRd insn in
  let rs1 := operandRs1 insn in
  let rs2 := operandRs2 insn in
  when (negb (rd =? 0))
    (rs1val ← readX rs1;
     rs2val ← readX rs2;
     writeX rd (Z.lor rs1val rs2val)) ;;
  advancePc pc.

Definition executeAND (insn pc : Z) : M S unit :=
  let rd := operandRd insn in
  let rs1 := operandRs1 insn in
  let rs2 := operandRs2 insn in
  when (negb (rd =? 0))
    (rs1val ← readX rs1;
     rs2val ← readX rs2;
     writeX rd (Z.land rs1val rs2val)) ;;
  advancePc pc.

Definition executeADDW (insn pc : Z) : M S unit :=
  let rd := operandRd insn in
  let rs1 := operandRs1 insn in
  let rs2 := operandRs2 insn in
  rs1reg ← readX rs1;
  rs2reg ← readX rs2;
  let rs1val := uint64ToInt32 rs1reg in
  let rs2val := uint64ToInt32 rs2reg in
  when (negb (rd =? 0)) (let val := int32AddInt32 rs1val rs2val in writeX rd (int32ToUint64 val)) ;;
  advancePc pc.

Definition executeSUBW (insn pc : Z) : M S unit :=
  let rd := operandRd insn in
  let rs1 := operandRs1 insn in
  let rs2 := operandRs2 insn in
  rs1reg ← readX rs1;
  rs2reg ← readX rs2;
  let rs1val := uint64ToInt32 rs1reg in
  let rs2val := uint64ToInt32 rs2reg in
  when (negb (rd =? 0)) (let val := int32SubInt32 rs1val rs2val in writeX rd (int32ToUint64 val)) ;;
  advancePc pc.

Definition executeSLLW (insn pc : Z) : M S unit :=
  let rd := operandRd insn in
  let rs1 := operandRs1 insn in
  let rs2 := operandRs2 insn in
  rs1reg ← readX rs1;
  rs2reg ← readX rs2;
  let rs1val := uint32 rs1reg in
  let rs2val := uint32 rs2reg in
  let rdval := int32 (uint32ShiftLeft rs1val rs2val) in
  when (negb (rd =? 0)) (writeX rd (int32ToUint64 rdval)) ;;
  advancePc pc.

Definition executeSRLW (insn pc : Z) : M S unit :=
  let rd := operandRd insn in
  let rs1 := operandRs1 insn in
  let rs2 := operandRs2 insn in
  rs1reg ← readX rs1;
  rs2reg ← readX rs2;
  let rs1val := uint32 rs1reg in
  let rs2val := uint32 rs2reg in
  let rdval := int32 (uint32ShiftRight rs1val rs2val) in
  when (negb (rd =? 0)) (writeX rd (int32ToUint64 rdval)) ;;
  advancePc pc.

Definition executeSRAW (insn pc : Z) : M S unit :=
  let rd := operandRd insn in
  let rs1 := operandRs1 insn in
  let rs2 := operandRs2 insn in
  rs1reg ← readX rs1;
  rs2reg ← readX rs2;
  let rs1val := uint64ToInt32 rs1reg in
  let rs2val := uint32 rs2reg in
  let rdval := int32ShiftRight rs1val rs2val in
  when (negb (rd =? 0)) (writeX rd (int32ToUint64 rdval)) ;;
  advancePc pc.

Definition executeFENCE (insn pc : Z) : M S unit := advancePc pc.

Definition executeECALL (insn pc : Z) : M S unit :=
  fn ← readX 17;
  if fn =? UARCH_ECALL_FN_HALT then writeHaltFlag 1
  else if fn =? UARCH_ECALL_FN_PUTCHAR then
    c ← readX 10;
    putCharECALL (uint8 c) ;;
    advancePc pc
  else if fn =? UARCH_ECALL_FN_WRITE_TLB then
    set_index ← readX 10;
    slot_index ← readX 11;
    vaddr_page ← readX 12;
    vp_offset ← readX 13;
    pma_index ← readX 14;
    writeTlbECALL set_index slot_index vaddr_page vp_offset pma_index ;;
    advancePc pc
  else throwRuntimeError "unsupported ecall function".

Definition executeEBREAK (insn pc : Z) : M S unit := throwRuntimeError "uarch aborted".

(** Decode and execute one instruction. *)
Definition executeInsn (insn pc : Z) : M S unit :=
  if insnMatchOpcodeFunct3 insn 0x13 0x0 then executeADDI insn pc else
  if insnMatchOpcodeFunct3 insn 0x3 0x3 then executeLD insn pc else
  if insnMatchOpcodeFunct3 insn 0x63 0x6 then executeBLTU insn pc else
  if insnMatchOpcodeFunct3 insn 0x63 0x0 then executeBEQ insn pc else
  if insnMatchOpcodeFunct3 insn 0x13 0x7 then executeANDI insn pc else
  if insnMatchOpcodeFunct3Funct7 insn 0x33 0x0 0x0 then executeADD insn pc else
  if insnMatchOpcode insn 0x6f then executeJAL insn pc else
  if insnMatchOpcodeFunct3Funct7Sr1 insn 0x13 0x1 0x0 then executeSLLI insn pc else
  if insnMatchOpcodeFunct3Funct7 insn 0x33 0x7 0x0 then executeAND insn pc else
  if insnMatchOpcodeFunct3 insn 0x23 0x3 then executeSD insn pc else
  if insnMatchOpcode insn 0x37 then executeLUI insn pc else
  if insnMatchOpcodeFunct3 insn 0x67 0x0 then executeJALR insn pc else
  if insnMatchOpcodeFunct3 insn 0x1b 0x0 then executeADDIW insn pc else
  if insnMatchOpcodeFunct3Funct7Sr1 insn 0x13 0x5 0x0 then executeSRLI insn pc else
  if insnMatchOpcodeFunct3Funct7 insn 0x1b 0x5 0x0 then executeSRLIW insn pc else
  if insnMatchOpcodeFunct3 insn 0x63 0x1 then executeBNE insn pc else
  if insnMatchOpcodeFunct3 insn 0x3 0x2 then executeLW insn pc else
  if insnMatchOpcode insn 0x17 then executeAUIPC insn pc else
  if insnMatchOpcodeFunct3 insn 0x63 0x7 then executeBGEU insn pc else
  if insnMatchOpcodeFunct3Funct7 insn 0x3b 0x0 0x0 then executeADDW insn pc else
  if insnMatchOpcodeFunct3Funct7Sr1 insn 0x13 0x5 0x10 then executeSRAI insn pc else
  if insnMatchOpcodeFunct3Funct7 insn 0x33 0x6 0x0 then executeOR insn pc else
  if insnMatchOpcodeFunct3Funct7 insn 0x1b 0x5 0x20 then executeSRAIW insn pc else
  if insnMatchOpcodeFunct3 insn 0x63 0x5 then executeBGE insn pc else
  if insnMatchOpcodeFunct3Funct7 insn 0x33 0x0 0x20 then executeSUB insn pc else
  if insnMatchOpcodeFunct3 insn 0x3 0x4 then executeLBU insn pc else
  if insnMatchOpcodeFunct3Funct7 insn 0x1b 0x1 0x0 then executeSLLIW insn pc else
  if insnMatchOpcodeFunct3Funct7 insn 0x33 0x5 0x0 then executeSRL insn pc else
  if insnMatchOpcodeFunct3Funct7 insn 0x33 0x4 0x0 then executeXOR insn pc else
  if insnMatchOpcodeFunct3 insn 0x23 0x2 then executeSW insn pc else
  if insnMatchOpcodeFunct3Funct7 insn 0x33 0x1 0x0 then executeSLL insn pc else
  if insnMatchOpcodeFunct3 insn 0x63 0x4 then executeBLT insn pc else
  if insnMatchOpcodeFunct3 insn 0x23 0x0 then executeSB insn pc else
  if insnMatchOpcodeFunct3Funct7 insn 0x3b 0x0 0x20 then executeSUBW insn pc else
  if insnMatchOpcodeFunct3 insn 0x13 0x4 then executeXORI insn pc else
  if insnMatchOpcodeFunct3Funct7 insn 0x33 0x5 0x20 then executeSRA insn pc else
  if insnMatchOpcodeFunct3 insn 0x3 0x5 then executeLHU insn pc else
  if insnMatchOpcodeFunct3 insn 0x23 0x1 then executeSH insn pc else
  if insnMatchOpcodeFunct3Funct7 insn 0x3b 0x5 0x0 then executeSRLW insn pc else
  if insnMatchOpcodeFunct3 insn 0x3 0x6 then executeLWU insn pc else
  if insnMatchOpcodeFunct3Funct7 insn 0x3b 0x1 0x0 then executeSLLW insn pc else
  if insnMatchOpcodeFunct3 insn 0x3 0x0 then executeLB insn pc else
  if insnMatchOpcodeFunct3Funct7 insn 0x33 0x3 0x0 then executeSLTU insn pc else
  if insnMatchOpcodeFunct3Funct7 insn 0x3b 0x5 0x20 then executeSRAW insn pc else
  if insnMatchOpcodeFunct3 insn 0x3 0x1 then executeLH insn pc else
  if insnMatchOpcodeFunct3 insn 0x13 0x6 then executeORI insn pc else
  if insnMatchOpcodeFunct3 insn 0x13 0x3 then executeSLTIU insn pc else
  if insnMatchOpcodeFunct3Funct7 insn 0x33 0x2 0x0 then executeSLT insn pc else
  if insnMatchOpcodeFunct3 insn 0x13 0x2 then executeSLTI insn pc else
  if insnMatchOpcodeFunct3 insn 0xf 0x0 then executeFENCE insn pc else
  if insn =? uint32 0x73 then executeECALL insn pc else
  if insn =? uint32 0x100073 then executeEBREAK insn pc else
  throwRuntimeError "illegal instruction".

(** ** uarch_step *)

Definition uarch_step : M S UArchStepStatus :=
  (* must be the first read, to match the first log access *)
  cycle ← readCycle;
  if UARCH_CYCLE_MAX <=? cycle then mret CycleOverflow
  else
    halt ← readHaltFlag;
    if negb (halt =? 0) then mret UArchHalted
    else
      pc ← readPc;
      insn ← readUint32 pc;
      executeInsn insn pc ;;
      let cycle := uint64 (cycle + 1) in
      writeCycle cycle ;;
      mret Success.

(** The [while (cycle < cycle_end)] loop of [uarch_interpret]; [cycle] is
    the local variable.  [fuel] bounds the iterations; without enough of it
    the result is [None], which the code has no counterpart for. *)
Fixpoint uarch_interpret_loop (fuel : nat) (cycle cycle_end : Z) : M S (option uarch_interpreter_break_reason) :=
  if cycle <? cycle_end then
    match fuel with
    | O => mret None
    | Datatypes.S fuel =>
        status ← uarch_step;
        match status with
        | Success => uarch_interpret_loop fuel (uint64 (cycle + 1)) cycle_end
        | UArchHalted => mret (Some uarch_halted)
        | CycleOverflow => mret (Some cycle_overflow)
        end
    end
  else mret (Some reached_target_cycle).

Definition uarch_interpret (fuel : nat) (cycle_end : Z) : M S (option uarch_interpreter_break_reason) :=
  cycle ← read_uarch_cycle;
  if cycle_end <? cycle then throw (invalid_argument "uarch_cycle is past")
  else uarch_interpret_loop fuel cycle cycle_end.
End uarch.

(** * Resetting the microarchitecture (src/uarch-reset-state.cpp) *)

Section reset.
Context {S : Type} {a : IUarchStateAccess S}.

Definition uarch_reset_state : M S unit :=
  resetState ;;
  iflagsY ← readWord IFLAGS_Y_ADDRESS;
  when (negb (iflagsY =? 0))
    (tohost ← readWord HTIF_TOHOST_ADDRESS;
     when (isYieldedManualWith tohost HTIF_YIELD_MANUAL_REASON_RX_REJECTED) revertState).
End reset.
