(* ===== verification/UarchSim.v ===== *)
(** * Simulation between state accesses of the stepper

    [uarch_step] is one template instantiated at four state accesses.  When
    the operations of one access simulate those of another, so does every
    handler and the whole step: this is the interface the record, replay and
    specification accesses are related through. *)

From S2P Require Import Prelude SolidityCompat UarchStep.

(** ** Operand ranges *)

Lemma operandRd_field insn : operandRd insn = bitfield 7 5 insn.
Proof.
  unfold operandRd, uint32ShiftRight, uint32ShiftLeft, uint8, uint32.
  change (Z.land 20 31) with 20. change (Z.land 27 31) with 27.
  rewrite shl_shr_field by lia. apply uwrap_small.
  pose proof (bitfield_range 7 5 insn). unfold is_u in *. simpl in *. lia.
Qed.
Lemma operandRs1_field insn : operandRs1 insn = bitfield 15 5 insn.
Proof.
  unfold operandRs1, uint32ShiftRight, uint32ShiftLeft, uint8, uint32.
  change (Z.land 12 31) with 12. change (Z.land 27 31) with 27.
  rewrite shl_shr_field by lia. apply uwrap_small.
  pose proof (bitfield_range 15 5 insn). unfold is_u in *. simpl in *. lia.
Qed.
Lemma operandRs2_field insn : operandRs2 insn = bitfield 20 5 insn.
Proof.
  unfold operandRs2, uint32ShiftRight, uint32ShiftLeft, uint8, uint32.
  change (Z.land 7 31) with 7. change (Z.land 27 31) with 27.
  rewrite shl_shr_field by lia. apply uwrap_small.
  pose proof (bitfield_range 20 5 insn). unfold is_u in *. simpl in *. lia.
Qed.

Lemma operandRd_range insn : 0 <= operandRd insn < 32.
Proof. rewrite operandRd_field. by apply (bitfield_range 7 5). Qed.
Lemma operandRs1_range insn : 0 <= operandRs1 insn < 32.
Proof. rewrite operandRs1_field. by apply (bitfield_range 15 5). Qed.
Lemma operandRs2_range insn : 0 <= operandRs2 insn < 32.
Proof. rewrite operandRs2_field. by apply (bitfield_range 20 5). Qed.

Class UarchSimulation {S1 S2} (a1 : IUarchStateAccess S1) (a2 : IUarchStateAccess S2)
    (P : S1 -> Prop) (R : S1 -> S2 -> Prop) : Prop := {
  sim_read_uarch_x i : 0 <= i < 32 -> sim P R (read_uarch_x i) (read_uarch_x i);
  sim_write_uarch_x i v : 0 < i < 32 -> sim P R (write_uarch_x i v) (write_uarch_x i v);
  sim_read_uarch_pc : sim P R read_uarch_pc read_uarch_pc;
  sim_write_uarch_pc v : sim P R (write_uarch_pc v) (write_uarch_pc v);
  sim_read_uarch_cycle : sim P R read_uarch_cycle read_uarch_cycle;
  sim_write_uarch_cycle v : sim P R (write_uarch_cycle v) (write_uarch_cycle v);
  sim_read_uarch_halt_flag : sim P R read_uarch_halt_flag read_uarch_halt_flag;
  sim_write_uarch_halt_flag v : sim P R (write_uarch_halt_flag v) (write_uarch_halt_flag v);
  sim_read_word p : is_u 64 p -> sim P R (read_word p) (read_word p);
  sim_write_word p v : is_u 64 p -> sim P R (write_word p v) (write_word p v);
  sim_uarch_putchar c : sim P R (uarch_putchar c) (uarch_putchar c);
  sim_write_tlb i j x y z : is_u 64 i -> is_u 64 j -> sim P R (write_tlb i j x y z) (write_tlb i j x y z)
}.

Section sim.
Context {cfg : BuildConfig} {S1 S2 : Type}.
Context {a1 : IUarchStateAccess S1} {a2 : IUarchStateAccess S2}.
Context {P : S1 -> Prop} {R : S1 -> S2 -> Prop}.
Context {Hsim : UarchSimulation a1 a2 P R}.

#[local] Hint Resolve sim_read_uarch_pc sim_write_uarch_pc sim_read_uarch_cycle
  sim_write_uarch_cycle sim_read_uarch_halt_flag sim_write_uarch_halt_flag
  sim_uarch_putchar : sim.

Lemma sim_readWord p : sim P R (readWord p) (readWord p).
Proof. by apply sim_read_word, uwrap_range. Qed.
Lemma sim_writeWord p v : sim P R (writeWord p v) (writeWord p v).
Proof. by apply sim_write_word, uwrap_range. Qed.
Lemma sim_writeTlbECALL i j x y z : sim P R (writeTlbECALL i j x y z) (writeTlbECALL i j x y z).
Proof. by apply sim_write_tlb; apply uwrap_range. Qed.
#[local] Hint Resolve sim_readWord sim_writeWord sim_writeTlbECALL : sim.

Lemma sim_require c msg : sim P R (require c msg) (require c msg).
Proof. unfold require. repeat sim_step. Qed.

Lemma sim_readX_rs1 insn : sim P R (readX (operandRs1 insn)) (readX (operandRs1 insn)).
Proof. apply sim_read_uarch_x, operandRs1_range. Qed.
Lemma sim_readX_rs2 insn : sim P R (readX (operandRs2 insn)) (readX (operandRs2 insn)).
Proof. apply sim_read_uarch_x, operandRs2_range. Qed.
Lemma sim_readX_const i : 0 <= i < 32 -> sim P R (readX i) (readX i).
Proof. apply sim_read_uarch_x. Qed.
Lemma sim_writeX_rd insn v :
  negb (operandRd insn =? 0) = true -> sim P R (writeX (operandRd insn) v) (writeX (operandRd insn) v).
Proof. intros ?. apply sim_write_uarch_x. pose proof (operandRd_range insn). lia. Qed.

#[local] Hint Resolve sim_require sim_readX_rs1 sim_readX_rs2 sim_writeX_rd : sim.
#[local] Hint Extern 1 (sim _ _ (readX _) _) => apply sim_readX_const; lia : sim.

Lemma sim_readUint64 p : sim P R (readUint64 p) (readUint64 p).
Proof. unfold readUint64. sim_auto. Qed.
#[local] Hint Resolve sim_readUint64 : sim.
Lemma sim_readUint32 p : sim P R (readUint32 p) (readUint32 p).
Proof. unfold readUint32. sim_auto. Qed.
Lemma sim_readUint16 p : sim P R (readUint16 p) (readUint16 p).
Proof. unfold readUint16. sim_auto. Qed.
Lemma sim_readUint8 p : sim P R (readUint8 p) (readUint8 p).
Proof. unfold readUint8. sim_auto. Qed.
Lemma sim_writeUint64 p v : sim P R (writeUint64 p v) (writeUint64 p v).
Proof. unfold writeUint64. sim_auto. Qed.
Lemma sim_copyBits f c t o : sim P R (copyBits f c t o) (copyBits f c t o).
Proof. unfold copyBits. sim_auto. Qed.
#[local] Hint Resolve sim_readUint32 sim_readUint16 sim_readUint8 sim_writeUint64 sim_copyBits : sim.
Lemma sim_writeUint32 p v : sim P R (writeUint32 p v) (writeUint32 p v).
Proof. unfold writeUint32. sim_auto. Qed.
Lemma sim_writeUint16 p v : sim P R (writeUint16 p v) (writeUint16 p v).
Proof. unfold writeUint16. sim_auto. Qed.
Lemma sim_writeUint8 p v : sim P R (writeUint8 p v) (writeUint8 p v).
Proof. unfold writeUint8. sim_auto. Qed.
#[local] Hint Resolve sim_writeUint32 sim_writeUint16 sim_writeUint8 : sim.
Lemma sim_advancePc pc : sim P R (advancePc pc) (advancePc pc).
Proof. unfold advancePc, writePc. sim_auto. Qed.
Lemma sim_branch pc : sim P R (branch pc) (branch pc).
Proof. unfold branch, writePc. sim_auto. Qed.
#[local] Hint Resolve sim_advancePc sim_branch : sim.

(** Every instruction handler; the handlers share this script. *)
Ltac sim_handler := intros; unfold putCharECALL, writeHaltFlag, throwRuntimeError; sim_auto.

Lemma sim_executeInsn insn pc : sim P R (executeInsn insn pc) (executeInsn insn pc).
Proof.
  unfold executeInsn.
  repeat (match goal with |- context [if ?c then _ else _] => destruct c end;
    [match goal with |- sim _ _ ?k _ => let h := get_head k in unfold h end; solve [sim_handler]|]).
  sim_handler.
Qed.
#[local] Hint Resolve sim_executeInsn : sim.

Theorem sim_uarch_step : sim P R uarch_step uarch_step.
Proof.
  unfold uarch_step, readCycle, readHaltFlag, readPc, writeCycle. sim_auto.
Qed.
#[local] Hint Resolve sim_uarch_step : sim.

Lemma sim_uarch_interpret_loop fuel cycle cycle_end :
  sim P R (uarch_interpret_loop fuel cycle cycle_end) (uarch_interpret_loop fuel cycle cycle_end).
Proof.
  revert cycle. induction fuel; intros; simpl; sim_auto; apply IHfuel.
Qed.
#[local] Hint Resolve sim_uarch_interpret_loop : sim.

Lemma sim_uarch_interpret fuel cycle_end :
  sim P R (uarch_interpret fuel cycle_end) (uarch_interpret fuel cycle_end).
Proof. unfold uarch_interpret. sim_auto. Qed.
End sim.

(** * Cost of a step

    A step makes a bounded number of state accesses: [costs n k] says that
    running [k] grows a measure of the state by at most [n], and the bound
    for the step follows from one unit for each operation of the state
    access. *)

Create HintDb costs.

Section costs.
Context {S : Type} (size : S -> nat).

Definition costs {A} (n : nat) (k : M S A) : Prop :=
  forall s a s', k s = (Ret a, s') -> (size s' <= size s + n)%nat.

Lemma costs_ret {A} n (a : A) : costs n (mret a).
Proof. intros s x s' E. injection E as _ <-. lia. Qed.

Lemma costs_throw {A} n e : costs n (throw (A:=A) e).
Proof. by intros s x s' E. Qed.

Lemma costs_lift {A} n (o : outcome A) : costs n (lift o).
Proof. intros s x s' E. injection E as _ <-. lia. Qed.

Lemma costs_le {A} c n (k : M S A) : costs c k -> (c <= n)%nat -> costs n k.
Proof. intros Hk Hn s a s' E. apply Hk in E. lia. Qed.

Lemma costs_bind {A B} c n (k : M S A) (f : A -> M S B) :
  costs c k -> (c <= n)%nat -> (forall a, costs (n - c) (f a)) -> costs n (k ≫= f).
Proof. intros Hk Hn Hf s b s' E. inv_bind E. apply Hk in Hm. apply Hf in Hk0. lia. Qed.

Lemma costs_assoc {A B C} n (k : M S A) (g : A -> M S B) (f : B -> M S C) :
  costs n (k ≫= (fun x => g x ≫= f)) -> costs n ((k ≫= g) ≫= f).
Proof. intros Hk s a s' E. rewrite bind_assoc in E. by apply Hk in E. Qed.

Lemma costs_when_bind {A} c n k (f : unit -> M S A) :
  (c = true -> costs n (k ≫= f)) -> costs n (f tt) -> costs n (when c k ≫= f).
Proof. intros Hk Hf. destruct c; [by apply Hk|exact Hf]. Qed.
End costs.

(** Bounds a program from the bounds of its parts, in the database. *)
Ltac costs_step :=
  first
    [ progress cbv zeta | apply costs_ret | apply costs_throw | apply costs_lift
    | lazymatch goal with
      | |- costs _ _ ((_ ≫= _) ≫= _) => apply costs_assoc
      | |- costs _ _ (when _ _ ≫= _) => apply costs_when_bind; [intros ?|cbv beta]
      end
    | eapply costs_bind; [solve [eauto with costs nocore] | lia | intros ?; cbn [Nat.sub]]
    | eapply costs_le; [solve [eauto with costs nocore] | lia]
    | case_match ].
Ltac costs_auto := repeat costs_step.

(** Each operation of the stepper's interface costs one unit. *)
Class UnitCosts {S} (size : S -> nat) (a : IUarchStateAccess S) : Prop := {
  cost_read_uarch_x i : 0 <= i < 32 -> costs size 1 (read_uarch_x i);
  cost_write_uarch_x i v : 0 < i < 32 -> costs size 1 (write_uarch_x i v);
  cost_read_uarch_pc : costs size 1 read_uarch_pc;
  cost_write_uarch_pc v : costs size 1 (write_uarch_pc v);
  cost_read_uarch_cycle : costs size 1 read_uarch_cycle;
  cost_write_uarch_cycle v : costs size 1 (write_uarch_cycle v);
  cost_read_uarch_halt_flag : costs size 1 read_uarch_halt_flag;
  cost_write_uarch_halt_flag v : costs size 1 (write_uarch_halt_flag v);
  cost_read_word p : is_u 64 p -> costs size 1 (read_word p);
  cost_write_word p v : is_u 64 p -> costs size 1 (write_word p v);
  cost_uarch_putchar c : costs size 0 (uarch_putchar c);
  cost_write_tlb i j x y z : is_u 64 i -> is_u 64 j -> costs size 1 (write_tlb i j x y z)
}.

Section step.
Context {cfg : BuildConfig} {S : Type} {a : IUarchStateAccess S} {size : S -> nat} {Hc : UnitCosts size a}.

#[local] Hint Resolve cost_read_uarch_pc cost_write_uarch_pc cost_read_uarch_cycle cost_write_uarch_cycle
  cost_read_uarch_halt_flag cost_write_uarch_halt_flag cost_uarch_putchar : costs.

Lemma cost_require c msg : costs size 0 (require c msg).
Proof. unfold require. costs_auto. Qed.
Lemma cost_readWord p : costs size 1 (readWord p).
Proof. by apply cost_read_word, uwrap_range. Qed.
Lemma cost_writeWord p v : costs size 1 (writeWord p v).
Proof. by apply cost_write_word, uwrap_range. Qed.
Lemma cost_writeTlbECALL i j x y z : costs size 1 (writeTlbECALL i j x y z).
Proof. by apply cost_write_tlb; apply uwrap_range. Qed.
Lemma cost_readX_rs1 insn : costs size 1 (readX (operandRs1 insn)).
Proof. apply cost_read_uarch_x, operandRs1_range. Qed.
Lemma cost_readX_rs2 insn : costs size 1 (readX (operandRs2 insn)).
Proof. apply cost_read_uarch_x, operandRs2_range. Qed.
Lemma cost_readX_const i : 0 <= i < 32 -> costs size 1 (readX i).
Proof. apply cost_read_uarch_x. Qed.
Lemma cost_writeX_rd insn v : negb (operandRd insn =? 0) = true -> costs size 1 (writeX (operandRd insn) v).
Proof. intros ?. apply cost_write_uarch_x. pose proof (operandRd_range insn). lia. Qed.
#[local] Hint Resolve cost_require cost_readWord cost_writeWord cost_writeTlbECALL cost_readX_rs1 cost_readX_rs2
  cost_writeX_rd : costs.
#[local] Hint Extern 1 (costs _ _ (readX _)) => apply cost_readX_const; lia : costs.

Lemma cost_readUint64 p : costs size 1 (readUint64 p).
Proof. unfold readUint64. costs_auto. Qed.
#[local] Hint Resolve cost_readUint64 : costs.
Lemma cost_readUint32 p : costs size 1 (readUint32 p).
Proof. unfold readUint32. costs_auto. Qed.
Lemma cost_readUint16 p : costs size 1 (readUint16 p).
Proof. unfold readUint16. costs_auto. Qed.
Lemma cost_readUint8 p : costs size 1 (readUint8 p).
Proof. unfold readUint8. costs_auto. Qed.
Lemma cost_writeUint64 p v : costs size 1 (writeUint64 p v).
Proof. unfold writeUint64. costs_auto. Qed.
Lemma cost_copyBits f c t o : costs size 0 (copyBits f c t o).
Proof. unfold copyBits. costs_auto. Qed.
#[local] Hint Resolve cost_readUint32 cost_readUint16 cost_readUint8 cost_writeUint64 cost_copyBits : costs.
Lemma cost_writeUint32 p v : costs size 2 (writeUint32 p v).
Proof. unfold writeUint32. costs_auto. Qed.
Lemma cost_writeUint16 p v : costs size 2 (writeUint16 p v).
Proof. unfold writeUint16. costs_auto. Qed.
Lemma cost_writeUint8 p v : costs size 2 (writeUint8 p v).
Proof. unfold writeUint8. costs_auto. Qed.
Lemma cost_advancePc pc : costs size 1 (advancePc pc).
Proof. unfold advancePc, writePc. costs_auto. Qed.
Lemma cost_branch pc : costs size 1 (branch pc).
Proof. unfold branch, writePc. costs_auto. Qed.
Lemma cost_putCharECALL c : costs size 0 (putCharECALL c).
Proof. unfold putCharECALL. costs_auto. Qed.
Lemma cost_writeHaltFlag v : costs size 1 (writeHaltFlag v).
Proof. apply cost_write_uarch_halt_flag. Qed.
#[local] Hint Resolve cost_writeHaltFlag cost_putCharECALL cost_writeUint32 cost_writeUint16 cost_writeUint8 cost_advancePc cost_branch : costs.

(** The costliest instruction writes a slot of the TLB. *)
Lemma cost_executeInsn insn pc : costs size 8 (executeInsn insn pc).
Proof.
  unfold executeInsn.
  repeat (match goal with |- context [if ?c then _ else _] => destruct c end;
    [match goal with |- costs _ _ ?k => let h := get_head k in unfold h end;
     solve [costs_auto]|]).
  unfold throwRuntimeError. costs_auto.
Qed.
#[local] Hint Resolve cost_executeInsn : costs.

Lemma cost_uarch_step : costs size 13 uarch_step.
Proof. unfold uarch_step, readCycle, readHaltFlag, readPc, writeCycle. costs_auto. Qed.
End step.
