(* ===== verification/Rv64i.v ===== *)
(** * RV64I, as the instruction set manual defines it

    An independent reference for the microarchitecture stepper: the fields
    and immediates of an instruction word, the table of opcodes (the mask and
    match values of each instruction), and what each instruction computes, as
    a function of the registers and the memory it reads.  Nothing here is
    taken from the program. *)

From S2P Require Import Prelude.

(** ** Fields and immediates *)

Definition rd (insn : Z) : Z := bitfield 7 5 insn.
Definition rs1 (insn : Z) : Z := bitfield 15 5 insn.
Definition rs2 (insn : Z) : Z := bitfield 20 5 insn.
Definition shamt5 (insn : Z) : Z := bitfield 20 5 insn.
Definition shamt6 (insn : Z) : Z := bitfield 20 6 insn.

(** Field [len] bits wide at [lo] of the instruction, placed at bit [at_]. *)
Definition placed (lo len at_ insn : Z) : Z := Z.shiftl (bitfield lo len insn) at_.

Definition immI (insn : Z) : Z := swrap 12 (bitfield 20 12 insn).
Definition immS (insn : Z) : Z := swrap 12 (Z.lor (placed 25 7 5 insn) (bitfield 7 5 insn)).
Definition immB (insn : Z) : Z :=
  swrap 13 (Z.lor (Z.lor (Z.lor (placed 31 1 12 insn) (placed 7 1 11 insn)) (placed 25 6 5 insn)) (placed 8 4 1 insn)).
Definition immU (insn : Z) : Z := swrap 32 (placed 12 20 12 insn).
Definition immJ (insn : Z) : Z :=
  swrap 21 (Z.lor (Z.lor (Z.lor (placed 31 1 20 insn) (placed 12 8 12 insn)) (placed 20 1 11 insn)) (placed 21 10 1 insn)).

(** ** Opcodes *)

Inductive mnemonic :=
| LUI | AUIPC | JAL | JALR | BEQ | BNE | BLT | BGE | BLTU | BGEU
| LB | LH | LW | LD | LBU | LHU | LWU | SB | SH | SW | SD
| ADDI | SLTI | SLTIU | XORI | ORI | ANDI | SLLI | SRLI | SRAI
| ADD | SUB | SLL | SLT | SLTU | XOR | SRL | SRA | OR | AND
| ADDIW | SLLIW | SRLIW | SRAIW | ADDW | SUBW | SLLW | SRLW | SRAW
| FENCE | ECALL | EBREAK.

#[export] Instance mnemonic_eq_dec : EqDecision mnemonic.
Proof. solve_decision. Defined.

Record opcode := { op_name : mnemonic; op_mask : Z; op_match : Z }.

(** The instruction listing of the manual: U and J types by opcode; I, S and
    B types by opcode and funct3; R types by funct7 too, 6 bits of it for the
    64-bit shifts by an immediate. *)
Definition u_type (n : mnemonic) (opc : Z) : opcode := {| op_name := n; op_mask := 0x7f; op_match := opc |}.
Definition i_type (n : mnemonic) (opc funct3 : Z) : opcode :=
  {| op_name := n; op_mask := 0x707f; op_match := funct3 * 2 ^ 12 + opc |}.
Definition r_type (n : mnemonic) (opc funct3 funct7 : Z) : opcode :=
  {| op_name := n; op_mask := 0xfe00707f; op_match := funct7 * 2 ^ 25 + funct3 * 2 ^ 12 + opc |}.
Definition s6_type (n : mnemonic) (opc funct3 funct6 : Z) : opcode :=
  {| op_name := n; op_mask := 0xfc00707f; op_match := funct6 * 2 ^ 26 + funct3 * 2 ^ 12 + opc |}.
Definition sys_type (n : mnemonic) (word : Z) : opcode := {| op_name := n; op_mask := 0xffffffff; op_match := word |}.

Definition rv64i_opcodes : list opcode :=
  [u_type LUI 0x37; u_type AUIPC 0x17; u_type JAL 0x6f; i_type JALR 0x67 0;
   i_type BEQ 0x63 0; i_type BNE 0x63 1; i_type BLT 0x63 4; i_type BGE 0x63 5; i_type BLTU 0x63 6; i_type BGEU 0x63 7;
   i_type LB 0x03 0; i_type LH 0x03 1; i_type LW 0x03 2; i_type LD 0x03 3;
   i_type LBU 0x03 4; i_type LHU 0x03 5; i_type LWU 0x03 6;
   i_type SB 0x23 0; i_type SH 0x23 1; i_type SW 0x23 2; i_type SD 0x23 3;
   i_type ADDI 0x13 0; i_type SLTI 0x13 2; i_type SLTIU 0x13 3; i_type XORI 0x13 4; i_type ORI 0x13 6; i_type ANDI 0x13 7;
   s6_type SLLI 0x13 1 0; s6_type SRLI 0x13 5 0; s6_type SRAI 0x13 5 0x10;
   r_type ADD 0x33 0 0; r_type SUB 0x33 0 0x20; r_type SLL 0x33 1 0; r_type SLT 0x33 2 0; r_type SLTU 0x33 3 0;
   r_type XOR 0x33 4 0; r_type SRL 0x33 5 0; r_type SRA 0x33 5 0x20; r_type OR 0x33 6 0; r_type AND 0x33 7 0;
   i_type ADDIW 0x1b 0; r_type SLLIW 0x1b 1 0; r_type SRLIW 0x1b 5 0; r_type SRAIW 0x1b 5 0x20;
   r_type ADDW 0x3b 0 0; r_type SUBW 0x3b 0 0x20; r_type SLLW 0x3b 1 0; r_type SRLW 0x3b 5 0; r_type SRAW 0x3b 5 0x20;
   i_type FENCE 0x0f 0; sys_type ECALL 0x73; sys_type EBREAK 0x100073].

Definition matches (insn : Z) (o : opcode) : bool := Z.land insn (op_mask o) =? op_match o.

Definition decode (insn : Z) : option mnemonic := op_name <$> List.find (matches insn) rv64i_opcodes.

(** No word matches two opcodes: they differ on a bit that both masks cover. *)
Definition disjoint (o o' : opcode) : bool :=
  negb (Z.land (op_match o) (op_mask o') =? Z.land (op_match o') (op_mask o)).

Lemma disjoint_matches insn o o' : disjoint o o' = true -> matches insn o = true -> matches insn o' = false.
Proof.
  unfold disjoint, matches. intros Hd Hm. apply negb_true_iff, Z.eqb_neq in Hd. apply Z.eqb_eq in Hm.
  apply Z.eqb_neq. intros Hm'. apply Hd. rewrite <-Hm, <-Hm', <-!Z.land_assoc. f_equal. apply Z.land_comm.
Qed.

Fixpoint pairwise_disjoint (os : list opcode) : bool :=
  match os with
  | [] => true
  | o :: os => forallb (fun o' => disjoint o o' && disjoint o' o) os && pairwise_disjoint os
  end.

Lemma find_unique os insn o :
  pairwise_disjoint os = true -> In o os -> matches insn o = true -> List.find (matches insn) os = Some o.
Proof.
  induction os as [|o' os IH]; intros Hd Hin Hm; [done|]. simpl in *. apply andb_true_iff in Hd as [Hd Hd'].
  destruct Hin as [->|Hin]; [by rewrite Hm|].
  rewrite forallb_forall in Hd. destruct (andb_prop _ _ (Hd o Hin)) as [_ Hoo].
  rewrite (disjoint_matches insn o o') by done. by apply IH.
Qed.

(** The order of a listing does not matter. *)
Lemma find_permuted os os' insn :
  pairwise_disjoint os' = true -> (forall o, In o os <-> In o os') ->
  List.find (matches insn) os = List.find (matches insn) os'.
Proof.
  intros Hd Hp. destruct (List.find (matches insn) os) as [o|] eqn:E.
  - apply find_some in E as [Hin Hm]. symmetry. by apply find_unique; [|apply Hp|].
  - symmetry. destruct (List.find (matches insn) os') as [o|] eqn:E'; [|done].
    apply find_some in E' as [Hin Hm]. apply Hp in Hin. by rewrite (find_none _ _ E o Hin) in Hm.
Qed.

(** ** What an instruction computes *)

(** Arithmetic and logic on two unsigned 64-bit operands.  The W variants
    work on the low 32 bits and sign-extend their result; shifts use the low
    6 (or 5) bits of the second operand. *)
Definition alu (n : mnemonic) (a b : Z) : Z :=
  match n with
  | ADD | ADDI => uint64 (a + b)
  | SUB => uint64 (a - b)
  | SLL | SLLI => uint64 (a * 2 ^ (b mod 64))
  | SLT | SLTI => b2u (int64 a <? int64 b)
  | SLTU | SLTIU => b2u (a <? b)
  | XOR | XORI => Z.lxor a b
  | SRL | SRLI => a / 2 ^ (b mod 64)
  | SRA | SRAI => uint64 (int64 a / 2 ^ (b mod 64))
  | OR | ORI => Z.lor a b
  | AND | ANDI => Z.land a b
  | ADDW | ADDIW => uint64 (int32 (a + b))
  | SUBW => uint64 (int32 (a - b))
  | SLLW | SLLIW => uint64 (int32 (a * 2 ^ (b mod 32)))
  | SRLW | SRLIW => uint64 (int32 (uint32 a / 2 ^ (b mod 32)))
  | SRAW | SRAIW => uint64 (int32 a / 2 ^ (b mod 32))
  | _ => 0
  end.

(** Whether a branch is taken. *)
Definition taken (n : mnemonic) (a b : Z) : bool :=
  match n with
  | BEQ => a =? b
  | BNE => negb (a =? b)
  | BLT => int64 a <? int64 b
  | BGE => int64 b <=? int64 a
  | BLTU => a <? b
  | BGEU => b <=? a
  | _ => false
  end.

(** Bytes accessed by a load or a store, and the value a load leaves. *)
Definition width (n : mnemonic) : Z :=
  match n with
  | LB | LBU | SB => 1
  | LH | LHU | SH => 2
  | LW | LWU | SW => 4
  | LD | SD => 8
  | _ => 1
  end.
Definition extend (n : mnemonic) (v : Z) : Z :=
  match n with
  | LB => uint64 (int8 v)
  | LH => uint64 (int16 v)
  | LW => uint64 (int32 v)
  | _ => v
  end.

(** The effect of an instruction: at most one register or one memory write,
    and the next pc. *)
Inductive write :=
| write_nothing
| write_register (value : Z)       (* to register [rd], unless it is x0 *)
| write_bytes (address width value : Z).

Record effect := { eff_write : write; eff_pc : Z }.

(** [x i] is register [i], [load a n] the unsigned value of the [n] bytes at
    [a]; ECALL and EBREAK belong to the environment. *)
Definition isa_effect (n : mnemonic) (insn pc : Z) (x : Z -> Z) (load : Z -> Z -> Z) : effect :=
  let next := uint64 (pc + 4) in
  let a := x (rs1 insn) in
  let b := x (rs2 insn) in
  let reg v := {| eff_write := write_register v; eff_pc := next |} in
  match n with
  | LUI => reg (uint64 (immU insn))
  | AUIPC => reg (uint64 (pc + immU insn))
  | JAL => {| eff_write := write_register next; eff_pc := uint64 (pc + immJ insn) |}
  | JALR => {| eff_write := write_register next; eff_pc := uint64 (a + immI insn) / 2 * 2 |}
  | BEQ | BNE | BLT | BGE | BLTU | BGEU =>
      {| eff_write := write_nothing; eff_pc := if taken n a b then uint64 (pc + immB insn) else next |}
  | LB | LH | LW | LD | LBU | LHU | LWU => reg (extend n (load (uint64 (a + immI insn)) (width n)))
  | SB | SH | SW | SD =>
      {| eff_write := write_bytes (uint64 (a + immS insn)) (width n) b; eff_pc := next |}
  | ADDI | SLTI | SLTIU | XORI | ORI | ANDI | ADDIW => reg (alu n a (uint64 (immI insn)))
  | SLLI | SRLI | SRAI => reg (alu n a (shamt6 insn))
  | SLLIW | SRLIW | SRAIW => reg (alu n a (shamt5 insn))
  | ADD | SUB | SLL | SLT | SLTU | XOR | SRL | SRA | OR | AND | ADDW | SUBW | SLLW | SRLW | SRAW => reg (alu n a b)
  | FENCE | ECALL | EBREAK => {| eff_write := write_nothing; eff_pc := next |}
  end.

(** The address a load or a store accesses is a multiple of its width. *)
Definition access_aligned (n : mnemonic) (insn : Z) (x : Z -> Z) : Prop :=
  match n with
  | LB | LH | LW | LD | LBU | LHU | LWU => uint64 (x (rs1 insn) + immI insn) mod width n = 0
  | SB | SH | SW | SD => uint64 (x (rs1 insn) + immS insn) mod width n = 0
  | _ => True
  end.
