(* ===== verification/UarchDecode.v ===== *)
(** * Decoding in the microarchitecture stepper

    The operand decoders of uarch-step.cpp extract the fields and immediates
    of the manual, and the chain of matches of [executeInsn], which is sorted
    by how often instructions occur, runs the one instruction that the
    opcode table gives. *)

From S2P Require Import Prelude SolidityCompat UarchStep UarchSim Rv64i.

(** ** Operands *)

Section operands.
Context (insn : Z).

Lemma operandImm12_spec : operandImm12 insn = immI insn.
Proof.
  unfold operandImm12, immI, int32ShiftRight, int32, bitfield. change (Z.land 20 31) with 20. bitwise_cases.
Qed.
Lemma operandImm20_spec : operandImm20 insn = immU insn.
Proof.
  unfold operandImm20, immU, placed, uint32ShiftRight, uint32ShiftLeft, int32, uint32, bitfield.
  change (Z.land 12 31) with 12. bitwise_cases.
Qed.
Lemma operandShamt5_spec : operandShamt5 insn = shamt5 insn.
Proof.
  unfold operandShamt5, shamt5, uint32ShiftRight, uint32ShiftLeft, int32, uint32, bitfield.
  change (Z.land 7 31) with 7. change (Z.land 27 31) with 27. bitwise_cases.
Qed.
Lemma operandShamt6_spec : operandShamt6 insn = shamt6 insn.
Proof.
  unfold operandShamt6, shamt6, uint32ShiftRight, uint32ShiftLeft, int32, uint32, bitfield.
  change (Z.land 6 31) with 6. change (Z.land 26 31) with 26. bitwise_cases.
Qed.
Lemma operandSimm12_spec : operandSimm12 insn = immS insn.
Proof.
  unfold operandSimm12, immS, placed, int32ShiftRight, uint32ShiftRight, uint32ShiftLeft, int32, uint32, bitfield.
  change (Z.land 25 31) with 25. change (Z.land 5 31) with 5. change (Z.land 20 31) with 20. change (Z.land 27 31) with 27.
  bitwise_cases.
Qed.
Lemma operandSbimm12_spec : operandSbimm12 insn = immB insn.
Proof.
  unfold operandSbimm12, immB, placed, int32ShiftRight, uint32ShiftRight, uint32ShiftLeft, int32, uint32, bitfield.
  change (Z.land 31 31) with 31. change (Z.land 12 31) with 12. change (Z.land 1 31) with 1. change (Z.land 26 31) with 26.
  change (Z.land 5 31) with 5. change (Z.land 20 31) with 20. change (Z.land 28 31) with 28. change (Z.land 24 31) with 24.
  change (Z.land 11 31) with 11. bitwise_cases.
Qed.
Lemma operandJimm20_spec : operandJimm20 insn = immJ insn.
Proof.
  unfold operandJimm20, immJ, placed, int32ShiftRight, uint32ShiftRight, uint32ShiftLeft, int32, uint32, bitfield.
  change (Z.land 31 31) with 31. change (Z.land 20 31) with 20. change (Z.land 1 31) with 1. change (Z.land 22 31) with 22.
  change (Z.land 11 31) with 11. change (Z.land 12 31) with 12. change (Z.land 24 31) with 24. bitwise_cases.
Qed.
End operands.

(** ** The instruction that is run *)

Section decode.
Context {cfg : BuildConfig} {S : Type} {a : IUarchStateAccess S}.

Definition handler (n : mnemonic) : Z -> Z -> M S unit :=
  match n with
  | ADDI => executeADDI
  | LD => executeLD
  | BLTU => executeBLTU
  | BEQ => executeBEQ
  | ANDI => executeANDI
  | ADD => executeADD
  | JAL => executeJAL
  | SLLI => executeSLLI
  | AND => executeAND
  | SD => executeSD
  | LUI => executeLUI
  | JALR => executeJALR
  | ADDIW => executeADDIW
  | SRLI => executeSRLI
  | SRLIW => executeSRLIW
  | BNE => executeBNE
  | LW => executeLW
  | AUIPC => executeAUIPC
  | BGEU => executeBGEU
  | ADDW => executeADDW
  | SRAI => executeSRAI
  | OR => executeOR
  | SRAIW => executeSRAIW
  | BGE => executeBGE
  | SUB => executeSUB
  | LBU => executeLBU
  | SLLIW => executeSLLIW
  | SRL => executeSRL
  | XOR => executeXOR
  | SW => executeSW
  | SLL => executeSLL
  | BLT => executeBLT
  | SB => executeSB
  | SUBW => executeSUBW
  | XORI => executeXORI
  | SRA => executeSRA
  | LHU => executeLHU
  | SH => executeSH
  | SRLW => executeSRLW
  | LWU => executeLWU
  | SLLW => executeSLLW
  | LB => executeLB
  | SLTU => executeSLTU
  | SRAW => executeSRAW
  | LH => executeLH
  | ORI => executeORI
  | SLTIU => executeSLTIU
  | SLT => executeSLT
  | SLTI => executeSLTI
  | FENCE => executeFENCE
  | ECALL => executeECALL
  | EBREAK => executeEBREAK
  end.

(** The opcodes in the order in which [executeInsn] tries them. *)
Definition executeInsn_order : list opcode :=
 [i_type ADDI 0x13 0x0; i_type LD 0x3 0x3; i_type BLTU 0x63 0x6; i_type BEQ 0x63 0x0; i_type ANDI 0x13 0x7;
  r_type ADD 0x33 0x0 0x0; u_type JAL 0x6f; s6_type SLLI 0x13 0x1 0x0; r_type AND 0x33 0x7 0x0;
  i_type SD 0x23 0x3; u_type LUI 0x37; i_type JALR 0x67 0x0; i_type ADDIW 0x1b 0x0;
  s6_type SRLI 0x13 0x5 0x0; r_type SRLIW 0x1b 0x5 0x0; i_type BNE 0x63 0x1; i_type LW 0x3 0x2;
  u_type AUIPC 0x17; i_type BGEU 0x63 0x7; r_type ADDW 0x3b 0x0 0x0; s6_type SRAI 0x13 0x5 0x10;
  r_type OR 0x33 0x6 0x0; r_type SRAIW 0x1b 0x5 0x20; i_type BGE 0x63 0x5; r_type SUB 0x33 0x0 0x20;
  i_type LBU 0x3 0x4; r_type SLLIW 0x1b 0x1 0x0; r_type SRL 0x33 0x5 0x0; r_type XOR 0x33 0x4 0x0;
  i_type SW 0x23 0x2; r_type SLL 0x33 0x1 0x0; i_type BLT 0x63 0x4; i_type SB 0x23 0x0;
  r_type SUBW 0x3b 0x0 0x20; i_type XORI 0x13 0x4; r_type SRA 0x33 0x5 0x20; i_type LHU 0x3 0x5;
  i_type SH 0x23 0x1; r_type SRLW 0x3b 0x5 0x0; i_type LWU 0x3 0x6; r_type SLLW 0x3b 0x1 0x0;
  i_type LB 0x3 0x0; r_type SLTU 0x33 0x3 0x0; r_type SRAW 0x3b 0x5 0x20; i_type LH 0x3 0x1;
  i_type ORI 0x13 0x6; i_type SLTIU 0x13 0x3; r_type SLT 0x33 0x2 0x0; i_type SLTI 0x13 0x2;
  i_type FENCE 0xf 0x0;
  sys_type ECALL (uint32 0x73); sys_type EBREAK (uint32 0x100073)].

Fixpoint run_first (os : list opcode) (insn pc : Z) : M S unit :=
  match os with
  | [] => throwRuntimeError "illegal instruction"
  | o :: os => if matches insn o then handler (op_name o) insn pc else run_first os insn pc
  end.

Lemma run_first_find os insn pc :
  run_first os insn pc =
    match List.find (matches insn) os with
    | Some o => handler (op_name o) insn pc
    | None => throwRuntimeError "illegal instruction"
    end.
Proof. induction os as [|o os IH]; [done|]. simpl. by destruct (matches insn o). Qed.

Lemma matches_sys n insn word : is_u 32 insn -> matches insn (sys_type n word) = (insn =? word).
Proof.
  intros Hi. unfold matches, sys_type. simpl op_mask. simpl op_match. change 0xffffffff with (Z.ones 32).
  rewrite Z.land_ones by lia. fold (uwrap 32 insn). by rewrite uwrap_small.
Qed.

Lemma executeInsn_run_first insn pc : is_u 32 insn -> executeInsn insn pc = run_first executeInsn_order insn pc.
Proof.
  intros Hi. unfold executeInsn, executeInsn_order. cbn [run_first]. rewrite !matches_sys by done. reflexivity.
Qed.

#[local] Instance opcode_eq_dec : EqDecision opcode.
Proof. solve_decision. Defined.

Lemma same_opcodes o : In o executeInsn_order <-> In o rv64i_opcodes.
Proof.
  assert (E1 : Forall (fun o => o ∈ rv64i_opcodes) executeInsn_order) by (apply (bool_decide_unpack _); by vm_compute).
  assert (E2 : Forall (fun o => o ∈ executeInsn_order) rv64i_opcodes) by (apply (bool_decide_unpack _); by vm_compute).
  rewrite Forall_forall in E1, E2. rewrite <-!list_elem_of_In. split; [apply E1|apply E2].
Qed.

(** [executeInsn] runs the handler of the instruction that the opcode table gives. *)
Lemma executeInsn_decode insn pc :
  is_u 32 insn ->
  executeInsn insn pc =
    match decode insn with
    | Some n => handler n insn pc
    | None => throwRuntimeError "illegal instruction"
    end.
Proof.
  intros Hi. rewrite executeInsn_run_first, run_first_find by done. unfold decode.
  rewrite (find_permuted executeInsn_order rv64i_opcodes) by (apply same_opcodes || by vm_compute).
  by destruct (List.find _ _).
Qed.
End decode.
