(* ===== verification/HashTree.v ===== *)
(** * Hash trees (src/i-hasher.hpp, src/hash-tree-proof.hpp)

    The hasher interface, Merkle trees of data buffers, and proofs that a
    node of the tree has a given hash, with the reference tree they are
    about. *)

From S2P Require Import Prelude.

Definition HASH_TREE_LOG2_ROOT_SIZE : Z := 64.
Definition HASH_TREE_LOG2_WORD_SIZE : Z := 5.
Definition HASH_TREE_WORD_SIZE : Z := Z.shiftl 1 HASH_TREE_LOG2_WORD_SIZE.

(** ** i_hasher

    The code is generic in the hasher.  [H] is the type of machine hashes;
    [machine_hash_of_bytes] reads one out of 32 bytes. *)
Class IHasher (H : Type) := {
  hash : list Z -> H;
  concat_hash : H -> H -> H;
  machine_hash_of_bytes : list Z -> H;
  machine_hash_eq_dec :: EqDecision H
}.

(** The hash function is treated as ideal where soundness needs it: no two
    words and no two pairs of hashes collide. *)
Class CollisionFree H `{IHasher H} : Prop := {
  hash_word_inj d d' :
    length d = 32%nat -> length d' = 32%nat -> hash d = hash d' -> d = d';
  concat_hash_inj l r l' r' : concat_hash l r = concat_hash l' r' -> l = l' /\ r = r'
}.

(** ** Merkle tree of a data buffer *)
Section merkle_tree_hash.
Context `{IHasher H}.

(** [fuel] bounds the depth of the recursion, which halves [data]. *)
Fixpoint get_merkle_tree_hash_rec (fuel : nat) (data : list Z) (leaf_length : Z) : outcome H :=
  let size := Z.of_nat (length data) in
  if leaf_length <? size then
    if negb (Z.land size 1 =? 0) then
      Throw (invalid_argument "data size must be a power of 2 multiple of leaf_length")
    else
      match fuel with
      | O => Throw (logic_error "out of fuel")
      | S fuel =>
          let half_size := Z.to_nat (Z.shiftr size 1) in
          left ← get_merkle_tree_hash_rec fuel (take half_size data) leaf_length;
          result ← get_merkle_tree_hash_rec fuel (drop half_size data) leaf_length;
          mret (concat_hash left result)
      end
  else if negb (size =? leaf_length) then
    Throw (invalid_argument "data size must be equal to leaf length")
  else mret (hash data).

Definition get_merkle_tree_hash (data : list Z) (leaf_length : Z) : outcome H :=
  get_merkle_tree_hash_rec (length data) data leaf_length.

Lemma get_merkle_tree_hash_leaf data leaf_length :
  Z.of_nat (length data) = leaf_length -> get_merkle_tree_hash data leaf_length = Ret (hash data).
Proof.
  intros <-. unfold get_merkle_tree_hash. destruct (length data) eqn:E;
    cbn [get_merkle_tree_hash_rec]; by rewrite E, Z.ltb_irrefl, Z.eqb_refl.
Qed.
End merkle_tree_hash.

(** ** hash_tree_proof *)
Section proof.
Context `{IHasher H}.

Record hash_tree_proof := {
  m_target_address : Z;
  m_log2_target_size : Z;
  m_target_hash : H;
  m_log2_root_size : Z;
  m_root_hash : H;
  m_sibling_hashes : list H
}.

(** The constructor: its checks; hashes are filled in by the setters. *)
Definition hash_tree_proof_new (log2_root_size log2_target_size : Z) : outcome () :=
  if log2_root_size <=? 0 then Throw (out_of_range "log2_root_size is not positive")
  else if log2_target_size <? 0 then Throw (out_of_range "log2_target_size is negative")
  else if log2_root_size <? log2_target_size then
    Throw (out_of_range "log2_target_size is greater than log2_root_size")
  else mret ().

Definition log2_size_to_index (p : hash_tree_proof) (log2_size : Z) : outcome nat :=
  let index := log2_size - m_log2_target_size p in
  if (index <? 0) || (Z.of_nat (length (m_sibling_hashes p)) <=? index) then
    Throw (out_of_range "log2_size is out of range")
  else mret (Z.to_nat index).

Definition get_sibling_hash (p : hash_tree_proof) (log2_size : Z) : outcome H :=
  i ← log2_size_to_index p log2_size;
  match m_sibling_hashes p !! i with
  | Some h => mret h
  | None => Throw (out_of_range "log2_size is out of range")
  end.

(** [(get_target_address() & (uint64_t(1) << log2_size)) != 0] *)
Definition target_bit (address log2_size : Z) : bool :=
  negb (Z.land address (uint64 (Z.shiftl 1 log2_size)) =? 0).

(** [n] iterations of the loop of [bubble_up], from [log2_size]. *)
Fixpoint bubble_up_loop (p : hash_tree_proof) (n : nat) (log2_size : Z) (h : H) : outcome H :=
  match n with
  | O => mret h
  | S n =>
      sibling ← get_sibling_hash p log2_size;
      bubble_up_loop p n (log2_size + 1)
        (if target_bit (m_target_address p) log2_size
         then concat_hash sibling h else concat_hash h sibling)
  end.

Definition bubble_up (p : hash_tree_proof) (new_target_hash : H) : outcome H :=
  bubble_up_loop p (Z.to_nat (m_log2_root_size p - m_log2_target_size p))
    (m_log2_target_size p) new_target_hash.

Definition verify (p : hash_tree_proof) : outcome bool :=
  h ← bubble_up p (m_target_hash p);
  mret (bool_decide (h = m_root_hash p)).

(** The second loop of [slice]: the siblings kept and the root reached. *)
Fixpoint slice_loop (p : hash_tree_proof) (n : nat) (log2_size : Z) (h : H) : outcome (list H * H) :=
  match n with
  | O => mret ([], h)
  | S n =>
      sibling ← get_sibling_hash p log2_size;
      '(siblings, root) ← slice_loop p n (log2_size + 1)
        (if target_bit (m_target_address p) log2_size
         then concat_hash sibling h else concat_hash h sibling);
      mret (sibling :: siblings, root)
  end.

Definition slice (p : hash_tree_proof) (new_log2_root_size new_log2_target_size : Z)
    : outcome hash_tree_proof :=
  if new_log2_root_size <=? 0 then Throw (out_of_range "log2_root_size is not positive")
  else if new_log2_target_size <? 0 then Throw (out_of_range "log2_target_size is negative")
  else if new_log2_root_size <? new_log2_target_size then
    Throw (out_of_range "log2_target_size is greater than log2_root_size")
  else if m_log2_root_size p <? new_log2_root_size then
    Throw (out_of_range "log2_root_size is too large")
  else if new_log2_target_size <? m_log2_target_size p then
    Throw (out_of_range "log2_target_size is too small")
  else
    hash_tree_proof_new new_log2_root_size new_log2_target_size ;;
    target ← bubble_up_loop p (Z.to_nat (new_log2_target_size - m_log2_target_size p))
               (m_log2_target_size p) (m_target_hash p);
    '(siblings, root) ← slice_loop p (Z.to_nat (new_log2_root_size - new_log2_target_size))
                          new_log2_target_size target;
    let sliced := {|
      m_target_address := Z.shiftl (Z.shiftr (m_target_address p) new_log2_target_size) new_log2_target_size;
      m_log2_target_size := new_log2_target_size;
      m_target_hash := target;
      m_log2_root_size := new_log2_root_size;
      m_root_hash := root;
      m_sibling_hashes := siblings |} in
    ok ← verify sliced;
    if (ok : bool) then mret sliced else Throw (logic_error "produced invalid sliced proof").
End proof.
Arguments hash_tree_proof : clear implicits.

(** ** The reference tree

    The tree over infinitely many leaves: [node n i] is the hash of the
    [i]-th node of height [n] (leaves have height 0). *)
Section reference.
Context `{IHasher H}.

Fixpoint node (leaf : Z -> H) (n : nat) (i : Z) : H :=
  match n with
  | O => leaf i
  | S n => concat_hash (node leaf n (2 * i)) (node leaf n (2 * i + 1))
  end.

(** The other child of the parent of node [i]. *)
Definition sibling (i : Z) : Z := if Z.odd i then i - 1 else i + 1.

(** Siblings of the path from node [i] of height [n], [k] levels up. *)
Fixpoint siblings (leaf : Z -> H) (n k : nat) (i : Z) : list H :=
  match k with
  | O => []
  | S k => node leaf n (sibling i) :: siblings leaf (S n) k (i / 2)
  end.

(** The hash [length sibs] levels above a node [i] with hash [h]. *)
Fixpoint fold_up (sibs : list H) (i : Z) (h : H) : H :=
  match sibs with
  | [] => h
  | s :: sibs => fold_up sibs (i / 2) (if Z.odd i then concat_hash s h else concat_hash h s)
  end.

Lemma length_siblings leaf n k i : length (siblings leaf n k i) = k.
Proof. revert n i. induction k; intros; simpl; [done|]. by rewrite IHk. Qed.

Lemma half_cases i : (Z.odd i = true /\ i = 2 * (i / 2) + 1) \/ (Z.odd i = false /\ i = 2 * (i / 2)).
Proof.
  pose proof (Z.div_mod i 2 ltac:(lia)). rewrite Zmod_odd in *. destruct (Z.odd i); lia.
Qed.

Lemma node_step leaf n i :
  node leaf (S n) (i / 2) =
    if Z.odd i then concat_hash (node leaf n (sibling i)) (node leaf n i)
    else concat_hash (node leaf n i) (node leaf n (sibling i)).
Proof.
  unfold sibling. simpl.
  destruct (half_cases i) as [[-> Hi]|[-> Hi]]; f_equal; f_equal; lia.
Qed.

Lemma pow2_succ_div i k : 0 <= k -> i / 2 ^ (Z.succ k) = i / 2 / 2 ^ k.
Proof. intros. rewrite Z.div_div by lia. by rewrite Z.pow_succ_r. Qed.

(** The siblings of a node fold its hash up to its ancestor's. *)
Lemma fold_up_node leaf n k i :
  fold_up (siblings leaf n k i) i (node leaf n i) = node leaf (n + k) (i / 2 ^ Z.of_nat k).
Proof.
  revert n i. induction k; intros n i.
  - simpl. rewrite Nat.add_0_r. f_equal. by rewrite Z.div_1_r.
  - cbn [siblings fold_up]. rewrite <-node_step, IHk. 
    rewrite Nat2Z.inj_succ, pow2_succ_div by lia. by replace (n + S k)%nat with (S n + k)%nat by lia.
Qed.

(** Two leaf assignments that agree outside of node [i] have the same siblings on its path. *)
Definition in_node (n : nat) (i j : Z) : Prop := j / 2 ^ Z.of_nat n = i.

Lemma node_ext leaf leaf' n i :
  (forall j, in_node n i j -> leaf j = leaf' j) -> node leaf n i = node leaf' n i.
Proof.
  revert i. unfold in_node. induction n as [|n IH]; intros i Hj; simpl.
  - apply Hj. by rewrite Z.div_1_r.
  - rewrite Nat2Z.inj_succ in Hj.
    f_equal; apply IH; intros j Hin; apply Hj; unfold in_node in *;
      rewrite Z.pow_succ_r, (Z.mul_comm 2), <-Z.div_div, Hin by lia;
      symmetry; [apply Z.div_unique with 0 | apply Z.div_unique with 1]; lia.
Qed.

Lemma siblings_ext leaf leaf' n k i :
  (forall j, ~ in_node n i j -> leaf j = leaf' j) ->
  siblings leaf n k i = siblings leaf' n k i.
Proof.
  revert n i. induction k as [|k IH]; intros n i Hj; simpl; [done|]. f_equal.
  - apply node_ext. intros j Hin. apply Hj. unfold in_node in *.
    rewrite Hin. unfold sibling. destruct (Z.odd i); lia.
  - apply IH. intros j Hin. apply Hj. contradict Hin. unfold in_node in *.
    rewrite Nat2Z.inj_succ, Z.pow_succ_r, (Z.mul_comm 2), <-Z.div_div, Hin by lia. done.
Qed.

(** Replacing the contents of a node: the same siblings fold the new hash
    to the new ancestor. *)
Lemma fold_up_update leaf leaf' n k i :
  (forall j, ~ in_node n i j -> leaf j = leaf' j) ->
  fold_up (siblings leaf n k i) i (node leaf' n i) = node leaf' (n + k) (i / 2 ^ Z.of_nat k).
Proof. intros. rewrite (siblings_ext leaf leaf') by done. apply fold_up_node. Qed.

(** With an ideal hash, only the true siblings and node hash fold to the true ancestor. *)
Lemma fold_up_inj `{!CollisionFree H} leaf n sibs i h :
  fold_up sibs i h = node leaf (n + length sibs) (i / 2 ^ Z.of_nat (length sibs)) ->
  h = node leaf n i /\ sibs = siblings leaf n (length sibs) i.
Proof.
  revert n i h. induction sibs as [|s sibs IH]; intros n i h E.
  - simpl in E. rewrite Nat.add_0_r, Z.div_1_r in E. done.
  - cbn [fold_up length siblings] in *.
    rewrite Nat2Z.inj_succ, pow2_succ_div, <-Nat.add_succ_comm in E by lia.
    destruct (IH (S n) _ _ E) as [E1 ->]. rewrite node_step in E1.
    rewrite length_siblings.
    destruct (Z.odd i); apply concat_hash_inj in E1 as [-> ->]; done.
Qed.

(** A subtree does not depend on where it is. *)
Lemma node_shift leaf n c i :
  node (fun j => leaf (j + c * 2 ^ Z.of_nat n)) n i = node leaf n (i + c).
Proof.
  revert c i. induction n as [|n IH]; intros c i.
  - simpl. by rewrite Z.mul_1_r.
  - cbn [node]. rewrite Nat2Z.inj_succ, Z.pow_succ_r by lia.
    rewrite !(Z.mul_assoc c 2), !(IH (c * 2)). do 2 f_equal; lia.
Qed.

Lemma fold_up_app s1 s2 i h :
  fold_up (s1 ++ s2) i h = fold_up s2 (i / 2 ^ Z.of_nat (length s1)) (fold_up s1 i h).
Proof.
  revert i h. induction s1 as [|s s1 IH]; intros i h.
  - simpl. by rewrite Z.div_1_r.
  - cbn [app fold_up length]. rewrite IH, Nat2Z.inj_succ, pow2_succ_div by lia. done.
Qed.
End reference.

(** ** Proofs against the reference tree *)
Section proof_facts.
Context `{IHasher H}.
Implicit Types p : hash_tree_proof H.

(** A proof as [make_proof] and [get_proof] build them: consistent sizes
    within the 64-bit address space. *)
Definition proof_wf p : Prop :=
  is_u 64 (m_target_address p) /\ 0 <= m_log2_target_size p <= m_log2_root_size p /\
  m_log2_root_size p <= 64 /\ 0 < m_log2_root_size p /\
  Z.of_nat (length (m_sibling_hashes p)) = m_log2_root_size p - m_log2_target_size p.

Lemma target_bit_spec address k :
  is_u 64 address -> 0 <= k < 64 -> target_bit address k = Z.odd (address / 2 ^ k).
Proof.
  intros Ha Hk. unfold target_bit. rewrite <-Z.bit0_odd, Z.div_pow2_bits, Z.add_0_l by lia.
  unfold uint64. rewrite (uwrap_small 64 (Z.shiftl 1 k)).
  2:{ rewrite Z.shiftl_mul_pow2, Z.mul_1_l by lia. split; [lia|]. apply Z.pow_lt_mono_r; lia. }
  destruct (Z.testbit address k) eqn:E.
  - assert (Z.land address (Z.shiftl 1 k) <> 0) as Hne; [|by apply Z.eqb_neq in Hne as ->].
    intros E0. apply (f_equal (fun x => Z.testbit x k)) in E0.
    rewrite Z.land_spec, Z.shiftl_spec, Z.sub_diag, E, Z.bits_0 in E0 by lia. done.
  - assert (Z.land address (Z.shiftl 1 k) = 0) as ->; [|done].
    apply Z.bits_inj'. intros i Hi. rewrite Z.land_spec, Z.shiftl_spec, Z.bits_0 by lia.
    destruct (decide (i = k)) as [->|]; [by rewrite E|].
    destruct (decide (i < k)); [by rewrite (Z.testbit_neg_r 1), andb_false_r by lia|].
    rewrite (is_u_testbit 1 1 (i - k)) by (unfold is_u; lia). by rewrite andb_false_r.
Qed.

(** [n] iterations of the loop fold the next [n] siblings. *)
Lemma bubble_up_loop_spec p n k h :
  proof_wf p -> m_log2_target_size p <= k -> k + Z.of_nat n <= m_log2_root_size p ->
  bubble_up_loop p n k h =
    Ret (fold_up (take n (drop (Z.to_nat (k - m_log2_target_size p)) (m_sibling_hashes p)))
                 (m_target_address p / 2 ^ k) h).
Proof.
  intros (Ha & Ht & Hr & Hr' & Hlen). revert k h.
  induction n as [|n IH]; intros k h Hk Hn; simpl; [done|].
  unfold get_sibling_hash, log2_size_to_index.
  destruct (lookup_lt_is_Some_2 (m_sibling_hashes p) (Z.to_nat (k - m_log2_target_size p)))
    as [s Hs]; [lia|].
  replace ((k - m_log2_target_size p <? 0) || _) with false by lia.
  simpl. rewrite Hs. simpl. rewrite IH by lia.
  rewrite target_bit_spec by (done || lia).
  rewrite (drop_S _ s _ Hs). cbn [take fold_up].
  rewrite (Z.pow_add_r 2 k 1), <-Z.div_div by lia.
  by replace (Z.to_nat (k + 1 - m_log2_target_size p)) with (S (Z.to_nat (k - m_log2_target_size p))) by lia.
Qed.

Lemma bubble_up_spec p h :
  proof_wf p ->
  bubble_up p h = Ret (fold_up (m_sibling_hashes p) (m_target_address p / 2 ^ m_log2_target_size p) h).
Proof.
  intros Hp. pose proof Hp as (Ha & Ht & Hr & Hr' & Hlen). unfold bubble_up.
  rewrite bubble_up_loop_spec, Z.sub_diag, drop_0, take_ge by (done || lia). done.
Qed.

Lemma verify_spec p :
  proof_wf p ->
  verify p = Ret (bool_decide (fold_up (m_sibling_hashes p)
    (m_target_address p / 2 ^ m_log2_target_size p) (m_target_hash p) = m_root_hash p)).
Proof. intros. unfold verify. by rewrite bubble_up_spec. Qed.
End proof_facts.

Section slice_facts.
Context `{IHasher H}.
Implicit Types p q : hash_tree_proof H.

(** A proof that the node at its target address has its target hash, in
    the tree of [leaf] whose leaves span [2^base] bytes. *)
Definition proof_of (leaf : Z -> H) (base : Z) (p : hash_tree_proof H) : Prop :=
  let n := Z.to_nat (m_log2_target_size p - base) in
  let k := Z.to_nat (m_log2_root_size p - m_log2_target_size p) in
  let i := m_target_address p / 2 ^ m_log2_target_size p in
  proof_wf p /\ base <= m_log2_target_size p /\
  m_target_hash p = node leaf n i /\
  m_sibling_hashes p = siblings leaf n k i /\
  m_root_hash p = node leaf (n + k) (i / 2 ^ Z.of_nat k).

Lemma siblings_app leaf n k1 k2 i :
  siblings leaf n (k1 + k2) i =
    siblings leaf n k1 i ++ siblings leaf (n + k1) k2 (i / 2 ^ Z.of_nat k1).
Proof.
  revert n i. induction k1 as [|k1 IH]; intros n i.
  - simpl. by rewrite Nat.add_0_r, Z.div_1_r.
  - cbn [Nat.add siblings app]. rewrite IH, Nat2Z.inj_succ, pow2_succ_div by lia.
    by replace (n + S k1)%nat with (S n + k1)%nat by lia.
Qed.

Lemma siblings_take_drop leaf n k i a b :
  (a + b <= k)%nat ->
  take b (drop a (siblings leaf n k i)) = siblings leaf (n + a) b (i / 2 ^ Z.of_nat a).
Proof.
  intros. replace k with (a + (b + (k - a - b)))%nat by lia.
  rewrite siblings_app, drop_app_length' by (by rewrite length_siblings).
  by rewrite siblings_app, take_app_length' by (by rewrite length_siblings).
Qed.

Lemma proof_of_verify leaf base p : proof_of leaf base p -> verify p = Ret true.
Proof.
  intros (Hwf & ? & Ht & Hs & Hr). rewrite verify_spec by done.
  rewrite Ht, Hs, fold_up_node, Hr. by rewrite bool_decide_eq_true_2.
Qed.

Lemma slice_loop_spec p n k h :
  proof_wf p -> m_log2_target_size p <= k -> k + Z.of_nat n <= m_log2_root_size p ->
  let sibs := take n (drop (Z.to_nat (k - m_log2_target_size p)) (m_sibling_hashes p)) in
  slice_loop p n k h = Ret (sibs, fold_up sibs (m_target_address p / 2 ^ k) h).
Proof.
  intros (Ha & Ht & Hr & Hr' & Hlen). revert k h.
  induction n as [|n IH]; intros k h Hk Hn; cbv zeta; simpl; [done|].
  unfold get_sibling_hash, log2_size_to_index.
  destruct (lookup_lt_is_Some_2 (m_sibling_hashes p) (Z.to_nat (k - m_log2_target_size p)))
    as [s Hs]; [lia|].
  replace ((k - m_log2_target_size p <? 0) || _) with false by lia.
  simpl. rewrite Hs. simpl. rewrite IH by lia. simpl.
  rewrite target_bit_spec by (done || lia).
  rewrite (drop_S _ s _ Hs). cbn [take fold_up].
  rewrite (Z.pow_add_r 2 k 1), <-Z.div_div by lia.
  by replace (Z.to_nat (k + 1 - m_log2_target_size p)) with (S (Z.to_nat (k - m_log2_target_size p))) by lia.
Qed.

(** Aligning an address down to 2^k. *)
Lemma align_down a k : 0 <= k -> Z.shiftl (Z.shiftr a k) k = a / 2 ^ k * 2 ^ k.
Proof. intros. by rewrite Z.shiftr_div_pow2, Z.shiftl_mul_pow2. Qed.

Lemma align_down_div a k : 0 <= k -> Z.shiftl (Z.shiftr a k) k / 2 ^ k = a / 2 ^ k.
Proof. intros. rewrite align_down, Z.div_mul; [done | pose proof (pow2_pos k); lia | done]. Qed.

Lemma align_down_u64 a k : is_u 64 a -> 0 <= k -> is_u 64 (Z.shiftl (Z.shiftr a k) k).
Proof.
  intros [] Hk. rewrite align_down by lia. pose proof (pow2_pos k Hk).
  pose proof (Z.mul_div_le a (2 ^ k) ltac:(lia)). pose proof (Z.div_pos a (2 ^ k)).
  unfold is_u. nia.
Qed.

(** The node hashes and siblings [slice] finds are those of the enclosing
    node within the enclosing subtree. *)
Lemma slice_proof_of leaf base p nr nt :
  proof_of leaf base p ->
  0 < nr <= m_log2_root_size p -> m_log2_target_size p <= nt <= nr ->
  exists q, slice p nr nt = Ret q /\ proof_of leaf base q /\
    m_log2_root_size q = nr /\ m_log2_target_size q = nt /\
    m_target_address q = m_target_address p / 2 ^ nt * 2 ^ nt.
Proof.
  intros Hp Hnr Hnt. pose proof Hp as (Hwf & Hbase & Ht & Hs & Hr).
  pose proof Hwf as (Ha & Hts & Hrs & Hrs' & Hlen).
  set (t := m_log2_target_size p) in *. set (i := m_target_address p / 2 ^ t) in *.
  set (n := Z.to_nat (t - base)) in *.
  assert (Hroot : forall k, t <= k ->
    m_target_address p / 2 ^ k = i / 2 ^ Z.of_nat (Z.to_nat (k - t))).
  { intros k Hk. subst i. rewrite Z2Nat.id, Z.div_div by
      (try lia; pose proof (pow2_pos t); pose proof (pow2_pos (k - t)); lia).
    rewrite <-Z.pow_add_r by lia. do 2 f_equal. lia. }
  pose (q := {|
    m_target_address := Z.shiftl (Z.shiftr (m_target_address p) nt) nt;
    m_log2_target_size := nt;
    m_target_hash := node leaf (n + Z.to_nat (nt - t)) (i / 2 ^ Z.of_nat (Z.to_nat (nt - t)));
    m_log2_root_size := nr;
    m_root_hash := node leaf (n + Z.to_nat (nr - t)) (i / 2 ^ Z.of_nat (Z.to_nat (nr - t)));
    m_sibling_hashes := siblings leaf (n + Z.to_nat (nt - t)) (Z.to_nat (nr - nt))
                          (i / 2 ^ Z.of_nat (Z.to_nat (nt - t))) |}).
  assert (Hq : proof_of leaf base q).
  { unfold proof_of, proof_wf, q; cbn [m_target_address m_log2_target_size m_target_hash
      m_log2_root_size m_root_hash m_sibling_hashes].
    rewrite align_down_div, length_siblings, (Hroot nt) by lia.
    replace (Z.to_nat (nt - base)) with (n + Z.to_nat (nt - t))%nat by lia.
    repeat split; try lia; try (apply align_down_u64; [done|lia]).
    rewrite Z.div_div, <-Z.pow_add_r by
      (try lia; pose proof (pow2_pos (Z.of_nat (Z.to_nat (nt - t))));
       pose proof (pow2_pos (Z.of_nat (Z.to_nat (nr - nt)))); lia).
    f_equal; [lia|]. do 2 f_equal; lia. }
  exists q. split; [|split; [done|]; split; [done|]; split; [done|]; apply align_down; lia].
  unfold slice, hash_tree_proof_new. fold t.
  replace (nr <=? 0) with false by lia. replace (nt <? 0) with false by lia.
  replace (nr <? nt) with false by lia. replace (m_log2_root_size p <? nr) with false by lia.
  replace (nt <? t) with false by lia. cbn [mbind outcome_bind mret outcome_ret].
  rewrite bubble_up_loop_spec by (fold t; done || lia). fold t i.
  rewrite Z.sub_diag, drop_0, Hs, Ht.
  replace (take _ _) with (siblings leaf n (Z.to_nat (nt - t)) i).
  2:{ symmetry. rewrite <-(drop_0 (siblings _ _ _ _)), siblings_take_drop by lia.
      simpl. by rewrite Nat.add_0_r, Z.div_1_r. }
  rewrite fold_up_node. cbn [mbind outcome_bind].
  rewrite slice_loop_spec by (fold t; done || lia). fold t.
  rewrite Hs, siblings_take_drop, (Hroot nt), fold_up_node by lia. cbn [mbind outcome_bind].
  match goal with |- context [verify ?x] => assert (x = q) as -> end.
  { unfold q. f_equal. rewrite Z.div_div, <-Z.pow_add_r by
      (try lia; pose proof (pow2_pos (Z.of_nat (Z.to_nat (nt - t))));
       pose proof (pow2_pos (Z.of_nat (Z.to_nat (nr - nt)))); lia).
    f_equal; [lia|]. do 2 f_equal; lia. }
  by rewrite (proof_of_verify leaf base).
Qed.
End slice_facts.
