(* ===== verification/Memory.v ===== *)
(** * The machine state as memory

    The emulator maps its whole state, registers included, to a 64-bit
    physical address space, and the root hash of the machine is the root of
    the hash tree of that space.  A [memory] gives the 64-bit word at every
    8-byte aligned address; addresses that nothing maps read as zero
    (pristine).  The state access of the stepper over a bare memory is the
    specification of the others. *)

From S2P Require Import Prelude Shadow SolidityCompat HashTree.

(** Words by index ([paddr >> 3]). *)
Abbreviation memory := (gmap Z Z).

Definition word_at (m : memory) (i : Z) : Z := uint64 (default 0 (m !! i)).
Definition word_index (paddr : Z) : Z := Z.shiftr paddr 3.
Definition mem_read (m : memory) (paddr : Z) : Z := word_at m (word_index paddr).
Definition mem_write (paddr v : Z) (m : memory) : memory := <[word_index paddr := v]> m.

(** ** The hash tree of a memory *)

(** The bytes of the [i]-th 32-byte hash tree word. *)
Definition leaf_bytes (m : memory) (i : Z) : list Z :=
  le_bytes 8 (word_at m (4 * i)) ++ le_bytes 8 (word_at m (4 * i + 1)) ++
  le_bytes 8 (word_at m (4 * i + 2)) ++ le_bytes 8 (word_at m (4 * i + 3)).

Definition leaf `{IHasher H} (m : memory) (i : Z) : H := hash (leaf_bytes m i).

(** Depth of the tree: its leaves are 32-byte words of a 2^64 byte space. *)
Definition TREE_DEPTH : nat := 59.
Lemma TREE_DEPTH_value : TREE_DEPTH = 59%nat.
Proof. done. Qed.
#[global] Opaque TREE_DEPTH.

Definition root_hash_of `{IHasher H} (m : memory) : H := node (leaf m) TREE_DEPTH 0.

(** ** Words inside of access data (src/access-log.hpp) *)

Definition set_word_access_data (w : Z) : list Z := le_bytes 8 w.

Definition replace_word_access_data (w : Z) (ad : list Z) (offset : Z) : outcome (list Z) :=
  if Z.of_nat (length ad) <? offset + 8 then
    Throw (assertion_failed "ad.size() >= offset + sizeof(uint64_t)")
  else
    let n := Z.to_nat offset in
    mret (take n ad ++ le_bytes 8 w ++ drop (n + 8) ad).

Definition get_word_access_data (ad : list Z) (offset : Z) : outcome Z :=
  if Z.of_nat (length ad) <? offset + 8 then
    Throw (assertion_failed "ad.size() >= offset + sizeof(uint64_t)")
  else mret (le_value (take 8 (drop (Z.to_nat offset) ad))).

(** ** The specification state access

    Misaligned word accesses are aligned down, as the access logs define
    them. *)

(** A TLB slot is four words. *)
Definition mem_write_tlb (set_index slot_index vaddr_page vp_offset pma_index : Z) (m : memory) : memory :=
  let p := shadow_tlb_get_abs_addr set_index slot_index in
  mem_write (p + 24) 0 (mem_write (p + 16) pma_index
    (mem_write (p + 8) vp_offset (mem_write p vaddr_page m))).

Section spec_access.
(** The initial contents of the microarchitecture state (generated). *)
Context (pristine : memory).

Definition in_uarch_state (i : Z) : Prop :=
  Z.shiftr i (UARCH_STATE_LOG2_SIZE - 3) = Z.shiftr UARCH_STATE_START_ADDRESS UARCH_STATE_LOG2_SIZE.

Definition mem_reset_uarch (m : memory) : memory :=
  filter (fun iw => in_uarch_state iw.1) pristine ∪ filter (fun iw => ~ in_uarch_state iw.1) m.

Definition uarch_x_address (i : Z) : Z :=
  shadow_uarch_state_get_what_i shadow_uarch_state_what.uarch_x0 i.

#[export] Instance spec_access : IUarchStateAccess memory := {
  read_uarch_x i := gets (fun m => mem_read m (uarch_x_address i));
  write_uarch_x i v := modify (mem_write (uarch_x_address i) v);
  read_uarch_pc := gets (fun m => mem_read m shadow_uarch_state_what.uarch_pc);
  write_uarch_pc v := modify (mem_write shadow_uarch_state_what.uarch_pc v);
  read_uarch_cycle := gets (fun m => mem_read m shadow_uarch_state_what.uarch_cycle);
  write_uarch_cycle v := modify (mem_write shadow_uarch_state_what.uarch_cycle v);
  read_uarch_halt_flag := gets (fun m => mem_read m shadow_uarch_state_what.uarch_halt_flag);
  write_uarch_halt_flag v := modify (mem_write shadow_uarch_state_what.uarch_halt_flag v);
  read_word p := gets (fun m => mem_read m p);
  write_word p v := modify (mem_write p v);
  uarch_putchar c := mret false;
  write_tlb i j x y z := modify (mem_write_tlb i j x y z);
  reset_uarch := modify mem_reset_uarch;
  revert_state := mret ()
}.
End spec_access.

(** ** Facts *)

Lemma word_index_div p : word_index p = p / 8.
Proof. unfold word_index. by rewrite Z.shiftr_div_pow2. Qed.

Lemma length_le_bytes8 v : length (le_bytes 8 v) = 8%nat.
Proof. by rewrite length_le_bytes. Qed.

Lemma word_at_range m i : is_u 64 (word_at m i).
Proof. by apply uwrap_range. Qed.

Lemma length_leaf_bytes m i : length (leaf_bytes m i) = 32%nat.
Proof. unfold leaf_bytes. by rewrite !length_app, !length_le_bytes8. Qed.

Lemma le_bytes8_value v : le_value (le_bytes 8 v) = uint64 v.
Proof. by apply le_value_bytes. Qed.

Lemma le_bytes8_uint64 v : le_bytes 8 (uint64 v) = le_bytes 8 v.
Proof.
  assert (Hl : forall x, le_bytes 8 x = le_bytes 8 (le_value (le_bytes 8 x))).
  { intros x. symmetry. unfold le_bytes, le_value.
    pose proof (Z_to_little_endian_to_Z 8 8 (Z_to_little_endian 8 8 x)) as E.
    rewrite E; [done| |lia|].
    - by rewrite length_Z_to_little_endian.
    - by apply Z_to_little_endian_bound. }
  rewrite (Hl v). by rewrite le_bytes8_value.
Qed.

Lemma word_at_insert m i v j :
  word_at (<[i := v]> m) j = if decide (i = j) then uint64 v else word_at m j.
Proof.
  unfold word_at. case_decide; [subst; by rewrite lookup_insert_eq | by rewrite lookup_insert_ne].
Qed.

(** The bytes of a hash tree word are those of its four words, and determine them. *)
Lemma leaf_bytes_app m i k :
  0 <= k < 4 ->
  exists l r, leaf_bytes m i = l ++ le_bytes 8 (word_at m (4 * i + k)) ++ r /\
    length l = Z.to_nat (8 * k) /\
    forall v, leaf_bytes (<[4 * i + k := v]> m) i = l ++ le_bytes 8 v ++ r.
Proof.
  intros Hk. unfold leaf_bytes.
  set (b0 := le_bytes 8 (word_at m (4 * i))). set (b j := le_bytes 8 (word_at m (4 * i + j))).
  assert (exists l r, b0 ++ b 1 ++ b 2 ++ b 3 = l ++ le_bytes 8 (word_at m (4 * i + k)) ++ r /\
    (k = 0 /\ l = [] /\ r = b 1 ++ b 2 ++ b 3 \/ k = 1 /\ l = b0 /\ r = b 2 ++ b 3 \/
     k = 2 /\ l = b0 ++ b 1 /\ r = b 3 \/ k = 3 /\ l = b0 ++ b 1 ++ b 2 /\ r = []))
    as (l & r & E & Hcases).
  { assert (k = 0 \/ k = 1 \/ k = 2 \/ k = 3) as [->|[->|[->| ->]]] by lia.
    - exists [], (b 1 ++ b 2 ++ b 3). rewrite Z.add_0_r. split; [done|auto 10].
    - exists b0, (b 2 ++ b 3). split; [done|auto 10].
    - exists (b0 ++ b 1), (b 3). rewrite <-app_assoc. split; [done|auto 10].
    - exists (b0 ++ b 1 ++ b 2), []. rewrite app_nil_r, <-!app_assoc. split; [done|auto 10]. }
  exists l, r. split; [done|].
  destruct Hcases as [(->&->&->)|[(->&->&->)|[(->&->&->)|(->&->&->)]]];
    (split; [by rewrite ?length_app; unfold b0, b; rewrite ?length_le_bytes8|]); intros v;
    rewrite ?Z.add_0_r, !word_at_insert; repeat case_decide; try lia;
    by rewrite ?le_bytes8_uint64, ?app_nil_r, <-?app_assoc.
Qed.

Lemma leaf_bytes_insert_ne m i j v :
  j / 4 <> i -> leaf_bytes (<[j := v]> m) i = leaf_bytes m i.
Proof.
  intros Hne. unfold leaf_bytes. rewrite !word_at_insert.
  assert (Hk : forall k, 0 <= k < 4 -> j <> 4 * i + k).
  { intros k Hk ->. apply Hne. symmetry. apply Z.div_unique with k; lia. }
  pose proof (Hk 0 ltac:(lia)). rewrite !decide_False by (solve [lia | apply Hk; lia]). done.
Qed.

Lemma get_word_access_data_leaf m i k :
  0 <= k < 4 -> get_word_access_data (leaf_bytes m i) (8 * k) = Ret (word_at m (4 * i + k)).
Proof.
  intros Hk. unfold get_word_access_data. rewrite length_leaf_bytes.
  destruct (leaf_bytes_app m i k Hk) as (l & r & -> & Hl & _).
  rewrite (proj2 (Z.ltb_ge _ _)) by lia.
  rewrite drop_app_length' by done. rewrite take_app_length' by (by rewrite length_le_bytes8).
  rewrite le_bytes8_value. unfold mret, outcome_ret. f_equal. apply uwrap_small, word_at_range.
Qed.

Lemma replace_word_access_data_leaf m i k v :
  0 <= k < 4 ->
  replace_word_access_data v (leaf_bytes m i) (8 * k) = Ret (leaf_bytes (<[4 * i + k := v]> m) i).
Proof.
  intros Hk. unfold replace_word_access_data. rewrite length_leaf_bytes.
  destruct (leaf_bytes_app m i k Hk) as (l & r & -> & Hl & ->).
  rewrite (proj2 (Z.ltb_ge _ _)) by lia. unfold mret, outcome_ret. f_equal.
  rewrite take_app_length' by done. do 2 f_equal.
  rewrite app_assoc, drop_app_length'; [done|]. rewrite length_app, length_le_bytes8. lia.
Qed.

Lemma le_bytes8_inj v v' : is_u 64 v -> is_u 64 v' -> le_bytes 8 v = le_bytes 8 v' -> v = v'.
Proof. intros. by apply (le_bytes_inj 8). Qed.

Lemma leaf_bytes_inj m m' i :
  leaf_bytes m i = leaf_bytes m' i -> forall k, 0 <= k < 4 -> word_at m (4 * i + k) = word_at m' (4 * i + k).
Proof.
  intros E k Hk. assert (Ret (word_at m (4 * i + k)) = Ret (word_at m' (4 * i + k))) as [= ->]; [|done].
  by rewrite <-!get_word_access_data_leaf, E.
Qed.

(** ** The words of a memory as an equivalence

    Maps that read the same everywhere have the same tree; a missing word
    and a zero word are the same. *)
Definition mem_equiv (m m' : memory) : Prop := forall i, word_at m i = word_at m' i.
#[export] Instance memory_equiv : Equiv memory := mem_equiv.
#[export] Instance memory_equivalence : Equivalence (≡@{memory}).
Proof. unfold equiv, memory_equiv, mem_equiv. split; [done | intros m m' E i; by rewrite E | intros m1 m2 m3 E1 E2 i; by rewrite E1]. Qed.
#[export] Instance word_at_proper : Proper ((≡) ==> (=) ==> (=)) word_at.
Proof. intros m m' E i ? <-. apply E. Qed.
#[export] Instance mem_read_proper : Proper ((≡) ==> (=) ==> (=)) mem_read.
Proof. intros m m' E i ? <-. apply E. Qed.
#[export] Instance mem_write_proper : Proper ((=) ==> (=) ==> (≡) ==> (≡)) mem_write.
Proof.
  intros p ? <- v ? <- m m' E i. unfold mem_write. rewrite !word_at_insert. by case_decide.
Qed.

Lemma in_node_word n i w k : 0 <= k < 4 -> in_node n i ((4 * w + k) / 4) <-> in_node n i w.
Proof.
  intros. assert ((4 * w + k) / 4 = w) as ->; [|done]. symmetry. apply Z.div_unique with k; lia.
Qed.

(** ** TLB slots *)

Lemma slot_address set_index slot_index :
  exists i, shadow_tlb_get_abs_addr set_index slot_index = 32 * i.
Proof.
  unfold shadow_tlb_get_abs_addr, uint64, uwrap, sizeof_shadow_tlb_set, SHADOW_TLB_SLOT_SIZE.
  eexists ((AR_SHADOW_TLB_START / 32 + set_index * TLB_SET_SIZE + slot_index) mod 2 ^ 59).
  rewrite <-Z.mul_mod_distr_l by lia. change (32 * 2 ^ 59) with (2 ^ 64). f_equal.
  change (AR_SHADOW_TLB_START / 32) with 128. change AR_SHADOW_TLB_START with (32 * 128). lia.
Qed.

Lemma word_index_slot i k : 0 <= k < 4 -> word_index (32 * i + 8 * k) = 4 * i + k.
Proof.
  intros. unfold word_index. rewrite Z.shiftr_div_pow2 by lia. change (2 ^ 3) with 8.
  symmetry. apply Z.div_unique with 0; lia.
Qed.

Lemma mem_write_tlb_words i j x y z m :
  exists n, shadow_tlb_get_abs_addr i j = 32 * n /\
    mem_write_tlb i j x y z m = <[4 * n + 3 := 0]> (<[4 * n + 2 := z]> (<[4 * n + 1 := y]> (<[4 * n := x]> m))).
Proof.
  destruct (slot_address i j) as [n Hn]. exists n. split; [done|].
  unfold mem_write_tlb, mem_write. rewrite Hn.
  pose proof (word_index_slot n 0 ltac:(lia)) as E0. rewrite Z.mul_0_r, !Z.add_0_r in E0. rewrite E0.
  rewrite <-(word_index_slot n 1), <-(word_index_slot n 2), <-(word_index_slot n 3) by lia. done.
Qed.

Section tree.
Context `{IHasher H}.

Lemma leaf_ext m m' i : (forall k, 0 <= k < 4 -> word_at m (4 * i + k) = word_at m' (4 * i + k)) -> leaf m i = leaf m' i.
Proof.
  intros E. pose proof (E 0 ltac:(lia)) as E0. rewrite Z.add_0_r in E0.
  unfold leaf, leaf_bytes. by rewrite E0, !E by lia.
Qed.

#[export] Instance leaf_proper : Proper ((≡@{memory}) ==> (=) ==> (=)) leaf.
Proof. intros m m' E i ? <-. apply leaf_ext. intros. apply E. Qed.

#[export] Instance root_hash_of_proper : Proper ((≡@{memory}) ==> (=)) root_hash_of.
Proof. intros m m' E. unfold root_hash_of. apply node_ext. intros j _. by rewrite E. Qed.

Lemma leaf_write_ne m p v i :
  word_index p / 4 <> i -> leaf (mem_write p v m) i = leaf m i.
Proof. intros. unfold leaf, mem_write. by rewrite leaf_bytes_insert_ne. Qed.

(** A slot fills the hash tree word at its address. *)
Lemma leaf_write_tlb i j x y z m :
  leaf (mem_write_tlb i j x y z m) (shadow_tlb_get_abs_addr i j / 2 ^ 5) =
    hash (shadow_tlb_slot_bytes (shadow_tlb_fill_slot x y z)).
Proof.
  destruct (mem_write_tlb_words i j x y z m) as (n & -> & ->).
  assert (32 * n / 2 ^ 5 = n) as -> by (change (2 ^ 5) with 32; rewrite Z.mul_comm; by apply Z.div_mul).
  unfold leaf, leaf_bytes, shadow_tlb_slot_bytes. f_equal.
  rewrite !word_at_insert. repeat case_decide; try lia. by rewrite !le_bytes8_uint64.
Qed.

Lemma word_at_write_tlb_ne i j x y z m w :
  w / 4 <> shadow_tlb_get_abs_addr i j / 2 ^ 5 -> word_at (mem_write_tlb i j x y z m) w = word_at m w.
Proof.
  destruct (mem_write_tlb_words i j x y z m) as (n & -> & ->).
  assert (32 * n / 2 ^ 5 = n) as -> by (change (2 ^ 5) with 32; rewrite Z.mul_comm; by apply Z.div_mul).
  intros Hne. pose proof (Z.div_mod w 4 ltac:(lia)). pose proof (Z.mod_pos_bound w 4 ltac:(lia)).
  rewrite !word_at_insert. rewrite !decide_False by lia. done.
Qed.

Lemma leaf_write_tlb_ne i j x y z m n :
  n <> shadow_tlb_get_abs_addr i j / 2 ^ 5 -> leaf (mem_write_tlb i j x y z m) n = leaf m n.
Proof.
  intros Hne. apply leaf_ext. intros k Hk. apply word_at_write_tlb_ne.
  assert ((4 * n + k) / 4 = n) as -> by (symmetry; apply Z.div_unique with k; lia). done.
Qed.
End tree.
