(* ===== verification/UarchFacts.v ===== *)
(** * Cycles, halting and termination of the microarchitecture

    Facts about [uarch_step] and [uarch_interpret] over the contents of a
    machine: what each status says, and that the interpreter's loop always
    ends, because a step that succeeds advances the cycle counter by one and
    the counter is bounded. *)

From S2P Require Import Prelude Shadow SolidityCompat UarchStep UarchSim HashTree Memory.

Lemma mem_read_write p v q m :
  mem_read (mem_write p v m) q = if decide (word_index p = word_index q) then uint64 v else mem_read m q.
Proof. unfold mem_read, mem_write. by rewrite word_at_insert. Qed.

Lemma mem_read_range m p : is_u 64 (mem_read m p).
Proof. apply word_at_range. Qed.

Section spec.
Context {cfg : BuildConfig} (pristine : memory).
#[local] Hint Extern 0 (IUarchStateAccess memory) => exact (spec_access pristine) : typeclass_instances.

Abbreviation cycle_of m := (mem_read m shadow_uarch_state_what.uarch_cycle).
Abbreviation halted m := (negb (mem_read m shadow_uarch_state_what.uarch_halt_flag =? 0)).
Abbreviation step := (@uarch_step cfg memory (spec_access pristine)).

(** The three ways in which a step returns. *)
Lemma spec_step_overflow m : UARCH_CYCLE_MAX <= cycle_of m -> step m = (Ret CycleOverflow, m).
Proof.
  intros Hc. unfold uarch_step, readCycle. erewrite bind_Ret by reflexivity. by rewrite (proj2 (Z.leb_le _ _) Hc).
Qed.

Lemma spec_step_halted m : cycle_of m < UARCH_CYCLE_MAX -> halted m = true -> step m = (Ret UArchHalted, m).
Proof.
  intros Hc Hh. unfold uarch_step, readCycle, readHaltFlag. erewrite bind_Ret by reflexivity.
  rewrite (proj2 (Z.leb_gt _ _) Hc). erewrite bind_Ret by reflexivity. by rewrite Hh.
Qed.

Lemma spec_step_running m status m' :
  cycle_of m < UARCH_CYCLE_MAX -> halted m = false -> step m = (Ret status, m') ->
  status = Success /\ cycle_of m' = cycle_of m + 1.
Proof.
  intros Hc Hh E. unfold uarch_step, readCycle, readHaltFlag, readPc, writeCycle in E.
  erewrite bind_Ret in E by reflexivity. rewrite (proj2 (Z.leb_gt _ _) Hc) in E.
  erewrite bind_Ret in E by reflexivity. rewrite Hh in E.
  erewrite bind_Ret in E by reflexivity. inv_bind E. inv_bind Hk. inv_bind Hk0.
  injection Hm1 as _ <-. injection Hk as <- <-. split; [done|].
  rewrite mem_read_write, decide_True by done. unfold uint64 at 1.
  pose proof (mem_read_range m shadow_uarch_state_what.uarch_cycle) as Hr.
  unfold UARCH_CYCLE_MAX, UARCH_LOG2_CYCLE_MAX in Hc. change (Z.shiftl 1 20) with 1048576 in Hc.
  unfold is_u, uint64 in *. rewrite !uwrap_small; unfold is_u; rewrite ?uwrap_small; unfold is_u; lia.
Qed.

Lemma spec_step_inv m status m' :
  step m = (Ret status, m') ->
  match status with
  | Success => cycle_of m < UARCH_CYCLE_MAX /\ halted m = false /\ cycle_of m' = cycle_of m + 1
  | UArchHalted => cycle_of m < UARCH_CYCLE_MAX /\ halted m = true /\ m' = m
  | CycleOverflow => UARCH_CYCLE_MAX <= cycle_of m /\ m' = m
  end.
Proof.
  intros E. destruct (decide (UARCH_CYCLE_MAX <= cycle_of m)) as [Hc|Hc].
  { rewrite spec_step_overflow in E by done. by injection E as <- <-. }
  destruct (halted m) eqn:Hh.
  { rewrite spec_step_halted in E by (lia || done). injection E as <- <-. split; [lia|done]. }
  pose proof (spec_step_running m status m' ltac:(lia) Hh E) as [-> E']. split; [lia|done].
Qed.

(** The loop ends: every iteration that goes on uses up one of the cycles
    left before the counter overflows. *)
Lemma spec_loop_ends fuel (m : memory) cycle cycle_end m' :
  cycle = cycle_of m -> 0 < Z.of_nat fuel -> Z.min cycle_end UARCH_CYCLE_MAX - cycle < Z.of_nat fuel ->
  uarch_interpret_loop fuel cycle cycle_end m <> (Ret None, m').
Proof.
  revert m cycle. induction fuel as [|fuel IH]; intros m cycle Hc H0 Hf E; [lia|].
  cbn [uarch_interpret_loop] in E. destruct (cycle <? cycle_end) eqn:Hlt; [|done].
  apply bind_Ret_inv in E as (status & m1 & Es & E). pose proof (spec_step_inv m status m1 Es) as Hs.
  destruct status; [|done..]. destruct Hs as (Hmax & _ & Hc'). subst cycle.
  pose proof (mem_read_range m1 shadow_uarch_state_what.uarch_cycle).
  assert (uint64 (cycle_of m + 1) = cycle_of m1) as Ecy by (unfold uint64; rewrite <-Hc'; by apply uwrap_small).
  rewrite Ecy in E. eapply (IH m1 (cycle_of m1)); [done|lia..|exact E].
Qed.

(** One iteration for each cycle to the target, or to the overflow when it
    comes first, and one more, are enough. *)
Lemma spec_interpret_ends fuel (m : memory) cycle_end m' :
  0 < Z.of_nat fuel -> Z.min cycle_end UARCH_CYCLE_MAX - cycle_of m < Z.of_nat fuel ->
  uarch_interpret fuel cycle_end m <> (Ret None, m').
Proof.
  intros H0 Hf E. unfold uarch_interpret in E. erewrite bind_Ret in E by reflexivity.
  destruct (cycle_end <? cycle_of m); [done|]. by apply spec_loop_ends in E.
Qed.

(** What the interpreter's result says of the final state. *)
Lemma spec_loop_reason fuel (m : memory) cycle cycle_end reason m' :
  cycle = cycle_of m -> cycle <= cycle_end -> uarch_interpret_loop fuel cycle cycle_end m = (Ret (Some reason), m') ->
  cycle <= cycle_of m' <= cycle_end /\
  match reason with
  | reached_target_cycle => cycle_of m' = cycle_end
  | uarch_halted => cycle_of m' < UARCH_CYCLE_MAX /\ halted m' = true
  | cycle_overflow => UARCH_CYCLE_MAX <= cycle_of m'
  end.
Proof.
  revert m cycle. induction fuel as [|fuel IH]; intros m cycle Hc Hle E; cbn [uarch_interpret_loop] in E;
    (destruct (cycle <? cycle_end) eqn:Hlt; [|injection E as <- <-; split; lia]); [done|].
  apply bind_Ret_inv in E as (status & m1 & Es & E). pose proof (spec_step_inv m status m1 Es) as Hs. subst cycle.
  destruct status.
  - destruct Hs as (Hmax & _ & Hc'). pose proof (mem_read_range m1 shadow_uarch_state_what.uarch_cycle).
    assert (uint64 (cycle_of m + 1) = cycle_of m1) as Ecy by (unfold uint64; rewrite <-Hc'; by apply uwrap_small).
    rewrite Ecy in E. apply IH in E; [|done|lia]. split; [lia|apply E].
  - injection E as <- <-. destruct Hs as (? & ->). split; [lia|done].
  - injection E as <- <-. destruct Hs as (? & ? & ->). split; [lia|done].
Qed.

Lemma spec_interpret_reason fuel (m : memory) cycle_end reason m' :
  uarch_interpret fuel cycle_end m = (Ret (Some reason), m') ->
  cycle_of m <= cycle_of m' <= cycle_end /\
  match reason with
  | reached_target_cycle => cycle_of m' = cycle_end
  | uarch_halted => cycle_of m' < UARCH_CYCLE_MAX /\ halted m' = true
  | cycle_overflow => UARCH_CYCLE_MAX <= cycle_of m'
  end.
Proof.
  unfold uarch_interpret. intros E. erewrite bind_Ret in E by reflexivity.
  destruct (cycle_end <? cycle_of m) eqn:Hlt; [done|]. apply spec_loop_reason in E; [done..|lia].
Qed.
End spec.
