(* ===== verification/AccessLog.v ===== *)
(** * Access logs (src/access-log.hpp)

    The record of an access to the machine state, and the proof it makes
    against a root hash.  Annotations (brackets and notes) are for display
    only and are left out of the log. *)

From S2P Require Import Prelude HashTree Memory.

Inductive access_type := access_read | access_write.

#[export] Instance access_type_eq_dec : EqDecision access_type.
Proof. solve_decision. Defined.

Record access (H : Type) := {
  m_type : access_type;
  m_address : Z;
  m_log2_size : Z;
  m_read : option (list Z);
  m_read_hash : H;
  m_written : option (list Z);
  m_written_hash : option H;
  m_access_sibling_hashes : option (list H)
}.
Arguments m_type {H} _.
Arguments m_address {H} _.
Arguments m_log2_size {H} _.
Arguments m_read {H} _.
Arguments m_read_hash {H} _.
Arguments m_written {H} _.
Arguments m_written_hash {H} _.
Arguments m_access_sibling_hashes {H} _.

(** [access_log::type]: whether data larger than a word is included. *)
Record access_log_type := { m_annotations : bool; m_large_data : bool }.
Definition has_large_data (t : access_log_type) : bool := m_large_data t.

Section access_log.
Context `{IHasher H}.

Record access_log := { m_accesses : list (access H); m_log_type : access_log_type }.

Definition push_access (a : access H) (log : access_log) : access_log :=
  {| m_accesses := m_accesses log ++ [a]; m_log_type := m_log_type log |}.

(** [data.has_value() && data.size() != (1 << proof_log2_size)] *)
Definition inconsistent_size (data : option (list Z)) (proof_log2_size : Z) : bool :=
  match data with
  | None => false
  | Some d => negb (Z.of_nat (length d) =? uint64 (Z.shiftl 1 proof_log2_size))
  end.

Definition make_proof (a : access H) (root_hash : H) : outcome (hash_tree_proof H) :=
  let proof_log2_size := Z.max (m_log2_size a) HASH_TREE_LOG2_WORD_SIZE in
  let proof_address := Z.land (m_address a) (not64 (HASH_TREE_WORD_SIZE - 1)) in
  match m_access_sibling_hashes a with
  | None => Throw (runtime_error "can't make proof if access doesn't have sibling hashes")
  | Some sibling_hashes =>
      let log2_root_size := proof_log2_size + Z.of_nat (length sibling_hashes) in
      if inconsistent_size (m_read a) proof_log2_size then
        Throw (runtime_error "access read data size is inconsistent with proof size")
      else if inconsistent_size (m_written a) proof_log2_size then
        Throw (runtime_error "access written data size is inconsistent with proof size")
      else
        hash_tree_proof_new log2_root_size proof_log2_size ;;
        mret {| m_target_address := proof_address;
                m_log2_target_size := proof_log2_size;
                m_target_hash := m_read_hash a;
                m_log2_root_size := log2_root_size;
                m_root_hash := root_hash;
                m_sibling_hashes := sibling_hashes |}
  end.
End access_log.
Arguments access_log : clear implicits.

(** ** Facts *)
Section facts.
Context `{IHasher H}.
Implicit Types a : access H.

(** The siblings of an access to the 2^64 byte address space. *)
Definition full_siblings a : Prop :=
  forall sibs, m_access_sibling_hashes a = Some sibs ->
    Z.of_nat (length sibs) = HASH_TREE_LOG2_ROOT_SIZE - Z.max (m_log2_size a) HASH_TREE_LOG2_WORD_SIZE.

Lemma proof_address_aligned address :
  is_u 64 address -> Z.land address (not64 (HASH_TREE_WORD_SIZE - 1)) = address / 2 ^ 5 * 2 ^ 5.
Proof.
  intros Ha. rewrite <-align_down by lia. change (HASH_TREE_WORD_SIZE - 1) with (Z.ones 5).
  apply Z.bits_inj'. intros i Hi.
  rewrite Z.land_spec, testbit_not64, testbit_ones by (first [lia | change (Z.ones 5) with 31; unfold is_u; lia]).
  destruct (decide (5 <= i)).
  - rewrite Z.shiftl_spec, Z.shiftr_spec, Z.sub_add, (bool_decide_eq_false_2 (i < 5)) by lia.
    case_bool_decide; [by rewrite andb_true_r|].
    by rewrite (is_u_testbit 64 address i) by (done || lia).
  - rewrite Z.shiftl_spec, (Z.testbit_neg_r (Z.shiftr address 5)), (bool_decide_eq_true_2 (i < 5)) by lia.
    by rewrite !andb_false_r.
Qed.

Lemma proof_address_div address n :
  is_u 64 address -> 5 <= n -> Z.land address (not64 (HASH_TREE_WORD_SIZE - 1)) / 2 ^ n = address / 2 ^ n.
Proof.
  intros Ha Hn. rewrite proof_address_aligned by done.
  replace n with (5 + (n - 5)) by lia. rewrite Z.pow_add_r by lia.
  rewrite <-!Z.div_div, Z.div_mul by (try lia; apply pow2_pos; lia). done.
Qed.

(** The proof of an access with all its siblings is well-formed. *)
Lemma make_proof_wf a root p :
  make_proof a root = Ret p -> is_u 64 (m_address a) -> 0 <= m_log2_size a <= 64 -> full_siblings a ->
  proof_wf p /\ m_log2_target_size p = Z.max (m_log2_size a) 5 /\ m_log2_root_size p = 64 /\
  m_target_address p = Z.land (m_address a) (not64 (HASH_TREE_WORD_SIZE - 1)) /\
  m_target_hash p = m_read_hash a /\ m_root_hash p = root /\
  m_access_sibling_hashes a = Some (m_sibling_hashes p) /\
  inconsistent_size (m_read a) (m_log2_target_size p) = false /\
  inconsistent_size (m_written a) (m_log2_target_size p) = false.
Proof.
  unfold make_proof, full_siblings, proof_wf, HASH_TREE_LOG2_WORD_SIZE, HASH_TREE_LOG2_ROOT_SIZE.
  intros E Ha Hl Hs.
  destruct (m_access_sibling_hashes a) as [sibs|]; [|done]. specialize (Hs sibs eq_refl).
  destruct (inconsistent_size (m_read a) _) eqn:Er; [done|].
  destruct (inconsistent_size (m_written a) _) eqn:Ew; [done|].
  apply outcome_bind_Ret in E as (? & E1 & E). injection E as <-.
  cbn [m_target_address m_log2_target_size m_target_hash m_log2_root_size m_root_hash m_sibling_hashes].
  repeat split; try lia; try done; rewrite proof_address_aligned by done.
  - apply Z.mul_nonneg_nonneg; [|lia]. apply Z.div_pos; unfold is_u in *; lia.
  - pose proof (Z.mul_div_le (m_address a) (2 ^ 5) ltac:(lia)). unfold is_u in *. lia.
Qed.

Lemma inconsistent_size_word d : inconsistent_size (Some d) 5 = false -> length d = 32%nat.
Proof. unfold inconsistent_size. change (uint64 (Z.shiftl 1 5)) with 32. lia. Qed.
End facts.
