(* ===== verification/SymHash.v ===== *)
(** * A concrete ideal hasher

    Symbolic hashes: free constructors, with the hashes of all-zero subtrees
    in closed form, as the emulator precomputes them.  It is collision free,
    and its trees over sparse memories can be evaluated, which the concrete
    instances of the theorems about hash trees use. *)

From S2P Require Import Prelude HashTree Memory AccessLog.

Inductive sym_hash :=
| SymBytes (data : list Z)
| SymNode (l r : sym_hash)
| Pristine (height : nat).

#[export] Instance sym_hash_eq_dec : EqDecision sym_hash.
Proof. solve_decision. Defined.

Definition zero_word : list Z := replicate 32 0.

Definition sym_hash_word (d : list Z) : sym_hash :=
  if decide (d = zero_word) then Pristine 0 else SymBytes d.

Definition sym_concat (l r : sym_hash) : sym_hash :=
  match l, r with
  | Pristine n, Pristine m => if decide (n = m) then Pristine (S n) else SymNode l r
  | _, _ => SymNode l r
  end.

#[export] Instance sym_hasher : IHasher sym_hash := {
  hash := sym_hash_word;
  concat_hash := sym_concat;
  machine_hash_of_bytes := SymBytes
}.

#[export] Instance sym_collision_free : CollisionFree sym_hash.
Proof.
  split.
  - intros d d' _ _. cbn. unfold sym_hash_word. repeat case_decide; congruence.
  - intros l r l' r'. cbn. unfold sym_concat. repeat case_match; intros E; simplify_eq; done.
Qed.

(** ** Evaluation on sparse memories *)

(** The words below the [i]-th node of height [n]. *)
Definition below (n : nat) (i : Z) (m : memory) : memory :=
  filter (fun iw => Z.shiftr iw.1 (Z.of_nat n + 2) = i) m.

Fixpoint sparse_node (n : nat) (i : Z) (m : memory) : sym_hash :=
  if decide (m = ∅) then Pristine n
  else match n with
       | O => leaf m i
       | S n => sym_concat (sparse_node n (2 * i) (below n (2 * i) m))
                           (sparse_node n (2 * i + 1) (below n (2 * i + 1) m))
       end.

Fixpoint sparse_siblings (n k : nat) (i : Z) (m : memory) : list sym_hash :=
  match k with
  | O => []
  | S k => sparse_node n (sibling i) (below n (sibling i) m) :: sparse_siblings (S n) k (i / 2) m
  end.

Definition sparse_root (m : memory) : sym_hash := sparse_node 59 0 m.

Lemma below_word n i m w :
  in_node n i (w / 4) -> word_at (below n i m) w = word_at m w.
Proof.
  intros Hin. unfold in_node in Hin. unfold word_at, below. rewrite map_lookup_filter.
  destruct (m !! w); cbn [mbind option_bind]; [|done]. rewrite option_guard_True; [done|].
  cbn [fst]. rewrite Z.shiftr_div_pow2, Z.pow_add_r, Z.mul_comm by lia.
  change (2 ^ 2) with 4. by rewrite <-Z.div_div by lia.
Qed.

Lemma pristine_node n i : node (leaf (∅ : memory)) n i = Pristine n.
Proof.
  revert i. induction n as [|n IH]; intros i; [by vm_compute|].
  cbn [node]. rewrite !IH. cbn. by rewrite decide_True.
Qed.

Lemma sparse_node_spec n i m m' :
  (forall w, in_node n i (w / 4) -> word_at m' w = word_at m w) ->
  sparse_node n i m' = node (leaf m) n i.
Proof.
  revert i m'. induction n as [|n IH]; intros i m' Hm; cbn [sparse_node].
  - case_decide as He.
    + subst. rewrite <-(pristine_node 0 i). apply node_ext. intros j Hj.
      apply leaf_ext. intros k Hk. apply Hm. by rewrite in_node_word.
    + cbn [node]. apply leaf_ext. intros k Hk. apply Hm. unfold in_node. rewrite Z.div_1_r.
      symmetry. apply Z.div_unique with k; lia.
  - case_decide as He.
    + subst. rewrite <-(pristine_node (S n) i). apply node_ext. intros j Hj.
      apply leaf_ext. intros k Hk. apply Hm. by rewrite in_node_word.
    + cbn [node]. assert (Hsub : forall b w, 0 <= b < 2 -> in_node n (2 * i + b) (w / 4) -> in_node (S n) i (w / 4)).
      { intros b w Hb. unfold in_node. intros Hn.
        rewrite Nat2Z.inj_succ, <-Z.add_1_r, Z.pow_add_r, <-Z.div_div, Hn by lia.
        symmetry. apply Z.div_unique with b; lia. }
      cbn. f_equal; apply IH; intros w Hw; (rewrite below_word by done); apply Hm.
      * apply (Hsub 0); [lia|]. by rewrite Z.add_0_r.
      * by apply (Hsub 1); [lia|].
Qed.

Lemma sparse_siblings_spec n k i m : sparse_siblings n k i m = siblings (leaf m) n k i.
Proof.
  revert n i. induction k as [|k IH]; intros n i; cbn [sparse_siblings siblings]; [done|].
  rewrite IH. f_equal. apply sparse_node_spec. intros w Hw. by apply below_word.
Qed.

Lemma sparse_root_spec m : sparse_root m = root_hash_of m.
Proof. unfold sparse_root, root_hash_of. rewrite TREE_DEPTH_value. by apply sparse_node_spec. Qed.

(** Accesses to words of a sparse memory, with data. *)
Definition sparse_read_access (m : memory) (p : Z) : access sym_hash :=
  let i := p / 32 in
  {| m_type := access_read; m_address := p; m_log2_size := 3;
     m_read := Some (leaf_bytes m i); m_read_hash := leaf m i; m_written := None; m_written_hash := None;
     m_access_sibling_hashes := Some (sparse_siblings 0 59 i m) |}.

Definition sparse_write_access (m m' : memory) (p : Z) : access sym_hash :=
  let i := p / 32 in
  {| m_type := access_write; m_address := p; m_log2_size := 3;
     m_read := Some (leaf_bytes m i); m_read_hash := leaf m i;
     m_written := Some (leaf_bytes m' i); m_written_hash := Some (leaf m' i);
     m_access_sibling_hashes := Some (sparse_siblings 0 59 i m) |}.
