(* ===== verification/Machine.v ===== *)
(** * The machine (src/machine.cpp, src/machine.hpp, src/address-range.hpp)

    Word and register access to the machine state with all their guards,
    reads of arbitrary regions, and the direct state access of the stepper
    (src/uarch-state-access.hpp).

    The contents of all memory ranges and of the shadow structs are one
    [memory]; host-side caches (the penumbra of the TLB, the dirty page
    trees) are not part of it.  The hash tree is represented by the contents
    it was last updated from: its pages are brought up to date one at a time
    ([update_hash_tree_page]) or all at once ([update_hash_tree]), and its
    hashes are those of the reference tree over these contents. *)

From S2P Require Import Prelude Htif Shadow SolidityCompat HashTree Memory.

(** ** Address ranges *)

Record address_range := {
  m_description : string;
  m_start : Z;
  m_end : Z;
  m_flags : pmas_flags;
  has_host_memory : bool;      (* get_host_memory() != nullptr *)
  is_host_read_only : bool
}.

Definition get_start (ar : address_range) : Z := m_start ar.
Definition get_end (ar : address_range) : Z := m_end ar.
Definition get_length (ar : address_range) : Z := uint64 (m_end ar - m_start ar).
Definition is_memory (ar : address_range) : bool := flag_M (m_flags ar).
Definition is_device (ar : address_range) : bool := flag_IO (m_flags ar).
Definition is_empty (ar : address_range) : bool := m_end ar =? 0.
Definition get_driver_id (ar : address_range) : Z := flag_DID (m_flags ar).
Definition get_description (ar : address_range) : string := m_description ar.

Definition contains_relative (ar : address_range) (offset length : Z) : bool :=
  (length <=? get_length ar) && (offset <=? uint64 (get_length ar - length)).

Definition contains_absolute (ar : address_range) (start length : Z) : bool :=
  (get_start ar <=? start) && contains_relative ar (uint64 (start - get_start ar)) length.

Definition sentinel : address_range := {|
  m_description := "sentinel"; m_start := 0; m_end := 0;
  m_flags := {| flag_M := false; flag_IO := false; flag_R := false; flag_W := false; flag_X := false;
                flag_IR := false; flag_IW := false; flag_DID := PMA_ISTART_DID.empty |};
  has_host_memory := false; is_host_read_only := false |}.

(** ** Machine state *)

Record machine := {
  m_contents : memory;              (* shadow structs and host memory of all ranges *)
  m_all : list address_range;       (* machine_address_ranges::m_all *)
  m_hash_tree : list nat;           (* machine_address_ranges::m_hash_tree *)
  m_ht : memory;                    (* contents reflected in the hash tree *)
  hash_function_is_keccak256 : bool; (* m_c.hash_tree.hash_function == keccak256 *)
  config_iunrep : Z                 (* m_c.processor.registers.iunrep *)
}.

Definition set_contents (f : memory -> memory) (m : machine) : machine :=
  {| m_contents := f (m_contents m); m_all := m_all m; m_hash_tree := m_hash_tree m; m_ht := m_ht m;
     hash_function_is_keccak256 := hash_function_is_keccak256 m; config_iunrep := config_iunrep m |}.
Definition set_ht (f : memory -> memory -> memory) (m : machine) : machine :=
  {| m_contents := m_contents m; m_all := m_all m; m_hash_tree := m_hash_tree m;
     m_ht := f (m_contents m) (m_ht m);
     hash_function_is_keccak256 := hash_function_is_keccak256 m; config_iunrep := config_iunrep m |}.

Definition is_unreproducible (m : machine) : bool := negb (config_iunrep m =? 0).

(** [machine_address_ranges::find] and [hash_tree_view]. *)
Definition find (ars : list address_range) (paddr length : Z) : address_range :=
  default sentinel (List.find (fun ar => contains_absolute ar paddr length) ars).
Definition hash_tree_view (m : machine) : list address_range :=
  omap (fun i => m_all m !! i) (m_hash_tree m).

(** ** Registers *)

(** Every register but the views is a word of one of the two shadows. *)
Definition is_machine_reg (r : Z) : bool :=
  ((Z.land r 7 =? 0) && in_range r AR_SHADOW_REGISTERS_START sizeof_shadow_registers_state)
  || ((Z.land r 7 =? 0) && in_range r AR_SHADOW_UARCH_STATE_START sizeof_shadow_uarch_state).

Definition is_read_only_reg (r : Z) : bool :=
  (r =? machine_reg.x0) || (r =? machine_reg.mvendorid) || (r =? machine_reg.marchid)
  || (r =? machine_reg.mimpid) || (r =? machine_reg.uarch_x0).

Definition MVENDORID_INIT : Z := 0x6361727465736920.

Section read_reg.
(** MARCHID_INIT and MIMPID_INIT: the version of the emulator, from a
    generated header. *)
Context (MARCHID_INIT MIMPID_INIT : Z).

Definition read_reg (r : Z) : M machine Z :=
  let tohost field := gets (fun m => field (mem_read (m_contents m) machine_reg.htif_tohost)) in
  let fromhost field := gets (fun m => field (mem_read (m_contents m) machine_reg.htif_fromhost)) in
  if r =? machine_reg.mvendorid then mret MVENDORID_INIT
  else if r =? machine_reg.marchid then mret MARCHID_INIT
  else if r =? machine_reg.mimpid then mret MIMPID_INIT
  else if is_machine_reg r then gets (fun m => mem_read (m_contents m) r)
  else if r =? machine_reg.htif_tohost_dev then tohost HTIF_DEV_FIELD
  else if r =? machine_reg.htif_tohost_cmd then tohost HTIF_CMD_FIELD
  else if r =? machine_reg.htif_tohost_reason then tohost HTIF_REASON_FIELD
  else if r =? machine_reg.htif_tohost_data then tohost HTIF_DATA_FIELD
  else if r =? machine_reg.htif_fromhost_dev then fromhost HTIF_DEV_FIELD
  else if r =? machine_reg.htif_fromhost_cmd then fromhost HTIF_CMD_FIELD
  else if r =? machine_reg.htif_fromhost_reason then fromhost HTIF_REASON_FIELD
  else if r =? machine_reg.htif_fromhost_data then fromhost HTIF_DATA_FIELD
  else throw (invalid_argument "unknown register").
End read_reg.

(** Replaces a field of a word of the shadow. *)
Definition update_reg (r : Z) (f : Z -> Z) : M machine unit :=
  modify (set_contents (fun c => mem_write r (f (mem_read c r)) c)).

Definition write_reg (w value : Z) : M machine unit :=
  if is_read_only_reg w then throw (invalid_argument "register is read-only")
  else if is_machine_reg w then modify (set_contents (mem_write w value))
  else if w =? machine_reg.htif_tohost_dev then update_reg machine_reg.htif_tohost (fun r => HTIF_REPLACE_DEV r value)
  else if w =? machine_reg.htif_tohost_cmd then update_reg machine_reg.htif_tohost (fun r => HTIF_REPLACE_CMD r value)
  else if w =? machine_reg.htif_tohost_reason then update_reg machine_reg.htif_tohost (fun r => HTIF_REPLACE_REASON r value)
  else if w =? machine_reg.htif_tohost_data then update_reg machine_reg.htif_tohost (fun r => HTIF_REPLACE_DATA r value)
  else if w =? machine_reg.htif_fromhost_dev then update_reg machine_reg.htif_fromhost (fun r => HTIF_REPLACE_DEV r value)
  else if w =? machine_reg.htif_fromhost_cmd then update_reg machine_reg.htif_fromhost (fun r => HTIF_REPLACE_CMD r value)
  else if w =? machine_reg.htif_fromhost_reason then update_reg machine_reg.htif_fromhost (fun r => HTIF_REPLACE_REASON r value)
  else if w =? machine_reg.htif_fromhost_data then update_reg machine_reg.htif_fromhost (fun r => HTIF_REPLACE_DATA r value)
  else throw (invalid_argument "unknown register").

(** ** Reading memory *)

(** The byte at an address, from the little-endian words. *)
Definition byte_at (m : memory) (paddr : Z) : Z :=
  Z.land (Z.shiftr (mem_read m paddr) (8 * (paddr mod 8))) 255.

Definition zeros (n : Z) : list Z := replicate (Z.to_nat n) 0.

(** The bytes of a part of an address range, [None] when it is not memory. *)
Definition ar_host_memory_view (c : memory) (ar : address_range) (offset length : Z) : outcome (option (list Z)) :=
  if negb (contains_relative ar offset length) then
    Throw (logic_error ("invalid access to address range " +:+ get_description ar))
  else if is_memory ar then
    if negb (has_host_memory ar) then
      Throw (runtime_error ("memory address range " +:+ get_description ar +:+ "has no host memory"))
    else mret (Some (map (fun k => byte_at c (get_start ar + offset + k)) (seqZ 0 length)))
  else mret None.

(** The loop of [read_memory] over the ranges that end after [paddr]. *)
Fixpoint read_memory_loop (c : memory) (ars : list address_range) (gap_start paddr length : Z) : outcome (list Z) :=
  match ars with
  | [] => mret (zeros length)
  | ar :: ars =>
      let ar_start := get_start ar in
      let from_gap := if (gap_start <=? paddr) && (paddr <? ar_start) then Z.min (ar_start - paddr) length else 0 in
      let length := length - from_gap in
      let paddr := uint64 (paddr + from_gap) in
      let gap_start := get_end ar in
      if (ar_start <=? paddr) && (paddr <? gap_start) then
        let from_ar := Z.min (gap_start - paddr) length in
        ar_view ← ar_host_memory_view c ar (paddr - ar_start) from_ar;
        let data := match ar_view with Some d => d | None => zeros from_ar end in
        let length := length - from_ar in
        if length =? 0 then mret (zeros from_gap ++ data)
        else
          rest ← read_memory_loop c ars gap_start (uint64 (paddr + from_ar)) length;
          mret (zeros from_gap ++ data ++ rest)
      else
        rest ← read_memory_loop c ars gap_start paddr length;
        mret (zeros from_gap ++ rest)
  end.

(** [std::views::drop_while]: the ranges that end at or before [paddr] are
    dropped, and the gap starts at the end of the last. *)
Fixpoint drop_ending_before (ars : list address_range) (gap_start paddr : Z) : list address_range * Z :=
  match ars with
  | ar :: ars' => if get_end ar <=? paddr then drop_ending_before ars' (get_end ar) paddr else (ars, gap_start)
  | [] => ([], gap_start)
  end.

Definition read_memory_bytes (m : machine) (paddr length : Z) : outcome (list Z) :=
  if length =? 0 then mret []
  else
    let '(view, gap_start) := drop_ending_before (hash_tree_view m) 0 paddr in
    read_memory_loop (m_contents m) view gap_start paddr length.

Definition read_memory (paddr length : Z) : M machine (list Z) :=
  m ← get; lift (read_memory_bytes m paddr length).

(** [machine::read_word] and [machine::write_word] *)
Definition machine_read_word (paddr : Z) : M machine Z :=
  if negb (Z.land paddr 7 =? 0) then throw (domain_error "attempted misaligned read from word")
  else
    scratch ← read_memory paddr 8;
    mret (le_value scratch).

Definition machine_write_word (paddr val : Z) : M machine unit :=
  if negb (Z.land paddr 7 =? 0) then throw (domain_error "attempted misaligned write to word")
  else if in_range paddr AR_SHADOW_REGISTERS_START AR_SHADOW_REGISTERS_LENGTH then
    let reg := shadow_registers_get_what paddr in
    if reg =? unknown_ then throw (runtime_error "unhandled write to shadow state")
    else write_reg reg val
  else if in_range paddr AR_SHADOW_UARCH_STATE_START AR_SHADOW_UARCH_STATE_LENGTH then
    let reg := shadow_uarch_state_get_what paddr in
    if reg =? unknown_ then throw (runtime_error "unhandled write to shadow uarch state")
    else write_reg reg val
  else
    m ← get;
    let ar := find (m_all m) paddr 8 in
    if negb (is_memory ar) || negb (has_host_memory ar) then
      throw (runtime_error ("attempted memory write to " +:+ get_description ar +:+ " " +:+ at_address paddr))
    else if is_host_read_only ar then
      throw (runtime_error ("attempted memory write to read-only " +:+ get_description ar +:+ " " +:+ at_address paddr))
    else if pmas_is_protected (get_driver_id ar) then
      throw (runtime_error ("attempted memory word write to protected memory range " +:+ get_description ar +:+ " " +:+ at_address paddr))
    else modify (set_contents (mem_write paddr val)).

(** The TLB set is an unchecked array index in the code: writing outside of
    the [TLB_NUM_SETS_] sets is undefined, here an assertion failure. *)
Definition write_unverified_tlb (set_index slot_index vaddr_page vp_offset pma_index : Z) : M machine unit :=
  if TLB_SET_SIZE <=? slot_index then throw (out_of_range "TLB slot index out of bounds")
  else if TLB_NUM_SETS_ <=? set_index then throw (assertion_failed "set_index < TLB_NUM_SETS_")
  else modify (set_contents (mem_write_tlb set_index slot_index vaddr_page vp_offset pma_index)).

(** ** The hash tree *)

(** Pages are 2^12 bytes, 2^9 words. *)
Definition page_of_word (i : Z) : Z := Z.shiftr i 9.
Definition copy_page (page : Z) (from to : memory) : memory :=
  filter (fun iw => page_of_word iw.1 = page) from ∪ filter (fun iw => page_of_word iw.1 <> page) to.

Definition update_hash_tree_page (address : Z) : M machine bool :=
  let paddr_page := Z.shiftl (Z.shiftr address 12) 12 in
  m ← get;
  if existsb (fun ar => contains_absolute ar paddr_page (Z.shiftl 1 12)) (hash_tree_view m) then
    modify (set_ht (copy_page (page_of_word (word_index paddr_page)))) ;; mret true
  else throw (runtime_error "page to update is not in a memory address range").

Definition update_hash_tree : M machine bool := modify (set_ht (fun c _ => c)) ;; mret true.

Section hash_tree.
Context `{IHasher H}.

Definition get_root_hash : M machine H :=
  update_hash_tree ;;
  m ← get; mret (root_hash_of (m_ht m)).

Definition aligned_to (address log2_size : Z) : bool :=
  if log2_size =? HASH_TREE_LOG2_ROOT_SIZE then address =? 0
  else Z.shiftl (Z.shiftr address log2_size) log2_size =? address.

(** [get_node_hash(address, log2_size, skip_hash_tree_update)] *)
Definition get_node_hash (address log2_size : Z) : M machine H :=
  if (log2_size <? HASH_TREE_LOG2_WORD_SIZE) || (HASH_TREE_LOG2_ROOT_SIZE <? log2_size) then
    throw (invalid_argument "invalid log2_size")
  else if negb (aligned_to address log2_size) then
    throw (invalid_argument "address not aligned to log2_size")
  else
    m ← get;
    mret (node (leaf (m_ht m)) (Z.to_nat (log2_size - HASH_TREE_LOG2_WORD_SIZE)) (address / 2 ^ log2_size)).

(** [get_proof(skip_hash_tree_update, address, log2_target_size)] *)
Definition get_proof (address log2_target_size log2_root_size : Z) : M machine (hash_tree_proof H) :=
  if log2_root_size <? HASH_TREE_LOG2_WORD_SIZE then throw (domain_error "log2_root_size is too small")
  else if HASH_TREE_LOG2_ROOT_SIZE <? log2_root_size then throw (domain_error "log2_root_size is too large")
  else if log2_target_size <? HASH_TREE_LOG2_WORD_SIZE then throw (domain_error "log2_target_size is too small")
  else if log2_root_size <? log2_target_size then
    throw (domain_error "log2_target_size is larger than log2_root_size")
  else if negb (aligned_to address log2_target_size) then
    throw (domain_error "address not aligned to log2_target_size")
  else
    m ← get;
    let n := Z.to_nat (log2_target_size - HASH_TREE_LOG2_WORD_SIZE) in
    let k := Z.to_nat (log2_root_size - log2_target_size) in
    let i := address / 2 ^ log2_target_size in
    mret {| m_target_address := address;
            m_log2_target_size := log2_target_size;
            m_target_hash := node (leaf (m_ht m)) n i;
            m_log2_root_size := log2_root_size;
            m_root_hash := node (leaf (m_ht m)) (n + k) (i / 2 ^ Z.of_nat k);
            m_sibling_hashes := siblings (leaf (m_ht m)) n k i |}.
End hash_tree.

(** ** machine::reset_uarch *)

Definition UARCH_HALT_FLAG_INIT : Z := 0.
Definition UARCH_X_INIT : Z := 0.
Definition UARCH_PC_INIT : Z := AR_UARCH_RAM_START.
Definition UARCH_CYCLE_INIT : Z := 0.

(** Stores a byte into the word it belongs to. *)
Definition mem_write_byte (paddr b : Z) (m : memory) : memory :=
  let shift := 8 * (paddr mod 8) in
  let old := mem_read m paddr in
  mem_write paddr (Z.lor (Z.land old (not64 (Z.shiftl 255 shift))) (Z.shiftl (uint8 b) shift)) m.

Fixpoint mem_write_bytes (paddr : Z) (data : list Z) (m : memory) : memory :=
  match data with
  | [] => m
  | b :: data => mem_write_bytes (paddr + 1) data (mem_write_byte paddr b m)
  end.

(** The guards [write_memory] and [fill_memory] share. *)
Definition check_writeable_range (ar : address_range) (access : string) (protected_ok : bool) : M machine unit :=
  if is_device ar then
    throw (invalid_argument ("attempted " +:+ access +:+ " to device memory range " +:+ get_description ar))
  else if negb (is_memory ar) then
    throw (invalid_argument ("attempted " +:+ access +:+ " is not entirely within single memory range"))
  else if is_host_read_only ar then
    throw (invalid_argument ("attempted " +:+ access +:+ " to host-read-only memory range " +:+ get_description ar))
  else if negb protected_ok && pmas_is_protected (get_driver_id ar) then
    throw (invalid_argument ("attempted " +:+ access +:+ " to protected memory range " +:+ get_description ar))
  else mret ().

Definition write_memory (paddr : Z) (data : list Z) : M machine unit :=
  let length := Z.of_nat (length data) in
  if length =? 0 then mret ()
  else
    m ← get;
    let ar := find (m_all m) paddr length in
    let whole_shadow := (paddr =? AR_SHADOW_STATE_START) && (length =? AR_SHADOW_STATE_LENGTH) in
    let revert_root_hash := (paddr =? AR_SHADOW_REVERT_ROOT_HASH_START) && (length =? HASH_TREE_WORD_SIZE) in
    check_writeable_range ar "write" (whole_shadow || revert_root_hash) ;;
    modify (set_contents (mem_write_bytes paddr data)).

Definition fill_memory (paddr val length : Z) : M machine unit :=
  if length =? 0 then mret ()
  else
    m ← get;
    let ar := find (m_all m) paddr length in
    check_writeable_range ar "fill" false ;;
    modify (set_contents (mem_write_bytes paddr (replicate (Z.to_nat length) val))).

Section reset.
(** The microarchitecture program (a generated file). *)
Context (uarch_pristine_ram : list Z).

Definition require_keccak256 : M machine unit :=
  m ← get;
  if hash_function_is_keccak256 m then mret ()
  else throw (runtime_error
    "microarchitecture can only be used with hash tree configured with Keccak-256 hash function").

(** The loop over the general purpose registers, from [i]. *)
Fixpoint reset_uarch_x (n : nat) (i : Z) : M machine unit :=
  match n with
  | O => mret ()
  | Datatypes.S n =>
      write_reg (shadow_uarch_state_get_what_i machine_reg.uarch_x0 i) UARCH_X_INIT ;;
      reset_uarch_x n (i + 1)
  end.

Definition machine_reset_uarch : M machine unit :=
  require_keccak256 ;;
  write_reg shadow_uarch_state_what.uarch_halt_flag UARCH_HALT_FLAG_INIT ;;
  write_reg shadow_uarch_state_what.uarch_pc UARCH_PC_INIT ;;
  write_reg shadow_uarch_state_what.uarch_cycle UARCH_CYCLE_INIT ;;
  reset_uarch_x 31 1 ;;
  let uarch_pristine_ram_len := Z.of_nat (length uarch_pristine_ram) in
  write_memory AR_UARCH_RAM_START uarch_pristine_ram ;;
  when (uarch_pristine_ram_len <? AR_UARCH_RAM_LENGTH)
    (fill_memory (AR_UARCH_RAM_START + uarch_pristine_ram_len) 0
       (AR_UARCH_RAM_LENGTH - uarch_pristine_ram_len)).
End reset.
