(* ===== verification/MachineFacts.v ===== *)
(** * Facts about the machine: what its memory reads and writes do

    The invariant [machine_ok] of the address ranges, the specification of
    [read_memory] against the contents of the machine, and the effect of the
    guarded writes and of the page updates of the hash tree. *)

From S2P Require Import Prelude Shadow SolidityCompat HashTree Memory Machine.

(** ** Bytes of a memory *)

Definition bytes_at (c : memory) (paddr length : Z) : list Z := map (byte_at c) (seqZ paddr length).

Lemma bytes_at_app c p l1 l2 :
  0 <= l1 -> 0 <= l2 -> bytes_at c p l1 ++ bytes_at c (p + l1) l2 = bytes_at c p (l1 + l2).
Proof. intros. unfold bytes_at. by rewrite seqZ_app, map_app by lia. Qed.

Lemma bytes_at_nil c p : bytes_at c p 0 = [].
Proof. done. Qed.

Lemma length_bytes_at c p l : length (bytes_at c p l) = Z.to_nat l.
Proof. unfold bytes_at. by rewrite length_map, length_seqZ. Qed.

Lemma bytes_at_zeros c p l :
  (forall q, p <= q < p + l -> byte_at c q = 0) -> bytes_at c p l = zeros l.
Proof.
  intros Hq. unfold bytes_at, zeros. apply list_eq. intros k. rewrite list_lookup_fmap.
  destruct (decide (k < Z.to_nat l)%nat).
  - rewrite lookup_seqZ_lt, lookup_replicate_2 by lia. simpl. f_equal. apply Hq. lia.
  - rewrite lookup_seqZ_ge by lia. symmetry. apply lookup_ge_None. rewrite length_replicate. lia.
Qed.

Lemma bytes_at_offset c p l : map (fun k => byte_at c (p + k)) (seqZ 0 l) = bytes_at c p l.
Proof.
  unfold bytes_at. apply list_eq. intros k. rewrite !list_lookup_fmap.
  destruct (decide (k < Z.to_nat l)%nat).
  - rewrite !lookup_seqZ_lt by lia. simpl. done.
  - by rewrite !lookup_seqZ_ge by lia.
Qed.

Lemma le_bytes8_explicit w :
  le_bytes 8 w = map (fun k => Z.land (Z.shiftr w (8 * k)) 255) [0; 1; 2; 3; 4; 5; 6; 7].
Proof.
  unfold le_bytes, Z_to_little_endian. simpl.
  rewrite !Z.shiftr_shiftr by lia. change (Z.ones 8) with 255. by rewrite Z.shiftr_0_r.
Qed.

Lemma word_bytes c w : bytes_at c (8 * w) 8 = le_bytes 8 (word_at c w).
Proof.
  rewrite le_bytes8_explicit. unfold bytes_at.
  change (seqZ (8 * w) 8) with (map (fun i => Z.of_nat i + 8 * w) (seq 0 8)). rewrite map_map.
  unfold byte_at, mem_read, word_index. cbn [seq map].
  assert (E : forall k, 0 <= k < 8 -> Z.shiftr (k + 8 * w) 3 = w /\ (k + 8 * w) mod 8 = k).
  { intros k Hk. rewrite Z.shiftr_div_pow2 by lia. change (2 ^ 3) with 8. split.
    - symmetry. apply Z.div_unique with k; lia.
    - symmetry. apply Z.mod_unique with w; lia. }
  change (Z.of_nat 0) with 0. change (Z.of_nat 1) with 1. change (Z.of_nat 2) with 2.
  change (Z.of_nat 3) with 3. change (Z.of_nat 4) with 4. change (Z.of_nat 5) with 5.
  change (Z.of_nat 6) with 6. change (Z.of_nat 7) with 7.
  repeat match goal with
    |- context [Z.shiftr (?k + 8 * w) 3] => destruct (E k ltac:(lia)) as [-> ->] end.
  done.
Qed.

Lemma leaf_bytes_bytes c i : leaf_bytes c i = bytes_at c (32 * i) 32.
Proof.
  unfold leaf_bytes. rewrite <-!word_bytes.
  rewrite !Z.mul_add_distr_l, !Z.mul_assoc. change (8 * 4) with 32. rewrite !Z.mul_1_r.
  change (8 * 2) with (8 + 8). change (8 * 3) with (8 + (8 + 8)).
  rewrite !Z.add_assoc. rewrite !bytes_at_app by lia. done.
Qed.

(** ** The ranges of the hash tree view *)

(** Sorted, page-aligned, disjoint ranges from [lo] on; memory is mapped. *)
Inductive sorted_from (lo : Z) : list address_range -> Prop :=
| sorted_nil : sorted_from lo []
| sorted_cons ar ars :
    lo <= m_start ar < m_end ar -> m_end ar < 2 ^ 64 ->
    m_start ar mod 2 ^ 12 = 0 -> m_end ar mod 2 ^ 12 = 0 ->
    (is_memory ar = true -> has_host_memory ar = true) ->
    sorted_from (m_end ar) ars -> sorted_from lo (ar :: ars).

Definition covers (ar : address_range) (q : Z) : Prop := is_memory ar = true /\ m_start ar <= q < m_end ar.

(** Outside of the memory ranges, [len] bytes of contents are pristine. *)
Definition backed (c : memory) (ars : list address_range) (p len : Z) : Prop :=
  forall q, p <= q < p + len -> (forall ar, ar ∈ ars -> ~ covers ar q) -> byte_at c q = 0.

Lemma sorted_from_start lo ars ar q : sorted_from lo ars -> ar ∈ ars -> covers ar q -> lo <= q.
Proof.
  intros Hs. induction Hs as [lo|lo ar' ars Hse He Hps Hpe _ _ IH]; intros Hin Hc; [by apply not_elem_of_nil in Hin|].
  apply elem_of_cons in Hin as [->|Hin]; [destruct Hc; lia|]. specialize (IH Hin Hc). lia.
Qed.

Lemma sorted_from_weaken lo lo' ars : sorted_from lo ars -> lo' <= lo -> sorted_from lo' ars.
Proof. intros []; constructor; done || lia. Qed.

(** Bytes before the first range, and within a range that is not memory. *)
Lemma backed_gap c ar ars p len :
  backed c (ar :: ars) p len -> sorted_from (m_end ar) ars ->
  forall q, p <= q < p + len -> q < m_end ar -> (m_start ar <= q -> is_memory ar = false) -> byte_at c q = 0.
Proof.
  intros Hb Hs q Hp Hq Hm. apply Hb; [done|]. intros ar' Hin Hc.
  apply elem_of_cons in Hin as [->|Hin].
  - destruct Hc as [Hmem Hr]. rewrite Hm in Hmem by lia. done.
  - pose proof (sorted_from_start _ _ _ _ Hs Hin Hc). lia.
Qed.

Lemma backed_tail c ar ars p len p' len' :
  backed c (ar :: ars) p len -> p <= p' -> p' + len' <= p + len -> (len' = 0 \/ m_end ar <= p') ->
  backed c ars p' len'.
Proof.
  intros Hb Hp Hl Hr q Hq Hc. apply Hb; [lia|]. intros ar' Hin.
  apply elem_of_cons in Hin as [->|Hin]; [|by apply Hc]. intros [_ ?]. lia.
Qed.

Lemma ar_get_length ar lo ars : sorted_from lo (ar :: ars) -> 0 <= lo -> get_length ar = m_end ar - m_start ar.
Proof.
  intros Hs Hlo. inversion Hs; subst. unfold get_length, uint64. apply uwrap_small. unfold is_u. lia.
Qed.

(** A part of a range, as the loop of [read_memory] reads it. *)
Lemma ar_view_spec c ar ars lo p n :
  sorted_from lo (ar :: ars) -> 0 <= lo -> m_start ar <= p -> 0 <= n -> p + n <= m_end ar ->
  (is_memory ar = false -> forall q, p <= q < p + n -> byte_at c q = 0) ->
  exists v, ar_host_memory_view c ar (p - m_start ar) n = Ret v /\
    match v with Some d => d | None => zeros n end = bytes_at c p n.
Proof.
  intros Hs Hlo Hp Hn Hpn Hz. pose proof (ar_get_length _ _ _ Hs Hlo) as Hl.
  inversion Hs as [|? ? Hse He _ _ Hhost _]; subst.
  unfold ar_host_memory_view, contains_relative. rewrite Hl.
  unfold uint64. rewrite uwrap_small by (unfold is_u; lia).
  replace (_ && _) with true by lia. cbn [negb].
  destruct (is_memory ar) eqn:Hmem.
  - rewrite Hhost by done. cbn [negb]. eexists. split; [done|]. cbn.
    unfold get_start. rewrite (map_ext _ (fun k => byte_at c (p + k))) by (intros; f_equal; lia).
    apply bytes_at_offset.
  - eexists. split; [done|]. symmetry. by apply bytes_at_zeros, Hz.
Qed.

Lemma read_memory_loop_spec c ars gap p len :
  sorted_from gap ars -> 0 <= gap -> 0 <= len -> gap <= p \/ len = 0 -> 0 <= p < 2 ^ 64 ->
  backed c ars p len -> read_memory_loop c ars gap p len = Ret (bytes_at c p len).
Proof.
  intros Hs. revert p len. induction Hs as [gap|gap ar ars Hse He Hps Hpe Hhost Hs IH]; intros p len Hgap Hlen Hgp Hp Hb.
  - simpl. unfold mret, outcome_ret. f_equal. symmetry. apply bytes_at_zeros.
    intros q Hq. apply Hb; [lia|]. intros ? ?%not_elem_of_nil. done.
  - assert (Hsc : sorted_from gap (ar :: ars)) by by constructor.
    pose proof (backed_gap c ar ars p len Hb Hs) as Hzero.
    cbn [read_memory_loop]. unfold get_start, get_end. fold (m_start ar).
    set (fg := if (gap <=? p) && (p <? m_start ar) then Z.min (m_start ar - p) len else 0).
    assert (Hfg : 0 <= fg <= len /\ (fg = 0 \/ fg <= m_start ar - p) /\
                  (0 < len -> p < m_start ar -> p + fg = m_start ar \/ fg = len)) by (unfold fg; case_match; lia).
    assert (uint64 (p + fg) = p + fg) as -> by (apply uwrap_small; unfold is_u; lia).
    assert (Hz1 : zeros fg = bytes_at c p fg).
    { symmetry. apply bytes_at_zeros. intros q Hq. apply Hzero; lia. }
    rewrite Hz1.
    destruct ((m_start ar <=? p + fg) && (p + fg <? m_end ar)) eqn:Hin.
    + set (fa := Z.min (m_end ar - (p + fg)) (len - fg)).
      destruct (ar_view_spec c ar ars gap (p + fg) fa Hsc Hgap) as (v & -> & Hv); [lia..| |].
      { intros Hm q Hq. apply Hzero; lia || done. }
      cbn [mbind outcome_bind]. rewrite Hv, bytes_at_app by lia.
      destruct (len - fg - fa =? 0) eqn:El.
      * unfold mret, outcome_ret. do 2 f_equal. lia.
      * assert (uint64 (p + fg + fa) = m_end ar) as -> by (unfold uint64; rewrite uwrap_small; unfold is_u; lia).
        rewrite IH by (try lia; apply (backed_tail c ar ars p len); done || lia).
        cbn [mbind outcome_bind]. unfold mret, outcome_ret. f_equal.
        rewrite app_assoc. replace (bytes_at c p fg ++ bytes_at c (p + fg) fa) with (bytes_at c p (fg + fa))
          by (symmetry; apply bytes_at_app; lia).
        replace (m_end ar) with (p + (fg + fa)) by lia. rewrite bytes_at_app by lia. f_equal. lia.
    + rewrite IH by (try lia; apply (backed_tail c ar ars p len); done || lia).
      cbn [mbind outcome_bind]. unfold mret, outcome_ret.
      rewrite bytes_at_app by lia. do 2 f_equal. lia.
Qed.

(** ** The machine invariant *)

(** The 8 bytes of a word are in a memory range of the hash tree view. *)
Definition word_covered (m : machine) (w : Z) : Prop :=
  exists ar, ar ∈ hash_tree_view m /\ is_memory ar = true /\ m_start ar <= 8 * w /\ 8 * w + 8 <= m_end ar.

Definition range_covered (m : machine) (start length : Z) : Prop :=
  exists ar, ar ∈ hash_tree_view m /\ is_memory ar = true /\ m_start ar <= start /\ start + length <= m_end ar.

(** What [machine_address_ranges] sets up: the ranges of the hash tree are
    sorted and disjoint and include every memory range, the shadows are
    mapped, and nothing outside of memory ever has contents. *)
Record machine_ok (m : machine) : Prop := {
  ok_sorted : sorted_from 0 (hash_tree_view m);
  ok_backed : backed (m_contents m) (hash_tree_view m) 0 (2 ^ 64);
  ok_memory ar : ar ∈ m_all m -> is_memory ar = true -> ar ∈ hash_tree_view m;
  ok_shadow : range_covered m AR_SHADOW_STATE_START AR_SHADOW_STATE_LENGTH;
  ok_shadow_uarch : range_covered m AR_SHADOW_UARCH_STATE_START AR_SHADOW_UARCH_STATE_LENGTH
}.

Lemma drop_ending_before_spec c ars gap p len :
  sorted_from gap ars -> gap <= p -> backed c ars p len ->
  exists view gap', drop_ending_before ars gap p = (view, gap') /\
    sorted_from gap' view /\ gap <= gap' <= p /\ backed c view p len.
Proof.
  intros Hs Hp Hb. induction Hs as [gap|gap ar ars Hse He Hps Hpe Hhost Hs IH]; simpl.
  - exists [], gap. split; [done|]. split; [constructor|]. split; [lia|done].
  - unfold get_end. destruct (m_end ar <=? p) eqn:E.
    + destruct IH as (view & gap' & -> & ? & ? & ?); [lia| |].
      { apply (backed_tail c ar ars p len); lia || done. }
      exists view, gap'. split; [done|]. split; [done|]. split; [lia|done].
    + exists (ar :: ars), gap. split; [done|]. split; [by constructor|]. split; [lia|done].
Qed.

(** [read_memory] returns the contents of the machine at the region. *)
Lemma read_memory_spec m p len :
  machine_ok m -> 0 <= p < 2 ^ 64 -> 0 <= len -> p + len <= 2 ^ 64 ->
  read_memory p len m = (Ret (bytes_at (m_contents m) p len), m).
Proof.
  intros Hok Hp Hlen Hend. unfold read_memory, get, lift, mbind, M_bind. f_equal.
  unfold read_memory_bytes. destruct (len =? 0) eqn:E0; [by assert (len = 0) as -> by lia|].
  destruct (drop_ending_before_spec (m_contents m) (hash_tree_view m) 0 p len) as (view & gap & -> & Hs & Hg & Hb).
  - apply Hok.
  - lia.
  - intros q Hq Hc. apply (ok_backed m Hok); [lia|done].
  - apply read_memory_loop_spec; lia || done.
Qed.

Lemma read_memory_leaf m i :
  machine_ok m -> 0 <= i < 2 ^ 59 -> read_memory (32 * i) 32 m = (Ret (leaf_bytes (m_contents m) i), m).
Proof. intros. rewrite leaf_bytes_bytes. apply read_memory_spec; lia || done. Qed.

Lemma le_value_word_at c w : le_value (le_bytes 8 (word_at c w)) = word_at c w.
Proof. rewrite le_bytes8_value. apply uwrap_small, word_at_range. Qed.

Lemma aligned8 p : Z.land p 7 = 0 -> p = 8 * word_index p.
Proof.
  change 7 with (Z.ones 3). rewrite Z.land_ones by lia. intros E.
  rewrite word_index_div. change (2 ^ 3) with 8 in *. pose proof (Z.div_mod p 8 ltac:(lia)). lia.
Qed.

Lemma machine_read_word_spec m p :
  machine_ok m -> is_u 64 p -> Z.land p 7 = 0 ->
  machine_read_word p m = (Ret (mem_read (m_contents m) p), m).
Proof.
  intros Hok Hp Ha. unfold machine_read_word. rewrite Ha. cbn [Z.eqb negb].
  pose proof (aligned8 p Ha) as Hw. unfold is_u in Hp.
  erewrite bind_Ret by (apply read_memory_spec; [done|lia|lia|]; lia).
  unfold mret, M_ret. rewrite Hw at 1. by rewrite word_bytes, le_value_word_at.
Qed.

(** *** Writes keep the invariant *)

Lemma hash_tree_view_contents f m : hash_tree_view (set_contents f m) = hash_tree_view m.
Proof. done. Qed.

Lemma byte_at_write c p v q :
  word_index q <> word_index p -> byte_at (mem_write p v c) q = byte_at c q.
Proof.
  intros Hne. unfold byte_at, mem_read, mem_write. rewrite word_at_insert, decide_False by congruence. done.
Qed.

Lemma machine_ok_write m p v :
  machine_ok m -> word_covered m (word_index p) -> machine_ok (set_contents (mem_write p v) m).
Proof.
  intros Hok (ar & Hin & Hmem & Hs & He). destruct Hok as [Hsort Hb Hall Hsh Hus].
  split; [done| |done..].
  intros q Hq Hc. cbn [set_contents m_contents]. rewrite byte_at_write; [by apply Hb|].
  intros Hw. apply (Hc ar Hin). split; [done|].
  rewrite !word_index_div in *. pose proof (Z.div_mod q 8 ltac:(lia)). pose proof (Z.mod_pos_bound q 8 ltac:(lia)). lia.
Qed.

Lemma range_word_covered m start length p :
  range_covered m start length -> start mod 8 = 0 -> length mod 8 = 0 -> start <= p < start + length ->
  word_covered m (word_index p).
Proof.
  intros (ar & Hin & Hmem & Hs & He) Hms Hml Hp. exists ar. split; [done|]. split; [done|].
  rewrite word_index_div.
  pose proof (Z.div_mod p 8 ltac:(lia)). pose proof (Z.mod_pos_bound p 8 ltac:(lia)).
  pose proof (Z.div_mod start 8 ltac:(lia)). pose proof (Z.div_mod length 8 ltac:(lia)). lia.
Qed.

Lemma in_range_spec p start length :
  is_u 64 p -> 0 <= start -> in_range p start length = true -> start <= p < start + length.
Proof.
  intros Hp Hs Hr. unfold in_range in Hr. apply andb_true_iff in Hr as [H1 H2].
  unfold uint64 in H2. rewrite uwrap_small in H2 by (unfold is_u in *; lia). lia.
Qed.

Lemma is_machine_reg_covered m r :
  machine_ok m -> is_u 64 r -> is_machine_reg r = true -> word_covered m (word_index r).
Proof.
  intros Hok Hu Hr. unfold is_machine_reg in Hr.
  apply orb_true_iff in Hr as [Hr|Hr]; apply andb_true_iff in Hr as [_ Hr];
    apply in_range_spec in Hr; try done.
  - eapply range_word_covered; [apply Hok|done|done|].
    unfold AR_SHADOW_REGISTERS_START, sizeof_shadow_registers_state, AR_SHADOW_STATE_START, AR_SHADOW_STATE_LENGTH in *. lia.
  - eapply range_word_covered; [apply (ok_shadow_uarch m Hok)|done|done|].
    unfold AR_SHADOW_UARCH_STATE_START, AR_SHADOW_UARCH_STATE_LENGTH, sizeof_shadow_uarch_state in *. lia.
Qed.

Lemma write_reg_Ret r v m x m' :
  machine_ok m -> is_u 63 r -> write_reg r v m = (Ret x, m') ->
  m' = set_contents (mem_write r v) m /\ word_covered m (word_index r).
Proof.
  intros Hok Hu E. unfold write_reg in E.
  destruct (is_read_only_reg r); [done|]. destruct (is_machine_reg r) eqn:Hr.
  - injection E as _ <-. split; [done|]. apply is_machine_reg_covered; [done|unfold is_u in *; lia|done].
  - repeat match type of E with
      (if r =? ?v then _ else _) _ = _ =>
        destruct (r =? v) eqn:Ev;
          [apply Z.eqb_eq in Ev; exfalso; rewrite Ev in Hu; by destruct Hu as [_ Hu]; vm_compute in Hu|clear Ev]
    end. done.
Qed.

Lemma find_Some ars p l :
  is_memory (find ars p l) = true -> find ars p l ∈ ars /\ contains_absolute (find ars p l) p l = true.
Proof.
  unfold find. destruct (List.find _ ars) eqn:E; [|done]. intros _. simpl.
  apply find_some in E as [Hin Hc]. split; [by apply list_elem_of_In|done].
Qed.

Lemma sorted_from_elem lo ars ar :
  sorted_from lo ars -> 0 <= lo -> ar ∈ ars ->
  0 <= m_start ar < m_end ar /\ m_end ar < 2 ^ 64 /\ m_start ar mod 2 ^ 12 = 0 /\ m_end ar mod 2 ^ 12 = 0.
Proof.
  intros Hs. induction Hs as [lo|lo ar' ars Hse He Hps Hpe _ _ IH]; intros Hlo Hin; [by apply not_elem_of_nil in Hin|].
  apply elem_of_cons in Hin as [->|Hin]; [auto with lia|]. apply IH; [lia|done].
Qed.

Lemma contains_absolute_spec ar p l :
  0 <= m_start ar < m_end ar -> m_end ar < 2 ^ 64 -> is_u 64 p -> 0 <= l -> contains_absolute ar p l = true ->
  m_start ar <= p /\ p + l <= m_end ar.
Proof.
  unfold contains_absolute, contains_relative, get_length, get_start, uint64, is_u. intros Hr He Hp Hl E.
  apply andb_true_iff in E as [E1 E]. apply andb_true_iff in E as [E2 E3].
  rewrite (uwrap_small 64 (m_end ar - m_start ar)) in * by (unfold is_u; lia).
  rewrite !uwrap_small in E3 by (unfold is_u; lia). lia.
Qed.

(** The addresses of the registers are far below those of their views. *)
Lemma in_range_reg p start length :
  is_u 64 p -> 0 <= start -> start + length <= 2 ^ 63 -> in_range p start length = true -> is_u 63 p.
Proof. intros Hp Hs Hl Hr. apply in_range_spec in Hr; [|done..]. unfold is_u. lia. Qed.

Lemma machine_write_word_Ret p v m x m' :
  machine_ok m -> is_u 64 p -> machine_write_word p v m = (Ret x, m') ->
  m' = set_contents (mem_write p v) m /\ word_covered m (word_index p).
Proof.
  intros Hok Hu E. unfold machine_write_word in E.
  destruct (Z.land p 7 =? 0) eqn:Ha; [|done]. cbn [negb] in E. apply Z.eqb_eq in Ha.
  destruct (in_range p AR_SHADOW_REGISTERS_START AR_SHADOW_REGISTERS_LENGTH) eqn:Hr1.
  { apply in_range_reg in Hr1; [|done..]. unfold shadow_registers_get_what in E. destruct (_ || _) in E; [done|].
    destruct (p =? unknown_); [done|]. by apply write_reg_Ret in E. }
  destruct (in_range p AR_SHADOW_UARCH_STATE_START AR_SHADOW_UARCH_STATE_LENGTH) eqn:Hr2.
  { apply in_range_reg in Hr2; [|done..]. unfold shadow_uarch_state_get_what in E. destruct (_ || _) in E; [done|].
    destruct (p =? unknown_); [done|]. by apply write_reg_Ret in E. }
  apply bind_Ret_inv in E as (m0 & s0 & [= <- <-] & E).
  set (ar := find (m_all m) p 8) in *.
  destruct (is_memory ar) eqn:Hmem; [|done]. destruct (has_host_memory ar); [|done]. cbn [negb orb] in E.
  destruct (is_host_read_only ar); [done|]. destruct (pmas_is_protected _); [done|].
  injection E as _ <-. split; [done|].
  destruct (find_Some (m_all m) p 8 Hmem) as [Hin Hc]. fold ar in Hin, Hc.
  apply (ok_memory m Hok) in Hin; [|done]. pose proof (sorted_from_elem _ _ _ (ok_sorted m Hok) ltac:(lia) Hin) as (Hr & He & _).
  apply contains_absolute_spec in Hc; [|done..|lia]. exists ar.
  pose proof (aligned8 p Ha). split; [done|]. split; [done|]. lia.
Qed.

Lemma write_unverified_tlb_Ret i j x y z m r m' :
  machine_ok m -> is_u 64 i -> is_u 64 j -> write_unverified_tlb i j x y z m = (Ret r, m') ->
  m' = set_contents (mem_write_tlb i j x y z) m /\ i < TLB_NUM_SETS_ /\ j < TLB_SET_SIZE.
Proof.
  intros Hok Hi Hj E. unfold write_unverified_tlb in E.
  destruct (TLB_SET_SIZE <=? j) eqn:Ej; [done|]. destruct (TLB_NUM_SETS_ <=? i) eqn:Ei; [done|].
  injection E as _ <-. split; [done|]. lia.
Qed.

Lemma set_contents_compose f g m : set_contents f (set_contents g m) = set_contents (fun c => f (g c)) m.
Proof. done. Qed.

Lemma machine_ok_write_tlb i j x y z m :
  machine_ok m -> 0 <= i < TLB_NUM_SETS_ -> 0 <= j < TLB_SET_SIZE ->
  machine_ok (set_contents (mem_write_tlb i j x y z) m).
Proof.
  unfold TLB_NUM_SETS_, TLB_SET_SIZE. intros Hok Hi Hj. unfold mem_write_tlb.
  set (p := shadow_tlb_get_abs_addr i j).
  assert (Hp : 0x1000 <= p < 0x7000 - 24).
  { unfold p, shadow_tlb_get_abs_addr, uint64, AR_SHADOW_TLB_START, sizeof_shadow_tlb_set, TLB_SET_SIZE, SHADOW_TLB_SLOT_SIZE.
    rewrite uwrap_small by (unfold is_u; lia). lia. }
  assert (Hc : forall f q, p <= q <= p + 24 -> word_covered (set_contents f m) (word_index q)).
  { intros f q Hq. apply (range_word_covered _ AR_SHADOW_STATE_START AR_SHADOW_STATE_LENGTH); [apply (ok_shadow m Hok)|done..|].
    unfold AR_SHADOW_STATE_START, AR_SHADOW_STATE_LENGTH. lia. }
  change (fun c => _) with (fun c : memory => mem_write (p + 24) 0 (mem_write (p + 16) z (mem_write (p + 8) y (mem_write p x c)))).
  rewrite <-(set_contents_compose (mem_write (p + 24) 0)), <-(set_contents_compose (mem_write (p + 16) z)),
    <-(set_contents_compose (mem_write (p + 8) y)).
  repeat apply machine_ok_write; try done; rewrite ?set_contents_compose; try (apply Hc; lia).
  by apply (Hc id); lia.
Qed.

(** *** The hash tree *)

Lemma word_at_copy_page pg from to i :
  word_at (copy_page pg from to) i = if decide (page_of_word i = pg) then word_at from i else word_at to i.
Proof.
  unfold word_at, copy_page. rewrite lookup_union, !map_lookup_filter.
  destruct (decide (page_of_word i = pg)) as [Hd|Hd];
    destruct (from !! i), (to !! i); cbn [mbind option_bind];
    by rewrite ?(option_guard_True (page_of_word i = pg)), ?(option_guard_False (page_of_word i = pg)),
      ?(option_guard_True (page_of_word i <> pg)), ?(option_guard_False (page_of_word i <> pg)) by (simpl; auto).
Qed.

Lemma machine_ok_set_ht f m : machine_ok m -> machine_ok (set_ht f m).
Proof. by intros []. Qed.

(** The tree is up to date with the contents. *)
Definition tree_ok (m : machine) : Prop := m_ht m ≡ m_contents m.

(** Updating the page of every word that changed brings the tree up to date. *)
Lemma update_hash_tree_page_Ret f p m ok m' :
  tree_ok m -> update_hash_tree_page p (set_contents f m) = (Ret ok, m') ->
  (forall i, page_of_word i <> page_of_word (word_index (Z.shiftl (Z.shiftr p 12) 12)) ->
     word_at (f (m_contents m)) i = word_at (m_contents m) i) ->
  ok = true /\ m_contents m' = f (m_contents m) /\ tree_ok m' /\
  m' = set_ht (copy_page (page_of_word (word_index (Z.shiftl (Z.shiftr p 12) 12)))) (set_contents f m).
Proof.
  intros Ht E Hf. unfold update_hash_tree_page in E.
  apply bind_Ret_inv in E as (m0 & s0 & [= <- <-] & E). destruct (existsb _ _); [|done].
  apply bind_Ret_inv in E as (u & s1 & [= <- <-] & E). injection E as <- <-.
  split; [done|]. split; [done|]. split; [|done].
  intros i. cbn [set_ht set_contents m_ht m_contents]. rewrite word_at_copy_page.
  case_decide; [done|]. by rewrite Hf, Ht.
Qed.

(** The page of a mapped word is mapped, so its update in the tree cannot fail. *)
Lemma update_hash_tree_page_run m p :
  machine_ok m -> is_u 64 p -> word_covered m (word_index p) ->
  exists m', update_hash_tree_page p m = (Ret true, m').
Proof.
  intros Hok Hp (ar & Hin & Hmem & Hs & He).
  pose proof (sorted_from_elem _ _ _ (ok_sorted m Hok) ltac:(lia) Hin) as (Hr & Hend & Hps & Hpe).
  unfold update_hash_tree_page. erewrite bind_Ret by reflexivity.
  assert (Hex : existsb (fun ar => contains_absolute ar (Z.shiftl (Z.shiftr p 12) 12) (Z.shiftl 1 12)) (hash_tree_view m) = true).
  { apply existsb_exists. exists ar. split; [by apply list_elem_of_In|].
    rewrite align_down by lia. unfold contains_absolute, contains_relative, get_length, get_start, uint64, is_u in *.
    change (Z.shiftl 1 12) with (2 ^ 12). rewrite word_index_div in *. change (2 ^ 12) with 4096 in *.
    pose proof (Z.div_mod p 4096 ltac:(lia)). pose proof (Z.mod_pos_bound p 4096 ltac:(lia)).
    pose proof (Z.div_mod p 8 ltac:(lia)). pose proof (Z.mod_pos_bound p 8 ltac:(lia)).
    pose proof (Z.div_mod (m_start ar) 4096 ltac:(lia)). pose proof (Z.div_mod (m_end ar) 4096 ltac:(lia)).
    rewrite (uwrap_small 64 (m_end ar - m_start ar)), (uwrap_small 64 (p / 4096 * 4096 - m_start ar)),
      (uwrap_small 64 (m_end ar - m_start ar - 4096)) by (unfold is_u; lia). lia. }
  rewrite Hex. eexists. reflexivity.
Qed.
