(* ===== verification/UarchMemory.v ===== *)
(** * Sub-word accesses of the microarchitecture stepper

    The stepper accesses memory by whole 64-bit words only: loads shift the
    word that holds the bytes, and stores read it, replace the bytes
    ([copyBits]) and write it back.  Over the contents of a machine this is
    little-endian access by bytes. *)

From S2P Require Import Prelude Bits Shadow SolidityCompat UarchStep UarchSim HashTree Memory UarchFacts Machine MachineFacts.

(** The unsigned value of [n] bytes, and the contents with [n] bytes replaced. *)
Definition load_bytes (m : memory) (a n : Z) : Z := le_value (bytes_at m a n).
Definition store_bytes (m : memory) (a n v : Z) : memory := mem_write_bytes a (le_bytes n v) m.

(** ** Bytes of a word *)

Lemma le_value_cons b bs : le_value (b :: bs) = Z.lor b (Z.shiftl (le_value bs) 8).
Proof. done. Qed.

Lemma le_value_fields w s n :
  0 <= s -> le_value (map (fun k => bitfield (s + 8 * k) 8 w) (seqZ 0 (Z.of_nat n))) = bitfield s (8 * Z.of_nat n) w.
Proof.
  revert s. induction n as [|n IH]; intros s Hs.
  { simpl. unfold bitfield. by rewrite Z.land_0_r. }
  rewrite Nat2Z.inj_succ, seqZ_cons by lia. cbn [map]. rewrite le_value_cons.
  change (Z.succ 0) with (1 + 0). rewrite Z.pred_succ, <-fmap_add_seqZ.
  change (map (fun k => bitfield (s + 8 * k) 8 w) (Z.add 1 <$> seqZ 0 (Z.of_nat n)))
    with (map (fun k => bitfield (s + 8 * k) 8 w) (map (Z.add 1) (seqZ 0 (Z.of_nat n)))).
  rewrite map_map, (map_ext _ (fun k => bitfield (s + 8 + 8 * k) 8 w)) by (intros k; f_equal; lia).
  rewrite IH by lia. apply Z.bits_inj'. intros i Hi.
  rewrite Z.lor_spec, Z.shiftl_spec, !(testbit_bitfield _ _ _ i) by lia.
  destruct (decide (i < 8)).
  - rewrite (Z.testbit_neg_r (bitfield _ _ _)), !bool_decide_eq_true_2 by lia. simpl.
    rewrite orb_false_r. f_equal. lia.
  - rewrite (testbit_bitfield (s + 8)), (bool_decide_eq_false_2 (i < 8)) by lia. simpl.
    rewrite (bool_decide_ext (i - 8 < 8 * Z.of_nat n) (i < 8 * Z.succ (Z.of_nat n))) by lia.
    destruct (bool_decide _); [|done]. simpl. f_equal. lia.
Qed.

Lemma word_index_add a k : 0 <= k -> a mod 8 + k < 8 -> word_index (a + k) = word_index a /\ (a + k) mod 8 = a mod 8 + k.
Proof.
  intros Hk Ha. rewrite !word_index_div. pose proof (Z.div_mod a 8 ltac:(lia)). pose proof (Z.mod_pos_bound a 8 ltac:(lia)).
  split; symmetry; [apply Z.div_unique with (a mod 8 + k)|apply Z.mod_unique with (a / 8)]; lia.
Qed.

Lemma load_bytes_field m a n :
  0 <= n -> a mod 8 + n <= 8 -> load_bytes m a n = bitfield (8 * (a mod 8)) (8 * n) (mem_read m a).
Proof.
  intros Hn Ha. pose proof (Z.mod_pos_bound a 8 ltac:(lia)). unfold load_bytes.
  rewrite <-bytes_at_offset. rewrite <-(Z2Nat.id n) by lia. rewrite <-le_value_fields by lia. f_equal.
  apply map_ext_in. intros k Hk%list_elem_of_In%elem_of_seqZ. rewrite Z2Nat.id in Hk by lia.
  unfold byte_at, bitfield. destruct (word_index_add a k) as [Hw Hm]; [lia..|].
  unfold mem_read. rewrite Hw, Hm. f_equal. f_equal. lia.
Qed.

(** ** Loads *)

Lemma aligned_mod p n k : n = 2 ^ k - 1 -> 0 <= k -> (Z.land p n =? 0) = (p mod 2 ^ k =? 0).
Proof.
  intros -> Hk. replace (2 ^ k - 1) with (Z.ones k) by (rewrite Z.ones_equiv; lia). by rewrite Z.land_ones.
Qed.

(** The address of the word that holds the bytes, and the shift of the bytes in it. *)
Lemma palign_spec p :
  is_u 64 p -> is_u 64 (Z.land p (not64 7)) /\ Z.land p (not64 7) mod 8 = 0 /\
    word_index (Z.land p (not64 7)) = word_index p.
Proof.
  intros Hp. change 7 with (Z.ones 3) at 1 2 3. rewrite land_not64_ones by (done || lia). change (2 ^ 3) with 8.
  rewrite !word_index_div, Z.mod_mul, Z.div_mul by lia. unfold is_u in *.
  pose proof (Z.div_mod p 8 ltac:(lia)). pose proof (Z.mod_pos_bound p 8 ltac:(lia)). split; [|done]. lia.
Qed.

Lemma bitoffset_spec p : uint32ShiftLeft (Z.land (uint32 p) 7) 3 = 8 * (p mod 8).
Proof.
  unfold uint32ShiftLeft, uint32. change (Z.land 3 31) with 3. change 7 with (Z.ones 3).
  assert (E : Z.land (uwrap 32 p) (Z.ones 3) = p mod 8).
  { rewrite Z.land_ones by lia. fold (uwrap 3 (uwrap 32 p)). by rewrite uwrap_uwrap. }
  rewrite E, Z.shiftl_mul_pow2 by lia. pose proof (Z.mod_pos_bound p 8 ltac:(lia)).
  rewrite uwrap_small by (unfold is_u; lia). lia.
Qed.

Lemma shift_right_field x s n : 0 <= s < 64 -> 0 <= n -> uwrap n (uint64ShiftRight x s) = bitfield s n x.
Proof.
  intros Hs Hn. unfold uint64ShiftRight, bitfield. change 63 with (Z.ones 6).
  rewrite land_ones_mod, Z.mod_small by lia. by rewrite Z.land_ones.
Qed.

Section spec.
Context {cfg : BuildConfig} (pristine : memory).
#[local] Hint Extern 0 (IUarchStateAccess memory) => exact (spec_access pristine) : typeclass_instances.
Implicit Types m : memory.

Lemma require_run c msg m : c = true -> require c msg m = (Ret (), m).
Proof. intros ->. unfold require. by destruct NDEBUG. Qed.

Lemma readUint64_run p m : is_u 64 p -> p mod 8 = 0 -> readUint64 p m = (Ret (mem_read m p), m).
Proof.
  intros Hp Ha. unfold readUint64.
  erewrite bind_Ret by (apply require_run; rewrite (aligned_mod p 7 3) by (done || lia); by apply Z.eqb_eq).
  unfold readWord, uint64. by rewrite uwrap_small.
Qed.

Lemma readUint64_palign p m : is_u 64 p -> readUint64 (Z.land p (not64 7)) m = (Ret (mem_read m p), m).
Proof.
  intros Hp. destruct (palign_spec p Hp) as (Hu & Ha & Hw). rewrite readUint64_run by done.
  unfold mem_read. by rewrite Hw.
Qed.

Lemma readUint32_run p m : is_u 64 p -> p mod 4 = 0 -> readUint32 p m = (Ret (load_bytes m p 4), m).
Proof.
  intros Hp Ha. unfold readUint32.
  erewrite bind_Ret by (apply require_run; rewrite (aligned_mod p 3 2) by (done || lia); by apply Z.eqb_eq).
  cbv zeta. erewrite bind_Ret by (by apply readUint64_palign).
  pose proof (Z.mod_pos_bound p 8 ltac:(lia)). pose proof (Z.div_mod p 8 ltac:(lia)). pose proof (Z.div_mod p 4 ltac:(lia)).
  unfold uint32. rewrite bitoffset_spec, shift_right_field, load_bytes_field by lia. done.
Qed.

Lemma readUint16_run p m : is_u 64 p -> p mod 2 = 0 -> readUint16 p m = (Ret (load_bytes m p 2), m).
Proof.
  intros Hp Ha. unfold readUint16.
  erewrite bind_Ret by (apply require_run; rewrite (aligned_mod p 1 1) by (done || lia); by apply Z.eqb_eq).
  cbv zeta. erewrite bind_Ret by (by apply readUint64_palign).
  pose proof (Z.mod_pos_bound p 8 ltac:(lia)). pose proof (Z.div_mod p 8 ltac:(lia)). pose proof (Z.div_mod p 2 ltac:(lia)).
  unfold uint16. rewrite bitoffset_spec, shift_right_field, load_bytes_field by lia. done.
Qed.

Lemma readUint8_run p m : is_u 64 p -> readUint8 p m = (Ret (load_bytes m p 1), m).
Proof.
  intros Hp. unfold readUint8. erewrite bind_Ret by (by apply readUint64_palign).
  pose proof (Z.mod_pos_bound p 8 ltac:(lia)).
  unfold uint8. rewrite bitoffset_spec, shift_right_field, load_bytes_field by lia. done.
Qed.

Lemma load_word m p : p mod 8 = 0 -> load_bytes m p 8 = mem_read m p.
Proof.
  intros Ha. rewrite load_bytes_field by lia. rewrite Ha. unfold bitfield. rewrite Z.shiftr_0_r, Z.land_ones by lia.
  apply Z.mod_small. apply mem_read_range.
Qed.
End spec.

(** ** Stores *)

Lemma mem_write_byte_spec p b m :
  mem_write_byte p b m = mem_write p (replace_bits (8 * (p mod 8)) 8 b (mem_read m p)) m.
Proof.
  unfold mem_write_byte, replace_bits. cbv zeta. f_equal. change 255 with (Z.ones 8). f_equal.
  pose proof (Z.mod_pos_bound p 8 ltac:(lia)). set (s := 8 * (p mod 8)).
  apply Z.bits_inj'. intros i Hi. unfold uint8, uint64. rewrite Z.land_spec, testbit_uwrap, !Z.shiftl_spec by lia.
  destruct (decide (s <= i)).
  - rewrite testbit_uwrap, testbit_ones by lia. repeat case_bool_decide; try lia; simpl; by rewrite ?andb_true_r, ?andb_false_r.
  - rewrite !(Z.testbit_neg_r _ (i - s)) by lia. by rewrite andb_false_r.
Qed.

Lemma mem_write_write p v v' q m : word_index p = word_index q -> mem_write q v' (mem_write p v m) = mem_write q v' m.
Proof. intros E. unfold mem_write. rewrite E. apply insert_insert_eq. Qed.

(** Storing bytes that lie in one word replaces them in it. *)
Lemma mem_write_bytes_field p bs m :
  p mod 8 + Z.of_nat (length bs) <= 8 -> Forall (is_u 8) bs ->
  mem_write_bytes p bs m ≡ mem_write p (replace_bits (8 * (p mod 8)) (8 * Z.of_nat (length bs)) (le_value bs) (mem_read m p)) m.
Proof.
  revert p m. induction bs as [|b bs IH]; intros p m Hp Hbs.
  { pose proof (Z.mod_pos_bound p 8 ltac:(lia)). cbn [mem_write_bytes length Z.of_nat]. rewrite Z.mul_0_r, replace_bits_nothing
      by (lia || apply mem_read_range).
    intros i. unfold mem_write. rewrite word_at_insert. case_decide as Hw; [|done]. subst i.
    fold (mem_read m p). unfold uint64. symmetry. apply uwrap_small, mem_read_range. }
  pose proof (Z.mod_pos_bound p 8 ltac:(lia)). cbn [length] in Hp. rewrite Nat2Z.inj_succ in Hp.
  apply Forall_cons in Hbs as [Hb Hbs]. cbn [mem_write_bytes]. destruct bs as [|b' bs].
  { cbn [mem_write_bytes]. rewrite mem_write_byte_spec. change (le_value [b]) with (Z.lor b 0). by rewrite Z.lor_0_r. }
  set (bs' := b' :: bs) in *. assert (1 <= Z.of_nat (length bs')) by (unfold bs'; cbn [length]; lia).
  destruct (word_index_add p 1) as [Hw Hm]; [lia..|].
  rewrite IH by (done || lia). rewrite mem_write_byte_spec. rewrite Hm, Z.mul_add_distr_l.
  unfold mem_read at 1. rewrite Hw. fold (mem_read (mem_write p (replace_bits (8 * (p mod 8)) 8 b (mem_read m p)) m) p).
  rewrite mem_read_write, decide_True by done. unfold uint64.
  rewrite uwrap_small by (apply replace_bits_range; lia).
  rewrite Z.mul_1_r, replace_bits_adjacent, mem_write_write by (done || lia).
  cbn [length]. rewrite le_value_cons, (uwrap_small 8 b), Nat2Z.inj_succ by done.
  replace (8 + 8 * Z.of_nat (length bs')) with (8 * Z.succ (Z.of_nat (length bs'))) by lia.
  unfold mem_write. by rewrite Hw.
Qed.

Lemma le_bytes_u8 n v : 0 <= n -> Forall (is_u 8) (le_bytes n v).
Proof. intros. by apply Z_to_little_endian_bound. Qed.

Lemma store_bytes_field m a n v :
  0 <= n -> a mod 8 + n <= 8 ->
  store_bytes m a n v ≡ mem_write a (replace_bits (8 * (a mod 8)) (8 * n) v (mem_read m a)) m.
Proof.
  intros Hn Ha. pose proof (Z.mod_pos_bound a 8 ltac:(lia)). unfold store_bytes.
  rewrite mem_write_bytes_field by (first [by apply le_bytes_u8|rewrite length_le_bytes by lia; lia]).
  rewrite length_le_bytes, Z2Nat.id, le_value_bytes by lia. rewrite (Z.mul_comm n).
  by rewrite replace_bits_uwrap by lia.
Qed.

Lemma copyBitsWord_spec from count to offset :
  is_u count from -> 0 < count < 64 -> 0 <= offset -> offset + count <= 64 -> is_u 64 to ->
  copyBitsWord from count to offset = replace_bits offset count from to.
Proof.
  intros Hf Hc Ho Hoc Hto. unfold copyBitsWord, replace_bits, uint64ShiftLeft. cbv zeta.
  change 63 with (Z.ones 6). rewrite !land_ones_mod, !Z.mod_small by lia.
  assert (uint64 (uint64 (Z.shiftl 1 count) - 1) = Z.ones count) as ->.
  { unfold uint64. pose proof (Z.pow_pos_nonneg 2 count ltac:(lia) ltac:(lia)).
    pose proof (Z.pow_lt_mono_r 2 count 64 ltac:(lia) ltac:(lia) ltac:(lia)).
    rewrite Z.shiftl_1_l, (uwrap_small 64 (2 ^ count)) by (unfold is_u; lia).
    rewrite uwrap_small by (unfold is_u; lia). rewrite Z.ones_equiv. lia. }
  pose proof (field_mask_u64 offset count Ho ltac:(lia) Hoc). unfold uint64.
  rewrite (uwrap_small 64 (Z.shiftl (Z.ones count) offset)) by done. rewrite Z.lor_comm. f_equal.
  apply Z.bits_inj'. intros i Hi. rewrite Z.land_spec, testbit_uwrap, !Z.shiftl_spec by lia.
  destruct (decide (offset <= i)).
  - rewrite testbit_ones by lia. destruct (decide (i - offset < count)).
    + by rewrite (bool_decide_eq_true_2 (i - offset < count)), andb_true_r by lia.
    + by rewrite (is_u_testbit count from), !andb_false_r by (done || lia).
  - by rewrite (Z.testbit_neg_r from), !andb_false_r by lia.
Qed.

Section stores.
Context {cfg : BuildConfig} (pristine : memory).
#[local] Hint Extern 0 (IUarchStateAccess memory) => exact (spec_access pristine) : typeclass_instances.
Implicit Types m : memory.

Lemma writeUint64_run p v m :
  is_u 64 p -> is_u 64 v -> p mod 8 = 0 -> writeUint64 p v m = (Ret (), mem_write p v m).
Proof.
  intros Hp Hv Ha. unfold writeUint64.
  erewrite bind_Ret by (apply require_run; rewrite (aligned_mod p 7 3) by (done || lia); by apply Z.eqb_eq).
  unfold writeWord, uint64. by rewrite !uwrap_small.
Qed.

(** The read-modify-write of the smaller stores. *)
Lemma store_word_run p v n m :
  is_u 64 p -> is_u (8 * n) v -> n = 1 \/ n = 2 \/ n = 4 -> p mod n = 0 ->
  exists m', (oldval64 ← readUint64 (Z.land p (not64 7));
              newval64 ← copyBits v (8 * n) oldval64 (uint32ShiftLeft (Z.land (uint32 p) 7) 3);
              writeUint64 (Z.land p (not64 7)) newval64) m = (Ret (), m') /\ m' ≡ store_bytes m p n v.
Proof.
  intros Hp Hv Hn Ha. destruct (palign_spec p Hp) as (Hu & Hal & Hw).
  pose proof (Z.mod_pos_bound p 8 ltac:(lia)). pose proof (Z.div_mod p 8 ltac:(lia)). pose proof (Z.div_mod p n ltac:(lia)).
  assert (p mod 8 + n <= 8) by nia.
  erewrite bind_Ret by (by apply readUint64_palign). rewrite bitoffset_spec. unfold copyBits.
  erewrite bind_Ret by (erewrite bind_Ret by (apply require_run; lia); reflexivity).
  rewrite copyBitsWord_spec by (done || lia || apply mem_read_range).
  rewrite writeUint64_run by (done || apply replace_bits_range; lia).
  eexists. split; [reflexivity|]. rewrite store_bytes_field by lia. unfold mem_write. by rewrite Hw.
Qed.

Lemma writeUint32_run p v m :
  is_u 64 p -> is_u 32 v -> p mod 4 = 0 -> exists m', writeUint32 p v m = (Ret (), m') /\ m' ≡ store_bytes m p 4 v.
Proof.
  intros Hp Hv Ha. unfold writeUint32.
  erewrite bind_Ret by (apply require_run; rewrite (aligned_mod p 3 2) by (done || lia); by apply Z.eqb_eq).
  cbv zeta. apply (store_word_run p v 4); auto.
Qed.
Lemma writeUint16_run p v m :
  is_u 64 p -> is_u 16 v -> p mod 2 = 0 -> exists m', writeUint16 p v m = (Ret (), m') /\ m' ≡ store_bytes m p 2 v.
Proof.
  intros Hp Hv Ha. unfold writeUint16.
  erewrite bind_Ret by (apply require_run; rewrite (aligned_mod p 1 1) by (done || lia); by apply Z.eqb_eq).
  cbv zeta. apply (store_word_run p v 2); auto.
Qed.
Lemma writeUint8_run p v m :
  is_u 64 p -> is_u 8 v -> exists m', writeUint8 p v m = (Ret (), m') /\ m' ≡ store_bytes m p 1 v.
Proof. intros Hp Hv. apply (store_word_run p v 1); auto using Z.mod_1_r. Qed.

Lemma store_word m p v : p mod 8 = 0 -> is_u 64 v -> store_bytes m p 8 v ≡ mem_write p v m.
Proof.
  intros Ha Hv. rewrite store_bytes_field by lia. rewrite Ha. apply mem_write_proper; [done| |done].
  apply Z.bits_inj'. intros i Hi. rewrite testbit_replace_bits by lia.
  case_bool_decide; [f_equal; lia|]. rewrite bool_decide_eq_false_2, (is_u_testbit 64 v i) by (done || lia). done.
Qed.
End stores.

(** ** Bytes after a store *)

Lemma byte_at_field c q : byte_at c q = bitfield (8 * (q mod 8)) 8 (mem_read c q).
Proof. done. Qed.

(** A store of up to a word that does not cross words changes exactly its bytes. *)
Lemma byte_at_store m a n v q :
  0 <= n -> a mod 8 + n <= 8 ->
  byte_at (store_bytes m a n v) q = if decide (a <= q < a + n) then bitfield (8 * (q - a)) 8 v else byte_at m q.
Proof.
  intros Hn Ha. rewrite !byte_at_field.
  rewrite (mem_read_proper _ _ (store_bytes_field m a n v Hn Ha) q q eq_refl), mem_read_write.
  pose proof (Z.mod_pos_bound a 8 ltac:(lia)). pose proof (Z.mod_pos_bound q 8 ltac:(lia)).
  pose proof (Z.div_mod a 8 ltac:(lia)). pose proof (Z.div_mod q 8 ltac:(lia)). rewrite !word_index_div.
  case_decide as Hw; [|case_decide; [|done]].
  2:{ exfalso. apply Hw. apply Z.div_unique with (a mod 8 + (q - a)); lia. }
  unfold uint64. rewrite uwrap_small by (apply replace_bits_range; lia).
  unfold mem_read. rewrite !word_index_div. rewrite <-Hw.
  case_decide.
  - apply Z.bits_inj'. intros i Hi. rewrite !testbit_bitfield, testbit_replace_bits by lia.
    case_bool_decide; [|done]. rewrite bool_decide_eq_true_2 by lia. simpl. f_equal. lia.
  - rewrite field_replace_other by lia. done.
Qed.
