(* ===== verification/UarchIsa.v ===== *)
(** * The stepper implements RV64I

    Each handler of uarch-step.cpp has the effect that the manual gives to
    its instruction, on the registers and the bytes of the machine. *)

From S2P Require Import Prelude Bits Shadow SolidityCompat UarchStep UarchSim Rv64i UarchDecode HashTree Memory UarchFacts Machine MachineFacts UarchMemory.

(** ** The registers and the memory that the manual talks about *)

(** Register [i]; x0 reads as zero. *)
Definition x_reg (m : memory) (i : Z) : Z := if i =? 0 then 0 else mem_read m (uarch_x_address i).

Definition apply_write (insn : Z) (w : write) (m : memory) : memory :=
  match w with
  | write_nothing => m
  | write_register v => if rd insn =? 0 then m else mem_write (uarch_x_address (rd insn)) v m
  | write_bytes a n v => store_bytes m a n v
  end.
Definition apply_effect (insn : Z) (e : effect) (m : memory) : memory :=
  mem_write shadow_uarch_state_what.uarch_pc (eff_pc e) (apply_write insn (eff_write e) m).

Definition isa_step (n : mnemonic) (insn pc : Z) (m : memory) : memory :=
  apply_effect insn (isa_effect n insn pc (x_reg m) (load_bytes m)) m.

(** ** Arithmetic: the code's operations are those of the manual *)

Lemma uint64ShiftLeft_spec a b : uint64ShiftLeft a b = uint64 (a * 2 ^ (b mod 64)).
Proof.
  unfold uint64ShiftLeft. change 63 with (Z.ones 6). rewrite land_ones_mod by lia.
  pose proof (Z.mod_pos_bound b 64 ltac:(lia)). change (2 ^ 6) with 64. by rewrite Z.shiftl_mul_pow2 by lia.
Qed.
Lemma uint64ShiftRight_spec a b : uint64ShiftRight a b = a / 2 ^ (b mod 64).
Proof.
  unfold uint64ShiftRight. change 63 with (Z.ones 6). rewrite land_ones_mod by lia.
  pose proof (Z.mod_pos_bound b 64 ltac:(lia)). change (2 ^ 6) with 64. by rewrite Z.shiftr_div_pow2 by lia.
Qed.
Lemma int64ShiftRight_spec a b : int64ShiftRight a b = a / 2 ^ (b mod 64).
Proof. apply uint64ShiftRight_spec. Qed.
Lemma uint32ShiftLeft_spec a b : uint32ShiftLeft a b = uint32 (a * 2 ^ (b mod 32)).
Proof.
  unfold uint32ShiftLeft. change 31 with (Z.ones 5). rewrite land_ones_mod by lia.
  pose proof (Z.mod_pos_bound b 32 ltac:(lia)). change (2 ^ 5) with 32. by rewrite Z.shiftl_mul_pow2 by lia.
Qed.
Lemma uint32ShiftRight_spec a b : uint32ShiftRight a b = a / 2 ^ (b mod 32).
Proof.
  unfold uint32ShiftRight. change 31 with (Z.ones 5). rewrite land_ones_mod by lia.
  pose proof (Z.mod_pos_bound b 32 ltac:(lia)). change (2 ^ 5) with 32. by rewrite Z.shiftr_div_pow2 by lia.
Qed.
Lemma int32ShiftRight_spec a b : int32ShiftRight a b = a / 2 ^ (b mod 32).
Proof. apply uint32ShiftRight_spec. Qed.

Lemma uint32_mod b n : n = 2 ^ Z.log2 n -> Z.log2 n <= 32 -> uint32 b mod n = b mod n.
Proof.
  intros En Hn. unfold uint32. pose proof (Z.log2_nonneg n). rewrite En. fold (uwrap (Z.log2 n) (uwrap 32 b)).
  by rewrite uwrap_uwrap.
Qed.

Lemma mod_eq_mul_r w x y z : uwrap w x = uwrap w y -> uwrap w (x * z) = uwrap w (y * z).
Proof. unfold uwrap. intros E. by rewrite <-Zmult_mod_idemp_l, E, Zmult_mod_idemp_l. Qed.
Lemma mod_eq_add w x y x' y' :
  uwrap w x = uwrap w x' -> uwrap w y = uwrap w y' -> uwrap w (x + y) = uwrap w (x' + y').
Proof. unfold uwrap. intros Ex Ey. by rewrite Zplus_mod, Ex, Ey, <-Zplus_mod. Qed.
Lemma mod_eq_sub w x y x' y' :
  uwrap w x = uwrap w x' -> uwrap w y = uwrap w y' -> uwrap w (x - y) = uwrap w (x' - y').
Proof. unfold uwrap. intros Ex Ey. by rewrite Zminus_mod, Ex, Ey, <-Zminus_mod. Qed.

(** ** The signed 32- and 64-bit operations *)

Lemma alu_addi a imm : uint64 (int64AddInt64 (int64 a) imm) = uint64 (a + uint64 imm).
Proof.
  unfold int64AddInt64, uint64, int64. rewrite uwrap_swrap by lia.
  apply mod_eq_add; [by apply uwrap_swrap|]. symmetry. by apply uwrap_idem.
Qed.
Lemma alu_addiw a imm : int32AddInt32 (uint64ToInt32 a) imm = int32 (a + uint64 imm).
Proof.
  unfold int32AddInt32, uint64ToInt32, uint64, int32. apply swrap_eq; [lia|].
  apply mod_eq_add; [by apply uwrap_swrap|]. symmetry. by apply uwrap_uwrap.
Qed.
Lemma alu_addw a b : int32AddInt32 (uint64ToInt32 a) (uint64ToInt32 b) = int32 (a + b).
Proof.
  unfold int32AddInt32, uint64ToInt32, int32. apply swrap_eq; [lia|]. apply mod_eq_add; by apply uwrap_swrap.
Qed.
Lemma alu_subw a b : int32SubInt32 (uint64ToInt32 a) (uint64ToInt32 b) = int32 (a - b).
Proof.
  unfold int32SubInt32, uint64ToInt32, int32. apply swrap_eq; [lia|]. apply mod_eq_sub; by apply uwrap_swrap.
Qed.
Lemma alu_sllw a b : int32 (uint32ShiftLeft (uint32 a) b) = int32 (a * 2 ^ (b mod 32)).
Proof.
  rewrite uint32ShiftLeft_spec. unfold int32, uint32. rewrite swrap_uwrap by lia. apply swrap_eq; [lia|].
  apply mod_eq_mul_r. by apply uwrap_idem.
Qed.
Lemma uint64_swrap12 w insn : 0 < w <= 64 -> int64 (uint64 (swrap w insn)) = swrap w insn.
Proof.
  intros Hw. unfold int64, uint64. rewrite swrap_uwrap by lia. apply swrap_small; [lia|].
  pose proof (swrap_range w insn ltac:(lia)) as Hr. unfold is_s in *.
  pose proof (Z.pow_le_mono_r 2 (w - 1) (64 - 1) ltac:(lia) ltac:(lia)). lia.
Qed.

(** ** The handlers *)

Section handlers.
Context {cfg : BuildConfig} (pristine : memory).
#[local] Hint Extern 0 (IUarchStateAccess memory) => exact (spec_access pristine) : typeclass_instances.
Context (insn pc : Z) (m : memory).
Context (Hx0 : mem_read m (uarch_x_address 0) = 0).

Lemma read_x_reg i : mem_read m (uarch_x_address i) = x_reg m i.
Proof. unfold x_reg. destruct (i =? 0) eqn:E; [|done]. by apply Z.eqb_eq in E as ->. Qed.
Lemma read_rs1 : readX (operandRs1 insn) m = (Ret (x_reg m (rs1 insn)), m).
Proof. rewrite operandRs1_field. unfold rs1. by rewrite <-read_x_reg. Qed.
Lemma read_rs2 : readX (operandRs2 insn) m = (Ret (x_reg m (rs2 insn)), m).
Proof. rewrite operandRs2_field. unfold rs2. by rewrite <-read_x_reg. Qed.
Lemma x_reg_u64 i : is_u 64 (x_reg m i).
Proof. unfold x_reg. destruct (i =? 0); [done|apply mem_read_range]. Qed.

Definition reg_effect (v : Z) : effect := {| eff_write := write_register v; eff_pc := uint64 (pc + 4) |}.

(** The tail of the handlers that write a register. *)
Lemma write_rd_run v next :
  (when (negb (operandRd insn =? 0)) (writeX (operandRd insn) v) ;; branch next) m =
    (Ret (), apply_effect insn {| eff_write := write_register v; eff_pc := next |} m).
Proof. rewrite operandRd_field. unfold apply_effect, apply_write, rd. simpl. by destruct (bitfield 7 5 insn =? 0). Qed.

Lemma when_rd_run k v :
  k m = writeX (operandRd insn) v m ->
  (when (negb (operandRd insn =? 0)) k ;; advancePc pc) m = (Ret (), apply_effect insn (reg_effect v) m).
Proof.
  intros Hk. etrans; [|apply (write_rd_run v (uint64 (pc + 4)))]. unfold mbind, M_bind, when. destruct (negb _); [by rewrite Hk|done].
Qed.

#[local] Ltac read_regs := repeat (erewrite bind_Ret by (first [by apply read_rs1|by apply read_rs2])).

(** *** Upper immediates and jumps *)
Lemma executeLUI_isa : executeLUI insn pc m = (Ret (), isa_step LUI insn pc m).
Proof. unfold executeLUI. rewrite operandImm20_spec. by apply when_rd_run. Qed.
Lemma executeAUIPC_isa : executeAUIPC insn pc m = (Ret (), isa_step AUIPC insn pc m).
Proof. unfold executeAUIPC. rewrite operandImm20_spec. by apply when_rd_run. Qed.
Lemma executeJAL_isa : executeJAL insn pc m = (Ret (), isa_step JAL insn pc m).
Proof. unfold executeJAL. rewrite operandJimm20_spec. apply write_rd_run. Qed.
Lemma executeJALR_isa : executeJALR insn pc m = (Ret (), isa_step JALR insn pc m).
Proof.
  unfold executeJALR. rewrite operandImm12_spec. read_regs. rewrite write_rd_run.
  unfold isa_step, isa_effect, uint64AddInt32, uint64AddUint64. do 3 f_equal.
  apply (land_not64_ones _ 1); [by apply uwrap_range|lia].
Qed.

(** *** Branches *)
Lemma branch_run n (c : bool) imm :
  c = taken n (x_reg m (rs1 insn)) (x_reg m (rs2 insn)) -> imm = immB insn ->
  (isa_effect n insn pc (x_reg m) (load_bytes m) =
     {| eff_write := write_nothing;
        eff_pc := if taken n (x_reg m (rs1 insn)) (x_reg m (rs2 insn)) then uint64 (pc + immB insn) else uint64 (pc + 4) |}) ->
  (if c then branch (uint64AddInt32 pc imm) else advancePc pc) m = (Ret (), isa_step n insn pc m).
Proof. intros -> -> Heff. unfold isa_step. rewrite Heff. by destruct (taken _ _ _). Qed.

Lemma executeBEQ_isa : executeBEQ insn pc m = (Ret (), isa_step BEQ insn pc m).
Proof. unfold executeBEQ. read_regs. apply branch_run; [done|apply operandSbimm12_spec|done]. Qed.
Lemma executeBNE_isa : executeBNE insn pc m = (Ret (), isa_step BNE insn pc m).
Proof. unfold executeBNE. read_regs. apply branch_run; [done|apply operandSbimm12_spec|done]. Qed.
Lemma executeBLT_isa : executeBLT insn pc m = (Ret (), isa_step BLT insn pc m).
Proof. unfold executeBLT. read_regs. apply branch_run; [done|apply operandSbimm12_spec|done]. Qed.
Lemma executeBGE_isa : executeBGE insn pc m = (Ret (), isa_step BGE insn pc m).
Proof. unfold executeBGE. read_regs. apply branch_run; [done|apply operandSbimm12_spec|done]. Qed.
Lemma executeBLTU_isa : executeBLTU insn pc m = (Ret (), isa_step BLTU insn pc m).
Proof. unfold executeBLTU. read_regs. apply branch_run; [done|apply operandSbimm12_spec|done]. Qed.
Lemma executeBGEU_isa : executeBGEU insn pc m = (Ret (), isa_step BGEU insn pc m).
Proof. unfold executeBGEU. read_regs. apply branch_run; [done|apply operandSbimm12_spec|done]. Qed.

(** *** Arithmetic on a register and an immediate *)

(** The value a handler computes is that of the manual's operation. *)
Lemma write_rd_eq v v' : v = v' -> writeX (operandRd insn) v m = writeX (operandRd insn) v' m.
Proof. by intros ->. Qed.

#[local] Ltac alu_run := apply when_rd_run; read_regs; apply write_rd_eq; unfold alu.
Lemma executeADDI_isa : executeADDI insn pc m = (Ret (), isa_step ADDI insn pc m).
Proof.
  unfold executeADDI. rewrite operandImm12_spec. alu_run. apply alu_addi.
Qed.
Lemma executeSLTI_isa : executeSLTI insn pc m = (Ret (), isa_step SLTI insn pc m).
Proof.
  unfold executeSLTI. rewrite operandImm12_spec. apply when_rd_run. read_regs. unfold alu, immI.
  rewrite uint64_swrap12 by lia. by destruct (_ <? _).
Qed.
Lemma executeSLTIU_isa : executeSLTIU insn pc m = (Ret (), isa_step SLTIU insn pc m).
Proof.
  unfold executeSLTIU. rewrite operandImm12_spec. apply when_rd_run. read_regs. unfold alu, int32ToUint64.
  by destruct (_ <? _).
Qed.
Lemma executeXORI_isa : executeXORI insn pc m = (Ret (), isa_step XORI insn pc m).
Proof.
  unfold executeXORI. rewrite operandImm12_spec. by alu_run.
Qed.
Lemma executeORI_isa : executeORI insn pc m = (Ret (), isa_step ORI insn pc m).
Proof.
  unfold executeORI. rewrite operandImm12_spec. by alu_run.
Qed.
Lemma executeANDI_isa : executeANDI insn pc m = (Ret (), isa_step ANDI insn pc m).
Proof.
  unfold executeANDI. rewrite operandImm12_spec. by alu_run.
Qed.
Lemma executeSLLI_isa : executeSLLI insn pc m = (Ret (), isa_step SLLI insn pc m).
Proof.
  unfold executeSLLI. rewrite operandShamt6_spec. alu_run. rewrite uint64ShiftLeft_spec, uint32_mod by done. done.
Qed.
Lemma executeSRLI_isa : executeSRLI insn pc m = (Ret (), isa_step SRLI insn pc m).
Proof.
  unfold executeSRLI. rewrite operandShamt6_spec. alu_run. rewrite uint64ShiftRight_spec, uint32_mod by done. done.
Qed.
Lemma executeSRAI_isa : executeSRAI insn pc m = (Ret (), isa_step SRAI insn pc m).
Proof.
  unfold executeSRAI. rewrite operandShamt6_spec. alu_run. rewrite int64ShiftRight_spec, uint32_mod by done. done.
Qed.
Lemma executeADDIW_isa : executeADDIW insn pc m = (Ret (), isa_step ADDIW insn pc m).
Proof.
  unfold executeADDIW. rewrite operandImm12_spec. read_regs. apply when_rd_run, write_rd_eq. unfold alu, int32ToUint64. by rewrite alu_addiw.
Qed.
Lemma executeSLLIW_isa : executeSLLIW insn pc m = (Ret (), isa_step SLLIW insn pc m).
Proof.
  unfold executeSLLIW. rewrite operandShamt5_spec. read_regs. apply when_rd_run, write_rd_eq. unfold alu, int32ToUint64. by rewrite alu_sllw, uint32_mod.
Qed.
Lemma executeSRLIW_isa : executeSRLIW insn pc m = (Ret (), isa_step SRLIW insn pc m).
Proof.
  unfold executeSRLIW. rewrite operandShamt5_spec. read_regs. apply when_rd_run, write_rd_eq. unfold alu, int32ToUint64. by rewrite uint32ShiftRight_spec, uint32_mod.
Qed.
Lemma executeSRAIW_isa : executeSRAIW insn pc m = (Ret (), isa_step SRAIW insn pc m).
Proof.
  unfold executeSRAIW. rewrite operandShamt5_spec. read_regs. apply when_rd_run, write_rd_eq. unfold alu, int32ToUint64. by rewrite int32ShiftRight_spec, uint32_mod.
Qed.

(** *** Arithmetic on two registers *)
Lemma executeADD_isa : executeADD insn pc m = (Ret (), isa_step ADD insn pc m).
Proof.
  unfold executeADD. by alu_run.
Qed.
Lemma executeSUB_isa : executeSUB insn pc m = (Ret (), isa_step SUB insn pc m).
Proof.
  unfold executeSUB. by alu_run.
Qed.
Lemma executeXOR_isa : executeXOR insn pc m = (Ret (), isa_step XOR insn pc m).
Proof.
  unfold executeXOR. by alu_run.
Qed.
Lemma executeOR_isa : executeOR insn pc m = (Ret (), isa_step OR insn pc m).
Proof.
  unfold executeOR. by alu_run.
Qed.
Lemma executeAND_isa : executeAND insn pc m = (Ret (), isa_step AND insn pc m).
Proof.
  unfold executeAND. by alu_run.
Qed.
Lemma executeSLT_isa : executeSLT insn pc m = (Ret (), isa_step SLT insn pc m).
Proof.
  unfold executeSLT. alu_run. by destruct (_ <? _).
Qed.
Lemma executeSLTU_isa : executeSLTU insn pc m = (Ret (), isa_step SLTU insn pc m).
Proof.
  unfold executeSLTU. alu_run. by destruct (_ <? _).
Qed.
Lemma executeSLL_isa : executeSLL insn pc m = (Ret (), isa_step SLL insn pc m).
Proof.
  unfold executeSLL. alu_run. by rewrite uint64ShiftLeft_spec, uint32_mod.
Qed.
Lemma executeSRL_isa : executeSRL insn pc m = (Ret (), isa_step SRL insn pc m).
Proof.
  unfold executeSRL. alu_run. by rewrite uint64ShiftRight_spec, uint32_mod.
Qed.
Lemma executeSRA_isa : executeSRA insn pc m = (Ret (), isa_step SRA insn pc m).
Proof.
  unfold executeSRA. alu_run. by rewrite int64ShiftRight_spec, uint32_mod.
Qed.
Lemma executeADDW_isa : executeADDW insn pc m = (Ret (), isa_step ADDW insn pc m).
Proof.
  unfold executeADDW. read_regs. apply when_rd_run, write_rd_eq. unfold alu, int32ToUint64. by rewrite alu_addw.
Qed.
Lemma executeSUBW_isa : executeSUBW insn pc m = (Ret (), isa_step SUBW insn pc m).
Proof.
  unfold executeSUBW. read_regs. apply when_rd_run, write_rd_eq. unfold alu, int32ToUint64. by rewrite alu_subw.
Qed.
Lemma executeSLLW_isa : executeSLLW insn pc m = (Ret (), isa_step SLLW insn pc m).
Proof.
  unfold executeSLLW. read_regs. apply when_rd_run, write_rd_eq. unfold alu, int32ToUint64. by rewrite alu_sllw, uint32_mod.
Qed.
Lemma executeSRLW_isa : executeSRLW insn pc m = (Ret (), isa_step SRLW insn pc m).
Proof.
  unfold executeSRLW. read_regs. apply when_rd_run, write_rd_eq. unfold alu, int32ToUint64. by rewrite uint32ShiftRight_spec, uint32_mod.
Qed.
Lemma executeSRAW_isa : executeSRAW insn pc m = (Ret (), isa_step SRAW insn pc m).
Proof.
  unfold executeSRAW. read_regs. apply when_rd_run, write_rd_eq. unfold alu, int32ToUint64. by rewrite int32ShiftRight_spec, uint32_mod.
Qed.
Lemma executeFENCE_isa : executeFENCE insn pc m = (Ret (), isa_step FENCE insn pc m).
Proof. done. Qed.

(** *** Loads and stores *)

(** The address of an access. *)
Lemma load_address_spec : uint64AddInt32 (x_reg m (rs1 insn)) (operandImm12 insn) = uint64 (x_reg m (rs1 insn) + immI insn).
Proof. by rewrite operandImm12_spec. Qed.
Lemma store_address_spec : uint64AddInt32 (x_reg m (rs1 insn)) (operandSimm12 insn) = uint64 (x_reg m (rs1 insn) + immS insn).
Proof. by rewrite operandSimm12_spec. Qed.

Lemma executeLB_isa : executeLB insn pc m = (Ret (), isa_step LB insn pc m).
Proof.
  intros. unfold executeLB. read_regs. rewrite load_address_spec.
  erewrite bind_Ret by (apply readUint8_run; first [done|by apply uwrap_range]). by apply when_rd_run.
Qed.
Lemma executeLH_isa : uint64 (x_reg m (rs1 insn) + immI insn) mod 2 = 0 -> executeLH insn pc m = (Ret (), isa_step LH insn pc m).
Proof.
  intros. unfold executeLH. read_regs. rewrite load_address_spec.
  erewrite bind_Ret by (apply readUint16_run; first [done|by apply uwrap_range]). by apply when_rd_run.
Qed.
Lemma executeLW_isa : uint64 (x_reg m (rs1 insn) + immI insn) mod 4 = 0 -> executeLW insn pc m = (Ret (), isa_step LW insn pc m).
Proof.
  intros. unfold executeLW. read_regs. rewrite load_address_spec.
  erewrite bind_Ret by (apply readUint32_run; first [done|by apply uwrap_range]). by apply when_rd_run.
Qed.
Lemma executeLBU_isa : executeLBU insn pc m = (Ret (), isa_step LBU insn pc m).
Proof.
  intros. unfold executeLBU. read_regs. rewrite load_address_spec.
  erewrite bind_Ret by (apply readUint8_run; first [done|by apply uwrap_range]). by apply when_rd_run.
Qed.
Lemma executeLHU_isa : uint64 (x_reg m (rs1 insn) + immI insn) mod 2 = 0 -> executeLHU insn pc m = (Ret (), isa_step LHU insn pc m).
Proof.
  intros. unfold executeLHU. read_regs. rewrite load_address_spec.
  erewrite bind_Ret by (apply readUint16_run; first [done|by apply uwrap_range]). by apply when_rd_run.
Qed.
Lemma executeLWU_isa : uint64 (x_reg m (rs1 insn) + immI insn) mod 4 = 0 -> executeLWU insn pc m = (Ret (), isa_step LWU insn pc m).
Proof.
  intros. unfold executeLWU. read_regs. rewrite load_address_spec.
  erewrite bind_Ret by (apply readUint32_run; first [done|by apply uwrap_range]). by apply when_rd_run.
Qed.
Lemma executeLD_isa :
  uint64 (x_reg m (rs1 insn) + immI insn) mod 8 = 0 -> executeLD insn pc m = (Ret (), isa_step LD insn pc m).
Proof.
  intros Ha. unfold executeLD. read_regs. rewrite load_address_spec.
  erewrite bind_Ret by (apply readUint64_run; first [done|by apply uwrap_range]). rewrite <-load_word by done.
  by apply when_rd_run.
Qed.

(** A store, then the next pc. *)
Lemma store_run n (k : M memory unit) a :
  (exists m', k m = (Ret (), m') /\ m' ≡ store_bytes m a (width n) (x_reg m (rs2 insn))) ->
  isa_effect n insn pc (x_reg m) (load_bytes m) =
    {| eff_write := write_bytes a (width n) (x_reg m (rs2 insn)); eff_pc := uint64 (pc + 4) |} ->
  exists m', (k ;; advancePc pc) m = (Ret (), m') /\ m' ≡ isa_step n insn pc m.
Proof.
  intros (m' & E & Hm) Heff. erewrite bind_Ret by exact E. eexists. split; [reflexivity|].
  unfold isa_step. rewrite Heff. unfold apply_effect, apply_write. simpl. by rewrite Hm.
Qed.

Lemma store_bytes_uwrap a n v :
  0 <= n -> a mod 8 + n <= 8 -> store_bytes m a n (uwrap (8 * n) v) ≡ store_bytes m a n v.
Proof.
  intros Hn Ha. rewrite !store_bytes_field by done. pose proof (Z.mod_pos_bound a 8 ltac:(lia)).
  by rewrite replace_bits_uwrap by lia.
Qed.

Lemma aligned_in_word a n : n = 1 \/ n = 2 \/ n = 4 -> a mod n = 0 -> a mod 8 + n <= 8.
Proof.
  intros Hn Ha. pose proof (Z.mod_pos_bound a 8 ltac:(lia)). pose proof (Z.div_mod a 8 ltac:(lia)).
  pose proof (Z.div_mod a n ltac:(lia)). nia.
Qed.

Lemma executeSB_isa : exists m', executeSB insn pc m = (Ret (), m') /\ m' ≡ isa_step SB insn pc m.
Proof.
  intros. unfold executeSB. read_regs. rewrite store_address_spec. eapply store_run; [|reflexivity].
  destruct (writeUint8_run pristine (uint64 (x_reg m (rs1 insn) + immS insn)) (uint8 (x_reg m (rs2 insn))) m)
    as (m' & E & Hm); [first [done|by apply uwrap_range]..|].
  exists m'. split; [exact E|]. rewrite Hm. apply (store_bytes_uwrap _ 1); [done|].
  apply aligned_in_word; [auto|by apply Z.mod_1_r].
Qed.
Lemma executeSH_isa : uint64 (x_reg m (rs1 insn) + immS insn) mod 2 = 0 -> exists m', executeSH insn pc m = (Ret (), m') /\ m' ≡ isa_step SH insn pc m.
Proof.
  intros. unfold executeSH. read_regs. rewrite store_address_spec. eapply store_run; [|reflexivity].
  destruct (writeUint16_run pristine (uint64 (x_reg m (rs1 insn) + immS insn)) (uint16 (x_reg m (rs2 insn))) m)
    as (m' & E & Hm); [first [done|by apply uwrap_range]..|].
  exists m'. split; [exact E|]. rewrite Hm. apply (store_bytes_uwrap _ 2); [done|].
  apply aligned_in_word; [auto|done].
Qed.
Lemma executeSW_isa : uint64 (x_reg m (rs1 insn) + immS insn) mod 4 = 0 -> exists m', executeSW insn pc m = (Ret (), m') /\ m' ≡ isa_step SW insn pc m.
Proof.
  intros. unfold executeSW. read_regs. rewrite store_address_spec. eapply store_run; [|reflexivity].
  destruct (writeUint32_run pristine (uint64 (x_reg m (rs1 insn) + immS insn)) (uint32 (x_reg m (rs2 insn))) m)
    as (m' & E & Hm); [first [done|by apply uwrap_range]..|].
  exists m'. split; [exact E|]. rewrite Hm. apply (store_bytes_uwrap _ 4); [done|].
  apply aligned_in_word; [auto|done].
Qed.
Lemma executeSD_isa :
  uint64 (x_reg m (rs1 insn) + immS insn) mod 8 = 0 ->
  exists m', executeSD insn pc m = (Ret (), m') /\ m' ≡ isa_step SD insn pc m.
Proof.
  intros Ha. unfold executeSD. read_regs. rewrite store_address_spec. eapply store_run; [|reflexivity].
  eexists. split; [apply writeUint64_run; first [done|by apply uwrap_range|apply x_reg_u64]|].
  symmetry. apply store_word; [done|apply x_reg_u64].
Qed.

(** *** All of them *)

Lemma handler_isa n :
  n <> ECALL -> n <> EBREAK -> access_aligned n insn (x_reg m) ->
  exists m', handler n insn pc m = (Ret (), m') /\ m' ≡ isa_step n insn pc m.
Proof.
  intros Hec Heb Ha. destruct n; try done; unfold handler;
    first [by apply executeSB_isa|by apply executeSH_isa|by apply executeSW_isa|by apply executeSD_isa
          |exists (isa_step LUI insn pc m); split; [apply executeLUI_isa|done]|idtac].
  all: eexists; split; [|reflexivity].
  - apply executeAUIPC_isa. - apply executeJAL_isa. - apply executeJALR_isa. - apply executeBEQ_isa.
  - apply executeBNE_isa. - apply executeBLT_isa. - apply executeBGE_isa. - apply executeBLTU_isa.
  - apply executeBGEU_isa. - apply executeLB_isa. - by apply executeLH_isa. - by apply executeLW_isa.
  - by apply executeLD_isa. - apply executeLBU_isa. - by apply executeLHU_isa. - by apply executeLWU_isa.
  - apply executeADDI_isa. - apply executeSLTI_isa. - apply executeSLTIU_isa. - apply executeXORI_isa.
  - apply executeORI_isa. - apply executeANDI_isa. - apply executeSLLI_isa. - apply executeSRLI_isa.
  - apply executeSRAI_isa. - apply executeADD_isa. - apply executeSUB_isa. - apply executeSLL_isa.
  - apply executeSLT_isa. - apply executeSLTU_isa. - apply executeXOR_isa. - apply executeSRL_isa.
  - apply executeSRA_isa. - apply executeOR_isa. - apply executeAND_isa. - apply executeADDIW_isa.
  - apply executeSLLIW_isa. - apply executeSRLIW_isa. - apply executeSRAIW_isa. - apply executeADDW_isa.
  - apply executeSUBW_isa. - apply executeSLLW_isa. - apply executeSRLW_isa. - apply executeSRAW_isa.
  - apply executeFENCE_isa.
Qed.
End handlers.
