(* ===== verification/UarchReplay.v ===== *)
(** * Replaying an access log (src/uarch-replay-state-access.hpp)

    The state access a verifier runs the stepper on: it holds a root hash
    and an access log, and checks every access of the log against the root
    hash as the stepper makes it. *)

From S2P Require Import Prelude Shadow SolidityCompat UarchStep HashTree Memory AccessLog.

Record replay_context (H : Type) := {
  accesses : list (access H);
  next_access : Z;
  root_hash : H
}.
Arguments accesses {H} _.
Arguments next_access {H} _.
Arguments root_hash {H} _.

Definition access_type_name (type : access_type) : string :=
  match type with
  | access_read => "read"
  | access_write => "write"
  end.

(** Returns the aligned [paddr] (an in-out parameter), the address and the
    log2 size of the access to the hash tree. *)
Definition adjust_access (paddr log2_size : Z) : Z * Z * Z :=
  let paddr := Z.shiftl (Z.shiftr paddr log2_size) log2_size in
  let log2_access_size := Z.max log2_size HASH_TREE_LOG2_WORD_SIZE in
  let access_paddr := Z.shiftl (Z.shiftr paddr log2_access_size) log2_access_size in
  (paddr, access_paddr, log2_access_size).

(** [log2_size_v<uint64_t>] *)
Definition log2_size_uint64 : Z := 3.

Section replay.
Context `{IHasher H}.
(** The generated constant of uarch-pristine-state-hash.cpp. *)
Context (get_uarch_pristine_state_hash : H).

Definition get_hash (data : list Z) : outcome H := get_merkle_tree_hash data HASH_TREE_WORD_SIZE.

Definition finish : M (replay_context H) H :=
  c ← get;
  if negb (next_access c =? Z.of_nat (length (accesses c))) then
    throw (invalid_argument "access log was not fully consumed")
  else mret (root_hash c).

Definition access_to_report (c : replay_context H) : string :=
  let index := uint32 (next_access c + 1) in
  let digit := index mod 10 in
  let suffix := if digit =? 1 then "st" else if digit =? 2 then "nd" else if digit =? 3 then "rd" else "th" in
  pretty index +:+ suffix +:+ " access".

(** Throws [std::invalid_argument] with a message about the next access. *)
Definition report {A} (f : string -> string) : M (replay_context H) A :=
  c ← get;
  throw (invalid_argument (f (access_to_report c))).

Definition check_access (text : string) : M (replay_context H) (access H) :=
  c ← get;
  if Z.of_nat (length (accesses c)) <=? next_access c then
    report (fun r => "log is missing access " +:+ r +:+ " to " +:+ text)
  else
    match accesses c !! Z.to_nat (next_access c) with
    | Some a => mret a
    | None => report (fun r => "log is missing access " +:+ r +:+ " to " +:+ text)
    end.

Definition check_access_type (a : access H) (type : access_type) (text : string) : M (replay_context H) unit :=
  if negb (bool_decide (m_type a = type)) then
    report (fun r => "expected " +:+ r +:+ " to " +:+ access_type_name type +:+ " " +:+ text)
  else if bool_decide (type = access_read) then
    if bool_decide (is_Some (m_written a)) then
      report (fun r => "unexpected written data in " +:+ r +:+ " read access to " +:+ text)
    else when (bool_decide (is_Some (m_written_hash a)))
      (report (fun r => "unexpected written hash in " +:+ r +:+ " read access to " +:+ text))
  else mret ().

Definition check_access_range (a : access H) (type : access_type) (paddr log2_size : Z) (text : string) : M (replay_context H) unit :=
  if negb (m_address a =? paddr) then
    report (fun r => "expected " +:+ r +:+ " to " +:+ access_type_name type +:+ " " +:+ text +:+
                     " " +:+ at_address paddr)
  else when (negb (m_log2_size a =? int32 log2_size))
    (report (fun r => "expected " +:+ r +:+ " to " +:+ text +:+ " to " +:+ access_type_name type +:+
                      " 2^" +:+ pretty log2_size +:+ " bytes")).

Definition check_access_siblings_and_read_hash (a : access H) (text : string) : M (replay_context H) (hash_tree_proof H) :=
  c ← get;
  proof ← lift (make_proof a (root_hash c));
  ok ← lift (verify proof);
  if negb ok then
    report (fun r => "siblings and read hash do not match root hash before " +:+ r +:+ " to " +:+ text)
  else mret proof.

Definition check_written_hash (a : access H) (expected_hash : H) (text : string) : M (replay_context H) H :=
  match m_written_hash a with
  | None => report (fun r => "missing written hash of " +:+ text +:+ " in " +:+ r)
  | Some h =>
      if negb (bool_decide (h = expected_hash)) then
        report (fun r => "written hash for " +:+ text +:+ " does not match expected hash in " +:+ r)
      else mret h
  end.

Definition check_read_data (a : access H) (text : string) : M (replay_context H) (list Z) :=
  match m_read a with
  | None => report (fun r => "missing read data for " +:+ text +:+ " in " +:+ r)
  | Some d =>
      computed_read_hash ← lift (get_hash d);
      if negb (bool_decide (m_read_hash a = computed_read_hash)) then
        report (fun r => "read data for " +:+ text +:+ " does not match read hash in " +:+ r)
      else mret d
  end.

Definition check_written_data_if_there (a : access H) (written_hash : H) (text : string) : M (replay_context H) unit :=
  match m_written a with
  | None => mret ()
  | Some d =>
      h ← lift (get_hash d);
      when (negb (bool_decide (written_hash = h)))
        (report (fun r => "written data for " +:+ text +:+ " does not match written hash in " +:+ r))
  end.

Definition check_read_data_if_there (a : access H) (text : string) : M (replay_context H) unit :=
  match m_read a with
  | None => mret ()
  | Some d =>
      h ← lift (get_hash d);
      when (negb (bool_decide (m_read_hash a = h)))
        (report (fun r => "read data for " +:+ text +:+ " does not match read hash in " +:+ r))
  end.

Definition update_root_hash (proof : hash_tree_proof H) (written_hash : H) : M (replay_context H) unit :=
  h ← lift (bubble_up proof written_hash);
  modify (fun c => {| accesses := accesses c; next_access := next_access c; root_hash := h |}).

(** [m_context.next_access++], on an [unsigned int]. *)
Definition consume_access : M (replay_context H) unit :=
  modify (fun c => {| accesses := accesses c; next_access := uint32 (next_access c + 1);
                      root_hash := root_hash c |}).

Definition check_write_access (paddr log2_size : Z) (expected_hash : H) (text : string) : M (replay_context H) unit :=
  a ← check_access text;
  check_access_type a access_write text ;;
  check_access_range a access_write paddr log2_size text ;;
  proof ← check_access_siblings_and_read_hash a text;
  written_hash ← check_written_hash a expected_hash text;
  check_read_data_if_there a text ;;
  check_written_data_if_there a written_hash text ;;
  update_root_hash proof written_hash ;;
  consume_access.

Definition check_write_word_access (paddr val : Z) (text : string) : M (replay_context H) unit :=
  let log2_size := log2_size_uint64 in
  a ← check_access text;
  check_access_type a access_write text ;;
  check_access_range a access_write paddr log2_size text ;;
  proof ← check_access_siblings_and_read_hash a text;
  written_data ← check_read_data a text;
  let '(paddr, access_paddr, _) := adjust_access paddr log2_size in
  let val_offset := uint64 (paddr - access_paddr) in
  written_data ← lift (replace_word_access_data val written_data val_offset);
  expected_hash ← lift (get_hash written_data);
  written_hash ← check_written_hash a expected_hash text;
  check_written_data_if_there a written_hash text ;;
  update_root_hash proof written_hash ;;
  consume_access.

Definition check_write_reg_access (what val : Z) : M (replay_context H) unit :=
  check_write_word_access (shadow_uarch_state_get_what_address what) val
    (shadow_uarch_state_get_what_name what).

Definition check_read_word_access (paddr : Z) (text : string) : M (replay_context H) Z :=
  let log2_size := log2_size_uint64 in
  a ← check_access text;
  check_access_type a access_read text ;;
  check_access_range a access_read paddr log2_size text ;;
  check_access_siblings_and_read_hash a text ;;
  read_data ← check_read_data a text;
  let '(paddr, access_paddr, _) := adjust_access paddr log2_size in
  let val_offset := uint64 (paddr - access_paddr) in
  val ← lift (get_word_access_data read_data val_offset);
  consume_access ;;
  mret val.

Definition check_read_reg_access (what : Z) : M (replay_context H) Z :=
  check_read_word_access (shadow_uarch_state_get_what_address what) (shadow_uarch_state_get_what_name what).

Definition get_write_tlb_slot_hash (vaddr_page vp_offset pma_index : Z) : outcome H :=
  get_merkle_tree_hash (shadow_tlb_slot_bytes (shadow_tlb_fill_slot vaddr_page vp_offset pma_index))
    HASH_TREE_WORD_SIZE.

Definition replay_write_tlb (set_index slot_index vaddr_page vp_offset pma_index : Z) : M (replay_context H) unit :=
  let slot_paddr := shadow_tlb_get_abs_addr set_index slot_index in
  slot_hash ← lift (get_write_tlb_slot_hash vaddr_page vp_offset pma_index);
  check_write_access slot_paddr SHADOW_TLB_SLOT_LOG2_SIZE slot_hash "tlb.slot".

Definition replay_reset_uarch : M (replay_context H) unit :=
  check_write_access UARCH_STATE_START_ADDRESS UARCH_STATE_LOG2_SIZE get_uarch_pristine_state_hash
    "uarch.state".

Definition check_read_revert_root_hash_access : M (replay_context H) H :=
  let text := "revert root hash" in
  a ← check_access text;
  check_access_type a access_read text ;;
  check_access_range a access_read AR_SHADOW_REVERT_ROOT_HASH_START HASH_TREE_LOG2_WORD_SIZE text ;;
  check_access_siblings_and_read_hash a text ;;
  read_data ← check_read_data a text;
  if negb (Z.of_nat (length read_data) =? HASH_TREE_WORD_SIZE) then
    report (fun r => "read data for " +:+ text +:+ " has wrong size in " +:+ r)
  else
    consume_access ;;
    mret (machine_hash_of_bytes read_data).

Definition replay_revert_state : M (replay_context H) unit :=
  h ← check_read_revert_root_hash_access;
  modify (fun c => {| accesses := accesses c; next_access := next_access c; root_hash := h |}).

#[export] Instance replay_access : IUarchStateAccess (replay_context H) := {
  read_uarch_x i := check_read_reg_access (shadow_uarch_state_get_what_i shadow_uarch_state_what.uarch_x0 i);
  write_uarch_x i v := check_write_reg_access (shadow_uarch_state_get_what_i shadow_uarch_state_what.uarch_x0 i) v;
  read_uarch_pc := check_read_reg_access shadow_uarch_state_what.uarch_pc;
  write_uarch_pc v := check_write_reg_access shadow_uarch_state_what.uarch_pc v;
  read_uarch_cycle := check_read_reg_access shadow_uarch_state_what.uarch_cycle;
  write_uarch_cycle v := check_write_reg_access shadow_uarch_state_what.uarch_cycle v;
  read_uarch_halt_flag := check_read_reg_access shadow_uarch_state_what.uarch_halt_flag;
  write_uarch_halt_flag v := check_write_reg_access shadow_uarch_state_what.uarch_halt_flag v;
  read_word p := check_read_word_access p (get_address_name p);
  write_word p v := check_write_word_access p v (get_address_name p);
  uarch_putchar c := mret false;
  write_tlb i j x y z := replay_write_tlb i j x y z;
  reset_uarch := replay_reset_uarch;
  revert_state := replay_revert_state
}.
End replay.

(** ** machine::verify_step_uarch, machine::verify_reset_uarch (src/machine.cpp) *)
Section verify.
Context {cfg : BuildConfig} `{IHasher H} (get_uarch_pristine_state_hash : H).

Definition initial_context (log : list (access H)) (root_hash_before : H) : replay_context H :=
  {| accesses := log; next_access := 0; root_hash := root_hash_before |}.

(** The common end of the two: the root hash reached, checked when one is expected. *)
Definition check_root_hash_after (obtained_root_hash : H) (root_hash_after : option H) : M (replay_context H) H :=
  match root_hash_after with
  | Some h => if bool_decide (obtained_root_hash = h) then mret obtained_root_hash
              else throw (invalid_argument "mismatch in root hash after replay")
  | None => mret obtained_root_hash
  end.

Definition verify_step_uarch (root_hash_before : H) (log : list (access H)) (root_hash_after : option H) : outcome H :=
  fst ((@uarch_step cfg _ (replay_access get_uarch_pristine_state_hash) ;;
        obtained_root_hash ← finish;
        check_root_hash_after obtained_root_hash root_hash_after)
       (initial_context log root_hash_before)).

Definition verify_reset_uarch (root_hash_before : H) (log : list (access H)) (root_hash_after : option H) : outcome H :=
  fst ((@uarch_reset_state _ (replay_access get_uarch_pristine_state_hash) ;;
        obtained_root_hash ← finish;
        check_root_hash_after obtained_root_hash root_hash_after)
       (initial_context log root_hash_before)).
End verify.
