(* ===== verification/ReplaySound.v ===== *)
(** * Soundness of the replay

    A replay that accepts a log computes the root hash of what the stepper
    does to the memory with the root hash it started from.  Each access with
    its complete list of siblings is checked against the tree of the memory,
    so a replayed read returns the word of the memory and a replayed write
    moves the root hash to that of the updated memory. *)

From S2P Require Import Prelude Htif Shadow SolidityCompat UarchStep UarchSim HashTree Memory AccessLog UarchReplay.

(** ** Inversion of the checks *)
Section checks.
Context `{IHasher H}.
Implicit Types (a : access H) (s : replay_context H).

Lemma report_Ret {A} f s (x : A) s' : report f s = (Ret x, s') -> False.
Proof. done. Qed.

Lemma when_report_Ret c f s x s' :
  when c (@report H () f) s = (Ret x, s') -> c = false /\ s' = s.
Proof. unfold when. destruct c; [by intros ?%report_Ret|]. by intros [= <- <-]. Qed.

Lemma check_access_Ret text s a s' :
  check_access text s = (Ret a, s') -> s' = s /\ a ∈ accesses s.
Proof.
  intros E. apply bind_Ret_inv in E as (c & s1 & [= <- <-] & E).
  destruct (_ <=? _); [done|].
  destruct (accesses s !! _) eqn:Hl; [|done]. injection E as -> ->.
  split; [done|]. by apply list_elem_of_lookup_2 in Hl.
Qed.

Lemma check_access_type_Ret a type text s x s' :
  check_access_type a type text s = (Ret x, s') -> s' = s.
Proof.
  unfold check_access_type. repeat case_match; try done.
  - by intros []%when_report_Ret.
  - by intros [= _ ->].
Qed.

Lemma check_access_range_Ret a type paddr log2_size text s x s' :
  check_access_range a type paddr log2_size text s = (Ret x, s') ->
  s' = s /\ m_address a = paddr /\ m_log2_size a = int32 log2_size.
Proof.
  unfold check_access_range. destruct (m_address a =? paddr) eqn:Ea; [|done].
  intros [? ->]%when_report_Ret. split; [done|lia].
Qed.

Lemma check_written_hash_Ret a h text s x s' :
  check_written_hash a h text s = (Ret x, s') -> s' = s /\ x = h.
Proof.
  unfold check_written_hash. destruct (m_written_hash a); [|done].
  case_bool_decide as E; [|done]. subst. by intros [= -> ->].
Qed.

Lemma check_written_data_if_there_Ret a h text s x s' :
  check_written_data_if_there a h text s = (Ret x, s') -> s' = s.
Proof.
  unfold check_written_data_if_there. destruct (m_written a) as [d|]; [|by intros [= _ ->]].
  intros E. inv_bind E. unfold lift in Hm. apply when_report_Ret in Hk as [_ ->]. congruence.
Qed.

Lemma check_read_data_if_there_Ret a text s x s' :
  check_read_data_if_there a text s = (Ret x, s') -> s' = s.
Proof.
  unfold check_read_data_if_there. destruct (m_read a) as [d|]; [|by intros [= _ ->]].
  intros E. inv_bind E. unfold lift in Hm. apply when_report_Ret in Hk as [_ ->]. congruence.
Qed.

Lemma get_hash_word d : length d = 32%nat -> get_hash d = Ret (hash d).
Proof.
  intros Hd. apply get_merkle_tree_hash_leaf. by rewrite Hd.
Qed.

Lemma check_read_data_Ret a text s d s' :
  check_read_data a text s = (Ret d, s') ->
  s' = s /\ m_read a = Some d /\ (length d = 32%nat -> m_read_hash a = hash d).
Proof.
  unfold check_read_data. destruct (m_read a) as [d'|]; [|done].
  intros E. inv_bind E. unfold lift in Hm. injection Hm as Hm <-.
  case_bool_decide as Eh; [|done]. injection Hk as <- <-.
  split; [done|]. split; [done|]. intros Hl. rewrite get_hash_word in Hm by done. congruence.
Qed.

(** The accesses of a log that lists every sibling. *)
Definition access_ok a : Prop := is_u 64 (m_address a) /\ full_siblings a.

(** The node of the tree an access is about. *)
Definition access_height (log2_size : Z) : nat := Z.to_nat (Z.max log2_size 5 - 5).
Definition access_node (paddr log2_size : Z) : Z := paddr / 2 ^ Z.max log2_size 5.

Lemma check_siblings_sound `{!CollisionFree H} a text s p s' m :
  check_access_siblings_and_read_hash a text s = (Ret p, s') ->
  root_hash s = root_hash_of m -> access_ok a -> 0 <= m_log2_size a <= 64 ->
  let n := access_height (m_log2_size a) in
  let i := access_node (m_address a) (m_log2_size a) in
  s' = s /\ m_read_hash a = node (leaf m) n i /\
  (forall d, m_read a = Some d -> m_log2_size a <= 5 -> length d = 32%nat) /\
  (forall m', (forall j, ~ in_node n i j -> leaf m j = leaf m' j) ->
     bubble_up p (node (leaf m') n i) = Ret (root_hash_of m')).
Proof.
  intros E Hroot [Ha Hs] Hl n i. unfold check_access_siblings_and_read_hash in E.
  apply bind_Ret_inv in E as (c & s1 & [= <- <-] & E).
  inv_bind E. unfold lift in Hm. injection Hm as Hm <-.
  inv_bind Hk. unfold lift in Hm0. injection Hm0 as Hv <-.
  destruct a1; [|done]. injection Hk0 as -> ->.
  destruct (make_proof_wf a (root_hash s') p Hm Ha Hl Hs)
    as (Hwf & Ht & Hr & Hta & Hth & Hrh & Hsibs & Hsize & _).
  pose proof Hwf as (_ & Htr & _ & _ & Hlen).
  assert (Hi : m_target_address p / 2 ^ m_log2_target_size p = i).
  { rewrite Hta, Ht. apply proof_address_div; [done|lia]. }
  assert (Hn : (n + length (m_sibling_hashes p))%nat = TREE_DEPTH).
  { rewrite TREE_DEPTH_value. unfold n, access_height. lia. }
  assert (Hz : i / 2 ^ Z.of_nat (length (m_sibling_hashes p)) = 0).
  { unfold i, access_node. rewrite Hlen, Hr, Ht, Z.div_div, <-Z.pow_add_r by
      (try apply pow2_pos; try (apply Z.pow_nonzero); lia).
    apply Z.div_small. unfold is_u in Ha.
    replace (Z.max (m_log2_size a) 5 + (64 - Z.max (m_log2_size a) 5)) with 64 by lia. lia. }
  rewrite verify_spec in Hv by done. injection Hv as Hv%bool_decide_eq_true.
  rewrite Hi, Hth, Hrh, Hroot in Hv. unfold root_hash_of in Hv. rewrite <-Hn, <-Hz in Hv.
  apply fold_up_inj in Hv as [Hread Hsib].
  split; [done|]. split; [done|]. split.
  - intros d Hd Hl5. apply inconsistent_size_word. rewrite <-Hd.
    replace 5 with (m_log2_target_size p) by lia. done.
  - intros m' Hm'. rewrite bubble_up_spec, Hi, Hsib, (fold_up_update _ (leaf m')) by done.
    unfold root_hash_of. by rewrite Hn, Hz.
Qed.
End checks.

(** ** Words within hash tree words *)

Lemma word_index_leaf p : word_index p / 4 = p / 2 ^ 5.
Proof. unfold word_index. rewrite Z.shiftr_div_pow2, Z.div_div by lia. done. Qed.

Lemma adjust_access_word p :
  is_u 64 p ->
  exists k, 0 <= k < 4 /\ word_index p = 4 * (p / 2 ^ 5) + k /\
    forall paddr access_paddr sz, adjust_access p log2_size_uint64 = (paddr, access_paddr, sz) ->
      uint64 (paddr - access_paddr) = 8 * k.
Proof.
  intros Hp. exists ((p / 8) mod 4).
  assert (Hw : word_index p = p / 8) by (unfold word_index; by rewrite Z.shiftr_div_pow2).
  assert (Hd : p / 2 ^ 5 = p / 8 / 4) by (by rewrite Z.div_div).
  pose proof (Z.mod_pos_bound (p / 8) 4 ltac:(lia)).
  rewrite Hw, Hd. split; [done|]. split; [apply Z.div_mod; lia|].
  intros paddr access_paddr sz E. unfold adjust_access, log2_size_uint64, HASH_TREE_LOG2_WORD_SIZE in E.
  rewrite !align_down in E by lia. change (Z.max 3 5) with 5 in E. injection E as <- <- _.
  change (2 ^ 3) with 8. change (2 ^ 5) with 32.
  assert (p / 8 * 8 / 32 = p / 8 / 4) as -> by (change 32 with (8 * 4); by rewrite <-Z.div_div, Z.div_mul by lia).
  pose proof (Z.div_mod (p / 8) 4 ltac:(lia)).
  unfold uint64. rewrite uwrap_small by (unfold is_u; lia). lia.
Qed.

Section replay_sim.
Context {cfg : BuildConfig} `{CollisionFree H}.
Context (get_uarch_pristine_state_hash : H) (pristine : memory).

#[local] Existing Instance replay_access.
#[local] Existing Instance spec_access.

Definition replays (c : replay_context H) (m : memory) : Prop :=
  root_hash c = root_hash_of m /\ Forall access_ok (accesses c).

Lemma sim_intro {A} (m1 : M (replay_context H) A) (m2 : M memory A) :
  (forall c m a c', replays c m -> m1 c = (Ret a, c') -> exists m', m2 m = (Ret a, m') /\ replays c' m') ->
  sim (fun _ => True) replays m1 m2.
Proof. intros Hs. split; [done|]. intros c m a c' HR E _. by eapply Hs. Qed.

Lemma replays_consume c m :
  replays c m ->
  replays {| accesses := accesses c; next_access := uint32 (next_access c + 1); root_hash := root_hash c |} m.
Proof. done. Qed.

(** The first checks of every access leave the context alone. *)
Lemma check_access_chain {A} text type paddr log2_size (k : access H -> M (replay_context H) A) c m x c' :
  (a ← check_access text;
   check_access_type a type text ;;
   check_access_range a type paddr log2_size text ;; k a) c = (Ret x, c') ->
  replays c m ->
  exists a, access_ok a /\ is_u 64 paddr /\ m_address a = paddr /\ m_log2_size a = int32 log2_size /\
    k a c = (Ret x, c').
Proof.
  intros E HR. inv_bind E. apply check_access_Ret in Hm as [-> Hin].
  inv_bind Hk. apply check_access_type_Ret in Hm as ->.
  inv_bind Hk0. apply check_access_range_Ret in Hm as (-> & Hpaddr & Hl).
  destruct HR as [_ HF]. rewrite Forall_forall in HF. pose proof (HF a Hin) as Hok.
  exists a. pose proof (proj1 Hok). by rewrite <-Hpaddr.
Qed.

Lemma sim_check_read_word_access paddr text :
  sim (fun _ => True) replays (check_read_word_access paddr text) (gets (fun m => mem_read m paddr)).
Proof.
  apply sim_intro. intros c m v c' HR E. unfold check_read_word_access in E.
  apply (check_access_chain _ _ _ _ _ _ m) in E as (a & Hok & Hpaddr & Ha & Hl & E); [|done].
  inv_bind E. change (int32 log2_size_uint64) with 3 in Hl.
  destruct HR as [Hroot HF].
  apply (check_siblings_sound _ _ _ _ _ m) in Hm as (-> & Hread & Hsz & _); [|done..|lia].
  inv_bind Hk. apply check_read_data_Ret in Hm as (-> & Hdata & Hh).
  rewrite (Hh (Hsz _ Hdata ltac:(lia))) in Hread.
  rewrite Hl, Ha in Hread. change (access_height 3) with O in Hread. simpl in Hread.
  apply hash_word_inj in Hread as ->; [|by apply (Hsz _ Hdata); lia|apply length_leaf_bytes].
  destruct (adjust_access_word paddr Hpaddr) as (k & Hk & Hw & Hoff).
  destruct (adjust_access paddr _) as [[paddr' access_paddr] sz]. rewrite (Hoff _ _ _ eq_refl) in Hk0.
  unfold access_node in Hk0. change (Z.max 3 5) with 5 in Hk0.
  rewrite get_word_access_data_leaf in Hk0 by done. injection Hk0 as <- <-.
  exists m. unfold gets, mem_read. rewrite Hw. done.
Qed.

(** A write to the node of an access moves the root hash with the memory. *)
Lemma replays_update c m m' proof h c' x n i :
  replays c m ->
  (update_root_hash proof h ;; consume_access) c = (Ret x, c') ->
  (forall j, ~ in_node n i j -> leaf m j = leaf m' j) ->
  (forall m', (forall j, ~ in_node n i j -> leaf m j = leaf m' j) ->
     bubble_up proof (node (leaf m') n i) = Ret (root_hash_of m')) ->
  h = node (leaf m') n i -> replays c' m'.
Proof.
  intros [_ HF] E Hm' Hb ->. unfold update_root_hash in E. inv_bind E. inv_bind Hm.
  unfold lift in Hm0. rewrite Hb in Hm0 by done. injection Hm0 as <- <-.
  injection Hk0 as _ <-. injection Hk as _ <-. by split.
Qed.

Lemma sim_check_write_word_access paddr v text :
  sim (fun _ => True) replays (check_write_word_access paddr v text) (modify (mem_write paddr v)).
Proof.
  apply sim_intro. intros c m [] c' HR E. unfold check_write_word_access in E.
  apply (check_access_chain _ _ _ _ _ _ m) in E as (a & Hok & Hpaddr & Ha & Hl & E); [|done].
  inv_bind E. change (int32 log2_size_uint64) with 3 in Hl.
  pose proof HR as [Hroot HF].
  apply (check_siblings_sound _ _ _ _ _ m) in Hm as (-> & Hread & Hsz & Hb); [|done..|lia].
  inv_bind Hk. apply check_read_data_Ret in Hm as (-> & Hdata & Hh).
  rewrite (Hh (Hsz _ Hdata ltac:(lia))) in Hread.
  rewrite Hl, Ha in Hread, Hb. change (access_height 3) with O in Hread, Hb. simpl in Hread.
  apply hash_word_inj in Hread as ->; [|by apply (Hsz _ Hdata); lia|apply length_leaf_bytes].
  destruct (adjust_access_word paddr Hpaddr) as (k & Hk & Hw & Hoff).
  destruct (adjust_access paddr _) as [[paddr' access_paddr] sz]. rewrite (Hoff _ _ _ eq_refl) in Hk0.
  unfold access_node in *. change (Z.max 3 5) with 5 in *.
  rewrite replace_word_access_data_leaf in Hk0 by done. rewrite <-Hw in Hk0.
  inv_bind Hk0. injection Hm as <- <-. inv_bind Hk1.
  unfold lift in Hm. rewrite get_hash_word in Hm by apply length_leaf_bytes. injection Hm as <- <-.
  inv_bind Hk0. apply check_written_hash_Ret in Hm as [-> ->].
  inv_bind Hk1. apply check_written_data_if_there_Ret in Hm as ->.
  exists (mem_write paddr v m). split; [done|].
  eapply (replays_update _ _ _ _ _ _ _ 0 (paddr / 2 ^ 5)); [done..| |exact Hb|done].
  intros j Hj. symmetry. apply leaf_write_ne. rewrite word_index_leaf. contradict Hj.
  unfold in_node. by rewrite Z.div_1_r.
Qed.

(** Whole-node writes, the written hash being that of the node in [m']. *)
Lemma sim_check_write_access paddr log2_size h text (f : memory -> memory) :
  5 <= log2_size <= 64 ->
  (forall m, h = node (leaf (f m)) (access_height log2_size) (access_node paddr log2_size)) ->
  (forall m j, ~ in_node (access_height log2_size) (access_node paddr log2_size) j -> leaf m j = leaf (f m) j) ->
  sim (fun _ => True) replays (check_write_access paddr log2_size h text) (modify f).
Proof.
  intros Hl2 Hh Hf. apply sim_intro. intros c m [] c' HR E. unfold check_write_access in E.
  apply (check_access_chain _ _ _ _ _ _ m) in E as (a & Hok & Hpaddr & Ha & Hl & E); [|done].
  assert (Hint : int32 log2_size = log2_size) by (apply swrap_small; [lia|]; unfold is_s; lia).
  rewrite Hint in Hl. inv_bind E. pose proof HR as [Hroot HF].
  apply (check_siblings_sound _ _ _ _ _ m) in Hm as (-> & _ & _ & Hb); [|done..|lia].
  inv_bind Hk. apply check_written_hash_Ret in Hm as [-> ->].
  inv_bind Hk0. apply check_read_data_if_there_Ret in Hm as ->.
  inv_bind Hk. apply check_written_data_if_there_Ret in Hm as ->.
  rewrite Hl, Ha in Hb.
  exists (f m). split; [done|]. eapply replays_update; [done..|by apply Hf|exact Hb|apply Hh].
Qed.

Lemma sim_replay_write_tlb i j x y z :
  sim (fun _ => True) replays (replay_write_tlb i j x y z) (modify (mem_write_tlb i j x y z)).
Proof.
  unfold replay_write_tlb, get_write_tlb_slot_hash.
  rewrite get_merkle_tree_hash_leaf by (unfold shadow_tlb_slot_bytes; by rewrite !length_app, !length_le_bytes8).
  change (lift (Ret ?h) ≫= ?k) with (k h). cbv beta.
  change SHADOW_TLB_SLOT_LOG2_SIZE with 5.
  apply sim_check_write_access; [lia|..]; change (access_height 5) with O; unfold access_node;
    change (Z.max 5 5) with 5; cbn [node].
  - intros m. by rewrite leaf_write_tlb.
  - intros m w Hne. symmetry. apply leaf_write_tlb_ne. contradict Hne. subst.
    unfold in_node. by rewrite Z.div_1_r.
Qed.

#[export] Instance replay_simulation :
  UarchSimulation (replay_access get_uarch_pristine_state_hash) (spec_access pristine) (fun _ => True) replays.
Proof.
  split; intros.
  - apply (sim_check_read_word_access _ _).
  - apply (sim_check_write_word_access _ _ _).
  - apply (sim_check_read_word_access _ _).
  - apply (sim_check_write_word_access _ _ _).
  - apply (sim_check_read_word_access _ _).
  - apply (sim_check_write_word_access _ _ _).
  - apply (sim_check_read_word_access _ _).
  - apply (sim_check_write_word_access _ _ _).
  - apply (sim_check_read_word_access _ _).
  - apply (sim_check_write_word_access _ _ _).
  - apply (sim_ret _ _ false).
  - apply (sim_replay_write_tlb _ _ _ _ _).
Qed.

(** *** Reset *)

(** The generated hash is that of the generated contents. *)
Definition pristine_hash_ok : Prop :=
  get_uarch_pristine_state_hash =
    node (leaf pristine) (access_height UARCH_STATE_LOG2_SIZE)
      (access_node UARCH_STATE_START_ADDRESS UARCH_STATE_LOG2_SIZE).

Lemma word_at_reset m w :
  word_at (mem_reset_uarch pristine m) w =
    if decide (in_uarch_state w) then word_at pristine w else word_at m w.
Proof.
  unfold word_at, mem_reset_uarch. rewrite lookup_union, !map_lookup_filter.
  destruct (decide (in_uarch_state w)) as [Hd|Hd];
    destruct (pristine !! w), (m !! w); cbn [mbind option_bind];
    by rewrite ?(option_guard_True (in_uarch_state w)), ?(option_guard_False (in_uarch_state w)),
      ?(option_guard_True (~ in_uarch_state w)), ?(option_guard_False (~ in_uarch_state w)) by (simpl; auto).
Qed.

Lemma in_uarch_state_leaf j k :
  0 <= k < 4 -> in_uarch_state (4 * j + k) <->
    in_node (access_height UARCH_STATE_LOG2_SIZE) (access_node UARCH_STATE_START_ADDRESS UARCH_STATE_LOG2_SIZE) j.
Proof.
  intros Hk. unfold in_uarch_state, in_node, UARCH_STATE_LOG2_SIZE.
  rewrite !Z.shiftr_div_pow2 by lia. change (Z.of_nat (access_height 22)) with 17.
  change (access_node UARCH_STATE_START_ADDRESS 22) with 1.
  change (UARCH_STATE_START_ADDRESS / 2 ^ 22) with 1. change (2 ^ (22 - 3)) with (4 * 2 ^ 17).
  rewrite <-Z.div_div by lia.
  assert ((4 * j + k) / 4 = j) as -> by (symmetry; apply Z.div_unique with k; lia). done.
Qed.

Lemma sim_replay_reset_uarch :
  pristine_hash_ok ->
  sim (fun _ => True) replays (replay_reset_uarch get_uarch_pristine_state_hash) (modify (mem_reset_uarch pristine)).
Proof.
  intros Hp. apply sim_check_write_access; [by unfold UARCH_STATE_LOG2_SIZE; lia|..].
  - intros m. rewrite Hp. apply node_ext. intros j Hj. apply leaf_ext. intros k Hk.
    rewrite word_at_reset, decide_True; [done|]. by apply in_uarch_state_leaf.
  - intros m j Hj. apply leaf_ext. intros k Hk.
    rewrite word_at_reset, decide_False; [done|]. by rewrite in_uarch_state_leaf.
Qed.
End replay_sim.

(** ** Soundness of the verifiers *)
Section soundness.
Context {cfg : BuildConfig} `{CollisionFree H}.
Context (get_uarch_pristine_state_hash : H) (pristine : memory).

Let spec_step : M memory UArchStepStatus := @uarch_step cfg memory (spec_access pristine).

Lemma replays_initial log m :
  Forall access_ok log -> replays (initial_context log (root_hash_of m)) m.
Proof. by split. Qed.

(** The end of a verifier returns the root hash of the context. *)
Lemma verify_end_Ret c after r c' :
  (obtained_root_hash ← finish; check_root_hash_after obtained_root_hash after) c = (Ret r, c') ->
  r = root_hash c /\ (forall h, after = Some h -> r = h) /\ next_access c = Z.of_nat (length (accesses c)).
Proof.
  intros E. inv_bind E. unfold finish in Hm. apply bind_Ret_inv in Hm as (c1 & s1 & [= <- <-] & Hm).
  destruct (next_access c =? _) eqn:En; [|done]. injection Hm as <- <-.
  unfold check_root_hash_after in Hk. destruct after as [h|].
  - case_bool_decide as Hh; [|done]. injection Hk as <- <-. split; [done|]. split; [|lia].
    intros ? [= <-]. done.
  - injection Hk as <- <-. split; [done|]. split; [done|lia].
Qed.

(** What an accepted step log proves: the root hash obtained is that of the
    memory after one step of the stepper. *)
Lemma verify_step_replay m log after r :
  Forall access_ok log ->
  verify_step_uarch get_uarch_pristine_state_hash (root_hash_of m) log after = Ret r ->
  exists status m', spec_step m = (Ret status, m') /\ r = root_hash_of m' /\
    (forall h, after = Some h -> r = h).
Proof.
  intros Hlog E. unfold verify_step_uarch in E.
  match type of E with fst ?x = _ => destruct x as [o c] eqn:Ec end. simpl in E. subst o.
  apply bind_Ret_inv in Ec as (status & c1 & Estep & Eend).
  apply verify_end_Ret in Eend as (-> & Hafter & _).
  destruct (sim_uarch_step (Hsim := replay_simulation get_uarch_pristine_state_hash pristine)) as [_ Hsim].
  destruct (Hsim _ _ _ _ (replays_initial log m Hlog) Estep I) as (m' & Em & [Hroot _]).
  exists status, m'. done.
Qed.

(** The canonical root hash after a reset: the recorded one when the
    machine has rejected an input. *)
Definition rejected (m : memory) : bool :=
  negb (mem_read m IFLAGS_Y_ADDRESS =? 0) &&
  isYieldedManualWith (mem_read m HTIF_TOHOST_ADDRESS) HTIF_YIELD_MANUAL_REASON_RX_REJECTED.

Definition canonical_root_after_reset (m : memory) : H :=
  let m' := mem_reset_uarch pristine m in
  if rejected m' then
    machine_hash_of_bytes (leaf_bytes m' (access_node AR_SHADOW_REVERT_ROOT_HASH_START HASH_TREE_LOG2_WORD_SIZE))
  else root_hash_of m'.

Lemma replay_read_word p text c m v c' :
  check_read_word_access p text c = (Ret v, c') -> replays c m -> v = mem_read m p /\ replays c' m.
Proof.
  intros E HR. destruct (sim_check_read_word_access p text) as [_ Hs].
  destruct (Hs _ _ _ _ HR E I) as (m' & [= <- <-] & HR'). done.
Qed.

Lemma replay_read_revert_hash c m h c' :
  check_read_revert_root_hash_access c = (Ret h, c') -> replays c m ->
  h = machine_hash_of_bytes (leaf_bytes m (access_node AR_SHADOW_REVERT_ROOT_HASH_START HASH_TREE_LOG2_WORD_SIZE)).
Proof.
  intros E HR. unfold check_read_revert_root_hash_access in E.
  apply (check_access_chain _ _ _ _ _ _ m) in E as (a & Hok & Hpaddr & Ha & Hl & E); [|done].
  change (int32 HASH_TREE_LOG2_WORD_SIZE) with 5 in Hl.
  inv_bind E. destruct HR as [Hroot HF].
  apply (check_siblings_sound _ _ _ _ _ m) in Hm as (-> & Hread & Hsz & _); [|done..|lia].
  inv_bind Hk. apply check_read_data_Ret in Hm as (-> & Hdata & Hh).
  rewrite (Hh (Hsz _ Hdata ltac:(lia))) in Hread. rewrite Hl, Ha in Hread.
  change (access_height 5) with O in Hread. simpl in Hread.
  apply hash_word_inj in Hread as ->; [|by apply (Hsz _ Hdata); lia|apply length_leaf_bytes].
  rewrite length_leaf_bytes in Hk0. inv_bind Hk0. by injection Hk as <- _.
Qed.

Lemma verify_reset_replay m log after r :
  pristine_hash_ok get_uarch_pristine_state_hash pristine -> Forall access_ok log ->
  verify_reset_uarch get_uarch_pristine_state_hash (root_hash_of m) log after = Ret r ->
  r = canonical_root_after_reset m /\ (forall h, after = Some h -> r = h).
Proof.
  intros Hp Hlog E. unfold verify_reset_uarch in E.
  match type of E with fst ?x = _ => destruct x as [o c] eqn:Ec end. simpl in E. subst o.
  apply bind_Ret_inv in Ec as ([] & c1 & Ereset & Eend).
  apply verify_end_Ret in Eend as (-> & Hafter & _). split; [|done]. clear Hafter.
  unfold uarch_reset_state in Ereset. inv_bind Ereset.
  destruct (sim_replay_reset_uarch get_uarch_pristine_state_hash pristine Hp) as [_ Hs].
  destruct (Hs _ _ _ _ (replays_initial log m Hlog) Hm I) as (m' & [= Hm'] & HR); subst m'.
  inv_bind Hk. apply (replay_read_word IFLAGS_Y_ADDRESS _ _ (mem_reset_uarch pristine m)) in Hm0 as [-> HR']; [|done].
  unfold canonical_root_after_reset, rejected.
  destruct (mem_read _ IFLAGS_Y_ADDRESS =? 0); cbn [negb andb when] in *.
  { injection Hk0 as <-. apply HR'. }
  inv_bind Hk0. apply (replay_read_word HTIF_TOHOST_ADDRESS _ _ (mem_reset_uarch pristine m)) in Hm0 as [-> HR'']; [|done].
  destruct (isYieldedManualWith _ _); cbn [negb andb when] in *.
  - inv_bind Hk. apply (replay_read_revert_hash _ _ _ _) in Hm0 as <-; [|done]. by injection Hk0 as <-.
  - injection Hk as <-. apply HR''.
Qed.
End soundness.
