(* ===== verification/UarchRecord.v ===== *)
(** * Running the microarchitecture on a machine

    The direct state access (src/uarch-state-access.hpp) and the recording
    one (src/uarch-record-state-access.hpp), and the machine methods that
    run, log and check a step (src/machine.cpp). *)

From S2P Require Import Prelude Shadow SolidityCompat UarchStep HashTree Memory AccessLog Machine UarchReplay.

Section direct.
Context {cfg : BuildConfig} (uarch_pristine_ram : list Z).

Definition read_contents (paddr : Z) : M machine Z := gets (fun m => mem_read (m_contents m) paddr).
Definition write_contents (paddr val : Z) : M machine unit := modify (set_contents (mem_write paddr val)).

(** uarch_state_access: registers are members of the shadow struct. *)
#[export] Instance direct_access : IUarchStateAccess machine := {
  read_uarch_x i := read_contents (uarch_x_address i);
  write_uarch_x i v := require (negb (i =? 0)) "i != 0" ;; write_contents (uarch_x_address i) v;
  read_uarch_pc := read_contents shadow_uarch_state_what.uarch_pc;
  write_uarch_pc v := write_contents shadow_uarch_state_what.uarch_pc v;
  read_uarch_cycle := read_contents shadow_uarch_state_what.uarch_cycle;
  write_uarch_cycle v := write_contents shadow_uarch_state_what.uarch_cycle v;
  read_uarch_halt_flag := read_contents shadow_uarch_state_what.uarch_halt_flag;
  write_uarch_halt_flag v := write_contents shadow_uarch_state_what.uarch_halt_flag v;
  read_word p := machine_read_word p;
  write_word p v := machine_write_word p v;
  uarch_putchar c := mret false;
  write_tlb i j x y z := write_unverified_tlb i j x y z;
  reset_uarch := machine_reset_uarch uarch_pristine_ram;
  revert_state := mret ()
}.

(** machine::run_uarch; [fuel] bounds the steps run. *)
Definition run_uarch (fuel : nat) (uarch_cycle_end : Z) : M machine (option uarch_interpreter_break_reason) :=
  require_keccak256 ;;
  m ← get;
  if is_unreproducible m then
    throw (runtime_error "microarchitecture cannot be used with unreproducible machines")
  else uarch_interpret fuel uarch_cycle_end.
End direct.

(** ** Recording *)

Record record_state (H : Type) := {
  m_m : machine;
  m_log : access_log H;
  root_hash_after : option H    (* context::root_hash_after, once it is set *)
}.
Arguments m_m {H} _.
Arguments m_log {H} _.
Arguments root_hash_after {H} _.

Section record.
Context `{IHasher H} (uarch_pristine_ram : list Z).

Definition on_machine {A} (k : M machine A) : M (record_state H) A := fun s =>
  let '(o, m) := k (m_m s) in
  (o, {| m_m := m; m_log := m_log s; root_hash_after := root_hash_after s |}).

Definition log_access (a : access H) : M (record_state H) unit :=
  modify (fun s => {| m_m := m_m s; m_log := push_access a (m_log s); root_hash_after := root_hash_after s |}).

Definition set_root_hash_after (h : H) : M (record_state H) unit :=
  modify (fun s => {| m_m := m_m s; m_log := m_log s; root_hash_after := Some h |}).

(** Siblings and target hash of the proof of a node. *)
Definition log_access_siblings_and_read_hash (paddr log2_size : Z) : M (record_state H) (list H * H) :=
  proof ← on_machine (get_proof paddr log2_size HASH_TREE_LOG2_ROOT_SIZE);
  mret (m_sibling_hashes proof, m_target_hash proof).

Definition log_read_data (paddr log2_size : Z) : M (record_state H) (list Z) :=
  on_machine (read_memory paddr (uint64 (Z.shiftl 1 log2_size))).

Definition log_data_if_requested (paddr log2_size : Z) : M (record_state H) (option (list Z)) :=
  s ← get;
  if has_large_data (m_log_type (m_log s)) then
    d ← log_read_data paddr log2_size;
    mret (Some d)
  else mret None.

Definition log_read_word_access (paddr : Z) (text : string) : M (record_state H) Z :=
  let log2_size := log2_size_uint64 in
  let '(aligned, access_paddr, access_log2_size) := adjust_access paddr log2_size in
  '(siblings, read_hash) ← log_access_siblings_and_read_hash access_paddr access_log2_size;
  read_data ← log_read_data access_paddr access_log2_size;
  let val_offset := uint64 (aligned - access_paddr) in
  val ← lift (get_word_access_data read_data val_offset);
  log_access {| m_type := access_read; m_address := paddr; m_log2_size := log2_size;
                m_read := Some read_data; m_read_hash := read_hash;
                m_written := None; m_written_hash := None;
                m_access_sibling_hashes := Some siblings |} ;;
  mret val.

Definition log_read_reg_access (what : Z) : M (record_state H) Z :=
  log_read_word_access (shadow_uarch_state_get_what_address what) (shadow_uarch_state_get_what_name what).

Definition log_write_access (paddr log2_size : Z) (write_and_update : M machine unit) (text : string) : M (record_state H) unit :=
  let '(_, access_paddr, access_log2_size) := adjust_access paddr log2_size in
  '(siblings, read_hash) ← log_access_siblings_and_read_hash access_paddr access_log2_size;
  read_data ← (if log2_size <? HASH_TREE_LOG2_WORD_SIZE then
                 d ← log_read_data access_paddr access_log2_size; mret (Some d)
               else log_data_if_requested access_paddr access_log2_size);
  on_machine write_and_update ;;
  written_hash ← on_machine (get_node_hash access_paddr access_log2_size);
  written_data ← (if log2_size <? HASH_TREE_LOG2_WORD_SIZE then
                    d ← log_read_data access_paddr access_log2_size; mret (Some d)
                  else log_data_if_requested access_paddr access_log2_size);
  log_access {| m_type := access_write; m_address := paddr; m_log2_size := log2_size;
                m_read := read_data; m_read_hash := read_hash;
                m_written := written_data; m_written_hash := Some written_hash;
                m_access_sibling_hashes := Some siblings |}.

(** Writes, then updates the page in the hash tree. *)
Definition and_update_page (write : M machine unit) (paddr : Z) : M machine unit :=
  write ;;
  ok ← update_hash_tree_page paddr;
  if (ok : bool) then mret () else throw (invalid_argument "error updating hash tree").

Definition log_write_reg_access (what val : Z) : M (record_state H) unit :=
  let paddr := shadow_uarch_state_get_what_address what in
  log_write_access paddr log2_size_uint64 (and_update_page (write_reg what val) paddr)
    (shadow_uarch_state_get_what_name what).

Definition record_write_word (paddr val : Z) : M (record_state H) unit :=
  log_write_access paddr log2_size_uint64 (and_update_page (machine_write_word paddr val) paddr)
    (get_address_name paddr).

Definition record_write_tlb (set_index slot_index vaddr_page vp_offset pma_index : Z) : M (record_state H) unit :=
  let slot_paddr := shadow_tlb_get_abs_addr set_index slot_index in
  log_write_access slot_paddr SHADOW_TLB_SLOT_LOG2_SIZE
    (and_update_page (write_unverified_tlb set_index slot_index vaddr_page vp_offset pma_index) slot_paddr)
    "tlb.slot".

Definition record_reset_uarch : M (record_state H) unit :=
  log_write_access UARCH_STATE_START_ADDRESS UARCH_STATE_LOG2_SIZE
    (machine_reset_uarch uarch_pristine_ram ;;
     ok ← update_hash_tree;
     if (ok : bool) then mret () else throw (invalid_argument "error updating hash tree"))
    "uarch.state" ;;
  h ← on_machine get_root_hash;
  set_root_hash_after h.

Definition log_read_revert_root_hash_access : M (record_state H) H :=
  '(siblings, read_hash) ←
    log_access_siblings_and_read_hash AR_SHADOW_REVERT_ROOT_HASH_START HASH_TREE_LOG2_WORD_SIZE;
  read_data ← log_read_data AR_SHADOW_REVERT_ROOT_HASH_START HASH_TREE_LOG2_WORD_SIZE;
  log_access {| m_type := access_read; m_address := AR_SHADOW_REVERT_ROOT_HASH_START;
                m_log2_size := HASH_TREE_LOG2_WORD_SIZE;
                m_read := Some read_data; m_read_hash := read_hash;
                m_written := None; m_written_hash := None;
                m_access_sibling_hashes := Some siblings |} ;;
  mret (machine_hash_of_bytes read_data).

Definition record_revert_state : M (record_state H) unit :=
  h ← log_read_revert_root_hash_access;
  set_root_hash_after h.

#[export] Instance record_access : IUarchStateAccess (record_state H) := {
  read_uarch_x i := log_read_reg_access (uarch_x_address i);
  write_uarch_x i v := log_write_reg_access (uarch_x_address i) v;
  read_uarch_pc := log_read_reg_access shadow_uarch_state_what.uarch_pc;
  write_uarch_pc v := log_write_reg_access shadow_uarch_state_what.uarch_pc v;
  read_uarch_cycle := log_read_reg_access shadow_uarch_state_what.uarch_cycle;
  write_uarch_cycle v := log_write_reg_access shadow_uarch_state_what.uarch_cycle v;
  read_uarch_halt_flag := log_read_reg_access shadow_uarch_state_what.uarch_halt_flag;
  write_uarch_halt_flag v := log_write_reg_access shadow_uarch_state_what.uarch_halt_flag v;
  read_word p := log_read_word_access p (get_address_name p);
  write_word p v := record_write_word p v;
  uarch_putchar c := mret false;
  write_tlb i j x y z := record_write_tlb i j x y z;
  reset_uarch := record_reset_uarch;
  revert_state := record_revert_state
}.
End record.

(** ** machine::log_step_uarch, machine::log_reset_uarch *)
Section log.
Context {cfg : BuildConfig} `{IHasher H} (uarch_pristine_ram : list Z) (get_uarch_pristine_state_hash : H).

(** Runs a recording operation on the machine with a new log. *)
Definition with_log {A} (log_type : access_log_type) (k : M (record_state H) A)
    : M machine (list (access H) * option H) := fun m =>
  let '(o, s) := k {| m_m := m; m_log := {| m_accesses := []; m_log_type := log_type |}; root_hash_after := None |} in
  (match o with
   | Ret _ => Ret (m_accesses (m_log s), root_hash_after s)
   | Throw e => Throw e
   end, m_m s).

Definition log_step_uarch (log_type : access_log_type) : M machine (list (access H)) :=
  m ← get;
  if is_unreproducible m then
    throw (runtime_error "microarchitecture cannot be used with unreproducible machines")
  else
    require_keccak256 ;;
    root_hash_before ← get_root_hash;
    '(log, _) ← with_log log_type (@uarch_step cfg _ (record_access uarch_pristine_ram));
    root_hash_after ← get_root_hash;
    lift (verify_step_uarch get_uarch_pristine_state_hash root_hash_before log (Some root_hash_after)) ;;
    mret log.

Definition log_reset_uarch (log_type : access_log_type) : M machine (list (access H)) :=
  require_keccak256 ;;
  root_hash_before ← get_root_hash;
  '(log, root_hash_after) ← with_log log_type (@uarch_reset_state _ (record_access uarch_pristine_ram));
  lift (verify_reset_uarch get_uarch_pristine_state_hash root_hash_before log root_hash_after) ;;
  mret log.
End log.
