(* ===== verification/RecordSound.v ===== *)
(** * Recorded accesses

    What the recording state access does: it runs the stepper on the
    machine like the specification does on its contents, and it appends to
    the log exactly the accesses that [replays] checks, so that a log it
    records is always accepted. *)

From S2P Require Import Prelude Shadow SolidityCompat UarchStep UarchSim HashTree Memory AccessLog Machine MachineFacts UarchReplay ReplaySound UarchRecord.

Section accesses.
Context `{IHasher H}.

(** The accesses that are logged, in terms of the contents before and after. *)
Definition word_read_access (c : memory) (p : Z) : access H :=
  let i := p / 2 ^ 5 in
  {| m_type := access_read; m_address := p; m_log2_size := log2_size_uint64;
     m_read := Some (leaf_bytes c i); m_read_hash := leaf c i; m_written := None; m_written_hash := None;
     m_access_sibling_hashes := Some (siblings (leaf c) 0 TREE_DEPTH i) |}.

Definition word_write_access (c c' : memory) (p : Z) : access H :=
  let i := p / 2 ^ 5 in
  {| m_type := access_write; m_address := p; m_log2_size := log2_size_uint64;
     m_read := Some (leaf_bytes c i); m_read_hash := leaf c i;
     m_written := Some (leaf_bytes c' i); m_written_hash := Some (leaf c' i);
     m_access_sibling_hashes := Some (siblings (leaf c) 0 TREE_DEPTH i) |}.

(** A hash tree word written as a whole; its data is optional. *)
Definition slot_write_access (large : bool) (c c' : memory) (p : Z) : access H :=
  let i := p / 2 ^ 5 in
  {| m_type := access_write; m_address := p; m_log2_size := SHADOW_TLB_SLOT_LOG2_SIZE;
     m_read := if large then Some (leaf_bytes c i) else None; m_read_hash := leaf c i;
     m_written := if large then Some (leaf_bytes c' i) else None; m_written_hash := Some (leaf c' i);
     m_access_sibling_hashes := Some (siblings (leaf c) 0 TREE_DEPTH i) |}.

Implicit Types (s : record_state H) (c : memory) (m : machine).

Definition with_machine m s : record_state H :=
  {| m_m := m; m_log := m_log s; root_hash_after := root_hash_after s |}.
Definition with_access (a : access H) m s : record_state H :=
  {| m_m := m; m_log := push_access a (m_log s); root_hash_after := root_hash_after s |}.

Definition recording s : Prop := machine_ok (m_m s) /\ tree_ok (m_m s).

Lemma on_machine_run {A} (k : M machine A) s o m :
  k (m_m s) = (o, m) -> on_machine k s = (o, with_machine m s).
Proof. unfold on_machine. by intros ->. Qed.

Lemma on_machine_Ret {A} (k : M machine A) s a s' :
  on_machine k s = (Ret a, s') -> exists m', k (m_m s) = (Ret a, m') /\ s' = with_machine m' s.
Proof. unfold on_machine. destruct (k (m_m s)) as [o m'] eqn:E. intros [= -> <-]. eauto. Qed.

Lemma with_machine_id s : with_machine (m_m s) s = s.
Proof. by destruct s. Qed.

Lemma siblings_equiv c c' n k i : c ≡ c' -> siblings (leaf c) n k i = siblings (leaf c') n k i.
Proof. intros E. apply siblings_ext. intros j _. by rewrite E. Qed.

Lemma adjust_access_small p sz :
  sz = 3 \/ sz = 5 -> is_u 64 p ->
  exists aligned, adjust_access p sz = (aligned, 32 * (p / 2 ^ 5), 5) /\
    0 <= p / 2 ^ 5 < 2 ^ 59.
Proof.
  intros Hsz Hp. unfold adjust_access, HASH_TREE_LOG2_WORD_SIZE.
  rewrite !align_down by lia. replace (Z.max sz 5) with 5 by lia.
  eexists. split.
  - do 2 f_equal. change (2 ^ 5) with 32. rewrite Z.mul_comm. f_equal.
    destruct Hsz as [-> | ->].
    + change 32 with (2 ^ 3 * 4). by rewrite <-!Z.div_div, Z.div_mul by lia.
    + by rewrite Z.div_mul by lia.
  - unfold is_u in Hp. change (2 ^ 5) with 32. split; [apply Z.div_pos; lia|].
    apply Z.div_lt_upper_bound; lia.
Qed.

Lemma aligned_to_slot i : aligned_to (32 * i) 5 = true.
Proof.
  unfold aligned_to. cbn [Z.eqb]. rewrite align_down by lia. change (2 ^ 5) with 32.
  rewrite (Z.mul_comm 32), Z.div_mul by lia. apply Z.eqb_refl.
Qed.

Lemma log_siblings_run i s :
  recording s -> 
  log_access_siblings_and_read_hash (32 * i) 5 s =
    (Ret (siblings (leaf (m_contents (m_m s))) 0 TREE_DEPTH i, leaf (m_contents (m_m s)) i), s).
Proof.
  intros [Hok Ht]. unfold log_access_siblings_and_read_hash.
  assert (E : exists p, get_proof (32 * i) 5 HASH_TREE_LOG2_ROOT_SIZE (m_m s) = (Ret p, m_m s) /\
    m_sibling_hashes p = siblings (leaf (m_contents (m_m s))) 0 TREE_DEPTH i /\
    m_target_hash p = leaf (m_contents (m_m s)) i).
  { unfold get_proof. cbn [Z.ltb Z.compare]. rewrite aligned_to_slot.
    eexists. split; [reflexivity|]. cbn [m_sibling_hashes m_target_hash].
    assert (32 * i / 2 ^ 5 = i) as -> by (change (2 ^ 5) with 32; rewrite Z.mul_comm; by apply Z.div_mul).
    split; [|by apply leaf_proper]. rewrite (siblings_equiv _ (m_contents (m_m s))) by done.
    f_equal. }
  destruct E as (p & E & <- & <-).
  erewrite bind_Ret by (apply on_machine_run, E). by rewrite with_machine_id.
Qed.

Lemma log_read_data_run i s :
  recording s -> 0 <= i < 2 ^ 59 ->
  log_read_data (32 * i) 5 s = (Ret (leaf_bytes (m_contents (m_m s)) i), s).
Proof.
  intros [Hok Ht] Hi. unfold log_read_data. change (uint64 (Z.shiftl 1 5)) with 32.
  erewrite on_machine_run by (by apply read_memory_leaf). by rewrite with_machine_id.
Qed.

Lemma log_read_word_access_Ret p text s v s' :
  recording s -> is_u 64 p -> log_read_word_access p text s = (Ret v, s') ->
  v = mem_read (m_contents (m_m s)) p /\
  s' = with_access (word_read_access (m_contents (m_m s)) p) (m_m s) s.
Proof.
  intros Hs Hp E. unfold log_read_word_access in E.
  destruct (adjust_access_word p Hp) as (k & Hk & Hw & Hoff).
  destruct (adjust_access_small p 3 ltac:(auto) Hp) as (al & Hadj & Hi).
  rewrite (Hoff al (32 * (p / 2 ^ 5)) 5 Hadj) in E || idtac.
  unfold log2_size_uint64 in *. rewrite Hadj in E. cbv beta iota zeta in E.
  erewrite bind_Ret in E by (by apply log_siblings_run). cbv beta iota in E.
  erewrite bind_Ret in E by (by apply log_read_data_run).
  rewrite (Hoff al (32 * (p / 2 ^ 5)) 5 Hadj), get_word_access_data_leaf in E by done.
  injection E as <- <-. split; [|done]. unfold mem_read. by rewrite Hw.
Qed.

Lemma get_node_hash_slot i m : tree_ok m -> get_node_hash (32 * i) 5 m = (Ret (leaf (m_contents m) i), m).
Proof.
  intros Ht. unfold get_node_hash. replace (_ || _) with false by done. rewrite aligned_to_slot. cbn [negb].
  unfold get, mbind, M_bind, mret, M_ret. do 2 f_equal.
  change (Z.to_nat _) with O. cbn [node]. apply leaf_proper; [done|].
  change (2 ^ 5) with 32. rewrite Z.mul_comm. by apply Z.div_mul.
Qed.

Lemma page_of_leaf p i :
  i / 4 = p / 2 ^ 5 -> page_of_word i = page_of_word (word_index (Z.shiftl (Z.shiftr p 12) 12)).
Proof.
  intros E. unfold page_of_word. rewrite !Z.shiftr_div_pow2, word_index_div, Z.shiftl_mul_pow2 by lia.
  change (2 ^ 12) with (512 * 8). rewrite Z.mul_assoc, Z.div_mul, Z.div_mul by lia.
  change (2 ^ 9) with (4 * 128). rewrite <-Z.div_div, E by lia.
  change (512 * 8) with (2 ^ 5 * 128). by rewrite Z.div_div by lia.
Qed.

Lemma and_update_page_Ret f w p m x m' :
  machine_ok m -> tree_ok m ->
  (forall x m', w m = (Ret x, m') -> m' = set_contents f m /\ machine_ok m') ->
  (forall i, i / 4 <> p / 2 ^ 5 -> word_at (f (m_contents m)) i = word_at (m_contents m) i) ->
  and_update_page w p m = (Ret x, m') ->
  m_contents m' = f (m_contents m) /\ machine_ok m' /\ tree_ok m'.
Proof.
  intros Hok Ht Hw Hf E. unfold and_update_page in E. inv_bind E.
  apply Hw in Hm as [-> Hok']. inv_bind Hk.
  apply update_hash_tree_page_Ret in Hm as (-> & Hc & Ht' & ->); [|done|].
  - injection Hk0 as _ <-. split; [done|]. split; [by apply machine_ok_set_ht|done].
  - intros i Hi. apply Hf. contradict Hi. by apply page_of_leaf.
Qed.

Definition small_write_access (sz : Z) (large : bool) c c' p : access H :=
  if sz =? 3 then word_write_access c c' p else slot_write_access large c c' p.

(** Logging a write, given what the write and the update of its page do. *)
Lemma log_write_access_eq c' wu p sz text s :
  sz = 3 \/ sz = 5 -> recording s -> is_u 64 p ->
  (forall x m', wu (m_m s) = (Ret x, m') -> m_contents m' = c' /\ machine_ok m' /\ tree_ok m') ->
  log_write_access p sz wu text s =
    match wu (m_m s) with
    | (Ret _, m') =>
        (Ret (), with_access (small_write_access sz (has_large_data (m_log_type (m_log s)))
                                (m_contents (m_m s)) c' p) m' s)
    | (Throw e, m') => (Throw e, with_machine m' s)
    end.
Proof.
  intros Hsz Hs Hp Hwu. unfold log_write_access.
  destruct (adjust_access_small p sz Hsz Hp) as (al & Hadj & Hi). rewrite Hadj. cbv beta iota zeta.
  erewrite bind_Ret by (by apply log_siblings_run). cbv beta iota.
  set (large := has_large_data (m_log_type (m_log s))) in *.
  assert (Hread : forall s0, recording s0 -> has_large_data (m_log_type (m_log s0)) = large ->
    (if sz <? HASH_TREE_LOG2_WORD_SIZE then
       d ← log_read_data (32 * (p / 2 ^ 5)) 5; mret (Some d)
     else log_data_if_requested (32 * (p / 2 ^ 5)) 5) s0 =
    (Ret (if (sz =? 3) || large then Some (leaf_bytes (m_contents (m_m s0)) (p / 2 ^ 5)) else None), s0)).
  { intros s0 Hs0 Hl. destruct Hsz as [-> | ->];
      cbn [Z.ltb Z.compare HASH_TREE_LOG2_WORD_SIZE Pos.compare Pos.compare_cont Z.eqb Pos.eqb orb].
    - by erewrite bind_Ret by (by apply log_read_data_run).
    - unfold log_data_if_requested. erewrite bind_Ret by reflexivity. rewrite Hl. destruct large; [|done].
      by erewrite bind_Ret by (by apply log_read_data_run). }
  erewrite bind_Ret by (by apply Hread).
  destruct (wu (m_m s)) as [[u|e] m'] eqn:E.
  2:{ unfold mbind, M_bind. by erewrite on_machine_run by exact E. }
  erewrite bind_Ret by (by apply on_machine_run).
  destruct (Hwu u m' eq_refl) as (Hc & Hok & Ht).
  erewrite bind_Ret by (by apply on_machine_run, get_node_hash_slot).
  cbn [m_m with_machine]. erewrite bind_Ret by (by apply Hread).
  unfold log_access, modify, with_access, with_machine, small_write_access. cbn [m_m m_log root_hash_after].
  rewrite Hc. by destruct Hsz as [-> | ->].
Qed.

Lemma log_write_access_Ret f w p sz text s x s' :
  sz = 3 \/ sz = 5 -> recording s -> is_u 64 p ->
  (forall x m', w (m_m s) = (Ret x, m') -> m' = set_contents f (m_m s) /\ machine_ok m') ->
  (forall i, i / 4 <> p / 2 ^ 5 -> word_at (f (m_contents (m_m s))) i = word_at (m_contents (m_m s)) i) ->
  log_write_access p sz (and_update_page w p) text s = (Ret x, s') ->
  exists m', m_contents m' = f (m_contents (m_m s)) /\ machine_ok m' /\ tree_ok m' /\
    s' = with_access (small_write_access sz (has_large_data (m_log_type (m_log s)))
                        (m_contents (m_m s)) (f (m_contents (m_m s))) p) m' s.
Proof.
  intros Hsz Hs Hp Hw Hf E. destruct Hs as [Hok Ht].
  assert (Hwu : forall x m', and_update_page w p (m_m s) = (Ret x, m') ->
    m_contents m' = f (m_contents (m_m s)) /\ machine_ok m' /\ tree_ok m')
    by (intros ? ?; by apply and_update_page_Ret).
  rewrite (log_write_access_eq (f (m_contents (m_m s)))) in E by done.
  destruct (and_update_page w p (m_m s)) as [[u|e] m'] eqn:Eu; [|done].
  injection E as _ <-. destruct (Hwu u m' eq_refl) as (? & ? & ?). by exists m'.
Qed.
End accesses.
