(* ===== verification/ReplayAccepts.v ===== *)
(** * Recorded logs replay

    Completeness of the replay: each access that the recorder logs passes
    the checks of the replay against the root hash of the contents before
    it, and leaves the root hash of the contents after it.  Hence a log
    recorded by a step is accepted by [verify_step_uarch], and
    [log_step_uarch] never fails on its own verification. *)

From S2P Require Import Prelude Shadow SolidityCompat UarchStep UarchSim HashTree Memory AccessLog Machine MachineFacts UarchReplay ReplaySound UarchRecord RecordSound.

Section accepts.
Context `{IHasher H}.
Implicit Types (a : access H) (c : replay_context H) (m : memory).

(** Accesses to one hash tree word, as recorded. *)
Definition leaf_access a m : Prop :=
  let i := m_address a / 2 ^ 5 in
  is_u 64 (m_address a) /\ 0 <= m_log2_size a <= 5 /\
  m_access_sibling_hashes a = Some (siblings (leaf m) 0 TREE_DEPTH i) /\ m_read_hash a = leaf m i /\
  (forall d, m_read a = Some d -> d = leaf_bytes m i) /\
  (forall d, m_written a = Some d -> length d = 32%nat).

Lemma consistent_size d : length d = 32%nat -> inconsistent_size (Some d) 5 = false.
Proof. intros E. unfold inconsistent_size. rewrite E. done. Qed.

Lemma leaf_root_index p : is_u 64 p -> p / 2 ^ 5 / 2 ^ Z.of_nat TREE_DEPTH = 0.
Proof.
  intros Hp. rewrite TREE_DEPTH_value, Z.div_div by lia. apply Z.div_small. exact Hp.
Qed.

Lemma fold_up_leaf m m' p :
  is_u 64 p -> (forall j, j <> p / 2 ^ 5 -> leaf m j = leaf m' j) ->
  fold_up (siblings (leaf m) 0 TREE_DEPTH (p / 2 ^ 5)) (p / 2 ^ 5) (leaf m' (p / 2 ^ 5)) = root_hash_of m'.
Proof.
  intros Hp Hm'. pose proof (fold_up_update (leaf m) (leaf m') 0 TREE_DEPTH (p / 2 ^ 5)) as E.
  rewrite leaf_root_index in E by done. unfold root_hash_of.
  apply E. intros j Hj. apply Hm'. contradict Hj. unfold in_node. by rewrite Z.div_1_r.
Qed.

Lemma check_siblings_run a text c m :
  leaf_access a m -> root_hash c = root_hash_of m ->
  exists p, check_access_siblings_and_read_hash a text c = (Ret p, c) /\
    forall m', (forall j, j <> m_address a / 2 ^ 5 -> leaf m j = leaf m' j) ->
      bubble_up p (leaf m' (m_address a / 2 ^ 5)) = Ret (root_hash_of m').
Proof.
  intros (Hu & Hsz & Hsibs & Hrh & Hread & Hwritten) Hroot.
  assert (Hmax : Z.max (m_log2_size a) HASH_TREE_LOG2_WORD_SIZE = 5) by (unfold HASH_TREE_LOG2_WORD_SIZE; lia).
  assert (E : exists p, make_proof a (root_hash c) = Ret p).
  { unfold make_proof. rewrite Hsibs, Hmax.
    replace (inconsistent_size (m_read a) 5) with false
      by (destruct (m_read a) eqn:E; [|done]; rewrite consistent_size; [done|]; rewrite (Hread _ eq_refl); apply length_leaf_bytes).
    replace (inconsistent_size (m_written a) 5) with false
      by (destruct (m_written a) eqn:E; [|done]; by rewrite consistent_size by auto).
    unfold hash_tree_proof_new. rewrite length_siblings, TREE_DEPTH_value.
    replace (5 + Z.of_nat 59) with 64 by lia. cbn [Z.leb Z.ltb Z.compare Pos.compare Pos.compare_cont mbind outcome_bind].
    eexists. reflexivity. }
  destruct E as (p & E).
  destruct (make_proof_wf a (root_hash c) p E Hu ltac:(lia)) as (Hwf & Ht & Hr & Hta & Hth & Hrt & Hs & _).
  { intros sibs Es. rewrite Hsibs in Es. injection Es as <-. by rewrite length_siblings, TREE_DEPTH_value, Hmax. }
  rewrite Hsibs in Hs. injection Hs as Hs.
  assert (Hi : m_target_address p / 2 ^ m_log2_target_size p = m_address a / 2 ^ 5).
  { rewrite Hta, Ht. replace (Z.max (m_log2_size a) 5) with 5 by lia. by apply proof_address_div. }
  exists p. split.
  - unfold check_access_siblings_and_read_hash. erewrite bind_Ret by reflexivity.
    erewrite bind_Ret by (unfold lift; rewrite E; reflexivity).
    erewrite bind_Ret by (unfold lift; rewrite verify_spec by done; reflexivity).
    rewrite bool_decide_eq_true_2; [done|].
    rewrite Hi, <-Hs, Hth, Hrh, Hrt, Hroot. by apply fold_up_leaf.
  - intros m' Hm'. rewrite bubble_up_spec, Hi, <-Hs by done. f_equal. by apply fold_up_leaf.
Qed.

(** The context after an access, with its new root hash. *)
Definition consumed c (h : H) : replay_context H :=
  {| accesses := accesses c; next_access := uint32 (next_access c + 1); root_hash := h |}.

Definition next_is c a : Prop :=
  0 <= next_access c /\ accesses c !! Z.to_nat (next_access c) = Some a.

Lemma check_access_run c a text : next_is c a -> check_access text c = (Ret a, c).
Proof.
  intros [Hn Hl]. unfold check_access. erewrite bind_Ret by reflexivity. rewrite Hl.
  apply lookup_lt_Some in Hl. by rewrite (proj2 (Z.leb_gt _ _)) by lia.
Qed.

Lemma check_access_range_run a type paddr log2_size text c :
  m_address a = paddr -> m_log2_size a = int32 log2_size ->
  check_access_range a type paddr log2_size text c = (Ret (), c).
Proof. intros E1 E2. unfold check_access_range. by rewrite E1, E2, !Z.eqb_refl. Qed.

Lemma check_read_data_run a i m text c :
  m_read a = Some (leaf_bytes m i) -> m_read_hash a = leaf m i ->
  check_read_data a text c = (Ret (leaf_bytes m i), c).
Proof.
  intros E1 E2. unfold check_read_data. rewrite E1.
  erewrite bind_Ret by (unfold lift; rewrite get_hash_word by apply length_leaf_bytes; reflexivity).
  by rewrite E2, bool_decide_eq_true_2.
Qed.

Lemma check_written_data_run a i m text c :
  (forall d, m_written a = Some d -> d = leaf_bytes m i) ->
  check_written_data_if_there a (leaf m i) text c = (Ret (), c).
Proof.
  intros Hd. unfold check_written_data_if_there. destruct (m_written a) as [d|]; [|done].
  rewrite (Hd d eq_refl).
  erewrite bind_Ret by (unfold lift; rewrite get_hash_word by apply length_leaf_bytes; reflexivity).
  by rewrite bool_decide_eq_true_2.
Qed.

Lemma check_read_data_if_there_run a i m text c :
  (forall d, m_read a = Some d -> d = leaf_bytes m i) -> m_read_hash a = leaf m i ->
  check_read_data_if_there a text c = (Ret (), c).
Proof.
  intros Hd Hh. unfold check_read_data_if_there. destruct (m_read a) as [d|]; [|done].
  rewrite (Hd d eq_refl), Hh.
  erewrite bind_Ret by (unfold lift; rewrite get_hash_word by apply length_leaf_bytes; reflexivity).
  by rewrite bool_decide_eq_true_2.
Qed.

Lemma check_read_word_access_run p text c m :
  next_is c (word_read_access m p) -> is_u 64 p -> root_hash c = root_hash_of m ->
  check_read_word_access p text c = (Ret (mem_read m p), consumed c (root_hash c)).
Proof.
  intros Hn Hp Hroot. unfold check_read_word_access.
  erewrite bind_Ret by (by apply check_access_run).
  erewrite bind_Ret by reflexivity.
  erewrite bind_Ret by (by apply check_access_range_run).
  destruct (check_siblings_run (word_read_access m p) text c m) as (pr & E & _); [|done|].
  { repeat split; try done; try apply Hp. by intros ? [= <-]. }
  erewrite bind_Ret by exact E.
  erewrite bind_Ret by (by apply (check_read_data_run _ (p / 2 ^ 5) m)).
  destruct (adjust_access_word p Hp) as (k & Hk & Hw & Hoff).
  destruct (adjust_access p _) as [[al ap] sz]. rewrite (Hoff _ _ _ eq_refl).
  erewrite bind_Ret by (unfold lift; rewrite get_word_access_data_leaf by done; reflexivity).
  unfold mem_read. rewrite Hw. done.
Qed.

Lemma check_write_word_access_run p v text c m :
  next_is c (word_write_access m (mem_write p v m) p) -> is_u 64 p -> root_hash c = root_hash_of m ->
  check_write_word_access p v text c = (Ret (), consumed c (root_hash_of (mem_write p v m))).
Proof.
  intros Hn Hp Hroot. unfold check_write_word_access.
  erewrite bind_Ret by (by apply check_access_run).
  erewrite bind_Ret by reflexivity.
  erewrite bind_Ret by (by apply check_access_range_run).
  destruct (check_siblings_run (word_write_access m (mem_write p v m) p) text c m) as (pr & E & Hb); [|done|].
  { repeat split; try done; try apply Hp; intros ? [= <-]; [done|]. apply length_leaf_bytes. }
  cbn [m_address word_write_access] in Hb.
  erewrite bind_Ret by exact E.
  erewrite bind_Ret by (by apply (check_read_data_run _ (p / 2 ^ 5) m)).
  destruct (adjust_access_word p Hp) as (k & Hk & Hw & Hoff).
  destruct (adjust_access p _) as [[al ap] sz]. rewrite (Hoff _ _ _ eq_refl).
  erewrite bind_Ret by (unfold lift; rewrite replace_word_access_data_leaf, <-Hw by done; reflexivity).
  erewrite bind_Ret by (unfold lift; rewrite get_hash_word by apply length_leaf_bytes; reflexivity).
  erewrite bind_Ret.
  2:{ unfold check_written_hash. cbn [m_written_hash word_write_access].
      rewrite bool_decide_eq_true_2 by done. reflexivity. }
  erewrite bind_Ret by (apply check_written_data_run; by intros ? [= <-]).
  erewrite bind_Ret.
  2:{ unfold update_root_hash. erewrite bind_Ret; [reflexivity|]. unfold lift. rewrite (Hb (mem_write p v m)); [done|].
      intros j Hj. symmetry. apply leaf_write_ne. by rewrite word_index_leaf. }
  done.
Qed.

Lemma check_write_access_run p h text c m m' large :
  next_is c (slot_write_access large m m' p) -> is_u 64 p -> root_hash c = root_hash_of m ->
  h = leaf m' (p / 2 ^ 5) -> (forall j, j <> p / 2 ^ 5 -> leaf m j = leaf m' j) ->
  check_write_access p SHADOW_TLB_SLOT_LOG2_SIZE h text c = (Ret (), consumed c (root_hash_of m')).
Proof.
  intros Hn Hp Hroot -> Hm'. unfold check_write_access.
  erewrite bind_Ret by (by apply check_access_run).
  erewrite bind_Ret by reflexivity.
  erewrite bind_Ret by (by apply check_access_range_run).
  destruct (check_siblings_run (slot_write_access large m m' p) text c m) as (pr & E & Hb); [|done|].
  { destruct large; repeat split; try done; try apply Hp; intros ? [= <-]; [done|]. apply length_leaf_bytes. }
  cbn [m_address slot_write_access] in Hb.
  erewrite bind_Ret by exact E.
  erewrite bind_Ret.
  2:{ unfold check_written_hash. cbn [m_written_hash slot_write_access].
      rewrite bool_decide_eq_true_2 by done. reflexivity. }
  erewrite bind_Ret by (apply (check_read_data_if_there_run _ (p / 2 ^ 5) m); [by destruct large; intros ? [= <-]|done]).
  erewrite bind_Ret by (apply check_written_data_run; by destruct large; intros ? [= <-]).
  erewrite bind_Ret.
  2:{ unfold update_root_hash. erewrite bind_Ret; [reflexivity|]. unfold lift. by rewrite (Hb m'). }
  done.
Qed.
End accepts.

(** ** Logs only grow *)
Section grows.
Context `{IHasher H}.

Definition grows {A} (k : M (record_state H) A) : Prop :=
  forall s a s', k s = (Ret a, s') -> m_accesses (m_log s) `prefix_of` m_accesses (m_log s').

Lemma grows_ret {A} (a : A) : grows (mret a).
Proof. by intros s a' s' [= <- <-]. Qed.
Lemma grows_throw {A} e : grows (@throw _ A e).
Proof. by intros s a s' E. Qed.
Lemma grows_lift {A} (o : outcome A) : grows (lift o).
Proof. by intros s a s' [= _ <-]. Qed.
Lemma grows_get : grows get.
Proof. by intros s a s' [= _ <-]. Qed.
Lemma grows_on_machine {A} (k : M machine A) : grows (on_machine k).
Proof. by intros s a s' (m & _ & ->)%on_machine_Ret. Qed.
Lemma grows_log_access a : grows (log_access a).
Proof. intros s x s' [= _ <-]. cbn. by apply prefix_app_r. Qed.
Lemma grows_bind {A B} (k : M (record_state H) A) (f : A -> M (record_state H) B) :
  grows k -> (forall a, grows (f a)) -> grows (k ≫= f).
Proof.
  intros Hk Hf s b s' E. inv_bind E. etrans; [by eapply Hk | by eapply Hf].
Qed.
End grows.

Create HintDb grows.
#[export] Hint Resolve grows_ret grows_throw grows_lift grows_get grows_on_machine grows_log_access : grows.

Ltac grows_auto := repeat first
  [ solve [eauto with grows nocore] | apply grows_bind; [|intros ?] | case_match ].

Section record_sim.
Context `{IHasher H}.

Lemma grows_siblings p sz : grows (H:=H) (log_access_siblings_and_read_hash p sz).
Proof. unfold log_access_siblings_and_read_hash. grows_auto. Qed.
Lemma grows_read_data p sz : grows (H:=H) (log_read_data p sz).
Proof. unfold log_read_data. grows_auto. Qed.
#[local] Hint Resolve grows_siblings grows_read_data : grows.
Lemma grows_if_requested p sz : grows (H:=H) (log_data_if_requested p sz).
Proof. unfold log_data_if_requested. grows_auto. Qed.
#[local] Hint Resolve grows_if_requested : grows.
Lemma grows_log_read_word_access p text : grows (H:=H) (log_read_word_access p text).
Proof. unfold log_read_word_access. grows_auto. Qed.
Lemma grows_log_write_access p sz w text : grows (H:=H) (log_write_access p sz w text).
Proof. unfold log_write_access. grows_auto. Qed.

(** *** Recording runs like the specification *)

Definition records (s : record_state H) (m : memory) : Prop :=
  recording s /\ m_contents (m_m s) = m.

Definition writes_words (p : Z) (f : memory -> memory) : Prop :=
  forall m i, i / 4 <> p / 2 ^ 5 -> word_at (f m) i = word_at m i.

(** [w] writes to the machine as [f] does to its contents. *)
Definition implements (f : memory -> memory) (w : M machine unit) : Prop :=
  forall m x m', machine_ok m -> w m = (Ret x, m') -> m' = set_contents f m /\ machine_ok m'.

Lemma writes_words_mem_write p v : writes_words p (mem_write p v).
Proof.
  intros m i Hi. unfold mem_write. rewrite word_at_insert, decide_False; [done|].
  intros <-. by rewrite word_index_leaf in Hi.
Qed.

Lemma implements_write_reg r v : is_u 63 r -> implements (mem_write r v) (write_reg r v).
Proof.
  intros Hr m x m' Hok E. apply write_reg_Ret in E as [-> Hc]; [|done..].
  split; [done|]. by apply machine_ok_write.
Qed.
Lemma implements_write_word p v : is_u 64 p -> implements (mem_write p v) (machine_write_word p v).
Proof.
  intros Hr m x m' Hok E. apply machine_write_word_Ret in E as [-> Hc]; [|done..].
  split; [done|]. by apply machine_ok_write.
Qed.
Lemma implements_write_tlb i j x y z :
  is_u 64 i -> is_u 64 j -> implements (mem_write_tlb i j x y z) (write_unverified_tlb i j x y z).
Proof.
  intros Hi Hj m r m' Hok E. apply write_unverified_tlb_Ret in E as (-> & ? & ?); [|done..].
  split; [done|]. unfold is_u in *. apply machine_ok_write_tlb; lia || done.
Qed.

Lemma uarch_x_address_u63 i : 0 <= i < 32 -> is_u 63 (uarch_x_address i).
Proof.
  intros Hi. unfold uarch_x_address, shadow_uarch_state_get_what_i, uint64, shadow_uarch_state_what.uarch_x0,
    AR_SHADOW_UARCH_STATE_START. rewrite uwrap_small; unfold is_u; lia.
Qed.
Lemma uarch_x_address_u64 i : is_u 64 (uarch_x_address i).
Proof. by apply uwrap_range. Qed.
Lemma slot_address_u64 i j : is_u 64 (shadow_tlb_get_abs_addr i j).
Proof. by apply uwrap_range. Qed.
Lemma uarch_reg_u64 r :
  r = shadow_uarch_state_what.uarch_pc \/ r = shadow_uarch_state_what.uarch_cycle \/
  r = shadow_uarch_state_what.uarch_halt_flag -> is_u 64 r.
Proof. by intros [->|[->| ->]]. Qed.

Lemma record_read_records p text :
  is_u 64 p ->
  sim (fun _ => True) records (log_read_word_access p text) (gets (fun m => mem_read m p)).
Proof.
  intros Hp. split; [done|]. intros s m v s' [Hs <-] E _.
  apply log_read_word_access_Ret in E as [-> ->]; [|done..]. eexists. split; [reflexivity|]. by split.
Qed.

Lemma record_write_records f w p sz text :
  sz = 3 \/ sz = 5 -> is_u 64 p -> implements f w -> writes_words p f ->
  sim (fun _ => True) records (log_write_access p sz (and_update_page w p) text) (modify f).
Proof.
  intros Hsz Hp Hw Hf. split; [done|]. intros s m [] s' [Hs <-] E _.
  apply (log_write_access_Ret f) in E as (m' & Hc & Hok & Ht & ->); try done.
  - eexists. split; [reflexivity|]. by split.
  - intros x m' E'. by apply (Hw _ x), E'; apply Hs.
  - intros i. apply Hf.
Qed.

(** *** The replay follows the recording *)

Context (L : list (access H)).
Hypothesis HL : Z.of_nat (length L) < 2 ^ 32.

Definition logged (s : record_state H) : Prop := m_accesses (m_log s) `prefix_of` L.

Definition replayed (s : record_state H) (c : replay_context H) : Prop :=
  recording s /\ root_hash c = root_hash_of (m_contents (m_m s)) /\
  accesses c = L /\ next_access c = Z.of_nat (length (m_accesses (m_log s))).

Lemma logged_next s a m c :
  logged (with_access a m s) -> accesses c = L -> next_access c = Z.of_nat (length (m_accesses (m_log s))) ->
  next_is c a /\ uint32 (next_access c + 1) = Z.of_nat (length (m_accesses (m_log s) ++ [a])).
Proof.
  intros [k Hk] Hacc Hn. cbn in Hk. unfold next_is. rewrite Hacc, Hn, Nat2Z.id, length_app. cbn [length].
  assert (length L = length (m_accesses (m_log s)) + 1 + length k)%nat by (rewrite Hk, !length_app; cbn; lia).
  split; [split; [lia|]|].
  - rewrite Hk, <-app_assoc. by apply list_lookup_middle.
  - unfold uint32. rewrite uwrap_small by (unfold is_u; lia). lia.
Qed.

Lemma logged_grows {A} (k : M (record_state H) A) s a s' :
  grows k -> k s = (Ret a, s') -> logged s' -> logged s.
Proof. intros Hk E Hl. unfold logged in *. by etrans; [eapply Hk|]. Qed.

Lemma record_read_replayed p text text' :
  is_u 64 p -> sim logged replayed (log_read_word_access p text) (check_read_word_access p text').
Proof.
  intros Hp. split.
  { intros s a s' E Hl. eapply logged_grows; [apply grows_log_read_word_access|done..]. }
  intros s c v s' (Hs & Hroot & Hacc & Hn) E Hl.
  apply log_read_word_access_Ret in E as [-> ->]; [|done..].
  destruct (logged_next _ _ _ _ Hl Hacc Hn) as [Hnext Hlen].
  erewrite check_read_word_access_run by done. eexists. split; [reflexivity|].
  repeat split; try done; apply Hs.
Qed.

Lemma record_write_replayed f w p sz text (k : M (replay_context H) unit) :
  sz = 3 \/ sz = 5 -> is_u 64 p -> implements f w -> writes_words p f ->
  (forall large m c, next_is c (small_write_access sz large m (f m) p) -> root_hash c = root_hash_of m ->
     k c = (Ret (), consumed c (root_hash_of (f m)))) ->
  sim logged replayed (log_write_access p sz (and_update_page w p) text) k.
Proof.
  intros Hsz Hp Hw Hf Hk. split.
  { intros s a s' E Hl. eapply logged_grows; [apply grows_log_write_access|done..]. }
  intros s c [] s' (Hs & Hroot & Hacc & Hn) E Hl.
  apply (log_write_access_Ret f) in E as (m' & Hc & Hok & Ht & ->); try done.
  - destruct (logged_next _ _ _ _ Hl Hacc Hn) as [Hnext Hlen].
    erewrite Hk by done. eexists. split; [reflexivity|].
    split; [by split|]. split; [by cbn; rewrite Hc|]. by split.
  - intros x m' E'. by apply (Hw _ x), E'; apply Hs.
  - intros i. apply Hf.
Qed.
End record_sim.
