(* ===== verification/UarchMachine.v ===== *)
(** * Stepping, recording and verifying agree

    The state accesses over a machine, related to the specification over
    its contents, and the two together: what [log_step_uarch] returns is
    accepted by [verify_step_uarch], and everything that
    [verify_step_uarch] accepts is a step of the specification. *)

From S2P Require Import Prelude Shadow SolidityCompat UarchStep UarchSim HashTree Memory AccessLog Machine MachineFacts UarchReplay ReplaySound UarchRecord RecordSound ReplayAccepts.

Section simulations.
Context {cfg : BuildConfig} (uarch_pristine_ram : list Z) (pristine : memory).

#[local] Existing Instance spec_access.

(** ** The direct access *)

Definition direct (m : machine) (c : memory) : Prop := machine_ok m /\ m_contents m = c.

Lemma sim_direct_write f w :
  implements f w -> sim (fun _ => True) direct w (modify f).
Proof.
  intros Hw. split; [done|]. intros m c [] m' [Hok <-] E _. apply Hw in E as [-> Hok']; [|done].
  eexists. split; [reflexivity|]. by split.
Qed.

Lemma sim_direct_read p : sim (fun _ => True) direct (read_contents p) (gets (fun m => mem_read m p)).
Proof.
  split; [done|]. intros m c v m' [Hok <-] E _. injection E as <- <-.
  eexists. split; [reflexivity|]. by split.
Qed.

Lemma uarch_x_word_covered m i : machine_ok m -> 0 <= i < 32 -> word_covered m (word_index (uarch_x_address i)).
Proof.
  intros Hok Hi. eapply range_word_covered; [apply (ok_shadow_uarch m Hok)|done|done|].
  unfold uarch_x_address, shadow_uarch_state_get_what_i, uint64.
  rewrite uwrap_small by (unfold is_u, shadow_uarch_state_what.uarch_x0, AR_SHADOW_UARCH_STATE_START; lia).
  unfold shadow_uarch_state_what.uarch_x0, AR_SHADOW_UARCH_STATE_START, AR_SHADOW_UARCH_STATE_LENGTH. lia.
Qed.

Lemma implements_write_contents p v :
  (forall m, machine_ok m -> word_covered m (word_index p)) -> implements (mem_write p v) (write_contents p v).
Proof.
  intros Hc m x m' Hok E. injection E as _ <-. split; [done|]. apply machine_ok_write; auto.
Qed.

Lemma uarch_reg_covered m p :
  machine_ok m -> AR_SHADOW_UARCH_STATE_START <= p < AR_SHADOW_UARCH_STATE_START + AR_SHADOW_UARCH_STATE_LENGTH ->
  word_covered m (word_index p).
Proof. intros Hok. apply range_word_covered; [apply (ok_shadow_uarch m Hok)|done..]. Qed.

#[export] Instance direct_simulation :
  UarchSimulation (direct_access uarch_pristine_ram) (spec_access pristine) (fun _ => True) direct.
Proof.
  split; intros; try apply (sim_direct_read _).
  - unfold write_uarch_x, direct_access, require. destruct NDEBUG.
    + apply (sim_direct_write _ _), implements_write_contents. intros. apply uarch_x_word_covered; [done|lia].
    + destruct (negb (i =? 0)) eqn:Ei; [|split; [done|by intros]].
      apply (sim_direct_write _ _), implements_write_contents. intros. apply uarch_x_word_covered; [done|lia].
  - apply (sim_direct_write _ _), implements_write_contents. intros. by apply uarch_reg_covered.
  - apply (sim_direct_write _ _), implements_write_contents. intros. by apply uarch_reg_covered.
  - apply (sim_direct_write _ _), implements_write_contents. intros. by apply uarch_reg_covered.
  - split; [done|]. intros m c v m' [Hok <-] E _. unfold read_word, direct_access in E.
    destruct (Z.land p 7 =? 0) eqn:Ha; [|by unfold machine_read_word in E; rewrite Ha in E].
    rewrite machine_read_word_spec in E by (done || lia). injection E as <- <-.
    eexists. split; [reflexivity|]. by split.
  - by apply (sim_direct_write _ _), implements_write_word.
  - apply (sim_ret _ _ false).
  - by apply (sim_direct_write _ _), implements_write_tlb.
Qed.

(** ** The recording access *)

Context `{IHasher H}.

Lemma uarch_reg_word_u64 p :
  AR_SHADOW_UARCH_STATE_START <= p < AR_SHADOW_UARCH_STATE_START + AR_SHADOW_UARCH_STATE_LENGTH -> is_u 64 p.
Proof. unfold AR_SHADOW_UARCH_STATE_START, AR_SHADOW_UARCH_STATE_LENGTH, is_u. lia. Qed.

Lemma record_write_reg_records r v :
  is_u 63 r -> sim (fun _ => True) records (log_write_reg_access r v) (modify (mem_write r v)).
Proof.
  intros Hr. apply record_write_records;
    auto using implements_write_reg, writes_words_mem_write, is_u_63_64.
Qed.

Lemma record_write_word_records p v :
  is_u 64 p -> sim (fun _ => True) records (record_write_word p v) (modify (mem_write p v)).
Proof.
  intros Hp. unfold record_write_word. apply record_write_records;
    [by left|done|by apply implements_write_word|apply writes_words_mem_write].
Qed.

Lemma record_read_reg_records r :
  is_u 64 r -> sim (fun _ => True) records (log_read_reg_access r) (gets (fun m => mem_read m r)).
Proof. intros Hr. unfold log_read_reg_access. by apply record_read_records. Qed.

#[export] Instance record_simulation :
  UarchSimulation (record_access (H:=H) uarch_pristine_ram) (spec_access pristine) (fun _ => True) records.
Proof.
  split; intros.
  - apply (record_read_reg_records (uarch_x_address i)), uarch_x_address_u64.
  - apply (record_write_reg_records (uarch_x_address i) v), uarch_x_address_u63; lia.
  - by apply (record_read_reg_records shadow_uarch_state_what.uarch_pc), uarch_reg_word_u64.
  - by apply (record_write_reg_records shadow_uarch_state_what.uarch_pc v).
  - by apply (record_read_reg_records shadow_uarch_state_what.uarch_cycle), uarch_reg_word_u64.
  - by apply (record_write_reg_records shadow_uarch_state_what.uarch_cycle v).
  - by apply (record_read_reg_records shadow_uarch_state_what.uarch_halt_flag), uarch_reg_word_u64.
  - by apply (record_write_reg_records shadow_uarch_state_what.uarch_halt_flag v).
  - by apply (record_read_records p _).
  - by apply record_write_word_records.
  - apply (sim_ret _ _ false).
  - apply (record_write_records (mem_write_tlb i j x y z) _ (shadow_tlb_get_abs_addr i j) _ _);
      [by right|apply slot_address_u64|by apply implements_write_tlb|].
    intros m w. apply word_at_write_tlb_ne.
Qed.

(** ** The replay of a recording *)

Context (get_uarch_pristine_state_hash : H) (L : list (access H)) (HL : Z.of_nat (length L) < 2 ^ 32).

Lemma record_write_word_replayed w p v text text' :
  is_u 64 p -> implements (mem_write p v) w ->
  sim (logged L) (replayed L) (log_write_access p log2_size_uint64 (and_update_page w p) text)
    (check_write_word_access p v text').
Proof.
  intros Hp Hw. apply (record_write_replayed L HL (mem_write p v)); [by left|done|done|apply writes_words_mem_write|].
  intros large m c Hn Hroot. by apply check_write_word_access_run.
Qed.

Lemma record_write_reg_replayed r v :
  is_u 63 r -> sim (logged L) (replayed L) (log_write_reg_access r v) (check_write_reg_access r v).
Proof.
  intros Hr. unfold log_write_reg_access, check_write_reg_access.
  apply record_write_word_replayed; [by apply (is_u_weaken 63)|by apply implements_write_reg].
Qed.

Lemma record_mem_word_replayed p v :
  is_u 64 p ->
  sim (logged L) (replayed L) (record_write_word p v) (check_write_word_access p v (get_address_name p)).
Proof.
  intros Hp. unfold record_write_word. apply record_write_word_replayed; [done|by apply implements_write_word].
Qed.

Lemma record_read_reg_replayed r :
  is_u 64 r -> sim (logged L) (replayed L) (log_read_reg_access r) (check_read_reg_access r).
Proof.
  intros Hr. unfold log_read_reg_access, check_read_reg_access. by apply record_read_replayed.
Qed.

Lemma record_write_tlb_replayed i j x y z :
  is_u 64 i -> is_u 64 j ->
  sim (logged L) (replayed L) (record_write_tlb i j x y z) (replay_write_tlb i j x y z).
Proof.
  intros Hi Hj. unfold record_write_tlb.
  apply (record_write_replayed L HL (mem_write_tlb i j x y z)); [by right|apply slot_address_u64|by apply implements_write_tlb|..].
  - intros m w. apply word_at_write_tlb_ne.
  - intros large m c Hn Hroot. unfold replay_write_tlb, get_write_tlb_slot_hash.
    rewrite get_merkle_tree_hash_leaf by (unfold shadow_tlb_slot_bytes; by rewrite !length_app, !length_le_bytes8).
    erewrite bind_Ret by reflexivity.
    eapply check_write_access_run; [exact Hn|apply slot_address_u64|exact Hroot|by rewrite leaf_write_tlb|].
    intros k Hk. by rewrite leaf_write_tlb_ne.
Qed.

#[export] Instance recorded_replay_simulation :
  UarchSimulation (record_access uarch_pristine_ram) (replay_access get_uarch_pristine_state_hash)
    (logged L) (replayed L).
Proof.
  split; intros.
  - by apply (record_read_reg_replayed (uarch_x_address i)), uarch_x_address_u64.
  - by apply (record_write_reg_replayed (uarch_x_address i) v), uarch_x_address_u63; lia.
  - by apply (record_read_reg_replayed shadow_uarch_state_what.uarch_pc), uarch_reg_word_u64.
  - by apply (record_write_reg_replayed shadow_uarch_state_what.uarch_pc v).
  - by apply (record_read_reg_replayed shadow_uarch_state_what.uarch_cycle), uarch_reg_word_u64.
  - by apply (record_write_reg_replayed shadow_uarch_state_what.uarch_cycle v).
  - by apply (record_read_reg_replayed shadow_uarch_state_what.uarch_halt_flag), uarch_reg_word_u64.
  - by apply (record_write_reg_replayed shadow_uarch_state_what.uarch_halt_flag v).
  - by apply (record_read_replayed L HL p).
  - by apply (record_mem_word_replayed p v).
  - apply (sim_ret _ _ false).
  - by apply record_write_tlb_replayed.
Qed.
End simulations.

(** ** Logging and verifying a step *)
Section agreement.
Context {cfg : BuildConfig} `{IHasher H}.
Context (uarch_pristine_ram : list Z) (pristine : memory) (get_uarch_pristine_state_hash : H).

(** The specification of a step: the stepper over the contents. *)
Definition spec_step : M memory UArchStepStatus := @uarch_step cfg memory (spec_access pristine).

Definition record_start (log_type : access_log_type) (m : machine) : record_state H :=
  {| m_m := set_ht (fun c _ => c) m; m_log := {| m_accesses := []; m_log_type := log_type |};
     root_hash_after := None |}.

Definition record_step (log_type : access_log_type) (m : machine) : outcome UArchStepStatus * record_state H :=
  @uarch_step cfg _ (record_access uarch_pristine_ram) (record_start log_type m).

Lemma recording_start ty m : machine_ok m -> recording (record_start ty m).
Proof. intros Hok. split; [by apply machine_ok_set_ht|done]. Qed.

Lemma record_step_spec ty m st s' :
  machine_ok m -> record_step ty m = (Ret st, s') ->
  recording s' /\ spec_step (m_contents m) = (Ret st, m_contents (m_m s')).
Proof.
  intros Hok E. destruct (sim_uarch_step (Hsim := record_simulation uarch_pristine_ram pristine)) as [_ Hs].
  destruct (Hs (record_start ty m) (m_contents m) st s') as (c & Ec & [Hrec <-]); [|exact E|done|done].
  split; [by apply recording_start|done].
Qed.

Lemma record_step_verifies ty m st s' :
  machine_ok m -> record_step ty m = (Ret st, s') ->
  Z.of_nat (length (m_accesses (m_log s'))) < 2 ^ 32 ->
  verify_step_uarch get_uarch_pristine_state_hash (root_hash_of (m_contents m)) (m_accesses (m_log s'))
    (Some (root_hash_of (m_contents (m_m s')))) = Ret (root_hash_of (m_contents (m_m s'))).
Proof.
  intros Hok E Hlen.
  destruct (sim_uarch_step (Hsim := recorded_replay_simulation uarch_pristine_ram
    get_uarch_pristine_state_hash (m_accesses (m_log s')) Hlen)) as [_ Hs].
  destruct (Hs (record_start ty m) (initial_context (m_accesses (m_log s')) (root_hash_of (m_contents m))) st s')
    as (c & Ec & _ & Hroot & Hacc & Hn); [|exact E|unfold logged; reflexivity|].
  { split; [by apply recording_start|done]. }
  unfold verify_step_uarch. erewrite bind_Ret by exact Ec.
  unfold finish. erewrite bind_Ret.
  2:{ erewrite bind_Ret by reflexivity. rewrite Hacc, Hn, Z.eqb_refl. reflexivity. }
  unfold check_root_hash_after. by rewrite Hroot, bool_decide_eq_true_2.
Qed.

Lemma with_log_run {A} ty (k : M (record_state H) A) m a s' :
  k {| m_m := m; m_log := {| m_accesses := []; m_log_type := ty |}; root_hash_after := None |} = (Ret a, s') ->
  with_log ty k m = (Ret (m_accesses (m_log s'), root_hash_after s'), m_m s').
Proof. unfold with_log. by intros ->. Qed.

Lemma log_step_uarch_run ty m st s' :
  machine_ok m -> hash_function_is_keccak256 m = true -> is_unreproducible m = false ->
  record_step ty m = (Ret st, s') -> Z.of_nat (length (m_accesses (m_log s'))) < 2 ^ 32 ->
  log_step_uarch uarch_pristine_ram get_uarch_pristine_state_hash ty m =
    (Ret (m_accesses (m_log s')), set_ht (fun c _ => c) (m_m s')).
Proof.
  intros Hok Hk Hu E Hlen. unfold log_step_uarch. erewrite bind_Ret by reflexivity. rewrite Hu.
  erewrite bind_Ret.
  2:{ unfold require_keccak256. erewrite bind_Ret by reflexivity. rewrite Hk. reflexivity. }
  erewrite bind_Ret by reflexivity.
  erewrite bind_Ret.
  2:{ apply with_log_run with st, E. }
  cbv beta iota. erewrite bind_Ret by reflexivity.
  erewrite bind_Ret.
  2:{ unfold lift. cbn [m_ht set_ht m_contents].
      rewrite (record_step_verifies ty m st s' Hok E Hlen). reflexivity. }
  reflexivity.
Qed.
End agreement.

(** ** Running *)
Lemma run_uarch_spec {cfg : BuildConfig} uarch_pristine_ram pristine fuel cycle_end m result m' :
  machine_ok m -> run_uarch uarch_pristine_ram fuel cycle_end m = (Ret result, m') ->
  machine_ok m' /\
  @uarch_interpret cfg memory (spec_access pristine) fuel cycle_end (m_contents m) = (Ret result, m_contents m').
Proof.
  intros Hok E. unfold run_uarch in E. inv_bind E. unfold require_keccak256 in Hm.
  apply bind_Ret_inv in Hm as (m1 & s1 & [= <- <-] & Hm). destruct (hash_function_is_keccak256 m); [|done].
  injection Hm as _ <-. apply bind_Ret_inv in Hk as (m1 & s1 & [= <- <-] & E).
  destruct (is_unreproducible m); [done|].
  destruct (sim_uarch_interpret (Hsim := direct_simulation uarch_pristine_ram pristine) fuel cycle_end) as [_ Hs].
  destruct (Hs m (m_contents m) result m') as (c & Ec & [Hok' <-]); [by split|done|done|]. done.
Qed.
