(* ===== verification/UarchInvariant.v ===== *)
(** * Register x0 of the microarchitecture stays zero

    The registers are words of physical memory, and x0 is one of them: it
    reads as zero because nothing can write it.  Handlers never write
    register 0, stores to its shadow are rejected by [write_reg], and the
    slots of the TLB are elsewhere. *)

From S2P Require Import Prelude Bits Shadow SolidityCompat UarchStep UarchSim Rv64i UarchDecode HashTree Memory UarchFacts Machine MachineFacts UarchMemory UarchIsa UarchReplay ReplaySound UarchRecord RecordSound ReplayAccepts UarchMachine.

Definition x0_zero (c : memory) : Prop := mem_read c (uarch_x_address 0) = 0.

(** Preservation of an invariant, as a simulation of a machine by itself. *)
Definition x0_kept (m m' : machine) : Prop := m = m' /\ machine_ok m /\ x0_zero (m_contents m).

Lemma x0_word_write p v c :
  word_index p <> word_index (uarch_x_address 0) -> x0_zero c -> x0_zero (mem_write p v c).
Proof. intros Hne Hz. unfold x0_zero. by rewrite mem_read_write, decide_False. Qed.

Lemma machine_write_word_x0 p v m x m' :
  is_u 64 p -> machine_write_word p v m = (Ret x, m') -> word_index p <> word_index (uarch_x_address 0).
Proof.
  intros Hp E Hw. assert (Ha : Z.land p 7 = 0).
  { unfold machine_write_word in E. destruct (Z.land p 7 =? 0) eqn:Ha; [by apply Z.eqb_eq|done]. }
  apply aligned8 in Ha. rewrite Hw in Ha. subst p. by vm_compute in E.
Qed.

Lemma word_index_uarch_x i : 0 < i < 32 -> word_index (uarch_x_address i) <> word_index (uarch_x_address 0).
Proof.
  intros Hi. unfold uarch_x_address, shadow_uarch_state_get_what_i, shadow_uarch_state_what.uarch_x0, AR_SHADOW_UARCH_STATE_START, uint64.
  rewrite !word_index_div, !uwrap_small by (unfold is_u; lia).
  replace (0x400000 + 24 + i * 8) with ((524291 + i) * 8) by lia. rewrite Z.div_mul by lia.
  change ((0x400000 + 24 + 0 * 8) / 8) with 524291. lia.
Qed.

Section invariant.
Context {cfg : BuildConfig} (uarch_pristine_ram : list Z).

Lemma x0_kept_write f w :
  implements f w ->
  (forall m x m', machine_ok m -> w m = (Ret x, m') -> x0_zero (m_contents m) -> x0_zero (f (m_contents m))) ->
  sim (fun _ => True) x0_kept w w.
Proof.
  intros Hw Hf. split; [done|]. intros m ? [] m' (<- & Hok & Hz) E _.
  exists m'. split; [done|]. pose proof (Hf _ _ _ Hok E Hz). apply Hw in E as [-> Hok']; [|done].
  split; [done|]. by split.
Qed.

Lemma x0_kept_read {A} (k : M machine A) : (forall m o m', k m = (o, m') -> m' = m) -> sim (fun _ => True) x0_kept k k.
Proof.
  intros Hk. split; [done|]. intros m ? a m' (<- & Hok & Hz) E _. exists m'. split; [done|].
  apply Hk in E as ->. split; [done|]. by split.
Qed.

Lemma x0_kept_write_contents p v :
  AR_SHADOW_UARCH_STATE_START <= p < AR_SHADOW_UARCH_STATE_START + AR_SHADOW_UARCH_STATE_LENGTH ->
  word_index p <> word_index (uarch_x_address 0) -> sim (fun _ => True) x0_kept (write_contents p v) (write_contents p v).
Proof.
  intros Hp Hne. apply (x0_kept_write (mem_write p v)).
  - apply implements_write_contents. intros m Hok. by apply uarch_reg_covered.
  - intros m x m' _ _. by apply x0_word_write.
Qed.

#[export] Instance x0_simulation :
  UarchSimulation (direct_access uarch_pristine_ram) (direct_access uarch_pristine_ram) (fun _ => True) x0_kept.
Proof.
  split; intros.
  - apply x0_kept_read. by intros m o m' [= _ <-].
  - cbn [write_uarch_x direct_access]. apply sim_bind; [apply sim_require|]. intros _.
    apply x0_kept_write_contents; [|by apply word_index_uarch_x].
    unfold uarch_x_address, shadow_uarch_state_get_what_i, shadow_uarch_state_what.uarch_x0, AR_SHADOW_UARCH_STATE_START,
      AR_SHADOW_UARCH_STATE_LENGTH, uint64. rewrite uwrap_small by (unfold is_u; lia). lia.
  - apply x0_kept_read. by intros m o m' [= _ <-].
  - by apply x0_kept_write_contents.
  - apply x0_kept_read. by intros m o m' [= _ <-].
  - by apply x0_kept_write_contents.
  - apply x0_kept_read. by intros m o m' [= _ <-].
  - by apply x0_kept_write_contents.
  - split; [done|]. intros m ? v m' (<- & Hok & Hz) E _. exists m'. split; [done|].
    unfold read_word, direct_access in E.
    destruct (Z.land p 7 =? 0) eqn:Ha; [|by unfold machine_read_word in E; rewrite Ha in E].
    rewrite machine_read_word_spec in E by (done || lia). injection E as _ <-. split; [done|]. by split.
  - apply (x0_kept_write (mem_write p v)); [by apply implements_write_word|].
    intros m x m' _ E. apply machine_write_word_x0 in E; [|done]. by apply x0_word_write.
  - apply (sim_ret _ _ false).
  - apply (x0_kept_write (mem_write_tlb i j x y z)); [by apply implements_write_tlb|].
    intros m r m' Hok E Hz. apply write_unverified_tlb_Ret in E as (_ & Hi & Hj); [|done..].
    unfold x0_zero, mem_read. rewrite word_at_write_tlb_ne; [done|].
    unfold is_u, TLB_NUM_SETS_, TLB_SET_SIZE in *. change (word_index (uarch_x_address 0) / 4) with 131072.
    assert (shadow_tlb_get_abs_addr i j < 0x7000).
    { unfold shadow_tlb_get_abs_addr, uint64, AR_SHADOW_TLB_START, sizeof_shadow_tlb_set, TLB_SET_SIZE, SHADOW_TLB_SLOT_SIZE.
      rewrite uwrap_small by (unfold is_u; lia). lia. }
    pose proof (Z.div_lt_upper_bound (shadow_tlb_get_abs_addr i j) 32 896 ltac:(lia) ltac:(lia)). 
    change (2 ^ 5) with 32. lia.
Qed.

Lemma step_keeps_x0 m status m' :
  machine_ok m -> x0_zero (m_contents m) -> @uarch_step cfg _ (direct_access uarch_pristine_ram) m = (Ret status, m') ->
  machine_ok m' /\ x0_zero (m_contents m').
Proof.
  intros Hok Hz E. destruct (sim_uarch_step (Hsim := x0_simulation)) as [_ Hs].
  by destruct (Hs m m status m') as (m'' & _ & <- & H); [done|exact E|done|].
Qed.
Lemma interpret_keeps_x0 fuel cycle_end m r m' :
  machine_ok m -> x0_zero (m_contents m) ->
  @uarch_interpret cfg _ (direct_access uarch_pristine_ram) fuel cycle_end m = (Ret r, m') ->
  machine_ok m' /\ x0_zero (m_contents m').
Proof.
  intros Hok Hz E. destruct (sim_uarch_interpret (Hsim := x0_simulation) fuel cycle_end) as [_ Hs].
  by destruct (Hs m m r m') as (m'' & _ & <- & H); [done|exact E|done|].
Qed.
End invariant.
