(* ===== verification/Recording.v ===== *)
(** * Recording a step never fails

    The recording access follows the direct one: when a step on the machine
    returns, so does the same step while it is recorded, on the same contents,
    with at most one access logged for each operation of the stepper.  The
    hash tree of the two machines differs, since only the recording updates
    it, so the writes are shown not to depend on it. *)

From S2P Require Import Prelude Shadow SolidityCompat UarchStep UarchSim HashTree Memory AccessLog Machine MachineFacts UarchReplay ReplaySound UarchRecord RecordSound ReplayAccepts UarchMachine.

(** ** Writes do not depend on the hash tree *)

Definition with_tree (h : memory) (m : machine) : machine := set_ht (fun _ _ => h) m.

Definition tree_blind (w : M machine unit) : Prop :=
  forall h m, w (with_tree h m) = ((w m).1, with_tree h (w m).2).

Lemma tree_blind_write_reg r v : tree_blind (write_reg r v).
Proof.
  intros h m. unfold write_reg. destruct (is_read_only_reg r); [done|]. destruct (is_machine_reg r); [done|].
  do 8 (destruct (r =? _); [done|]). done.
Qed.

Lemma tree_blind_write_word p v : tree_blind (machine_write_word p v).
Proof.
  intros h m. unfold machine_write_word. destruct (negb (Z.land p 7 =? 0)); [done|].
  do 2 (destruct (in_range p _ _); [destruct (_ =? unknown_); [done|apply tree_blind_write_reg]|]).
  erewrite (bind_Ret get _ m) by reflexivity. erewrite (bind_Ret get _ (with_tree h m)) by reflexivity.
  change (m_all (with_tree h m)) with (m_all m).
  set (ar := find (m_all m) p 8). destruct (negb (is_memory ar) || negb (has_host_memory ar)); [done|].
  destruct (is_host_read_only ar); [done|]. by destruct (pmas_is_protected (get_driver_id ar)).
Qed.

Lemma tree_blind_write_tlb i j x y z : tree_blind (write_unverified_tlb i j x y z).
Proof. intros h m. unfold write_unverified_tlb. do 2 (case_match; [done|]). done. Qed.

(** ** The write and the update of its page *)

(** [w] writes the word at [p], among others. *)
Definition writes_at (p : Z) (w : M machine unit) : Prop :=
  forall m x m', machine_ok m -> w m = (Ret x, m') -> word_covered m' (word_index p).

Lemma writes_at_write_reg r v : is_u 63 r -> writes_at r (write_reg r v).
Proof. intros Hr m x m' Hok E. by apply write_reg_Ret in E as [-> Hc]. Qed.

Lemma writes_at_write_word p v : is_u 64 p -> writes_at p (machine_write_word p v).
Proof. intros Hr m x m' Hok E. by apply machine_write_word_Ret in E as [-> Hc]. Qed.

Lemma slot_covered m i j :
  machine_ok m -> 0 <= i < TLB_NUM_SETS_ -> 0 <= j < TLB_SET_SIZE ->
  word_covered m (word_index (shadow_tlb_get_abs_addr i j)).
Proof.
  unfold TLB_NUM_SETS_, TLB_SET_SIZE. intros Hok Hi Hj.
  apply (range_word_covered _ AR_SHADOW_STATE_START AR_SHADOW_STATE_LENGTH); [apply (ok_shadow m Hok)|done..|].
  unfold shadow_tlb_get_abs_addr, uint64, AR_SHADOW_TLB_START, sizeof_shadow_tlb_set, TLB_SET_SIZE, SHADOW_TLB_SLOT_SIZE,
    AR_SHADOW_STATE_START, AR_SHADOW_STATE_LENGTH.
  rewrite uwrap_small by (unfold is_u; lia). lia.
Qed.

Lemma writes_at_write_tlb i j x y z :
  is_u 64 i -> is_u 64 j -> writes_at (shadow_tlb_get_abs_addr i j) (write_unverified_tlb i j x y z).
Proof.
  intros Hi Hj m r m' Hok E. apply write_unverified_tlb_Ret in E as (-> & ? & ?); [|done..].
  unfold is_u in *. change (word_covered m (word_index (shadow_tlb_get_abs_addr i j))).
  apply slot_covered; lia || done.
Qed.

Lemma and_update_page_run g w p m x m' :
  machine_ok m -> is_u 64 p -> implements g w -> writes_at p w -> w m = (Ret x, m') ->
  exists m'', and_update_page w p m = (Ret (), m'').
Proof.
  intros Hok Hp Hw Hat E. pose proof (Hw _ _ _ Hok E) as [_ Hok'].
  destruct (update_hash_tree_page_run m' p Hok' Hp (Hat _ _ _ Hok E)) as [m'' E'].
  exists m''. unfold and_update_page. erewrite bind_Ret by exact E. by erewrite bind_Ret by exact E'.
Qed.

(** What [and_update_page] leaves of the machine: the tree apart, the write. *)
Lemma and_update_page_tree w p m x m' :
  and_update_page w p m = (Ret x, m') -> exists y m1, w m = (Ret y, m1) /\ with_tree ∅ m' = with_tree ∅ m1.
Proof.
  intros E. unfold and_update_page in E. inv_bind E. exists a, s. split; [done|].
  inv_bind Hk. assert (E : with_tree ∅ s0 = with_tree ∅ s); [|by destruct a0; [injection Hk0 as _ <-|]].
  unfold update_hash_tree_page in Hm0. apply bind_Ret_inv in Hm0 as (m0 & s1 & [= <- <-] & Hm0).
  destruct (existsb _ _); [|done]. by injection Hm0 as _ <-.
Qed.

(** ** The recording access follows the direct one *)
Section tracks.
Context {cfg : BuildConfig} `{IHasher H} (uarch_pristine_ram : list Z).
Implicit Types (d m : machine) (s : record_state H).

(** The recorded machine is the other one, but for its tree. *)
Definition tracks d s : Prop :=
  machine_ok d /\ recording s /\ with_tree ∅ (m_m s) = with_tree ∅ d.

Lemma with_tree_eq d m : with_tree ∅ m = with_tree ∅ d -> d = with_tree (m_ht d) m.
Proof. destruct d, m. unfold with_tree, set_ht. simpl. congruence. Qed.

Lemma with_tree_idem h h' m : with_tree h (with_tree h' m) = with_tree h m.
Proof. done. Qed.

Lemma tracks_contents d s : tracks d s -> m_contents (m_m s) = m_contents d.
Proof. intros (_ & _ & E). by apply (f_equal m_contents) in E. Qed.

Lemma log_read_word_access_run p text s :
  recording s -> is_u 64 p ->
  log_read_word_access p text s =
    (Ret (mem_read (m_contents (m_m s)) p), with_access (word_read_access (m_contents (m_m s)) p) (m_m s) s).
Proof.
  intros Hs Hp. unfold log_read_word_access.
  destruct (adjust_access_word p Hp) as (k & Hk & Hw & Hoff).
  destruct (adjust_access_small p 3 ltac:(auto) Hp) as (al & Hadj & Hi).
  unfold log2_size_uint64. rewrite Hadj. cbv beta iota zeta.
  erewrite bind_Ret by (by apply log_siblings_run). cbv beta iota.
  erewrite bind_Ret by (by apply log_read_data_run).
  rewrite (Hoff al (32 * (p / 2 ^ 5)) 5 Hadj), get_word_access_data_leaf by done.
  unfold mem_read. by rewrite Hw.
Qed.

Lemma tracks_read p text :
  is_u 64 p -> sim (fun _ => True) tracks (read_contents p) (log_read_word_access p text).
Proof.
  intros Hp. split; [done|]. intros d s v d' Ht E _. injection E as <- <-.
  rewrite log_read_word_access_run by (apply Ht || done). rewrite (tracks_contents d s Ht).
  eexists. split; [reflexivity|]. done.
Qed.

(** A write on the direct machine that the guarded [w] follows. *)
Lemma tracks_write g wd w p sz text :
  sz = 3 \/ sz = 5 -> is_u 64 p -> implements g w -> writes_words p g -> writes_at p w -> tree_blind w ->
  (forall d x d', machine_ok d -> wd d = (Ret x, d') -> w d = (Ret (), d')) ->
  sim (fun _ => True) tracks wd (log_write_access p sz (and_update_page w p) text).
Proof.
  intros Hsz Hp Hw Hg Hat Hb Hwd. split; [done|]. intros d s [] d' (Hd & Hs & Hds) E _.
  apply Hwd in E; [|done]. rewrite (with_tree_eq _ _ Hds), Hb in E.
  destruct (w (m_m s)) as [[[]|e] m1] eqn:Em; [|done]. cbn [fst snd] in E.
  destruct Hs as [Hok Ht].
  destruct (and_update_page_run g w p (m_m s) () m1 Hok Hp Hw Hat Em) as [m2 E2].
  assert (Hu : forall x m', and_update_page w p (m_m s) = (Ret x, m') ->
    m_contents m' = g (m_contents (m_m s)) /\ machine_ok m' /\ tree_ok m').
  { intros x m'. apply and_update_page_Ret; [done|done|intros ? ?; by apply Hw|intros i; apply Hg]. }
  rewrite (log_write_access_eq (g (m_contents (m_m s)))) by (done || split; done). rewrite E2.
  eexists. split; [reflexivity|]. destruct (Hu _ _ E2) as (Hc2 & Hok2 & Ht2).
  destruct (and_update_page_tree _ _ _ _ _ E2) as (y & m1' & E1 & Etree).
  rewrite Em in E1. injection E1 as <- <-. injection E as <-.
  split; [|split; [split; [exact Hok2|exact Ht2]|exact Etree]].
  apply machine_ok_set_ht. by apply (Hw _ _ _ Hok Em).
Qed.

Lemma tracks_write_reg r v :
  is_u 63 r -> is_read_only_reg r = false -> is_machine_reg r = true ->
  sim (fun _ => True) tracks (write_contents r v) (log_write_reg_access r v).
Proof.
  intros Hr Hro Hreg. unfold log_write_reg_access.
  apply (tracks_write (mem_write r v));
    auto using implements_write_reg, writes_words_mem_write, writes_at_write_reg, tree_blind_write_reg,
      is_u_63_64.
  intros d x d' _ E. unfold write_reg. rewrite Hro, Hreg. by injection E as _ <-.
Qed.

(** Registers 1 to 31 can be written. *)
Lemma uarch_x_writeable i :
  0 < i < 32 -> is_read_only_reg (uarch_x_address i) = false /\ is_machine_reg (uarch_x_address i) = true.
Proof.
  intros Hi.
  assert (E : forallb (fun i => negb (is_read_only_reg (uarch_x_address i)) && is_machine_reg (uarch_x_address i))
    (seqZ 1 31) = true) by (vm_compute; reflexivity).
  rewrite forallb_forall in E. specialize (E i).
  apply andb_true_iff in E as [Hro%negb_true_iff Hreg]; [done|]. apply list_elem_of_In, elem_of_seqZ. lia.
Qed.

#[export] Instance tracks_simulation :
  UarchSimulation (direct_access uarch_pristine_ram) (record_access (H:=H) uarch_pristine_ram)
    (fun _ => True) tracks.
Proof.
  split; intros.
  - apply (tracks_read (uarch_x_address i)), uarch_x_address_u64.
  - destruct (uarch_x_writeable i) as [Hro Hreg]; [done|].
    pose proof (tracks_write_reg (uarch_x_address i) v (uarch_x_address_u63 i ltac:(lia)) Hro Hreg) as Hw.
    cbn [write_uarch_x direct_access record_access]. unfold require.
    destruct NDEBUG; [exact Hw|]. destruct (negb (i =? 0)) eqn:Ei; [exact Hw|lia].
  - by apply (tracks_read shadow_uarch_state_what.uarch_pc), uarch_reg_word_u64.
  - by apply (tracks_write_reg shadow_uarch_state_what.uarch_pc v).
  - by apply (tracks_read shadow_uarch_state_what.uarch_cycle), uarch_reg_word_u64.
  - by apply (tracks_write_reg shadow_uarch_state_what.uarch_cycle v).
  - by apply (tracks_read shadow_uarch_state_what.uarch_halt_flag), uarch_reg_word_u64.
  - by apply (tracks_write_reg shadow_uarch_state_what.uarch_halt_flag v).
  - split; [done|]. intros d s v d' Ht E _. unfold read_word, direct_access in E.
    destruct (Z.land p 7 =? 0) eqn:Ha; [|by unfold machine_read_word in E; rewrite Ha in E].
    rewrite machine_read_word_spec in E by (apply Ht || lia || done).
    destruct (tracks_read p (get_address_name p) ltac:(done)) as [_ Hr]. by apply (Hr d s).
  - apply (tracks_write (mem_write p v)); auto using implements_write_word, writes_words_mem_write,
      writes_at_write_word, tree_blind_write_word.
    intros d [] d' _ E. exact E.
  - apply (sim_ret _ _ false).
  - apply (tracks_write (mem_write_tlb i j x y z)); auto using implements_write_tlb, writes_at_write_tlb,
      tree_blind_write_tlb, slot_address_u64.
    + intros m w. apply word_at_write_tlb_ne.
    + intros d [] d' _ E. exact E.
Qed.

(** *** The length of the log *)

Definition log_size s : nat := length (m_accesses (m_log s)).

Lemma cost_on_machine {A} (k : M machine A) : costs log_size 0 (on_machine k).
Proof. intros s x s' E. apply on_machine_Ret in E as (m' & _ & ->). unfold log_size. simpl. lia. Qed.
Lemma cost_log_access a : costs log_size 1 (log_access a).
Proof.
  intros s x s' E. injection E as _ <-. unfold log_size, push_access. simpl. rewrite length_app. simpl. lia.
Qed.
Lemma cost_get : costs log_size 0 get.
Proof. intros s x s' E. injection E as _ <-. lia. Qed.
Lemma cost_lift {A} (o : outcome A) : costs log_size 0 (lift o).
Proof. apply costs_lift. Qed.
#[local] Hint Resolve cost_on_machine cost_log_access cost_get cost_lift : costs.

Lemma cost_log_read_data p n : costs log_size 0 (log_read_data p n).
Proof. unfold log_read_data. costs_auto. Qed.
#[local] Hint Resolve cost_log_read_data : costs.
Lemma cost_log_data_if_requested p n : costs log_size 0 (log_data_if_requested p n).
Proof. unfold log_data_if_requested. costs_auto. Qed.
Lemma cost_log_siblings p n : costs log_size 0 (log_access_siblings_and_read_hash p n).
Proof. unfold log_access_siblings_and_read_hash. costs_auto. Qed.
#[local] Hint Resolve cost_log_data_if_requested cost_log_siblings : costs.
Lemma cost_log_read_word_access p text : costs log_size 1 (log_read_word_access p text).
Proof. unfold log_read_word_access. costs_auto. Qed.
Lemma cost_log_write_access p n w text : costs log_size 1 (log_write_access p n w text).
Proof. unfold log_write_access. costs_auto. Qed.

#[export] Instance record_unit_costs : UnitCosts log_size (record_access (H:=H) uarch_pristine_ram).
Proof.
  split; intros;
    cbn [read_uarch_x write_uarch_x read_uarch_pc write_uarch_pc read_uarch_cycle write_uarch_cycle
      read_uarch_halt_flag write_uarch_halt_flag read_word write_word uarch_putchar write_tlb record_access];
    unfold log_read_reg_access, log_write_reg_access, record_write_word, record_write_tlb;
    lazymatch goal with
    | |- costs _ _ (log_read_word_access _ _) => apply cost_log_read_word_access
    | |- costs _ _ (log_write_access _ _ _ _) => apply cost_log_write_access
    | |- _ => apply costs_ret
    end.
Qed.
End tracks.

(** ** A recorded step *)
Section agreement.
Context {cfg : BuildConfig} `{IHasher H} (uarch_pristine_ram : list Z) (pristine : memory).

Lemma tracks_start ty m : machine_ok m -> tracks m (record_start (H:=H) ty m).
Proof. intros Hok. split; [done|]. by split; [apply recording_start|]. Qed.

(** When the step on the machine returns, so does the step that is recorded. *)
Lemma record_step_run ty m status m1 :
  machine_ok m -> @uarch_step cfg _ (direct_access uarch_pristine_ram) m = (Ret status, m1) ->
  exists s', record_step (H:=H) uarch_pristine_ram ty m = (Ret status, s') /\ tracks m1 s' /\
    Z.of_nat (log_size s') <= 13.
Proof.
  intros Hok E. destruct (sim_uarch_step (Hsim := tracks_simulation (H:=H) uarch_pristine_ram)) as [_ Hs].
  destruct (Hs m (record_start ty m) status m1 (tracks_start ty m Hok) E I) as (s' & Es & Ht).
  exists s'. split; [exact Es|]. split; [done|]. apply cost_uarch_step in Es.
  change (log_size (record_start ty m)) with O in Es. lia.
Qed.
End agreement.
