(* ===== verification/Samples.v ===== *)
(** * Sample states

    Small concrete memories, machines and logs, on which the theorems of the
    development are instantiated. *)

From S2P Require Import Prelude Htif Shadow SolidityCompat UarchStep HashTree Memory AccessLog SymHash Machine MachineFacts UarchReplay ReplaySound.

Definition debug_build : BuildConfig := {| NDEBUG := false |}.
Definition release_build : BuildConfig := {| NDEBUG := true |}.

(** ** A step: [addi x1, x0, 5] at the start of the microarchitecture RAM *)

Definition sample_memory : memory :=
  list_to_map [(word_index shadow_uarch_state_what.uarch_pc, AR_UARCH_RAM_START);
               (word_index AR_UARCH_RAM_START, 0x00500093)].
Definition sample_memory_1 : memory := mem_write (uarch_x_address 1) 5 sample_memory.
Definition sample_memory_2 : memory :=
  mem_write shadow_uarch_state_what.uarch_pc (AR_UARCH_RAM_START + 4) sample_memory_1.
Definition sample_memory_3 : memory := mem_write shadow_uarch_state_what.uarch_cycle 1 sample_memory_2.

Definition sample_step_log : list (access sym_hash) :=
  [sparse_read_access sample_memory shadow_uarch_state_what.uarch_cycle;
   sparse_read_access sample_memory shadow_uarch_state_what.uarch_halt_flag;
   sparse_read_access sample_memory shadow_uarch_state_what.uarch_pc;
   sparse_read_access sample_memory AR_UARCH_RAM_START;
   sparse_read_access sample_memory (uarch_x_address 0);
   sparse_write_access sample_memory sample_memory_1 (uarch_x_address 1);
   sparse_write_access sample_memory_1 sample_memory_2 shadow_uarch_state_what.uarch_pc;
   sparse_write_access sample_memory_2 sample_memory_3 shadow_uarch_state_what.uarch_cycle].

(** ** A reset of a machine that has rejected an input *)

Definition sample_rejected_memory : memory :=
  list_to_map [(word_index IFLAGS_Y_ADDRESS, 1);
               (word_index HTIF_TOHOST_ADDRESS, 0x0201000200000000);
               (word_index AR_SHADOW_REVERT_ROOT_HASH_START, 0x1122334455667788);
               (word_index shadow_uarch_state_what.uarch_cycle, 17)].
Definition sample_reset_memory : memory := mem_reset_uarch ∅ sample_rejected_memory.

Definition sample_reset_log : list (access sym_hash) :=
  [{| m_type := access_write; m_address := UARCH_STATE_START_ADDRESS; m_log2_size := UARCH_STATE_LOG2_SIZE;
      m_read := None; m_read_hash := sparse_node 17 1 (below 17 1 sample_rejected_memory);
      m_written := None; m_written_hash := Some (Pristine 17);
      m_access_sibling_hashes := Some (sparse_siblings 17 42 1 sample_rejected_memory) |};
   sparse_read_access sample_reset_memory IFLAGS_Y_ADDRESS;
   sparse_read_access sample_reset_memory HTIF_TOHOST_ADDRESS;
   {| m_type := access_read; m_address := AR_SHADOW_REVERT_ROOT_HASH_START; m_log2_size := 5;
      m_read := Some (leaf_bytes sample_reset_memory 127); m_read_hash := leaf sample_reset_memory 127;
      m_written := None; m_written_hash := None;
      m_access_sibling_hashes := Some (sparse_siblings 0 59 127 sample_reset_memory) |}].

(** ** A machine with these contents *)

Definition sample_flags (did : Z) : pmas_flags :=
  {| flag_M := true; flag_IO := false; flag_R := true; flag_W := true; flag_X := true;
     flag_IR := true; flag_IW := true; flag_DID := did |}.
Definition sample_range (description : string) (start length did : Z) : address_range :=
  {| m_description := description; m_start := start; m_end := start + length;
     m_flags := sample_flags did; has_host_memory := true; is_host_read_only := false |}.

Definition sample_ranges : list address_range :=
  [sample_range "shadow state" AR_SHADOW_STATE_START AR_SHADOW_STATE_LENGTH PMA_ISTART_DID.shadow_state;
   sample_range "shadow uarch state" AR_SHADOW_UARCH_STATE_START AR_SHADOW_UARCH_STATE_LENGTH
     PMA_ISTART_DID.shadow_uarch_state;
   sample_range "uarch RAM" AR_UARCH_RAM_START AR_UARCH_RAM_LENGTH PMA_ISTART_DID.memory;
   sample_range "RAM" AR_RAM_START 0x100000 PMA_ISTART_DID.memory].

Definition sample_machine : machine :=
  {| m_contents := sample_memory; m_all := sample_ranges; m_hash_tree := [0; 1; 2; 3]%nat;
     m_ht := ∅; hash_function_is_keccak256 := true; config_iunrep := 0 |}.

(** Contents whose words all lie in memory ranges are pristine elsewhere. *)
Definition covered_by (ars : list address_range) (w : Z) : bool :=
  existsb (fun ar => is_memory ar && (m_start ar <=? 8 * w) && (8 * w + 8 <=? m_end ar)) ars.

Lemma backed_keys c ars :
  forallb (fun iw => covered_by ars iw.1) (map_to_list c) = true -> backed c ars 0 (2 ^ 64).
Proof.
  intros Hk q Hq Hc. unfold byte_at, mem_read, word_at.
  destruct (c !! word_index q) as [v|] eqn:E; [|by rewrite Z.shiftr_0_l].
  rewrite forallb_forall in Hk. apply elem_of_map_to_list, list_elem_of_In, Hk in E.
  apply existsb_exists in E as (ar & Hin%list_elem_of_In & E). cbn [fst] in E.
  exfalso. apply (Hc ar Hin). apply andb_true_iff in E as [E E3]. apply andb_true_iff in E as [E1 E2].
  split; [done|]. rewrite word_index_div in *. pose proof (Z.div_mod q 8 ltac:(lia)).
  pose proof (Z.mod_pos_bound q 8 ltac:(lia)). lia.
Qed.

Lemma sample_machine_ok : machine_ok sample_machine.
Proof.
  assert (Hv : hash_tree_view sample_machine = sample_ranges) by done.
  split; unfold range_covered; rewrite ?Hv.
  - repeat (apply sorted_cons; [split; [vm_compute; discriminate|reflexivity]|reflexivity|reflexivity|reflexivity|done|]). constructor.
  - apply backed_keys. by vm_compute.
  - done.
  - eexists. split; [by left|]. split; [done|]. split; vm_compute; discriminate.
  - eexists. split; [by right; left|]. split; [done|]. split; vm_compute; discriminate.
Qed.

Lemma full_siblings_sparse (a : access sym_hash) n k i m :
  m_access_sibling_hashes a = Some (sparse_siblings n k i m) ->
  Z.of_nat k = HASH_TREE_LOG2_ROOT_SIZE - Z.max (m_log2_size a) HASH_TREE_LOG2_WORD_SIZE -> full_siblings a.
Proof.
  intros Ha Hk sibs E. rewrite Ha in E. apply (inj Some) in E as <-.
  by rewrite sparse_siblings_spec, length_siblings.
Qed.

Lemma sparse_read_access_ok m p : is_u 64 p -> access_ok (sparse_read_access m p).
Proof. intros Hp. split; [done|]. by apply (full_siblings_sparse _ 0 59 (p / 32) m). Qed.
Lemma sparse_write_access_ok m m' p : is_u 64 p -> access_ok (sparse_write_access m m' p).
Proof. intros Hp. split; [done|]. by apply (full_siblings_sparse _ 0 59 (p / 32) m). Qed.

Lemma sample_step_log_ok : Forall access_ok sample_step_log.
Proof.
  repeat (constructor; [first [by apply sparse_read_access_ok|by apply sparse_write_access_ok]|]). constructor.
Qed.

Lemma sample_reset_log_ok : Forall access_ok sample_reset_log.
Proof.
  constructor; [split; [done|by eapply (full_siblings_sparse _ 17 42)]|].
  do 2 (constructor; [by apply sparse_read_access_ok|]).
  constructor; [split; [done|by eapply (full_siblings_sparse _ 0 59)]|]. constructor.
Qed.
