(* ===== verification/UarchProofs.v ===== *)
(** * What the verifiers guarantee

    The theorems about [verify_step_uarch], [verify_reset_uarch] and the
    logs they check, with concrete instances over the symbolic hasher. *)

From S2P Require Import Prelude Shadow SolidityCompat UarchStep UarchSim HashTree Memory UarchFacts AccessLog SymHash Machine MachineFacts UarchReplay ReplaySound UarchRecord RecordSound ReplayAccepts UarchMachine Recording Samples.

Section sound.
Context {cfg : BuildConfig} `{CollisionFree H}.
Context (get_uarch_pristine_state_hash : H) (pristine : memory).

(** C1: soundness of step verification.  When the hash is collision free
    and every access of the log carries the siblings of its path to a
    2^64-byte root, a log that [verify_step_uarch] accepts from the root
    hash of a memory proves a step: the root hash returned is that of the
    memory after one [uarch_step] of the specification, and the one
    expected, if one was given. *)
Theorem verify_step_uarch_sound m log root_hash_after r :
  Forall access_ok log ->
  verify_step_uarch get_uarch_pristine_state_hash (root_hash_of m) log root_hash_after = Ret r ->
  exists status m', spec_step pristine m = (Ret status, m') /\ r = root_hash_of m' /\
    (forall h, root_hash_after = Some h -> r = h).
Proof. apply verify_step_replay. Qed.

(** C2: soundness of reset verification, under the same conditions on the
    log: the root hash returned is that of the memory with the
    microarchitecture reset, or the recorded revert root hash when the
    machine has rejected an input. *)
Theorem verify_reset_uarch_sound m log root_hash_after r :
  pristine_hash_ok get_uarch_pristine_state_hash pristine -> Forall access_ok log ->
  verify_reset_uarch get_uarch_pristine_state_hash (root_hash_of m) log root_hash_after = Ret r ->
  r = canonical_root_after_reset pristine m /\ (forall h, root_hash_after = Some h -> r = h).
Proof. apply verify_reset_replay. Qed.
End sound.

Section complete.
Context {cfg : BuildConfig} `{IHasher H}.
Context (uarch_pristine_ram : list Z) (pristine : memory) (get_uarch_pristine_state_hash : H).

(** C3: completeness of step logs.  On a well-formed machine, when a step
    returns on the machine itself (through the direct state access, no log
    taken), [log_step_uarch] returns a log: neither the recording nor its
    own verification of the log can fail.  The machine is left with the
    contents of the direct step, the log has at most 13 accesses, and it is
    accepted by [verify_step_uarch] from the root hash before to the root
    hash after. *)
Theorem log_step_uarch_correct log_type m status m1 :
  machine_ok m -> hash_function_is_keccak256 m = true -> is_unreproducible m = false ->
  @uarch_step cfg _ (direct_access uarch_pristine_ram) m = (Ret status, m1) ->
  exists log m', log_step_uarch uarch_pristine_ram get_uarch_pristine_state_hash log_type m = (Ret log, m') /\
    machine_ok m' /\ m_contents m' = m_contents m1 /\ Z.of_nat (length log) <= 13 /\
    verify_step_uarch get_uarch_pristine_state_hash (root_hash_of (m_contents m)) log
      (Some (root_hash_of (m_contents m'))) = Ret (root_hash_of (m_contents m')).
Proof.
  intros Hok Hk Hu E. destruct (record_step_run uarch_pristine_ram log_type m status m1 Hok E) as (s' & Es & Ht & Hlen).
  exists (m_accesses (m_log s')), (set_ht (fun c _ => c) (m_m s')).
  assert (Hl : Z.of_nat (length (m_accesses (m_log s'))) < 2 ^ 32) by (unfold log_size in Hlen; lia).
  split; [by eapply log_step_uarch_run|].
  split; [apply machine_ok_set_ht, Ht|]. split; [apply (tracks_contents _ _ Ht)|]. split; [exact Hlen|].
  by eapply record_step_verifies.
Qed.

End complete.

(** ** Logs with too few siblings

    [make_proof] takes the depth of the tree from the number of siblings in
    the access, and the replay never checks it. *)
Section truncated.
Context {cfg : BuildConfig} `{IHasher H}.
Context (get_uarch_pristine_state_hash : H) (pristine : memory).





End truncated.

(** ** Instances *)

#[local] Existing Instance debug_build.

Lemma verify_step_uarch_sound_witness :
  exists status m', spec_step ∅ sample_memory = (Ret status, m') /\
    root_hash_of sample_memory_3 = root_hash_of (H:=sym_hash) m'.
Proof.
  destruct (verify_step_uarch_sound (Pristine 17) ∅ sample_memory sample_step_log None
              (root_hash_of sample_memory_3)) as (status & m' & E & Hr & _).
  - exact sample_step_log_ok.
  - rewrite <-!sparse_root_spec. vm_compute. reflexivity.
  - exists status, m'. split; assumption.
Defined.

Lemma verify_reset_uarch_sound_witness :
  canonical_root_after_reset ∅ sample_rejected_memory =
    SymBytes ([0x88; 0x77; 0x66; 0x55; 0x44; 0x33; 0x22; 0x11] ++ replicate 24 0).
Proof.
  symmetry. refine (proj1 (verify_reset_uarch_sound (Pristine 17) ∅ sample_rejected_memory sample_reset_log None
    (SymBytes ([0x88; 0x77; 0x66; 0x55; 0x44; 0x33; 0x22; 0x11] ++ replicate 24 0)) _ _ _)).
  - symmetry. apply pristine_node.
  - exact sample_reset_log_ok.
  - rewrite <-sparse_root_spec. vm_compute. reflexivity.
Defined.

Lemma log_step_uarch_correct_witness :
  exists log m', log_step_uarch [] (Pristine 17) {| m_annotations := false; m_large_data := false |} sample_machine
      = (Ret log, m') /\
    m_contents m' = m_contents (@uarch_step debug_build _ (direct_access []) sample_machine).2.
Proof.
  destruct (log_step_uarch_correct (cfg := debug_build) [] (Pristine 17) {| m_annotations := false; m_large_data := false |}
    sample_machine Success (@uarch_step debug_build _ (direct_access []) sample_machine).2 sample_machine_ok eq_refl eq_refl)
    as (log & m' & Elog & _ & Espec & _); [vm_compute; reflexivity|].
  exists log, m'. split; [exact Elog|exact Espec].
Defined.


