(* ===== verification/IsaProofs.v ===== *)
(** * What a microarchitecture step computes

    The theorems about [uarch_step]: which instruction it runs, what it does
    to the registers and the memory, when it stops, and what it never does. *)

From S2P Require Import Prelude Bits Shadow SolidityCompat UarchStep UarchSim Rv64i UarchDecode HashTree Memory UarchFacts AccessLog SymHash Machine MachineFacts UarchMemory UarchIsa UarchReplay ReplaySound UarchRecord RecordSound ReplayAccepts UarchMachine UarchInvariant Samples.

Section step.
Context {cfg : BuildConfig} (pristine : memory).

Abbreviation cycle_of m := (mem_read m shadow_uarch_state_what.uarch_cycle).
Abbreviation halt_of m := (mem_read m shadow_uarch_state_what.uarch_halt_flag).
Abbreviation pc_of m := (mem_read m shadow_uarch_state_what.uarch_pc).
Abbreviation insn_of m := (load_bytes m (pc_of m) 4).

(** The fetch of a step that runs. *)
Lemma spec_step_fetch m :
  cycle_of m < UARCH_CYCLE_MAX -> halt_of m = 0 -> pc_of m mod 4 = 0 ->
  spec_step pristine m =
    (@executeInsn cfg _ (spec_access pristine) (insn_of m) (pc_of m) ;;
     modify (mem_write shadow_uarch_state_what.uarch_cycle (uint64 (cycle_of m + 1))) ;; mret Success) m.
Proof.
  intros Hc Hh Hp. unfold spec_step, uarch_step, readCycle, readHaltFlag, readPc, writeCycle.
  erewrite bind_Ret by reflexivity. rewrite (proj2 (Z.leb_gt _ _) Hc).
  erewrite bind_Ret by reflexivity. rewrite Hh. cbn [Z.eqb negb].
  erewrite bind_Ret by reflexivity.
  erewrite bind_Ret by (apply readUint32_run; [apply mem_read_range|done]). reflexivity.
Qed.

Lemma insn_u32 m : pc_of m mod 4 = 0 -> is_u 32 (insn_of m).
Proof.
  intros Hp. rewrite load_bytes_field by (lia || (apply aligned_in_word; auto)). by apply bitfield_range.
Qed.

(** C6: a step runs one RV64I instruction.  When the machine is running,
    its pc is a multiple of 4, register x0 holds zero and the word at pc is
    an instruction other than ECALL and EBREAK whose memory access, if
    any, is aligned, the step succeeds; the registers, the bytes of memory
    and the pc are changed as the manual says, and the cycle counter is
    incremented. *)
Theorem uarch_step_rv64i m n :
  cycle_of m < UARCH_CYCLE_MAX -> halt_of m = 0 -> pc_of m mod 4 = 0 -> x0_zero m ->
  decode (insn_of m) = Some n -> n <> ECALL -> n <> EBREAK -> access_aligned n (insn_of m) (x_reg m) ->
  exists m', spec_step pristine m = (Ret Success, m') /\
    m' ≡ mem_write shadow_uarch_state_what.uarch_cycle (cycle_of m + 1) (isa_step n (insn_of m) (pc_of m) m).
Proof.
  intros Hc Hh Hp Hz Hd Hec Heb Ha. rewrite spec_step_fetch by done. rewrite executeInsn_decode, Hd by (by apply insn_u32).
  destruct (handler_isa pristine (insn_of m) (pc_of m) m Hz n Hec Heb Ha) as (m' & E & Hm).
  erewrite bind_Ret by exact E. eexists. split; [reflexivity|]. rewrite Hm.
  pose proof (mem_read_range m shadow_uarch_state_what.uarch_cycle) as Hr. unfold uint64, is_u in *.
  rewrite uwrap_small; [done|]. unfold is_u, UARCH_CYCLE_MAX, UARCH_LOG2_CYCLE_MAX in *. change (Z.shiftl 1 20) with 1048576 in Hc. lia.
Qed.


(** C8: a word that is no instruction stops the machine: the step throws,
    and nothing has changed, the cycle counter included. *)
Theorem uarch_step_illegal m :
  cycle_of m < UARCH_CYCLE_MAX -> halt_of m = 0 -> pc_of m mod 4 = 0 -> decode (insn_of m) = None ->
  spec_step pristine m = (Throw (runtime_error "illegal instruction"), m).
Proof.
  intros Hc Hh Hp Hd. rewrite spec_step_fetch by done. by rewrite executeInsn_decode, Hd by (by apply insn_u32).
Qed.

(** The halt call.  ECALL with function 1 in a7 sets the halt flag and
    leaves pc where it is; the step counts as a cycle, and from then on
    every step reports the halt. *)
Theorem uarch_step_halt m :
  cycle_of m + 1 < UARCH_CYCLE_MAX -> halt_of m = 0 -> pc_of m mod 4 = 0 ->
  decode (insn_of m) = Some ECALL -> mem_read m (uarch_x_address 17) = UARCH_ECALL_FN_HALT ->
  exists m', spec_step pristine m = (Ret Success, m') /\ pc_of m' = pc_of m /\ halt_of m' = 1 /\
    cycle_of m' = cycle_of m + 1 /\ spec_step pristine m' = (Ret UArchHalted, m').
Proof.
  intros Hc Hh Hp Hd Hfn. rewrite spec_step_fetch by (done || lia). rewrite executeInsn_decode, Hd by (by apply insn_u32).
  cbn [handler]. unfold executeECALL. eexists. split.
  { erewrite bind_Ret; [reflexivity|]. erewrite bind_Ret by reflexivity.
    change (readX 17 m) with (Ret (mem_read m (uarch_x_address 17)), m). rewrite Hfn. reflexivity. }
  set (m' := mem_write _ _ _).
  assert (Hpc : pc_of m' = pc_of m) by (unfold m'; by rewrite !mem_read_write, !decide_False by done).
  assert (Hhalt : halt_of m' = 1) by (unfold m'; by rewrite !mem_read_write, decide_False, decide_True by done).
  assert (Hcy : cycle_of m' = cycle_of m + 1).
  { unfold m'. rewrite mem_read_write, decide_True by done. pose proof (mem_read_range m shadow_uarch_state_what.uarch_cycle).
    unfold UARCH_CYCLE_MAX, UARCH_LOG2_CYCLE_MAX, is_u, uint64 in *. change (Z.shiftl 1 20) with 1048576 in Hc.
    rewrite uwrap_idem, uwrap_small by (unfold is_u; lia). lia. }
  repeat split; try done. apply spec_step_halted; [lia|]. by rewrite Hhalt.
Qed.
End step.

Section dispatch.
Context {cfg : BuildConfig} {S : Type} {a : IUarchStateAccess S}.

(** C10: [executeInsn] decodes RV64I.  Whatever the state access, its chain
    of matches, which is sorted by frequency, runs on every 32-bit word the
    handler of the one instruction whose mask and match values the word
    satisfies, and throws on all other words. *)
Theorem executeInsn_dispatch insn pc :
  is_u 32 insn ->
  executeInsn insn pc =
    match decode insn with
    | Some n => handler n insn pc
    | None => throwRuntimeError "illegal instruction"
    end.
Proof. apply executeInsn_decode. Qed.
End dispatch.

(** C11: register x0 stays zero.  On a well-formed machine whose x0 holds
    zero, it still does after [run_uarch], however far it got: no
    instruction, store or TLB update writes its word. *)
Theorem run_uarch_keeps_x0 {cfg : BuildConfig} uarch_pristine_ram fuel cycle_end m result m' :
  machine_ok m -> x0_zero (m_contents m) ->
  run_uarch uarch_pristine_ram fuel cycle_end m = (Ret result, m') ->
  machine_ok m' /\ x0_zero (m_contents m').
Proof.
  intros Hok Hz E. unfold run_uarch in E. inv_bind E. unfold require_keccak256 in Hm.
  apply bind_Ret_inv in Hm as (m1 & s1 & [= <- <-] & Hm). destruct (hash_function_is_keccak256 m); [|done].
  injection Hm as _ <-. apply bind_Ret_inv in Hk as (m1 & s1 & [= <- <-] & E).
  destruct (is_unreproducible m); [done|]. by apply interpret_keeps_x0 in E.
Qed.

Section stores.
Context {cfg : BuildConfig} (pristine : memory).
#[local] Hint Extern 0 (IUarchStateAccess memory) => exact (spec_access pristine) : typeclass_instances.

(** The store of [n] bytes that the stepper uses for each width. *)
Definition writeUint (n : Z) (p v : Z) : M memory unit :=
  if n =? 1 then writeUint8 p v else if n =? 2 then writeUint16 p v else if n =? 4 then writeUint32 p v else writeUint64 p v.
Definition readUint (n : Z) (p : Z) : M memory Z :=
  if n =? 1 then readUint8 p else if n =? 2 then readUint16 p else if n =? 4 then readUint32 p else readUint64 p.

Lemma writeUint_run n p v (m : memory) :
  n = 1 \/ n = 2 \/ n = 4 \/ n = 8 -> is_u 64 p -> p mod n = 0 -> is_u (8 * n) v ->
  exists m', writeUint n p v m = (Ret (), m') /\ m' ≡ store_bytes m p n v.
Proof.
  intros [->|[->|[->| ->]]] Hp Ha Hv; unfold writeUint; cbn [Z.eqb Pos.eqb].
  - by apply writeUint8_run.
  - by apply writeUint16_run.
  - by apply writeUint32_run.
  - eexists. split; [by apply writeUint64_run|]. symmetry. by apply store_word.
Qed.

Lemma readUint_run n p (m : memory) :
  n = 1 \/ n = 2 \/ n = 4 \/ n = 8 -> is_u 64 p -> p mod n = 0 -> readUint n p m = (Ret (load_bytes m p n), m).
Proof.
  intros [->|[->|[->| ->]]] Hp Ha; unfold readUint; cbn [Z.eqb Pos.eqb].
  - by apply readUint8_run.
  - by apply readUint16_run.
  - by apply readUint32_run.
  - rewrite load_word by done. by apply readUint64_run.
Qed.

Lemma width_in_word n p : n = 1 \/ n = 2 \/ n = 4 \/ n = 8 -> p mod n = 0 -> p mod 8 + n <= 8.
Proof.
  intros Hn Ha. pose proof (Z.mod_pos_bound p 8 ltac:(lia)). pose proof (Z.div_mod p 8 ltac:(lia)).
  pose proof (Z.div_mod p n ltac:(lia)). nia.
Qed.

(** C12: stores by read-modify-write.  An aligned store of 1, 2, 4 or 8
    bytes succeeds and changes exactly these bytes, to those of the value
    in little-endian order; loading as many bytes back gives the value. *)
Theorem store_changes_its_bytes n p v (m : memory) :
  n = 1 \/ n = 2 \/ n = 4 \/ n = 8 -> is_u 64 p -> p mod n = 0 -> is_u (8 * n) v ->
  exists m', writeUint n p v m = (Ret (), m') /\
    (forall q, byte_at m' q = if decide (p <= q < p + n) then bitfield (8 * (q - p)) 8 v else byte_at m q) /\
    readUint n p m' = (Ret v, m').
Proof.
  intros Hn Hp Ha Hv. destruct (writeUint_run n p v m Hn Hp Ha Hv) as (m' & E & Hm).
  pose proof (width_in_word n p Hn Ha) as Hw. exists m'. split; [exact E|]. split.
  - intros q. rewrite <-byte_at_store by lia. rewrite !byte_at_field. by rewrite Hm.
  - rewrite readUint_run by done. do 2 f_equal. rewrite load_bytes_field by lia.
    rewrite Hm, (store_bytes_field m p n v) by lia. rewrite mem_read_write, decide_True by done.
    pose proof (Z.mod_pos_bound p 8 ltac:(lia)).
    unfold uint64. rewrite uwrap_small by (apply replace_bits_range; lia).
    rewrite field_replace_same by lia. by apply uwrap_small.
Qed.
End stores.

(** ** Instances *)

Definition sample_illegal_memory : memory :=
  list_to_map [(word_index shadow_uarch_state_what.uarch_pc, AR_UARCH_RAM_START)].
Definition sample_halt_memory : memory :=
  list_to_map [(word_index shadow_uarch_state_what.uarch_pc, AR_UARCH_RAM_START + 4);
               (word_index (uarch_x_address 17), UARCH_ECALL_FN_HALT);
               (word_index AR_UARCH_RAM_START, 0x0000007300000013)].

Lemma uarch_step_rv64i_witness :
  exists m', @spec_step debug_build ∅ sample_memory = (Ret Success, m') /\
    m' ≡ mem_write shadow_uarch_state_what.uarch_cycle 1 (isa_step ADDI 0x00500093 AR_UARCH_RAM_START sample_memory).
Proof.
  apply (uarch_step_rv64i (cfg := debug_build) ∅ sample_memory ADDI);
    first [discriminate|vm_compute; reflexivity].
Defined.


Lemma uarch_step_illegal_witness :
  @spec_step debug_build ∅ sample_illegal_memory = (Throw (runtime_error "illegal instruction"), sample_illegal_memory).
Proof. apply (uarch_step_illegal (cfg := debug_build) ∅ sample_illegal_memory); vm_compute; reflexivity. Defined.

Lemma uarch_step_halt_witness :
  exists m', @spec_step debug_build ∅ sample_halt_memory = (Ret Success, m') /\
    @spec_step debug_build ∅ m' = (Ret UArchHalted, m').
Proof.
  destruct (uarch_step_halt (cfg := debug_build) ∅ sample_halt_memory) as (m' & E & _ & _ & _ & E');
    [vm_compute; reflexivity..|].
  exists m'. split; assumption.
Defined.

Lemma executeInsn_dispatch_witness :
  @executeInsn debug_build memory (spec_access ∅) 0x00500093 0 = @executeADDI memory (spec_access ∅) 0x00500093 0.
Proof.
  pose proof (executeInsn_dispatch (cfg := debug_build) (a := spec_access ∅) 0x00500093 0) as E.
  assert (Hd : decode 0x00500093 = Some ADDI) by (vm_compute; reflexivity).
  rewrite Hd in E. apply E. split; [discriminate|reflexivity].
Defined.

Lemma run_uarch_keeps_x0_witness : x0_zero (m_contents (@run_uarch debug_build [] 2 1 sample_machine).2).
Proof.
  apply (run_uarch_keeps_x0 (cfg := debug_build) [] 2 1 sample_machine (Some reached_target_cycle)
    (@run_uarch debug_build [] 2 1 sample_machine).2 sample_machine_ok); vm_compute; reflexivity.
Defined.

Lemma store_changes_its_bytes_witness :
  exists m', @writeUint debug_build ∅ 2 0x80000006 0xbeef sample_memory = (Ret (), m') /\
    @readUint debug_build ∅ 2 0x80000006 m' = (Ret 0xbeef, m').
Proof.
  destruct (store_changes_its_bytes (cfg := debug_build) ∅ 2 0x80000006 0xbeef sample_memory) as (m' & E & _ & E');
    [by auto|split; [discriminate|reflexivity]|reflexivity|split; [discriminate|reflexivity]|].
  exists m'. split; assumption.
Defined.
