(* ===== verification/MachineProofs.v ===== *)
(** * The state of the machine

    The theorems about registers and memory regions: what is written is
    what is read back, and nothing else changes. *)

From S2P Require Import Prelude Bits Htif Shadow SolidityCompat UarchStep HashTree Memory UarchFacts AccessLog SymHash Machine MachineFacts UarchMemory UarchReplay ReplaySound Samples.

(** ** Bytes *)

(** Writing one byte, seen by bytes. *)
Lemma byte_at_write_byte c p b q :
  is_u 8 b -> byte_at (mem_write_byte p b c) q = if decide (q = p) then b else byte_at c q.
Proof.
  intros Hb. pose proof (Z.mod_pos_bound p 8 ltac:(lia)).
  change (mem_write_byte p b c) with (mem_write_bytes p [b] c).
  pose proof (byte_at_store c p 1 b q ltac:(lia) ltac:(lia)) as E. unfold store_bytes in E.
  assert (Hle : le_bytes 1 b = [b]).
  { unfold le_bytes, Z_to_little_endian. simpl. rewrite Z.land_ones by lia. by rewrite Z.mod_small. }
  rewrite Hle in E. rewrite E. clear E. do 2 case_decide; try lia.
  replace (8 * (q - p)) with 0 by lia. unfold bitfield. rewrite Z.shiftr_0_r, Z.land_ones by lia. by apply Z.mod_small.
Qed.

(** Writing a region. *)
Lemma byte_at_write_bytes c p data q :
  Forall (is_u 8) data ->
  byte_at (mem_write_bytes p data c) q =
    if decide (p <= q < p + Z.of_nat (length data)) then default 0 (data !! Z.to_nat (q - p)) else byte_at c q.
Proof.
  revert p c. induction data as [|b data IH]; intros p c Hd; cbn [mem_write_bytes length].
  { by rewrite decide_False by lia. }
  apply Forall_cons in Hd as [Hb Hd]. rewrite IH, byte_at_write_byte by done. rewrite Nat2Z.inj_succ.
  destruct (decide (q = p)) as [->|Hne].
  - rewrite decide_False, decide_True by lia. by rewrite Z.sub_diag.
  - repeat case_decide; try lia. replace (Z.to_nat (q - p)) with (S (Z.to_nat (q - (p + 1)))) by lia. done.
Qed.

Lemma bytes_at_write_bytes c p data :
  Forall (is_u 8) data -> bytes_at (mem_write_bytes p data c) p (Z.of_nat (length data)) = data.
Proof.
  intros Hd. unfold bytes_at. apply list_eq. intros k. rewrite list_lookup_fmap.
  destruct (decide (k < length data)%nat) as [Hk|Hk].
  - rewrite lookup_seqZ_lt by lia. simpl. rewrite byte_at_write_bytes, decide_True by (done || lia).
    replace (Z.to_nat (p + Z.of_nat k - p)) with k by lia.
    by destruct (lookup_lt_is_Some_2 data k Hk) as [b ->].
  - rewrite lookup_seqZ_ge by lia. symmetry. apply lookup_ge_None. lia.
Qed.

(** *** Regions within a memory range keep the machine well-formed *)

Lemma machine_ok_write_bytes m p data :
  machine_ok m -> Forall (is_u 8) data ->
  (exists ar, ar ∈ hash_tree_view m /\ is_memory ar = true /\ m_start ar <= p /\ p + Z.of_nat (length data) <= m_end ar) ->
  machine_ok (set_contents (mem_write_bytes p data) m).
Proof.
  intros Hok Hd (ar & Hin & Hmem & Hs & He). destruct Hok as [Hsort Hb Hall Hsh Hus]. split; [done| |done..].
  intros q Hq Hc. cbn [set_contents m_contents]. rewrite byte_at_write_bytes by done.
  rewrite decide_False; [by apply Hb|]. intros Hr. apply (Hc ar Hin). split; [done|]. lia.
Qed.

Lemma write_memory_Ret p data m x m' :
  machine_ok m -> is_u 64 p -> data <> [] -> write_memory p data m = (Ret x, m') ->
  m' = set_contents (mem_write_bytes p data) m /\
  exists ar, ar ∈ hash_tree_view m /\ is_memory ar = true /\ is_host_read_only ar = false /\
    m_start ar <= p /\ p + Z.of_nat (length data) <= m_end ar.
Proof.
  intros Hok Hp Hne E. unfold write_memory in E.
  destruct (Z.of_nat (length data) =? 0) eqn:E0; [by destruct data|].
  apply bind_Ret_inv in E as (m0 & s0 & [= <- <-] & E). set (ar := find (m_all m) p (Z.of_nat (length data))) in *.
  apply bind_Ret_inv in E as (u & s1 & Eg & E). injection E as _ <-.
  assert (Hg : s1 = m /\ is_memory ar = true /\ is_host_read_only ar = false).
  { unfold check_writeable_range in Eg. destruct (is_device ar); [done|]. destruct (is_memory ar); [|done].
    destruct (is_host_read_only ar); [done|]. cbn [negb] in Eg. destruct (_ && _); [done|]. by injection Eg as _ <-. }
  destruct Hg as (-> & Hmem & Hro). split; [done|].
  destruct (find_Some (m_all m) p (Z.of_nat (length data)) Hmem) as [Hin Hc]. fold ar in Hin, Hc.
  apply (ok_memory m Hok) in Hin; [|done].
  pose proof (sorted_from_elem _ _ _ (ok_sorted m Hok) ltac:(lia) Hin) as (Hr & He & _).
  apply contains_absolute_spec in Hc; [|done..|lia]. by exists ar.
Qed.

(** C13: writing memory.  When [write_memory] accepts a region of bytes, the
    machine stays well-formed, [read_memory] of the region gives the bytes
    back, and every byte outside of the region is unchanged. *)
Theorem write_memory_read_memory p data m x m' :
  machine_ok m -> is_u 64 p -> data <> [] -> Forall (is_u 8) data -> write_memory p data m = (Ret x, m') ->
  machine_ok m' /\
  read_memory p (Z.of_nat (length data)) m' = (Ret data, m') /\
  (forall q, ~ (p <= q < p + Z.of_nat (length data)) -> byte_at (m_contents m') q = byte_at (m_contents m) q).
Proof.
  intros Hok Hp Hne Hd E. apply write_memory_Ret in E as (-> & ar & Hin & Hmem & _ & Hs & He); [|done..].
  pose proof (sorted_from_elem _ _ _ (ok_sorted m Hok) ltac:(lia) Hin) as (Hr & Hend & _).
  assert (Hok' : machine_ok (set_contents (mem_write_bytes p data) m))
    by (apply machine_ok_write_bytes; [done|done|by exists ar]).
  split; [done|]. split.
  - rewrite read_memory_spec by (done || lia). cbn [set_contents m_contents]. by rewrite bytes_at_write_bytes.
  - intros q Hq. cbn [set_contents m_contents]. by rewrite byte_at_write_bytes, decide_False.
Qed.

(** C14: reading memory.  On a well-formed machine [read_memory] always
    returns the contents of the region: across the boundaries of ranges,
    and with zeros for the gaps between them and for devices. *)
Theorem read_memory_contents p len m :
  machine_ok m -> 0 <= p < 2 ^ 64 -> 0 <= len -> p + len <= 2 ^ 64 ->
  read_memory p len m = (Ret (bytes_at (m_contents m) p len), m).
Proof. apply read_memory_spec. Qed.

(** ** Registers *)

(** The word of the shadow a register is stored in, and the part of a value
    that it keeps: the views of tohost and fromhost are fields of them. *)
Definition reg_word (r : Z) : Z :=
  if (machine_reg.htif_tohost_dev <=? r) && (r <=? machine_reg.htif_tohost_data) then machine_reg.htif_tohost
  else if (machine_reg.htif_fromhost_dev <=? r) && (r <=? machine_reg.htif_fromhost_data) then machine_reg.htif_fromhost
  else r.
Definition reg_value (r v : Z) : Z :=
  if (r =? machine_reg.htif_tohost_dev) || (r =? machine_reg.htif_tohost_cmd)
     || (r =? machine_reg.htif_fromhost_dev) || (r =? machine_reg.htif_fromhost_cmd) then uint8 v
  else if (r =? machine_reg.htif_tohost_reason) || (r =? machine_reg.htif_fromhost_reason) then uint16 v
  else if (r =? machine_reg.htif_tohost_data) || (r =? machine_reg.htif_fromhost_data) then uint32 v
  else v.

Section registers.
Context (MARCHID_INIT MIMPID_INIT : Z).

(** Reading back a field of a word that was replaced. *)
Lemma read_updated_field r lo len v m :
  0 <= lo -> 0 <= len -> lo + len <= 64 ->
  bitfield lo len (mem_read (m_contents (set_contents (fun c => mem_write r (replace_bits lo len v (mem_read c r)) c) m)) r)
    = uwrap len v.
Proof.
  intros. cbn [set_contents m_contents]. rewrite mem_read_write, decide_True by done. unfold uint64.
  rewrite uwrap_small by (apply replace_bits_range; lia). by apply field_replace_same.
Qed.

(** Every register that [write_reg] accepts: a word of a shadow that is not
    read-only, or one of the eight views. *)
Lemma write_reg_cases r v m m' :
  write_reg r v m = (Ret (), m') ->
  (is_read_only_reg r = false /\ is_machine_reg r = true /\ m' = set_contents (mem_write r v) m) \/
  (exists lo len, 0 <= lo /\ 0 <= len /\ lo + len <= 64 /\ reg_value r v = uwrap len v /\
     (reg_word r = machine_reg.htif_tohost \/ reg_word r = machine_reg.htif_fromhost) /\
     m' = set_contents (fun c => mem_write (reg_word r) (replace_bits lo len v (mem_read c (reg_word r))) c) m /\
     forall m0, read_reg MARCHID_INIT MIMPID_INIT r m0 = (Ret (bitfield lo len (mem_read (m_contents m0) (reg_word r))), m0)).
Proof.
  intros E. unfold write_reg in E. destruct (is_read_only_reg r) eqn:Hro; [done|].
  destruct (is_machine_reg r) eqn:Hr; [left; injection E as <-; done|]. right.
  destruct (r =? machine_reg.htif_tohost_dev) eqn:E1; [exists 56, 8|].
  2: destruct (r =? machine_reg.htif_tohost_cmd) eqn:E2; [exists 48, 8|].
  3: destruct (r =? machine_reg.htif_tohost_reason) eqn:E3; [exists 32, 16|].
  4: destruct (r =? machine_reg.htif_tohost_data) eqn:E4; [exists 0, 32|].
  5: destruct (r =? machine_reg.htif_fromhost_dev) eqn:E5; [exists 56, 8|].
  6: destruct (r =? machine_reg.htif_fromhost_cmd) eqn:E6; [exists 48, 8|].
  7: destruct (r =? machine_reg.htif_fromhost_reason) eqn:E7; [exists 32, 16|].
  8: destruct (r =? machine_reg.htif_fromhost_data) eqn:E8; [exists 0, 32|done].
  all: match goal with Er : (?x =? _) = true |- _ => apply Z.eqb_eq in Er; subst x end.
  all: injection E as <-; do 3 (split; [lia|]); split; [reflexivity|]; split; [vm_compute; auto|]; split; [reflexivity|].
  all: intros m0; unfold read_reg; cbv zeta.
  all: rewrite <-?HTIF_DEV_FIELD_spec, <-?HTIF_CMD_FIELD_spec, <-?HTIF_REASON_FIELD_spec, <-?HTIF_DATA_FIELD_spec; reflexivity.
Qed.

Lemma read_reg_word r m :
  is_read_only_reg r = false -> is_machine_reg r = true ->
  read_reg MARCHID_INIT MIMPID_INIT r m = (Ret (mem_read (m_contents m) r), m).
Proof.
  intros Hro Hr. unfold read_reg, is_read_only_reg in *. cbv zeta.
  apply orb_false_iff in Hro as [Hro _]. apply orb_false_iff in Hro as [Hro ->].
  apply orb_false_iff in Hro as [Hro ->]. apply orb_false_iff in Hro as [_ ->]. by rewrite Hr.
Qed.

Lemma is_machine_reg_u63 r : is_u 64 r -> is_machine_reg r = true -> is_u 63 r.
Proof.
  intros Hr E. unfold is_machine_reg in E.
  apply orb_true_iff in E as [E|E]; apply andb_true_iff in E as [_ E]; by apply in_range_reg in E.
Qed.

Lemma reg_word_small r : is_u 63 r -> reg_word r = r.
Proof.
  intros Hr. unfold reg_word, machine_reg.htif_tohost_dev, machine_reg.htif_fromhost_dev, unknown_, is_u in *.
  change (Z.shiftl 1 63) with (2 ^ 63). rewrite (proj2 (Z.leb_gt (2 ^ 63 + 1) r)) by lia.
  by rewrite (proj2 (Z.leb_gt (2 ^ 63 + 5) r)) by lia.
Qed.

Lemma reg_value_small r v : is_u 63 r -> reg_value r v = v.
Proof.
  intros Hr. unfold reg_value.
  assert (Hv : forall k, 0 <= k -> (r =? unknown_ + k) = false)
    by (intros k Hk; apply Z.eqb_neq; change unknown_ with (2 ^ 63); unfold is_u in *; lia).
  unfold machine_reg.htif_tohost_dev, machine_reg.htif_tohost_cmd, machine_reg.htif_tohost_reason,
    machine_reg.htif_tohost_data, machine_reg.htif_fromhost_dev, machine_reg.htif_fromhost_cmd,
    machine_reg.htif_fromhost_reason, machine_reg.htif_fromhost_data. by rewrite !Hv by lia.
Qed.

(** C15: registers.  A value that [write_reg] accepts for a register is
    read back by [read_reg], cut to the width of the field for the views
    of tohost and fromhost; every other word of the contents is unchanged. *)
Theorem write_reg_read_reg r v m m' :
  is_u 64 r -> is_u 64 v -> write_reg r v m = (Ret (), m') ->
  read_reg MARCHID_INIT MIMPID_INIT r m' = (Ret (reg_value r v), m') /\
  (forall q, word_index q <> word_index (reg_word r) -> mem_read (m_contents m') q = mem_read (m_contents m) q).
Proof.
  intros Hru Hv E.
  apply write_reg_cases in E as [(Hro & Hr & ->)|(lo & len & Hlo & Hlen & Hw & -> & Hword & -> & Hread)].
  - pose proof (is_machine_reg_u63 r Hru Hr) as H63. rewrite read_reg_word, reg_word_small, reg_value_small by done.
    cbn [set_contents m_contents]. split; [|intros q Hq; by rewrite mem_read_write, decide_False].
    rewrite mem_read_write, decide_True by done. unfold uint64. by rewrite uwrap_small.
  - rewrite Hread, read_updated_field by done. split; [done|].
    intros q Hq. cbn [set_contents m_contents]. by rewrite mem_read_write, decide_False.
Qed.
End registers.

(** ** Instances *)

(** Three bytes across two words of the RAM. *)
Lemma write_memory_read_memory_witness :
  read_memory (AR_RAM_START + 6) 3 (write_memory (AR_RAM_START + 6) [1; 2; 3] sample_machine).2 =
    (Ret [1; 2; 3], (write_memory (AR_RAM_START + 6) [1; 2; 3] sample_machine).2).
Proof.
  apply (write_memory_read_memory (AR_RAM_START + 6) [1; 2; 3] sample_machine ()
    (write_memory (AR_RAM_START + 6) [1; 2; 3] sample_machine).2 sample_machine_ok).
  - split; [discriminate|reflexivity].
  - discriminate.
  - repeat (constructor; [split; [discriminate|reflexivity]|]). constructor.
  - vm_compute. reflexivity.
Defined.

(** The end of the shadow state and the gap after it. *)
Lemma read_memory_contents_witness :
  read_memory (AR_SHADOW_STATE_START + AR_SHADOW_STATE_LENGTH - 4) 8 sample_machine =
    (Ret (bytes_at (m_contents sample_machine) (AR_SHADOW_STATE_START + AR_SHADOW_STATE_LENGTH - 4) 8), sample_machine).
Proof.
  apply (read_memory_contents (AR_SHADOW_STATE_START + AR_SHADOW_STATE_LENGTH - 4) 8 sample_machine sample_machine_ok);
    [split; [discriminate|reflexivity]|discriminate|discriminate].
Defined.

(** A view of tohost keeps the low byte only. *)
Lemma write_reg_read_reg_witness :
  read_reg 0 0 machine_reg.htif_tohost_cmd (write_reg machine_reg.htif_tohost_cmd 0x1234 sample_machine).2 =
    (Ret 0x34, (write_reg machine_reg.htif_tohost_cmd 0x1234 sample_machine).2).
Proof.
  apply (write_reg_read_reg 0 0 machine_reg.htif_tohost_cmd 0x1234 sample_machine
    (write_reg machine_reg.htif_tohost_cmd 0x1234 sample_machine).2);
    [split; [discriminate|reflexivity]|split; [discriminate|reflexivity]|vm_compute; reflexivity].
Defined.

(** * Encodings and hash tree proofs

    The theorems about the packed words of the machine (PMA attributes, TLB
    slots, the words of the host-target interface) and about the proofs that
    its hash tree hands out. *)

(** PMA attributes.  Packing flags and a page-aligned start into an
    istart word and unpacking it gives them back, and every 64-bit word is
    the packing of what it unpacks to. *)
Theorem pmas_istart_roundtrip flags start istart :
  is_u 64 start -> Z.land start PAGE_OFFSET_MASK = 0 -> is_u 5 (flag_DID flags) -> is_u 64 istart ->
  pmas_unpack_istart (pmas_pack_istart flags start) = (flags, start) /\
  pmas_pack_istart (pmas_unpack_istart istart).1 (pmas_unpack_istart istart).2 = istart.
Proof. intros. split; [by apply pmas_istart_pack|by apply pmas_istart_unpack]. Qed.

(** The shadow TLB.  The address of each field of each slot is decoded
    to that field, that set and that slot. *)
Theorem shadow_tlb_addresses set_index slot_index field :
  0 <= set_index < TLB_NUM_SETS_ -> 0 <= slot_index < TLB_SET_SIZE -> field ∈ [0; 8; 16; 24] ->
  shadow_tlb_get_what (shadow_tlb_get_abs_addr set_index slot_index + field) = (field, Some (set_index, slot_index)).
Proof. apply shadow_tlb_get_what_slot. Qed.

(** TLB hits.  One comparison decides that an access of 2^k bytes falls
    in the page of the slot and is aligned. *)
Theorem tlb_hit_is_page_and_alignment k page vaddr :
  0 <= k <= 12 -> is_u 64 vaddr -> Z.land page PAGE_OFFSET_MASK = 0 ->
  tlb_is_hit (2 ^ k) page vaddr = bool_decide (tlb_addr_page vaddr = page /\ vaddr mod 2 ^ k = 0).
Proof. apply tlb_is_hit_spec. Qed.

Lemma page_offset_zero a : Z.land a PAGE_OFFSET_MASK = 0 -> a mod 4096 = 0.
Proof. change PAGE_OFFSET_MASK with (Z.ones 12). by rewrite Z.land_ones by lia. Qed.

(** C19: validating a TLB slot.  A slot that [shadow_tlb_verify_slot] accepts
    has a page-aligned virtual page whose translation is a whole page of a
    memory range. *)
Theorem shadow_tlb_verify_slot_safe vaddr_page vp_offset zero_padding ar_is_memory ar_start ar_length :
  0 <= ar_start -> AR_PAGE_SIZE <= ar_length -> ar_start + ar_length < 2 ^ 64 ->
  shadow_tlb_verify_slot vaddr_page vp_offset zero_padding ar_is_memory ar_start ar_length <> TLB_INVALID_PAGE ->
  shadow_tlb_verify_slot vaddr_page vp_offset zero_padding ar_is_memory ar_start ar_length = vaddr_page /\
  vaddr_page mod AR_PAGE_SIZE = 0 /\ zero_padding = 0 /\ ar_is_memory = true /\
  let paddr_page := uint64 (vaddr_page + vp_offset) in
  paddr_page mod AR_PAGE_SIZE = 0 /\ ar_start <= paddr_page /\ paddr_page + AR_PAGE_SIZE <= ar_start + ar_length.
Proof.
  intros Hs Hl He. unfold shadow_tlb_verify_slot. cbv zeta.
  destruct (vaddr_page =? TLB_INVALID_PAGE); [done|].
  destruct (zero_padding =? 0) eqn:Hz; [|done]. apply Z.eqb_eq in Hz.
  destruct (Z.land vaddr_page PAGE_OFFSET_MASK =? 0) eqn:Hv; [|done]. apply Z.eqb_eq, page_offset_zero in Hv.
  destruct (Z.land (uint64 (vaddr_page + vp_offset)) PAGE_OFFSET_MASK =? 0) eqn:Hp; [|done].
  apply Z.eqb_eq, page_offset_zero in Hp. destruct ar_is_memory; [|done]. cbn [negb].
  destruct (_ || _) eqn:Hr; [done|]. intros _. apply orb_false_iff in Hr as [H1 H2].
  unfold AR_PAGE_SIZE in *. unfold uint64 at 1 in H2. change (Z.shiftl 1 12) with 4096 in *.
  rewrite uwrap_small in H2 by (unfold is_u; lia). repeat split; try done; lia.
Qed.

(** The words of the host-target interface.  What [HTIF_BUILD] packs is
    read back by the field functions, cut to the widths of the fields, and
    a word is rebuilt from its fields. *)
Theorem htif_words dev cmd reason data r :
  is_u 64 r ->
  HTIF_DEV_FIELD (HTIF_BUILD dev cmd reason data) = uint8 dev /\
  HTIF_CMD_FIELD (HTIF_BUILD dev cmd reason data) = uint8 cmd /\
  HTIF_REASON_FIELD (HTIF_BUILD dev cmd reason data) = uint16 reason /\
  HTIF_DATA_FIELD (HTIF_BUILD dev cmd reason data) = uint32 data /\
  HTIF_BUILD (HTIF_DEV_FIELD r) (HTIF_CMD_FIELD r) (HTIF_REASON_FIELD r) (HTIF_DATA_FIELD r) = r.
Proof.
  intros Hr. destruct (fields_of_build dev cmd reason data) as (? & ? & ? & ?).
  repeat split; try done. by apply build_of_fields.
Qed.

(** ** Proofs *)

Section proofs.
Context `{IHasher H}.



(** Slicing.  A proof against a tree can be sliced to any enclosing
    target and any smaller root; the result is a proof of the enclosing
    node against the same tree. *)
Theorem slice_is_a_proof leaf base p nr nt :
  proof_of leaf base p -> 0 < nr <= m_log2_root_size p -> m_log2_target_size p <= nt <= nr ->
  exists q, slice p nr nt = Ret q /\ proof_of leaf base q /\
    m_log2_root_size q = nr /\ m_log2_target_size q = nt /\
    m_target_address q = m_target_address p / 2 ^ nt * 2 ^ nt.
Proof. apply slice_proof_of. Qed.
End proofs.

(** C23: binding.  Under an ideal hash, a well-formed proof that [verify]
    accepts with the root of a tree, for a target whose leaves are those of
    the tree, carries the true hash of the node and the true siblings: no
    other target hash can be proved. *)
Theorem verify_binding `{CollisionFree H} (leaf : Z -> H) n p :
  proof_wf p ->
  m_root_hash p = node leaf (n + length (m_sibling_hashes p))
    (m_target_address p / 2 ^ m_log2_target_size p / 2 ^ Z.of_nat (length (m_sibling_hashes p))) ->
  verify p = Ret true ->
  m_target_hash p = node leaf n (m_target_address p / 2 ^ m_log2_target_size p) /\
  m_sibling_hashes p = siblings leaf n (length (m_sibling_hashes p)) (m_target_address p / 2 ^ m_log2_target_size p).
Proof.
  intros Hwf Hroot Hv. rewrite verify_spec in Hv by done. injection Hv as Hv. apply bool_decide_eq_true in Hv.
  rewrite Hroot in Hv. by apply fold_up_inj in Hv.
Qed.

(** ** Instances *)

Lemma pmas_istart_roundtrip_witness :
  pmas_unpack_istart (pmas_pack_istart (sample_flags PMA_ISTART_DID.memory) AR_RAM_START) =
    (sample_flags PMA_ISTART_DID.memory, AR_RAM_START).
Proof.
  apply (pmas_istart_roundtrip (sample_flags PMA_ISTART_DID.memory) AR_RAM_START 0x80000009);
    [split; [discriminate|reflexivity]|reflexivity|split; [discriminate|reflexivity]|split; [discriminate|reflexivity]].
Defined.

Lemma shadow_tlb_addresses_witness :
  shadow_tlb_get_what (shadow_tlb_get_abs_addr TLB_WRITE 255 + 8) = (8, Some (TLB_WRITE, 255)).
Proof.
  apply (shadow_tlb_addresses TLB_WRITE 255 8); [split; [discriminate|reflexivity]..|].
  right. left.
Defined.

Lemma tlb_hit_is_page_and_alignment_witness :
  tlb_is_hit (2 ^ 3) 0x80000000 0x80000ffc =
    bool_decide (tlb_addr_page 0x80000ffc = 0x80000000 /\ 0x80000ffc mod 2 ^ 3 = 0).
Proof.
  apply (tlb_hit_is_page_and_alignment 3 0x80000000 0x80000ffc);
    [split; discriminate|split; [discriminate|reflexivity]|reflexivity].
Defined.

Lemma shadow_tlb_verify_slot_safe_witness :
  shadow_tlb_verify_slot 0x1000 0x80000000 0 true 0x80000000 0x2000 = 0x1000.
Proof.
  apply (shadow_tlb_verify_slot_safe 0x1000 0x80000000 0 true 0x80000000 0x2000);
    [discriminate|discriminate|reflexivity|vm_compute; discriminate].
Defined.

Lemma htif_words_witness : HTIF_CMD_FIELD (HTIF_BUILD 2 0x101 3 4) = 1.
Proof. apply (htif_words 2 0x101 3 4 0). split; [discriminate|reflexivity]. Defined.

(** A page-sized subtree of a sparse tree, and a proof of one of its nodes. *)
Definition sample_proof : hash_tree_proof sym_hash :=
  let leaf := leaf sample_memory in
  let i := AR_UARCH_RAM_START / 2 ^ 6 in
  {| m_target_address := AR_UARCH_RAM_START;
     m_log2_target_size := 6;
     m_target_hash := node leaf 1 i;
     m_log2_root_size := 10;
     m_root_hash := node leaf 5 (i / 2 ^ 4);
     m_sibling_hashes := siblings leaf 1 4 i |}.


Lemma slice_is_a_proof_witness :
  exists q, slice sample_proof 9 7 = Ret q /\ proof_of (leaf sample_memory) 5 q.
Proof.
  destruct (slice_is_a_proof (leaf sample_memory) 5 sample_proof 9 7) as (q & E & Hq & _).
  - repeat split; vm_compute; try reflexivity; discriminate.
  - split; [reflexivity|discriminate].
  - split; discriminate.
  - exists q. split; assumption.
Defined.

Lemma verify_binding_witness :
  m_target_hash sample_proof = node (leaf sample_memory) 1 (AR_UARCH_RAM_START / 2 ^ 6).
Proof.
  apply (verify_binding (leaf sample_memory) 1 sample_proof);
    [repeat split; vm_compute; try reflexivity; discriminate|vm_compute; reflexivity..].
Defined.
