(* ===== verification/Riscv.v ===== *)
(** * RISC-V constants and register legalisation (src/riscv-constants.hpp, src/riscv-warl.hpp)

    The masks of the control and status registers, the trap causes, the CSR
    address space and the functions that make written values legal.  Sv57 is
    disabled by the code ([NO_SATP_MODE_SV57]). *)

From S2P Require Import Prelude Bits.

Definition XLEN : Z := 64.
Definition ASIDLEN : Z := 0.
Definition bit (shift : Z) : Z := Z.shiftl 1 shift.

(** ** Interrupts *)

Definition MIP_SSIP_SHIFT : Z := 1.
Definition MIP_MSIP_SHIFT : Z := 3.
Definition MIP_STIP_SHIFT : Z := 5.
Definition MIP_MTIP_SHIFT : Z := 7.
Definition MIP_SEIP_SHIFT : Z := 9.
Definition MIP_MEIP_SHIFT : Z := 11.
Definition MIP_SSIP_MASK : Z := bit MIP_SSIP_SHIFT.
Definition MIP_MSIP_MASK : Z := bit MIP_MSIP_SHIFT.
Definition MIP_STIP_MASK : Z := bit MIP_STIP_SHIFT.
Definition MIP_MTIP_MASK : Z := bit MIP_MTIP_SHIFT.
Definition MIP_SEIP_MASK : Z := bit MIP_SEIP_SHIFT.
Definition MIP_MEIP_MASK : Z := bit MIP_MEIP_SHIFT.
Definition MIP_S_RW_MASK : Z := Z.lor MIP_SSIP_MASK (Z.lor MIP_STIP_MASK MIP_SEIP_MASK).
Definition MIP_RW_MASK : Z :=
  Z.lor MIP_MSIP_MASK (Z.lor MIP_MTIP_MASK (Z.lor MIP_MEIP_MASK
    (Z.lor MIP_SSIP_MASK (Z.lor MIP_STIP_MASK MIP_SEIP_MASK)))).

(** ** Trap causes *)

Definition MCAUSE_INSN_ADDRESS_MISALIGNED : Z := 0x0.
Definition MCAUSE_INSN_ACCESS_FAULT : Z := 0x1.
Definition MCAUSE_ILLEGAL_INSN : Z := 0x2.
Definition MCAUSE_BREAKPOINT : Z := 0x3.
Definition MCAUSE_LOAD_ADDRESS_MISALIGNED : Z := 0x4.
Definition MCAUSE_LOAD_ACCESS_FAULT : Z := 0x5.
Definition MCAUSE_STORE_AMO_ADDRESS_MISALIGNED : Z := 0x6.
Definition MCAUSE_STORE_AMO_ACCESS_FAULT : Z := 0x7.
Definition MCAUSE_ECALL_BASE : Z := 0x8.
Definition MCAUSE_FETCH_PAGE_FAULT : Z := 0xc.
Definition MCAUSE_LOAD_PAGE_FAULT : Z := 0xd.
Definition MCAUSE_STORE_AMO_PAGE_FAULT : Z := 0xf.
Definition MCAUSE_INTERRUPT_FLAG : Z := bit (XLEN - 1).

(** [MEDELEG_W_MASK]: all the exceptions but the call from machine mode. *)
Definition MEDELEG_W_MASK : Z :=
  fold_right Z.lor 0 (map bit
    [MCAUSE_INSN_ADDRESS_MISALIGNED; MCAUSE_INSN_ACCESS_FAULT; MCAUSE_ILLEGAL_INSN; MCAUSE_BREAKPOINT;
     MCAUSE_LOAD_ADDRESS_MISALIGNED; MCAUSE_LOAD_ACCESS_FAULT; MCAUSE_STORE_AMO_ADDRESS_MISALIGNED;
     MCAUSE_STORE_AMO_ACCESS_FAULT; MCAUSE_ECALL_BASE; MCAUSE_ECALL_BASE + 1; MCAUSE_FETCH_PAGE_FAULT;
     MCAUSE_LOAD_PAGE_FAULT; MCAUSE_STORE_AMO_PAGE_FAULT]).

(** ** Privilege modes *)

Definition PRV_U : Z := 0.
Definition PRV_S : Z := 1.
Definition PRV_HS : Z := 2.
Definition PRV_M : Z := 3.

(** ** mstatus *)

Definition MSTATUS_SIE_SHIFT : Z := 1.
Definition MSTATUS_MIE_SHIFT : Z := 3.
Definition MSTATUS_SPIE_SHIFT : Z := 5.
Definition MSTATUS_UBE_SHIFT : Z := 6.
Definition MSTATUS_MPIE_SHIFT : Z := 7.
Definition MSTATUS_SPP_SHIFT : Z := 8.
Definition MSTATUS_VS_SHIFT : Z := 9.
Definition MSTATUS_MPP_SHIFT : Z := 11.
Definition MSTATUS_FS_SHIFT : Z := 13.
Definition MSTATUS_XS_SHIFT : Z := 15.
Definition MSTATUS_MPRV_SHIFT : Z := 17.
Definition MSTATUS_SUM_SHIFT : Z := 18.
Definition MSTATUS_MXR_SHIFT : Z := 19.
Definition MSTATUS_TVM_SHIFT : Z := 20.
Definition MSTATUS_TW_SHIFT : Z := 21.
Definition MSTATUS_TSR_SHIFT : Z := 22.
Definition MSTATUS_UXL_SHIFT : Z := 32.
Definition MSTATUS_SXL_SHIFT : Z := 34.
Definition MSTATUS_SBE_SHIFT : Z := 36.
Definition MSTATUS_MBE_SHIFT : Z := 37.
Definition MSTATUS_SD_SHIFT : Z := XLEN - 1.
Definition MSTATUS_SIE_MASK : Z := bit MSTATUS_SIE_SHIFT.
Definition MSTATUS_MIE_MASK : Z := bit MSTATUS_MIE_SHIFT.
Definition MSTATUS_SPIE_MASK : Z := bit MSTATUS_SPIE_SHIFT.
Definition MSTATUS_UBE_MASK : Z := bit MSTATUS_UBE_SHIFT.
Definition MSTATUS_MPIE_MASK : Z := bit MSTATUS_MPIE_SHIFT.
Definition MSTATUS_SPP_MASK : Z := bit MSTATUS_SPP_SHIFT.
Definition MSTATUS_VS_MASK : Z := Z.shiftl 3 MSTATUS_VS_SHIFT.
Definition MSTATUS_MPP_MASK : Z := Z.shiftl 3 MSTATUS_MPP_SHIFT.
Definition MSTATUS_FS_MASK : Z := Z.shiftl 3 MSTATUS_FS_SHIFT.
Definition MSTATUS_XS_MASK : Z := Z.shiftl 3 MSTATUS_XS_SHIFT.
Definition MSTATUS_MPRV_MASK : Z := bit MSTATUS_MPRV_SHIFT.
Definition MSTATUS_SUM_MASK : Z := bit MSTATUS_SUM_SHIFT.
Definition MSTATUS_MXR_MASK : Z := bit MSTATUS_MXR_SHIFT.
Definition MSTATUS_TVM_MASK : Z := bit MSTATUS_TVM_SHIFT.
Definition MSTATUS_TW_MASK : Z := bit MSTATUS_TW_SHIFT.
Definition MSTATUS_TSR_MASK : Z := bit MSTATUS_TSR_SHIFT.
Definition MSTATUS_UXL_MASK : Z := Z.shiftl 3 MSTATUS_UXL_SHIFT.
Definition MSTATUS_SXL_MASK : Z := Z.shiftl 3 MSTATUS_SXL_SHIFT.
Definition MSTATUS_SBE_MASK : Z := bit MSTATUS_SBE_SHIFT.
Definition MSTATUS_MBE_MASK : Z := bit MSTATUS_MBE_SHIFT.
Definition MSTATUS_SD_MASK : Z := bit MSTATUS_SD_SHIFT.
Definition MSTATUS_FS_OFF : Z := Z.shiftl 0 MSTATUS_FS_SHIFT.
Definition MSTATUS_FS_DIRTY : Z := Z.shiftl 3 MSTATUS_FS_SHIFT.

Definition lor_list (masks : list Z) : Z := fold_right Z.lor 0 masks.

Definition MSTATUS_W_MASK : Z :=
  lor_list [MSTATUS_SIE_MASK; MSTATUS_MIE_MASK; MSTATUS_SPIE_MASK; MSTATUS_MPIE_MASK; MSTATUS_SPP_MASK;
            MSTATUS_MPP_MASK; MSTATUS_FS_MASK; MSTATUS_MPRV_MASK; MSTATUS_SUM_MASK; MSTATUS_MXR_MASK;
            MSTATUS_TVM_MASK; MSTATUS_TW_MASK; MSTATUS_TSR_MASK].
Definition MSTATUS_R_MASK : Z :=
  lor_list [MSTATUS_SIE_MASK; MSTATUS_MIE_MASK; MSTATUS_SPIE_MASK; MSTATUS_UBE_MASK; MSTATUS_MPIE_MASK;
            MSTATUS_SPP_MASK; MSTATUS_MPP_MASK; MSTATUS_FS_MASK; MSTATUS_VS_MASK; MSTATUS_MPRV_MASK;
            MSTATUS_SUM_MASK; MSTATUS_MXR_MASK; MSTATUS_TVM_MASK; MSTATUS_TW_MASK; MSTATUS_TSR_MASK;
            MSTATUS_UXL_MASK; MSTATUS_SXL_MASK; MSTATUS_SBE_MASK; MSTATUS_MBE_MASK; MSTATUS_SD_MASK].
Definition SSTATUS_W_MASK : Z :=
  lor_list [MSTATUS_SIE_MASK; MSTATUS_SPIE_MASK; MSTATUS_SPP_MASK; MSTATUS_FS_MASK; MSTATUS_SUM_MASK; MSTATUS_MXR_MASK].
Definition SSTATUS_R_MASK : Z :=
  lor_list [MSTATUS_SIE_MASK; MSTATUS_SPIE_MASK; MSTATUS_UBE_MASK; MSTATUS_SPP_MASK; MSTATUS_VS_MASK;
            MSTATUS_FS_MASK; MSTATUS_XS_MASK; MSTATUS_SUM_MASK; MSTATUS_MXR_MASK; MSTATUS_UXL_MASK; MSTATUS_SD_MASK].

(** ** satp and page table entries *)

Definition SATP_ASID_SHIFT : Z := 44.
Definition SATP_MODE_SHIFT : Z := 60.
Definition SATP_PPN_MASK : Z := bit SATP_ASID_SHIFT - 1.
Definition SATP_ASID_MASK : Z := Z.shiftl (bit ASIDLEN - 1) SATP_ASID_SHIFT.
Definition SATP_MODE_MASK : Z := Z.shiftl 15 SATP_MODE_SHIFT.
Definition SATP_RW_MASK : Z := Z.lor SATP_PPN_MASK (Z.lor SATP_ASID_MASK SATP_MODE_MASK).
Definition SATP_MODE_BARE : Z := 0.
Definition SATP_MODE_SV39 : Z := 8.
Definition SATP_MODE_SV48 : Z := 9.

Definition PTE_XWR_R_SHIFT : Z := 0.
Definition PTE_XWR_W_SHIFT : Z := 1.
Definition PTE_XWR_X_SHIFT : Z := 2.
Definition PTE_XWR_R_MASK : Z := bit PTE_XWR_R_SHIFT.
Definition PTE_XWR_W_MASK : Z := bit PTE_XWR_W_SHIFT.
Definition PTE_XWR_X_MASK : Z := bit PTE_XWR_X_SHIFT.
Definition PTE_R_SHIFT : Z := 1.
Definition PTE_PPN_SHIFT : Z := 10.
Definition PTE_V_MASK : Z := bit 0.
Definition PTE_U_MASK : Z := bit 4.
Definition PTE_A_MASK : Z := bit 6.
Definition PTE_D_MASK : Z := bit 7.
Definition PTE_PPN_MASK : Z := Z.shiftl (bit 44 - 1) PTE_PPN_SHIFT.
Definition PTE_60_54_MASK : Z := Z.shiftl 127 54.
Definition PTE_PBMT_MASK : Z := Z.shiftl 3 61.
Definition PTE_N_MASK : Z := bit 63.

Definition LOG2_PTE_SIZE : Z := 3.
Definition LOG2_VPN_SIZE : Z := 9.
Definition VPN_MASK : Z := bit LOG2_VPN_SIZE - 1.

(** ** Other registers *)

Definition MENVCFG_FIOM_MASK : Z := bit 0.
Definition MENVCFG_R_MASK : Z := MENVCFG_FIOM_MASK.
Definition SENVCFG_R_MASK : Z := bit 0.

Definition FCSR_FFLAGS_SHIFT : Z := 0.
Definition FCSR_FRM_SHIFT : Z := 5.
Definition FCSR_FFLAGS_RW_MASK : Z := Z.shiftl 0x1f FCSR_FFLAGS_SHIFT.
Definition FCSR_FRM_RW_MASK : Z := Z.shiftl 0x7 FCSR_FRM_SHIFT.
Definition FCSR_RW_MASK : Z := Z.lor FCSR_FFLAGS_RW_MASK FCSR_FRM_RW_MASK.

Definition MCOUNTEREN_CY_MASK : Z := bit 0.
Definition MCOUNTEREN_TM_MASK : Z := bit 1.
Definition MCOUNTEREN_IR_MASK : Z := bit 2.
Definition MCOUNTEREN_R_MASK : Z := 0xffffffff.
Definition MCOUNTEREN_RW_MASK : Z := lor_list [MCOUNTEREN_CY_MASK; MCOUNTEREN_TM_MASK; MCOUNTEREN_IR_MASK].
Definition SCOUNTEREN_RW_MASK : Z := MCOUNTEREN_RW_MASK.

(** ** CSR addresses ([enum class CSR_address]) *)

Module CSR_address.
Definition fflags : Z := 0x001.
Definition frm : Z := 0x002.
Definition fcsr : Z := 0x003.
Definition ucycle : Z := 0xc00.
Definition utime : Z := 0xc01.
Definition uinstret : Z := 0xc02.
Definition sstatus : Z := 0x100.
Definition sie : Z := 0x104.
Definition stvec : Z := 0x105.
Definition scounteren : Z := 0x106.
Definition senvcfg : Z := 0x10a.
Definition sscratch : Z := 0x140.
Definition sepc : Z := 0x141.
Definition scause : Z := 0x142.
Definition stval : Z := 0x143.
Definition sip : Z := 0x144.
Definition satp : Z := 0x180.
Definition mvendorid : Z := 0xf11.
Definition marchid : Z := 0xf12.
Definition mimpid : Z := 0xf13.
Definition mhartid : Z := 0xf14.
Definition mconfigptr : Z := 0xf15.
Definition mstatus : Z := 0x300.
Definition misa : Z := 0x301.
Definition medeleg : Z := 0x302.
Definition mideleg : Z := 0x303.
Definition mie : Z := 0x304.
Definition mtvec : Z := 0x305.
Definition mcounteren : Z := 0x306.
Definition menvcfg : Z := 0x30a.
Definition mscratch : Z := 0x340.
Definition mepc : Z := 0x341.
Definition mcause : Z := 0x342.
Definition mtval : Z := 0x343.
Definition mip : Z := 0x344.
Definition mcycle : Z := 0xb00.
Definition minstret : Z := 0xb02.
Definition mhpmcounter3 : Z := 0xb03.
Definition mhpmcounter31 : Z := 0xb1f.
Definition mcountinhibit : Z := 0x320.
Definition mhpmevent3 : Z := 0x323.
Definition mhpmevent31 : Z := 0x33f.
Definition tselect : Z := 0x7a0.
Definition tdata3 : Z := 0x7a3.
End CSR_address.

(** The runs of consecutive cases [mhpmcounter3]..[mhpmcounter31],
    [mhpmevent3]..[mhpmevent31] and [tselect]..[tdata3] of the code. *)
Definition csr_between (lo hi csr : Z) : bool := (lo <=? csr) && (csr <=? hi).

(** ** Legalisation (riscv-warl.hpp) *)

Definition WARL_mstatus (val : Z) : Z :=
  let val := Z.land val MSTATUS_R_MASK in
  let val :=
    if PRV_HS =? Z.shiftr (Z.land val MSTATUS_MPP_MASK) MSTATUS_MPP_SHIFT
    then Z.land val (not64 MSTATUS_MPP_MASK) else val in
  if negb (Z.land val MSTATUS_FS_MASK =? MSTATUS_FS_OFF) then
    Z.lor (Z.lor val MSTATUS_FS_DIRTY) MSTATUS_SD_MASK
  else Z.land val (not64 MSTATUS_SD_MASK).
Definition WARL_menvcfg (val : Z) : Z := Z.land val MENVCFG_R_MASK.
Definition WARL_senvcfg (val : Z) : Z := Z.land val SENVCFG_R_MASK.
Definition WARL_medeleg (val : Z) : Z := Z.land val MEDELEG_W_MASK.
Definition WARL_mideleg (val : Z) : Z := Z.land val MIP_S_RW_MASK.
Definition WARL_mie (val : Z) : Z := Z.land val MIP_RW_MASK.
Definition WARL_mip (val : Z) : Z := Z.land val MIP_RW_MASK.
Definition WARL_xtvec (val : Z) : Z := Z.land val (not64 3).
Definition WARL_mtvec (val : Z) : Z := WARL_xtvec val.
Definition WARL_stvec (val : Z) : Z := WARL_xtvec val.
Definition WARL_mepc (val : Z) : Z := Z.land val (not64 1).
Definition WARL_sepc (val : Z) : Z := Z.land val (not64 1).
Definition WARL_mcounteren (val : Z) : Z := Z.land val MCOUNTEREN_RW_MASK.
Definition WARL_scounteren (val : Z) : Z := Z.land val SCOUNTEREN_RW_MASK.
Definition WARL_satp (val : Z) : Z :=
  let mode := Z.shiftr val SATP_MODE_SHIFT in
  if (mode =? SATP_MODE_BARE) || (mode =? SATP_MODE_SV39) || (mode =? SATP_MODE_SV48)
  then Z.land val SATP_RW_MASK else 0.
Definition WARL_fcsr (val : Z) : Z := Z.land val FCSR_RW_MASK.
