(* ===== verification/Hart.v ===== *)
(** * State access of the interpreter (src/i-state-access.hpp, uarch/uarch-bridge-state-access.hpp)

    The RISC-V interpreter reads and writes the state of the big machine
    through [i_state_access].  This is the access of the microarchitecture
    ([uarch_bridge_state_access]), in which every register, TLB slot and
    memory word is a word of the physical address space, fast addresses are
    physical addresses, and a TLB slot is verified whenever it is used.  The
    entries of the PMA table never change while the interpreter runs; they
    are a parameter.  Notes, dumps and statistics are left out. *)

From S2P Require Import Prelude Bits Shadow HashTree Memory Machine MachineFacts UarchMemory Riscv.

(** ** Registers *)

Definition read_shadow_register (what : Z) : M memory Z := gets (fun m => mem_read m what).
Definition write_shadow_register (what val : Z) : M memory unit := modify (mem_write what val).

(** The macros of i-state-access.hpp. *)
Definition DEFINE_SA_READ (REG : Z) : M memory Z := read_shadow_register REG.
Definition DEFINE_SA_WRITE (REG val : Z) : M memory unit := write_shadow_register REG val.
Definition DEFINE_SA_WARL_READ (WARL : Z -> Z) (REG : Z) : M memory Z :=
  val ← read_shadow_register REG; mret (WARL val).
Definition DEFINE_SA_WARL_WRITE (WARL : Z -> Z) (REG val : Z) : M memory unit :=
  write_shadow_register REG (WARL val).

Definition x_address (i : Z) : Z := machine_reg_address machine_reg.x0 i.
Definition f_address (i : Z) : Z := machine_reg_address machine_reg.f0 i.
Definition read_x (i : Z) : M memory Z := read_shadow_register (x_address i).
Definition write_x (i val : Z) : M memory unit := write_shadow_register (x_address i) val.
Definition read_f (i : Z) : M memory Z := read_shadow_register (f_address i).
Definition write_f (i val : Z) : M memory unit := write_shadow_register (f_address i) val.

Definition read_pc : M memory Z := DEFINE_SA_READ machine_reg.pc.
Definition write_pc : Z -> M memory unit := DEFINE_SA_WRITE machine_reg.pc.
Definition read_fcsr : M memory Z := DEFINE_SA_WARL_READ WARL_fcsr machine_reg.fcsr.
Definition write_fcsr : Z -> M memory unit := DEFINE_SA_WARL_WRITE WARL_fcsr machine_reg.fcsr.
Definition read_mvendorid : M memory Z := DEFINE_SA_READ machine_reg.mvendorid.
Definition read_marchid : M memory Z := DEFINE_SA_READ machine_reg.marchid.
Definition read_mimpid : M memory Z := DEFINE_SA_READ machine_reg.mimpid.
Definition read_mcycle : M memory Z := DEFINE_SA_READ machine_reg.mcycle.
Definition write_mcycle : Z -> M memory unit := DEFINE_SA_WRITE machine_reg.mcycle.
Definition read_icycleinstret : M memory Z := DEFINE_SA_READ machine_reg.icycleinstret.
Definition write_icycleinstret : Z -> M memory unit := DEFINE_SA_WRITE machine_reg.icycleinstret.
Definition read_mstatus : M memory Z := DEFINE_SA_WARL_READ WARL_mstatus machine_reg.mstatus.
Definition write_mstatus : Z -> M memory unit := DEFINE_SA_WARL_WRITE WARL_mstatus machine_reg.mstatus.
Definition read_mtvec : M memory Z := DEFINE_SA_WARL_READ WARL_mtvec machine_reg.mtvec.
Definition write_mtvec : Z -> M memory unit := DEFINE_SA_WARL_WRITE WARL_mtvec machine_reg.mtvec.
Definition read_mscratch : M memory Z := DEFINE_SA_READ machine_reg.mscratch.
Definition write_mscratch : Z -> M memory unit := DEFINE_SA_WRITE machine_reg.mscratch.
Definition read_mepc : M memory Z := DEFINE_SA_WARL_READ WARL_mepc machine_reg.mepc.
Definition write_mepc : Z -> M memory unit := DEFINE_SA_WARL_WRITE WARL_mepc machine_reg.mepc.
Definition read_mcause : M memory Z := DEFINE_SA_READ machine_reg.mcause.
Definition write_mcause : Z -> M memory unit := DEFINE_SA_WRITE machine_reg.mcause.
Definition read_mtval : M memory Z := DEFINE_SA_READ machine_reg.mtval.
Definition write_mtval : Z -> M memory unit := DEFINE_SA_WRITE machine_reg.mtval.
Definition read_misa : M memory Z := DEFINE_SA_READ machine_reg.misa.
Definition read_mie : M memory Z := DEFINE_SA_WARL_READ WARL_mie machine_reg.mie.
Definition write_mie : Z -> M memory unit := DEFINE_SA_WARL_WRITE WARL_mie machine_reg.mie.
Definition read_mip : M memory Z := DEFINE_SA_WARL_READ WARL_mip machine_reg.mip.
Definition write_mip : Z -> M memory unit := DEFINE_SA_WARL_WRITE WARL_mip machine_reg.mip.
Definition read_medeleg : M memory Z := DEFINE_SA_WARL_READ WARL_medeleg machine_reg.medeleg.
Definition write_medeleg : Z -> M memory unit := DEFINE_SA_WARL_WRITE WARL_medeleg machine_reg.medeleg.
Definition read_mideleg : M memory Z := DEFINE_SA_WARL_READ WARL_mideleg machine_reg.mideleg.
Definition write_mideleg : Z -> M memory unit := DEFINE_SA_WARL_WRITE WARL_mideleg machine_reg.mideleg.
Definition read_mcounteren : M memory Z := DEFINE_SA_WARL_READ WARL_mcounteren machine_reg.mcounteren.
Definition write_mcounteren : Z -> M memory unit := DEFINE_SA_WARL_WRITE WARL_mcounteren machine_reg.mcounteren.
Definition read_menvcfg : M memory Z := DEFINE_SA_WARL_READ WARL_menvcfg machine_reg.menvcfg.
Definition write_menvcfg : Z -> M memory unit := DEFINE_SA_WARL_WRITE WARL_menvcfg machine_reg.menvcfg.
Definition read_stvec : M memory Z := DEFINE_SA_WARL_READ WARL_stvec machine_reg.stvec.
Definition write_stvec : Z -> M memory unit := DEFINE_SA_WARL_WRITE WARL_stvec machine_reg.stvec.
Definition read_sscratch : M memory Z := DEFINE_SA_READ machine_reg.sscratch.
Definition write_sscratch : Z -> M memory unit := DEFINE_SA_WRITE machine_reg.sscratch.
Definition read_sepc : M memory Z := DEFINE_SA_WARL_READ WARL_sepc machine_reg.sepc.
Definition write_sepc : Z -> M memory unit := DEFINE_SA_WARL_WRITE WARL_sepc machine_reg.sepc.
Definition read_scause : M memory Z := DEFINE_SA_READ machine_reg.scause.
Definition write_scause : Z -> M memory unit := DEFINE_SA_WRITE machine_reg.scause.
Definition read_stval : M memory Z := DEFINE_SA_READ machine_reg.stval.
Definition write_stval : Z -> M memory unit := DEFINE_SA_WRITE machine_reg.stval.
Definition read_satp : M memory Z := DEFINE_SA_WARL_READ WARL_satp machine_reg.satp.
Definition write_satp : Z -> M memory unit := DEFINE_SA_WARL_WRITE WARL_satp machine_reg.satp.
Definition read_scounteren : M memory Z := DEFINE_SA_WARL_READ WARL_scounteren machine_reg.scounteren.
Definition write_scounteren : Z -> M memory unit := DEFINE_SA_WARL_WRITE WARL_scounteren machine_reg.scounteren.
Definition read_senvcfg : M memory Z := DEFINE_SA_WARL_READ WARL_senvcfg machine_reg.senvcfg.
Definition write_senvcfg : Z -> M memory unit := DEFINE_SA_WARL_WRITE WARL_senvcfg machine_reg.senvcfg.
Definition read_ilrsc : M memory Z := DEFINE_SA_READ machine_reg.ilrsc.
Definition write_ilrsc : Z -> M memory unit := DEFINE_SA_WRITE machine_reg.ilrsc.
Definition read_iprv : M memory Z := DEFINE_SA_READ machine_reg.iprv.
Definition write_iprv : Z -> M memory unit := DEFINE_SA_WRITE machine_reg.iprv.
Definition read_iflags_X : M memory Z := DEFINE_SA_READ machine_reg.iflags_X.
Definition write_iflags_X : Z -> M memory unit := DEFINE_SA_WRITE machine_reg.iflags_X.
Definition read_iflags_Y : M memory Z := DEFINE_SA_READ machine_reg.iflags_Y.
Definition write_iflags_Y : Z -> M memory unit := DEFINE_SA_WRITE machine_reg.iflags_Y.
Definition read_iflags_H : M memory Z := DEFINE_SA_READ machine_reg.iflags_H.
Definition write_iflags_H : Z -> M memory unit := DEFINE_SA_WRITE machine_reg.iflags_H.
Definition read_clint_mtimecmp : M memory Z := DEFINE_SA_READ machine_reg.clint_mtimecmp.
Definition write_clint_mtimecmp : Z -> M memory unit := DEFINE_SA_WRITE machine_reg.clint_mtimecmp.
Definition read_plic_girqpend : M memory Z := DEFINE_SA_READ machine_reg.plic_girqpend.
Definition write_plic_girqpend : Z -> M memory unit := DEFINE_SA_WRITE machine_reg.plic_girqpend.
Definition read_plic_girqsrvd : M memory Z := DEFINE_SA_READ machine_reg.plic_girqsrvd.
Definition write_plic_girqsrvd : Z -> M memory unit := DEFINE_SA_WRITE machine_reg.plic_girqsrvd.
Definition read_htif_tohost : M memory Z := DEFINE_SA_READ machine_reg.htif_tohost.
Definition write_htif_tohost : Z -> M memory unit := DEFINE_SA_WRITE machine_reg.htif_tohost.
Definition read_htif_fromhost : M memory Z := DEFINE_SA_READ machine_reg.htif_fromhost.
Definition write_htif_fromhost : Z -> M memory unit := DEFINE_SA_WRITE machine_reg.htif_fromhost.
Definition read_htif_ihalt : M memory Z := DEFINE_SA_READ machine_reg.htif_ihalt.
Definition read_htif_iconsole : M memory Z := DEFINE_SA_READ machine_reg.htif_iconsole.
Definition read_htif_iyield : M memory Z := DEFINE_SA_READ machine_reg.htif_iyield.

(** ** Memory words, PMAs and the TLB *)

(** [do_read_memory_word<T>] and [do_write_memory_word<T>]; [size] is [sizeof(T)]. *)
Definition read_memory_word (size paddr : Z) : M memory Z := gets (fun m => load_bytes m paddr size).
Definition write_memory_word (size paddr val : Z) : M memory unit := modify (fun m => store_bytes m paddr size val).
Definition get_faddr (paddr pma_index : Z) : Z := paddr.

Definition is_readable (ar : address_range) : bool := flag_R (m_flags ar).
Definition is_writeable (ar : address_range) : bool := flag_W (m_flags ar).
Definition is_executable (ar : address_range) : bool := flag_X (m_flags ar).

Definition read_shadow_tlb (set_index slot_index field : Z) : M memory Z :=
  gets (fun m => mem_read m (shadow_tlb_get_abs_addr set_index slot_index + field)).
Definition read_tlb_vaddr_page (SET slot_index : Z) : M memory Z := read_shadow_tlb SET slot_index 0.
Definition read_tlb_vf_offset (SET slot_index : Z) : M memory Z := read_shadow_tlb SET slot_index 8.
Definition read_tlb_pma_index (SET slot_index : Z) : M memory Z := read_shadow_tlb SET slot_index 16.
Definition init_hot_tlb_slot (SET slot_index : Z) : M memory Z := read_shadow_tlb SET slot_index 0.
Definition write_tlb (SET slot_index vaddr_page vp_offset pma_index : Z) : M memory unit :=
  modify (mem_write_tlb SET slot_index vaddr_page vp_offset pma_index).

Section pmas.
Context (pmas : list address_range).

Definition pma_at (index : Z) : address_range :=
  if PMA_MAX <=? index then sentinel else default sentinel (pmas !! Z.to_nat index).
Definition read_pma (index : Z) : M memory address_range := mret (pma_at index).

Definition verify_cold_tlb_slot (SET slot_index : Z) : M memory bool :=
  vaddr_page ← read_shadow_tlb SET slot_index 0;
  vp_offset ← read_shadow_tlb SET slot_index 8;
  pma_index ← read_shadow_tlb SET slot_index 16;
  zero_padding ← read_shadow_tlb SET slot_index 24;
  ar ← read_pma pma_index;
  mret (negb (shadow_tlb_verify_slot vaddr_page vp_offset zero_padding (is_memory ar) (get_start ar) (get_length ar)
                =? TLB_INVALID_PAGE)).
End pmas.
