(* ===== verification/Trap.v ===== *)
(** * TLB maintenance, traps and interrupts (src/interpret.cpp, src/rtc.hpp)

    Flushing and filling of the TLB, exceptions and interrupts with their
    delegation, returns from traps, and the timer interrupt.  A function of
    the code that takes [pc] by reference returns the new [pc] with its
    status. *)

From S2P Require Import Prelude Bits Shadow SolidityCompat HashTree Memory Machine Riscv Hart.

(** ** Status of the execution of an instruction (src/interpret.hpp) *)

Inductive execute_status :=
| success
| failure
| success_and_flush_fetch
| success_and_serve_interrupts
| success_and_yield
| success_and_halt
| success_and_console_output
| success_and_console_input.

#[export] Instance execute_status_eq_dec : EqDecision execute_status.
Proof. solve_decision. Defined.

(** The values of the enumeration, which the interpreter loop compares. *)
Definition execute_status_value (status : execute_status) : Z :=
  match status with
  | success => 0
  | failure => 1
  | success_and_flush_fetch => 2
  | success_and_serve_interrupts => 3
  | success_and_yield => 4
  | success_and_halt => 5
  | success_and_console_output => 6
  | success_and_console_input => 7
  end.

(** ** The TLB *)

Definition flush_tlb_slot (SET slot_index : Z) : M memory unit :=
  write_tlb SET slot_index TLB_INVALID_PAGE 0 TLB_INVALID_PMA_INDEX.

(** The loop over the slots of a set, from [slot_index]. *)
Fixpoint flush_tlb_set_loop (n : nat) (SET slot_index : Z) : M memory unit :=
  match n with
  | O => mret ()
  | S n => flush_tlb_slot SET slot_index ;; flush_tlb_set_loop n SET (slot_index + 1)
  end.
Definition flush_tlb_set (SET : Z) : M memory unit := flush_tlb_set_loop (Z.to_nat TLB_SET_SIZE) SET 0.

Definition flush_all_tlb : M memory unit :=
  flush_tlb_set TLB_CODE ;; flush_tlb_set TLB_READ ;; flush_tlb_set TLB_WRITE.

Definition flush_tlb_vaddr (vaddr : Z) : M memory unit :=
  flush_tlb_set TLB_CODE ;; flush_tlb_set TLB_READ ;; flush_tlb_set TLB_WRITE.

(** Returns the fast address and the [vf_offset] out-parameter. *)
Definition replace_tlb_entry (SET vaddr paddr pma_index : Z) : M memory (Z * Z) :=
  let slot_index := tlb_slot_index vaddr in
  let vaddr_page := tlb_addr_page vaddr in
  let faddr := get_faddr paddr pma_index in
  let vf_offset := uint64 (faddr - vaddr) in
  write_tlb SET slot_index vaddr_page vf_offset pma_index ;;
  mret (faddr, vf_offset).

(** ** Exceptions *)

Definition insn_is_uncompressed (insn : Z) : bool := Z.land insn 3 =? 3.

Definition set_prv (new_prv : Z) : M memory unit :=
  write_iprv new_prv ;;
  flush_all_tlb ;;
  write_ilrsc (2 ^ 64 - 1).

(** [(mstatus & ~mask) | (v << shift)] *)
Definition set_mstatus_field (mask shift v mstatus : Z) : Z :=
  Z.lor (Z.land mstatus (not64 mask)) (uint64 (Z.shiftl v shift)).

Definition raise_exception (pc cause tval : Z) : M memory Z :=
  let tval := if (cause =? MCAUSE_ILLEGAL_INSN) && negb (insn_is_uncompressed (uint32 tval))
              then uint16 tval else tval in
  prv ← read_iprv;
  deleg ← (if prv <=? PRV_S then
             if negb (Z.land cause MCAUSE_INTERRUPT_FLAG =? 0) then
               mideleg ← read_mideleg;
               mret (negb (Z.land (Z.shiftr mideleg (Z.land cause (XLEN - 1))) 1 =? 0))
             else
               medeleg ← read_medeleg;
               mret (negb (Z.land (Z.shiftr medeleg (Z.land cause (XLEN - 1))) 1 =? 0))
           else mret false);
  icycleinstret ← read_icycleinstret;
  write_icycleinstret (uint64 (icycleinstret + 1)) ;;
  if deleg : bool then
    write_scause cause ;;
    write_sepc pc ;;
    write_stval tval ;;
    mstatus ← read_mstatus;
    let mstatus := set_mstatus_field MSTATUS_SPIE_MASK MSTATUS_SPIE_SHIFT
                     (Z.land (Z.shiftr mstatus MSTATUS_SIE_SHIFT) 1) mstatus in
    let mstatus := set_mstatus_field MSTATUS_SPP_MASK MSTATUS_SPP_SHIFT prv mstatus in
    let mstatus := Z.land mstatus (not64 MSTATUS_SIE_MASK) in
    write_mstatus mstatus ;;
    when (negb (prv =? PRV_S)) (set_prv PRV_S) ;;
    read_stvec
  else
    write_mcause cause ;;
    write_mepc pc ;;
    write_mtval tval ;;
    mstatus ← read_mstatus;
    let mstatus := set_mstatus_field MSTATUS_MPIE_MASK MSTATUS_MPIE_SHIFT
                     (Z.land (Z.shiftr mstatus MSTATUS_MIE_SHIFT) 1) mstatus in
    let mstatus := set_mstatus_field MSTATUS_MPP_MASK MSTATUS_MPP_SHIFT prv mstatus in
    let mstatus := Z.land mstatus (not64 MSTATUS_MIE_MASK) in
    write_mstatus mstatus ;;
    when (negb (prv =? PRV_M)) (set_prv PRV_M) ;;
    read_mtvec.

Definition raise_illegal_insn_exception (pc insn : Z) : M memory (execute_status * Z) :=
  pc ← raise_exception pc MCAUSE_ILLEGAL_INSN insn;
  mret (failure, pc).

(** [size] is the size of the instruction, 4 by default in the code. *)
Definition advance_to_next_insn_by (size pc : Z) (status : execute_status) : M memory (execute_status * Z) :=
  mret (status, uint64 (pc + size)).
Definition advance_to_next_insn (pc : Z) (status : execute_status) : M memory (execute_status * Z) :=
  advance_to_next_insn_by 4 pc status.

Definition raise_misaligned_fetch_exception (pc new_pc : Z) : M memory (execute_status * Z) :=
  pc ← raise_exception pc MCAUSE_INSN_ADDRESS_MISALIGNED new_pc;
  mret (failure, pc).
Definition advance_to_raised_exception (pc : Z) : M memory (execute_status * Z) := mret (failure, pc).

(** ** Interrupts *)

(** [uint32_t] values of 64-bit registers. *)
Definition get_pending_irq_mask : M memory Z :=
  mip ← read_mip;
  mie ← read_mie;
  let pending_ints := uint32 (Z.land mip mie) in
  if pending_ints =? 0 then mret 0
  else
    prv ← read_iprv;
    enabled_ints ←
      (if prv =? PRV_M then
         mstatus ← read_mstatus;
         if negb (Z.land mstatus MSTATUS_MIE_MASK =? 0) then
           mideleg ← read_mideleg; mret (uint32 (not64 mideleg))
         else mret 0
       else if prv =? PRV_S then
         mstatus ← read_mstatus;
         if negb (Z.land mstatus MSTATUS_SIE_MASK =? 0) then mret (uint32 (-1))
         else mideleg ← read_mideleg; mret (uint32 (not64 mideleg))
       else mret (uint32 (-1)));
    mret (Z.land pending_ints enabled_ints).

Definition ilog2 (v : Z) : Z := Z.log2 v.

Definition interrupts_priority : list Z :=
  [MIP_MEIP_MASK; MIP_MSIP_MASK; MIP_MTIP_MASK; MIP_SEIP_MASK; MIP_SSIP_MASK; MIP_STIP_MASK].

Section config.
Context {cfg : BuildConfig}.

Definition get_highest_priority_irq_num (v : Z) : outcome Z :=
  match List.find (fun mask => negb (Z.land v mask =? 0)) interrupts_priority with
  | Some mask => mret (ilog2 mask)
  | None => if NDEBUG then mret (ilog2 v) else Throw (assertion_failed "false")
  end.

(** A page that the fetch cache test fails for. *)
Definition ensure_fetch_cache_miss (pc : Z) : Z := not64 pc.

(** The new [pc] and page of the fetch cache. *)
Definition raise_interrupt_if_any (pc fetch_vaddr_page : Z) : M memory (Z * Z) :=
  mask ← get_pending_irq_mask;
  if negb (mask =? 0) then
    irq_num ← lift (get_highest_priority_irq_num mask);
    new_pc ← raise_exception pc (Z.lor irq_num MCAUSE_INTERRUPT_FLAG) 0;
    mret (new_pc, ensure_fetch_cache_miss new_pc)
  else mret (pc, fetch_vaddr_page).

(** The assertions on pending interrupts and on the flags that stop the
    machine; the code checks them when assertions are enabled. *)
Definition assert_no_brk : M memory unit :=
  pending ← get_pending_irq_mask;
  iprv ← read_iprv;
  (if PRV_M <=? iprv then
     lift (if pending =? 0 then mret () else Throw (assertion_failed "pending == 0"))
   else
     mideleg ← read_mideleg;
     lift (if Z.land pending (uint32 mideleg) =? 0 then mret ()
           else Throw (assertion_failed "(pending & static_cast<uint32_t>(a.read_mideleg())) == 0"))) ;;
  X ← read_iflags_X;
  lift (if X =? 0 then mret () else Throw (assertion_failed "a.read_iflags_X() == 0")) ;;
  Y ← read_iflags_Y;
  lift (if Y =? 0 then mret () else Throw (assertion_failed "a.read_iflags_Y() == 0")) ;;
  H ← read_iflags_H;
  lift (if H =? 0 then mret () else Throw (assertion_failed "a.read_iflags_H() == 0")).
End config.

(** ** Environment calls and returns from traps *)

Definition execute_ECALL (pc insn : Z) : M memory (execute_status * Z) :=
  prv ← read_iprv;
  pc ← raise_exception pc (uint64 (MCAUSE_ECALL_BASE + prv)) 0;
  mret (failure, pc).

Definition execute_EBREAK (pc insn : Z) : M memory (execute_status * Z) :=
  pc ← raise_exception pc MCAUSE_BREAKPOINT pc;
  mret (failure, pc).

Definition execute_SRET (pc insn : Z) : M memory (execute_status * Z) :=
  prv ← read_iprv;
  mstatus ← read_mstatus;
  if (prv <? PRV_S) || ((prv =? PRV_S) && negb (Z.land mstatus MSTATUS_TSR_MASK =? 0)) then
    raise_illegal_insn_exception pc insn
  else
    let spp := Z.shiftr (Z.land mstatus MSTATUS_SPP_MASK) MSTATUS_SPP_SHIFT in
    let spie := Z.shiftr (Z.land mstatus MSTATUS_SPIE_MASK) MSTATUS_SPIE_SHIFT in
    let mstatus := set_mstatus_field MSTATUS_SIE_MASK MSTATUS_SIE_SHIFT spie mstatus in
    let mstatus := Z.lor mstatus MSTATUS_SPIE_MASK in
    let mstatus := Z.land mstatus (not64 MSTATUS_SPP_MASK) in
    let mstatus := if spp <? PRV_M then Z.land mstatus (not64 MSTATUS_MPRV_MASK) else mstatus in
    write_mstatus mstatus ;;
    when (negb (prv =? spp)) (set_prv spp) ;;
    pc ← read_sepc;
    mret (success_and_serve_interrupts, pc).

Definition execute_MRET (pc insn : Z) : M memory (execute_status * Z) :=
  prv ← read_iprv;
  if prv <? PRV_M then raise_illegal_insn_exception pc insn
  else
    mstatus ← read_mstatus;
    let mpp := Z.shiftr (Z.land mstatus MSTATUS_MPP_MASK) MSTATUS_MPP_SHIFT in
    let mpie := Z.shiftr (Z.land mstatus MSTATUS_MPIE_MASK) MSTATUS_MPIE_SHIFT in
    let mstatus := set_mstatus_field MSTATUS_MIE_MASK MSTATUS_MIE_SHIFT mpie mstatus in
    let mstatus := Z.lor mstatus MSTATUS_MPIE_MASK in
    let mstatus := Z.land mstatus (not64 MSTATUS_MPP_MASK) in
    let mstatus := if mpp <? PRV_M then Z.land mstatus (not64 MSTATUS_MPRV_MASK) else mstatus in
    write_mstatus mstatus ;;
    when (negb (prv =? mpp)) (set_prv mpp) ;;
    pc ← read_mepc;
    mret (success_and_serve_interrupts, pc).

(** Fields of an instruction word. *)
Definition insn_get_rd (insn : Z) : Z := Z.land (Z.shiftr insn 7) 0x1f.
Definition insn_get_rs1 (insn : Z) : Z := Z.land (Z.shiftr insn 15) 0x1f.
Definition insn_get_rs2 (insn : Z) : Z := Z.land (Z.shiftr insn 20) 0x1f.

Definition execute_SFENCE_VMA (pc insn : Z) : M memory (execute_status * Z) :=
  if negb (Z.land insn 0xfe007fff =? 0x12000073) then raise_illegal_insn_exception pc insn
  else
    prv ← read_iprv;
    mstatus ← read_mstatus;
    if (prv =? PRV_U) || ((prv =? PRV_S) && negb (Z.land mstatus MSTATUS_TVM_MASK =? 0)) then
      raise_illegal_insn_exception pc insn
    else
      let rs1 := insn_get_rs1 insn in
      (if rs1 =? 0 then flush_all_tlb
       else vaddr ← read_x rs1; flush_tlb_vaddr vaddr) ;;
      advance_to_next_insn pc success_and_flush_fetch.

(** WFI in a state access without interactivity, in which nothing is polled. *)
Definition execute_WFI (pc insn : Z) : M memory (execute_status * Z) :=
  prv ← read_iprv;
  mstatus ← read_mstatus;
  if (prv =? PRV_U) || ((prv <? PRV_M) && negb (Z.land mstatus MSTATUS_TW_MASK =? 0)) then
    raise_illegal_insn_exception pc insn
  else advance_to_next_insn pc success.

(** [insn_privileged] *)
Definition execute_privileged (pc insn : Z) : M memory (execute_status * Z) :=
  if insn =? 0x00000073 then execute_ECALL pc insn
  else if insn =? 0x00100073 then execute_EBREAK pc insn
  else if insn =? 0x10200073 then execute_SRET pc insn
  else if insn =? 0x30200073 then execute_MRET pc insn
  else if insn =? 0x10500073 then execute_WFI pc insn
  else execute_SFENCE_VMA pc insn.

(** ** The clock *)

Definition RTC_FREQ_DIV : Z := 8192.
Definition rtc_cycle_to_time (cycle : Z) : Z := cycle / RTC_FREQ_DIV.
Definition rtc_time_to_cycle (time : Z) : Z := uint64 (time * RTC_FREQ_DIV).
Definition rtc_is_tick (cycle : Z) : bool := cycle mod RTC_FREQ_DIV =? 0.

(** [EVENT_DRIVEN_INTERPRETER_DEADLINES] chooses one of two builds. *)
Definition set_rtc_interrupt (EVENT_DRIVEN_INTERPRETER_DEADLINES : bool) (mcycle : Z) : M memory unit :=
  mtimecmp ← read_clint_mtimecmp;
  let expired :=
    if EVENT_DRIVEN_INTERPRETER_DEADLINES then
      negb (mtimecmp =? 0) && (mtimecmp <=? rtc_cycle_to_time mcycle)
    else
      let timecmp_cycle := rtc_time_to_cycle mtimecmp in
      (timecmp_cycle <=? mcycle) && negb (timecmp_cycle =? 0) in
  if expired then
    mip ← read_mip;
    write_mip (Z.lor mip MIP_MTIP_MASK)
  else mret ().
