(* ===== verification/Csr.v ===== *)
(** * Control and status registers (src/interpret.cpp, from read_csr_fail to execute_CSRRCI)

    Reads and writes of the registers by address, with their privilege
    checks, and the six CSR instructions.  A read returns its value and
    whether it succeeded, as the code does through [status]. *)

From S2P Require Import Prelude Bits Shadow SolidityCompat HashTree Memory Machine Riscv Hart Trap.

(** The two fields of the address of a register. *)
Definition csr_is_read_only (csraddr : Z) : bool := Z.land csraddr 0xc00 =? 0xc00.
Definition csr_prv (csr : Z) : Z := Z.land (Z.shiftr csr 8) 3.

Definition read_csr_fail : M memory (Z * bool) := mret (0, false).
Definition read_csr_success (val : Z) : M memory (Z * bool) := mret (val, true).

(** ** Reads *)

Definition rdcounteren (mask : Z) : M memory bool :=
  let counteren := MCOUNTEREN_R_MASK in
  prv ← read_iprv;
  counteren ←
    (if prv <=? PRV_S then
       mcounteren ← read_mcounteren;
       let counteren := Z.land counteren mcounteren in
       if prv <? PRV_S then scounteren ← read_scounteren; mret (Z.land counteren scounteren)
       else mret counteren
     else mret counteren);
  mret (Z.land counteren mask =? mask).

Definition read_csr_cycle (mcycle : Z) : M memory (Z * bool) :=
  ok ← rdcounteren MCOUNTEREN_CY_MASK;
  if ok : bool then read_csr_success mcycle else read_csr_fail.
Definition read_csr_instret (mcycle : Z) : M memory (Z * bool) :=
  ok ← rdcounteren MCOUNTEREN_IR_MASK;
  if negb ok then read_csr_fail
  else
    icycleinstret ← read_icycleinstret;
    let minstret := uint64 (mcycle - icycleinstret) in
    read_csr_success minstret.
Definition read_csr_time (mcycle : Z) : M memory (Z * bool) :=
  ok ← rdcounteren MCOUNTEREN_TM_MASK;
  if negb ok then read_csr_fail
  else
    let mtime := rtc_cycle_to_time mcycle in
    read_csr_success mtime.

Definition read_csr_sstatus : M memory (Z * bool) :=
  mstatus ← read_mstatus; read_csr_success (Z.land mstatus SSTATUS_R_MASK).
Definition read_csr_senvcfg : M memory (Z * bool) := val ← read_senvcfg; read_csr_success val.
Definition read_csr_sie : M memory (Z * bool) :=
  mie ← read_mie; mideleg ← read_mideleg; read_csr_success (Z.land mie mideleg).
Definition read_csr_stvec : M memory (Z * bool) := val ← read_stvec; read_csr_success val.
Definition read_csr_scounteren : M memory (Z * bool) := val ← read_scounteren; read_csr_success val.
Definition read_csr_sscratch : M memory (Z * bool) := val ← read_sscratch; read_csr_success val.
Definition read_csr_sepc : M memory (Z * bool) := val ← read_sepc; read_csr_success val.
Definition read_csr_scause : M memory (Z * bool) := val ← read_scause; read_csr_success val.
Definition read_csr_stval : M memory (Z * bool) := val ← read_stval; read_csr_success val.
Definition read_csr_sip : M memory (Z * bool) :=
  mip ← read_mip; mideleg ← read_mideleg; read_csr_success (Z.land mip mideleg).
Definition read_csr_satp : M memory (Z * bool) :=
  mstatus ← read_mstatus;
  prv ← read_iprv;
  if (prv =? PRV_S) && negb (Z.land mstatus MSTATUS_TVM_MASK =? 0) then read_csr_fail
  else val ← read_satp; read_csr_success val.
Definition read_csr_mstatus : M memory (Z * bool) := val ← read_mstatus; read_csr_success val.
Definition read_csr_menvcfg : M memory (Z * bool) := val ← read_menvcfg; read_csr_success val.
Definition read_csr_misa : M memory (Z * bool) := val ← read_misa; read_csr_success val.
Definition read_csr_medeleg : M memory (Z * bool) := val ← read_medeleg; read_csr_success val.
Definition read_csr_mideleg : M memory (Z * bool) := val ← read_mideleg; read_csr_success val.
Definition read_csr_mie : M memory (Z * bool) := val ← read_mie; read_csr_success val.
Definition read_csr_mtvec : M memory (Z * bool) := val ← read_mtvec; read_csr_success val.
Definition read_csr_mcounteren : M memory (Z * bool) := val ← read_mcounteren; read_csr_success val.
Definition read_csr_mscratch : M memory (Z * bool) := val ← read_mscratch; read_csr_success val.
Definition read_csr_mepc : M memory (Z * bool) := val ← read_mepc; read_csr_success val.
Definition read_csr_mcause : M memory (Z * bool) := val ← read_mcause; read_csr_success val.
Definition read_csr_mtval : M memory (Z * bool) := val ← read_mtval; read_csr_success val.
Definition read_csr_mip : M memory (Z * bool) := val ← read_mip; read_csr_success val.
Definition read_csr_mcycle (mcycle : Z) : M memory (Z * bool) := read_csr_success mcycle.
Definition read_csr_minstret (mcycle : Z) : M memory (Z * bool) :=
  icycleinstret ← read_icycleinstret;
  let minstret := uint64 (mcycle - icycleinstret) in
  read_csr_success minstret.
Definition read_csr_mvendorid : M memory (Z * bool) := val ← read_mvendorid; read_csr_success val.
Definition read_csr_marchid : M memory (Z * bool) := val ← read_marchid; read_csr_success val.
Definition read_csr_mimpid : M memory (Z * bool) := val ← read_mimpid; read_csr_success val.

(** With the floating-point unit off its registers cannot be accessed. *)
Definition fs_is_off (mstatus : Z) : bool := Z.land mstatus MSTATUS_FS_MASK =? MSTATUS_FS_OFF.

Definition read_csr_fflags : M memory (Z * bool) :=
  mstatus ← read_mstatus;
  if fs_is_off mstatus then read_csr_fail
  else
    fcsr ← read_fcsr;
    let fflags := Z.shiftr (Z.land fcsr FCSR_FFLAGS_RW_MASK) FCSR_FFLAGS_SHIFT in
    read_csr_success fflags.
Definition read_csr_frm : M memory (Z * bool) :=
  mstatus ← read_mstatus;
  if fs_is_off mstatus then read_csr_fail
  else
    fcsr ← read_fcsr;
    let frm := Z.shiftr (Z.land fcsr FCSR_FRM_RW_MASK) FCSR_FRM_SHIFT in
    read_csr_success frm.
Definition read_csr_fcsr : M memory (Z * bool) :=
  mstatus ← read_mstatus;
  if fs_is_off mstatus then read_csr_fail
  else fcsr ← read_fcsr; read_csr_success fcsr.

(** The registers that are hardwired to zero, and those whose writes are ignored. *)
Definition csr_hardwired (csraddr : Z) : bool :=
  (csraddr =? CSR_address.mhartid) || (csraddr =? CSR_address.mcountinhibit) || (csraddr =? CSR_address.mconfigptr)
  || csr_between CSR_address.mhpmcounter3 CSR_address.mhpmcounter31 csraddr
  || csr_between CSR_address.mhpmevent3 CSR_address.mhpmevent31 csraddr
  || csr_between CSR_address.tselect CSR_address.tdata3 csraddr.
Definition csr_ignores_writes (csraddr : Z) : bool :=
  (csraddr =? CSR_address.misa)
  || csr_between CSR_address.mhpmcounter3 CSR_address.mhpmcounter31 csraddr
  || (csraddr =? CSR_address.mcountinhibit)
  || csr_between CSR_address.mhpmevent3 CSR_address.mhpmevent31 csraddr
  || csr_between CSR_address.tselect CSR_address.tdata3 csraddr.

Definition read_csr (mcycle csraddr : Z) : M memory (Z * bool) :=
  prv ← read_iprv;
  if prv <? csr_prv csraddr then read_csr_fail
  else if csraddr =? CSR_address.fflags then read_csr_fflags
  else if csraddr =? CSR_address.frm then read_csr_frm
  else if csraddr =? CSR_address.fcsr then read_csr_fcsr
  else if csraddr =? CSR_address.ucycle then read_csr_cycle mcycle
  else if csraddr =? CSR_address.uinstret then read_csr_instret mcycle
  else if csraddr =? CSR_address.utime then read_csr_time mcycle
  else if csraddr =? CSR_address.sstatus then read_csr_sstatus
  else if csraddr =? CSR_address.senvcfg then read_csr_senvcfg
  else if csraddr =? CSR_address.sie then read_csr_sie
  else if csraddr =? CSR_address.stvec then read_csr_stvec
  else if csraddr =? CSR_address.scounteren then read_csr_scounteren
  else if csraddr =? CSR_address.sscratch then read_csr_sscratch
  else if csraddr =? CSR_address.sepc then read_csr_sepc
  else if csraddr =? CSR_address.scause then read_csr_scause
  else if csraddr =? CSR_address.stval then read_csr_stval
  else if csraddr =? CSR_address.sip then read_csr_sip
  else if csraddr =? CSR_address.satp then read_csr_satp
  else if csraddr =? CSR_address.mstatus then read_csr_mstatus
  else if csraddr =? CSR_address.menvcfg then read_csr_menvcfg
  else if csraddr =? CSR_address.misa then read_csr_misa
  else if csraddr =? CSR_address.medeleg then read_csr_medeleg
  else if csraddr =? CSR_address.mideleg then read_csr_mideleg
  else if csraddr =? CSR_address.mie then read_csr_mie
  else if csraddr =? CSR_address.mtvec then read_csr_mtvec
  else if csraddr =? CSR_address.mcounteren then read_csr_mcounteren
  else if csraddr =? CSR_address.mscratch then read_csr_mscratch
  else if csraddr =? CSR_address.mepc then read_csr_mepc
  else if csraddr =? CSR_address.mcause then read_csr_mcause
  else if csraddr =? CSR_address.mtval then read_csr_mtval
  else if csraddr =? CSR_address.mip then read_csr_mip
  else if csraddr =? CSR_address.mcycle then read_csr_mcycle mcycle
  else if csraddr =? CSR_address.minstret then read_csr_minstret mcycle
  else if csraddr =? CSR_address.mvendorid then read_csr_mvendorid
  else if csraddr =? CSR_address.marchid then read_csr_marchid
  else if csraddr =? CSR_address.mimpid then read_csr_mimpid
  else if csr_hardwired csraddr then read_csr_success 0
  else read_csr_fail.

(** ** Writes *)

Definition write_csr_satp (val : Z) : M memory execute_status :=
  mstatus ← read_mstatus;
  prv ← read_iprv;
  if (prv =? PRV_S) && negb (Z.land mstatus MSTATUS_TVM_MASK =? 0) then mret failure
  else
    old_satp ← read_satp;
    let mode := Z.shiftr val SATP_MODE_SHIFT in
    if (mode =? SATP_MODE_BARE) || (mode =? SATP_MODE_SV39) || (mode =? SATP_MODE_SV48) then
      let stap := Z.lor (Z.lor (Z.land val SATP_PPN_MASK) (Z.land val SATP_ASID_MASK)) (Z.land val SATP_MODE_MASK) in
      write_satp stap ;;
      let modified := Z.lxor old_satp stap in
      if negb (Z.land modified (Z.lor SATP_ASID_MASK SATP_MODE_MASK) =? 0) then
        flush_all_tlb ;;
        mret success_and_flush_fetch
      else mret success
    else mret success.

Definition write_csr_mstatus (val : Z) : M memory execute_status :=
  old_mstatus ← read_mstatus;
  let old_mstatus := Z.land old_mstatus MSTATUS_R_MASK in
  let val := if PRV_HS =? Z.shiftr (Z.land val MSTATUS_MPP_MASK) MSTATUS_MPP_SHIFT
             then Z.land val (not64 MSTATUS_MPP_MASK) else val in
  let mstatus := Z.lor (Z.land old_mstatus (not64 MSTATUS_W_MASK)) (Z.land val MSTATUS_W_MASK) in
  let mstatus :=
    if negb (Z.land mstatus MSTATUS_FS_MASK =? MSTATUS_FS_OFF)
    then Z.lor (Z.lor mstatus MSTATUS_FS_DIRTY) MSTATUS_SD_MASK
    else Z.land mstatus (not64 MSTATUS_SD_MASK) in
  write_mstatus mstatus ;;
  let modified := Z.lxor old_mstatus mstatus in
  let mxr_modified := negb (Z.land modified MSTATUS_MXR_MASK =? 0) in
  let sum_modified := negb (Z.land modified MSTATUS_SUM_MASK =? 0) in
  let mprv_modified :=
    negb (Z.land modified MSTATUS_MPRV_MASK =? 0) ||
    (negb (Z.land mstatus MSTATUS_MPRV_MASK =? 0) && negb (Z.land modified MSTATUS_MPP_MASK =? 0)) in
  let flush_tlb_read := mxr_modified || sum_modified || mprv_modified in
  let flush_tlb_write := sum_modified || mprv_modified in
  when flush_tlb_read (flush_tlb_set TLB_READ) ;;
  when flush_tlb_write (flush_tlb_set TLB_WRITE) ;;
  if negb (Z.land modified (Z.lor MSTATUS_SIE_MASK MSTATUS_MIE_MASK) =? 0) then mret success_and_serve_interrupts
  else mret success.

Definition write_csr_sstatus (val : Z) : M memory execute_status :=
  mstatus ← read_mstatus;
  write_csr_mstatus (Z.lor (Z.land mstatus (not64 SSTATUS_W_MASK)) (Z.land val SSTATUS_W_MASK)).
Definition write_csr_senvcfg (val : Z) : M memory execute_status := write_senvcfg val ;; mret success.
Definition write_csr_sie (val : Z) : M memory execute_status :=
  mie ← read_mie;
  mask ← read_mideleg;
  let mie := Z.lor (Z.land mie (not64 mask)) (Z.land val mask) in
  write_mie mie ;;
  mret success_and_serve_interrupts.
Definition write_csr_stvec (val : Z) : M memory execute_status := write_stvec val ;; mret success.
Definition write_csr_scounteren (val : Z) : M memory execute_status := write_scounteren val ;; mret success.
Definition write_csr_sscratch (val : Z) : M memory execute_status := write_sscratch val ;; mret success.
Definition write_csr_sepc (val : Z) : M memory execute_status := write_sepc val ;; mret success.
Definition write_csr_scause (val : Z) : M memory execute_status := write_scause val ;; mret success.
Definition write_csr_stval (val : Z) : M memory execute_status := write_stval val ;; mret success.
Definition write_csr_sip (val : Z) : M memory execute_status :=
  mask ← read_mideleg;
  mip ← read_mip;
  let mip := Z.lor (Z.land mip (not64 mask)) (Z.land val mask) in
  write_mip mip ;;
  mret success_and_serve_interrupts.
Definition write_csr_menvcfg (val : Z) : M memory execute_status := write_menvcfg val ;; mret success.
Definition write_csr_medeleg (val : Z) : M memory execute_status := write_medeleg val ;; mret success.
Definition write_csr_mideleg (val : Z) : M memory execute_status := write_mideleg val ;; mret success_and_serve_interrupts.
Definition write_csr_mie (val : Z) : M memory execute_status := write_mie val ;; mret success_and_serve_interrupts.
Definition write_csr_mtvec (val : Z) : M memory execute_status := write_mtvec val ;; mret success.
Definition write_csr_mcounteren (val : Z) : M memory execute_status := write_mcounteren val ;; mret success.
Definition write_csr_minstret (mcycle val : Z) : M memory execute_status :=
  let icycleinstret := uint64 (uint64 (mcycle + 1) - val) in
  write_icycleinstret icycleinstret ;;
  mret success.
Definition write_csr_mcycle (val : Z) : M memory execute_status := mret failure.
Definition write_csr_mscratch (val : Z) : M memory execute_status := write_mscratch val ;; mret success.
Definition write_csr_mepc (val : Z) : M memory execute_status := write_mepc val ;; mret success.
Definition write_csr_mcause (val : Z) : M memory execute_status := write_mcause val ;; mret success.
Definition write_csr_mtval (val : Z) : M memory execute_status := write_mtval val ;; mret success.
Definition write_csr_mip (val : Z) : M memory execute_status :=
  mip ← read_mip;
  write_mip (Z.lor (Z.land mip (not64 MIP_S_RW_MASK)) (Z.land val MIP_S_RW_MASK)) ;;
  mret success_and_serve_interrupts.

Definition write_csr_fflags (val : Z) : M memory execute_status :=
  mstatus ← read_mstatus;
  if fs_is_off mstatus then mret failure
  else
    fcsr ← read_fcsr;
    let fcsr := Z.lor (Z.land fcsr (not64 FCSR_FFLAGS_RW_MASK))
                      (Z.land (uint64 (Z.shiftl val FCSR_FFLAGS_SHIFT)) FCSR_FFLAGS_RW_MASK) in
    write_fcsr fcsr ;;
    mret success.
Definition write_csr_frm (val : Z) : M memory execute_status :=
  mstatus ← read_mstatus;
  if fs_is_off mstatus then mret failure
  else
    fcsr ← read_fcsr;
    let fcsr := Z.lor (Z.land fcsr (not64 FCSR_FRM_RW_MASK))
                      (Z.land (uint64 (Z.shiftl val FCSR_FRM_SHIFT)) FCSR_FRM_RW_MASK) in
    write_fcsr fcsr ;;
    mret success.
Definition write_csr_fcsr (val : Z) : M memory execute_status :=
  mstatus ← read_mstatus;
  if fs_is_off mstatus then mret failure
  else write_fcsr val ;; mret success.

Definition write_csr (mcycle csraddr val : Z) : M memory execute_status :=
  if csr_is_read_only csraddr then mret failure
  else
    prv ← read_iprv;
    if prv <? csr_prv csraddr then mret failure
    else if csraddr =? CSR_address.fflags then write_csr_fflags val
    else if csraddr =? CSR_address.frm then write_csr_frm val
    else if csraddr =? CSR_address.fcsr then write_csr_fcsr val
    else if csraddr =? CSR_address.sstatus then write_csr_sstatus val
    else if csraddr =? CSR_address.senvcfg then write_csr_senvcfg val
    else if csraddr =? CSR_address.sie then write_csr_sie val
    else if csraddr =? CSR_address.stvec then write_csr_stvec val
    else if csraddr =? CSR_address.scounteren then write_csr_scounteren val
    else if csraddr =? CSR_address.sscratch then write_csr_sscratch val
    else if csraddr =? CSR_address.sepc then write_csr_sepc val
    else if csraddr =? CSR_address.scause then write_csr_scause val
    else if csraddr =? CSR_address.stval then write_csr_stval val
    else if csraddr =? CSR_address.sip then write_csr_sip val
    else if csraddr =? CSR_address.satp then write_csr_satp val
    else if csraddr =? CSR_address.mstatus then write_csr_mstatus val
    else if csraddr =? CSR_address.menvcfg then write_csr_menvcfg val
    else if csraddr =? CSR_address.medeleg then write_csr_medeleg val
    else if csraddr =? CSR_address.mideleg then write_csr_mideleg val
    else if csraddr =? CSR_address.mie then write_csr_mie val
    else if csraddr =? CSR_address.mtvec then write_csr_mtvec val
    else if csraddr =? CSR_address.mcounteren then write_csr_mcounteren val
    else if csraddr =? CSR_address.mscratch then write_csr_mscratch val
    else if csraddr =? CSR_address.mepc then write_csr_mepc val
    else if csraddr =? CSR_address.mcause then write_csr_mcause val
    else if csraddr =? CSR_address.mtval then write_csr_mtval val
    else if csraddr =? CSR_address.mip then write_csr_mip val
    else if csraddr =? CSR_address.mcycle then write_csr_mcycle val
    else if csraddr =? CSR_address.minstret then write_csr_minstret mcycle val
    else if csr_ignores_writes csraddr then mret success
    else mret failure.

(** ** CSR instructions *)

Definition insn_I_get_uimm (insn : Z) : Z := Z.shiftr insn 20.

(** Writes [rd] and goes on, the end of the three forms. *)
Definition csr_end (pc insn csrval : Z) (wstatus : execute_status) : M memory (execute_status * Z) :=
  let rd := insn_get_rd insn in
  if rd =? 0 then advance_to_next_insn pc wstatus
  else
    write_x rd csrval ;;
    advance_to_next_insn pc wstatus.

Definition execute_csr_RW (pc mcycle insn : Z) (rs1val : Z -> M memory Z) : M memory (execute_status * Z) :=
  let csraddr := insn_I_get_uimm insn in
  let rd := insn_get_rd insn in
  '(csrval, status) ← (if negb (rd =? 0) then read_csr mcycle csraddr else mret (0, true));
  if negb status then raise_illegal_insn_exception pc insn
  else
    val ← rs1val insn;
    wstatus ← write_csr mcycle csraddr val;
    if bool_decide (wstatus = failure) then raise_illegal_insn_exception pc insn
    else csr_end pc insn csrval wstatus.

Definition execute_CSRRW (pc mcycle insn : Z) : M memory (execute_status * Z) :=
  execute_csr_RW pc mcycle insn (fun insn => read_x (insn_get_rs1 insn)).
Definition execute_CSRRWI (pc mcycle insn : Z) : M memory (execute_status * Z) :=
  execute_csr_RW pc mcycle insn (fun insn => mret (insn_get_rs1 insn)).

Definition execute_csr_SC (pc mcycle insn : Z) (f : Z -> Z -> Z) : M memory (execute_status * Z) :=
  let csraddr := insn_I_get_uimm insn in
  '(csrval, status) ← read_csr mcycle csraddr;
  if negb status then raise_illegal_insn_exception pc insn
  else
    let rs1 := insn_get_rs1 insn in
    rs1val ← read_x rs1;
    wstatus ← (if negb (rs1 =? 0) then write_csr mcycle csraddr (f csrval rs1val) else mret success);
    if bool_decide (wstatus = failure) then raise_illegal_insn_exception pc insn
    else csr_end pc insn csrval wstatus.

Definition execute_CSRRS (pc mcycle insn : Z) : M memory (execute_status * Z) :=
  execute_csr_SC pc mcycle insn (fun csr rs1 => Z.lor csr rs1).
Definition execute_CSRRC (pc mcycle insn : Z) : M memory (execute_status * Z) :=
  execute_csr_SC pc mcycle insn (fun csr rs1 => Z.land csr (not64 rs1)).

Definition execute_csr_SCI (pc mcycle insn : Z) (f : Z -> Z -> Z) : M memory (execute_status * Z) :=
  let csraddr := insn_I_get_uimm insn in
  '(csrval, status) ← read_csr mcycle csraddr;
  if negb status then raise_illegal_insn_exception pc insn
  else
    let rs1 := insn_get_rs1 insn in
    wstatus ← (if negb (rs1 =? 0) then write_csr mcycle csraddr (f csrval rs1) else mret success);
    if bool_decide (wstatus = failure) then raise_illegal_insn_exception pc insn
    else csr_end pc insn csrval wstatus.

Definition execute_CSRRSI (pc mcycle insn : Z) : M memory (execute_status * Z) :=
  execute_csr_SCI pc mcycle insn (fun csr rs1 => Z.lor csr rs1).
(** [rs1] is a [uint32_t] here, so [~rs1] is a 32-bit complement. *)
Definition execute_CSRRCI (pc mcycle insn : Z) : M memory (execute_status * Z) :=
  execute_csr_SCI pc mcycle insn (fun csr rs1 => Z.land csr (not32 rs1)).
