(* ===== verification/Devices.v ===== *)
(** * Devices (src/clint-address-range.cpp, plic-address-range.cpp, htif-address-range.cpp, device-state-access.hpp)

    The core-local interruptor, the platform-level interrupt controller and
    the host-target interface, as the interpreter reaches them: through the
    access to the state of the uninteractive machine, whose console has no
    input and never asks to be flushed. *)

From S2P Require Import Prelude Bits Htif Shadow SolidityCompat HashTree Memory Machine Riscv Hart Trap.

(** ** Access of a device to the state (device-state-access.hpp) *)

Definition set_mip (mask : Z) : M memory unit :=
  mip ← read_mip;
  write_mip (Z.lor mip mask).
Definition reset_mip (mask : Z) : M memory unit :=
  mip ← read_mip;
  write_mip (Z.land mip (not64 mask)).
(** [do_putchar] of the access of the microarchitecture; the character goes
    to the console of the host and is not part of the state. *)
Definition putchar (c : Z) : M memory bool := mret false.
Definition getchar : M memory (Z * bool) := mret (-1, false).

(** A read of a device returns its value, or nothing when it does not know how to read. *)
Abbreviation device_value := (option Z).

(** ** CLINT *)

Module CLINT.
Definition clint_msip0_rel_addr : Z := 0.
Definition clint_mtimecmp_rel_addr : Z := 0x4000.
Definition clint_mtime_rel_addr : Z := 0xbff8.

Definition clint_read_msip (log2_size : Z) : M memory device_value :=
  if log2_size =? 2 then
    mip ← read_mip;
    mret (Some (b2u (Z.land mip MIP_MSIP_MASK =? MIP_MSIP_MASK)))
  else mret None.
Definition clint_read_mtime (mcycle log2_size : Z) : M memory device_value :=
  if log2_size =? 3 then mret (Some (rtc_cycle_to_time mcycle)) else mret None.
Definition clint_read_mtimecmp (log2_size : Z) : M memory device_value :=
  if log2_size =? 3 then mtimecmp ← read_clint_mtimecmp; mret (Some mtimecmp) else mret None.

Definition do_read_device (mcycle offset log2_size : Z) : M memory device_value :=
  if offset =? clint_msip0_rel_addr then clint_read_msip log2_size
  else if offset =? clint_mtimecmp_rel_addr then clint_read_mtimecmp log2_size
  else if offset =? clint_mtime_rel_addr then clint_read_mtime mcycle log2_size
  else mret None.

Definition do_write_device (EVENT_DRIVEN_INTERPRETER_DEADLINES : bool) (offset log2_size val : Z) : M memory execute_status :=
  if offset =? clint_msip0_rel_addr then
    if log2_size =? 2 then
      if negb (Z.land val 1 =? 0) then
        set_mip MIP_MSIP_MASK ;;
        mret success_and_serve_interrupts
      else
        reset_mip MIP_MSIP_MASK ;;
        mret success
    else mret failure
  else if offset =? clint_mtimecmp_rel_addr then
    if log2_size =? 3 then
      write_clint_mtimecmp val ;;
      reset_mip MIP_MTIP_MASK ;;
      mret (if EVENT_DRIVEN_INTERPRETER_DEADLINES then success_and_serve_interrupts else success)
    else mret failure
  else mret failure.
End CLINT.

(** ** PLIC *)

Definition PLIC_ENABLED_IRQ_MASK : Z := 0xfffffffe.
Definition PLIC_LOWEST_IRQ_PRIORITY : Z := 1.
Definition PLIC_MAX_IRQ : Z := 31.

Module plic_csr_rel_addr.
Definition priority1 : Z := 0x4.
Definition priority31 : Z := 0x7c.
Definition pending : Z := 0x1000.
Definition enabled : Z := 0x2000.
Definition claim_complete : Z := 0x200004.
End plic_csr_rel_addr.

Module PLIC.
(** The pending sources that are not being served; the registers of the
    controller are used as [uint32_t]. *)
Definition pending_mask (girqpend girqsrvd : Z) : Z := Z.land (uint32 girqpend) (not32 (uint32 girqsrvd)).

Definition plic_read_pending : M memory Z :=
  girqpend ← read_plic_girqpend;
  girqsrvd ← read_plic_girqsrvd;
  let ipmask := pending_mask girqpend girqsrvd in
  mret ipmask.

Definition plic_read_claim_complete : M memory device_value :=
  girqpend ← read_plic_girqpend;
  girqsrvd ← read_plic_girqsrvd;
  let ipmask := pending_mask girqpend girqsrvd in
  if negb (ipmask =? 0) then
    let irq_id := ilog2 ipmask in
    let irq_mask := uint32 (Z.shiftl 1 irq_id) in
    let girqsrvd := Z.lor (uint32 girqsrvd) irq_mask in
    write_plic_girqsrvd girqsrvd ;;
    let ipmask := pending_mask girqpend girqsrvd in
    when (ipmask =? 0) (reset_mip (Z.lor MIP_MEIP_MASK MIP_SEIP_MASK)) ;;
    mret (Some irq_id)
  else mret (Some 0).

Definition plic_write_claim_complete (val : Z) : M memory execute_status :=
  if (1 <=? val) && (val <=? PLIC_MAX_IRQ) then
    girqpend ← read_plic_girqpend;
    girqsrvd ← read_plic_girqsrvd;
    let irq_mask := uint32 (Z.shiftl 1 val) in
    let girqsrvd := Z.land (uint32 girqsrvd) (not32 irq_mask) in
    write_plic_girqsrvd girqsrvd ;;
    let ipmask := pending_mask girqpend girqsrvd in
    if ipmask =? 0 then
      reset_mip (Z.lor MIP_MEIP_MASK MIP_SEIP_MASK) ;;
      mret success
    else
      set_mip (Z.lor MIP_MEIP_MASK MIP_SEIP_MASK) ;;
      mret success_and_serve_interrupts
  else mret success.

Definition unsupported_access (offset log2_size : Z) : bool :=
  negb (Z.land offset 3 =? 0) || negb (log2_size =? 2) || (AR_PLIC_LENGTH <? offset).

(** The priorities of sources 1 to 31 are consecutive words. *)
Definition is_priority (offset : Z) : bool :=
  (plic_csr_rel_addr.priority1 <=? offset) && (offset <=? plic_csr_rel_addr.priority31).

Definition do_read_device (offset log2_size : Z) : M memory device_value :=
  if unsupported_access offset log2_size then mret None
  else if is_priority offset then mret (Some PLIC_LOWEST_IRQ_PRIORITY)
  else if offset =? plic_csr_rel_addr.pending then ipmask ← plic_read_pending; mret (Some ipmask)
  else if offset =? plic_csr_rel_addr.enabled then mret (Some PLIC_ENABLED_IRQ_MASK)
  else if offset =? plic_csr_rel_addr.claim_complete then plic_read_claim_complete
  else mret (Some 0).

Definition do_write_device (offset log2_size val : Z) : M memory execute_status :=
  if unsupported_access offset log2_size then mret failure
  else if offset =? plic_csr_rel_addr.claim_complete then plic_write_claim_complete (uint32 val)
  else mret success.

(** Called by the devices that interrupt. *)
Definition plic_set_pending_irq (irq_id : Z) : M memory unit :=
  let irq_mask := uint32 (Z.shiftl 1 irq_id) in
  girqsrvd ← read_plic_girqsrvd;
  girqpend ← read_plic_girqpend;
  let girqpend := Z.lor (uint32 girqpend) irq_mask in
  write_plic_girqpend girqpend ;;
  let ipmask := pending_mask girqpend girqsrvd in
  when (negb (ipmask =? 0)) (set_mip (Z.lor MIP_MEIP_MASK MIP_SEIP_MASK)).

Definition plic_reset_pending_irq (irq_id : Z) : M memory unit :=
  let irq_mask := uint32 (Z.shiftl 1 irq_id) in
  girqsrvd ← read_plic_girqsrvd;
  girqpend ← read_plic_girqpend;
  let girqpend := Z.land (uint32 girqpend) (not32 irq_mask) in
  write_plic_girqpend girqpend ;;
  let ipmask := pending_mask girqpend girqsrvd in
  when (ipmask =? 0) (reset_mip (Z.lor MIP_MEIP_MASK MIP_SEIP_MASK)).
End PLIC.

(** ** HTIF *)

Module HTIF.
Definition htif_tohost_rel_addr : Z := 0x0.
Definition htif_fromhost_rel_addr : Z := 0x8.
Definition htif_ihalt_rel_addr : Z := 0x10.
Definition htif_iconsole_rel_addr : Z := 0x18.
Definition htif_iyield_rel_addr : Z := 0x20.

Definition do_read_device (offset log2_size : Z) : M memory device_value :=
  if negb (log2_size =? 3) then mret None
  else if offset =? htif_tohost_rel_addr then v ← read_htif_tohost; mret (Some v)
  else if offset =? htif_fromhost_rel_addr then v ← read_htif_fromhost; mret (Some v)
  else if offset =? htif_ihalt_rel_addr then v ← read_htif_ihalt; mret (Some v)
  else if offset =? htif_iconsole_rel_addr then v ← read_htif_iconsole; mret (Some v)
  else if offset =? htif_iyield_rel_addr then v ← read_htif_iyield; mret (Some v)
  else mret None.

Definition htif_halt (cmd data : Z) : M memory execute_status :=
  if (cmd =? HTIF_HALT_CMD_HALT) && negb (Z.land data 1 =? 0) then
    write_iflags_H 1 ;;
    mret success_and_halt
  else mret success.

Definition htif_yield (cmd data : Z) : M memory execute_status :=
  iyield ← (if cmd <? 64 then read_htif_iyield else mret 0);
  if (cmd <? 64) && negb (Z.land (Z.shiftr iyield cmd) 1 =? 0) then
    if cmd =? HTIF_YIELD_CMD_MANUAL then
      write_iflags_Y 1 ;;
      write_htif_fromhost (HTIF_BUILD HTIF_DEV_YIELD cmd 0 0) ;;
      mret success_and_yield
    else if cmd =? HTIF_YIELD_CMD_AUTOMATIC then
      write_iflags_X 1 ;;
      write_htif_fromhost (HTIF_BUILD HTIF_DEV_YIELD cmd 0 0) ;;
      mret success_and_yield
    else mret success
  else mret success.

Definition htif_console (cmd data : Z) : M memory execute_status :=
  iconsole ← (if cmd <? 64 then read_htif_iconsole else mret 0);
  if (cmd <? 64) && negb (Z.land (Z.shiftr iconsole cmd) 1 =? 0) then
    if cmd =? HTIF_CONSOLE_CMD_PUTCHAR then
      let ch := Z.land data 0xff in
      should_flush_output ← putchar ch;
      write_htif_fromhost (HTIF_BUILD HTIF_DEV_CONSOLE cmd 0 0) ;;
      mret (if should_flush_output : bool then success_and_console_output else success)
    else if cmd =? HTIF_CONSOLE_CMD_GETCHAR then
      '(c, should_refill_input) ← getchar;
      write_htif_fromhost (HTIF_BUILD HTIF_DEV_CONSOLE cmd 0 (uint32 (c + 1))) ;;
      mret (if should_refill_input : bool then success_and_console_input else success)
    else mret success
  else mret success.

Definition htif_write_tohost (tohost : Z) : M memory execute_status :=
  let device := uint32 (HTIF_DEV_FIELD tohost) in
  let cmd := uint32 (HTIF_CMD_FIELD tohost) in
  let data := HTIF_DATA_FIELD tohost in
  write_htif_tohost tohost ;;
  if device =? HTIF_DEV_HALT then htif_halt cmd data
  else if device =? HTIF_DEV_CONSOLE then htif_console cmd data
  else if device =? HTIF_DEV_YIELD then htif_yield cmd data
  else mret success.

Definition do_write_device (offset log2_size val : Z) : M memory execute_status :=
  if negb (log2_size =? 3) then mret failure
  else if offset =? htif_tohost_rel_addr then htif_write_tohost val
  else if offset =? htif_fromhost_rel_addr then
    write_htif_fromhost val ;;
    mret success
  else mret failure.
End HTIF.

(** ** Devices by address range

    The driver that a range names; a range without one of the three drivers
    is the base class, which does not know how to read or write. *)

Definition read_device (ar : address_range) (mcycle offset log2_size : Z) : M memory device_value :=
  if get_driver_id ar =? PMA_ISTART_DID.CLINT then CLINT.do_read_device mcycle offset log2_size
  else if get_driver_id ar =? PMA_ISTART_DID.PLIC then PLIC.do_read_device offset log2_size
  else if get_driver_id ar =? PMA_ISTART_DID.HTIF then HTIF.do_read_device offset log2_size
  else mret None.

Definition write_device (EVENT_DRIVEN_INTERPRETER_DEADLINES : bool) (ar : address_range) (offset log2_size val : Z) :
    M memory execute_status :=
  if get_driver_id ar =? PMA_ISTART_DID.CLINT then
    CLINT.do_write_device EVENT_DRIVEN_INTERPRETER_DEADLINES offset log2_size val
  else if get_driver_id ar =? PMA_ISTART_DID.PLIC then PLIC.do_write_device offset log2_size val
  else if get_driver_id ar =? PMA_ISTART_DID.HTIF then HTIF.do_write_device offset log2_size val
  else mret failure.
