(* ===== verification/VirtualMemory.v ===== *)
(** * Virtual memory of the interpreter (src/find-pma.hpp, src/translate-virtual-address.hpp, src/interpret.cpp)

    Lookup of the range of a physical address, the walk of the page tables,
    and loads and stores through the TLB.  The walk and the loops are over
    the levels of the page tables and over the table of ranges, so they end
    by themselves or, for the latter, at the sentinel. *)

From S2P Require Import Prelude Bits Shadow SolidityCompat HashTree Memory Machine MachineFacts UarchMemory Riscv Hart Trap Devices.

Section virtual_memory.
Context (pmas : list address_range) (EVENT_DRIVEN_INTERPRETER_DEADLINES : bool).

(** ** Ranges *)

(** The loop of [find_pma]; [size] is [sizeof(T)].  The table ends in a
    sentinel at the latest at index [PMA_MAX], so [PMA_MAX + 1] rounds are
    enough. *)
Fixpoint find_pma_loop (fuel : nat) (size paddr index : Z) : address_range * Z :=
  match fuel with
  | O => (sentinel, index)
  | S fuel =>
      let ar := pma_at pmas index in
      if is_empty ar then (ar, index)
      else if contains_absolute ar paddr size then (ar, index)
      else find_pma_loop fuel size paddr (index + 1)
  end.
Definition find_pma_fuel : nat := Z.to_nat (PMA_MAX + 1).
(** The range and its index. *)
Definition find_pma (size paddr : Z) : M memory (address_range * Z) := mret (find_pma_loop find_pma_fuel size paddr 0).

(** ** Page tables *)

Definition write_ram_uint64 (paddr val : Z) : M memory bool :=
  '(ar, pma_index) ← find_pma 8 paddr;
  if negb (is_memory ar) || negb (is_writeable ar) then mret false
  else
    let faddr := get_faddr paddr pma_index in
    write_memory_word 8 faddr val ;;
    mret true.

Definition read_ram_uint64 (paddr : Z) : M memory (option Z) :=
  '(ar, pma_index) ← find_pma 8 paddr;
  if negb (is_memory ar) || negb (is_readable ar) then mret None
  else
    let faddr := get_faddr paddr pma_index in
    val ← read_memory_word 8 faddr;
    mret (Some val).

(** The checks of a leaf entry: whether [prv] may make the access, and the
    alignment of its page. *)
Definition leaf_allows (prv mstatus pte xwr xwr_shift ppn vaddr_mask : Z) : bool :=
  negb ((xwr =? PTE_XWR_W_MASK) || (xwr =? Z.lor PTE_XWR_W_MASK PTE_XWR_X_MASK)) &&
  (if prv =? PRV_S then
     if negb (Z.land pte PTE_U_MASK =? 0) then
       negb (xwr_shift =? PTE_XWR_X_SHIFT) && negb (Z.land mstatus MSTATUS_SUM_MASK =? 0)
     else true
   else negb (Z.land pte PTE_U_MASK =? 0)) &&
  (let xwr := if negb (Z.land mstatus MSTATUS_MXR_MASK =? 0) then Z.lor xwr (Z.shiftr xwr PTE_XWR_X_SHIFT) else xwr in
   negb (Z.land (Z.shiftr xwr xwr_shift) 1 =? 0)) &&
  (Z.land ppn vaddr_mask =? 0).

(** The loop over the levels, of which [n] are left. *)
Fixpoint walk (UPDATE_PTE : bool) (n : nat) (prv mstatus vaddr xwr_shift pte_addr vaddr_shift : Z) : M memory (option Z) :=
  match n with
  | O => mret None
  | S n =>
      let vpn := Z.land (Z.shiftr vaddr vaddr_shift) VPN_MASK in
      let pte_addr := uint64 (pte_addr + uint64 (Z.shiftl vpn LOG2_PTE_SIZE)) in
      read ← read_ram_uint64 pte_addr;
      match read with
      | None => mret None
      | Some pte =>
          if Z.land pte PTE_V_MASK =? 0 then mret None
          else if negb (Z.land pte (Z.lor PTE_60_54_MASK (Z.lor PTE_PBMT_MASK PTE_N_MASK)) =? 0) then mret None
          else
            let ppn := uint64 (Z.shiftl (Z.land pte PTE_PPN_MASK) (LOG2_PAGE_SIZE - PTE_PPN_SHIFT)) in
            let xwr := Z.land (Z.shiftr pte PTE_R_SHIFT) (Z.lor PTE_XWR_R_MASK (Z.lor PTE_XWR_W_MASK PTE_XWR_X_MASK)) in
            if negb (xwr =? 0) then
              let vaddr_mask := Z.shiftl 1 vaddr_shift - 1 in
              if leaf_allows prv mstatus pte xwr xwr_shift ppn vaddr_mask then
                let update_pte := Z.lor pte PTE_A_MASK in
                let update_pte := if xwr_shift =? PTE_XWR_W_SHIFT then Z.lor update_pte PTE_D_MASK else update_pte in
                (if UPDATE_PTE && negb (pte =? update_pte) then
                   _ ← write_ram_uint64 pte_addr update_pte; mret ()
                 else mret ()) ;;
                mret (Some (Z.lor (Z.land vaddr vaddr_mask) (Z.land ppn (not64 vaddr_mask))))
              else mret None
            else walk UPDATE_PTE n prv mstatus vaddr xwr_shift ppn (vaddr_shift - LOG2_VPN_SIZE)
      end
  end.

Definition translate_virtual_address (UPDATE_PTE : bool) (vaddr xwr_shift : Z) : M memory (option Z) :=
  prv ← read_iprv;
  mstatus ← read_mstatus;
  let prv := if negb (xwr_shift =? PTE_XWR_X_SHIFT) && negb (Z.land mstatus MSTATUS_MPRV_MASK =? 0)
             then Z.shiftr (Z.land mstatus MSTATUS_MPP_MASK) MSTATUS_MPP_SHIFT else prv in
  if PRV_S <? prv then mret (Some vaddr)
  else
    satp ← read_satp;
    let mode := Z.shiftr satp SATP_MODE_SHIFT in
    if mode =? SATP_MODE_BARE then mret (Some vaddr)
    else if (mode =? SATP_MODE_SV39) || (mode =? SATP_MODE_SV48) then
      let levels := (mode - SATP_MODE_SV39) + 3 in
      let vaddr_bits := XLEN - (LOG2_PAGE_SIZE + levels * LOG2_VPN_SIZE) in
      if negb (Z.shiftr (int64 (uint64 (Z.shiftl vaddr vaddr_bits))) vaddr_bits =? int64 vaddr) then mret None
      else
        let pte_addr := uint64 (Z.shiftl (Z.land satp SATP_PPN_MASK) LOG2_PAGE_SIZE) in
        let vaddr_shift := LOG2_PAGE_SIZE + LOG2_VPN_SIZE * (levels - 1) in
        walk UPDATE_PTE (Z.to_nat levels) prv mstatus vaddr xwr_shift pte_addr vaddr_shift
    else mret None.

(** ** Loads and stores

    [size] and [log2_size] are those of the type [T] of the access; values
    are unsigned, and a caller with a signed [T] extends them. *)

Definition cause_of (RAISE_STORE_EXCEPTIONS : bool) (store load : Z) : Z := if RAISE_STORE_EXCEPTIONS then store else load.

(** The value read, if any, and the new [pc]. *)
Definition read_virtual_memory_slow (RAISE_STORE_EXCEPTIONS : bool) (log2_size pc mcycle vaddr : Z) : M memory (option Z * Z) :=
  let size := Z.shiftl 1 log2_size in
  if negb (Z.land vaddr (size - 1) =? 0) then
    pc ← raise_exception pc (cause_of RAISE_STORE_EXCEPTIONS MCAUSE_STORE_AMO_ADDRESS_MISALIGNED MCAUSE_LOAD_ADDRESS_MISALIGNED) vaddr;
    mret (None, pc)
  else
    translated ← translate_virtual_address true vaddr PTE_XWR_R_SHIFT;
    match translated with
    | None =>
        pc ← raise_exception pc (cause_of RAISE_STORE_EXCEPTIONS MCAUSE_STORE_AMO_PAGE_FAULT MCAUSE_LOAD_PAGE_FAULT) vaddr;
        mret (None, pc)
    | Some paddr =>
        '(ar, pma_index) ← find_pma size paddr;
        let access_fault :=
          pc ← raise_exception pc (cause_of RAISE_STORE_EXCEPTIONS MCAUSE_STORE_AMO_ACCESS_FAULT MCAUSE_LOAD_ACCESS_FAULT) vaddr;
          mret (None, pc) in
        if is_readable ar then
          if is_memory ar then
            '(faddr, _) ← replace_tlb_entry TLB_READ vaddr paddr pma_index;
            val ← read_memory_word size faddr;
            mret (Some val, pc)
          else if is_device ar then
            let offset := uint64 (paddr - get_start ar) in
            status ← read_device ar mcycle offset log2_size;
            match status with
            | Some val => mret (Some (uwrap (8 * size) val), pc)
            | None => access_fault
            end
          else access_fault
        else access_fault
    end.

Definition read_virtual_memory (RAISE_STORE_EXCEPTIONS : bool) (log2_size pc mcycle vaddr : Z) : M memory (option Z * Z) :=
  let slot_index := tlb_slot_index vaddr in
  let size := Z.shiftl 1 log2_size in
  let slow := read_virtual_memory_slow RAISE_STORE_EXCEPTIONS log2_size pc mcycle vaddr in
  let verified_hit :=
    ok ← verify_cold_tlb_slot pmas TLB_READ slot_index;
    if negb ok then slow
    else
      pma_index ← read_tlb_pma_index TLB_READ slot_index;
      vf_offset ← read_tlb_vf_offset TLB_READ slot_index;
      let faddr := uint64 (vaddr + vf_offset) in
      val ← read_memory_word size faddr;
      mret (Some val, pc) in
  slot_vaddr_page ← read_tlb_vaddr_page TLB_READ slot_index;
  if negb (tlb_is_hit size slot_vaddr_page vaddr) then
    slot_vaddr_page ← init_hot_tlb_slot TLB_READ slot_index;
    if negb (tlb_is_hit size slot_vaddr_page vaddr) then slow else verified_hit
  else verified_hit.

Definition write_virtual_memory_slow (log2_size pc mcycle vaddr val64 : Z) : M memory (execute_status * Z) :=
  let size := Z.shiftl 1 log2_size in
  if negb (Z.land vaddr (size - 1) =? 0) then
    pc ← raise_exception pc MCAUSE_STORE_AMO_ADDRESS_MISALIGNED vaddr;
    mret (failure, pc)
  else
    translated ← translate_virtual_address true vaddr PTE_XWR_W_SHIFT;
    match translated with
    | None =>
        pc ← raise_exception pc MCAUSE_STORE_AMO_PAGE_FAULT vaddr;
        mret (failure, pc)
    | Some paddr =>
        '(ar, pma_index) ← find_pma size paddr;
        let access_fault :=
          pc ← raise_exception pc MCAUSE_STORE_AMO_ACCESS_FAULT vaddr;
          mret (failure, pc) in
        if is_writeable ar then
          if is_memory ar then
            '(faddr, _) ← replace_tlb_entry TLB_WRITE vaddr paddr pma_index;
            write_memory_word size faddr (uwrap (8 * size) val64) ;;
            mret (success, pc)
          else if is_device ar then
            let offset := uint64 (paddr - get_start ar) in
            status ← write_device EVENT_DRIVEN_INTERPRETER_DEADLINES ar offset log2_size (uwrap (8 * size) val64);
            if negb (bool_decide (status = failure)) then mret (status, pc)
            else access_fault
          else access_fault
        else access_fault
    end.

Definition write_virtual_memory (log2_size pc mcycle vaddr val64 : Z) : M memory (execute_status * Z) :=
  let slot_index := tlb_slot_index vaddr in
  let size := Z.shiftl 1 log2_size in
  let slow := write_virtual_memory_slow log2_size pc mcycle vaddr val64 in
  let verified_hit :=
    ok ← verify_cold_tlb_slot pmas TLB_WRITE slot_index;
    if negb ok then slow
    else
      pma_index ← read_tlb_pma_index TLB_WRITE slot_index;
      vf_offset ← read_tlb_vf_offset TLB_WRITE slot_index;
      let faddr := uint64 (vaddr + vf_offset) in
      write_memory_word size faddr (uwrap (8 * size) val64) ;;
      mret (success, pc) in
  slot_vaddr_page ← read_tlb_vaddr_page TLB_WRITE slot_index;
  if negb (tlb_is_hit size slot_vaddr_page vaddr) then
    slot_vaddr_page ← init_hot_tlb_slot TLB_WRITE slot_index;
    if negb (tlb_is_hit size slot_vaddr_page vaddr) then slow else verified_hit
  else verified_hit.
End virtual_memory.
