(* ===== verification/StatusBits.v ===== *)
(** * Bits of the status register

    The masks and shifts of the code as single bits and fields, and the
    values of [mstatus] that legalisation leaves alone.  The changes that
    traps and returns make to [mstatus] are stated as replacements of named
    fields, which keep a status legal. *)

From S2P Require Import Prelude Bits Riscv Hart Trap.

Lemma testbit_bit n i : 0 <= n -> Z.testbit (bit n) i = bool_decide (i = n).
Proof.
  intros. unfold bit. rewrite Z.shiftl_1_l. case_bool_decide as E.
  - subst. by apply Z.pow2_bits_true.
  - by apply Z.pow2_bits_false.
Qed.

(** [if (s & mask)] on a mask of one bit *)
Lemma land_bit_test s i : 0 <= i -> negb (Z.land s (bit i) =? 0) = Z.testbit s i.
Proof.
  intros Hi. destruct (Z.testbit s i) eqn:E.
  - apply negb_true_iff, Z.eqb_neq. intros E'. apply (f_equal (fun x => Z.testbit x i)) in E'.
    rewrite Z.land_spec, testbit_bit, bool_decide_eq_true_2, E, Z.bits_0 in E' by lia. done.
  - apply negb_false_iff, Z.eqb_eq. apply Z.bits_inj'. intros j Hj.
    rewrite Z.land_spec, testbit_bit, Z.bits_0 by lia. case_bool_decide; subst; by rewrite ?E, ?andb_false_r.
Qed.

(** A property of the bits of a word holds when it holds of each. *)
Lemma forall_bits (P : Z -> bool) n i : forallb P (seqZ 0 n) = true -> 0 <= i < n -> P i = true.
Proof. rewrite forallb_forall. intros H Hi. apply H, list_elem_of_In, elem_of_seqZ. lia. Qed.

Lemma land_mask_zero lo len x :
  0 <= lo -> 0 <= len -> (Z.land x (Z.shiftl (Z.ones len) lo) =? 0) = (bitfield lo len x =? 0).
Proof.
  intros. apply eq_bool_prop_intro. rewrite !Is_true_true, !Z.eqb_eq. split; intros E.
  - by rewrite <-masked_field, E, Z.shiftr_0_l by lia.
  - apply Z.bits_inj'. intros i Hi. apply (f_equal (fun x => Z.testbit x (i - lo))) in E.
    rewrite Z.bits_0 in *. rewrite Z.land_spec, Z.shiftl_spec by lia.
    destruct (decide (lo <= i)); [|by rewrite (Z.testbit_neg_r (Z.ones len)), andb_false_r by lia].
    rewrite testbit_bitfield in E by lia. rewrite testbit_ones by lia. rewrite andb_comm.
    by replace (i - lo + lo) with i in E by lia.
Qed.

Lemma bitfield_2 lo x : 0 <= lo -> bitfield lo 2 x = Z.b2z (Z.testbit x lo) + 2 * Z.b2z (Z.testbit x (lo + 1)).
Proof.
  intros. assert (forall b0 b1, Z.b2z b0 + 2 * Z.b2z b1 = Z.lor (Z.b2z b0) (Z.shiftl (Z.b2z b1) 1)) as -> by (by intros [] []).
  apply Z.bits_inj'. intros i Hi. rewrite testbit_bitfield, Z.lor_spec, Z.shiftl_spec by lia.
  destruct (decide (i = 0)) as [->|]; [|destruct (decide (i = 1)) as [->|]].
  - rewrite Z.b2z_bit0, (Z.testbit_neg_r _ (0 - 1)), orb_false_r by lia. done.
  - change (1 - 1) with 0. rewrite Z.b2z_bit0. replace (1 + lo) with (lo + 1) by lia. by destruct (Z.testbit x lo).
  - rewrite bool_decide_eq_false_2 by lia. simpl.
    destruct (Z.testbit x lo), (Z.testbit x (lo + 1)); simpl; rewrite ?Z.bits_0, ?orb_false_r; try done;
      rewrite ?(is_u_testbit 1 1) by (solve [lia | split; vm_compute; congruence]); done.
Qed.


Lemma testbit_field_mask lo len i :
  0 <= lo -> 0 <= len -> 0 <= i -> Z.testbit (Z.shiftl (Z.ones len) lo) i = bool_decide (lo <= i < lo + len).
Proof.
  intros. rewrite Z.shiftl_spec by lia. destruct (decide (lo <= i)).
  - rewrite testbit_ones by lia. apply bool_decide_ext. lia.
  - rewrite Z.testbit_neg_r, bool_decide_eq_false_2 by lia. done.
Qed.

Lemma testbit_clear_field s lo len i :
  0 <= lo -> 0 <= len -> lo + len <= 64 -> 0 <= i < 64 ->
  Z.testbit (Z.land s (not64 (Z.shiftl (Z.ones len) lo))) i = negb (bool_decide (lo <= i < lo + len)) && Z.testbit s i.
Proof.
  intros. rewrite Z.land_spec, testbit_not64, testbit_field_mask by (solve [lia | by apply field_mask_u64]).
  by rewrite bool_decide_eq_true_2, andb_true_l, andb_comm by lia.
Qed.

(** Evaluates the closed condition of an [if]. *)
Ltac eval_if :=
  match goal with
  | |- context [if ?c then _ else _] =>
    let v := eval vm_compute in c in
    match v with true => idtac | false => idtac end; change c with v; cbv iota
  end.

(** The bits of a legal status. *)
Lemma testbit_WARL_mstatus v i :
  0 <= i < 64 ->
  Z.testbit (WARL_mstatus v) i =
    if i =? 12 then Z.testbit v 11 && Z.testbit v 12
    else if (i =? 13) || (i =? 14) || (i =? 63) then Z.testbit v 13 || Z.testbit v 14
    else Z.testbit MSTATUS_R_MASK i && Z.testbit v i.
Proof.
  intros Hi. unfold WARL_mstatus. set (a := Z.land v MSTATUS_R_MASK).
  assert (Ha : forall j, Z.testbit a j = Z.testbit MSTATUS_R_MASK j && Z.testbit v j)
    by (intros; unfold a; by rewrite Z.land_spec, andb_comm).
  set (b := if PRV_HS =? _ then _ else a).
  assert (Hb : forall j, 0 <= j < 64 -> Z.testbit b j = if j =? 12 then Z.testbit v 11 && Z.testbit v 12 else Z.testbit a j).
  { intros j Hj. unfold b. change (Z.land a MSTATUS_MPP_MASK) with (Z.land a (Z.shiftl (Z.ones 2) 11)).
    change MSTATUS_MPP_SHIFT with 11. rewrite masked_field, bitfield_2, !Ha by lia.
    change MSTATUS_MPP_MASK with (Z.shiftl (Z.ones 2) 11).
    change (11 + 1) with 12. change (Z.testbit MSTATUS_R_MASK 11) with true. change (Z.testbit MSTATUS_R_MASK 12) with true.
    destruct (Z.testbit v 11) eqn:E11, (Z.testbit v 12) eqn:E12; cbn [andb Z.b2z];
      eval_if; rewrite ?testbit_clear_field by lia.
    all: destruct (Z.eqb_spec j 12) as [->|]; rewrite ?Ha, ?E12; [done|].
    all: try done. case_bool_decide; [|done]. replace j with 11 by lia. by rewrite E11, andb_false_r. }
  clearbody b. clearbody a.
  change (Z.land b MSTATUS_FS_MASK =? MSTATUS_FS_OFF) with (Z.land b (Z.shiftl (Z.ones 2) 13) =? 0).
  assert (bitfield 13 2 b = Z.b2z (Z.testbit v 13) + 2 * Z.b2z (Z.testbit v 14)) as E.
  { rewrite bitfield_2, !Hb, !Ha by lia. done. }
  rewrite land_mask_zero, E by lia. clear E.
  change (not64 MSTATUS_SD_MASK) with (not64 (Z.shiftl (Z.ones 1) 63)).
  change MSTATUS_FS_DIRTY with (Z.shiftl (Z.ones 2) 13). change MSTATUS_SD_MASK with (bit 63).
  destruct (Z.testbit v 13) eqn:E13, (Z.testbit v 14) eqn:E14; cbn [andb orb negb Z.b2z];
    eval_if; rewrite ?testbit_clear_field, ?Z.lor_spec, ?testbit_field_mask, ?testbit_bit by lia.
  all: rewrite Hb, Ha by lia.
  all: destruct (Z.eqb_spec i 12), (Z.eqb_spec i 13), (Z.eqb_spec i 14), (Z.eqb_spec i 63); subst; try lia; cbn [orb].
  all: rewrite ?E13, ?E14; repeat (case_bool_decide; try lia); by rewrite ?andb_true_r, ?orb_true_r, ?orb_false_r, ?andb_false_r.
Qed.

Lemma WARL_mstatus_range v : is_u 64 v -> is_u 64 (WARL_mstatus v).
Proof.
  intros Hv. assert (forall x, is_u 64 x -> is_u 64 (Z.land x MSTATUS_R_MASK)) as HR.
  { intros x Hx. apply testbit_is_u; [lia|]. intros i Hi. by rewrite Z.land_spec, (is_u_testbit 64 x). }
  apply testbit_is_u; [lia|]. intros i Hi. unfold WARL_mstatus. repeat case_match;
    rewrite ?Z.lor_spec, ?Z.land_spec, ?(is_u_testbit 64 v) by done;
    rewrite ?(is_u_testbit 64 MSTATUS_SD_MASK), ?(is_u_testbit 64 MSTATUS_FS_DIRTY) by (done || (split; vm_compute; congruence)); done.
Qed.

(** ** Legal statuses *)

Definition legal_mstatus (s : Z) : Prop := is_u 64 s /\ WARL_mstatus s = s.

(** What legalisation asks of the bits. *)
Definition legal_bits (s : Z) : bool :=
  implb (Z.testbit s 12) (Z.testbit s 11) &&
  Bool.eqb (Z.testbit s 13) (Z.testbit s 14) && Bool.eqb (Z.testbit s 13) (Z.testbit s 63).

Lemma legal_mstatus_bits s :
  legal_mstatus s <->
  is_u 64 s /\ legal_bits s = true /\ forall i, 0 <= i < 64 -> Z.testbit s i = true -> Z.testbit MSTATUS_R_MASK i = true.
Proof.
  unfold legal_bits. split.
  - intros [Hs E]. split; [done|].
    assert (Hb : forall i, 0 <= i < 64 -> Z.testbit s i = Z.testbit (WARL_mstatus s) i) by (intros; by rewrite E).
    pose proof (Hb 12 ltac:(lia)) as H12. pose proof (Hb 13 ltac:(lia)) as H13.
    pose proof (Hb 14 ltac:(lia)) as H14. pose proof (Hb 63 ltac:(lia)) as H63.
    rewrite testbit_WARL_mstatus in H12, H13, H14, H63 by lia. cbn [Z.eqb Pos.eqb orb] in *. split.
    + destruct (Z.testbit s 11), (Z.testbit s 12), (Z.testbit s 13), (Z.testbit s 14), (Z.testbit s 63); done.
    + intros i Hi Hsi. destruct (decide (i = 12 \/ i = 13 \/ i = 14 \/ i = 63)) as [[->|[->|[->| ->]]]|Hne]; [done..|].
      specialize (Hb i Hi). rewrite testbit_WARL_mstatus, Hsi in Hb by lia.
      rewrite !(proj2 (Z.eqb_neq _ _)) in Hb by lia. cbn [orb] in Hb.
      symmetry in Hb. by apply andb_true_iff in Hb as [Hb _].
  - intros (Hs & Hl & Hm). split; [done|]. apply Z.bits_inj'. intros i Hi.
    destruct (decide (i < 64)) as [Hi'|];
      [|by rewrite !(is_u_testbit 64) by solve [done | lia | by apply WARL_mstatus_range]].
    rewrite testbit_WARL_mstatus by lia.
    destruct (Z.eqb_spec i 12), (Z.eqb_spec i 13), (Z.eqb_spec i 14), (Z.eqb_spec i 63); subst; try lia; cbn [orb].
    5: { specialize (Hm i ltac:(lia)). destruct (Z.testbit s i); [by rewrite Hm | by rewrite andb_false_r]. }
    all: destruct (Z.testbit s 11), (Z.testbit s 12), (Z.testbit s 13), (Z.testbit s 14), (Z.testbit s 63); done.
Qed.

Lemma WARL_mstatus_legal v : is_u 64 v -> legal_mstatus (WARL_mstatus v).
Proof.
  intros Hv. apply legal_mstatus_bits. split; [by apply WARL_mstatus_range|]. split.
  - unfold legal_bits. rewrite !testbit_WARL_mstatus by lia. cbn [Z.eqb Pos.eqb orb].
    change (Z.testbit MSTATUS_R_MASK 11) with true.
    by destruct (Z.testbit v 11), (Z.testbit v 12), (Z.testbit v 13), (Z.testbit v 14).
  - intros i Hi. rewrite testbit_WARL_mstatus by lia.
    destruct (Z.eqb_spec i 12), (Z.eqb_spec i 13), (Z.eqb_spec i 14), (Z.eqb_spec i 63); subst; try done.
    by intros [? _]%andb_true_iff.
Qed.

(** Replacing a field that can hold any value keeps a status legal. *)
Lemma legal_replace_bits lo len v s :
  legal_mstatus s -> 0 <= lo -> 0 <= len -> lo + len <= 64 ->
  forallb (fun i => Z.testbit MSTATUS_R_MASK i && negb (bool_decide (i ∈ [11; 12; 13; 14; 63]))) (seqZ lo len) = true ->
  legal_mstatus (replace_bits lo len v s).
Proof.
  intros Hs Hlo Hlen Hw Hf. rewrite forallb_forall in Hf.
  assert (Hin : forall i, lo <= i < lo + len -> Z.testbit MSTATUS_R_MASK i = true /\ i <> 11 /\ i <> 12 /\ i <> 13 /\ i <> 14 /\ i <> 63).
  { intros i Hi. specialize (Hf i ltac:(apply list_elem_of_In, elem_of_seqZ; lia)).
    apply andb_true_iff in Hf as [? Hn]. split; [done|]. apply negb_true_iff, bool_decide_eq_false in Hn.
    rewrite !elem_of_cons, elem_of_nil in Hn. tauto. }
  apply legal_mstatus_bits in Hs as (Hu & Hl & Hm). apply legal_mstatus_bits.
  split; [by apply replace_bits_range|].
  assert (Hk : forall i, i ∈ [11; 12; 13; 14; 63] -> Z.testbit (replace_bits lo len v s) i = Z.testbit s i).
  { intros i Hi. rewrite !elem_of_cons, elem_of_nil in Hi. rewrite testbit_replace_bits by lia.
    rewrite bool_decide_eq_false_2 by (intros ?%Hin; lia). by rewrite bool_decide_eq_true_2 by lia. }
  split.
  - unfold legal_bits in *. by rewrite !Hk by (rewrite !elem_of_cons; tauto).
  - intros i Hi. rewrite testbit_replace_bits by lia. case_bool_decide; [intros _; by apply Hin|].
    rewrite bool_decide_eq_true_2 by lia. by apply Hm.
Qed.

(** [mstatus.MPP] takes any mode but the hypervisor's. *)
Lemma legal_replace_MPP v s : legal_mstatus s -> v ∈ [PRV_U; PRV_S; PRV_M] -> legal_mstatus (replace_bits 11 2 v s).
Proof.
  intros Hs Hv. apply legal_mstatus_bits in Hs as (Hu & Hl & Hm). apply legal_mstatus_bits.
  split; [by apply replace_bits_range|].
  assert (Hk : forall i, 0 <= i < 64 -> i <> 11 -> i <> 12 -> Z.testbit (replace_bits 11 2 v s) i = Z.testbit s i).
  { intros i Hi ??. rewrite testbit_replace_bits by lia. by rewrite bool_decide_eq_false_2, bool_decide_eq_true_2 by lia. }
  split.
  - unfold legal_bits in *. rewrite (Hk 13), (Hk 14), (Hk 63), !testbit_replace_bits by lia.
    rewrite !(bool_decide_eq_true_2 (11 <= _ < _)) by lia. rewrite !elem_of_cons, elem_of_nil in Hv.
    destruct Hv as [->|[->|[->|[]]]]; by destruct (implb _ _) in Hl.
  - intros i Hi. destruct (decide (i = 11)) as [->|]; [done|]. destruct (decide (i = 12)) as [->|]; [done|].
    rewrite Hk by done. by apply Hm.
Qed.

(** ** The assignments of the code as replacements of fields *)

Lemma set_mstatus_field_eq lo len v s :
  is_u len v -> 0 <= lo -> 0 <= len -> lo + len <= 64 ->
  set_mstatus_field (Z.shiftl (Z.ones len) lo) lo v s = replace_bits lo len v s.
Proof.
  intros Hv Hlo Hlen Hw. unfold set_mstatus_field, replace_bits. f_equal. unfold uint64.
  apply Z.bits_inj'. intros i Hi. rewrite Z.land_spec, testbit_uwrap, testbit_field_mask, Z.shiftl_spec by lia.
  repeat case_bool_decide; rewrite ?andb_true_r; try done; try lia; simpl.
  destruct (decide (lo <= i)); [by rewrite (is_u_testbit len v) by (done || lia)|by rewrite Z.testbit_neg_r by lia].
Qed.

Lemma clear_field_eq lo len s :
  0 <= lo -> 0 <= len -> Z.land s (not64 (Z.shiftl (Z.ones len) lo)) = replace_bits lo len 0 s.
Proof. intros. unfold replace_bits. by rewrite Z.shiftl_0_l, Z.land_0_l, Z.lor_0_r. Qed.

Lemma set_bit_eq i s : is_u 64 s -> 0 <= i < 64 -> Z.lor s (bit i) = replace_bits i 1 1 s.
Proof.
  intros Hs Hi. apply Z.bits_inj'. intros j Hj.
  rewrite Z.lor_spec, testbit_bit, testbit_replace_bits by lia.
  destruct (decide (j = i)) as [->|].
  - rewrite bool_decide_eq_true_2, orb_true_r, bool_decide_eq_true_2, Z.sub_diag by lia. done.
  - rewrite !(bool_decide_eq_false_2 (_ = _)), orb_false_r, bool_decide_eq_false_2 by lia.
    case_bool_decide; [done|]. by rewrite (is_u_testbit 64 s) by (done || lia).
Qed.
