(* ===== verification/HartFacts.v ===== *)
(** * Reading registers after writes

    The state of the interpreter is one memory, so a register is read back
    through the writes that came after: another register never matters, and
    a TLB slot never does.  The tactic [hart_simpl] does this for concrete
    registers. *)

From S2P Require Import Prelude Bits Shadow SolidityCompat HashTree Memory UarchFacts Machine Riscv Hart Trap.

(** ** Symbolic execution of accesses *)

Lemma run_bind {S A B} (p : M S A) (f : A -> M S B) s :
  (p ≫= f) s = match p s with (Ret a, s') => f a s' | (Throw e, s') => (Throw e, s') end.
Proof. done. Qed.

(** Evaluates the sequencing and the register accesses of a program that
    runs on a given state. *)
Ltac run :=
  cbv beta iota zeta delta [mbind mret M_bind M_ret gets get modify lift when
    DEFINE_SA_READ DEFINE_SA_WRITE DEFINE_SA_WARL_READ DEFINE_SA_WARL_WRITE
    read_shadow_register write_shadow_register
    read_x write_x read_fcsr write_fcsr read_mcycle write_mcycle read_icycleinstret write_icycleinstret
    read_mstatus write_mstatus read_mtvec write_mtvec read_mscratch write_mscratch read_mepc write_mepc
    read_mcause write_mcause read_mtval write_mtval read_misa read_mie write_mie read_mip write_mip
    read_medeleg write_medeleg read_mideleg write_mideleg read_mcounteren write_mcounteren
    read_menvcfg write_menvcfg read_stvec write_stvec read_sscratch write_sscratch read_sepc write_sepc
    read_scause write_scause read_stval write_stval read_satp write_satp read_scounteren write_scounteren
    read_senvcfg write_senvcfg read_ilrsc write_ilrsc read_iprv write_iprv
    read_iflags_X write_iflags_X read_iflags_Y write_iflags_Y read_iflags_H write_iflags_H
    read_clint_mtimecmp write_clint_mtimecmp read_plic_girqpend write_plic_girqpend
    read_plic_girqsrvd write_plic_girqsrvd read_htif_tohost write_htif_tohost
    read_htif_fromhost write_htif_fromhost read_htif_ihalt read_htif_iconsole read_htif_iyield
    read_mvendorid read_marchid read_mimpid
    outcome_bind outcome_ret].

(** ** Flushed sets *)

Fixpoint flush_slots (n : nat) (SET slot_index : Z) (m : memory) : memory :=
  match n with
  | O => m
  | S n => flush_slots n SET (slot_index + 1)
             (mem_write_tlb SET slot_index TLB_INVALID_PAGE 0 TLB_INVALID_PMA_INDEX m)
  end.
Definition flush_set (SET : Z) (m : memory) : memory := flush_slots (Z.to_nat TLB_SET_SIZE) SET 0 m.
Definition flush_all (m : memory) : memory := flush_set TLB_WRITE (flush_set TLB_READ (flush_set TLB_CODE m)).

Lemma flush_tlb_set_loop_run n SET i m :
  flush_tlb_set_loop n SET i m = (Ret (), flush_slots n SET i m).
Proof. revert i m. induction n as [|n IH]; intros i m; [done|]. exact (IH _ _). Qed.

Lemma flush_tlb_set_run SET m : flush_tlb_set SET m = (Ret (), flush_set SET m).
Proof. unfold flush_tlb_set, flush_set. apply flush_tlb_set_loop_run. Qed.

Lemma flush_all_tlb_run m : flush_all_tlb m = (Ret (), flush_all m).
Proof. unfold flush_all_tlb. rewrite !run_bind, !flush_tlb_set_run. cbv beta iota. by rewrite !run_bind, !flush_tlb_set_run. Qed.

Lemma flush_tlb_vaddr_run vaddr m : flush_tlb_vaddr vaddr m = (Ret (), flush_all m).
Proof. apply flush_all_tlb_run. Qed.

(** The address of a field of a slot lies in the shadow of the TLB. *)
Lemma slot_abs_addr SET i :
  0 <= SET < TLB_NUM_SETS_ -> 0 <= i < TLB_SET_SIZE ->
  shadow_tlb_get_abs_addr SET i = AR_SHADOW_TLB_START + 32 * (SET * TLB_SET_SIZE + i).
Proof.
  unfold TLB_NUM_SETS_, TLB_SET_SIZE. intros. unfold shadow_tlb_get_abs_addr.
  change sizeof_shadow_tlb_set with 8192. unfold SHADOW_TLB_SLOT_SIZE, AR_SHADOW_TLB_START.
  unfold uint64. rewrite uwrap_small by (unfold is_u; lia). lia.
Qed.

Lemma mem_read_write_tlb SET i x y z k m p :
  0 <= SET < TLB_NUM_SETS_ -> 0 <= i < TLB_SET_SIZE -> 0 <= k < 4 ->
  word_index p = 4 * (128 + SET * TLB_SET_SIZE + i) + k ->
  mem_read (mem_write_tlb SET i x y z m) p =
    uint64 (if k =? 0 then x else if k =? 1 then y else if k =? 2 then z else 0).
Proof.
  intros HS Hi Hk Hp. destruct (mem_write_tlb_words SET i x y z m) as (n & Hn & ->).
  rewrite slot_abs_addr in Hn by done.
  assert (n = 128 + SET * TLB_SET_SIZE + i) as -> by (unfold AR_SHADOW_TLB_START in Hn; lia).
  unfold mem_read. rewrite Hp, !word_at_insert.
  assert (k = 0 \/ k = 1 \/ k = 2 \/ k = 3) as [->|[->|[->| ->]]] by lia;
    rewrite ?Z.add_0_r; repeat case_decide; done || lia.
Qed.

Lemma mem_read_write_tlb_ne SET i x y z m p :
  0 <= SET < TLB_NUM_SETS_ -> 0 <= i < TLB_SET_SIZE ->
  word_index p / 4 <> 128 + SET * TLB_SET_SIZE + i ->
  mem_read (mem_write_tlb SET i x y z m) p = mem_read m p.
Proof.
  intros HS Hi Hp. apply word_at_write_tlb_ne. rewrite slot_abs_addr by done.
  replace (AR_SHADOW_TLB_START + 32 * (SET * TLB_SET_SIZE + i)) with ((128 + SET * TLB_SET_SIZE + i) * 2 ^ 5)
    by (unfold AR_SHADOW_TLB_START; lia).
  by rewrite Z.div_mul.
Qed.

Lemma flush_slots_other n SET i m p :
  0 <= SET < TLB_NUM_SETS_ -> 0 <= i -> i + Z.of_nat n <= TLB_SET_SIZE ->
  ~ (128 + SET * TLB_SET_SIZE + i <= word_index p / 4 < 128 + SET * TLB_SET_SIZE + i + Z.of_nat n) ->
  mem_read (flush_slots n SET i m) p = mem_read m p.
Proof.
  intros HS. revert i m. induction n as [|n IH]; intros i m Hi Hn Hp; [done|]. cbn [flush_slots].
  rewrite IH, mem_read_write_tlb_ne by (done || lia). done.
Qed.

Lemma flush_slots_slot n SET i j k m p :
  0 <= SET < TLB_NUM_SETS_ -> 0 <= i <= j -> j < i + Z.of_nat n -> i + Z.of_nat n <= TLB_SET_SIZE -> 0 <= k < 4 ->
  word_index p = 4 * (128 + SET * TLB_SET_SIZE + j) + k ->
  mem_read (flush_slots n SET i m) p =
    (if k =? 0 then TLB_INVALID_PAGE else if k =? 1 then 0 else if k =? 2 then TLB_INVALID_PMA_INDEX else 0).
Proof.
  intros HS. revert i m. induction n as [|n IH]; intros i m Hi Hj Hn Hk Hp; [lia|]. cbn [flush_slots].
  assert (Hq : word_index p / 4 = 128 + SET * TLB_SET_SIZE + j)
    by (rewrite Hp; symmetry; apply Z.div_unique with k; lia).
  destruct (decide (i = j)) as [->|Hne].
  - rewrite flush_slots_other by (done || lia). rewrite (mem_read_write_tlb SET j _ _ _ k) by (done || lia).
    by repeat destruct (_ =? _).
  - apply IH; lia.
Qed.

(** Outside of the TLB a flush changes nothing; inside of a set that is
    flushed every slot is invalid. *)
Definition in_tlb_set (SET p : Z) : Prop :=
  128 + SET * TLB_SET_SIZE <= word_index p / 4 < 128 + (SET + 1) * TLB_SET_SIZE.

Lemma flush_set_other SET m p :
  0 <= SET < TLB_NUM_SETS_ -> ~ in_tlb_set SET p -> mem_read (flush_set SET m) p = mem_read m p.
Proof. intros HS Hp. apply flush_slots_other; unfold in_tlb_set, TLB_SET_SIZE in *; lia. Qed.

Lemma slot_field_index SET j k :
  0 <= SET < TLB_NUM_SETS_ -> 0 <= j < TLB_SET_SIZE -> 0 <= k < 4 ->
  word_index (shadow_tlb_get_abs_addr SET j + 8 * k) = 4 * (128 + SET * TLB_SET_SIZE + j) + k.
Proof.
  intros. rewrite slot_abs_addr by done.
  replace (AR_SHADOW_TLB_START + 32 * (SET * TLB_SET_SIZE + j) + 8 * k) with (32 * (128 + SET * TLB_SET_SIZE + j) + 8 * k)
    by (unfold AR_SHADOW_TLB_START; lia).
  by apply word_index_slot.
Qed.

Lemma slot_in_set SET j k :
  0 <= SET < TLB_NUM_SETS_ -> 0 <= j < TLB_SET_SIZE -> 0 <= k < 4 ->
  word_index (shadow_tlb_get_abs_addr SET j + 8 * k) / 4 = 128 + SET * TLB_SET_SIZE + j.
Proof. intros. rewrite slot_field_index by done. symmetry. apply Z.div_unique with k; lia. Qed.

(** ** The slots of a set *)

Definition slot_page (m : memory) (SET j : Z) : Z := mem_read m (shadow_tlb_get_abs_addr SET j + 8 * 0).
Definition set_is_empty (m : memory) (SET : Z) : Prop :=
  forall j, 0 <= j < TLB_SET_SIZE -> slot_page m SET j = TLB_INVALID_PAGE.
Definition same_set (m m' : memory) (SET : Z) : Prop :=
  forall j k, 0 <= j < TLB_SET_SIZE -> 0 <= k < 4 ->
    mem_read m' (shadow_tlb_get_abs_addr SET j + 8 * k) = mem_read m (shadow_tlb_get_abs_addr SET j + 8 * k).

Lemma flush_set_empty SET m : 0 <= SET < TLB_NUM_SETS_ -> set_is_empty (flush_set SET m) SET.
Proof.
  intros HS j Hj. unfold slot_page, flush_set.
  rewrite (flush_slots_slot _ SET 0 j 0); unfold TLB_SET_SIZE in *; try done; try lia.
  by rewrite slot_field_index by (unfold TLB_SET_SIZE; lia).
Qed.

Lemma flush_set_keeps SET SET' m :
  0 <= SET < TLB_NUM_SETS_ -> 0 <= SET' < TLB_NUM_SETS_ -> SET <> SET' -> same_set m (flush_set SET m) SET'.
Proof.
  intros HS HS' Hne j k Hj Hk. apply flush_set_other; [done|]. unfold in_tlb_set.
  rewrite slot_in_set by done. unfold TLB_SET_SIZE in *. nia.
Qed.

Lemma same_set_empty m m' SET : same_set m m' SET -> set_is_empty m SET -> set_is_empty m' SET.
Proof. intros Hs He j Hj. unfold slot_page. rewrite Hs by lia. by apply He. Qed.

Lemma flush_all_empty SET m : 0 <= SET < TLB_NUM_SETS_ -> set_is_empty (flush_all m) SET.
Proof.
  intros HS. unfold flush_all.
  assert (SET = TLB_CODE \/ SET = TLB_READ \/ SET = TLB_WRITE) as [->|[->| ->]]
    by (unfold TLB_NUM_SETS_, TLB_CODE, TLB_READ, TLB_WRITE in *; lia).
  - eapply same_set_empty; [by apply flush_set_keeps|]. eapply same_set_empty; [by apply flush_set_keeps|].
    by apply flush_set_empty.
  - eapply same_set_empty; [by apply flush_set_keeps|]. by apply flush_set_empty.
  - by apply flush_set_empty.
Qed.

(** ** Registers *)

(** The registers lie below the TLB. *)
Definition is_reg (p : Z) : Prop := 0 <= p < AR_SHADOW_TLB_START.

Lemma is_reg_not_tlb p SET : is_reg p -> 0 <= SET -> ~ in_tlb_set SET p.
Proof.
  intros Hp HS. unfold in_tlb_set, is_reg, AR_SHADOW_TLB_START, TLB_SET_SIZE in *. rewrite word_index_div.
  pose proof (Z.div_mod p 8 ltac:(lia)). pose proof (Z.mod_pos_bound p 8 ltac:(lia)).
  pose proof (Z.div_mod (p / 8) 4 ltac:(lia)). pose proof (Z.mod_pos_bound (p / 8) 4 ltac:(lia)). lia.
Qed.

Lemma flush_set_reg SET m p : 0 <= SET < TLB_NUM_SETS_ -> is_reg p -> mem_read (flush_set SET m) p = mem_read m p.
Proof. intros HS Hp. apply flush_set_other; [done|]. apply is_reg_not_tlb; [done|lia]. Qed.

Lemma flush_all_reg m p : is_reg p -> mem_read (flush_all m) p = mem_read m p.
Proof. intros. unfold flush_all. by rewrite !flush_set_reg. Qed.

Lemma read_write_same p v m : mem_read (mem_write p v m) p = uint64 v.
Proof. by rewrite mem_read_write, decide_True. Qed.

Lemma read_write_other p q v m : word_index p <> word_index q -> mem_read (mem_write p v m) q = mem_read m q.
Proof. intros. by rewrite mem_read_write, decide_False. Qed.

Lemma uint64_id v : is_u 64 v -> uint64 v = v.
Proof. apply uwrap_small. Qed.

(** Closes side conditions on concrete addresses. *)
Ltac closed_reg := solve [vm_compute; first [discriminate | split; discriminate | split; [discriminate|reflexivity] | reflexivity]].

(** Reads of concrete registers through writes and flushes. *)
Ltac hart_simpl :=
  repeat first
    [ rewrite read_write_same
    | rewrite read_write_other by closed_reg
    | rewrite flush_all_reg by closed_reg
    | rewrite flush_set_reg by closed_reg ].

(** A write of a register leaves the TLB alone. *)
Lemma reg_not_slot p SET j k :
  is_reg p -> 0 <= SET < TLB_NUM_SETS_ -> 0 <= j < TLB_SET_SIZE -> 0 <= k < 4 ->
  word_index p <> word_index (shadow_tlb_get_abs_addr SET j + 8 * k).
Proof.
  intros Hp HS Hj Hk E. apply (is_reg_not_tlb p SET Hp ltac:(lia)). unfold in_tlb_set.
  rewrite E, slot_in_set by done. unfold TLB_SET_SIZE in *. lia.
Qed.

Lemma write_reg_same_set p v m SET :
  is_reg p -> 0 <= SET < TLB_NUM_SETS_ -> same_set m (mem_write p v m) SET.
Proof. intros Hp HS j k Hj Hk. by rewrite read_write_other by (by apply reg_not_slot). Qed.
