(* ===== verification/TrapFacts.v ===== *)
(** * Traps and returns as state changes

    What [raise_exception], [execute_MRET] and [execute_SRET] do to the
    state, as one expression over the memory: the writes of the registers of
    the trap, and a change of mode when there is one. *)

From S2P Require Import Prelude Bits Shadow SolidityCompat HashTree Memory UarchFacts Machine Riscv Hart Trap StatusBits HartFacts.

(** Registers as words of the state. *)
Abbreviation reg := mem_read.

Definition legal_prv (prv : Z) : Prop := prv ∈ [PRV_U; PRV_S; PRV_M].

Lemma legal_prv_cases prv : legal_prv prv -> prv = 0 \/ prv = 1 \/ prv = 3.
Proof. unfold legal_prv, PRV_U, PRV_S, PRV_M. rewrite !elem_of_cons, elem_of_nil. tauto. Qed.

(** ** What a trap does to the status *)

(** A trap into machine mode from mode [prv]: MPIE := MIE, MPP := [prv], MIE := 0. *)
Definition status_to_M (prv s : Z) : Z :=
  replace_bits 3 1 0 (replace_bits 11 2 prv (replace_bits 7 1 (bitfield 3 1 s) s)).
(** A trap into supervisor mode: SPIE := SIE, SPP := [prv], SIE := 0. *)
Definition status_to_S (prv s : Z) : Z :=
  replace_bits 1 1 0 (replace_bits 8 1 prv (replace_bits 5 1 (bitfield 1 1 s) s)).
Definition status_to (target prv s : Z) : Z := if target =? PRV_S then status_to_S prv s else status_to_M prv s.

(** A return to mode [spp] or [mpp]: xIE := xPIE, xPIE := 1, xPP := U, and
    MPRV := 0 when the new mode is less privileged than M. *)
Definition clear_MPRV (prv s : Z) : Z := if prv <? PRV_M then replace_bits 17 1 0 s else s.
Definition status_from_M (s : Z) : Z :=
  clear_MPRV (bitfield 11 2 s) (replace_bits 11 2 0 (replace_bits 7 1 1 (replace_bits 3 1 (bitfield 7 1 s) s))).
Definition status_from_S (s : Z) : Z :=
  clear_MPRV (bitfield 8 1 s) (replace_bits 8 1 0 (replace_bits 5 1 1 (replace_bits 1 1 (bitfield 5 1 s) s))).

Ltac legal_field := first [done | lia | vm_compute; reflexivity].

Lemma status_to_M_legal prv s : legal_mstatus s -> legal_prv prv -> legal_mstatus (status_to_M prv s).
Proof.
  intros Hs Hp. unfold status_to_M. apply legal_replace_bits; [|legal_field..].
  apply legal_replace_MPP; [|done]. apply legal_replace_bits; [done|legal_field..].
Qed.

Lemma status_to_S_legal prv s : legal_mstatus s -> legal_mstatus (status_to_S prv s).
Proof. intros Hs. unfold status_to_S. repeat (apply legal_replace_bits; [|legal_field..]). done. Qed.

Lemma status_to_legal target prv s : legal_mstatus s -> legal_prv prv -> legal_mstatus (status_to target prv s).
Proof. intros. unfold status_to. destruct (_ =? _); [by apply status_to_S_legal | by apply status_to_M_legal]. Qed.

Lemma clear_MPRV_legal prv s : legal_mstatus s -> legal_mstatus (clear_MPRV prv s).
Proof. intros. unfold clear_MPRV. destruct (_ <? _); [|done]. apply legal_replace_bits; [done|legal_field..]. Qed.

Lemma status_from_M_legal s : legal_mstatus s -> legal_mstatus (status_from_M s).
Proof.
  intros Hs. apply clear_MPRV_legal. apply legal_replace_MPP; [|by left].
  repeat (apply legal_replace_bits; [|legal_field..]). done.
Qed.

Lemma status_from_S_legal s : legal_mstatus s -> legal_mstatus (status_from_S s).
Proof. intros Hs. apply clear_MPRV_legal. repeat (apply legal_replace_bits; [|legal_field..]). done. Qed.

(** The assignments of the code. *)
Lemma status_to_M_code prv s :
  is_u 64 s -> is_u 2 prv ->
  Z.land (set_mstatus_field MSTATUS_MPP_MASK MSTATUS_MPP_SHIFT prv
            (set_mstatus_field MSTATUS_MPIE_MASK MSTATUS_MPIE_SHIFT (Z.land (Z.shiftr s MSTATUS_MIE_SHIFT) 1) s))
         (not64 MSTATUS_MIE_MASK) = status_to_M prv s.
Proof.
  intros Hs Hp. change MSTATUS_MIE_MASK with (Z.shiftl (Z.ones 1) 3). change MSTATUS_MPIE_MASK with (Z.shiftl (Z.ones 1) 7).
  change MSTATUS_MPP_MASK with (Z.shiftl (Z.ones 2) 11). change MSTATUS_MIE_SHIFT with 3. change MSTATUS_MPIE_SHIFT with 7.
  change MSTATUS_MPP_SHIFT with 11. change (Z.land (Z.shiftr s 3) 1) with (bitfield 3 1 s).
  rewrite clear_field_eq, !set_mstatus_field_eq by (done || lia || by apply bitfield_range). done.
Qed.

Lemma status_to_S_code prv s :
  is_u 64 s -> is_u 1 prv ->
  Z.land (set_mstatus_field MSTATUS_SPP_MASK MSTATUS_SPP_SHIFT prv
            (set_mstatus_field MSTATUS_SPIE_MASK MSTATUS_SPIE_SHIFT (Z.land (Z.shiftr s MSTATUS_SIE_SHIFT) 1) s))
         (not64 MSTATUS_SIE_MASK) = status_to_S prv s.
Proof.
  intros Hs Hp. change MSTATUS_SIE_MASK with (Z.shiftl (Z.ones 1) 1). change MSTATUS_SPIE_MASK with (Z.shiftl (Z.ones 1) 5).
  change MSTATUS_SPP_MASK with (Z.shiftl (Z.ones 1) 8). change MSTATUS_SIE_SHIFT with 1. change MSTATUS_SPIE_SHIFT with 5.
  change MSTATUS_SPP_SHIFT with 8. change (Z.land (Z.shiftr s 1) 1) with (bitfield 1 1 s).
  rewrite clear_field_eq, !set_mstatus_field_eq by (done || lia || by apply bitfield_range). done.
Qed.

(** ** Changes of mode *)

Definition set_prv_mem (new_prv : Z) (m : memory) : memory :=
  mem_write machine_reg.ilrsc (2 ^ 64 - 1) (flush_all (mem_write machine_reg.iprv new_prv m)).
Definition change_prv (new_prv : Z) (m : memory) : memory :=
  if reg m machine_reg.iprv =? new_prv then m else set_prv_mem new_prv m.

Lemma set_prv_run prv m : set_prv prv m = (Ret (), set_prv_mem prv m).
Proof. unfold set_prv. run. by rewrite flush_all_tlb_run. Qed.

Lemma change_prv_run prv new_prv m :
  reg m machine_reg.iprv = prv -> when (negb (prv =? new_prv)) (set_prv new_prv) m = (Ret (), change_prv new_prv m).
Proof. intros <-. unfold change_prv. destruct (_ =? _); [done|]. apply set_prv_run. Qed.

(** ** Traps *)

Definition legal_tval (cause tval : Z) : Z :=
  if (cause =? MCAUSE_ILLEGAL_INSN) && negb (insn_is_uncompressed (uint32 tval)) then uint16 tval else tval.

(** The mode that handles a trap taken in mode [prv]: supervisor mode when
    the cause is delegated and the trap comes from there or below. *)
Definition is_interrupt (cause : Z) : bool := Z.testbit cause 63.
Definition delegated (cause : Z) (m : memory) : bool :=
  Z.testbit (if is_interrupt cause then WARL_mideleg (reg m machine_reg.mideleg)
             else WARL_medeleg (reg m machine_reg.medeleg)) (cause mod 64).
Definition trap_target (cause : Z) (m : memory) : Z :=
  if (reg m machine_reg.iprv <=? PRV_S) && delegated cause m then PRV_S else PRV_M.

Definition xreg (target s_reg m_reg : Z) : Z := if target =? PRV_S then s_reg else m_reg.
Definition xcause (target : Z) : Z := xreg target machine_reg.scause machine_reg.mcause.
Definition xepc (target : Z) : Z := xreg target machine_reg.sepc machine_reg.mepc.
Definition xtval (target : Z) : Z := xreg target machine_reg.stval machine_reg.mtval.
Definition xtvec (target : Z) : Z := xreg target machine_reg.stvec machine_reg.mtvec.

Definition trap_mem (target pc cause tval : Z) (m : memory) : memory :=
  change_prv target
    (mem_write machine_reg.mstatus (status_to target (reg m machine_reg.iprv) (WARL_mstatus (reg m machine_reg.mstatus)))
    (mem_write (xtval target) (legal_tval cause tval)
    (mem_write (xepc target) (Z.land pc (not64 1))
    (mem_write (xcause target) cause
    (mem_write machine_reg.icycleinstret (uint64 (reg m machine_reg.icycleinstret + 1)) m))))).

Lemma delegation_bit v i : negb (Z.land (Z.shiftr v i) 1 =? 0) = Z.testbit v i.
Proof.
  destruct (decide (0 <= i)).
  - change 1 with (bit 0). rewrite land_bit_test, Z.shiftr_spec by lia. done.
  - rewrite (Z.testbit_neg_r v i) by lia. change 1 with (bit 0). rewrite land_bit_test by lia.
    rewrite Z.shiftr_spec by lia. by rewrite Z.testbit_neg_r by lia.
Qed.

Lemma interrupt_flag cause : negb (Z.land cause MCAUSE_INTERRUPT_FLAG =? 0) = is_interrupt cause.
Proof. change MCAUSE_INTERRUPT_FLAG with (bit 63). by apply land_bit_test. Qed.

Lemma cause_low cause : Z.land cause (XLEN - 1) = cause mod 64.
Proof. change (XLEN - 1) with (Z.ones 6). by rewrite Z.land_ones. Qed.

Lemma legal_mem_mstatus m : legal_mstatus (WARL_mstatus (reg m machine_reg.mstatus)).
Proof. apply WARL_mstatus_legal, mem_read_range. Qed.

Lemma trap_target_cases cause m :
  trap_target cause m = PRV_S /\ reg m machine_reg.iprv <= PRV_S \/ trap_target cause m = PRV_M.
Proof. unfold trap_target. destruct (Z.leb_spec (reg m machine_reg.iprv) PRV_S), (delegated cause m); auto. Qed.

(** The mode is changed last, and the vector read after. *)
Lemma trap_end prv target tvec m :
  reg m machine_reg.iprv = prv -> word_index tvec <> word_index machine_reg.iprv -> word_index tvec <> word_index machine_reg.ilrsc ->
  is_reg tvec ->
  (when (negb (prv =? target)) (set_prv target) ;; gets (fun m => WARL_xtvec (mem_read m tvec))) m =
    (Ret (WARL_xtvec (reg m tvec)), change_prv target m).
Proof.
  intros Hp H1 H2 Hr. erewrite bind_Ret by by apply change_prv_run. unfold gets. do 3 f_equal.
  unfold change_prv, set_prv_mem. destruct (_ =? _); [done|].
  by rewrite read_write_other, flush_all_reg, read_write_other by done.
Qed.

Lemma raise_exception_run pc cause tval m :
  legal_prv (reg m machine_reg.iprv) ->
  let target := trap_target cause m in
  raise_exception pc cause tval m =
    (Ret (WARL_xtvec (reg m (xtvec target))), trap_mem target pc cause tval m).
Proof.
  intros Hlp. pose proof (legal_prv_cases _ Hlp) as Hp. cbv zeta. unfold raise_exception.
  change (if (cause =? _) && _ then _ else _) with (legal_tval cause tval).
  run. set (prv := reg m machine_reg.iprv) in *.
  match goal with |- (let (_, _) := ?d m in _) = _ => assert (Hd : d m = (Ret (trap_target cause m =? PRV_S), m)) end.
  { unfold trap_target, delegated. fold prv. destruct (prv <=? PRV_S); [|done].
    rewrite interrupt_flag. destruct (is_interrupt cause); rewrite cause_low, delegation_bit; by destruct (Z.testbit _ _). }
  rewrite Hd. clear Hd.
  pose proof (legal_mem_mstatus m) as Hs. unfold trap_mem.
  destruct (trap_target_cases cause m) as [[Et Hps]|Et]; rewrite Et; try (fold prv in Hps); unfold PRV_S, PRV_M in *; cbn [Z.eqb Pos.eqb].
  - match goal with |- (let (_, _) := ?w ?m' in _) = _ => transitivity ((when (negb (prv =? 1)) (set_prv 1) ;; gets (fun m => WARL_xtvec (mem_read m machine_reg.stvec))) m'); [done|] end.
    rewrite trap_end by (try (by hart_simpl); closed_reg).
    hart_simpl. rewrite status_to_S_code, (proj2 (status_to_S_legal _ _ Hs)).
    + done.
    + apply Hs.
    + split; lia.
  - match goal with |- (let (_, _) := ?w ?m' in _) = _ => transitivity ((when (negb (prv =? 3)) (set_prv 3) ;; gets (fun m => WARL_xtvec (mem_read m machine_reg.mtvec))) m'); [done|] end.
    rewrite trap_end by (try (by hart_simpl); closed_reg).
    hart_simpl. rewrite status_to_M_code, (proj2 (status_to_M_legal _ _ Hs Hlp)).
    + done.
    + apply Hs.
    + split; lia.
Qed.

(** ** Returns *)

Lemma mstatus_test s i : 0 <= i -> negb (Z.land s (bit i) =? 0) = Z.testbit s i.
Proof. apply land_bit_test. Qed.

Lemma status_from_M_code s :
  is_u 64 s ->
  (if Z.shiftr (Z.land s MSTATUS_MPP_MASK) MSTATUS_MPP_SHIFT <? PRV_M then
     Z.land (Z.land (Z.lor (set_mstatus_field MSTATUS_MIE_MASK MSTATUS_MIE_SHIFT
                              (Z.shiftr (Z.land s MSTATUS_MPIE_MASK) MSTATUS_MPIE_SHIFT) s) MSTATUS_MPIE_MASK)
                    (not64 MSTATUS_MPP_MASK)) (not64 MSTATUS_MPRV_MASK)
   else Z.land (Z.lor (set_mstatus_field MSTATUS_MIE_MASK MSTATUS_MIE_SHIFT
                              (Z.shiftr (Z.land s MSTATUS_MPIE_MASK) MSTATUS_MPIE_SHIFT) s) MSTATUS_MPIE_MASK)
                    (not64 MSTATUS_MPP_MASK)) = status_from_M s.
Proof.
  intros Hs. change MSTATUS_MIE_MASK with (Z.shiftl (Z.ones 1) 3). change MSTATUS_MPRV_MASK with (Z.shiftl (Z.ones 1) 17).
  change (not64 MSTATUS_MPP_MASK) with (not64 (Z.shiftl (Z.ones 2) 11)). change (Z.land s MSTATUS_MPP_MASK) with (Z.land s (Z.shiftl (Z.ones 2) 11)).
  change (Z.land s MSTATUS_MPIE_MASK) with (Z.land s (Z.shiftl (Z.ones 1) 7)). change MSTATUS_MPIE_MASK with (bit 7).
  change MSTATUS_MIE_SHIFT with 3. change MSTATUS_MPIE_SHIFT with 7. change MSTATUS_MPP_SHIFT with 11.
  rewrite !masked_field by lia.
  rewrite set_mstatus_field_eq, set_bit_eq, !clear_field_eq by (lia || (by apply bitfield_range) || by apply replace_bits_range).
  done.
Qed.

Lemma status_from_S_code s :
  is_u 64 s ->
  (if Z.shiftr (Z.land s MSTATUS_SPP_MASK) MSTATUS_SPP_SHIFT <? PRV_M then
     Z.land (Z.land (Z.lor (set_mstatus_field MSTATUS_SIE_MASK MSTATUS_SIE_SHIFT
                              (Z.shiftr (Z.land s MSTATUS_SPIE_MASK) MSTATUS_SPIE_SHIFT) s) MSTATUS_SPIE_MASK)
                    (not64 MSTATUS_SPP_MASK)) (not64 MSTATUS_MPRV_MASK)
   else Z.land (Z.lor (set_mstatus_field MSTATUS_SIE_MASK MSTATUS_SIE_SHIFT
                              (Z.shiftr (Z.land s MSTATUS_SPIE_MASK) MSTATUS_SPIE_SHIFT) s) MSTATUS_SPIE_MASK)
                    (not64 MSTATUS_SPP_MASK)) = status_from_S s.
Proof.
  intros Hs. change MSTATUS_SIE_MASK with (Z.shiftl (Z.ones 1) 1). change MSTATUS_MPRV_MASK with (Z.shiftl (Z.ones 1) 17).
  change (not64 MSTATUS_SPP_MASK) with (not64 (Z.shiftl (Z.ones 1) 8)). change (Z.land s MSTATUS_SPP_MASK) with (Z.land s (Z.shiftl (Z.ones 1) 8)).
  change (Z.land s MSTATUS_SPIE_MASK) with (Z.land s (Z.shiftl (Z.ones 1) 5)). change MSTATUS_SPIE_MASK with (bit 5).
  change MSTATUS_SIE_SHIFT with 1. change MSTATUS_SPIE_SHIFT with 5. change MSTATUS_SPP_SHIFT with 8.
  rewrite !masked_field by lia.
  rewrite set_mstatus_field_eq, set_bit_eq, !clear_field_eq by (lia || (by apply bitfield_range) || by apply replace_bits_range).
  done.
Qed.

Definition return_mem (target : Z) (m : memory) : memory :=
  let s := WARL_mstatus (reg m machine_reg.mstatus) in
  if target =? PRV_S then change_prv (bitfield 8 1 s) (mem_write machine_reg.mstatus (status_from_S s) m)
  else change_prv (bitfield 11 2 s) (mem_write machine_reg.mstatus (status_from_M s) m).

(** The return instruction of mode [target] ([insn] is only reported). *)
Definition execute_xRET (target pc insn : Z) : M memory (execute_status * Z) :=
  if target =? PRV_S then execute_SRET pc insn else execute_MRET pc insn.

(** A return is legal in its mode and above, unless TSR traps it. *)
Definition return_allowed (target : Z) (m : memory) : Prop :=
  target ∈ [PRV_S; PRV_M] /\ target <= reg m machine_reg.iprv /\
  (target = PRV_S -> reg m machine_reg.iprv = PRV_S -> Z.testbit (WARL_mstatus (reg m machine_reg.mstatus)) 22 = false).

Lemma return_end new_prv epc m :
  word_index epc <> word_index machine_reg.iprv -> word_index epc <> word_index machine_reg.ilrsc -> is_reg epc ->
  (when (negb (reg m machine_reg.iprv =? new_prv)) (set_prv new_prv) ;;
   pc ← gets (fun m => Z.land (mem_read m epc) (not64 1)); mret (success_and_serve_interrupts, pc)) m =
    (Ret (success_and_serve_interrupts, Z.land (reg m epc) (not64 1)), change_prv new_prv m).
Proof.
  intros H1 H2 Hr. erewrite bind_Ret by by apply change_prv_run. run. do 4 f_equal.
  unfold change_prv, set_prv_mem. destruct (_ =? _); [done|].
  by rewrite read_write_other, flush_all_reg, read_write_other by done.
Qed.

Lemma execute_xRET_run target pc insn m :
  return_allowed target m ->
  execute_xRET target pc insn m =
    (Ret (success_and_serve_interrupts, Z.land (reg m (xepc target)) (not64 1)), return_mem target m).
Proof.
  intros (Ht & Hle & Htsr). pose proof (legal_mem_mstatus m) as Hs.
  unfold execute_xRET, return_mem, xepc, xreg.
  rewrite !elem_of_cons, elem_of_nil in Ht. unfold PRV_S, PRV_M in *.
  destruct Ht as [->|[->|[]]]; cbn [Z.eqb Pos.eqb].
  - specialize (Htsr eq_refl). unfold execute_SRET. run. unfold PRV_S in *.
    rewrite (proj2 (Z.ltb_ge _ _) Hle). cbn [orb].
    change MSTATUS_TSR_MASK with (bit 22). rewrite land_bit_test by lia.
    destruct (Z.eqb_spec (reg m machine_reg.iprv) 1) as [E|E]; [rewrite (Htsr E)|]; cbn [andb].
    all: rewrite status_from_S_code, (proj2 (status_from_S_legal _ Hs)) by apply Hs.
    all: change MSTATUS_SPP_MASK with (Z.shiftl (Z.ones 1) 8); change MSTATUS_SPP_SHIFT with 8; rewrite masked_field by lia.
    all: set (s := WARL_mstatus _) in *; set (m' := mem_write machine_reg.mstatus (status_from_S s) m).
    all: assert (Ep : reg m machine_reg.iprv = reg m' machine_reg.iprv) by (unfold m'; by hart_simpl).
    all: assert (Ee : reg m machine_reg.sepc = reg m' machine_reg.sepc) by (unfold m'; by hart_simpl).
    all: rewrite Ep, Ee; apply (return_end (bitfield 8 1 s) machine_reg.sepc m'); closed_reg.
  - unfold execute_MRET. run. unfold PRV_M in *. rewrite (proj2 (Z.ltb_ge _ _) Hle).
    rewrite status_from_M_code, (proj2 (status_from_M_legal _ Hs)) by apply Hs.
    change MSTATUS_MPP_MASK with (Z.shiftl (Z.ones 2) 11). change MSTATUS_MPP_SHIFT with 11. rewrite masked_field by lia.
    set (s := WARL_mstatus _) in *. set (m' := mem_write machine_reg.mstatus (status_from_M s) m).
    assert (Ep : reg m machine_reg.iprv = reg m' machine_reg.iprv) by (unfold m'; by hart_simpl).
    assert (Ee : reg m machine_reg.mepc = reg m' machine_reg.mepc) by (unfold m'; by hart_simpl).
    rewrite Ep, Ee. apply (return_end (bitfield 11 2 s) machine_reg.mepc m'); closed_reg.
Qed.

(** ** Reading the state after a trap or a return *)

Lemma is_u_legal_prv prv : legal_prv prv -> is_u 64 prv.
Proof. intros [->|[->| ->]]%legal_prv_cases; by vm_compute. Qed.

Lemma change_prv_reg prv m p :
  is_reg p -> word_index p <> word_index machine_reg.iprv -> word_index p <> word_index machine_reg.ilrsc ->
  reg (change_prv prv m) p = reg m p.
Proof.
  intros. unfold change_prv, set_prv_mem. destruct (_ =? _); [done|].
  by rewrite read_write_other, flush_all_reg, read_write_other.
Qed.

Lemma change_prv_iprv prv m : is_u 64 prv -> reg (change_prv prv m) machine_reg.iprv = prv.
Proof.
  intros. unfold change_prv, set_prv_mem. destruct (Z.eqb_spec (reg m machine_reg.iprv) prv); [done|].
  hart_simpl. by apply uint64_id.
Qed.

(** Nothing else changes outside of the TLB, and nothing at all when the
    mode stays. *)
Lemma change_prv_other prv m p :
  word_index p <> word_index machine_reg.iprv -> word_index p <> word_index machine_reg.ilrsc ->
  (forall SET, 0 <= SET < TLB_NUM_SETS_ -> ~ in_tlb_set SET p) ->
  reg (change_prv prv m) p = reg m p.
Proof.
  intros H1 H2 H3. unfold change_prv, set_prv_mem. destruct (_ =? _); [done|].
  rewrite read_write_other by done. unfold flush_all.
  rewrite !flush_set_other by (done || apply H3; done). by rewrite read_write_other.
Qed.

Lemma change_prv_same m : change_prv (reg m machine_reg.iprv) m = m.
Proof. unfold change_prv. by rewrite Z.eqb_refl. Qed.

Lemma change_prv_flushes prv m SET :
  reg m machine_reg.iprv <> prv -> 0 <= SET < TLB_NUM_SETS_ ->
  set_is_empty (change_prv prv m) SET /\ reg (change_prv prv m) machine_reg.ilrsc = 2 ^ 64 - 1.
Proof.
  intros Hne HS. unfold change_prv, set_prv_mem. rewrite (proj2 (Z.eqb_neq _ _) Hne). split.
  - eapply same_set_empty; [by apply write_reg_same_set|]. by apply flush_all_empty.
  - by hart_simpl.
Qed.

Lemma write_reg_other p q v m : word_index q <> word_index p -> reg (mem_write p v m) q = reg m q.
Proof. intros. apply read_write_other. congruence. Qed.

Lemma trap_mem_status target pc cause tval m :
  legal_prv (reg m machine_reg.iprv) ->
  reg (trap_mem target pc cause tval m) machine_reg.mstatus =
    status_to target (reg m machine_reg.iprv) (WARL_mstatus (reg m machine_reg.mstatus)).
Proof.
  intros Hp. unfold trap_mem. rewrite change_prv_reg by closed_reg. rewrite read_write_same. apply uint64_id.
  apply status_to_legal; [apply legal_mem_mstatus | done].
Qed.

Lemma trap_mem_epc target pc cause tval m :
  is_u 64 pc -> target = PRV_S \/ target = PRV_M ->
  reg (trap_mem target pc cause tval m) (xepc target) = Z.land pc (not64 1).
Proof.
  intros Hpc Ht. assert (He : is_u 64 (Z.land pc (not64 1))).
  { apply testbit_is_u; [lia|]. intros i Hi. by rewrite Z.land_spec, (is_u_testbit 64 pc). }
  unfold trap_mem. destruct Ht as [-> | ->]; rewrite change_prv_reg by closed_reg; hart_simpl; by apply uint64_id.
Qed.

Lemma trap_mem_iprv target pc cause tval m :
  target = PRV_S \/ target = PRV_M -> reg (trap_mem target pc cause tval m) machine_reg.iprv = target.
Proof. intros Ht. unfold trap_mem. apply change_prv_iprv. by destruct Ht as [-> | ->]. Qed.

(** ** Translations in the TLB *)

(** What the translation of a load, a store or a fetch (sets [TLB_READ],
    [TLB_WRITE] and [TLB_CODE]) depends on besides the page tables: the
    effective privilege mode, the scheme in satp, SUM for data and MXR for
    loads. *)
Definition data_privilege (m : memory) : Z :=
  let s := WARL_mstatus (reg m machine_reg.mstatus) in
  if Z.testbit s MSTATUS_MPRV_SHIFT then bitfield 11 2 s else reg m machine_reg.iprv.
Definition satp_mode (m : memory) : Z := Z.shiftr (WARL_satp (reg m machine_reg.satp)) SATP_MODE_SHIFT.
Definition translation_context (SET : Z) (m : memory) : Z * Z * (bool * bool) :=
  let s := WARL_mstatus (reg m machine_reg.mstatus) in
  if SET =? TLB_CODE then (reg m machine_reg.iprv, satp_mode m, (false, false))
  else (data_privilege m, satp_mode m,
        (Z.testbit s MSTATUS_SUM_SHIFT, if SET =? TLB_READ then Z.testbit s MSTATUS_MXR_SHIFT else false)).

Lemma status_to_bit target prv s i :
  is_u 64 s -> i = MSTATUS_MPRV_SHIFT \/ i = MSTATUS_SUM_SHIFT \/ i = MSTATUS_MXR_SHIFT ->
  Z.testbit (status_to target prv s) i = Z.testbit s i.
Proof.
  unfold MSTATUS_MPRV_SHIFT, MSTATUS_SUM_SHIFT, MSTATUS_MXR_SHIFT. intros Hs Hi.
  unfold status_to, status_to_S, status_to_M. destruct (_ =? _); rewrite !testbit_replace_bits by lia;
    repeat (case_bool_decide; try lia); done.
Qed.

Lemma context_same SET m m' :
  reg m' machine_reg.iprv = reg m machine_reg.iprv -> reg m' machine_reg.satp = reg m machine_reg.satp ->
  (forall i, i = MSTATUS_MPRV_SHIFT \/ i = MSTATUS_SUM_SHIFT \/ i = MSTATUS_MXR_SHIFT ->
     Z.testbit (WARL_mstatus (reg m' machine_reg.mstatus)) i = Z.testbit (WARL_mstatus (reg m machine_reg.mstatus)) i) ->
  (Z.testbit (WARL_mstatus (reg m machine_reg.mstatus)) MSTATUS_MPRV_SHIFT = true ->
     bitfield 11 2 (WARL_mstatus (reg m' machine_reg.mstatus)) = bitfield 11 2 (WARL_mstatus (reg m machine_reg.mstatus))) ->
  translation_context SET m' = translation_context SET m.
Proof.
  intros Hp Hsatp Hb Hmpp. unfold translation_context, data_privilege, satp_mode. rewrite Hp, Hsatp, !Hb by tauto.
  destruct (Z.testbit _ MSTATUS_MPRV_SHIFT) eqn:E; [by rewrite Hmpp | done].
Qed.

(** A user program under a supervisor that handles its calls, its page
    faults and the external interrupts. *)
Definition sample_hart : memory :=
  list_to_map
    [(word_index machine_reg.iprv, PRV_U); (word_index machine_reg.mstatus, 0x00000000000000aa);
     (word_index machine_reg.medeleg, 0xb100); (word_index machine_reg.mideleg, MIP_SEIP_MASK);
     (word_index machine_reg.mie, MIP_RW_MASK); (word_index machine_reg.mip, Z.lor MIP_SEIP_MASK MIP_STIP_MASK);
     (word_index machine_reg.stvec, 0xffffffff80002001); (word_index machine_reg.mtvec, 0x80000100)].
