(* ===== verification/TrapProofs.v ===== *)
(** * Correctness of traps, returns and interrupts

    The privileged architecture of RISC-V as theorems about the functions of
    interpret.cpp: what a trap records and where it goes, that a return
    undoes it, which interrupts are pending, which one is taken, and what
    happens to the translations in the TLB. *)

From S2P Require Import Prelude Bits Shadow SolidityCompat HashTree Memory UarchFacts Machine Samples Riscv Hart Trap StatusBits HartFacts TrapFacts.

(** The words that a trap to mode [target] writes. *)
Definition trap_registers (target : Z) : list Z :=
  [machine_reg.icycleinstret; xcause target; xepc target; xtval target; machine_reg.mstatus].
Definition outside_tlb (p : Z) : Prop := forall SET, 0 <= SET < TLB_NUM_SETS_ -> ~ in_tlb_set SET p.

Lemma trap_target_legal cause m : trap_target cause m = PRV_S \/ trap_target cause m = PRV_M.
Proof. destruct (trap_target_cases cause m) as [[]|]; auto. Qed.

Lemma trap_mem_before target pc cause tval m p :
  word_index p ∉ map word_index (trap_registers target) ->
  reg (mem_write machine_reg.mstatus (status_to target (reg m machine_reg.iprv) (WARL_mstatus (reg m machine_reg.mstatus)))
    (mem_write (xtval target) (legal_tval cause tval)
    (mem_write (xepc target) (Z.land pc (not64 1))
    (mem_write (xcause target) cause
    (mem_write machine_reg.icycleinstret (uint64 (reg m machine_reg.icycleinstret + 1)) m))))) p = reg m p.
Proof.
  unfold trap_registers. cbn [map]. rewrite !not_elem_of_cons. intros (?&?&?&?&?&_). by rewrite !write_reg_other.
Qed.

(** C24: An exception or interrupt, for every mode, cause and state: it goes to supervisor mode exactly when it comes from S or U and is delegated, to the vector of that mode; the cause, the address of the instruction and the trap value (16 bits of a compressed illegal instruction) are recorded in the registers of that mode; the status stacks the interrupt enable and the mode and disables interrupts; the instruction counter correction is incremented; no other word outside of the TLB changes, and a change of mode empties the three TLB sets and drops the reservation. *)
Theorem raise_exception_spec pc cause tval m :
  legal_prv (reg m machine_reg.iprv) -> is_u 64 pc -> is_u 64 cause -> is_u 64 tval ->
  let prv := reg m machine_reg.iprv in
  let target := trap_target cause m in
  exists m', raise_exception pc cause tval m = (Ret (WARL_xtvec (reg m (xtvec target))), m') /\
    reg m' machine_reg.iprv = target /\
    reg m' (xcause target) = cause /\
    reg m' (xepc target) = Z.land pc (not64 1) /\
    reg m' (xtval target) = legal_tval cause tval /\
    reg m' machine_reg.mstatus = status_to target prv (WARL_mstatus (reg m machine_reg.mstatus)) /\
    reg m' machine_reg.icycleinstret = uint64 (reg m machine_reg.icycleinstret + 1) /\
    (forall p, outside_tlb p ->
       word_index p ∉ map word_index (trap_registers target ++ [machine_reg.iprv; machine_reg.ilrsc]) ->
       reg m' p = reg m p) /\
    (target = prv -> reg m' machine_reg.ilrsc = reg m machine_reg.ilrsc /\
       forall SET, 0 <= SET < TLB_NUM_SETS_ -> same_set m m' SET) /\
    (target <> prv -> reg m' machine_reg.ilrsc = 2 ^ 64 - 1 /\
       forall SET, 0 <= SET < TLB_NUM_SETS_ -> set_is_empty m' SET).
Proof.
  intros Hp Hpc Hc Ht prv target. exists (trap_mem target pc cause tval m).
  split; [by apply raise_exception_run|].
  assert (Htl : target = PRV_S \/ target = PRV_M) by apply trap_target_legal. clearbody target.
  assert (Hs : is_u 64 (status_to target prv (WARL_mstatus (reg m machine_reg.mstatus)))).
  { apply status_to_legal; [apply legal_mem_mstatus | done]. }
  assert (Hv : is_u 64 (legal_tval cause tval)) by (unfold legal_tval; destruct (_ && _); [by apply is_u_weaken with 16, uwrap_range | done]).
  assert (He : is_u 64 (Z.land pc (not64 1))).
  { apply testbit_is_u; [lia|]. intros i Hi. by rewrite Z.land_spec, (is_u_testbit 64 pc). }
  unfold trap_mem. set (m1 := mem_write machine_reg.mstatus _ _).
  assert (E1 : reg m1 machine_reg.iprv = prv /\ reg m1 machine_reg.ilrsc = reg m machine_reg.ilrsc).
  { by destruct Htl as [-> | ->]; split; unfold m1; hart_simpl. }
  destruct E1 as [Ep El].
  assert (Hsame : forall SET, 0 <= SET < TLB_NUM_SETS_ -> same_set m m1 SET).
  { intros SET HS j k Hj Hk. unfold m1. destruct Htl as [-> | ->]; by rewrite !write_reg_same_set by (done || lia). }
  repeat apply conj.
  - apply change_prv_iprv. by destruct Htl as [-> | ->].
  - destruct Htl as [-> | ->]; rewrite change_prv_reg by closed_reg; unfold m1; hart_simpl; by apply uint64_id.
  - destruct Htl as [-> | ->]; rewrite change_prv_reg by closed_reg; unfold m1; hart_simpl; by apply uint64_id.
  - destruct Htl as [-> | ->]; rewrite change_prv_reg by closed_reg; unfold m1; hart_simpl; by apply uint64_id.
  - rewrite change_prv_reg by closed_reg. unfold m1. rewrite read_write_same. by apply uint64_id.
  - destruct Htl as [-> | ->]; rewrite change_prv_reg by closed_reg; unfold m1; hart_simpl; apply uwrap_idem; lia.
  - intros p Hout Hnin. rewrite map_app, not_elem_of_app in Hnin. destruct Hnin as [H1 H2].
    cbn [map] in H2. rewrite !not_elem_of_cons in H2. rewrite change_prv_other by (done || tauto).
    by apply trap_mem_before.
  - intros ->. rewrite <-Ep, change_prv_same. done.
  - intros Hne. split.
    + by apply (change_prv_flushes target m1 0); [congruence|].
    + intros SET HS. apply change_prv_flushes; [congruence|done].
Qed.

Lemma raise_exception_spec_witness :
  exists m', raise_exception 0x10002 MCAUSE_ECALL_BASE 0 sample_hart = (Ret 0xffffffff80002000, m') /\
    reg m' machine_reg.iprv = PRV_S /\ reg m' machine_reg.mstatus = 0xa8 /\ reg m' machine_reg.scause = 8 /\
    reg m' machine_reg.sepc = 0x10002.
Proof.
  destruct (raise_exception_spec 0x10002 MCAUSE_ECALL_BASE 0 sample_hart) as (m' & E & Hp & Hc & He & _ & Hs & _);
    [by left | by vm_compute .. |].
  exists m'. split; [exact E|]. split; [exact Hp|]. split; [exact Hs|]. split; [exact Hc | exact He].
Defined.

(** The mode that a trap records. *)
Lemma status_to_M_MPP prv s : legal_prv prv -> bitfield 11 2 (status_to_M prv s) = prv.
Proof.
  intros Hp. unfold status_to_M. rewrite field_replace_other, field_replace_same by lia.
  apply uwrap_small. by destruct (legal_prv_cases _ Hp) as [->|[->| ->]].
Qed.

Lemma status_to_S_SPP prv s : is_u 1 prv -> bitfield 8 1 (status_to_S prv s) = prv.
Proof. intros Hp. unfold status_to_S. rewrite field_replace_other, field_replace_same by lia. by apply uwrap_small. Qed.

(** Bits of the status after a trap and the return from it. *)
Lemma status_round_trip_M prv s i :
  legal_mstatus s -> legal_prv prv -> 0 <= i < 64 ->
  Z.testbit (status_from_M (status_to_M prv s)) i =
    if i =? 7 then true else if (i =? 11) || (i =? 12) then false
    else if i =? 17 then (prv =? PRV_M) && Z.testbit s i else Z.testbit s i.
Proof.
  intros Hs Hp Hi. unfold status_from_M.
  assert (Hmpie : bitfield 7 1 (status_to_M prv s) = bitfield 3 1 s).
  { unfold status_to_M. rewrite !field_replace_other, field_replace_same by lia. apply uwrap_small. by apply bitfield_range. }
  rewrite status_to_M_MPP, Hmpie by done. unfold clear_MPRV, status_to_M, PRV_M.
  assert (Hb : Z.testbit (bitfield 3 1 s) 0 = Z.testbit s 3) by (rewrite testbit_bitfield by lia; done).
  destruct (Z.eqb_spec i 7), (Z.eqb_spec i 11), (Z.eqb_spec i 12), (Z.eqb_spec i 17), (Z.eqb_spec i 3); subst; try lia;
    destruct (legal_prv_cases _ Hp) as [->|[->| ->]]; cbn [Z.ltb Z.compare Pos.compare Pos.compare_cont Z.eqb Pos.eqb andb orb];
    rewrite ?testbit_replace_bits by lia; repeat (case_bool_decide; try lia); try done.
Qed.

Lemma status_round_trip_S prv s i :
  legal_mstatus s -> is_u 1 prv -> 0 <= i < 64 ->
  Z.testbit (status_from_S (status_to_S prv s)) i =
    if i =? 5 then true else if (i =? 8) || (i =? 17) then false else Z.testbit s i.
Proof.
  intros Hs Hp Hi. unfold status_from_S.
  assert (Hspie : bitfield 5 1 (status_to_S prv s) = bitfield 1 1 s).
  { unfold status_to_S. rewrite !field_replace_other, field_replace_same by lia. apply uwrap_small. by apply bitfield_range. }
  rewrite status_to_S_SPP, Hspie by done. unfold clear_MPRV, status_to_S, PRV_M.
  rewrite (proj2 (Z.ltb_lt _ _)) by (unfold is_u in Hp; lia).
  assert (Hb : Z.testbit (bitfield 1 1 s) 0 = Z.testbit s 1) by (rewrite testbit_bitfield by lia; done).
  destruct (Z.eqb_spec i 5), (Z.eqb_spec i 8), (Z.eqb_spec i 17), (Z.eqb_spec i 1); subst; try lia; cbn [orb];
    rewrite ?testbit_replace_bits by lia; repeat (case_bool_decide; try lia); try done.
Qed.

Definition xPIE (target : Z) : Z := if target =? PRV_S then 5 else 7.
Definition in_xPP (target i : Z) : bool := if target =? PRV_S then i =? 8 else (i =? 11) || (i =? 12).

Lemma clear_bit_0_idem pc : is_u 64 pc -> Z.land (Z.land pc (not64 1)) (not64 1) = Z.land pc (not64 1).
Proof. intros. by rewrite <-Z.land_assoc, Z.land_diag. Qed.

(** C25: Returning undoes a trap: after an exception or interrupt taken from any mode, the return instruction of the handler's mode (SRET not trapped by TSR) resumes at the address of the instruction with its lowest bit clear, in the mode the trap came from, with the status as before the trap but for the previous-enable bit (set), the previous-mode field (user) and MPRV, which a return below machine mode clears. *)
Theorem trap_return pc cause tval insn m :
  legal_prv (reg m machine_reg.iprv) -> is_u 64 pc ->
  let prv := reg m machine_reg.iprv in
  let s := WARL_mstatus (reg m machine_reg.mstatus) in
  let target := trap_target cause m in
  (target = PRV_S -> Z.testbit s 22 = false) ->
  exists vec m1 m2, raise_exception pc cause tval m = (Ret vec, m1) /\
    execute_xRET target vec insn m1 = (Ret (success_and_serve_interrupts, Z.land pc (not64 1)), m2) /\
    reg m2 machine_reg.iprv = prv /\
    forall i, 0 <= i < 64 ->
      Z.testbit (reg m2 machine_reg.mstatus) i =
        if i =? xPIE target then true else if in_xPP target i then false
        else if i =? 17 then (prv =? PRV_M) && Z.testbit s i else Z.testbit s i.
Proof.
  intros Hp Hpc prv s target Htsr.
  assert (Htl : target = PRV_S /\ prv <= PRV_S \/ target = PRV_M) by apply trap_target_cases.
  assert (Ht : target = PRV_S \/ target = PRV_M) by tauto.
  pose proof (legal_mem_mstatus m : legal_mstatus s) as Hs.
  set (m1 := trap_mem target pc cause tval m).
  assert (Hs1 : WARL_mstatus (reg m1 machine_reg.mstatus) = status_to target prv s).
  { unfold m1. rewrite trap_mem_status by done. by apply status_to_legal. }
  assert (Hp1 : reg m1 machine_reg.iprv = target) by (by apply trap_mem_iprv).
  assert (Hepc : reg m1 (xepc target) = Z.land pc (not64 1)) by (by apply trap_mem_epc).
  assert (Htrap : raise_exception pc cause tval m = (Ret (WARL_xtvec (reg m (xtvec target))), m1)) by (by apply raise_exception_run).
  clearbody m1 target. exists (WARL_xtvec (reg m (xtvec target))), m1, (return_mem target m1). split; [done|]. split.
  { rewrite execute_xRET_run, Hepc, clear_bit_0_idem; [done..|].
    unfold return_allowed. rewrite Hp1, Hs1. split; [destruct Ht as [-> | ->]; [left | right; left]; done|]. split; [lia|].
    intros -> _. change (status_to PRV_S prv s) with (status_to_S prv s). unfold status_to_S. rewrite !testbit_replace_bits by lia.
    repeat (case_bool_decide; try lia). by apply Htsr. }
  unfold return_mem. cbv zeta. rewrite Hs1. destruct Htl as [[-> Hle] | ->]; cbn [Z.eqb Pos.eqb PRV_S PRV_M].
  - assert (Hu : is_u 1 prv) by (split; [apply mem_read_range | unfold PRV_S in Hle; lia]).
    change (status_to 1 prv s) with (status_to_S prv s). rewrite status_to_S_SPP by done.
    split; [apply change_prv_iprv, mem_read_range|]. intros i Hi.
    rewrite change_prv_reg by closed_reg. rewrite read_write_same, uint64_id by apply status_from_S_legal, status_to_S_legal, Hs.
    rewrite status_round_trip_S by done. change (xPIE PRV_S) with 5. change (in_xPP PRV_S i) with (i =? 8).
    rewrite (proj2 (Z.eqb_neq prv PRV_M)) by (unfold is_u, PRV_M in *; lia).
    by destruct (i =? 5), (i =? 8), (i =? 17).
  - change (status_to 3 prv s) with (status_to_M prv s). rewrite status_to_M_MPP by done.
    split; [apply change_prv_iprv, mem_read_range|]. intros i Hi.
    rewrite change_prv_reg by closed_reg. rewrite read_write_same, uint64_id by by apply status_from_M_legal, status_to_M_legal.
    by rewrite status_round_trip_M.
Qed.

Lemma trap_return_witness :
  legal_prv (reg sample_hart machine_reg.iprv) /\
  exists vec m1 m2, raise_exception 0x10002 MCAUSE_ECALL_BASE 0 sample_hart = (Ret vec, m1) /\
    execute_SRET vec 0x10200073 m1 = (Ret (success_and_serve_interrupts, 0x10002), m2) /\
    reg m2 machine_reg.iprv = PRV_U.
Proof.
  split; [by left|].
  destruct (trap_return 0x10002 MCAUSE_ECALL_BASE 0 0x10200073 sample_hart) as (vec & m1 & m2 & E1 & E2 & Hp & _);
    [by left | by vm_compute | by vm_compute |].
  exists vec, m1, m2. split; [exact E1|]. split; [exact E2 | exact Hp].
Defined.

(** ** Translations in the TLB *)

(** C28: Traps never leave translations of another address space in the TLB unless MPRV is in use: after any exception or interrupt each TLB set is either empty or unchanged with the same effective mode, translation scheme and, as far as they matter to it, SUM and MXR; the only exception is a trap within machine mode while MPRV is set. *)
Theorem trap_keeps_translation_context pc cause tval m SET :
  legal_prv (reg m machine_reg.iprv) -> 0 <= SET < TLB_NUM_SETS_ ->
  ~ (reg m machine_reg.iprv = PRV_M /\ Z.testbit (WARL_mstatus (reg m machine_reg.mstatus)) MSTATUS_MPRV_SHIFT = true) ->
  exists vec m', raise_exception pc cause tval m = (Ret vec, m') /\
    (set_is_empty m' SET \/ same_set m m' SET /\ translation_context SET m' = translation_context SET m).
Proof.
  intros Hp HS Hn. pose proof (raise_exception_run pc cause tval m Hp) as E. cbv zeta in E.
  pose proof (trap_target_cases cause m) as Htc. set (target := trap_target cause m) in *. clearbody target.
  eexists _, _. split; [exact E|]. clear E.
  destruct (decide (reg m machine_reg.iprv = target)) as [Ht|Ht].
  - right. assert (Hst : WARL_mstatus (reg (trap_mem target pc cause tval m) machine_reg.mstatus) =
                       status_to target (reg m machine_reg.iprv) (WARL_mstatus (reg m machine_reg.mstatus))).
    { rewrite trap_mem_status by done. by apply status_to_legal; [apply legal_mem_mstatus|]. }
    split.
    + unfold trap_mem. intros j k Hj Hk. rewrite <-Ht at 1.
      destruct Htc as [[-> _] | ->].
      * assert (forall m1, reg m1 machine_reg.iprv = reg m machine_reg.iprv -> change_prv (reg m machine_reg.iprv) m1 = m1) as ->
          by (intros m1 <-; apply change_prv_same).
        -- by rewrite !write_reg_same_set by (done || lia).
        -- by hart_simpl.
      * assert (forall m1, reg m1 machine_reg.iprv = reg m machine_reg.iprv -> change_prv (reg m machine_reg.iprv) m1 = m1) as ->
          by (intros m1 <-; apply change_prv_same).
        -- by rewrite !write_reg_same_set by (done || lia).
        -- by hart_simpl.
    + apply context_same.
      * rewrite trap_mem_iprv by tauto. done.
      * unfold trap_mem. destruct Htc as [[-> _] | ->]; rewrite change_prv_reg by closed_reg; by hart_simpl.
      * intros i Hi. rewrite Hst. apply status_to_bit; [apply legal_mem_mstatus|done].
      * intros Hmprv. rewrite Hst. destruct Htc as [[-> _] | ->]; [|by exfalso; apply Hn].
        change (status_to PRV_S) with status_to_S. unfold status_to_S. by rewrite !field_replace_other by lia.
  - left. unfold trap_mem. apply change_prv_flushes; [|done].
    destruct Htc as [[-> _] | ->]; by hart_simpl.
Qed.

Lemma trap_keeps_translation_context_witness :
  legal_prv (reg sample_hart machine_reg.iprv) /\
  exists vec m', raise_exception 0x10002 MCAUSE_ECALL_BASE 0 sample_hart = (Ret vec, m') /\
    (set_is_empty m' TLB_READ \/
     same_set sample_hart m' TLB_READ /\ translation_context TLB_READ m' = translation_context TLB_READ sample_hart).
Proof.
  split; [by left|].
  exact (trap_keeps_translation_context 0x10002 MCAUSE_ECALL_BASE 0 sample_hart TLB_READ
           ltac:(by left) ltac:(by vm_compute) ltac:(intros [E _]; by vm_compute in E)).
Defined.

(** C29: A trap within machine mode while MPRV is set keeps the TLB although the effective mode of loads and stores changes: they used the mode in MPP, and after the trap MPP is machine mode, but the slots filled with translations of the former mode stay valid, so the loads and stores of the handler can hit them instead of going to the physical address. *)
Theorem trap_in_M_keeps_stale_translations pc cause tval m SET :
  reg m machine_reg.iprv = PRV_M ->
  Z.testbit (WARL_mstatus (reg m machine_reg.mstatus)) MSTATUS_MPRV_SHIFT = true ->
  bitfield 11 2 (WARL_mstatus (reg m machine_reg.mstatus)) <> PRV_M ->
  SET = TLB_READ \/ SET = TLB_WRITE ->
  exists vec m', raise_exception pc cause tval m = (Ret vec, m') /\
    same_set m m' SET /\ data_privilege m <> PRV_M /\ data_privilege m' = PRV_M.
Proof.
  intros Hp Hmprv Hmpp HSET.
  assert (Hlp : legal_prv (reg m machine_reg.iprv)) by (rewrite Hp; right; right; left).
  assert (HS : 0 <= SET < TLB_NUM_SETS_) by (destruct HSET as [-> | ->]; by vm_compute).
  pose proof (raise_exception_run pc cause tval m Hlp) as E. cbv zeta in E.
  assert (Ht : trap_target cause m = PRV_M) by (unfold trap_target; by rewrite Hp).
  rewrite Ht in E. eexists _, _. split; [exact E|].
  assert (Hst : WARL_mstatus (reg (trap_mem PRV_M pc cause tval m) machine_reg.mstatus) =
                status_to_M PRV_M (WARL_mstatus (reg m machine_reg.mstatus))).
  { rewrite trap_mem_status, Hp by done. apply status_to_M_legal; [apply legal_mem_mstatus | right; right; left]. }
  split; [|split].
  - unfold trap_mem. intros j k Hj Hk. unfold change_prv. rewrite !read_write_other, Hp by closed_reg.
    cbn [Z.eqb Pos.eqb PRV_M]. by rewrite !write_reg_same_set by (done || lia).
  - unfold data_privilege. by rewrite Hmprv.
  - unfold data_privilege. rewrite Hst. rewrite status_to_M_MPP by (right; right; left).
    rewrite (status_to_bit PRV_M PRV_M) by (apply legal_mem_mstatus || tauto). by rewrite Hmprv.
Qed.

(** Machine mode that accesses the memory of the supervisor. *)
Definition sample_mprv_hart : memory :=
  list_to_map [(word_index machine_reg.iprv, PRV_M); (word_index machine_reg.mstatus, Z.lor MSTATUS_MPRV_MASK 0x800)].

Lemma trap_in_M_keeps_stale_translations_witness :
  data_privilege sample_mprv_hart = PRV_S /\
  exists vec m', raise_exception 0x80000000 MCAUSE_LOAD_PAGE_FAULT 0x4000 sample_mprv_hart = (Ret vec, m') /\
    same_set sample_mprv_hart m' TLB_READ /\ data_privilege sample_mprv_hart <> PRV_M /\ data_privilege m' = PRV_M.
Proof.
  split; [by vm_compute|].
  exact (trap_in_M_keeps_stale_translations 0x80000000 MCAUSE_LOAD_PAGE_FAULT 0x4000 sample_mprv_hart TLB_READ
           ltac:(by vm_compute) ltac:(by vm_compute) ltac:(by vm_compute) ltac:(by left)).
Defined.

(** * Correctness of interrupts and of the timer

    When an interrupt is pending, which one is taken, what holds when the
    interpreter goes on, and when the timer fires. *)

(** ** Pending interrupts *)

(** The condition of the architecture for interrupt [i] to trap: it is
    pending and enabled, and its mode, which delegation chooses, is above the
    current one, or is the current one with interrupts enabled. *)
Definition interrupt_condition (m : memory) (i : Z) : bool :=
  let prv := reg m machine_reg.iprv in
  let s := WARL_mstatus (reg m machine_reg.mstatus) in
  Z.testbit (WARL_mip (reg m machine_reg.mip)) i && Z.testbit (WARL_mie (reg m machine_reg.mie)) i &&
  (if Z.testbit (WARL_mideleg (reg m machine_reg.mideleg)) i
   then (prv <? PRV_S) || ((prv =? PRV_S) && Z.testbit s MSTATUS_SIE_SHIFT)
   else (prv <? PRV_M) || ((prv =? PRV_M) && Z.testbit s MSTATUS_MIE_SHIFT)).

Lemma testbit_uint32 x i : 0 <= i < 32 -> Z.testbit (uint32 x) i = Z.testbit x i.
Proof. intros. unfold uint32. by rewrite testbit_uwrap, bool_decide_eq_true_2 by lia. Qed.

Lemma testbit_not_mideleg m i :
  0 <= i < 32 -> Z.testbit (uint32 (not64 (WARL_mideleg (reg m machine_reg.mideleg)))) i =
    negb (Z.testbit (WARL_mideleg (reg m machine_reg.mideleg)) i).
Proof.
  intros. rewrite testbit_uint32, testbit_not64, bool_decide_eq_true_2 by (lia || (apply land_range; by vm_compute)). done.
Qed.

Lemma get_pending_irq_mask_run m :
  legal_prv (reg m machine_reg.iprv) ->
  exists mask, get_pending_irq_mask m = (Ret mask, m) /\ is_u 32 mask /\
    forall i, 0 <= i < 32 -> Z.testbit mask i = interrupt_condition m i.
Proof.
  intros Hp. unfold get_pending_irq_mask, interrupt_condition. run.
  set (mip := WARL_mip _). set (mie := WARL_mie _). set (d := WARL_mideleg _). set (s := WARL_mstatus _).
  assert (Hpend : forall i, 0 <= i < 32 -> Z.testbit (uint32 (Z.land mip mie)) i = Z.testbit mip i && Z.testbit mie i).
  { intros. by rewrite testbit_uint32, Z.land_spec by lia. }
  destruct (Z.eqb_spec (uint32 (Z.land mip mie)) 0) as [E0|_].
  { exists 0. split; [done|]. split; [by vm_compute|]. intros i Hi. by rewrite <-Hpend, E0, Z.bits_0 by lia. }
  change MSTATUS_MIE_MASK with (bit 3). change MSTATUS_SIE_MASK with (bit 1).
  assert (Hones : forall i, 0 <= i < 32 -> Z.testbit (uint32 (-1)) i = true).
  { intros. rewrite testbit_uint32 by lia. apply Z.bits_m1. lia. }
  assert (H32 : is_u 32 (uint32 (Z.land mip mie))) by (by apply uwrap_range).
  destruct (legal_prv_cases _ Hp) as [->|[->| ->]]; cbn [Z.eqb Pos.eqb Z.ltb Z.compare Pos.compare Pos.compare_cont PRV_M PRV_S].
  - eexists. split; [done|]. split; [by rewrite Z.land_comm; apply land_range|]. intros i Hi.
    rewrite Z.land_spec, Hpend, Hones by done. by destruct (Z.testbit d i).
  - fold s. rewrite land_bit_test by lia. destruct (Z.testbit s 1) eqn:Es; (eexists; split; [done|]; split; [by rewrite Z.land_comm; apply land_range|]; intros i Hi);
      rewrite Z.land_spec, Hpend by done; change MSTATUS_SIE_SHIFT with 1; rewrite Es.
    + rewrite Hones by done. by destruct (Z.testbit d i).
    + unfold d. rewrite testbit_not_mideleg by done. by destruct (Z.testbit _ i) in |- *; destruct (Z.testbit (WARL_mideleg _) i).
  - fold s. rewrite land_bit_test by lia. destruct (Z.testbit s 3) eqn:Es; (eexists; split; [done|]; split; [by rewrite Z.land_comm; apply land_range|]; intros i Hi);
      rewrite Z.land_spec, Hpend by done; change MSTATUS_MIE_SHIFT with 3; rewrite Es.
    + unfold d. rewrite testbit_not_mideleg by done. by destruct (Z.testbit (WARL_mideleg _) i).
    + rewrite Z.bits_0. by destruct (Z.testbit d i).
Qed.

(** The interrupts in the order of the code. *)
Definition interrupt_order : list Z := [11; 3; 7; 9; 1; 5].

Lemma mask_zero mask : is_u 32 mask -> (forall i, 0 <= i < 32 -> Z.testbit mask i = false) -> mask = 0.
Proof.
  intros Hm H. apply Z.bits_inj'. intros i Hi. rewrite Z.bits_0. destruct (decide (i < 32)); [by apply H|].
  apply (is_u_testbit 32); [done|lia].
Qed.

Lemma testbit_MIP_RW_MASK i : 0 <= i < 32 -> Z.testbit MIP_RW_MASK i = true -> i ∈ interrupt_order.
Proof.
  intros Hi. enough (implb (Z.testbit MIP_RW_MASK i) (bool_decide (i ∈ interrupt_order)) = true) as E.
  { intros E'. rewrite E' in E. by apply bool_decide_eq_true in E. }
  exact (forall_bits (fun i => implb (Z.testbit MIP_RW_MASK i) (bool_decide (i ∈ interrupt_order))) 32 i eq_refl Hi).
Qed.

Lemma interrupt_condition_order m i : 0 <= i < 32 -> interrupt_condition m i = true -> i ∈ interrupt_order.
Proof.
  intros Hi Hc. apply testbit_MIP_RW_MASK; [done|]. unfold interrupt_condition, WARL_mip in Hc.
  rewrite Z.land_spec in Hc. apply andb_true_iff in Hc as [[[_ ?]%andb_true_iff _]%andb_true_iff _]. done.
Qed.

Section config.
Context {cfg : BuildConfig}.

(** The first of the listed interrupts that is set. *)
Lemma find_interrupt (order : list Z) v :
  Forall (fun i => 0 <= i) order ->
  match List.find (fun mask => negb (Z.land v mask =? 0)) (map bit order) with
  | Some mask => exists before irq after, order = before ++ irq :: after /\ mask = bit irq /\
      Z.testbit v irq = true /\ Forall (fun i => Z.testbit v i = false) before
  | None => Forall (fun i => Z.testbit v i = false) order
  end.
Proof.
  induction 1 as [|i order Hi _ IH]; [constructor|]. cbn [map List.find]. rewrite land_bit_test by done.
  destruct (Z.testbit v i) eqn:E; [exists [], i, order; by repeat split|].
  destruct (List.find _ _); [|by constructor].
  destruct IH as (before & irq & after & -> & -> & Hv & Hb). exists (i :: before), irq, after. repeat split; auto.
Qed.

Lemma get_highest_priority_irq_num_run v :
  (exists i, i ∈ interrupt_order /\ Z.testbit v i = true) ->
  exists before irq after, interrupt_order = before ++ irq :: after /\
    get_highest_priority_irq_num v = Ret irq /\
    Z.testbit v irq = true /\ Forall (fun i => Z.testbit v i = false) before.
Proof.
  intros (i & Hi & Hv). pose proof (find_interrupt interrupt_order v ltac:(repeat constructor; done)) as Hf.
  unfold get_highest_priority_irq_num. change interrupts_priority with (map bit interrupt_order).
  destruct (List.find _ _) as [mask|].
  - destruct Hf as (before & irq & after & E & -> & Hirq & Hb). exists before, irq, after. split; [done|]. split; [|done].
    unfold mret, outcome_ret, ilog2, bit. rewrite Z.shiftl_1_l. rewrite Z.log2_pow2; [done|].
    assert (irq ∈ interrupt_order) as Hin by (rewrite E, elem_of_app, elem_of_cons; tauto).
    unfold interrupt_order in Hin. rewrite !elem_of_cons, elem_of_nil in Hin. lia.
  - rewrite Forall_forall in Hf. by rewrite Hf in Hv.
Qed.

(** The assertions hold when the conditions do. *)
Lemma assert_no_brk_run m :
  legal_prv (reg m machine_reg.iprv) ->
  (forall i, 0 <= i < 32 -> interrupt_condition m i = true ->
     reg m machine_reg.iprv < PRV_M /\ Z.testbit (WARL_mideleg (reg m machine_reg.mideleg)) i = false) ->
  reg m machine_reg.iflags_X = 0 -> reg m machine_reg.iflags_Y = 0 -> reg m machine_reg.iflags_H = 0 ->
  assert_no_brk m = (Ret (), m).
Proof.
  intros Hp Hc HX HY HH. destruct (get_pending_irq_mask_run m Hp) as (mask & E & Hr & Hm).
  unfold assert_no_brk. rewrite run_bind, E. run.
  destruct (Z.leb_spec PRV_M (reg m machine_reg.iprv)) as [HM|HM].
  - rewrite (mask_zero mask Hr); [by rewrite HX, HY, HH|]. intros i Hi. rewrite Hm by done.
    destruct (interrupt_condition m i) eqn:Ec; [|done]. apply Hc in Ec; [lia|done].
  - rewrite (mask_zero (Z.land mask _)); [by rewrite HX, HY, HH|by apply land_range, uwrap_range|]. intros i Hi.
    rewrite Z.land_spec, Hm, testbit_uint32 by done. destruct (interrupt_condition m i) eqn:Ec; [|done].
    apply Hc in Ec as [_ ->]; done.
Qed.

(** After a trap the interrupts of the mode that handles it are off. *)
Lemma interrupts_after_trap target pc cause tval m i :
  legal_prv (reg m machine_reg.iprv) -> target = PRV_S \/ target = PRV_M -> 0 <= i < 32 ->
  let m' := trap_mem target pc cause tval m in
  interrupt_condition m' i = true -> target < PRV_M /\ Z.testbit (WARL_mideleg (reg m' machine_reg.mideleg)) i = false.
Proof.
  intros Hp Ht Hi m' Hc. unfold interrupt_condition in Hc.
  assert (E1 : reg m' machine_reg.iprv = target) by (by apply trap_mem_iprv).
  assert (E2 : WARL_mstatus (reg m' machine_reg.mstatus) = status_to target (reg m machine_reg.iprv) (WARL_mstatus (reg m machine_reg.mstatus))).
  { unfold m'. rewrite trap_mem_status by done. apply status_to_legal; [apply legal_mem_mstatus | done]. }
  rewrite E1, E2 in Hc. apply andb_true_iff in Hc as [_ Hc]. clearbody m'.
  set (s := WARL_mstatus _) in *. destruct (Z.testbit (WARL_mideleg _) i); destruct Ht as [-> | ->];
    unfold status_to, status_to_S, status_to_M, PRV_S, PRV_M, MSTATUS_SIE_SHIFT, MSTATUS_MIE_SHIFT in *;
    cbn [Z.eqb Pos.eqb Z.ltb Z.compare Pos.compare Pos.compare_cont andb orb] in Hc; try done.
  all: rewrite testbit_replace_bits, bool_decide_eq_true_2 in Hc by lia; by rewrite Z.bits_0 in Hc.
Qed.

(** C26: Interrupts, for every mode and state: when no interrupt meets the condition of the architecture (pending, enabled, and destined by mideleg to a mode above the current one or to the current one with interrupts enabled) nothing happens; otherwise the first that does in the order MEI, MSI, MTI, SEI, SSI, STI is raised as an exception with the interrupt flag. The unreachable assertion of the code is never reached, and the assertions that the interpreter makes before it goes on hold afterwards. *)
Theorem raise_interrupt_if_any_spec pc page m :
  legal_prv (reg m machine_reg.iprv) ->
  exists pc' page' m', raise_interrupt_if_any pc page m = (Ret (pc', page'), m') /\
    ((forall i, 0 <= i < 32 -> interrupt_condition m i = false) /\ pc' = pc /\ page' = page /\ m' = m \/
     exists before irq after, interrupt_order = before ++ irq :: after /\
       interrupt_condition m irq = true /\ Forall (fun i => interrupt_condition m i = false) before /\
       raise_exception pc (irq + 2 ^ 63) 0 m = (Ret pc', m') /\ page' = ensure_fetch_cache_miss pc') /\
    (reg m machine_reg.iflags_X = 0 -> reg m machine_reg.iflags_Y = 0 -> reg m machine_reg.iflags_H = 0 ->
       assert_no_brk m' = (Ret (), m')).
Proof.
  intros Hp. destruct (get_pending_irq_mask_run m Hp) as (mask & E & Hr & Hm).
  unfold raise_interrupt_if_any. rewrite run_bind, E. destruct (Z.eqb_spec mask 0) as [->|Hne]; cbn [negb].
  { assert (Hnone : forall i, 0 <= i < 32 -> interrupt_condition m i = false) by (intros; by rewrite <-Hm, Z.bits_0).
    exists pc, page, m. split; [done|]. split; [by left|]. intros. apply assert_no_brk_run; try done.
    intros i Hi. by rewrite Hnone. }
  destruct (get_highest_priority_irq_num_run mask) as (before & irq & after & Eo & Eirq & Hirq & Hb).
  { destruct (decide (Exists (fun i => Z.testbit mask i = true) interrupt_order)) as [Hex|Hno].
    - apply Exists_exists in Hex as (i & ? & ?). by exists i.
    - exfalso. apply Hne, mask_zero; [done|]. intros i Hi. destruct (Z.testbit mask i) eqn:Ei; [|done].
      exfalso. apply Hno, Exists_exists. exists i. split; [|done]. apply (interrupt_condition_order m); [done|]. by rewrite <-Hm. }
  assert (Hin : irq ∈ interrupt_order) by (rewrite Eo, elem_of_app, elem_of_cons; tauto).
  assert (Hi : 0 <= irq < 32) by (unfold interrupt_order in Hin; rewrite !elem_of_cons, elem_of_nil in Hin; lia).
  rewrite run_bind. unfold lift. rewrite Eirq.
  assert (Z.lor irq MCAUSE_INTERRUPT_FLAG = irq + 2 ^ 63) as ->.
  { unfold interrupt_order in Hin. rewrite !elem_of_cons, elem_of_nil in Hin.
    by destruct Hin as [->|[->|[->|[->|[->|[->|[]]]]]]]. }
  pose proof (raise_exception_run pc (irq + 2 ^ 63) 0 m Hp) as Er. cbv zeta in Er.
  eexists _, _, _. split; [by rewrite run_bind, Er|]. split.
  - right. exists before, irq, after. split; [done|]. rewrite <-Hm by done. split; [done|]. split; [|by split; [exact Er|]].
    apply Forall_forall. intros i Hib. rewrite Forall_forall in Hb. rewrite <-Hm; [by apply Hb|].
    assert (i ∈ interrupt_order) as Hio by (rewrite Eo, elem_of_app; tauto).
    unfold interrupt_order in Hio. rewrite !elem_of_cons, elem_of_nil in Hio. lia.
  - pose proof (trap_target_cases (irq + 2 ^ 63) m) as Ht.
    assert (trap_target (irq + 2 ^ 63) m = PRV_S \/ trap_target (irq + 2 ^ 63) m = PRV_M) as Ht' by tauto.
    set (target := trap_target _ m) in *. clearbody target. intros HX HY HH. apply assert_no_brk_run.
    + rewrite trap_mem_iprv by done. unfold legal_prv. destruct Ht' as [-> | ->]; [right; left | right; right; left].
    + intros i Hi'. rewrite trap_mem_iprv by done. by apply interrupts_after_trap.
    + unfold trap_mem. destruct Ht' as [-> | ->]; rewrite change_prv_reg by closed_reg; by hart_simpl.
    + unfold trap_mem. destruct Ht' as [-> | ->]; rewrite change_prv_reg by closed_reg; by hart_simpl.
    + unfold trap_mem. destruct Ht' as [-> | ->]; rewrite change_prv_reg by closed_reg; by hart_simpl.
Qed.
End config.

Lemma raise_interrupt_if_any_spec_witness :
  legal_prv (reg sample_hart machine_reg.iprv) /\
  exists pc' page' m', @raise_interrupt_if_any debug_build 0x1000 0 sample_hart = (Ret (pc', page'), m').
Proof.
  split; [by left|].
  destruct (@raise_interrupt_if_any_spec debug_build 0x1000 0 sample_hart) as (pc' & page' & m' & E & _); [by left|].
  exists pc', page', m'. exact E.
Defined.


(** ** The timer *)

(** C30: The timer raises the machine timer interrupt exactly when mtimecmp is set and the time has reached it, and changes nothing else, in both builds of the interpreter, for every mtimecmp below 2^51; above it the default build compares with the product of mtimecmp and 8192 modulo 2^64 and fires early (at the first tick for mtimecmp = 2^51 + 1), which the event-driven build does not. *)
Theorem set_rtc_interrupt_fires ev mcycle m :
  is_u 64 mcycle ->
  let mtimecmp := reg m machine_reg.clint_mtimecmp in
  let expired := negb (mtimecmp =? 0) && (mtimecmp <=? mcycle / RTC_FREQ_DIV) in
  (mtimecmp < 2 ^ 51 ->
   set_rtc_interrupt ev mcycle m =
     (Ret (), if expired then mem_write machine_reg.mip (Z.lor (WARL_mip (reg m machine_reg.mip)) MIP_MTIP_MASK) m else m)) /\
  (mtimecmp = 2 ^ 51 + 1 ->
   Z.testbit (WARL_mip (reg m machine_reg.mip)) MIP_MTIP_SHIFT = false ->
   exists m', set_rtc_interrupt false RTC_FREQ_DIV m = (Ret (), m') /\
     Z.testbit (reg m' machine_reg.mip) MIP_MTIP_SHIFT = true /\
     set_rtc_interrupt true RTC_FREQ_DIV m = (Ret (), m)).
Proof.
  intros Hc mtimecmp expired.
  assert (Hw : WARL_mip (Z.lor (WARL_mip (reg m machine_reg.mip)) MIP_MTIP_MASK) = Z.lor (WARL_mip (reg m machine_reg.mip)) MIP_MTIP_MASK).
  { unfold WARL_mip. rewrite Z.land_lor_distr_l, <-Z.land_assoc, Z.land_diag. done. }
  split.
  - intros Hlt. assert (Hr : is_u 64 mtimecmp) by apply mem_read_range.
    unfold set_rtc_interrupt. run. fold mtimecmp.
    assert ((if ev then negb (mtimecmp =? 0) && (mtimecmp <=? rtc_cycle_to_time mcycle)
             else (rtc_time_to_cycle mtimecmp <=? mcycle) && negb (rtc_time_to_cycle mtimecmp =? 0)) = expired) as ->; [|destruct expired; [by rewrite Hw|done]].
    unfold expired. destruct ev; [done|]. unfold rtc_time_to_cycle, uint64. rewrite uwrap_small by (unfold is_u, RTC_FREQ_DIV in *; lia).
    rewrite andb_comm. unfold is_u, RTC_FREQ_DIV in *.
    pose proof (Z.div_mod mcycle 8192 ltac:(lia)). pose proof (Z.mod_pos_bound mcycle 8192 ltac:(lia)).
    destruct (Z.eqb_spec mtimecmp 0), (Z.eqb_spec (mtimecmp * 8192) 0),
      (Z.leb_spec mtimecmp (mcycle / 8192)), (Z.leb_spec (mtimecmp * 8192) mcycle); try done; lia.
  - intros E Hmtip. eexists. unfold set_rtc_interrupt. run. fold mtimecmp. rewrite E.
    change ((rtc_time_to_cycle (2 ^ 51 + 1) <=? RTC_FREQ_DIV) && negb (rtc_time_to_cycle (2 ^ 51 + 1) =? 0)) with true. cbv iota.
    split; [done|]. split; [|done]. rewrite read_write_same, Hw. change MIP_MTIP_SHIFT with 7. unfold uint64. rewrite testbit_uwrap, Z.lor_spec by lia.
    by rewrite orb_true_r.
Qed.

Lemma set_rtc_interrupt_fires_witness :
  is_u 64 8192 /\ set_rtc_interrupt false 8192 sample_hart = (Ret (), sample_hart).
Proof.
  split; [by vm_compute|].
  rewrite (proj1 (set_rtc_interrupt_fires false 8192 sample_hart ltac:(by vm_compute)) ltac:(by vm_compute)). reflexivity.
Defined.
