(* ===== verification/CsrFacts.v ===== *)
(** * Facts about control and status registers

    Reading a register changes nothing, a write that fails changes nothing,
    and what a write makes the register read as. *)

From S2P Require Import Prelude Bits Shadow SolidityCompat HashTree Memory UarchFacts Machine Riscv Hart Trap Csr StatusBits HartFacts TrapFacts.

#[local] Opaque flush_tlb_set flush_all_tlb mem_read mem_write.

(** ** Computations that only read *)

Definition reads {A} (p : M memory A) : Prop := forall m, exists a, p m = (Ret a, m).

Lemma reads_ret {A} (a : A) : reads (mret a).
Proof. intros m. by exists a. Qed.
Lemma reads_register what : reads (read_shadow_register what).
Proof. intros m. by eexists. Qed.
Lemma reads_bind {A B} (p : M memory A) (f : A -> M memory B) : reads p -> (forall a, reads (f a)) -> reads (p ≫= f).
Proof. intros Hp Hf m. destruct (Hp m) as (a & E). rewrite run_bind, E. apply Hf. Qed.

Ltac reads_step :=
  first
    [ assumption | apply reads_ret | apply reads_register
    | apply reads_bind; [|intros ?]
    | case_match | progress cbv zeta ].
Ltac reads_auto := repeat reads_step.

(** Writes that succeed or leave the state alone. *)
Definition all_or_nothing (p : M memory execute_status) : Prop :=
  forall m, exists st m', p m = (Ret st, m') /\ (st = failure -> m' = m).

Lemma aon_read {A} (p : M memory A) f : reads p -> (forall a, all_or_nothing (f a)) -> all_or_nothing (p ≫= f).
Proof. intros Hp Hf m. destruct (Hp m) as (a & E). rewrite run_bind, E. apply Hf. Qed.
Lemma aon_ret st : all_or_nothing (mret st).
Proof. intros m. by exists st, m. Qed.

(** Programs that never fail. *)
Definition succeeds (p : M memory execute_status) : Prop := forall m, exists st m', p m = (Ret st, m') /\ st <> failure.
Lemma succeeds_aon p : succeeds p -> all_or_nothing p.
Proof. intros H m. destruct (H m) as (st & m' & E & Hne). exists st, m'. done. Qed.
Lemma succeeds_ret st : st <> failure -> succeeds (mret st).
Proof. intros H m. by exists st, m. Qed.
Lemma succeeds_write {A} (p : M memory A) f :
  (forall m, exists a m', p m = (Ret a, m')) -> (forall a, succeeds (f a)) -> succeeds (p ≫= f).
Proof. intros Hp Hf m. destruct (Hp m) as (a & m' & E). rewrite run_bind, E. apply Hf. Qed.

Lemma total_write_register what val m : exists a m', write_shadow_register what val m = (Ret a, m').
Proof. by eexists _, _. Qed.
Lemma total_flush_set SET m : exists a m', flush_tlb_set SET m = (Ret a, m').
Proof. rewrite flush_tlb_set_run. by eexists _, _. Qed.
Lemma total_flush_all m : exists a m', flush_all_tlb m = (Ret a, m').
Proof. rewrite flush_all_tlb_run. by eexists _, _. Qed.
Lemma total_when c p : (forall m, exists a m', p m = (Ret a, m')) -> forall m, exists a (m' : memory), when c p m = (Ret a, m').
Proof. intros H m. destruct c; [apply H | by eexists _, _]. Qed.

Ltac succeeds_step :=
  first
    [ apply succeeds_ret; discriminate
    | apply succeeds_write; [first [intros ?; apply total_write_register | by apply total_flush_set | by apply total_flush_all
                                   | apply total_when; by apply total_flush_set ]|intros ?]
    | case_match | progress cbv zeta ].
Ltac aon_step :=
  first
    [ apply aon_ret
    | apply aon_read; [solve [reads_auto]|intros ?]
    | solve [apply succeeds_aon; repeat succeeds_step]
    | case_match | progress cbv zeta ].
Ltac aon_auto := repeat aon_step.

Lemma rdcounteren_reads mask : reads (rdcounteren mask).
Proof. unfold rdcounteren. reads_auto. Qed.

Lemma read_csr_reads mcycle csraddr : reads (read_csr mcycle csraddr).
Proof. unfold read_csr. reads_auto. all: apply rdcounteren_reads. Qed.

Lemma write_csr_all_or_nothing mcycle csraddr val : all_or_nothing (write_csr mcycle csraddr val).
Proof.
  unfold write_csr. case_match; [apply aon_ret|]. apply aon_read; [apply reads_register|]. intros prv.
  aon_auto.
Qed.

(** ** Values that are written and read back *)

(** Evaluates the dispatch of a read or write of a given register. *)
Ltac csr_dispatch H :=
  cbv beta iota zeta delta [write_csr read_csr mbind M_bind read_iprv DEFINE_SA_READ read_shadow_register gets];
  repeat (first [rewrite H | eval_if]; cbv beta).

(** The bits of a register that a write can change. *)
Definition ALL_BITS : Z := 2 ^ 64 - 1.
Definition csr_write_mask (csraddr : Z) (m : memory) : option Z :=
  if csraddr =? CSR_address.fflags then Some 0x1f
  else if csraddr =? CSR_address.frm then Some 0x7
  else if csraddr =? CSR_address.fcsr then Some 0xff
  else if csraddr =? CSR_address.senvcfg then Some SENVCFG_R_MASK
  else if csraddr =? CSR_address.sie then Some (WARL_mideleg (reg m machine_reg.mideleg))
  else if csraddr =? CSR_address.stvec then Some (not64 3)
  else if csraddr =? CSR_address.scounteren then Some SCOUNTEREN_RW_MASK
  else if csraddr =? CSR_address.sscratch then Some ALL_BITS
  else if csraddr =? CSR_address.sepc then Some (not64 1)
  else if csraddr =? CSR_address.scause then Some ALL_BITS
  else if csraddr =? CSR_address.stval then Some ALL_BITS
  else if csraddr =? CSR_address.sip then Some (WARL_mideleg (reg m machine_reg.mideleg))
  else if csraddr =? CSR_address.menvcfg then Some MENVCFG_R_MASK
  else if csraddr =? CSR_address.medeleg then Some MEDELEG_W_MASK
  else if csraddr =? CSR_address.mideleg then Some MIP_S_RW_MASK
  else if csraddr =? CSR_address.mie then Some MIP_RW_MASK
  else if csraddr =? CSR_address.mtvec then Some (not64 3)
  else if csraddr =? CSR_address.mcounteren then Some MCOUNTEREN_RW_MASK
  else if csraddr =? CSR_address.mscratch then Some ALL_BITS
  else if csraddr =? CSR_address.mepc then Some (not64 1)
  else if csraddr =? CSR_address.mcause then Some ALL_BITS
  else if csraddr =? CSR_address.mtval then Some ALL_BITS
  else if csraddr =? CSR_address.mip then Some MIP_S_RW_MASK
  else None.

Definition merge_bits (mask old val : Z) : Z := Z.lor (Z.land old (not64 mask)) (Z.land val mask).

Lemma testbit_merge_bits mask old val i :
  is_u 64 mask -> 0 <= i < 64 ->
  Z.testbit (merge_bits mask old val) i = if Z.testbit mask i then Z.testbit val i else Z.testbit old i.
Proof.
  intros Hm Hi. unfold merge_bits. rewrite Z.lor_spec, !Z.land_spec, testbit_not64, bool_decide_eq_true_2 by (done || lia).
  destruct (Z.testbit mask i); cbn [andb negb]; by rewrite ?andb_false_r, ?andb_true_r, ?orb_false_r.
Qed.

Lemma land_sub mask sub i : Z.land sub mask = sub -> Z.testbit sub i = true -> Z.testbit mask i = true.
Proof. intros E Hi. rewrite <-E, Z.land_spec in Hi. by apply andb_true_iff in Hi as [_ ?]. Qed.

Lemma merge_bits_range mask old val : is_u 64 mask -> is_u 64 old -> is_u 64 (merge_bits mask old val).
Proof.
  intros Hm Ho. apply testbit_is_u; [lia|]. intros i Hi. unfold merge_bits.
  by rewrite Z.lor_spec, !Z.land_spec, (is_u_testbit 64 old), (is_u_testbit 64 mask), andb_false_r by done.
Qed.

(** A write of [mask] through a larger legal mask, and back. *)
Lemma merge_bits_read legal mask old val :
  is_u 64 legal -> is_u 64 mask -> Z.land mask legal = mask -> is_u 64 old -> is_u 64 val ->
  Z.land (uint64 (Z.land (merge_bits mask (Z.land old legal) val) legal)) legal = merge_bits mask (Z.land old legal) val.
Proof.
  intros Hl Hm Hs Ho Hv. unfold uint64. apply Z.bits_inj'. intros i Hi.
  assert (Hr : is_u 64 (merge_bits mask (Z.land old legal) val)).
  { apply merge_bits_range; [done|]. apply testbit_is_u; [lia|]. intros j Hj. by rewrite Z.land_spec, (is_u_testbit 64 old) by done. }
  destruct (decide (i < 64)) as [Hi'|]; [|by rewrite Z.land_spec, (is_u_testbit 64 legal), (is_u_testbit 64 (merge_bits _ _ _)), andb_false_r by (done || lia)].
  rewrite Z.land_spec, testbit_uwrap, Z.land_spec, testbit_merge_bits, Z.land_spec, bool_decide_eq_true_2 by (done || lia).
  destruct (Z.testbit mask i) eqn:Em; [rewrite (land_sub legal mask i Hs Em)|];
    destruct (Z.testbit val i), (Z.testbit old i), (Z.testbit legal i); done.
Qed.

Lemma merge_bits_all mask old val : Z.land (Z.land old mask) (not64 mask) = 0 -> merge_bits mask (Z.land old mask) val = Z.land val mask.
Proof. intros E. unfold merge_bits. by rewrite E, Z.lor_0_l. Qed.

Lemma land_not64_self mask old : is_u 64 mask -> Z.land (Z.land old mask) (not64 mask) = 0.
Proof.
  intros Hm. apply Z.bits_inj'. intros i Hi. rewrite Z.bits_0, !Z.land_spec, testbit_not64 by done.
  destruct (Z.testbit old i), (Z.testbit mask i), (bool_decide (i < 64)); done.
Qed.

Definition written_and_read_back (mcycle csraddr val mask : Z) (m : memory) : Prop :=
  exists old st m', read_csr mcycle csraddr m = (Ret (old, true), m) /\
    write_csr mcycle csraddr val m = (Ret st, m') /\ st <> failure /\
    read_csr mcycle csraddr m' = (Ret (merge_bits mask old val, true), m').

(** A register whose word holds the legal bits [mask] and nothing else. *)
Lemma plain_csr mcycle csraddr val mask REG st m :
  is_u 64 mask -> is_u 64 val -> word_index REG <> word_index machine_reg.iprv ->
  (forall m1, reg m1 machine_reg.iprv = reg m machine_reg.iprv ->
     read_csr mcycle csraddr m1 = (Ret (Z.land (reg m1 REG) mask, true), m1)) ->
  write_csr mcycle csraddr val m = (Ret st, mem_write REG (Z.land val mask) m) -> st <> failure ->
  written_and_read_back mcycle csraddr val mask m.
Proof.
  intros Hm Hv Hne Hr Hw Hst. eexists _, st, _. split; [by apply Hr|]. split; [exact Hw|]. split; [done|].
  rewrite Hr by by apply read_write_other. do 3 f_equal.
  rewrite merge_bits_all by by apply land_not64_self.
  rewrite read_write_same. unfold uint64. rewrite uwrap_small; [by rewrite <-Z.land_assoc, Z.land_diag|].
  apply testbit_is_u; [lia|]. intros i Hi. by rewrite Z.land_spec, (is_u_testbit 64 val).
Qed.

Lemma land_all_bits v : is_u 64 v -> Z.land v ALL_BITS = v.
Proof. intros. change ALL_BITS with (Z.ones 64). rewrite Z.land_ones by lia. by apply uwrap_small. Qed.

(** Proves that a register is plain from its word and its status. *)
Ltac plain_csr REG st Hp :=
  apply (plain_csr _ _ _ _ REG st);
  [ by vm_compute | done | by vm_compute
  | let m1 := fresh "m1" in let E := fresh "E" in
    intros m1 E; rewrite <-E in Hp; csr_dispatch Hp; run; rewrite ?land_all_bits by apply mem_read_range; reflexivity
  | csr_dispatch Hp; run; rewrite ?land_all_bits by done; reflexivity
  | discriminate ].

(** The views of the interrupt registers that mideleg opens to the supervisor,
    and the bits of mip that software can write. *)
Lemma mideleg_range m : is_u 64 (WARL_mideleg (reg m machine_reg.mideleg)).
Proof.
  apply testbit_is_u; [lia|]. intros i Hi. unfold WARL_mideleg.
  by rewrite Z.land_spec, (is_u_testbit 64 MIP_S_RW_MASK), andb_false_r by (done || by vm_compute).
Qed.

Lemma mideleg_RW m : Z.land (WARL_mideleg (reg m machine_reg.mideleg)) MIP_RW_MASK = WARL_mideleg (reg m machine_reg.mideleg).
Proof. unfold WARL_mideleg. by rewrite <-Z.land_assoc. Qed.

Lemma view_read_back legal mask old val :
  is_u 64 legal -> is_u 64 mask -> Z.land mask legal = mask -> is_u 64 old -> is_u 64 val ->
  Z.land (Z.land (uint64 (Z.land (merge_bits mask (Z.land old legal) val) legal)) legal) mask =
    merge_bits mask (Z.land (Z.land old legal) mask) val.
Proof.
  intros Hl Hm Hs Ho Hv. rewrite merge_bits_read by done. apply Z.bits_inj'. intros i Hi.
  destruct (decide (i < 64)) as [Hi'|].
  - rewrite Z.land_spec, !testbit_merge_bits, !Z.land_spec by (done || lia).
    destruct (Z.testbit mask i); [by rewrite andb_true_r | by rewrite !andb_false_r].
  - unfold merge_bits. rewrite !Z.land_spec, !Z.lor_spec, !Z.land_spec, (is_u_testbit 64 mask), (is_u_testbit 64 old) by (done || lia).
    by rewrite !andb_false_r.
Qed.

Lemma sie_read_back mcycle val m :
  is_u 64 val -> csr_prv CSR_address.sie <= reg m machine_reg.iprv ->
  written_and_read_back mcycle CSR_address.sie val (WARL_mideleg (reg m machine_reg.mideleg)) m.
Proof.
  intros Hv Hp. apply Z.ltb_ge in Hp. eexists _, success_and_serve_interrupts, _.
  split; [csr_dispatch Hp; unfold read_csr_sie, read_csr_success; run; reflexivity|]. split; [csr_dispatch Hp; unfold write_csr_sie; run; reflexivity|]. split; [discriminate|].
  set (m' := mem_write _ _ m). assert (Hp' : (reg m' machine_reg.iprv <? csr_prv CSR_address.sie) = false) by (unfold m'; by hart_simpl).
  csr_dispatch Hp'. unfold read_csr_sie, read_csr_success. run. unfold m'. hart_simpl. do 3 f_equal. unfold WARL_mie.
  change (Z.lor (Z.land ?a (not64 ?mask)) (Z.land ?b ?mask)) with (merge_bits mask a b).
  apply view_read_back; [by vm_compute | apply mideleg_range | apply mideleg_RW | apply mem_read_range | done].
Qed.

Lemma sip_read_back mcycle val m :
  is_u 64 val -> csr_prv CSR_address.sip <= reg m machine_reg.iprv ->
  written_and_read_back mcycle CSR_address.sip val (WARL_mideleg (reg m machine_reg.mideleg)) m.
Proof.
  intros Hv Hp. apply Z.ltb_ge in Hp. eexists _, success_and_serve_interrupts, _.
  split; [csr_dispatch Hp; unfold read_csr_sip, read_csr_success; run; reflexivity|]. split; [csr_dispatch Hp; unfold write_csr_sip; run; reflexivity|]. split; [discriminate|].
  set (m' := mem_write _ _ m). assert (Hp' : (reg m' machine_reg.iprv <? csr_prv CSR_address.sip) = false) by (unfold m'; by hart_simpl).
  csr_dispatch Hp'. unfold read_csr_sip, read_csr_success. run. unfold m'. hart_simpl. do 3 f_equal. unfold WARL_mip.
  change (Z.lor (Z.land ?a (not64 ?mask)) (Z.land ?b ?mask)) with (merge_bits mask a b).
  apply view_read_back; [by vm_compute | apply mideleg_range | apply mideleg_RW | apply mem_read_range | done].
Qed.

Lemma mip_read_back mcycle val m :
  is_u 64 val -> csr_prv CSR_address.mip <= reg m machine_reg.iprv ->
  written_and_read_back mcycle CSR_address.mip val MIP_S_RW_MASK m.
Proof.
  intros Hv Hp. apply Z.ltb_ge in Hp. eexists _, success_and_serve_interrupts, _.
  split; [csr_dispatch Hp; unfold read_csr_mip, read_csr_success; run; reflexivity|]. split; [csr_dispatch Hp; unfold write_csr_mip; run; reflexivity|]. split; [discriminate|].
  set (m' := mem_write _ _ m). assert (Hp' : (reg m' machine_reg.iprv <? csr_prv CSR_address.mip) = false) by (unfold m'; by hart_simpl).
  csr_dispatch Hp'. unfold read_csr_mip, read_csr_success. run. unfold m'. hart_simpl. do 3 f_equal. unfold WARL_mip.
  apply merge_bits_read; [by vm_compute .. | apply mem_read_range | done].
Qed.

(** The floating-point registers are fields of fcsr. *)
Lemma bitfield_low lo len w x : 0 <= lo -> 0 <= len -> lo + len <= w -> bitfield lo len (uwrap w x) = bitfield lo len x.
Proof. intros. unfold bitfield. bitwise. Qed.

Lemma WARL_fcsr_uwrap x : WARL_fcsr x = uwrap 8 x.
Proof. unfold WARL_fcsr. change FCSR_RW_MASK with (Z.ones 8). by rewrite Z.land_ones. Qed.

Lemma fcsr_field lo len val old :
  0 <= lo -> 0 <= len -> lo + len <= 8 -> is_u 64 val ->
  bitfield lo len (WARL_fcsr (uint64 (WARL_fcsr (replace_bits lo len val old)))) =
    merge_bits (Z.ones len) (bitfield lo len old) val.
Proof.
  intros Hlo Hlen Hw Hv. rewrite !WARL_fcsr_uwrap. unfold uint64. rewrite (uwrap_uwrap 8 64), (uwrap_uwrap 8 8), bitfield_low by lia.
  rewrite field_replace_same by lia. unfold bitfield. rewrite merge_bits_all.
  - by rewrite Z.land_ones.
  - apply land_not64_self. apply testbit_is_u; [lia|]. intros i Hi. apply Z.ones_spec_high. lia.
Qed.

Lemma merge_fcsr val old : is_u 64 val -> WARL_fcsr (uint64 (WARL_fcsr val)) = merge_bits 0xff (WARL_fcsr old) val.
Proof.
  intros Hv. unfold WARL_fcsr at 3. change 0xff with FCSR_RW_MASK. rewrite merge_bits_all by (by apply land_not64_self).
  rewrite !WARL_fcsr_uwrap. unfold uint64. rewrite (uwrap_uwrap 8 64), (uwrap_uwrap 8 8) by lia. by rewrite <-WARL_fcsr_uwrap.
Qed.

Ltac fcsr_read_back Hp Hfs name_r name_w :=
  eexists _, success, _;
  split; [csr_dispatch Hp; unfold name_r, read_csr_success; run; rewrite Hfs; run; reflexivity|];
  split; [csr_dispatch Hp; unfold name_w; run; rewrite Hfs; run; reflexivity|]; split; [discriminate|];
  let m' := fresh "m'" in let Hp' := fresh "Hp'" in
  match goal with |- read_csr _ ?c ?m1 = _ => set (m' := m1);
    assert (Hp' : (reg m' machine_reg.iprv <? csr_prv c) = false) by (unfold m'; by hart_simpl) end;
  csr_dispatch Hp'; unfold name_r, read_csr_success; run; unfold m' at 1; hart_simpl; rewrite Hfs; run;
  unfold m'; hart_simpl; do 3 f_equal.

Lemma float_read_back mcycle val m :
  is_u 64 val -> fs_is_off (WARL_mstatus (reg m machine_reg.mstatus)) = false ->
  (reg m machine_reg.iprv <? 0) = false ->
  written_and_read_back mcycle CSR_address.fflags val 0x1f m /\
  written_and_read_back mcycle CSR_address.frm val 0x7 m /\
  written_and_read_back mcycle CSR_address.fcsr val 0xff m.
Proof.
  intros Hv Hfs Hp. repeat split.
  - change 0 with (csr_prv CSR_address.fflags) in Hp. fcsr_read_back Hp Hfs read_csr_fflags write_csr_fflags.
    change FCSR_FFLAGS_RW_MASK with (Z.shiftl (Z.ones 5) 0). change FCSR_FFLAGS_SHIFT with 0. rewrite !masked_field by lia.
    exact (fcsr_field 0 5 val _ ltac:(lia) ltac:(lia) ltac:(lia) Hv).
  - change 0 with (csr_prv CSR_address.frm) in Hp. fcsr_read_back Hp Hfs read_csr_frm write_csr_frm.
    change FCSR_FRM_RW_MASK with (Z.shiftl (Z.ones 3) 5). change FCSR_FRM_SHIFT with 5. rewrite !masked_field by lia.
    exact (fcsr_field 5 3 val _ ltac:(lia) ltac:(lia) ltac:(lia) Hv).
  - change 0 with (csr_prv CSR_address.fcsr) in Hp. fcsr_read_back Hp Hfs read_csr_fcsr write_csr_fcsr.
    by apply merge_fcsr.
Qed.

(** ** Writes of mstatus *)

(** A write of mstatus is the legalisation of the writable bits of [val] and
    the other bits of the old value. *)
Lemma write_mstatus_value old val :
  legal_mstatus old -> is_u 64 val ->
  let val' := if PRV_HS =? Z.shiftr (Z.land val MSTATUS_MPP_MASK) MSTATUS_MPP_SHIFT
              then Z.land val (not64 MSTATUS_MPP_MASK) else val in
  let mstatus := Z.lor (Z.land (Z.land old MSTATUS_R_MASK) (not64 MSTATUS_W_MASK)) (Z.land val' MSTATUS_W_MASK) in
  (if negb (Z.land mstatus MSTATUS_FS_MASK =? MSTATUS_FS_OFF)
   then Z.lor (Z.lor mstatus MSTATUS_FS_DIRTY) MSTATUS_SD_MASK
   else Z.land mstatus (not64 MSTATUS_SD_MASK)) = WARL_mstatus (merge_bits MSTATUS_W_MASK old val).
Proof.
  intros Hold Hv. pose proof (proj1 (legal_mstatus_bits old) Hold) as (Ho & _ & Hr). cbv zeta. unfold WARL_mstatus.
  set (a := Z.land (merge_bits _ _ _) MSTATUS_R_MASK).
  assert (HW : is_u 64 MSTATUS_W_MASK) by (by vm_compute).
  assert (Ha : forall i, 0 <= i < 64 -> Z.testbit a i = if Z.testbit MSTATUS_W_MASK i then Z.testbit val i else Z.testbit old i).
  { intros i Hi. unfold a. rewrite Z.land_spec, testbit_merge_bits by done. destruct (Z.testbit MSTATUS_W_MASK i) eqn:E.
    - rewrite (land_sub MSTATUS_R_MASK MSTATUS_W_MASK i) by (done || by vm_compute). by rewrite andb_true_r.
    - destruct (Z.testbit old i) eqn:Eo; [by rewrite Hr|done]. }
  assert (Hau : is_u 64 a).
  { apply testbit_is_u; [lia|]. intros i Hi. unfold a.
    by rewrite Z.land_spec, (is_u_testbit 64 MSTATUS_R_MASK), andb_false_r by (done || by vm_compute). }
  assert (Z.shiftr (Z.land a MSTATUS_MPP_MASK) MSTATUS_MPP_SHIFT = Z.shiftr (Z.land val MSTATUS_MPP_MASK) MSTATUS_MPP_SHIFT) as ->.
  { change MSTATUS_MPP_MASK with (Z.shiftl (Z.ones 2) 11). change MSTATUS_MPP_SHIFT with 11. rewrite !masked_field, !bitfield_2, !Ha by lia.
    done. }
  match goal with |- (if negb (Z.land ?x _ =? _) then _ else _) = (if negb (Z.land ?y _ =? _) then _ else _) => enough (x = y) as ->; [done|] end.
  apply Z.bits_inj'. intros i Hi. destruct (decide (i < 64)) as [Hi'|].
  - rewrite Z.lor_spec, !Z.land_spec, testbit_not64, (bool_decide_eq_true_2 (i < 64)) by (done || lia). cbn [andb].
    change MSTATUS_MPP_MASK with (Z.shiftl (Z.ones 2) 11).
    pose proof (Ha i ltac:(lia)) as Hai. specialize (Hr i ltac:(lia)).
    destruct (PRV_HS =? _); rewrite ?testbit_clear_field by lia; rewrite Hai;
      destruct (Z.testbit MSTATUS_W_MASK i) eqn:EW; cbn [negb]; rewrite ?andb_false_r, ?andb_true_r; cbn [orb]; rewrite ?orb_false_r; try done.
    + destruct (bool_decide_reflect (11 <= i < 11 + 2)); cbn [negb andb].
      * exfalso. assert (i = 11 \/ i = 12) as [->| ->] by lia; by vm_compute in EW.
      * destruct (Z.testbit old i); [by rewrite Hr | done].
    + destruct (Z.testbit old i); [by rewrite Hr | done].
  - rewrite Z.lor_spec, !Z.land_spec, (is_u_testbit 64 MSTATUS_W_MASK), (is_u_testbit 64 old) by (done || lia).
    rewrite andb_false_r. destruct (PRV_HS =? _); rewrite ?Z.land_spec, (is_u_testbit 64 a) by (done || lia); done.
Qed.

Definition new_mstatus (val : Z) (m : memory) : Z :=
  WARL_mstatus (merge_bits MSTATUS_W_MASK (WARL_mstatus (reg m machine_reg.mstatus)) val).

Lemma new_mstatus_legal val m : is_u 64 val -> legal_mstatus (new_mstatus val m).
Proof.
  intros Hv. apply WARL_mstatus_legal, merge_bits_range; [by vm_compute|]. apply legal_mem_mstatus.
Qed.

Definition flush_when (c : bool) (SET : Z) (m : memory) : memory := if c then flush_set SET m else m.

(** Which of the two data sets a change of mstatus flushes. *)
Definition mstatus_flushes_write (old new : Z) : bool :=
  let modified := Z.lxor old new in
  Z.testbit modified 18 || (Z.testbit modified 17 || (Z.testbit new 17 && negb (bitfield 11 2 modified =? 0))).
Definition mstatus_flushes_read (old new : Z) : bool := Z.testbit (Z.lxor old new) 19 || mstatus_flushes_write old new.

Lemma write_csr_mstatus_run val m :
  is_u 64 val ->
  let old := WARL_mstatus (reg m machine_reg.mstatus) in
  let new := new_mstatus val m in
  write_csr_mstatus val m =
    (Ret (if negb (Z.land (Z.lxor old new) (Z.lor MSTATUS_SIE_MASK MSTATUS_MIE_MASK) =? 0)
          then success_and_serve_interrupts else success),
     flush_when (mstatus_flushes_write old new) TLB_WRITE
       (flush_when (mstatus_flushes_read old new) TLB_READ (mem_write machine_reg.mstatus new m))).
Proof.
  intros Hv old new. pose proof (legal_mem_mstatus m : legal_mstatus old) as Hold.
  assert (HR : Z.land old MSTATUS_R_MASK = old).
  { apply Z.bits_inj'. intros i Hi. rewrite Z.land_spec. apply legal_mstatus_bits in Hold as (Hu & _ & Hr).
    destruct (decide (i < 64)); [|by rewrite (is_u_testbit 64 old) by (done || lia)].
    specialize (Hr i ltac:(lia)). destruct (Z.testbit old i); [by rewrite Hr|done]. }
  unfold write_csr_mstatus. run. fold old. rewrite write_mstatus_value by done. rewrite HR.
  change (WARL_mstatus (merge_bits MSTATUS_W_MASK old val)) with new.
  rewrite (proj2 (new_mstatus_legal val m Hv) : WARL_mstatus new = new).
  change MSTATUS_MXR_MASK with (bit 19). change MSTATUS_SUM_MASK with (bit 18). change MSTATUS_MPRV_MASK with (bit 17).
  rewrite !land_bit_test by lia. change MSTATUS_MPP_MASK with (Z.shiftl (Z.ones 2) 11). rewrite land_mask_zero by lia.
  assert (Hf : forall (c : bool) SET (m1 : memory), (if c then flush_tlb_set SET else fun s => (Ret (), s)) m1 = (Ret (), flush_when c SET m1)).
  { intros [] SET m1; [apply flush_tlb_set_run | done]. }
  rewrite !Hf. unfold mstatus_flushes_read, mstatus_flushes_write. cbv zeta.
  rewrite !orb_assoc. by destruct (negb (Z.land _ _ =? 0)).
Qed.

(** ** Writes keep the translations in the TLB right *)

Definition translations_kept (SET : Z) (m m' : memory) : Prop :=
  set_is_empty m' SET \/ same_set m m' SET /\ translation_context SET m' = translation_context SET m.

Lemma flush_when_reg c SET m p : 0 <= SET < TLB_NUM_SETS_ -> is_reg p -> reg (flush_when c SET m) p = reg m p.
Proof. intros. unfold flush_when. destruct c; [by apply flush_set_reg | done]. Qed.

Lemma flush_when_keeps c SET SET' m :
  0 <= SET < TLB_NUM_SETS_ -> 0 <= SET' < TLB_NUM_SETS_ -> SET <> SET' -> same_set m (flush_when c SET m) SET'.
Proof. intros. unfold flush_when. destruct c; [by apply flush_set_keeps | done]. Qed.

Lemma same_set_trans m1 m2 m3 SET : same_set m1 m2 SET -> same_set m2 m3 SET -> same_set m1 m3 SET.
Proof. intros H1 H2 j k Hj Hk. by rewrite H2, H1. Qed.

Lemma testbit_lxor_false old new i : Z.testbit (Z.lxor old new) i = false -> Z.testbit new i = Z.testbit old i.
Proof. rewrite Z.lxor_spec. by destruct (Z.testbit old i), (Z.testbit new i). Qed.

Lemma bitfield_lxor_zero lo len old new :
  0 <= lo -> 0 <= len -> bitfield lo len (Z.lxor old new) = 0 -> bitfield lo len new = bitfield lo len old.
Proof.
  intros Hlo Hlen E. apply Z.bits_inj'. intros i Hi. apply (f_equal (fun x => Z.testbit x i)) in E.
  rewrite !testbit_bitfield in * by lia. rewrite Z.bits_0 in E. destruct (bool_decide (i < len)); [|done].
  by apply testbit_lxor_false.
Qed.

Lemma write_csr_mstatus_keeps val m SET :
  is_u 64 val -> 0 <= SET < TLB_NUM_SETS_ -> exists st m', write_csr_mstatus val m = (Ret st, m') /\ translations_kept SET m m'.
Proof.
  intros Hv HS. eexists _, _. split; [by apply write_csr_mstatus_run|].
  set (old := WARL_mstatus (reg m machine_reg.mstatus)). set (new := new_mstatus val m).
  set (m1 := mem_write machine_reg.mstatus new m). set (cr := mstatus_flushes_read old new). set (cw := mstatus_flushes_write old new).
  assert (Hnew : WARL_mstatus (reg (flush_when cw TLB_WRITE (flush_when cr TLB_READ m1)) machine_reg.mstatus) = new).
  { rewrite !flush_when_reg by closed_reg. unfold m1. rewrite read_write_same, uint64_id by by apply new_mstatus_legal.
    by apply new_mstatus_legal. }
  assert (Hother : forall p, is_reg p -> word_index p <> word_index machine_reg.mstatus ->
            reg (flush_when cw TLB_WRITE (flush_when cr TLB_READ m1)) p = reg m p).
  { intros p Hp Hne. rewrite !flush_when_reg by (done || by vm_compute). unfold m1. by rewrite write_reg_other. }
  assert (Hm1 : same_set m m1 SET) by (by apply write_reg_same_set).
  unfold translations_kept, translation_context, data_privilege, satp_mode. rewrite Hnew, !Hother by closed_reg. fold old.
  assert (SET = TLB_CODE \/ SET = TLB_READ \/ SET = TLB_WRITE) as [->|[->| ->]]
    by (unfold TLB_NUM_SETS_, TLB_CODE, TLB_READ, TLB_WRITE in *; lia).
  - right. split; [|done]. eapply same_set_trans; [exact Hm1|]. eapply same_set_trans; by apply flush_when_keeps.
  - change (TLB_READ =? TLB_CODE) with false. change (TLB_READ =? TLB_READ) with true. cbv iota. destruct cr eqn:Ecr.
    + left. eapply same_set_empty; [by apply flush_when_keeps|]. by apply flush_set_empty.
    + right. split; [eapply same_set_trans; [exact Hm1|]; by apply (flush_when_keeps cw TLB_WRITE TLB_READ m1)|].
      unfold cr, mstatus_flushes_read, mstatus_flushes_write in Ecr. apply orb_false_iff in Ecr as [E19 Ecr].
      apply orb_false_iff in Ecr as [E18 Ecr]. apply orb_false_iff in Ecr as [E17 Empp].
      unfold MSTATUS_MPRV_SHIFT, MSTATUS_SUM_SHIFT, MSTATUS_MXR_SHIFT.
      rewrite (testbit_lxor_false old new 17), (testbit_lxor_false old new 18), (testbit_lxor_false old new 19) in * by done.
      destruct (Z.testbit old 17); [|done]. apply negb_false_iff, Z.eqb_eq in Empp. by rewrite (bitfield_lxor_zero 11 2 old new) by (done || lia).
  - change (TLB_WRITE =? TLB_CODE) with false. change (TLB_WRITE =? TLB_READ) with false. cbv iota. destruct cw eqn:Ecw.
    + left. by apply flush_set_empty.
    + right. split; [eapply same_set_trans; [exact Hm1|]; by apply (flush_when_keeps cr TLB_READ TLB_WRITE m1)|].
      unfold cw, mstatus_flushes_write in Ecw.
      apply orb_false_iff in Ecw as [E18 Ecw]. apply orb_false_iff in Ecw as [E17 Empp].
      unfold MSTATUS_MPRV_SHIFT, MSTATUS_SUM_SHIFT.
      rewrite (testbit_lxor_false old new 17), (testbit_lxor_false old new 18) in * by done.
      destruct (Z.testbit old 17); [|done]. apply negb_false_iff, Z.eqb_eq in Empp. by rewrite (bitfield_lxor_zero 11 2 old new) by (done || lia).
Qed.

Definition keeps_translations (p : M memory execute_status) : Prop :=
  forall m SET, 0 <= SET < TLB_NUM_SETS_ -> exists st m', p m = (Ret st, m') /\ translations_kept SET m m'.

Lemma keeps_ret st : keeps_translations (mret st).
Proof. intros m SET HS. exists st, m. split; [done|]. by right. Qed.

Lemma keeps_read {A} (p : M memory A) f : reads p -> (forall a, keeps_translations (f a)) -> keeps_translations (p ≫= f).
Proof. intros Hp Hf m. destruct (Hp m) as (a & E). rewrite run_bind, E. apply Hf. Qed.

(** The registers that translation depends on. *)
Definition translation_registers : list Z := [machine_reg.iprv; machine_reg.satp; machine_reg.mstatus].

Lemma keeps_write REG v st :
  is_reg REG -> word_index REG ∉ map word_index translation_registers ->
  keeps_translations (write_shadow_register REG v ;; mret st).
Proof.
  intros Hr Hn m SET HS. eexists _, _. split; [done|]. right. split; [by apply write_reg_same_set|].
  cbn [map translation_registers] in Hn. rewrite !not_elem_of_cons in Hn. destruct Hn as (H1 & H2 & H3 & _).
  apply context_same; by rewrite ?read_write_other by congruence.
Qed.

Ltac keeps_step :=
  first
    [ apply keeps_ret
    | apply keeps_read; [solve [reads_auto]|intros ?]
    | apply keeps_write; [by vm_compute | solve [apply (bool_decide_unpack _); vm_compute; exact I]]
    | case_match | progress cbv zeta ].

Lemma satp_mode_same old stap :
  is_u 64 old -> is_u 64 stap -> Z.land (Z.lxor old stap) (Z.lor SATP_ASID_MASK SATP_MODE_MASK) = 0 ->
  Z.shiftr stap SATP_MODE_SHIFT = Z.shiftr old SATP_MODE_SHIFT.
Proof.
  intros Ho Hs E. apply Z.bits_inj'. intros i Hi. rewrite !Z.shiftr_spec by lia.
  apply (f_equal (fun x => Z.testbit x (i + SATP_MODE_SHIFT))) in E. rewrite Z.land_spec, Z.bits_0 in E.
  destruct (decide (i + SATP_MODE_SHIFT < 64)) as [Hlt|].
  - assert (Z.testbit (Z.lor SATP_ASID_MASK SATP_MODE_MASK) (i + SATP_MODE_SHIFT) = true) as Em.
    { change (Z.lor SATP_ASID_MASK SATP_MODE_MASK) with (Z.shiftl (Z.ones 4) 60). rewrite testbit_field_mask by (unfold SATP_MODE_SHIFT; lia).
      apply bool_decide_eq_true_2. unfold SATP_MODE_SHIFT in *. lia. }
    rewrite Em, andb_true_r in E. by apply testbit_lxor_false.
  - by rewrite !(is_u_testbit 64) by (done || (unfold SATP_MODE_SHIFT in *; lia)).
Qed.

Lemma write_csr_satp_keeps val : is_u 64 val -> keeps_translations (write_csr_satp val).
Proof.
  intros Hv. unfold write_csr_satp. apply keeps_read; [reads_auto|]. intros mstatus. apply keeps_read; [reads_auto|]. intros prv.
  case_match; [apply keeps_ret|]. intros m SET HS. set (old := WARL_satp (reg m machine_reg.satp)).
  destruct (_ || _) eqn:Emode; [|exists success, m; by split; [run | right]].
  set (stap := Z.lor (Z.lor (Z.land val SATP_PPN_MASK) (Z.land val SATP_ASID_MASK)) (Z.land val SATP_MODE_MASK)).
  destruct (negb (Z.land (Z.lxor old stap) (Z.lor SATP_ASID_MASK SATP_MODE_MASK) =? 0)) eqn:Emod.
  - exists success_and_flush_fetch, (flush_all (mem_write machine_reg.satp (WARL_satp stap) m)). split; [|left; by apply flush_all_empty].
    run. fold old. fold stap. rewrite Emod. by rewrite flush_all_tlb_run.
  - exists success, (mem_write machine_reg.satp (WARL_satp stap) m). split.
    { run. fold old. fold stap. by rewrite Emod. }
    right. split; [by apply write_reg_same_set|]. apply negb_false_iff, Z.eqb_eq in Emod.
    unfold translation_context, data_privilege, satp_mode. hart_simpl. fold old.
    assert (Hs : is_u 64 stap).
    { apply testbit_is_u; [lia|]. intros i Hi. unfold stap. by rewrite !Z.lor_spec, !Z.land_spec, (is_u_testbit 64 val). }
    assert (Hmode : Z.shiftr stap SATP_MODE_SHIFT = Z.shiftr val SATP_MODE_SHIFT).
    { unfold stap. apply Z.bits_inj'. intros i Hi. rewrite !Z.shiftr_spec, !Z.lor_spec, !Z.land_spec by lia.
      destruct (decide (i + SATP_MODE_SHIFT < 64)) as [Hlt|]; [|by rewrite (is_u_testbit 64 val) by (done || (unfold SATP_MODE_SHIFT in *; lia))].
      change SATP_MODE_MASK with (Z.shiftl (Z.ones 4) 60). rewrite testbit_field_mask by (unfold SATP_MODE_SHIFT; lia).
      rewrite (bool_decide_eq_true_2 (60 <= _ < _)) by (unfold SATP_MODE_SHIFT in *; lia).
      rewrite andb_true_r. destruct (Z.testbit val _); cbn [andb]; [apply orb_true_r | reflexivity]. }
    assert (Hw : WARL_satp stap = stap).
    { unfold WARL_satp. rewrite Hmode, Emode. unfold stap. change SATP_RW_MASK with (Z.lor (Z.lor SATP_PPN_MASK SATP_ASID_MASK) SATP_MODE_MASK).
      by rewrite <-!Z.land_lor_distr_r, <-Z.land_assoc, Z.land_diag. }
    assert (is_u 64 old) as Ho.
    { unfold old, WARL_satp. case_match; [|by vm_compute]. apply testbit_is_u; [lia|]. intros i Hi.
      by rewrite Z.land_spec, (is_u_testbit 64) by (done || apply mem_read_range). }
    rewrite Hw, (uint64_id stap), Hw by done. by rewrite (satp_mode_same old stap).
Qed.

Create HintDb csr_writes.
#[export] Hint Unfold write_csr_fflags write_csr_frm write_csr_fcsr write_csr_senvcfg write_csr_sie write_csr_stvec
  write_csr_scounteren write_csr_sscratch write_csr_sepc write_csr_scause write_csr_stval write_csr_sip write_csr_menvcfg
  write_csr_medeleg write_csr_mideleg write_csr_mie write_csr_mtvec write_csr_mcounteren write_csr_mscratch write_csr_mepc
  write_csr_mcause write_csr_mtval write_csr_mip write_csr_mcycle write_csr_minstret : csr_writes.

Lemma write_csr_sstatus_keeps val : is_u 64 val -> keeps_translations (write_csr_sstatus val).
Proof.
  intros Hv m SET HS. unfold write_csr_sstatus. rewrite run_bind.
  cbv beta iota zeta delta [read_mstatus DEFINE_SA_WARL_READ read_shadow_register gets mbind mret M_bind M_ret].
  apply write_csr_mstatus_keeps; [|done].
  change (Z.lor (Z.land ?a (not64 ?mask)) (Z.land ?b ?mask)) with (merge_bits mask a b).
  apply merge_bits_range; [by vm_compute | apply legal_mem_mstatus].
Qed.

Lemma write_csr_keeps mcycle csraddr val : is_u 64 val -> keeps_translations (write_csr mcycle csraddr val).
Proof.
  intros Hv. unfold write_csr. case_match; [apply keeps_ret|]. apply keeps_read; [apply reads_register|]. intros prv.
  case_match; [apply keeps_ret|].
  repeat match goal with
  | |- keeps_translations (if ?c then ?p else _) => destruct c; [|]
  | |- keeps_translations (write_csr_satp _) => by apply write_csr_satp_keeps
  | |- keeps_translations (write_csr_mstatus _) => intros m SET HS; by apply write_csr_mstatus_keeps
  | |- keeps_translations (write_csr_sstatus _) => by apply write_csr_sstatus_keeps
  | |- keeps_translations _ => solve [autounfold with csr_writes; repeat keeps_step]
  end.
Qed.
