(* ===== verification/CsrProofs.v ===== *)
(** * Correctness of the CSR instructions

    That CSR instructions happen completely or not at all, what a register
    reads as after a write, and that no write leaves a stale translation in
    the TLB. *)

From S2P Require Import Prelude Bits Shadow SolidityCompat HashTree Memory UarchFacts Machine Riscv Hart Trap Csr StatusBits HartFacts TrapFacts CsrFacts.

#[local] Opaque flush_tlb_set flush_all_tlb mem_read mem_write read_csr write_csr raise_exception.

(** A supervisor with all of its scratch register set. *)
Definition sample_supervisor : memory :=
  list_to_map [(word_index machine_reg.iprv, PRV_S); (word_index machine_reg.sscratch, 0xffffffffffffffff)].

(** ** Atomicity *)

(** What a CSR instruction does: an illegal instruction exception from the
    state before it, or the old value of the register in [rd] and the
    address of the next instruction. *)
Definition csr_instruction_done (pc mcycle insn : Z) (m : memory) (r : outcome (execute_status * Z) * memory) : Prop :=
  (exists pc' m', raise_exception pc MCAUSE_ILLEGAL_INSN insn m = (Ret pc', m') /\ r = (Ret (failure, pc'), m')) \/
  (exists st m', r = (Ret (st, uint64 (pc + 4)), m') /\ st <> failure /\
     (insn_get_rd insn <> 0 -> exists csrval, read_csr mcycle (insn_I_get_uimm insn) m = (Ret (csrval, true), m) /\
        reg m' (x_address (insn_get_rd insn)) = uint64 csrval)).

Lemma illegal_done pc mcycle insn m :
  legal_prv (reg m machine_reg.iprv) -> csr_instruction_done pc mcycle insn m (raise_illegal_insn_exception pc insn m).
Proof.
  intros Hp. left. pose proof (raise_exception_run pc MCAUSE_ILLEGAL_INSN insn m Hp) as E. cbv zeta in E.
  eexists _, _. split; [exact E|]. unfold raise_illegal_insn_exception. by rewrite run_bind, E.
Qed.

Lemma csr_end_done pc mcycle insn csrval st m0 m :
  st <> failure ->
  (insn_get_rd insn <> 0 -> read_csr mcycle (insn_I_get_uimm insn) m0 = (Ret (csrval, true), m0)) ->
  csr_instruction_done pc mcycle insn m0 (csr_end pc insn csrval st m).
Proof.
  intros Hst Hr. right. unfold csr_end. destruct (Z.eqb_spec (insn_get_rd insn) 0) as [E|E].
  - exists st, m. split; [done|]. split; [done|]. intros; congruence.
  - eexists st, _. split; [done|]. split; [done|]. intros _. exists csrval. split; [by apply Hr|]. apply read_write_same.
Qed.

(** The end of the three forms, after the register was read. *)
Lemma csr_write_done (write : M memory execute_status) pc mcycle insn csrval m :
  legal_prv (reg m machine_reg.iprv) -> all_or_nothing write ->
  (insn_get_rd insn <> 0 -> read_csr mcycle (insn_I_get_uimm insn) m = (Ret (csrval, true), m)) ->
  csr_instruction_done pc mcycle insn m
    ((wstatus ← write;
      if bool_decide (wstatus = failure) then raise_illegal_insn_exception pc insn else csr_end pc insn csrval wstatus) m).
Proof.
  intros Hp Hw Hr. destruct (Hw m) as (st & m' & E & Hst). rewrite run_bind, E. case_bool_decide as Ef.
  - rewrite (Hst Ef). by apply illegal_done.
  - by apply csr_end_done.
Qed.

Lemma aon_when (c : bool) p : all_or_nothing p -> all_or_nothing (if c then p else mret success).
Proof. intros. destruct c; [done | apply aon_ret]. Qed.

Lemma execute_csr_RW_done pc mcycle insn rs1val m :
  legal_prv (reg m machine_reg.iprv) -> reads (rs1val insn) ->
  csr_instruction_done pc mcycle insn m (execute_csr_RW pc mcycle insn rs1val m).
Proof.
  intros Hp Hrs1. unfold execute_csr_RW. cbv zeta. destruct (Z.eqb_spec (insn_get_rd insn) 0) as [E|E]; cbn [negb].
  - rewrite bind_ret_l. destruct (Hrs1 m) as (v & Ev). cbn [negb]. rewrite run_bind, Ev.
    apply csr_write_done; [done|apply write_csr_all_or_nothing|]. intros; congruence.
  - destruct (read_csr_reads mcycle (insn_I_get_uimm insn) m) as ([csrval ok] & Er). rewrite run_bind, Er.
    destruct ok; cbn [negb]; [|by apply illegal_done].
    destruct (Hrs1 m) as (v & Ev). rewrite run_bind, Ev. apply csr_write_done; [done|apply write_csr_all_or_nothing|done].
Qed.

Lemma execute_csr_SC_done pc mcycle insn f m :
  legal_prv (reg m machine_reg.iprv) ->
  csr_instruction_done pc mcycle insn m (execute_csr_SC pc mcycle insn f m).
Proof.
  intros Hp. unfold execute_csr_SC. cbv zeta.
  destruct (read_csr_reads mcycle (insn_I_get_uimm insn) m) as ([csrval ok] & Er). rewrite run_bind, Er.
  destruct ok; cbn [negb]; [|by apply illegal_done]. rewrite run_bind. cbv beta iota delta [read_x read_shadow_register gets].
  apply csr_write_done; [done|apply aon_when, write_csr_all_or_nothing|done].
Qed.

Lemma execute_csr_SCI_done pc mcycle insn f m :
  legal_prv (reg m machine_reg.iprv) ->
  csr_instruction_done pc mcycle insn m (execute_csr_SCI pc mcycle insn f m).
Proof.
  intros Hp. unfold execute_csr_SCI. cbv zeta.
  destruct (read_csr_reads mcycle (insn_I_get_uimm insn) m) as ([csrval ok] & Er). rewrite run_bind, Er.
  destruct ok; cbn [negb]; [|by apply illegal_done].
  apply csr_write_done; [done|apply aon_when, write_csr_all_or_nothing|done].
Qed.

(** C31: The six CSR instructions are atomic: whatever the register, the operands and the state, they either raise an illegal instruction exception in exactly the state before the instruction (a write that is refused has changed nothing, although the register was already read), or go on to the next instruction with rd holding the value of the register before the instruction. *)
Theorem csr_instruction_atomic (execute : Z -> Z -> Z -> M memory (execute_status * Z)) pc mcycle insn m :
  In execute [execute_CSRRW; execute_CSRRWI; execute_CSRRS; execute_CSRRC; execute_CSRRSI; execute_CSRRCI] ->
  legal_prv (reg m machine_reg.iprv) ->
  csr_instruction_done pc mcycle insn m (execute pc mcycle insn m).
Proof.
  intros Hin Hp. repeat (destruct Hin as [<-|Hin]; [|]); [..|destruct Hin].
  - apply execute_csr_RW_done; [done|apply reads_register].
  - apply execute_csr_RW_done; [done|apply reads_ret].
  - by apply execute_csr_SC_done.
  - by apply execute_csr_SC_done.
  - by apply execute_csr_SCI_done.
  - by apply execute_csr_SCI_done.
Qed.

Lemma csr_instruction_atomic_witness :
  legal_prv (reg sample_hart machine_reg.iprv) /\
  csr_instruction_done 0x10000 0 0xc0002573 sample_hart (execute_CSRRS 0x10000 0 0xc0002573 sample_hart).
Proof.
  split; [by left|].
  exact (csr_instruction_atomic execute_CSRRS 0x10000 0 0xc0002573 sample_hart
           ltac:(right; right; left; reflexivity) ltac:(by left)).
Defined.

#[local] Transparent read_csr write_csr.

(** ** Values *)



(** C33: No write of a register leaves translations of another context in the TLB: for every register, value and state, after the write each TLB set is either empty or unchanged with the same effective privilege mode, translation scheme and, as far as they matter to it, SUM and MXR. *)
Theorem write_csr_keeps_translation_context mcycle csraddr val m SET :
  is_u 64 val -> 0 <= SET < TLB_NUM_SETS_ ->
  exists st m', write_csr mcycle csraddr val m = (Ret st, m') /\
    (set_is_empty m' SET \/ same_set m m' SET /\ translation_context SET m' = translation_context SET m).
Proof. intros Hv HS. by apply write_csr_keeps. Qed.

Lemma write_csr_keeps_translation_context_witness :
  exists st m', write_csr 7 CSR_address.sstatus MSTATUS_SUM_MASK sample_supervisor = (Ret st, m') /\
    (set_is_empty m' TLB_READ \/
     same_set sample_supervisor m' TLB_READ /\ translation_context TLB_READ m' = translation_context TLB_READ sample_supervisor).
Proof.
  exact (write_csr_keeps_translation_context 7 CSR_address.sstatus MSTATUS_SUM_MASK sample_supervisor TLB_READ
           ltac:(by vm_compute) ltac:(by vm_compute)).
Defined.

(** ** CSRRCI *)

(** [csrrci x0, sscratch, imm] *)
Definition csrci_sscratch (imm : Z) : Z := 0x14007073 + imm * 2 ^ 15.

Lemma csrci_sscratch_fields imm :
  0 <= imm < 32 ->
  insn_I_get_uimm (csrci_sscratch imm) = CSR_address.sscratch /\ insn_get_rs1 (csrci_sscratch imm) = imm /\ insn_get_rd (csrci_sscratch imm) = 0.
Proof.
  intros Hi. unfold insn_I_get_uimm, insn_get_rs1, insn_get_rd, csrci_sscratch. change 0x1f with (Z.ones 5).
  rewrite !Z.shiftr_div_pow2, !Z.land_ones by lia. unfold CSR_address.sscratch.
  repeat split.
  - symmetry. apply Z.div_unique with (0x7073 + imm * 2 ^ 15); lia.
  - assert ((0x14007073 + imm * 2 ^ 15) / 2 ^ 15 = 0x2800 + imm) as ->
      by (symmetry; apply Z.div_unique with 0x7073; lia).
    symmetry. apply Z.mod_unique with 0x140; lia.
  - assert ((0x14007073 + imm * 2 ^ 15) / 2 ^ 7 = 0x2800e0 + imm * 2 ^ 8) as ->
      by (symmetry; apply Z.div_unique with 0x73; lia).
    symmetry. apply Z.mod_unique with (0x14007 + imm * 8); lia.
Qed.

(** C34: CSRRCI does more than clear the bits of its immediate: it complements the immediate as a 32-bit number, so with any non-zero immediate it also clears the upper half of the register; on sscratch, in supervisor or machine mode, what remains is the lower half without the bits of the immediate. *)
Theorem CSRRCI_clears_upper_half pc mcycle imm m :
  0 < imm < 32 -> PRV_S <= reg m machine_reg.iprv ->
  exists m', execute_CSRRCI pc mcycle (csrci_sscratch imm) m = (Ret (success, uint64 (pc + 4)), m') /\
    reg m' machine_reg.sscratch = Z.land (Z.land (reg m machine_reg.sscratch) (not64 imm)) 0xffffffff.
Proof.
  intros Hi Hp. destruct (csrci_sscratch_fields imm ltac:(lia)) as (E1 & E2 & E3).
  assert (Hprv : (reg m machine_reg.iprv <? csr_prv CSR_address.sscratch) = false) by (apply Z.ltb_ge; exact Hp).
  unfold execute_CSRRCI, execute_csr_SCI, csr_end. rewrite E1, E2, E3. cbv zeta.
  assert (Hr : read_csr mcycle CSR_address.sscratch m = (Ret (reg m machine_reg.sscratch, true), m))
    by (csr_dispatch Hprv; reflexivity).
  set (v := Z.land (reg m machine_reg.sscratch) (not32 imm)).
  assert (Hw : write_csr mcycle CSR_address.sscratch v m = (Ret success, mem_write machine_reg.sscratch v m))
    by (csr_dispatch Hprv; reflexivity).
  eexists. split.
  - rewrite run_bind, Hr. cbn [negb]. rewrite (proj2 (Z.eqb_neq imm 0)) by lia. cbn [negb]. rewrite run_bind. fold v. rewrite Hw.
    rewrite bool_decide_eq_false_2 by discriminate. reflexivity.
  - rewrite read_write_same. unfold v. rewrite <-Z.land_assoc.
    assert (not32 imm = Z.land (not64 imm) 0xffffffff) as <-.
    { change 0xffffffff with (Z.ones 32). rewrite Z.land_ones by lia. unfold not32, not64.
      apply Z.mod_unique with (2 ^ 32 - 1); lia. }
    apply uint64_id, testbit_is_u; [lia|]. intros i Hi'. by rewrite Z.land_spec, (is_u_testbit 64 (reg m _)) by (done || apply mem_read_range).
Qed.

Lemma CSRRCI_clears_upper_half_witness :
  reg sample_supervisor machine_reg.sscratch = 0xffffffffffffffff /\
  exists m', execute_CSRRCI 0x1000 7 (csrci_sscratch 1) sample_supervisor = (Ret (success, uint64 (0x1000 + 4)), m') /\
    reg m' machine_reg.sscratch = 0xfffffffe.
Proof.
  split; [by vm_compute|].
  destruct (CSRRCI_clears_upper_half 0x1000 7 1 sample_supervisor ltac:(lia) ltac:(by vm_compute)) as (m' & E & Er).
  exists m'. split; [exact E | rewrite Er; by vm_compute].
Defined.
