(* ===== verification/PageTables.v ===== *)
(** * Page-based virtual memory as the architecture defines it

    The leaf entry that a walk of the page tables reaches, the accesses it
    allows and the physical address it gives, stated with the fields of the
    entries, against which the walk of the interpreter is proved. *)

From S2P Require Import Prelude Bits Shadow SolidityCompat HashTree Memory UarchFacts Machine MachineFacts UarchMemory Riscv Hart Trap Devices VirtualMemory StatusBits HartFacts TrapFacts.

Section page_tables.
Context (pmas : list address_range).

(** The range where a word of [size] bytes falls. *)
Definition range_of (size paddr : Z) : address_range := fst (find_pma_loop pmas find_pma_fuel size paddr 0).

(** The page table entry at an address, where there is readable memory. *)
Definition pte_at (m : memory) (a : Z) : option Z :=
  if is_memory (range_of 8 a) && is_readable (range_of 8 a) then Some (load_bytes m a 8) else None.

Definition vpn (i : nat) (va : Z) : Z := (va / 2 ^ (12 + 9 * Z.of_nat i)) mod 2 ^ 9.
Definition ppn (pte : Z) : Z := bitfield 10 44 pte.

(** Valid, with the bits that no implemented extension uses clear. *)
Definition pte_valid (pte : Z) : bool := Z.testbit pte 0 && (bitfield 54 10 pte =? 0).
Definition pte_is_pointer (pte : Z) : bool := bitfield 1 3 pte =? 0.

(** The entry [pte] at [a] is the leaf for [va] of the table of level [i] at [base]. *)
Inductive leaf_of (m : memory) (va : Z) : nat -> Z -> nat -> Z -> Z -> Prop :=
| leaf_here i base pte :
    pte_at m (base + vpn i va * 8) = Some pte -> pte_valid pte = true -> pte_is_pointer pte = false ->
    leaf_of m va i base i (base + vpn i va * 8) pte
| leaf_below i base pointer j a pte :
    pte_at m (base + vpn (S i) va * 8) = Some pointer -> pte_valid pointer = true -> pte_is_pointer pointer = true ->
    leaf_of m va i (ppn pointer * 2 ^ 12) j a pte ->
    leaf_of m va (S i) base j a pte.

Inductive access_kind := load | store | fetch.
Definition xwr_shift_of (k : access_kind) : Z :=
  match k with load => PTE_XWR_R_SHIFT | store => PTE_XWR_W_SHIFT | fetch => PTE_XWR_X_SHIFT end.

(** The access that mode [prv] may make through a leaf of level [i]. *)
Definition leaf_permits (k : access_kind) (prv status : Z) (i : nat) (pte : Z) : bool :=
  let R := Z.testbit pte 1 in let W := Z.testbit pte 2 in let X := Z.testbit pte 3 in let U := Z.testbit pte 4 in
  let SUM := Z.testbit status MSTATUS_SUM_SHIFT in let MXR := Z.testbit status MSTATUS_MXR_SHIFT in
  implb W R &&
  (if prv =? PRV_S then implb U (match k with fetch => false | _ => SUM end) else U) &&
  (match k with load => R || (MXR && X) | store => W | fetch => X end) &&
  (ppn pte mod 2 ^ (9 * Z.of_nat i) =? 0).

Definition physical_address (i : nat) (pte va : Z) : Z :=
  ppn pte * 2 ^ 12 + va mod 2 ^ (12 + 9 * Z.of_nat i).

(** The entry after the access: accessed, and dirty after a store. *)
Definition pte_used (k : access_kind) (pte : Z) : Z :=
  let pte := Z.lor pte (bit 6) in match k with store => Z.lor pte (bit 7) | _ => pte end.
Definition use_pte (k : access_kind) (a pte : Z) (m : memory) : memory :=
  if (pte =? pte_used k pte) || negb (is_memory (range_of 8 a) && is_writeable (range_of 8 a)) then m
  else store_bytes m a 8 (pte_used k pte).

(** ** The loop over the levels *)

Lemma find_pma_run size paddr m :
  find_pma pmas size paddr m = (Ret (find_pma_loop pmas find_pma_fuel size paddr 0), m).
Proof. done. Qed.

Lemma read_ram_uint64_run a m : read_ram_uint64 pmas a m = (Ret (pte_at m a), m).
Proof.
  unfold read_ram_uint64, pte_at, range_of. rewrite run_bind, find_pma_run.
  destruct (find_pma_loop _ _ _ _ _) as [ar i]. cbn [fst]. by destruct (is_memory ar), (is_readable ar).
Qed.

Lemma write_ram_uint64_run a v m :
  exists ok, write_ram_uint64 pmas a v m =
    (Ret ok, if is_memory (range_of 8 a) && is_writeable (range_of 8 a) then store_bytes m a 8 v else m).
Proof.
  unfold write_ram_uint64, range_of. rewrite run_bind, find_pma_run.
  destruct (find_pma_loop _ _ _ _ _) as [ar i]. cbn [fst].
  destruct (is_memory ar), (is_writeable ar); cbn [negb orb andb]; by eexists.
Qed.

Lemma use_pte_run k (a pte : Z) m :
  (if negb (pte =? pte_used k pte) then _ ← write_ram_uint64 pmas a (pte_used k pte); mret () else mret ()) m =
    (Ret (), use_pte k a pte m).
Proof.
  unfold use_pte. destruct (pte =? pte_used k pte); [done|]. cbn [negb andb orb].
  destruct (write_ram_uint64_run a (pte_used k pte) m) as (ok & E). rewrite run_bind, E.
  by destruct (_ && _).
Qed.

(** The masks of the code as fields. *)
Lemma vpn_code i va : Z.land (Z.shiftr va (12 + 9 * Z.of_nat i)) VPN_MASK = vpn i va.
Proof. change VPN_MASK with (Z.ones 9). by rewrite Z.land_ones, Z.shiftr_div_pow2 by lia. Qed.

Lemma pte_valid_code pte :
  pte_valid pte = negb (Z.land pte PTE_V_MASK =? 0) &&
    negb (negb (Z.land pte (Z.lor PTE_60_54_MASK (Z.lor PTE_PBMT_MASK PTE_N_MASK)) =? 0)).
Proof.
  change PTE_V_MASK with (bit 0). rewrite land_bit_test, negb_involutive by lia.
  change (Z.lor PTE_60_54_MASK (Z.lor PTE_PBMT_MASK PTE_N_MASK)) with (Z.shiftl (Z.ones 10) 54).
  by rewrite land_mask_zero by lia.
Qed.

Lemma ppn_code pte : uint64 (Z.shiftl (Z.land pte PTE_PPN_MASK) (LOG2_PAGE_SIZE - PTE_PPN_SHIFT)) = ppn pte * 2 ^ 12.
Proof.
  change PTE_PPN_MASK with (Z.shiftl (Z.ones 44) 10). change (LOG2_PAGE_SIZE - PTE_PPN_SHIFT) with 2.
  rewrite <-Z.shiftl_mul_pow2 by lia. unfold ppn, uint64. apply Z.bits_inj'. intros n Hn.
  rewrite testbit_uwrap, Z.shiftl_spec, Z.land_spec, (Z.shiftl_spec (bitfield _ _ _)) by lia.
  destruct (decide (n < 2)); [rewrite (Z.testbit_neg_r _ (n - 2)), (Z.testbit_neg_r _ (n - 12)) by lia; by rewrite andb_false_r|].
  rewrite testbit_field_mask by lia. destruct (decide (n < 12)).
  - rewrite (Z.testbit_neg_r _ (n - 12)), (bool_decide_eq_false_2 (10 <= _ < _)) by lia. by rewrite !andb_false_r.
  - rewrite testbit_bitfield by lia. replace (n - 12 + 10) with (n - 2) by lia.
    repeat case_bool_decide; try lia; by rewrite ?andb_true_r, ?andb_false_r.
Qed.

Lemma xwr_code pte : Z.land (Z.shiftr pte PTE_R_SHIFT) (Z.lor PTE_XWR_R_MASK (Z.lor PTE_XWR_W_MASK PTE_XWR_X_MASK)) = bitfield 1 3 pte.
Proof. done. Qed.

Lemma ppn_range pte : 0 <= ppn pte < 2 ^ 44.
Proof. exact (bitfield_range 10 44 pte ltac:(lia)). Qed.

Lemma vpn_range i va : 0 <= vpn i va < 2 ^ 9.
Proof. apply Z.mod_pos_bound. lia. Qed.

Lemma bitfield_3 lo x :
  0 <= lo -> bitfield lo 3 x = Z.b2z (Z.testbit x lo) + 2 * Z.b2z (Z.testbit x (lo + 1)) + 4 * Z.b2z (Z.testbit x (lo + 2)).
Proof.
  intros Hlo. rewrite <-(bitfield_2 lo x Hlo). change (2 ^ 2) with 4.
  assert (bitfield lo 3 x = bitfield lo 2 x + 2 ^ 2 * bitfield (lo + 2) 1 x) as ->.
  { rewrite !bitfield_div by lia. rewrite Z.pow_add_r, <-Z.div_div by lia.
    change (2 ^ 3) with (2 ^ 2 * 2 ^ 1). rewrite Z.rem_mul_r by lia. lia. }
  assert (bitfield (lo + 2) 1 x = Z.b2z (Z.testbit x (lo + 2))) as ->; [|lia].
  rewrite bitfield_div by lia. by rewrite <-Z.testbit_spec' by lia.
Qed.

Lemma leaf_allows_code k prv status i pte :
  prv = PRV_S \/ prv = PRV_U ->
  leaf_allows prv status pte (bitfield 1 3 pte) (xwr_shift_of k) (ppn pte * 2 ^ 12) (Z.shiftl 1 (12 + 9 * Z.of_nat i) - 1) =
    leaf_permits k prv status i pte.
Proof.
  intros Hp. unfold leaf_allows, leaf_permits.
  change PTE_U_MASK with (bit 4). change MSTATUS_SUM_MASK with (bit 18). change MSTATUS_MXR_MASK with (bit 19).
  rewrite !land_bit_test by lia. change MSTATUS_SUM_SHIFT with 18. change MSTATUS_MXR_SHIFT with 19. f_equal.
  - rewrite (bitfield_3 1 pte) by lia. change (1 + 1) with 2. change (1 + 2) with 3.
    destruct (Z.testbit pte 1), (Z.testbit pte 2), (Z.testbit pte 3), (Z.testbit pte 4), (Z.testbit status 18), (Z.testbit status 19), k;
      destruct Hp as [-> | ->]; reflexivity.
  - rewrite Z.shiftl_1_l. replace (2 ^ (12 + 9 * Z.of_nat i) - 1) with (Z.ones (12 + 9 * Z.of_nat i)) by (rewrite Z.ones_equiv; lia).
    rewrite Z.land_ones by lia. rewrite Z.add_comm, Z.pow_add_r by lia.
    rewrite Z.mul_mod_distr_r by (apply Z.pow_nonzero; lia).
    destruct (Z.eqb_spec (ppn pte mod 2 ^ (9 * Z.of_nat i)) 0) as [-> | Hne]; [done|]. apply Z.eqb_neq. lia.
Qed.

Lemma leaf_permits_aligned k prv status i pte :
  leaf_permits k prv status i pte = true -> ppn pte mod 2 ^ (9 * Z.of_nat i) = 0.
Proof. unfold leaf_permits. rewrite !andb_true_iff. intros [_ H]. by apply Z.eqb_eq. Qed.

Lemma pte_used_code k pte :
  (if xwr_shift_of k =? PTE_XWR_W_SHIFT then Z.lor (Z.lor pte PTE_A_MASK) PTE_D_MASK else Z.lor pte PTE_A_MASK) = pte_used k pte.
Proof. by destruct k. Qed.

Lemma physical_address_code i pte va :
  is_u 64 va -> (i <= 4)%nat -> ppn pte mod 2 ^ (9 * Z.of_nat i) = 0 ->
  let mask := Z.shiftl 1 (12 + 9 * Z.of_nat i) - 1 in
  Z.lor (Z.land va mask) (Z.land (ppn pte * 2 ^ 12) (not64 mask)) = physical_address i pte va.
Proof.
  intros Hva Hi Hal mask. unfold mask, physical_address. rewrite Z.shiftl_1_l.
  set (w := 12 + 9 * Z.of_nat i). replace (2 ^ w - 1) with (Z.ones w) by (rewrite Z.ones_equiv; lia).
  assert (Hp : is_u 64 (ppn pte * 2 ^ 12)) by (pose proof (ppn_range pte); unfold is_u; lia).
  rewrite Z.land_ones, land_not64_ones by (done || lia).
  assert (Hd : ppn pte * 2 ^ 12 / 2 ^ w * 2 ^ w = ppn pte * 2 ^ 12).
  { assert (ppn pte * 2 ^ 12 mod 2 ^ w = 0) as E.
    { unfold w. rewrite Z.add_comm, Z.pow_add_r, Z.mul_mod_distr_r, Hal by (lia || (apply Z.pow_nonzero; lia)). done. }
    pose proof (Z.div_mod (ppn pte * 2 ^ 12) (2 ^ w) ltac:(apply Z.pow_nonzero; lia)). lia. }
  assert (Hw : 0 <= w) by (unfold w; lia). rewrite <-Hd at 2. rewrite Hd, <-Hd at 1.
  rewrite <-(Z.shiftl_mul_pow2 _ w Hw) at 1. rewrite lor_disjoint by (by apply low_high_disjoint).
  rewrite Z.shiftl_mul_pow2 by done. lia.
Qed.

(** One round of the loop. *)
Lemma walk_step n k prv status va i base m :
  prv = PRV_S \/ prv = PRV_U -> is_u 64 va -> (i <= 4)%nat -> 0 <= base -> base + 2 ^ 12 <= 2 ^ 64 ->
  walk pmas true (S n) prv status va (xwr_shift_of k) base (12 + 9 * Z.of_nat i) m =
    match pte_at m (base + vpn i va * 8) with
    | None => (Ret None, m)
    | Some pte =>
        if pte_valid pte then
          if pte_is_pointer pte then
            walk pmas true n prv status va (xwr_shift_of k) (ppn pte * 2 ^ 12) (12 + 9 * Z.of_nat i - LOG2_VPN_SIZE) m
          else if leaf_permits k prv status i pte then
            (Ret (Some (physical_address i pte va)), use_pte k (base + vpn i va * 8) pte m)
          else (Ret None, m)
        else (Ret None, m)
    end.
Proof.
  intros Hp Hva Hi Hb1 Hb2. cbn [walk]. cbv zeta. rewrite vpn_code.
  pose proof (vpn_range i va) as Hvpn.
  assert (uint64 (base + uint64 (Z.shiftl (vpn i va) LOG2_PTE_SIZE)) = base + vpn i va * 8) as ->.
  { change LOG2_PTE_SIZE with 3. rewrite Z.shiftl_mul_pow2 by lia. unfold uint64.
    rewrite (uwrap_small 64 (vpn i va * 2 ^ 3)) by (unfold is_u; lia). apply uwrap_small. unfold is_u. lia. }
  rewrite run_bind, read_ram_uint64_run. destruct (pte_at m _) as [pte|]; [|done].
  rewrite (pte_valid_code pte), ppn_code, xwr_code. unfold pte_is_pointer.
  destruct (Z.land pte PTE_V_MASK =? 0); [done|]. cbn [negb andb].
  destruct (Z.land pte (Z.lor _ _) =? 0); cbn [negb]; [|done].
  destruct (bitfield 1 3 pte =? 0) eqn:Hx; cbn [negb]; [done|].
  rewrite leaf_allows_code by done. destruct (leaf_permits k prv status i pte) eqn:Hl; [|done].
  rewrite pte_used_code, run_bind, use_pte_run.
  by rewrite physical_address_code by (done || by eapply leaf_permits_aligned).
Qed.

(** What a walk gives: the address and the updated state for a leaf that
    permits the access, and nothing, without a change, otherwise. *)
Definition walk_result (k : access_kind) (prv status va : Z) (i : nat) (base : Z) (m : memory) (r : option Z) (m' : memory) : Prop :=
  match r with
  | Some pa => exists j a pte, leaf_of m va i base j a pte /\ leaf_permits k prv status j pte = true /\
                 pa = physical_address j pte va /\ m' = use_pte k a pte m
  | None => m' = m /\ forall j a pte, leaf_of m va i base j a pte -> leaf_permits k prv status j pte = false
  end.

Lemma walk_spec k prv status va i base m :
  prv = PRV_S \/ prv = PRV_U -> is_u 64 va -> (i <= 4)%nat -> 0 <= base -> base + 2 ^ 12 <= 2 ^ 64 ->
  exists r m', walk pmas true (S i) prv status va (xwr_shift_of k) base (12 + 9 * Z.of_nat i) m = (Ret r, m') /\
    walk_result k prv status va i base m r m'.
Proof.
  intros Hp Hva. revert base.
  induction i as [|i IH]; intros base Hi Hb1 Hb2; rewrite walk_step by done.
  all: destruct (pte_at m _) as [pte|] eqn:Hpte;
    [|exists None, m; split; [done|]; split; [done|]; intros j a pte Hl; inversion Hl; congruence].
  all: destruct (pte_valid pte) eqn:Hv;
    [|exists None, m; split; [done|]; split; [done|]; intros j a pte' Hl; inversion Hl; congruence].
  all: destruct (pte_is_pointer pte) eqn:Hptr;
    [|destruct (leaf_permits k prv status _ pte) eqn:Hperm;
      [do 2 eexists; split; [done|]; do 3 eexists; split; [by eapply leaf_here|done]
      |exists None, m; split; [done|]; split; [done|]; intros j a pte' Hl; inversion Hl; congruence]].
  - exists None, m. split; [done|]. split; [done|]. intros j a pte' Hl. inversion Hl. congruence.
  - change LOG2_VPN_SIZE with 9. replace (12 + 9 * Z.of_nat (S i) - 9) with (12 + 9 * Z.of_nat i) by lia.
    pose proof (ppn_range pte).
    destruct (IH (ppn pte * 2 ^ 12)) as (r & m' & Hw & Hr); [lia..|]. exists r, m'. split; [exact Hw|].
    destruct r as [pa|].
    + destruct Hr as (j & a & leaf & Hl & Hr). exists j, a, leaf. split; [by eapply leaf_below|done].
    + destruct Hr as [-> Hr]. split; [done|]. intros j a leaf Hl. inversion Hl; simplify_eq; [congruence|eauto].
Qed.
End page_tables.
