(* ===== verification/PageTableProofs.v ===== *)
(** * Correctness of the translation of virtual addresses

    translate_virtual_address of src/translate-virtual-address.hpp finds the
    leaf that the page tables of the architecture have for an address. *)

From S2P Require Import Prelude Bits Shadow SolidityCompat HashTree Memory UarchFacts Machine MachineFacts UarchMemory Riscv Hart Trap Devices VirtualMemory StatusBits HartFacts TrapFacts PageTables.

(** ** The scheme that satp selects *)

(** The mode of an access: that of fetches is never overridden. *)
Definition privilege_of (k : access_kind) (m : memory) : Z :=
  match k with fetch => reg m machine_reg.iprv | _ => data_privilege m end.
Definition status_of (m : memory) : Z := WARL_mstatus (reg m machine_reg.mstatus).
Definition root_table (m : memory) : Z := bitfield 0 44 (WARL_satp (reg m machine_reg.satp)) * 2 ^ 12.
(** The level of the root table under Sv39 and Sv48, none without paging. *)
Definition root_level (mode : Z) : option nat :=
  if mode =? SATP_MODE_SV39 then Some 2%nat else if mode =? SATP_MODE_SV48 then Some 3%nat else None.
(** Bits above those that the tables translate repeat the highest of them. *)
Definition canonical (i : nat) (va : Z) : bool := swrap (21 + 9 * Z.of_nat i) va =? int64 va.

Lemma satp_mode_cases m : satp_mode m = SATP_MODE_BARE \/ satp_mode m = SATP_MODE_SV39 \/ satp_mode m = SATP_MODE_SV48.
Proof.
  unfold satp_mode, WARL_satp. destruct (_ || _) eqn:E; [|by left].
  assert (Z.shiftr (Z.land (reg m machine_reg.satp) SATP_RW_MASK) SATP_MODE_SHIFT = Z.shiftr (reg m machine_reg.satp) SATP_MODE_SHIFT) as ->.
  { rewrite Z.shiftr_land. apply Z.bits_inj'. intros n Hn. rewrite Z.land_spec.
    destruct (decide (n < 4)) as [Hlt|].
    - assert (Z.testbit (Z.shiftr SATP_RW_MASK SATP_MODE_SHIFT) n = true) as ->; [|apply andb_true_r].
      change (Z.shiftr SATP_RW_MASK SATP_MODE_SHIFT) with (Z.ones 4). by rewrite Z.ones_spec_low by lia.
    - rewrite Z.shiftr_spec by lia. rewrite (is_u_testbit 64) by (apply mem_read_range || (unfold SATP_MODE_SHIFT; lia)). done. }
  apply orb_true_iff in E as [E|E]; [apply orb_true_iff in E as [E|E]|]; apply Z.eqb_eq in E; auto.
Qed.

Lemma root_table_code m :
  uint64 (Z.shiftl (Z.land (WARL_satp (reg m machine_reg.satp)) SATP_PPN_MASK) LOG2_PAGE_SIZE) = root_table m.
Proof.
  unfold root_table. set (satp := WARL_satp _). change SATP_PPN_MASK with (Z.ones 44). change LOG2_PAGE_SIZE with 12.
  pose proof (bitfield_range 0 44 satp ltac:(lia)) as H. unfold bitfield in *. rewrite Z.shiftr_0_r in *.
  rewrite Z.shiftl_mul_pow2 by lia. apply uwrap_small. unfold is_u in *. lia.
Qed.

(** Shifting the unused bits out and back in with the sign. *)
Lemma canonical_code i va :
  (i <= 3)%nat ->
  let vaddr_bits := XLEN - (LOG2_PAGE_SIZE + (Z.of_nat i + 1) * LOG2_VPN_SIZE) in
  (Z.shiftr (int64 (uint64 (Z.shiftl va vaddr_bits))) vaddr_bits =? int64 va) = canonical i va.
Proof.
  intros Hi vaddr_bits. unfold canonical. f_equal. unfold int64, uint64. rewrite swrap_uwrap by lia.
  assert (vaddr_bits = 64 - (21 + 9 * Z.of_nat i)) as -> by (unfold vaddr_bits, XLEN, LOG2_PAGE_SIZE, LOG2_VPN_SIZE; lia).
  apply Z.bits_inj'. intros n Hn. rewrite Z.shiftr_spec, !testbit_swrap by lia.
  repeat case_bool_decide; try lia; rewrite Z.shiftl_spec by lia; f_equal; lia.
Qed.

Lemma privilege_nonneg k m : 0 <= privilege_of k m.
Proof.
  pose proof (mem_read_range m machine_reg.iprv). pose proof (bitfield_range 11 2 (status_of m) ltac:(lia)).
  unfold privilege_of, data_privilege. fold (status_of m). unfold is_u in *.
  destruct k; [case_match; lia..|lia].
Qed.

Lemma privilege_code k m :
  (if negb (xwr_shift_of k =? PTE_XWR_X_SHIFT) && negb (Z.land (status_of m) MSTATUS_MPRV_MASK =? 0)
   then Z.shiftr (Z.land (status_of m) MSTATUS_MPP_MASK) MSTATUS_MPP_SHIFT else reg m machine_reg.iprv) = privilege_of k m.
Proof.
  unfold privilege_of, data_privilege. change MSTATUS_MPRV_MASK with (bit 17). rewrite land_bit_test by lia.
  change MSTATUS_MPRV_SHIFT with 17.
  destruct k; [| |done]; cbn -[WARL_mstatus mem_read Z.testbit status_of]; by rewrite <-(masked_field 11 2).
Qed.

Lemma translate_paged pmas k prv i va m :
  prv = PRV_S \/ prv = PRV_U -> is_u 64 va -> (i <= 3)%nat ->
  exists r m',
    (if negb (canonical i va) then fun m => (Ret None, m)
     else walk pmas true (S i) prv (status_of m) va (xwr_shift_of k) (root_table m) (12 + 9 * Z.of_nat i)) m = (Ret r, m') /\
    if canonical i va then walk_result pmas k prv (status_of m) va i (root_table m) m r m' else r = None /\ m' = m.
Proof.
  intros Hp Hva Hi. destruct (canonical i va); cbn [negb]; [|by eexists _, _].
  pose proof (bitfield_range 0 44 (WARL_satp (reg m machine_reg.satp)) ltac:(lia)) as H. unfold is_u in H.
  apply walk_spec; [done.. | lia | unfold root_table; lia | unfold root_table; lia].
Qed.

(** C35: Address translation, for loads, stores and fetches in every mode and state: in M-mode (the mode in MPP under MPRV, except for fetches) or without paging an address is itself; otherwise it always returns, and it gives an address exactly when the virtual address is canonical and the tables of the scheme in satp lead to a valid leaf, at any level, which permits the access (R, W and X with MXR, U with SUM, superpage alignment); the address is the page of the leaf and the offset, the accessed bit of the leaf is set, the dirty bit too by a store; when it fails nothing is written. *)
Theorem translate_virtual_address_spec pmas k va m :
  is_u 64 va ->
  let prv := privilege_of k m in
  exists (r : option Z) m', translate_virtual_address pmas true va (xwr_shift_of k) m = (Ret r, m') /\
    match (if PRV_S <? prv then None else root_level (satp_mode m)) with
    | None => r = Some va /\ m' = m
    | Some i =>
        if canonical i va then walk_result pmas k prv (status_of m) va i (root_table m) m r m'
        else r = None /\ m' = m
    end.
Proof.
  intros Hva prv. unfold translate_virtual_address. run.
  change (WARL_mstatus (reg m machine_reg.mstatus)) with (status_of m). rewrite privilege_code. fold prv.
  destruct (PRV_S <? prv) eqn:Hm; [by eexists _, _|].
  assert (Hpaged : prv = PRV_S \/ prv = PRV_U).
  { pose proof (privilege_nonneg k m) as Hn. fold prv in Hn. apply Z.ltb_ge in Hm. unfold PRV_S, PRV_U in *. lia. }
  change (Z.shiftr (WARL_satp (reg m machine_reg.satp)) SATP_MODE_SHIFT) with (satp_mode m). rewrite root_table_code.
  destruct (satp_mode_cases m) as [Em|[Em|Em]]; rewrite Em; cbn [Z.eqb Pos.eqb SATP_MODE_BARE SATP_MODE_SV39 SATP_MODE_SV48 root_level orb].
  - by eexists _, _.
  - pose proof (translate_paged pmas k prv 2 va m Hpaged Hva ltac:(lia)) as H. rewrite <-canonical_code in H |- * by lia. exact H.
  - pose proof (translate_paged pmas k prv 3 va m Hpaged Hva ltac:(lia)) as H. rewrite <-canonical_code in H |- * by lia. exact H.
Qed.

(** A hart in U-mode under Sv39, with one 4 KiB page mapped. *)
Definition sample_ram : address_range := {|
  m_description := "RAM"; m_start := 0x80000000; m_end := 0x80010000;
  m_flags := {| flag_M := true; flag_IO := false; flag_R := true; flag_W := true; flag_X := true;
                flag_IR := true; flag_IW := true; flag_DID := PMA_ISTART_DID.memory |};
  has_host_memory := true; is_host_read_only := false |}.
Definition sample_paged_hart : memory :=
  list_to_map
    [(word_index machine_reg.iprv, PRV_U); (word_index machine_reg.mstatus, 0xaa);
     (word_index machine_reg.satp, Z.lor (Z.shiftl SATP_MODE_SV39 60) 0x80000);
     (word_index 0x80000008, 0x20000401); (word_index 0x80001000, 0x20000801); (word_index 0x80002018, 0x20001017)].

Lemma translate_virtual_address_spec_witness :
  exists m', translate_virtual_address [sample_ram] true 0x40003008 (xwr_shift_of store) sample_paged_hart = (Ret (Some 0x80004008), m') /\
    load_bytes m' 0x80002018 8 = 0x200010d7 /\
    exists j a pte, leaf_of [sample_ram] sample_paged_hart 0x40003008 2 (root_table sample_paged_hart) j a pte /\
      leaf_permits store PRV_U (status_of sample_paged_hart) j pte = true /\ m' = use_pte [sample_ram] store a pte sample_paged_hart.
Proof.
  destruct (translate_virtual_address_spec [sample_ram] store 0x40003008 sample_paged_hart) as (r & m' & E & H); [by vm_compute|].
  assert (Er : fst (translate_virtual_address [sample_ram] true 0x40003008 (xwr_shift_of store) sample_paged_hart) = Ret (Some 0x80004008))
    by (vm_compute; reflexivity).
  assert (Em : load_bytes (snd (translate_virtual_address [sample_ram] true 0x40003008 (xwr_shift_of store) sample_paged_hart))
    0x80002018 8 = 0x200010d7) by (vm_compute; reflexivity).
  rewrite E in Er, Em. cbn [fst snd] in Er, Em. injection Er as ->.
  exists m'. split; [exact E|]. split; [exact Em|].
  assert (Hi : (if PRV_S <? privilege_of store sample_paged_hart then None else root_level (satp_mode sample_paged_hart)) = Some 2%nat)
    by (vm_compute; reflexivity).
  assert (Hc : canonical 2 0x40003008 = true) by (vm_compute; reflexivity).
  assert (Hp : privilege_of store sample_paged_hart = PRV_U) by (vm_compute; reflexivity).
  cbv zeta in H. rewrite Hi, Hc, Hp in H. destruct H as (j & a & pte & Hl & Hperm & _ & Hm). exact (ex_intro _ j (ex_intro _ a (ex_intro _ pte (conj Hl (conj Hperm Hm))))).
Defined.
