(* ===== verification/Decode.v ===== *)
(** * Fields of instructions (src/interpret.cpp)

    The immediates and register fields of 32-bit and compressed
    instructions, with the shifts and masks of the code.  An instruction is
    an unsigned 32-bit value; the upper half of a compressed one is whatever
    follows it in memory. *)

From S2P Require Import Prelude Bits Memory Riscv Hart Trap Csr.

(** ** 32-bit instructions *)

Definition insn_get_id (insn : Z) : Z := Z.land insn 0xffff.
Definition insn_get_funct3 (insn : Z) : Z := Z.land (Z.shiftr insn 12) 7.
Definition insn_get_funct3_000000000000 (insn : Z) : Z := Z.land insn 0x7000.
Definition insn_get_funct2_0000000000000000000000000 (insn : Z) : Z := Z.land insn 0x6000000.
Definition insn_I_get_imm (insn : Z) : Z := Z.shiftr (int32 insn) 20.
Definition insn_U_get_imm (insn : Z) : Z := int32 (Z.land insn 0xfffff000).
Definition insn_B_get_imm (insn : Z) : Z :=
  int32 (Z.lor (uint32 (Z.shiftl (uint32 (Z.shiftr (int32 insn) 31)) 12))
          (Z.lor (Z.shiftl (Z.shiftr (uint32 (Z.shiftl insn 1)) 26) 5)
            (Z.lor (Z.shiftl (Z.shiftr (uint32 (Z.shiftl insn 20)) 28) 1)
              (Z.shiftl (Z.shiftr (uint32 (Z.shiftl insn 24)) 31) 11)))).
Definition insn_J_get_imm (insn : Z) : Z :=
  int32 (Z.lor (uint32 (Z.shiftl (uint32 (Z.shiftr (int32 insn) 31)) 20))
          (Z.lor (Z.shiftl (Z.shiftr (uint32 (Z.shiftl insn 1)) 22) 1)
            (Z.lor (Z.shiftl (Z.shiftr (uint32 (Z.shiftl insn 11)) 31) 11)
              (Z.shiftl (Z.shiftr (uint32 (Z.shiftl insn 12)) 24) 12)))).
Definition insn_S_get_imm (insn : Z) : Z :=
  Z.lor (Z.shiftr (int32 (Z.land insn 0xfe000000)) (25 - 5)) (int32 (Z.land (Z.shiftr insn 7) 0x1f)).
Definition insn_get_funct7_sr2 (insn : Z) : Z := Z.shiftr insn 27.
Definition insn_get_funct7_sr1 (insn : Z) : Z := Z.shiftr insn 26.
Definition insn_get_funct7 (insn : Z) : Z := Z.shiftr insn 25.
Definition insn_get_funct7_rs2 (insn : Z) : Z := Z.shiftr insn 20.
Definition insn_get_rs3 (insn : Z) : Z := Z.shiftr insn 27.

(** Rounding modes. *)
Definition FRM_RNE : Z := 0.
Definition FRM_RTZ : Z := 1.
Definition FRM_RDN : Z := 2.
Definition FRM_RUP : Z := 3.
Definition FRM_RMM : Z := 4.
Definition FRM_DYN : Z := 7.

Definition insn_get_rm (insn fcsr : Z) : Z :=
  let rm := insn_get_funct3 insn in
  if rm =? FRM_DYN then Z.shiftr fcsr FCSR_FRM_SHIFT else rm.

(** ** Compressed instructions *)

Definition insn_get_CIW_CL_rd_CS_CA_rs2 (insn : Z) : Z := Z.lor (Z.land (Z.shiftr insn 2) 7) 8.
Definition insn_get_CL_CS_CA_CB_rs1 (insn : Z) : Z := Z.lor (Z.land (Z.shiftr insn 7) 7) 8.
Definition insn_get_CR_CSS_rs2 (insn : Z) : Z := Z.land (Z.shiftr insn 2) 0x1f.

Definition insn_get_C_J_imm (insn : Z) : Z :=
  int32 (lor_list
    [Z.land (uint32 (Z.shiftr (int32 (uint32 (Z.shiftl insn 19))) 20)) (not32 0x7ff);
     Z.land (Z.shiftr insn (11 - 4)) 0x10;
     Z.land (Z.shiftr insn (9 - 8)) 0x300;
     Z.land (uint32 (Z.shiftl insn (10 - 8))) 0x400;
     Z.land (Z.shiftr insn (7 - 6)) 0x40;
     Z.land (uint32 (Z.shiftl insn (7 - 6))) 0x80;
     Z.land (Z.shiftr insn (3 - 1)) 0xe;
     Z.land (uint32 (Z.shiftl insn (5 - 2))) 0x20]).
Definition insn_get_C_BEQZ_BNEZ_imm (insn : Z) : Z :=
  int32 (lor_list
    [Z.land (uint32 (Z.shiftr (int32 (uint32 (Z.shiftl insn 19))) 23)) (not32 0xff);
     Z.land (Z.shiftr insn 7) 0x18;
     Z.land (uint32 (Z.shiftl insn 1)) 0xc0;
     Z.land (Z.shiftr insn 2) 0x6;
     Z.land (uint32 (Z.shiftl insn 3)) 0x20]).
Definition insn_get_CL_CS_imm (insn : Z) : Z :=
  int32 (Z.lor (Z.land (Z.shiftr insn (10 - 3)) 0x38) (Z.land (uint32 (Z.shiftl insn (6 - 5))) 0xc0)).
Definition insn_get_CI_CB_imm (insn : Z) : Z :=
  Z.lor (Z.land (Z.shiftr insn (12 - 5)) 0x20) (Z.land (Z.shiftr insn 2) 0x1f).
Definition insn_get_CI_CB_imm_se (insn : Z) : Z :=
  int32 (Z.lor (Z.land (uint32 (Z.shiftr (int32 (uint32 (Z.shiftl insn 19))) 26)) (not32 0x1f))
               (Z.land (Z.shiftr insn 2) 0x1f)).
Definition insn_get_C_LW_C_SW_imm (insn : Z) : Z :=
  int32 (Z.lor (Z.lor (Z.land (Z.shiftr insn (10 - 3)) 0x38) (Z.land (Z.shiftr insn (6 - 2)) 0x4))
               (Z.land (uint32 (Z.shiftl insn (6 - 5))) 0x40)).
Definition insn_get_C_LS_B_uimm (insn : Z) : Z :=
  Z.lor (Z.land (Z.shiftr insn 6) 1) (Z.land (Z.shiftr insn 4) 2).
Definition insn_get_C_LS_H_uimm (insn : Z) : Z := Z.land (Z.shiftr insn 4) 2.
Definition insn_get_CIW_imm (insn : Z) : Z :=
  Z.lor (Z.lor (Z.lor (Z.land (Z.shiftr insn (11 - 4)) 0x30) (Z.land (Z.shiftr insn (7 - 6)) 0x3c0))
    (Z.land (Z.shiftr insn (6 - 2)) 0x4)) (Z.land (Z.shiftr insn (5 - 3)) 0x8).
Definition insn_get_C_ADDI16SP_imm (insn : Z) : Z :=
  int32 (lor_list
    [Z.land (uint32 (Z.shiftr (int32 (uint32 (Z.shiftl insn 19))) 22)) (not32 0x1ff);
     Z.land (Z.shiftr insn 2) 0x10;
     Z.land (uint32 (Z.shiftl insn 1)) 0x40;
     Z.land (uint32 (Z.shiftl insn 4)) 0x180;
     Z.land (uint32 (Z.shiftl insn 3)) 0x20]).
Definition insn_get_C_LUI_imm (insn : Z) : Z :=
  int32 (Z.lor (Z.land (uint32 (Z.shiftr (int32 (uint32 (Z.shiftl insn 19))) 14)) (not32 0x1ffff))
               (Z.land (uint32 (Z.shiftl insn 10)) 0x1f000)).
Definition insn_get_C_FLDSP_LDSP_imm (insn : Z) : Z :=
  int32 (Z.lor (Z.lor (Z.land (Z.shiftr insn (12 - 5)) 0x20) (Z.land (uint32 (Z.shiftl insn (6 - 2))) 0x1c0))
               (Z.land (Z.shiftr insn (5 - 3)) 0x18)).
Definition insn_get_C_LWSP_imm (insn : Z) : Z :=
  int32 (Z.lor (Z.lor (Z.land (Z.shiftr insn (12 - 5)) 0x20) (Z.land (uint32 (Z.shiftl insn (6 - 2))) 0xc0))
               (Z.land (Z.shiftr insn (4 - 2)) 0x1c)).
Definition insn_get_C_FSDSP_SDSP_imm (insn : Z) : Z :=
  int32 (Z.lor (Z.land (Z.shiftr insn (10 - 3)) 0x38) (Z.land (Z.shiftr insn (7 - 6)) 0x1c0)).
Definition insn_get_C_SWSP_imm (insn : Z) : Z :=
  int32 (Z.lor (Z.land (Z.shiftr insn (9 - 2)) 0x3c) (Z.land (Z.shiftr insn (7 - 6)) 0xc0)).
