(* ===== verification/Execute.v ===== *)
(** * Integer instructions of the interpreter (src/interpret.cpp)

    One definition per [execute_*] function for RV64IMA: arithmetic, loads
    and stores, branches and jumps, atomics, and the functions that tell
    apart the instructions of one entry of the jump table.  A function takes
    [pc] and returns the status and the new [pc], which the code keeps in a
    reference.  [rd_x0] is the specialisation for a destination [x0], which
    is never written; the soft yield of SRAIW is only in interactive state
    accesses. *)

From S2P Require Import Prelude Bits Shadow SolidityCompat HashTree Memory Machine MachineFacts UarchMemory Riscv Hart Trap Csr Devices VirtualMemory Decode.

Inductive rd_kind := rd_x0 | rd_xN.

Definition result : Type := M memory (execute_status * Z).

Definition execute_jump (pc new_pc : Z) : result := mret (success, new_pc).

(** ** Arithmetic *)

Definition execute_arithmetic (pc insn : Z) (f : Z -> Z -> Z) : result :=
  let rd := insn_get_rd insn in
  rs1 ← read_x (insn_get_rs1 insn);
  rs2 ← read_x (insn_get_rs2 insn);
  write_x rd (f rs1 rs2) ;;
  advance_to_next_insn pc success.

(** The specialisation on the destination. *)
Definition unless_x0 (k : rd_kind) (pc : Z) (body : result) : result :=
  match k with rd_x0 => advance_to_next_insn pc success | rd_xN => body end.

Definition execute_ADDW (k : rd_kind) (pc insn : Z) : result :=
  unless_x0 k pc (execute_arithmetic pc insn (fun rs1 rs2 =>
    let rs1w := int32 rs1 in let rs2w := int32 rs2 in
    uint64 (int32 (rs1w + rs2w)))).
Definition execute_SUBW (k : rd_kind) (pc insn : Z) : result :=
  unless_x0 k pc (execute_arithmetic pc insn (fun rs1 rs2 =>
    let rs1w := int32 rs1 in let rs2w := int32 rs2 in
    uint64 (int32 (rs1w - rs2w)))).
Definition execute_SLLW (k : rd_kind) (pc insn : Z) : result :=
  if negb (Z.land insn 0xfe00707f =? 0x103b) then raise_illegal_insn_exception pc insn else
  unless_x0 k pc (execute_arithmetic pc insn (fun rs1 rs2 =>
    let rs1w := int32 (uint32 (Z.shiftl (uint32 rs1) (Z.land rs2 31))) in
    uint64 rs1w)).
Definition execute_SRLW (k : rd_kind) (pc insn : Z) : result :=
  unless_x0 k pc (execute_arithmetic pc insn (fun rs1 rs2 =>
    let rs1w := int32 (Z.shiftr (uint32 rs1) (Z.land rs2 31)) in
    uint64 rs1w)).
Definition execute_SRAW (k : rd_kind) (pc insn : Z) : result :=
  unless_x0 k pc (execute_arithmetic pc insn (fun rs1 rs2 =>
    let rs1w := Z.shiftr (int32 rs1) (Z.land rs2 31) in
    uint64 rs1w)).
Definition execute_MULW (k : rd_kind) (pc insn : Z) : result :=
  unless_x0 k pc (execute_arithmetic pc insn (fun rs1 rs2 =>
    let rs1w := int32 rs1 in let rs2w := int32 rs2 in
    uint64 (int32 (rs1w * rs2w)))).
Definition execute_DIVW (k : rd_kind) (pc insn : Z) : result :=
  if negb (Z.land insn 0xfe00707f =? 0x200403b) then raise_illegal_insn_exception pc insn else
  unless_x0 k pc (execute_arithmetic pc insn (fun rs1 rs2 =>
    let rs1w := int32 rs1 in let rs2w := int32 rs2 in
    if rs2w =? 0 then uint64 (-1)
    else if (rs2w =? -1) && (rs1w =? int32 (Z.shiftl 1 (32 - 1))) then uint64 rs1w
    else uint64 (Z.quot rs1w rs2w))).
Definition execute_DIVUW (k : rd_kind) (pc insn : Z) : result :=
  unless_x0 k pc (execute_arithmetic pc insn (fun rs1 rs2 =>
    let rs1w := uint32 rs1 in let rs2w := uint32 rs2 in
    if rs2w =? 0 then uint64 (-1) else uint64 (int32 (rs1w / rs2w)))).
Definition execute_REMW (k : rd_kind) (pc insn : Z) : result :=
  if negb (Z.land insn 0xfe00707f =? 0x200603b) then raise_illegal_insn_exception pc insn else
  unless_x0 k pc (execute_arithmetic pc insn (fun rs1 rs2 =>
    let rs1w := int32 rs1 in let rs2w := int32 rs2 in
    if rs2w =? 0 then uint64 rs1w
    else if (rs2w =? -1) && (rs1w =? int32 (Z.shiftl 1 (32 - 1))) then 0
    else uint64 (Z.rem rs1w rs2w))).
Definition execute_REMUW (k : rd_kind) (pc insn : Z) : result :=
  if negb (Z.land insn 0xfe00707f =? 0x200703b) then raise_illegal_insn_exception pc insn else
  unless_x0 k pc (execute_arithmetic pc insn (fun rs1 rs2 =>
    let rs1w := uint32 rs1 in let rs2w := uint32 rs2 in
    if rs2w =? 0 then uint64 (int32 rs1w) else uint64 (int32 (rs1w mod rs2w)))).
Definition execute_ADD (k : rd_kind) (pc insn : Z) : result :=
  unless_x0 k pc (execute_arithmetic pc insn (fun rs1 rs2 =>
    uint64 (rs1 + rs2))).
Definition execute_SUB (k : rd_kind) (pc insn : Z) : result :=
  unless_x0 k pc (execute_arithmetic pc insn (fun rs1 rs2 =>
    uint64 (rs1 - rs2))).
Definition execute_SLL (k : rd_kind) (pc insn : Z) : result :=
  unless_x0 k pc (execute_arithmetic pc insn (fun rs1 rs2 =>
    uint64 (Z.shiftl rs1 (Z.land rs2 (XLEN - 1))))).
Definition execute_SLT (k : rd_kind) (pc insn : Z) : result :=
  unless_x0 k pc (execute_arithmetic pc insn (fun rs1 rs2 =>
    b2u (int64 rs1 <? int64 rs2))).
Definition execute_SLTU (k : rd_kind) (pc insn : Z) : result :=
  unless_x0 k pc (execute_arithmetic pc insn (fun rs1 rs2 =>
    b2u (rs1 <? rs2))).
Definition execute_XOR (k : rd_kind) (pc insn : Z) : result :=
  unless_x0 k pc (execute_arithmetic pc insn (fun rs1 rs2 =>
    Z.lxor rs1 rs2)).
Definition execute_SRL (k : rd_kind) (pc insn : Z) : result :=
  unless_x0 k pc (execute_arithmetic pc insn (fun rs1 rs2 =>
    Z.shiftr rs1 (Z.land rs2 (XLEN - 1)))).
Definition execute_SRA (k : rd_kind) (pc insn : Z) : result :=
  unless_x0 k pc (execute_arithmetic pc insn (fun rs1 rs2 =>
    uint64 (Z.shiftr (int64 rs1) (Z.land rs2 (XLEN - 1))))).
Definition execute_OR (k : rd_kind) (pc insn : Z) : result :=
  unless_x0 k pc (execute_arithmetic pc insn (fun rs1 rs2 =>
    Z.lor rs1 rs2)).
Definition execute_AND (k : rd_kind) (pc insn : Z) : result :=
  unless_x0 k pc (execute_arithmetic pc insn (fun rs1 rs2 =>
    Z.land rs1 rs2)).
Definition execute_MUL (k : rd_kind) (pc insn : Z) : result :=
  unless_x0 k pc (execute_arithmetic pc insn (fun rs1 rs2 =>
    let srs1 := int64 rs1 in let srs2 := int64 rs2 in
    uint64 (int64 (srs1 * srs2)))).
Definition execute_MULH (k : rd_kind) (pc insn : Z) : result :=
  unless_x0 k pc (execute_arithmetic pc insn (fun rs1 rs2 =>
    let srs1 := int64 rs1 in let srs2 := int64 rs2 in
    uint64 (int64 (Z.shiftr (swrap 128 (srs1 * srs2)) 64)))).
Definition execute_MULHSU (k : rd_kind) (pc insn : Z) : result :=
  unless_x0 k pc (execute_arithmetic pc insn (fun rs1 rs2 =>
    let srs1 := int64 rs1 in
    uint64 (int64 (Z.shiftr (swrap 128 (srs1 * rs2)) 64)))).
Definition execute_MULHU (k : rd_kind) (pc insn : Z) : result :=
  unless_x0 k pc (execute_arithmetic pc insn (fun rs1 rs2 =>
    uint64 (Z.shiftr (uwrap 128 (rs1 * rs2)) 64))).
Definition execute_DIV (k : rd_kind) (pc insn : Z) : result :=
  unless_x0 k pc (execute_arithmetic pc insn (fun rs1 rs2 =>
    let srs1 := int64 rs1 in let srs2 := int64 rs2 in
    if srs2 =? 0 then uint64 (-1)
    else if (srs2 =? -1) && (srs1 =? int64 (Z.shiftl 1 (XLEN - 1))) then uint64 srs1
    else uint64 (Z.quot srs1 srs2))).
Definition execute_DIVU (k : rd_kind) (pc insn : Z) : result :=
  unless_x0 k pc (execute_arithmetic pc insn (fun rs1 rs2 =>
    if rs2 =? 0 then uint64 (-1) else rs1 / rs2)).
Definition execute_REM (k : rd_kind) (pc insn : Z) : result :=
  unless_x0 k pc (execute_arithmetic pc insn (fun rs1 rs2 =>
    let srs1 := int64 rs1 in let srs2 := int64 rs2 in
    if srs2 =? 0 then uint64 srs1
    else if (srs2 =? -1) && (srs1 =? int64 (Z.shiftl 1 (XLEN - 1))) then 0
    else uint64 (Z.rem srs1 srs2))).
Definition execute_REMU (k : rd_kind) (pc insn : Z) : result :=
  unless_x0 k pc (execute_arithmetic pc insn (fun rs1 rs2 =>
    if rs2 =? 0 then rs1 else rs1 mod rs2)).

Definition execute_arithmetic_immediate (pc insn : Z) (f : Z -> Z -> Z) : result :=
  let rd := insn_get_rd insn in
  rs1 ← read_x (insn_get_rs1 insn);
  let imm := insn_I_get_imm insn in
  write_x rd (f rs1 imm) ;;
  advance_to_next_insn pc success.

Definition execute_SRLI (k : rd_kind) (pc insn : Z) : result :=
  unless_x0 k pc (execute_arithmetic_immediate pc insn (fun rs1 imm =>
    Z.shiftr rs1 (Z.land imm (XLEN - 1)))).
Definition execute_SRAI (k : rd_kind) (pc insn : Z) : result :=
  unless_x0 k pc (execute_arithmetic_immediate pc insn (fun rs1 imm =>
    uint64 (Z.shiftr (int64 rs1) (Z.land imm (XLEN - 1))))).
Definition execute_ADDI (k : rd_kind) (pc insn : Z) : result :=
  unless_x0 k pc (execute_arithmetic_immediate pc insn (fun rs1 imm =>
    uint64 (int64 (int64 rs1 + imm)))).
Definition execute_SLTI (k : rd_kind) (pc insn : Z) : result :=
  unless_x0 k pc (execute_arithmetic_immediate pc insn (fun rs1 imm =>
    b2u (int64 rs1 <? imm))).
Definition execute_SLTIU (k : rd_kind) (pc insn : Z) : result :=
  unless_x0 k pc (execute_arithmetic_immediate pc insn (fun rs1 imm =>
    b2u (rs1 <? uint64 imm))).
Definition execute_XORI (k : rd_kind) (pc insn : Z) : result :=
  unless_x0 k pc (execute_arithmetic_immediate pc insn (fun rs1 imm =>
    Z.lxor rs1 (uint64 imm))).
Definition execute_ORI (k : rd_kind) (pc insn : Z) : result :=
  unless_x0 k pc (execute_arithmetic_immediate pc insn (fun rs1 imm =>
    Z.lor rs1 (uint64 imm))).
Definition execute_ANDI (k : rd_kind) (pc insn : Z) : result :=
  unless_x0 k pc (execute_arithmetic_immediate pc insn (fun rs1 imm =>
    Z.land rs1 (uint64 imm))).
Definition execute_SLLI (k : rd_kind) (pc insn : Z) : result :=
  if negb (Z.land insn (Z.shiftl 0x3f 26) =? 0) then raise_illegal_insn_exception pc insn else
  unless_x0 k pc (execute_arithmetic_immediate pc insn (fun rs1 imm =>
    uint64 (Z.shiftl rs1 (Z.land imm 0x3f)))).
Definition execute_ADDIW (k : rd_kind) (pc insn : Z) : result :=
  unless_x0 k pc (execute_arithmetic_immediate pc insn (fun rs1 imm =>
    uint64 (int32 (int32 rs1 + imm)))).
Definition execute_SLLIW (k : rd_kind) (pc insn : Z) : result :=
  if negb (insn_get_funct7 insn =? 0) then raise_illegal_insn_exception pc insn else
  unless_x0 k pc (execute_arithmetic_immediate pc insn (fun rs1 imm =>
    let rs1w := int32 (uint32 (Z.shiftl (uint32 rs1) (Z.land imm 0x1f))) in
    uint64 rs1w)).
Definition execute_SRLIW (k : rd_kind) (pc insn : Z) : result :=
  unless_x0 k pc (execute_arithmetic_immediate pc insn (fun rs1 imm =>
    let rs1w := int32 (Z.shiftr (uint32 rs1) (Z.land imm 0x1f)) in
    uint64 rs1w)).
Definition execute_SRAIW (k : rd_kind) (pc insn : Z) : result :=
  unless_x0 k pc (execute_arithmetic_immediate pc insn (fun rs1 imm =>
    let rs1w := Z.shiftr (int32 rs1) (Z.land imm 0x1f) in
    uint64 rs1w)).

(** ** Branches and jumps *)

Definition execute_branch (pc insn : Z) (f : Z -> Z -> bool) : result :=
  rs1 ← read_x (insn_get_rs1 insn);
  rs2 ← read_x (insn_get_rs2 insn);
  if f rs1 rs2 then
    let new_pc := uint64 (pc + insn_B_get_imm insn) in
    execute_jump pc new_pc
  else advance_to_next_insn pc success.

Definition execute_BEQ (pc insn : Z) : result := execute_branch pc insn (fun rs1 rs2 => rs1 =? rs2).
Definition execute_BNE (pc insn : Z) : result := execute_branch pc insn (fun rs1 rs2 => negb (rs1 =? rs2)).
Definition execute_BLT (pc insn : Z) : result := execute_branch pc insn (fun rs1 rs2 => int64 rs1 <? int64 rs2).
Definition execute_BGE (pc insn : Z) : result := execute_branch pc insn (fun rs1 rs2 => int64 rs2 <=? int64 rs1).
Definition execute_BLTU (pc insn : Z) : result := execute_branch pc insn (fun rs1 rs2 => rs1 <? rs2).
Definition execute_BGEU (pc insn : Z) : result := execute_branch pc insn (fun rs1 rs2 => rs2 <=? rs1).

Definition execute_LUI (k : rd_kind) (pc insn : Z) : result :=
  unless_x0 k pc
    (let rd := insn_get_rd insn in
     write_x rd (uint64 (insn_U_get_imm insn)) ;;
     advance_to_next_insn pc success).
Definition execute_AUIPC (k : rd_kind) (pc insn : Z) : result :=
  unless_x0 k pc
    (let rd := insn_get_rd insn in
     write_x rd (uint64 (pc + insn_U_get_imm insn)) ;;
     advance_to_next_insn pc success).
Definition execute_JAL (k : rd_kind) (pc insn : Z) : result :=
  let new_pc := uint64 (pc + insn_J_get_imm insn) in
  match k with
  | rd_x0 => execute_jump pc new_pc
  | rd_xN =>
      let rd := insn_get_rd insn in
      write_x rd (uint64 (pc + 4)) ;;
      execute_jump pc new_pc
  end.
Definition execute_JALR (k : rd_kind) (pc insn : Z) : result :=
  let val := uint64 (pc + 4) in
  rs1 ← read_x (insn_get_rs1 insn);
  let new_pc := Z.land (uint64 (rs1 + insn_I_get_imm insn)) (not64 1) in
  let rd := insn_get_rd insn in
  match k with
  | rd_xN => write_x rd val ;; execute_jump pc new_pc
  | rd_x0 => execute_jump pc new_pc
  end.

Definition execute_FENCE (pc insn : Z) : result := advance_to_next_insn pc success.
Definition execute_FENCE_I (pc insn : Z) : result := advance_to_next_insn pc success.

(** ** Instructions that share an entry of the jump table *)

Definition execute_SRLI_SRAI (k : rd_kind) (pc insn : Z) : result :=
  let funct7_sr1 := insn_get_funct7_sr1 insn in
  if funct7_sr1 =? 0 then execute_SRLI k pc insn else
  if funct7_sr1 =? 0x10 then execute_SRAI k pc insn else
  raise_illegal_insn_exception pc insn.
Definition execute_SRLIW_SRAIW (k : rd_kind) (pc insn : Z) : result :=
  let funct7 := insn_get_funct7 insn in
  if funct7 =? 0 then execute_SRLIW k pc insn else
  if funct7 =? 0x20 then execute_SRAIW k pc insn else
  raise_illegal_insn_exception pc insn.
Definition execute_ADD_MUL_SUB (k : rd_kind) (pc insn : Z) : result :=
  let funct7 := insn_get_funct7 insn in
  if funct7 =? 0 then execute_ADD k pc insn else
  if funct7 =? 1 then execute_MUL k pc insn else
  if funct7 =? 0x20 then execute_SUB k pc insn else
  raise_illegal_insn_exception pc insn.
Definition execute_SLL_MULH (k : rd_kind) (pc insn : Z) : result :=
  let funct7 := insn_get_funct7 insn in
  if funct7 =? 0 then execute_SLL k pc insn else
  if funct7 =? 1 then execute_MULH k pc insn else
  raise_illegal_insn_exception pc insn.
Definition execute_SLT_MULHSU (k : rd_kind) (pc insn : Z) : result :=
  let funct7 := insn_get_funct7 insn in
  if funct7 =? 0 then execute_SLT k pc insn else
  if funct7 =? 1 then execute_MULHSU k pc insn else
  raise_illegal_insn_exception pc insn.
Definition execute_SLTU_MULHU (k : rd_kind) (pc insn : Z) : result :=
  let funct7 := insn_get_funct7 insn in
  if funct7 =? 0 then execute_SLTU k pc insn else
  if funct7 =? 1 then execute_MULHU k pc insn else
  raise_illegal_insn_exception pc insn.
Definition execute_XOR_DIV (k : rd_kind) (pc insn : Z) : result :=
  let funct7 := insn_get_funct7 insn in
  if funct7 =? 0 then execute_XOR k pc insn else
  if funct7 =? 1 then execute_DIV k pc insn else
  raise_illegal_insn_exception pc insn.
Definition execute_SRL_DIVU_SRA (k : rd_kind) (pc insn : Z) : result :=
  let funct7 := insn_get_funct7 insn in
  if funct7 =? 0 then execute_SRL k pc insn else
  if funct7 =? 0x20 then execute_SRA k pc insn else
  if funct7 =? 1 then execute_DIVU k pc insn else
  raise_illegal_insn_exception pc insn.
Definition execute_OR_REM (k : rd_kind) (pc insn : Z) : result :=
  let funct7 := insn_get_funct7 insn in
  if funct7 =? 0 then execute_OR k pc insn else
  if funct7 =? 1 then execute_REM k pc insn else
  raise_illegal_insn_exception pc insn.
Definition execute_AND_REMU (k : rd_kind) (pc insn : Z) : result :=
  let funct7 := insn_get_funct7 insn in
  if funct7 =? 0 then execute_AND k pc insn else
  if funct7 =? 1 then execute_REMU k pc insn else
  raise_illegal_insn_exception pc insn.
Definition execute_ADDW_MULW_SUBW (k : rd_kind) (pc insn : Z) : result :=
  let funct7 := insn_get_funct7 insn in
  if funct7 =? 0 then execute_ADDW k pc insn else
  if funct7 =? 1 then execute_MULW k pc insn else
  if funct7 =? 0x20 then execute_SUBW k pc insn else
  raise_illegal_insn_exception pc insn.
Definition execute_SRLW_DIVUW_SRAW (k : rd_kind) (pc insn : Z) : result :=
  let funct7 := insn_get_funct7 insn in
  if funct7 =? 0 then execute_SRLW k pc insn else
  if funct7 =? 1 then execute_DIVUW k pc insn else
  if funct7 =? 0x20 then execute_SRAW k pc insn else
  raise_illegal_insn_exception pc insn.

(** ** Loads, stores and atomics *)

(** The value of [T] as a 64-bit register. *)
Definition extend_load (is_signed : bool) (log2_size val : Z) : Z :=
  if is_signed then uint64 (swrap (8 * Z.shiftl 1 log2_size) val) else val.

Section memory_instructions.
Context (pmas : list address_range) (EVENT_DRIVEN_INTERPRETER_DEADLINES : bool).
#[local] Abbreviation read_virtual_memory := (read_virtual_memory pmas).
#[local] Abbreviation write_virtual_memory := (write_virtual_memory pmas EVENT_DRIVEN_INTERPRETER_DEADLINES).

Definition execute_S (log2_size pc mcycle insn : Z) : result :=
  vaddr ← read_x (insn_get_rs1 insn);
  let imm := insn_S_get_imm insn in
  val ← read_x (insn_get_rs2 insn);
  '(status, pc) ← write_virtual_memory log2_size pc mcycle (uint64 (vaddr + imm)) val;
  if negb (bool_decide (status = success)) then
    if bool_decide (status = failure) then advance_to_raised_exception pc
    else advance_to_next_insn pc status
  else advance_to_next_insn pc success.
Definition execute_SB (pc mcycle insn : Z) : result := execute_S 0 pc mcycle insn.
Definition execute_SH (pc mcycle insn : Z) : result := execute_S 1 pc mcycle insn.
Definition execute_SW (pc mcycle insn : Z) : result := execute_S 2 pc mcycle insn.
Definition execute_SD (pc mcycle insn : Z) : result := execute_S 3 pc mcycle insn.

Definition execute_L (is_signed : bool) (log2_size : Z) (k : rd_kind) (pc mcycle insn : Z) : result :=
  vaddr ← read_x (insn_get_rs1 insn);
  let imm := insn_I_get_imm insn in
  '(val, pc) ← read_virtual_memory false log2_size pc mcycle (uint64 (vaddr + imm));
  match val with
  | None => advance_to_raised_exception pc
  | Some val =>
      let rd := insn_get_rd insn in
      unless_x0 k pc
        (write_x rd (extend_load is_signed log2_size val) ;;
         advance_to_next_insn pc success)
  end.
Definition execute_LB (k : rd_kind) (pc mcycle insn : Z) : result := execute_L true 0 k pc mcycle insn.
Definition execute_LH (k : rd_kind) (pc mcycle insn : Z) : result := execute_L true 1 k pc mcycle insn.
Definition execute_LW (k : rd_kind) (pc mcycle insn : Z) : result := execute_L true 2 k pc mcycle insn.
Definition execute_LD (k : rd_kind) (pc mcycle insn : Z) : result := execute_L true 3 k pc mcycle insn.
Definition execute_LBU (k : rd_kind) (pc mcycle insn : Z) : result := execute_L false 0 k pc mcycle insn.
Definition execute_LHU (k : rd_kind) (pc mcycle insn : Z) : result := execute_L false 1 k pc mcycle insn.
Definition execute_LWU (k : rd_kind) (pc mcycle insn : Z) : result := execute_L false 2 k pc mcycle insn.

Definition execute_LR (is_signed : bool) (log2_size pc mcycle insn : Z) : result :=
  vaddr ← read_x (insn_get_rs1 insn);
  '(val, pc) ← read_virtual_memory false log2_size pc mcycle vaddr;
  match val with
  | None => advance_to_raised_exception pc
  | Some val =>
      write_ilrsc vaddr ;;
      let rd := insn_get_rd insn in
      if rd =? 0 then advance_to_next_insn pc success
      else
        write_x rd (extend_load is_signed log2_size val) ;;
        advance_to_next_insn pc success
  end.

(** The end of [execute_SC]. *)
Definition SC_end (status : execute_status) (pc insn val : Z) : result :=
  write_ilrsc (uint64 (-1)) ;;
  let rd := insn_get_rd insn in
  if rd =? 0 then advance_to_next_insn pc status
  else
    write_x rd val ;;
    advance_to_next_insn pc status.
Definition execute_SC (is_signed : bool) (log2_size pc mcycle insn : Z) : result :=
  vaddr ← read_x (insn_get_rs1 insn);
  ilrsc ← read_ilrsc;
  if ilrsc =? vaddr then
    rs2 ← read_x (insn_get_rs2 insn);
    '(status, pc) ← write_virtual_memory log2_size pc mcycle vaddr
                      (extend_load is_signed log2_size (uwrap (8 * Z.shiftl 1 log2_size) rs2));
    if bool_decide (status = failure) then advance_to_raised_exception pc
    else SC_end status pc insn 0
  else SC_end success pc insn 1.

Definition execute_LR_W (pc mcycle insn : Z) : result :=
  if negb (Z.land insn 0x1f00000 =? 0) then raise_illegal_insn_exception pc insn
  else execute_LR true 2 pc mcycle insn.
Definition execute_SC_W (pc mcycle insn : Z) : result := execute_SC true 2 pc mcycle insn.
Definition execute_LR_D (pc mcycle insn : Z) : result :=
  if negb (Z.land insn 0x1f00000 =? 0) then raise_illegal_insn_exception pc insn
  else execute_LR false 3 pc mcycle insn.
Definition execute_SC_D (pc mcycle insn : Z) : result := execute_SC false 3 pc mcycle insn.

(** A register or a memory word as a value of [T]. *)
Definition as_T (is_signed : bool) (log2_size val : Z) : Z :=
  (if is_signed then swrap else uwrap) (8 * Z.shiftl 1 log2_size) val.
Definition execute_AMO (is_signed : bool) (log2_size pc mcycle insn : Z) (f : Z -> Z -> Z) : result :=
  vaddr ← read_x (insn_get_rs1 insn);
  '(val, pc) ← read_virtual_memory true log2_size pc mcycle vaddr;
  match val with
  | None => advance_to_raised_exception pc
  | Some val =>
      let valm := as_T is_signed log2_size val in
      rs2 ← read_x (insn_get_rs2 insn);
      let valr := as_T is_signed log2_size rs2 in
      let valr := f valm valr in
      '(status, pc) ← write_virtual_memory log2_size pc mcycle vaddr (uint64 valr);
      if bool_decide (status = failure) then advance_to_raised_exception pc
      else
        let rd := insn_get_rd insn in
        if rd =? 0 then advance_to_next_insn pc status
        else
          write_x rd (uint64 valm) ;;
          advance_to_next_insn pc status
  end.

Definition execute_AMOSWAP_W (pc mcycle insn : Z) : result :=
  execute_AMO true 2 pc mcycle insn (fun valm valr => valr).
Definition execute_AMOADD_W (pc mcycle insn : Z) : result :=
  execute_AMO true 2 pc mcycle insn (fun valm valr => int32 (valm + valr)).
Definition execute_AMOXOR_W (pc mcycle insn : Z) : result :=
  execute_AMO true 2 pc mcycle insn (fun valm valr => Z.lxor valm valr).
Definition execute_AMOAND_W (pc mcycle insn : Z) : result :=
  execute_AMO true 2 pc mcycle insn (fun valm valr => Z.land valm valr).
Definition execute_AMOOR_W (pc mcycle insn : Z) : result :=
  execute_AMO true 2 pc mcycle insn (fun valm valr => Z.lor valm valr).
Definition execute_AMOMIN_W (pc mcycle insn : Z) : result :=
  execute_AMO true 2 pc mcycle insn (fun valm valr => if valm <? valr then valm else valr).
Definition execute_AMOMAX_W (pc mcycle insn : Z) : result :=
  execute_AMO true 2 pc mcycle insn (fun valm valr => if valr <? valm then valm else valr).
Definition execute_AMOMINU_W (pc mcycle insn : Z) : result :=
  execute_AMO true 2 pc mcycle insn (fun valm valr => if uint32 valm <? uint32 valr then valm else valr).
Definition execute_AMOMAXU_W (pc mcycle insn : Z) : result :=
  execute_AMO true 2 pc mcycle insn (fun valm valr => if uint32 valr <? uint32 valm then valm else valr).
Definition execute_AMOSWAP_D (pc mcycle insn : Z) : result :=
  execute_AMO true 3 pc mcycle insn (fun valm valr => valr).
Definition execute_AMOADD_D (pc mcycle insn : Z) : result :=
  execute_AMO true 3 pc mcycle insn (fun valm valr => int64 (valm + valr)).
Definition execute_AMOXOR_D (pc mcycle insn : Z) : result :=
  execute_AMO true 3 pc mcycle insn (fun valm valr => Z.lxor valm valr).
Definition execute_AMOAND_D (pc mcycle insn : Z) : result :=
  execute_AMO true 3 pc mcycle insn (fun valm valr => Z.land valm valr).
Definition execute_AMOOR_D (pc mcycle insn : Z) : result :=
  execute_AMO true 3 pc mcycle insn (fun valm valr => Z.lor valm valr).
Definition execute_AMOMIN_D (pc mcycle insn : Z) : result :=
  execute_AMO true 3 pc mcycle insn (fun valm valr => if valm <? valr then valm else valr).
Definition execute_AMOMAX_D (pc mcycle insn : Z) : result :=
  execute_AMO true 3 pc mcycle insn (fun valm valr => if valr <? valm then valm else valr).
Definition execute_AMOMINU_D (pc mcycle insn : Z) : result :=
  execute_AMO false 3 pc mcycle insn (fun valm valr => if valm <? valr then valm else valr).
Definition execute_AMOMAXU_D (pc mcycle insn : Z) : result :=
  execute_AMO false 3 pc mcycle insn (fun valm valr => if valr <? valm then valm else valr).

Definition execute_AMO_W (pc mcycle insn : Z) : result :=
  let funct7_sr2 := insn_get_funct7_sr2 insn in
  if funct7_sr2 =? 0 then execute_AMOADD_W pc mcycle insn else
  if funct7_sr2 =? 0x1 then execute_AMOSWAP_W pc mcycle insn else
  if funct7_sr2 =? 0x2 then execute_LR_W pc mcycle insn else
  if funct7_sr2 =? 0x3 then execute_SC_W pc mcycle insn else
  if funct7_sr2 =? 0x4 then execute_AMOXOR_W pc mcycle insn else
  if funct7_sr2 =? 0x8 then execute_AMOOR_W pc mcycle insn else
  if funct7_sr2 =? 0xc then execute_AMOAND_W pc mcycle insn else
  if funct7_sr2 =? 0x10 then execute_AMOMIN_W pc mcycle insn else
  if funct7_sr2 =? 0x14 then execute_AMOMAX_W pc mcycle insn else
  if funct7_sr2 =? 0x18 then execute_AMOMINU_W pc mcycle insn else
  if funct7_sr2 =? 0x1c then execute_AMOMAXU_W pc mcycle insn else
  raise_illegal_insn_exception pc insn.
Definition execute_AMO_D (pc mcycle insn : Z) : result :=
  let funct7_sr2 := insn_get_funct7_sr2 insn in
  if funct7_sr2 =? 0 then execute_AMOADD_D pc mcycle insn else
  if funct7_sr2 =? 0x1 then execute_AMOSWAP_D pc mcycle insn else
  if funct7_sr2 =? 0x2 then execute_LR_D pc mcycle insn else
  if funct7_sr2 =? 0x3 then execute_SC_D pc mcycle insn else
  if funct7_sr2 =? 0x4 then execute_AMOXOR_D pc mcycle insn else
  if funct7_sr2 =? 0x8 then execute_AMOOR_D pc mcycle insn else
  if funct7_sr2 =? 0xc then execute_AMOAND_D pc mcycle insn else
  if funct7_sr2 =? 0x10 then execute_AMOMIN_D pc mcycle insn else
  if funct7_sr2 =? 0x14 then execute_AMOMAX_D pc mcycle insn else
  if funct7_sr2 =? 0x18 then execute_AMOMINU_D pc mcycle insn else
  if funct7_sr2 =? 0x1c then execute_AMOMAXU_D pc mcycle insn else
  raise_illegal_insn_exception pc insn.
End memory_instructions.
