(* ===== verification/SoftFloat.v ===== *)
(** * Software floating point (src/soft-float.hpp)

    The arithmetic of the F and D extensions.  A float is the unsigned value
    of its bits.  The exception flags that the code accumulates through a
    pointer are the state of a computation, which fails only when an assertion
    that is compiled in does.  Exponents are [int]s far from overflow, and
    are integers here; mantissas are unsigned and wrap. *)

From S2P Require Import Prelude Bits SolidityCompat Memory Riscv Decode.

Definition FFLAGS_NX_MASK : Z := bit 0.
Definition FFLAGS_UF_MASK : Z := bit 1.
Definition FFLAGS_OF_MASK : Z := bit 2.
Definition FFLAGS_DZ_MASK : Z := bit 3.
Definition FFLAGS_NV_MASK : Z := bit 4.

Definition FCLASS_NINF : Z := bit 0.
Definition FCLASS_NNORMAL : Z := bit 1.
Definition FCLASS_NSUBNORMAL : Z := bit 2.
Definition FCLASS_NZERO : Z := bit 3.
Definition FCLASS_PZERO : Z := bit 4.
Definition FCLASS_PSUBNORMAL : Z := bit 5.
Definition FCLASS_PNORMAL : Z := bit 6.
Definition FCLASS_PINF : Z := bit 7.
Definition FCLASS_SNAN : Z := bit 8.
Definition FCLASS_QNAN : Z := bit 9.

(** [*pfflags |= mask] *)
Definition set_fflags (mask : Z) : M Z unit := modify (fun fflags => Z.lor fflags mask).

(** ** Wide arithmetic

    [size] is the width of [UINT]; [ULONG] is twice as wide. *)

Definition clz (size x : Z) : Z := if x =? 0 then size else size - 1 - Z.log2 x.
(** The high and the low half of the product. *)
Definition mul_u (size a b : Z) : Z * Z :=
  let r := uwrap (2 * size) (a * b) in (uwrap size (Z.shiftr r size), uwrap size r).
(** The quotient and the remainder. *)
Definition divrem_u (size ah al bl : Z) : Z * Z :=
  let a := Z.lor (uwrap (2 * size) (Z.shiftl ah size)) al in
  (uwrap size (a / bl), uwrap size (a mod bl)).

Fixpoint sqrtrem_loop (fuel : nat) (ulong_size bit rem res : Z) : Z * Z :=
  match fuel with
  | O => (rem, res)
  | S fuel =>
      if bit =? 0 then (rem, res)
      else
        let tmp := uwrap ulong_size (res + bit) in
        if tmp <=? rem then
          sqrtrem_loop fuel ulong_size (Z.shiftr bit 2) (rem - tmp) (uwrap ulong_size (Z.shiftr res 1 + bit))
        else sqrtrem_loop fuel ulong_size (Z.shiftr bit 2) rem (Z.shiftr res 1)
  end.
(** The root, and whether it is inexact. [bit] has [size] positions to go through. *)
Definition sqrtrem_u (size ah al : Z) : Z * bool :=
  let a := Z.lor (uwrap (2 * size) (Z.shiftl ah size)) al in
  let '(rem, res) := sqrtrem_loop (S (Z.to_nat size)) (2 * size) (Z.shiftl 1 (2 * size - 2)) a 0 in
  (uwrap size res, negb (rem =? 0)).

(** ** Formats *)

Record sfloat_format := { F_SIZE : Z; MANT_SIZE : Z; EXP_SIZE : Z }.
Definition i_sfloat32 : sfloat_format := {| F_SIZE := 32; MANT_SIZE := 23; EXP_SIZE := 8 |}.
Definition i_sfloat64 : sfloat_format := {| F_SIZE := 64; MANT_SIZE := 52; EXP_SIZE := 11 |}.

Module i_sfloat.
Section sfloat.
Context {cfg : BuildConfig} (F : sfloat_format).

Definition IMANT_SIZE : Z := F_SIZE F - 2.
Definition RND_SIZE : Z := IMANT_SIZE - MANT_SIZE F.
Definition EXP_MASK : Z := Z.shiftl 1 (EXP_SIZE F) - 1.
Definition MANT_MASK : Z := Z.shiftl 1 (MANT_SIZE F) - 1.
Definition SIGN_MASK : Z := Z.shiftl 1 (F_SIZE F - 1).
Definition QNAN_MASK : Z := Z.shiftl 1 (MANT_SIZE F - 1).
Definition F_QNAN : Z := Z.lor (Z.shiftl EXP_MASK (MANT_SIZE F)) (Z.shiftl 1 (MANT_SIZE F - 1)).

(** Conversion to [F_UINT], and [~x] in it. *)
Definition F_UINT (x : Z) : Z := uwrap (F_SIZE F) x.
Definition F_not (x : Z) : Z := 2 ^ F_SIZE F - 1 - x.

Definition sign_of (a : Z) : Z := Z.shiftr a (F_SIZE F - 1).
Definition exp_of (a : Z) : Z := Z.land (Z.shiftr a (MANT_SIZE F)) EXP_MASK.
Definition mant_of (a : Z) : Z := Z.land a MANT_MASK.

Definition pack (a_sign a_exp a_mant : Z) : Z :=
  Z.lor (Z.lor (F_UINT (Z.shiftl a_sign (F_SIZE F - 1))) (F_UINT (Z.shiftl (uint32 a_exp) (MANT_SIZE F))))
        (Z.land a_mant MANT_MASK).
Definition unpack (a : Z) : Z * Z * Z := (sign_of a, exp_of a, mant_of a).

Definition mant_rshift_rnd (a d : Z) : Z :=
  if 0 <? d then
    if F_SIZE F <=? d then b2u (negb (a =? 0))
    else
      let mask := Z.shiftl 1 d - 1 in
      Z.lor (Z.shiftr a d) (b2u (negb (Z.land a mask =? 0)))
  else a.

(** The exponent and the mantissa. *)
Definition mant_normalize_subnormal (a_mant : Z) : Z * Z :=
  let shift := MANT_SIZE F - (F_SIZE F - 1 - clz (F_SIZE F) a_mant) in
  (1 - shift, F_UINT (Z.shiftl a_mant shift)).

Definition rounding_addend (a_sign rm : Z) : Z :=
  if (rm =? FRM_RNE) || (rm =? FRM_RMM) then Z.shiftl 1 (RND_SIZE - 1)
  else if rm =? FRM_RTZ then 0
  else if negb (Z.lxor a_sign (Z.land rm 1) =? 0) then Z.shiftl 1 RND_SIZE - 1 else 0.

Definition round_pack (a_sign a_exp a_mant rm : Z) : M Z Z :=
  let addend := rounding_addend a_sign rm in
  '(a_exp, a_mant, rnd_bits) ←
    (if a_exp <=? 0 then
       let is_subnormal := (a_exp <? 0) || (F_UINT (a_mant + addend) <? Z.shiftl 1 (F_SIZE F - 1)) in
       let diff := 1 - a_exp in
       let a_mant := mant_rshift_rnd a_mant diff in
       let rnd_bits := Z.land a_mant (Z.shiftl 1 RND_SIZE - 1) in
       when (is_subnormal && negb (rnd_bits =? 0)) (set_fflags FFLAGS_UF_MASK) ;;
       mret (1, a_mant, rnd_bits)
     else mret (a_exp, a_mant, Z.land a_mant (Z.shiftl 1 RND_SIZE - 1)));
  when (negb (rnd_bits =? 0)) (set_fflags FFLAGS_NX_MASK) ;;
  let a_mant := Z.shiftr (F_UINT (a_mant + addend)) RND_SIZE in
  let a_mant := if (rm =? FRM_RNE) && (rnd_bits =? Z.shiftl 1 (RND_SIZE - 1)) then Z.land a_mant (F_not 1) else a_mant in
  let a_exp := a_exp + Z.shiftr a_mant (MANT_SIZE F + 1) in
  if a_mant <=? MANT_MASK then mret (pack a_sign 0 a_mant)
  else if EXP_MASK <=? a_exp then
    let '(a_exp, a_mant) := if addend =? 0 then (EXP_MASK - 1, MANT_MASK) else (EXP_MASK, 0) in
    set_fflags (Z.lor FFLAGS_OF_MASK FFLAGS_NX_MASK) ;;
    mret (pack a_sign a_exp a_mant)
  else mret (pack a_sign a_exp a_mant).

Definition assert_shift (shift : Z) : M Z unit :=
  lift (if NDEBUG || (0 <=? shift) then mret () else Throw (assertion_failed "shift >= 0")).

Definition normalize (a_sign a_exp a_mant rm : Z) : M Z Z :=
  let shift := clz (F_SIZE F) a_mant - (F_SIZE F - 1 - IMANT_SIZE) in
  assert_shift shift ;;
  let a_exp := a_exp - shift in
  let a_mant := F_UINT (Z.shiftl a_mant shift) in
  round_pack a_sign a_exp a_mant rm.

Definition normalize2 (a_sign a_exp a_mant1 a_mant0 rm : Z) : M Z Z :=
  let l := if a_mant1 =? 0 then F_SIZE F + clz (F_SIZE F) a_mant0 else clz (F_SIZE F) a_mant1 in
  let shift := l - (F_SIZE F - 1 - IMANT_SIZE) in
  assert_shift shift ;;
  let a_exp := a_exp - shift in
  let a_mant1 :=
    if shift =? 0 then Z.lor a_mant1 (b2u (negb (a_mant0 =? 0)))
    else if shift <? F_SIZE F then
      let a_mant1 := Z.lor (F_UINT (Z.shiftl a_mant1 shift)) (Z.shiftr a_mant0 (F_SIZE F - shift)) in
      let a_mant0 := F_UINT (Z.shiftl a_mant0 shift) in
      Z.lor a_mant1 (b2u (negb (a_mant0 =? 0)))
    else F_UINT (Z.shiftl a_mant0 (shift - F_SIZE F)) in
  round_pack a_sign a_exp a_mant1 rm.

Definition issignan (a : Z) : bool :=
  let a_exp1 := Z.land (Z.shiftr a (MANT_SIZE F - 1)) (Z.shiftl 1 (EXP_SIZE F + 1) - 1) in
  (a_exp1 =? 2 * EXP_MASK) && negb (mant_of a =? 0).
Definition isnan (a : Z) : bool := (exp_of a =? EXP_MASK) && negb (mant_of a =? 0).

(** [*pfflags |= FFLAGS_NV_MASK; return F_QNAN;] under a condition on the flag. *)
Definition nan_result (invalid : bool) : M Z Z :=
  when invalid (set_fflags FFLAGS_NV_MASK) ;; mret F_QNAN.
(** The implicit bit of a normal mantissa. *)
Definition implicit_bit : Z := Z.shiftl 1 (MANT_SIZE F).
(** The exponent and the mantissa of a nonzero finite operand. *)
Definition operand (a_exp a_mant : Z) : Z * Z :=
  if a_exp =? 0 then mant_normalize_subnormal a_mant else (a_exp, Z.lor a_mant implicit_bit).

(** ** Addition, multiplication and fused multiply-add *)

Definition add (a b rm : Z) : M Z Z :=
  let '(a, b) := if Z.land a (F_not SIGN_MASK) <? Z.land b (F_not SIGN_MASK) then (b, a) else (a, b) in
  let a_sign := sign_of a in
  let b_sign := sign_of b in
  let a_exp := exp_of a in
  let b_exp := exp_of b in
  let a_mant := F_UINT (Z.shiftl (mant_of a) 3) in
  let b_mant := F_UINT (Z.shiftl (mant_of b) 3) in
  if a_exp =? EXP_MASK then
    if negb (a_mant =? 0) then
      nan_result ((Z.land a_mant (Z.shiftl QNAN_MASK 3) =? 0) || issignan b)
    else if (b_exp =? EXP_MASK) && negb (a_sign =? b_sign) then nan_result true
    else mret a
  else
    let '(a_exp, a_mant) := if a_exp =? 0 then (1, a_mant) else (a_exp, Z.lor a_mant (Z.shiftl 1 (MANT_SIZE F + 3))) in
    let '(b_exp, b_mant) := if b_exp =? 0 then (1, b_mant) else (b_exp, Z.lor b_mant (Z.shiftl 1 (MANT_SIZE F + 3))) in
    let b_mant := mant_rshift_rnd b_mant (a_exp - b_exp) in
    let '(a_sign, a_mant) :=
      if a_sign =? b_sign then (a_sign, F_UINT (a_mant + b_mant))
      else
        let a_mant := F_UINT (a_mant - b_mant) in
        (if a_mant =? 0 then b2u (rm =? FRM_RDN) else a_sign, a_mant) in
    let a_exp := a_exp + (RND_SIZE - 3) in
    normalize a_sign a_exp a_mant rm.

Definition mul (a b rm : Z) : M Z Z :=
  let r_sign := Z.lxor (sign_of a) (sign_of b) in
  let a_exp := exp_of a in
  let b_exp := exp_of b in
  let a_mant := mant_of a in
  let b_mant := mant_of b in
  if (a_exp =? EXP_MASK) || (b_exp =? EXP_MASK) then
    if isnan a || isnan b then nan_result (issignan a || issignan b)
    else if ((a_exp =? EXP_MASK) && ((b_exp =? 0) && (b_mant =? 0))) || ((b_exp =? EXP_MASK) && ((a_exp =? 0) && (a_mant =? 0)))
    then nan_result true
    else mret (pack r_sign EXP_MASK 0)
  else if (a_exp =? 0) && (a_mant =? 0) then mret (pack r_sign 0 0)
  else
    let '(a_exp, a_mant) := operand a_exp a_mant in
    if (b_exp =? 0) && (b_mant =? 0) then mret (pack r_sign 0 0)
    else
      let '(b_exp, b_mant) := operand b_exp b_mant in
      let r_exp := a_exp + b_exp - Z.shiftl 1 (EXP_SIZE F - 1) + 2 in
      let '(r_mant, r_mant_low) := mul_u (F_SIZE F) (F_UINT (Z.shiftl a_mant RND_SIZE)) (F_UINT (Z.shiftl b_mant (RND_SIZE + 1))) in
      let r_mant := Z.lor r_mant (b2u (negb (r_mant_low =? 0))) in
      normalize r_sign r_exp r_mant rm.

(** The halves of the addend of [fma] shifted right by [shift]. *)
Definition fma_shift (c_mant1 c_mant0 shift : Z) : Z * Z :=
  if 2 * F_SIZE F <=? shift then (0, b2u (negb (Z.lor c_mant0 c_mant1 =? 0)))
  else if F_SIZE F + 1 <=? shift then (0, mant_rshift_rnd c_mant1 (shift - F_SIZE F))
  else if shift =? F_SIZE F then (0, Z.lor c_mant1 (b2u (negb (c_mant0 =? 0))))
  else if negb (shift =? 0) then
    let mask := Z.shiftl 1 shift - 1 in
    (Z.shiftr c_mant1 shift,
     Z.lor (Z.lor (F_UINT (Z.shiftl c_mant1 (F_SIZE F - shift))) (Z.shiftr c_mant0 shift)) (b2u (negb (Z.land c_mant0 mask =? 0))))
  else (c_mant1, c_mant0).

(** The addition of [fma], with the operand of the larger magnitude first. *)
Definition fma_add (r_sign r_exp r_mant1 r_mant0 c_sign c_exp c_mant1 c_mant0 rm : Z) : M Z Z :=
  let '(c_mant1, c_mant0) := fma_shift c_mant1 c_mant0 (r_exp - c_exp) in
  let '(r_sign, r_mant1, r_mant0) :=
    if r_sign =? c_sign then
      let r_mant0 := F_UINT (r_mant0 + c_mant0) in
      (r_sign, F_UINT (r_mant1 + (c_mant1 + b2u (r_mant0 <? c_mant0))), r_mant0)
    else
      let tmp := r_mant0 in
      let r_mant0 := F_UINT (r_mant0 - c_mant0) in
      let r_mant1 := F_UINT (r_mant1 - c_mant1 - b2u (tmp <? r_mant0)) in
      (if Z.lor r_mant0 r_mant1 =? 0 then b2u (rm =? FRM_RDN) else r_sign, r_mant1, r_mant0) in
  normalize2 r_sign r_exp r_mant1 r_mant0 rm.

Definition fma (a b c rm : Z) : M Z Z :=
  let c_sign := sign_of c in
  let r_sign := Z.lxor (sign_of a) (sign_of b) in
  let a_exp := exp_of a in
  let b_exp := exp_of b in
  let c_exp := exp_of c in
  let a_mant := mant_of a in
  let b_mant := mant_of b in
  let c_mant := mant_of c in
  if (a_exp =? EXP_MASK) || (b_exp =? EXP_MASK) || (c_exp =? EXP_MASK) then
    if (((a_exp =? EXP_MASK) && (a_mant =? 0)) && ((b_exp =? 0) && (b_mant =? 0))) ||
       (((b_exp =? EXP_MASK) && (b_mant =? 0)) && ((a_exp =? 0) && (a_mant =? 0)))
    then nan_result true
    else if isnan a || isnan b || isnan c then nan_result (issignan a || issignan b || issignan c)
    else if ((a_exp =? EXP_MASK) || (b_exp =? EXP_MASK)) && ((c_exp =? EXP_MASK) && negb (r_sign =? c_sign)) then nan_result true
    else if c_exp =? EXP_MASK then mret (pack c_sign EXP_MASK 0)
    else mret (pack r_sign EXP_MASK 0)
  else if ((a_exp =? 0) && (a_mant =? 0)) || ((b_exp =? 0) && (b_mant =? 0)) then
    if (c_exp =? 0) && (c_mant =? 0) then
      let r_sign := if negb (c_sign =? r_sign) then b2u (rm =? FRM_RDN) else r_sign in
      mret (pack r_sign 0 0)
    else mret c
  else
    let '(a_exp, a_mant) := operand a_exp a_mant in
    let '(b_exp, b_mant) := operand b_exp b_mant in
    let r_exp := a_exp + b_exp - Z.shiftl 1 (EXP_SIZE F - 1) + 3 in
    let '(r_mant1, r_mant0) := mul_u (F_SIZE F) (F_UINT (Z.shiftl a_mant RND_SIZE)) (F_UINT (Z.shiftl b_mant RND_SIZE)) in
    let '(r_exp, r_mant1, r_mant0) :=
      if r_mant1 <? Z.shiftl 1 (F_SIZE F - 3) then
        (r_exp - 1, Z.lor (F_UINT (Z.shiftl r_mant1 1)) (Z.shiftr r_mant0 (F_SIZE F - 1)), F_UINT (Z.shiftl r_mant0 1))
      else (r_exp, r_mant1, r_mant0) in
    if (c_exp =? 0) && (c_mant =? 0) then
      normalize r_sign r_exp (Z.lor r_mant1 (b2u (negb (r_mant0 =? 0)))) rm
    else
      let '(c_exp, c_mant) := operand c_exp c_mant in
      let c_exp := c_exp + 1 in
      let c_mant1 := F_UINT (Z.shiftl c_mant (RND_SIZE - 1)) in
      let c_mant0 := 0 in
      if negb ((c_exp <? r_exp) || ((r_exp =? c_exp) && (c_mant1 <=? r_mant1)))
      then fma_add c_sign c_exp c_mant1 c_mant0 r_sign r_exp r_mant1 r_mant0 rm
      else fma_add r_sign r_exp r_mant1 r_mant0 c_sign c_exp c_mant1 c_mant0 rm.

(** ** Division and square root *)

Definition div (a b rm : Z) : M Z Z :=
  let r_sign := Z.lxor (sign_of a) (sign_of b) in
  let a_exp := exp_of a in
  let b_exp := exp_of b in
  let a_mant := mant_of a in
  let b_mant := mant_of b in
  if a_exp =? EXP_MASK then
    if negb (a_mant =? 0) || isnan b then nan_result (issignan a || issignan b)
    else if b_exp =? EXP_MASK then nan_result true
    else mret (pack r_sign EXP_MASK 0)
  else if b_exp =? EXP_MASK then
    if negb (b_mant =? 0) then nan_result (issignan b) else mret (pack r_sign 0 0)
  else if (b_exp =? 0) && (b_mant =? 0) then
    if (a_exp =? 0) && (a_mant =? 0) then nan_result true
    else set_fflags FFLAGS_DZ_MASK ;; mret (pack r_sign EXP_MASK 0)
  else
    let '(b_exp, b_mant) := operand b_exp b_mant in
    if (a_exp =? 0) && (a_mant =? 0) then mret (pack r_sign 0 0)
    else
      let '(a_exp, a_mant) := operand a_exp a_mant in
      let r_exp := a_exp - b_exp + Z.shiftl 1 (EXP_SIZE F - 1) - 1 in
      let '(r_mant, r) := divrem_u (F_SIZE F) a_mant 0 (F_UINT (Z.shiftl b_mant 2)) in
      let r_mant := if negb (r =? 0) then Z.lor r_mant 1 else r_mant in
      normalize r_sign r_exp r_mant rm.

Definition sqrt (a rm : Z) : M Z Z :=
  let a_sign := sign_of a in
  let a_exp := exp_of a in
  let a_mant := mant_of a in
  if a_exp =? EXP_MASK then
    if negb (a_mant =? 0) then nan_result (issignan a)
    else if negb (a_sign =? 0) then nan_result true
    else mret a
  else if negb (a_sign =? 0) then
    if (a_exp =? 0) && (a_mant =? 0) then mret a else nan_result true
  else if (a_exp =? 0) && (a_mant =? 0) then mret (pack 0 0 0)
  else
    let '(a_exp, a_mant) := operand a_exp a_mant in
    let a_exp := a_exp - EXP_MASK / 2 in
    let '(a_exp, a_mant) :=
      if negb (Z.land a_exp 1 =? 0) then (a_exp - 1, F_UINT (Z.shiftl a_mant 1)) else (a_exp, a_mant) in
    let a_exp := Z.shiftr a_exp 1 + EXP_MASK / 2 in
    let a_mant := F_UINT (Z.shiftl a_mant (F_SIZE F - 4 - MANT_SIZE F)) in
    let '(a_mant, inexact) := sqrtrem_u (F_SIZE F) a_mant 0 in
    let a_mant := if inexact then Z.lor a_mant 1 else a_mant in
    normalize a_sign a_exp a_mant rm.

(** ** Comparisons and classes *)

Definition min_max_nan (a b : Z) : M Z Z :=
  when (issignan a || issignan b) (set_fflags FFLAGS_NV_MASK) ;;
  mret (if isnan a then if isnan b then F_QNAN else b else a).
Definition min (a b : Z) : M Z Z :=
  if isnan a || isnan b then min_max_nan a b
  else
    let a_sign := sign_of a in
    let b_sign := sign_of b in
    mret (if negb (a_sign =? b_sign) then if negb (a_sign =? 0) then a else b
          else if xorb (a <? b) (negb (a_sign =? 0)) then a else b).
Definition max (a b : Z) : M Z Z :=
  if isnan a || isnan b then min_max_nan a b
  else
    let a_sign := sign_of a in
    let b_sign := sign_of b in
    mret (if negb (a_sign =? b_sign) then if negb (a_sign =? 0) then b else a
          else if xorb (a <? b) (negb (a_sign =? 0)) then b else a).

(** [((a | b) << 1) == 0] *)
Definition both_zero (a b : Z) : bool := F_UINT (Z.shiftl (Z.lor a b) 1) =? 0.
Definition eq (a b : Z) : M Z bool :=
  if isnan a || isnan b then
    when (issignan a || issignan b) (set_fflags FFLAGS_NV_MASK) ;; mret false
  else if both_zero a b then mret true
  else mret (a =? b).
Definition le (a b : Z) : M Z bool :=
  if isnan a || isnan b then set_fflags FFLAGS_NV_MASK ;; mret false
  else
    let a_sign := sign_of a in
    let b_sign := sign_of b in
    if negb (a_sign =? b_sign) then mret (negb (a_sign =? 0) || both_zero a b)
    else mret (if negb (a_sign =? 0) then b <=? a else a <=? b).
Definition lt (a b : Z) : M Z bool :=
  if isnan a || isnan b then set_fflags FFLAGS_NV_MASK ;; mret false
  else
    let a_sign := sign_of a in
    let b_sign := sign_of b in
    if negb (a_sign =? b_sign) then mret (negb (a_sign =? 0) && negb (both_zero a b))
    else mret (if negb (a_sign =? 0) then b <? a else a <? b).

Definition fclass (a : Z) : Z :=
  let a_sign := sign_of a in
  let a_exp := exp_of a in
  let a_mant := mant_of a in
  if a_exp =? EXP_MASK then
    if negb (a_mant =? 0) then if negb (Z.land a_mant QNAN_MASK =? 0) then FCLASS_QNAN else FCLASS_SNAN
    else if negb (a_sign =? 0) then FCLASS_NINF else FCLASS_PINF
  else if a_exp =? 0 then
    if a_mant =? 0 then if negb (a_sign =? 0) then FCLASS_NZERO else FCLASS_PZERO
    else if negb (a_sign =? 0) then FCLASS_NSUBNORMAL else FCLASS_PSUBNORMAL
  else if negb (a_sign =? 0) then FCLASS_NNORMAL else FCLASS_PNORMAL.

(** ** Conversions from and to integers

    [ICVT_SIZE] and [IS_UNSIGNED] are those of [ICVT_INT]. *)

Definition as_ICVT_INT (ICVT_SIZE : Z) (IS_UNSIGNED : bool) (r : Z) : Z := if IS_UNSIGNED then r else swrap ICVT_SIZE r.

Definition cvt_f_i (ICVT_SIZE : Z) (IS_UNSIGNED : bool) (a rm : Z) : M Z Z :=
  let a_sign := sign_of a in
  let a_exp := exp_of a in
  let a_mant := mant_of a in
  let a_sign := if (a_exp =? EXP_MASK) && negb (a_mant =? 0) then 0 else a_sign in
  let '(a_exp, a_mant) := if a_exp =? 0 then (1, a_mant) else (a_exp, Z.lor a_mant implicit_bit) in
  let a_mant := F_UINT (Z.shiftl a_mant RND_SIZE) in
  let a_exp := a_exp - EXP_MASK / 2 - MANT_SIZE F in
  let r_max :=
    if IS_UNSIGNED then uwrap ICVT_SIZE (a_sign - 1)
    else uwrap ICVT_SIZE (Z.shiftl 1 (ICVT_SIZE - 1) - Z.lxor a_sign 1) in
  let saturated := set_fflags FFLAGS_NV_MASK ;; mret (as_ICVT_INT ICVT_SIZE IS_UNSIGNED r_max) in
  let signed r := as_ICVT_INT ICVT_SIZE IS_UNSIGNED (if negb (a_sign =? 0) then uwrap ICVT_SIZE (- r) else r) in
  if 0 <=? a_exp then
    if a_exp <=? ICVT_SIZE - 1 - MANT_SIZE F then
      let r := uwrap ICVT_SIZE (Z.shiftl (uwrap ICVT_SIZE (Z.shiftr a_mant RND_SIZE)) a_exp) in
      if r_max <? r then saturated else mret (signed r)
    else saturated
  else
    let a_mant := mant_rshift_rnd a_mant (- a_exp) in
    let addend := rounding_addend a_sign rm in
    let rnd_bits := Z.land a_mant (Z.shiftl 1 RND_SIZE - 1) in
    let a_mant := Z.shiftr (F_UINT (a_mant + addend)) RND_SIZE in
    let a_mant := if (rm =? FRM_RNE) && (rnd_bits =? Z.shiftl 1 (RND_SIZE - 1)) then Z.land a_mant (F_not 1) else a_mant in
    if r_max <? a_mant then saturated
    else
      let r := uwrap ICVT_SIZE a_mant in
      when (negb (rnd_bits =? 0)) (set_fflags FFLAGS_NX_MASK) ;;
      mret (signed r).

(** [a] is a value of [ICVT_INT]. *)
Definition cvt_i_f (ICVT_SIZE : Z) (IS_UNSIGNED : bool) (a rm : Z) : M Z Z :=
  let r := uwrap ICVT_SIZE a in
  let '(a_sign, r) :=
    if negb IS_UNSIGNED && (a <? 0) then (1, uwrap ICVT_SIZE (- uwrap ICVT_SIZE a)) else (0, r) in
  let a_exp := EXP_MASK / 2 + F_SIZE F - 2 in
  let l := ICVT_SIZE - clz ICVT_SIZE r - (F_SIZE F - 1) in
  let '(a_exp, r) :=
    if 0 <? l then
      let mask := Z.land r (uwrap ICVT_SIZE (Z.shiftl 1 l) - 1) in
      (a_exp + l, Z.lor (Z.shiftr r l) (b2u (negb (Z.land r mask =? 0))))
    else (a_exp, r) in
  let a_mant := F_UINT r in
  normalize a_sign a_exp a_mant rm.
End sfloat.
End i_sfloat.

(** ** Conversions between the formats *)

Definition sfloat_cvt_f32_f64 (a : Z) : M Z Z :=
  let '(a_sign, a_exp, a_mant) := i_sfloat.unpack i_sfloat32 a in
  if a_exp =? 0xff then
    if negb (a_mant =? 0) then
      when (i_sfloat.issignan i_sfloat32 a) (set_fflags FFLAGS_NV_MASK) ;; mret (i_sfloat.F_QNAN i_sfloat64)
    else mret (i_sfloat.pack i_sfloat64 a_sign (i_sfloat.EXP_MASK i_sfloat64) 0)
  else if (a_exp =? 0) && (a_mant =? 0) then mret (i_sfloat.pack i_sfloat64 a_sign 0 0)
  else
    let '(a_exp, a_mant) :=
      if a_exp =? 0 then i_sfloat.mant_normalize_subnormal i_sfloat32 a_mant else (a_exp, a_mant) in
    let a_exp := a_exp - 0x7f + i_sfloat.EXP_MASK i_sfloat64 / 2 in
    let a_mant := i_sfloat.F_UINT i_sfloat64 (Z.shiftl a_mant (MANT_SIZE i_sfloat64 - 23)) in
    mret (i_sfloat.pack i_sfloat64 a_sign a_exp a_mant).

(** The normalised mantissa of a subnormal is dropped, as in the code. *)
Definition sfloat_cvt_f64_f32 {cfg : BuildConfig} (a rm : Z) : M Z Z :=
  let '(a_sign, a_exp, a_mant) := i_sfloat.unpack i_sfloat64 a in
  if a_exp =? i_sfloat.EXP_MASK i_sfloat64 then
    if negb (a_mant =? 0) then
      when (i_sfloat.issignan i_sfloat64 a) (set_fflags FFLAGS_NV_MASK) ;; mret (i_sfloat.F_QNAN i_sfloat32)
    else mret (i_sfloat.pack i_sfloat32 a_sign 0xff 0)
  else if (a_exp =? 0) && (a_mant =? 0) then mret (i_sfloat.pack i_sfloat32 a_sign 0 0)
  else
    let '(a_exp, a_mant) :=
      if a_exp =? 0 then (fst (i_sfloat.mant_normalize_subnormal i_sfloat64 a_mant), a_mant)
      else (a_exp, Z.lor a_mant (i_sfloat.implicit_bit i_sfloat64)) in
    let a_exp := a_exp - i_sfloat.EXP_MASK i_sfloat64 / 2 + 0x7f in
    let a_mant := i_sfloat.mant_rshift_rnd i_sfloat64 a_mant (MANT_SIZE i_sfloat64 - (32 - 2)) in
    i_sfloat.normalize i_sfloat32 a_sign a_exp (i_sfloat.F_UINT i_sfloat32 a_mant) rm.
