(* ===== verification/ExecuteFloat.v ===== *)
(** * Floating point instructions of the interpreter (src/interpret.cpp)

    One definition per [execute_*] function of the F and D extensions, on top
    of the software floating point.  [fmt] is the format of the template
    argument [T]; the exception flags of [fcsr] are threaded through the
    operation, as the code does with a pointer. *)

From S2P Require Import Prelude Bits Shadow SolidityCompat HashTree Memory Machine MachineFacts UarchMemory Riscv Hart Trap Csr Devices VirtualMemory Decode Execute SoftFloat.

(** ** NaN boxing *)

Definition FLEN : Z := 64.
Definition float_box (fmt : sfloat_format) (val : Z) : Z :=
  let TLEN := F_SIZE fmt in
  if TLEN <? FLEN then Z.lor val (uint64 (Z.shiftl (uint64 (-1)) TLEN)) else val.
Definition float_unbox (fmt : sfloat_format) (val : Z) : Z :=
  let TLEN := F_SIZE fmt in
  if (TLEN <? FLEN) && negb (Z.shiftr val TLEN =? Z.shiftr (uint64 (-1)) TLEN) then i_sfloat.F_QNAN fmt
  else uwrap TLEN val.

(** Runs an operation from the flags given to those it leaves. *)
Definition with_fflags {A} (op : M Z A) (fflags : Z) : M memory (A * Z) :=
  lift (match op fflags with (Ret a, fflags') => Ret (a, fflags') | (Throw e, _) => Throw e end).
Definition fflags_of (fcsr : Z) : Z := uint32 (Z.land fcsr FCSR_FFLAGS_RW_MASK).
Definition set_fcsr_fflags (fcsr fflags : Z) : Z := Z.lor (Z.land fcsr (not64 FCSR_FFLAGS_RW_MASK)) fflags.

(** ** Shapes of operations *)

Definition execute_float_ternary_op_rm (fmt : sfloat_format) (pc insn : Z) (f : Z -> Z -> Z -> Z -> M Z Z) : result :=
  fcsr ← read_fcsr;
  let rm := insn_get_rm insn fcsr in
  if FRM_RMM <? rm then raise_illegal_insn_exception pc insn
  else
    let rd := insn_get_rd insn in
    let fflags := fflags_of fcsr in
    s1 ← read_f (insn_get_rs1 insn);
    s2 ← read_f (insn_get_rs2 insn);
    s3 ← read_f (insn_get_rs3 insn);
    '(val, fflags) ← with_fflags (f (float_unbox fmt s1) (float_unbox fmt s2) (float_unbox fmt s3) rm) fflags;
    write_f rd (float_box fmt val) ;;
    write_fcsr (set_fcsr_fflags fcsr fflags) ;;
    advance_to_next_insn pc success.
Definition execute_float_binary_op_rm (fmt : sfloat_format) (pc insn : Z) (f : Z -> Z -> Z -> M Z Z) : result :=
  fcsr ← read_fcsr;
  let rm := insn_get_rm insn fcsr in
  if FRM_RMM <? rm then raise_illegal_insn_exception pc insn
  else
    let rd := insn_get_rd insn in
    let fflags := fflags_of fcsr in
    s1 ← read_f (insn_get_rs1 insn);
    s2 ← read_f (insn_get_rs2 insn);
    '(val, fflags) ← with_fflags (f (float_unbox fmt s1) (float_unbox fmt s2) rm) fflags;
    write_f rd (float_box fmt val) ;;
    write_fcsr (set_fcsr_fflags fcsr fflags) ;;
    advance_to_next_insn pc success.
Definition execute_float_unary_op_rm (fmt : sfloat_format) (pc insn : Z) (f : Z -> Z -> M Z Z) : result :=
  fcsr ← read_fcsr;
  if negb (insn_get_rs2 insn =? 0) then raise_illegal_insn_exception pc insn
  else
    let rm := insn_get_rm insn fcsr in
    if FRM_RMM <? rm then raise_illegal_insn_exception pc insn
    else
      let rd := insn_get_rd insn in
      let fflags := fflags_of fcsr in
      s1 ← read_f (insn_get_rs1 insn);
      '(val, fflags) ← with_fflags (f (float_unbox fmt s1) rm) fflags;
      write_f rd (float_box fmt val) ;;
      write_fcsr (set_fcsr_fflags fcsr fflags) ;;
      advance_to_next_insn pc success.

Definition execute_float_binary_op (fmt : sfloat_format) (pc insn : Z) (f : Z -> Z -> M Z Z) : result :=
  fcsr ← read_fcsr;
  s1 ← read_f (insn_get_rs1 insn);
  s2 ← read_f (insn_get_rs2 insn);
  let rd := insn_get_rd insn in
  let fflags := fflags_of fcsr in
  '(val, fflags) ← with_fflags (f (float_unbox fmt s1) (float_unbox fmt s2)) fflags;
  write_f rd (float_box fmt val) ;;
  write_fcsr (set_fcsr_fflags fcsr fflags) ;;
  advance_to_next_insn pc success.
Definition execute_float_cmp_op (fmt : sfloat_format) (pc insn : Z) (f : Z -> Z -> M Z bool) : result :=
  fcsr ← read_fcsr;
  s1 ← read_f (insn_get_rs1 insn);
  s2 ← read_f (insn_get_rs2 insn);
  let rd := insn_get_rd insn in
  let fflags := fflags_of fcsr in
  '(val, fflags) ← with_fflags (f (float_unbox fmt s1) (float_unbox fmt s2)) fflags;
  write_fcsr (set_fcsr_fflags fcsr fflags) ;;
  if rd =? 0 then advance_to_next_insn pc success
  else write_x rd (b2u val) ;; advance_to_next_insn pc success.
Definition execute_FCLASS (fmt : sfloat_format) (pc insn : Z) (f : Z -> Z) : result :=
  let rd := insn_get_rd insn in
  if rd =? 0 then advance_to_next_insn pc success
  else
    s1 ← read_f (insn_get_rs1 insn);
    write_x rd (f (float_unbox fmt s1)) ;;
    advance_to_next_insn pc success.
Definition execute_FCVT_F_F (from to : sfloat_format) (pc insn : Z) (f : Z -> Z -> M Z Z) : result :=
  fcsr ← read_fcsr;
  let rm := insn_get_rm insn fcsr in
  if FRM_RMM <? rm then raise_illegal_insn_exception pc insn
  else
    let rd := insn_get_rd insn in
    let fflags := fflags_of fcsr in
    s1 ← read_f (insn_get_rs1 insn);
    '(val, fflags) ← with_fflags (f (float_unbox from s1) rm) fflags;
    write_f rd (float_box to val) ;;
    write_fcsr (set_fcsr_fflags fcsr fflags) ;;
    advance_to_next_insn pc success.
Definition execute_FCVT_X_F (fmt : sfloat_format) (pc insn : Z) (f : Z -> Z -> M Z Z) : result :=
  fcsr ← read_fcsr;
  let rm := insn_get_rm insn fcsr in
  if FRM_RMM <? rm then raise_illegal_insn_exception pc insn
  else
    let rd := insn_get_rd insn in
    let fflags := fflags_of fcsr in
    s1 ← read_f (insn_get_rs1 insn);
    '(val, fflags) ← with_fflags (f (float_unbox fmt s1) rm) fflags;
    write_fcsr (set_fcsr_fflags fcsr fflags) ;;
    if rd =? 0 then advance_to_next_insn pc success
    else write_x rd (uint64 val) ;; advance_to_next_insn pc success.
Definition execute_FCVT_F_X (fmt : sfloat_format) (pc insn : Z) (f : Z -> Z -> M Z Z) : result :=
  fcsr ← read_fcsr;
  let rm := insn_get_rm insn fcsr in
  if FRM_RMM <? rm then raise_illegal_insn_exception pc insn
  else
    let rd := insn_get_rd insn in
    let fflags := fflags_of fcsr in
    s1 ← read_x (insn_get_rs1 insn);
    '(val, fflags) ← with_fflags (f s1 rm) fflags;
    write_f rd (float_box fmt val) ;;
    write_fcsr (set_fcsr_fflags fcsr fflags) ;;
    advance_to_next_insn pc success.
Definition execute_FMV_F_X (fmt : sfloat_format) (pc insn : Z) : result :=
  if negb (insn_get_funct3 insn =? 0) then raise_illegal_insn_exception pc insn
  else
    let rd := insn_get_rd insn in
    rs1 ← read_x (insn_get_rs1 insn);
    write_f rd (float_box fmt (uwrap (F_SIZE fmt) rs1)) ;;
    advance_to_next_insn pc success.

(** The test on the field FS of the status, off in which float instructions are illegal. *)
Definition unless_FS_off (pc insn : Z) (body : result) : result :=
  mstatus ← read_mstatus;
  if Z.land mstatus MSTATUS_FS_MASK =? MSTATUS_FS_OFF then raise_illegal_insn_exception pc insn else body.

(** ** Instructions *)

Section float_instructions.
Context {cfg : BuildConfig}.

Definition execute_FMADD_S (pc insn : Z) : result :=
  execute_float_ternary_op_rm i_sfloat32 pc insn (fun s1 s2 s3 rm =>
    i_sfloat.fma i_sfloat32 s1 s2 s3 rm).
Definition execute_FMSUB_S (pc insn : Z) : result :=
  execute_float_ternary_op_rm i_sfloat32 pc insn (fun s1 s2 s3 rm =>
    i_sfloat.fma i_sfloat32 s1 s2 (Z.lxor s3 (i_sfloat.SIGN_MASK i_sfloat32)) rm).
Definition execute_FNMADD_S (pc insn : Z) : result :=
  execute_float_ternary_op_rm i_sfloat32 pc insn (fun s1 s2 s3 rm =>
    i_sfloat.fma i_sfloat32 (Z.lxor s1 (i_sfloat.SIGN_MASK i_sfloat32)) s2 (Z.lxor s3 (i_sfloat.SIGN_MASK i_sfloat32)) rm).
Definition execute_FNMSUB_S (pc insn : Z) : result :=
  execute_float_ternary_op_rm i_sfloat32 pc insn (fun s1 s2 s3 rm =>
    i_sfloat.fma i_sfloat32 (Z.lxor s1 (i_sfloat.SIGN_MASK i_sfloat32)) s2 s3 rm).
Definition execute_FADD_S (pc insn : Z) : result :=
  execute_float_binary_op_rm i_sfloat32 pc insn (fun s1 s2 rm => i_sfloat.add i_sfloat32 s1 s2 rm).
Definition execute_FSUB_S (pc insn : Z) : result :=
  execute_float_binary_op_rm i_sfloat32 pc insn (fun s1 s2 rm => i_sfloat.add i_sfloat32 s1 (Z.lxor s2 (i_sfloat.SIGN_MASK i_sfloat32)) rm).
Definition execute_FMUL_S (pc insn : Z) : result :=
  execute_float_binary_op_rm i_sfloat32 pc insn (fun s1 s2 rm => i_sfloat.mul i_sfloat32 s1 s2 rm).
Definition execute_FDIV_S (pc insn : Z) : result :=
  execute_float_binary_op_rm i_sfloat32 pc insn (fun s1 s2 rm => i_sfloat.div i_sfloat32 s1 s2 rm).
Definition execute_FSQRT_S (pc insn : Z) : result :=
  execute_float_unary_op_rm i_sfloat32 pc insn (fun s1 rm => i_sfloat.sqrt i_sfloat32 s1 rm).
Definition execute_FSGNJ_S (pc insn : Z) : result :=
  execute_float_binary_op i_sfloat32 pc insn (fun s1 s2 =>
    mret (Z.lor (Z.land s1 (i_sfloat.F_not i_sfloat32 (i_sfloat.SIGN_MASK i_sfloat32))) (Z.land s2 (i_sfloat.SIGN_MASK i_sfloat32)))).
Definition execute_FSGNJN_S (pc insn : Z) : result :=
  execute_float_binary_op i_sfloat32 pc insn (fun s1 s2 =>
    mret (Z.lor (Z.land s1 (i_sfloat.F_not i_sfloat32 (i_sfloat.SIGN_MASK i_sfloat32))) (Z.lxor (Z.land s2 (i_sfloat.SIGN_MASK i_sfloat32)) (i_sfloat.SIGN_MASK i_sfloat32)))).
Definition execute_FSGNJX_S (pc insn : Z) : result :=
  execute_float_binary_op i_sfloat32 pc insn (fun s1 s2 =>
    mret (Z.lxor s1 (Z.land s2 (i_sfloat.SIGN_MASK i_sfloat32)))).
Definition execute_FMIN_S (pc insn : Z) : result :=
  execute_float_binary_op i_sfloat32 pc insn (fun s1 s2 => i_sfloat.min i_sfloat32 s1 s2).
Definition execute_FMAX_S (pc insn : Z) : result :=
  execute_float_binary_op i_sfloat32 pc insn (fun s1 s2 => i_sfloat.max i_sfloat32 s1 s2).
Definition execute_FLE_S (pc insn : Z) : result :=
  execute_float_cmp_op i_sfloat32 pc insn (fun s1 s2 => i_sfloat.le i_sfloat32 s1 s2).
Definition execute_FLT_S (pc insn : Z) : result :=
  execute_float_cmp_op i_sfloat32 pc insn (fun s1 s2 => i_sfloat.lt i_sfloat32 s1 s2).
Definition execute_FEQ_S (pc insn : Z) : result :=
  execute_float_cmp_op i_sfloat32 pc insn (fun s1 s2 => i_sfloat.eq i_sfloat32 s1 s2).
Definition execute_FCVT_W_S (pc insn : Z) : result :=
  execute_FCVT_X_F i_sfloat32 pc insn (fun s1 rm =>
    i_sfloat.cvt_f_i i_sfloat32 32 false s1 rm).
Definition execute_FCVT_WU_S (pc insn : Z) : result :=
  execute_FCVT_X_F i_sfloat32 pc insn (fun s1 rm =>
    val ← i_sfloat.cvt_f_i i_sfloat32 32 true s1 rm; mret (int32 val)).
Definition execute_FCVT_L_S (pc insn : Z) : result :=
  execute_FCVT_X_F i_sfloat32 pc insn (fun s1 rm =>
    i_sfloat.cvt_f_i i_sfloat32 64 false s1 rm).
Definition execute_FCVT_LU_S (pc insn : Z) : result :=
  execute_FCVT_X_F i_sfloat32 pc insn (fun s1 rm =>
    i_sfloat.cvt_f_i i_sfloat32 64 true s1 rm).
Definition execute_FCVT_S_W (pc insn : Z) : result :=
  execute_FCVT_F_X i_sfloat32 pc insn (fun s1 rm => i_sfloat.cvt_i_f i_sfloat32 32 false (int32 s1) rm).
Definition execute_FCVT_S_WU (pc insn : Z) : result :=
  execute_FCVT_F_X i_sfloat32 pc insn (fun s1 rm => i_sfloat.cvt_i_f i_sfloat32 32 true (uint32 s1) rm).
Definition execute_FCVT_S_L (pc insn : Z) : result :=
  execute_FCVT_F_X i_sfloat32 pc insn (fun s1 rm => i_sfloat.cvt_i_f i_sfloat32 64 false (int64 s1) rm).
Definition execute_FCVT_S_LU (pc insn : Z) : result :=
  execute_FCVT_F_X i_sfloat32 pc insn (fun s1 rm => i_sfloat.cvt_i_f i_sfloat32 64 true s1 rm).
Definition execute_FCLASS_S (pc insn : Z) : result := execute_FCLASS i_sfloat32 pc insn (i_sfloat.fclass i_sfloat32).
Definition execute_FMADD_D (pc insn : Z) : result :=
  execute_float_ternary_op_rm i_sfloat64 pc insn (fun s1 s2 s3 rm =>
    i_sfloat.fma i_sfloat64 s1 s2 s3 rm).
Definition execute_FMSUB_D (pc insn : Z) : result :=
  execute_float_ternary_op_rm i_sfloat64 pc insn (fun s1 s2 s3 rm =>
    i_sfloat.fma i_sfloat64 s1 s2 (Z.lxor s3 (i_sfloat.SIGN_MASK i_sfloat64)) rm).
Definition execute_FNMADD_D (pc insn : Z) : result :=
  execute_float_ternary_op_rm i_sfloat64 pc insn (fun s1 s2 s3 rm =>
    i_sfloat.fma i_sfloat64 (Z.lxor s1 (i_sfloat.SIGN_MASK i_sfloat64)) s2 (Z.lxor s3 (i_sfloat.SIGN_MASK i_sfloat64)) rm).
Definition execute_FNMSUB_D (pc insn : Z) : result :=
  execute_float_ternary_op_rm i_sfloat64 pc insn (fun s1 s2 s3 rm =>
    i_sfloat.fma i_sfloat64 (Z.lxor s1 (i_sfloat.SIGN_MASK i_sfloat64)) s2 s3 rm).
Definition execute_FADD_D (pc insn : Z) : result :=
  execute_float_binary_op_rm i_sfloat64 pc insn (fun s1 s2 rm => i_sfloat.add i_sfloat64 s1 s2 rm).
Definition execute_FSUB_D (pc insn : Z) : result :=
  execute_float_binary_op_rm i_sfloat64 pc insn (fun s1 s2 rm => i_sfloat.add i_sfloat64 s1 (Z.lxor s2 (i_sfloat.SIGN_MASK i_sfloat64)) rm).
Definition execute_FMUL_D (pc insn : Z) : result :=
  execute_float_binary_op_rm i_sfloat64 pc insn (fun s1 s2 rm => i_sfloat.mul i_sfloat64 s1 s2 rm).
Definition execute_FDIV_D (pc insn : Z) : result :=
  execute_float_binary_op_rm i_sfloat64 pc insn (fun s1 s2 rm => i_sfloat.div i_sfloat64 s1 s2 rm).
Definition execute_FSQRT_D (pc insn : Z) : result :=
  execute_float_unary_op_rm i_sfloat64 pc insn (fun s1 rm => i_sfloat.sqrt i_sfloat64 s1 rm).
Definition execute_FSGNJ_D (pc insn : Z) : result :=
  execute_float_binary_op i_sfloat64 pc insn (fun s1 s2 =>
    mret (Z.lor (Z.land s1 (i_sfloat.F_not i_sfloat64 (i_sfloat.SIGN_MASK i_sfloat64))) (Z.land s2 (i_sfloat.SIGN_MASK i_sfloat64)))).
Definition execute_FSGNJN_D (pc insn : Z) : result :=
  execute_float_binary_op i_sfloat64 pc insn (fun s1 s2 =>
    mret (Z.lor (Z.land s1 (i_sfloat.F_not i_sfloat64 (i_sfloat.SIGN_MASK i_sfloat64))) (Z.lxor (Z.land s2 (i_sfloat.SIGN_MASK i_sfloat64)) (i_sfloat.SIGN_MASK i_sfloat64)))).
Definition execute_FSGNJX_D (pc insn : Z) : result :=
  execute_float_binary_op i_sfloat64 pc insn (fun s1 s2 =>
    mret (Z.lxor s1 (Z.land s2 (i_sfloat.SIGN_MASK i_sfloat64)))).
Definition execute_FMIN_D (pc insn : Z) : result :=
  execute_float_binary_op i_sfloat64 pc insn (fun s1 s2 => i_sfloat.min i_sfloat64 s1 s2).
Definition execute_FMAX_D (pc insn : Z) : result :=
  execute_float_binary_op i_sfloat64 pc insn (fun s1 s2 => i_sfloat.max i_sfloat64 s1 s2).
Definition execute_FLE_D (pc insn : Z) : result :=
  execute_float_cmp_op i_sfloat64 pc insn (fun s1 s2 => i_sfloat.le i_sfloat64 s1 s2).
Definition execute_FLT_D (pc insn : Z) : result :=
  execute_float_cmp_op i_sfloat64 pc insn (fun s1 s2 => i_sfloat.lt i_sfloat64 s1 s2).
Definition execute_FEQ_D (pc insn : Z) : result :=
  execute_float_cmp_op i_sfloat64 pc insn (fun s1 s2 => i_sfloat.eq i_sfloat64 s1 s2).
Definition execute_FCVT_W_D (pc insn : Z) : result :=
  execute_FCVT_X_F i_sfloat64 pc insn (fun s1 rm =>
    i_sfloat.cvt_f_i i_sfloat64 32 false s1 rm).
Definition execute_FCVT_WU_D (pc insn : Z) : result :=
  execute_FCVT_X_F i_sfloat64 pc insn (fun s1 rm =>
    val ← i_sfloat.cvt_f_i i_sfloat64 32 true s1 rm; mret (int32 val)).
Definition execute_FCVT_L_D (pc insn : Z) : result :=
  execute_FCVT_X_F i_sfloat64 pc insn (fun s1 rm =>
    i_sfloat.cvt_f_i i_sfloat64 64 false s1 rm).
Definition execute_FCVT_LU_D (pc insn : Z) : result :=
  execute_FCVT_X_F i_sfloat64 pc insn (fun s1 rm =>
    i_sfloat.cvt_f_i i_sfloat64 64 true s1 rm).
Definition execute_FCVT_D_W (pc insn : Z) : result :=
  execute_FCVT_F_X i_sfloat64 pc insn (fun s1 rm => i_sfloat.cvt_i_f i_sfloat64 32 false (int32 s1) rm).
Definition execute_FCVT_D_WU (pc insn : Z) : result :=
  execute_FCVT_F_X i_sfloat64 pc insn (fun s1 rm => i_sfloat.cvt_i_f i_sfloat64 32 true (uint32 s1) rm).
Definition execute_FCVT_D_L (pc insn : Z) : result :=
  execute_FCVT_F_X i_sfloat64 pc insn (fun s1 rm => i_sfloat.cvt_i_f i_sfloat64 64 false (int64 s1) rm).
Definition execute_FCVT_D_LU (pc insn : Z) : result :=
  execute_FCVT_F_X i_sfloat64 pc insn (fun s1 rm => i_sfloat.cvt_i_f i_sfloat64 64 true s1 rm).
Definition execute_FCLASS_D (pc insn : Z) : result := execute_FCLASS i_sfloat64 pc insn (i_sfloat.fclass i_sfloat64).
Definition execute_FCVT_S_D (pc insn : Z) : result :=
  execute_FCVT_F_F i_sfloat64 i_sfloat32 pc insn (fun s1 rm => sfloat_cvt_f64_f32 s1 rm).
Definition execute_FCVT_D_S (pc insn : Z) : result :=
  execute_FCVT_F_F i_sfloat32 i_sfloat64 pc insn (fun s1 rm => sfloat_cvt_f32_f64 s1).
Definition execute_FMV_W_X (pc insn : Z) : result := execute_FMV_F_X i_sfloat32 pc insn.
Definition execute_FMV_D_X (pc insn : Z) : result := execute_FMV_F_X i_sfloat64 pc insn.
Definition execute_FMV_X_W (pc insn : Z) : result :=
  let rd := insn_get_rd insn in
  if rd =? 0 then advance_to_next_insn pc success
  else
    f ← read_f (insn_get_rs1 insn);
    let val := uint32 f in
    write_x rd (uint64 (int32 val)) ;;
    advance_to_next_insn pc success.
Definition execute_FMV_X_D (pc insn : Z) : result :=
  let rd := insn_get_rd insn in
  if rd =? 0 then advance_to_next_insn pc success
  else
    val ← read_f (insn_get_rs1 insn);
    write_x rd val ;;
    advance_to_next_insn pc success.

(** ** Dispatch *)

Definition execute_FSGN_S (pc insn : Z) : result :=
  let field := insn_get_funct3_000000000000 insn in
  if field =? 0 then execute_FSGNJ_S pc insn else
  if field =? 0x1000 then execute_FSGNJN_S pc insn else
  if field =? 0x2000 then execute_FSGNJX_S pc insn else
  raise_illegal_insn_exception pc insn.
Definition execute_FMINMAX_S (pc insn : Z) : result :=
  let field := insn_get_funct3_000000000000 insn in
  if field =? 0 then execute_FMIN_S pc insn else
  if field =? 0x1000 then execute_FMAX_S pc insn else
  raise_illegal_insn_exception pc insn.
Definition execute_FCMP_S (pc insn : Z) : result :=
  let field := insn_get_funct3_000000000000 insn in
  if field =? 0x1000 then execute_FLT_S pc insn else
  if field =? 0 then execute_FLE_S pc insn else
  if field =? 0x2000 then execute_FEQ_S pc insn else
  raise_illegal_insn_exception pc insn.
Definition execute_FSGN_D (pc insn : Z) : result :=
  let field := insn_get_funct3_000000000000 insn in
  if field =? 0 then execute_FSGNJ_D pc insn else
  if field =? 0x1000 then execute_FSGNJN_D pc insn else
  if field =? 0x2000 then execute_FSGNJX_D pc insn else
  raise_illegal_insn_exception pc insn.
Definition execute_FMINMAX_D (pc insn : Z) : result :=
  let field := insn_get_funct3_000000000000 insn in
  if field =? 0 then execute_FMIN_D pc insn else
  if field =? 0x1000 then execute_FMAX_D pc insn else
  raise_illegal_insn_exception pc insn.
Definition execute_FCMP_D (pc insn : Z) : result :=
  let field := insn_get_funct3_000000000000 insn in
  if field =? 0x1000 then execute_FLT_D pc insn else
  if field =? 0 then execute_FLE_D pc insn else
  if field =? 0x2000 then execute_FEQ_D pc insn else
  raise_illegal_insn_exception pc insn.
Definition execute_FMV_FCLASS_S (pc insn : Z) : result :=
  let field := insn_get_funct3_000000000000 insn in
  if field =? 0 then execute_FMV_X_W pc insn else
  if field =? 0x1000 then execute_FCLASS_S pc insn else
  raise_illegal_insn_exception pc insn.
Definition execute_FMV_FCLASS_D (pc insn : Z) : result :=
  let field := insn_get_funct3_000000000000 insn in
  if field =? 0 then execute_FMV_X_D pc insn else
  if field =? 0x1000 then execute_FCLASS_D pc insn else
  raise_illegal_insn_exception pc insn.
Definition execute_FMADD (pc insn : Z) : result :=
  unless_FS_off pc insn
    (let field := insn_get_funct2_0000000000000000000000000 insn in
     if field =? 0 then execute_FMADD_S pc insn else
     if field =? 0x2000000 then execute_FMADD_D pc insn else
     raise_illegal_insn_exception pc insn).
Definition execute_FMSUB (pc insn : Z) : result :=
  unless_FS_off pc insn
    (let field := insn_get_funct2_0000000000000000000000000 insn in
     if field =? 0 then execute_FMSUB_S pc insn else
     if field =? 0x2000000 then execute_FMSUB_D pc insn else
     raise_illegal_insn_exception pc insn).
Definition execute_FNMADD (pc insn : Z) : result :=
  unless_FS_off pc insn
    (let field := insn_get_funct2_0000000000000000000000000 insn in
     if field =? 0 then execute_FNMADD_S pc insn else
     if field =? 0x2000000 then execute_FNMADD_D pc insn else
     raise_illegal_insn_exception pc insn).
Definition execute_FNMSUB (pc insn : Z) : result :=
  unless_FS_off pc insn
    (let field := insn_get_funct2_0000000000000000000000000 insn in
     if field =? 0 then execute_FNMSUB_S pc insn else
     if field =? 0x2000000 then execute_FNMSUB_D pc insn else
     raise_illegal_insn_exception pc insn).
Definition execute_FCVT_FMV_FCLASS (pc insn : Z) : result :=
  let field := insn_get_funct7_rs2 insn in
  if field =? 0xc00 then execute_FCVT_W_S pc insn else
  if field =? 0xc01 then execute_FCVT_WU_S pc insn else
  if field =? 0xc02 then execute_FCVT_L_S pc insn else
  if field =? 0xc03 then execute_FCVT_LU_S pc insn else
  if field =? 0xc20 then execute_FCVT_W_D pc insn else
  if field =? 0xc21 then execute_FCVT_WU_D pc insn else
  if field =? 0xc22 then execute_FCVT_L_D pc insn else
  if field =? 0xc23 then execute_FCVT_LU_D pc insn else
  if field =? 0x401 then execute_FCVT_S_D pc insn else
  if field =? 0xd00 then execute_FCVT_S_W pc insn else
  if field =? 0xd01 then execute_FCVT_S_WU pc insn else
  if field =? 0xd02 then execute_FCVT_S_L pc insn else
  if field =? 0xd03 then execute_FCVT_S_LU pc insn else
  if field =? 0x420 then execute_FCVT_D_S pc insn else
  if field =? 0xd20 then execute_FCVT_D_W pc insn else
  if field =? 0xd21 then execute_FCVT_D_WU pc insn else
  if field =? 0xd22 then execute_FCVT_D_L pc insn else
  if field =? 0xd23 then execute_FCVT_D_LU pc insn else
  if field =? 0xf00 then execute_FMV_W_X pc insn else
  if field =? 0xf20 then execute_FMV_D_X pc insn else
  if field =? 0xe00 then execute_FMV_FCLASS_S pc insn else
  if field =? 0xe20 then execute_FMV_FCLASS_D pc insn else
  raise_illegal_insn_exception pc insn.
Definition execute_FD (pc insn : Z) : result :=
  unless_FS_off pc insn
    (let field := insn_get_funct7 insn in
     if field =? 0x0 then execute_FADD_S pc insn else
     if field =? 0x1 then execute_FADD_D pc insn else
     if field =? 0x4 then execute_FSUB_S pc insn else
     if field =? 0x5 then execute_FSUB_D pc insn else
     if field =? 0x8 then execute_FMUL_S pc insn else
     if field =? 0x9 then execute_FMUL_D pc insn else
     if field =? 0xc then execute_FDIV_S pc insn else
     if field =? 0xd then execute_FDIV_D pc insn else
     if field =? 0x10 then execute_FSGN_S pc insn else
     if field =? 0x11 then execute_FSGN_D pc insn else
     if field =? 0x14 then execute_FMINMAX_S pc insn else
     if field =? 0x15 then execute_FMINMAX_D pc insn else
     if field =? 0x2c then execute_FSQRT_S pc insn else
     if field =? 0x2d then execute_FSQRT_D pc insn else
     if field =? 0x50 then execute_FCMP_S pc insn else
     if field =? 0x51 then execute_FCMP_D pc insn else
     execute_FCVT_FMV_FCLASS pc insn).
End float_instructions.

(** ** Loads and stores *)

Section float_memory_instructions.
Context (pmas : list address_range) (EVENT_DRIVEN_INTERPRETER_DEADLINES : bool).
#[local] Abbreviation read_virtual_memory := (read_virtual_memory pmas).
#[local] Abbreviation write_virtual_memory := (write_virtual_memory pmas EVENT_DRIVEN_INTERPRETER_DEADLINES).

(** [log2_size] is that of the format. *)
Definition execute_FS (fmt : sfloat_format) (log2_size pc mcycle insn : Z) : result :=
  vaddr ← read_x (insn_get_rs1 insn);
  let imm := insn_S_get_imm insn in
  f ← read_f (insn_get_rs2 insn);
  let val := uwrap (F_SIZE fmt) f in
  '(status, pc) ← write_virtual_memory log2_size pc mcycle (uint64 (vaddr + imm)) val;
  if negb (bool_decide (status = success)) then
    if bool_decide (status = failure) then advance_to_raised_exception pc
    else advance_to_next_insn pc status
  else advance_to_next_insn pc success.
Definition execute_FSW (pc mcycle insn : Z) : result := unless_FS_off pc insn (execute_FS i_sfloat32 2 pc mcycle insn).
Definition execute_FSD (pc mcycle insn : Z) : result := unless_FS_off pc insn (execute_FS i_sfloat64 3 pc mcycle insn).

Definition execute_FL (fmt : sfloat_format) (log2_size pc mcycle insn : Z) : result :=
  vaddr ← read_x (insn_get_rs1 insn);
  let imm := insn_I_get_imm insn in
  '(val, pc) ← read_virtual_memory false log2_size pc mcycle (uint64 (vaddr + imm));
  match val with
  | None => advance_to_raised_exception pc
  | Some val =>
      let rd := insn_get_rd insn in
      write_f rd (float_box fmt val) ;;
      advance_to_next_insn pc success
  end.
Definition execute_FLW (pc mcycle insn : Z) : result := unless_FS_off pc insn (execute_FL i_sfloat32 2 pc mcycle insn).
Definition execute_FLD (pc mcycle insn : Z) : result := unless_FS_off pc insn (execute_FL i_sfloat64 3 pc mcycle insn).
End float_memory_instructions.
