(* ===== verification/Compressed.v ===== *)
(** * Compressed instructions of the interpreter (src/interpret.cpp)

    One definition per [execute_C_*] function of the C and Zcb extensions.
    They do not test their encoding: what the jump table guarantees about
    it is in JumpTable.v. *)

From S2P Require Import Prelude Bits Shadow SolidityCompat HashTree Memory Machine MachineFacts UarchMemory Riscv Hart Trap Csr Devices VirtualMemory Decode Execute SoftFloat ExecuteFloat.

Definition execute_C_arithmetic (pc insn : Z) (f : Z -> Z -> Z) : result :=
  let rs1 := insn_get_CL_CS_CA_CB_rs1 insn in
  rs1_value ← read_x rs1;
  rs2_value ← read_x (insn_get_CIW_CL_rd_CS_CA_rs2 insn);
  write_x rs1 (f rs1_value rs2_value) ;;
  advance_to_next_insn_by 2 pc success.

(** Immediates and moves. *)
Definition execute_C_ADDI4SPN (pc insn : Z) : result :=
  let rd := insn_get_CIW_CL_rd_CS_CA_rs2 insn in
  let imm := insn_get_CIW_imm insn in
  rs1 ← read_x 2;
  write_x rd (uint64 (int64 (int64 rs1 + imm))) ;;
  advance_to_next_insn_by 2 pc success.
Definition execute_C_NOP (pc insn : Z) : result := advance_to_next_insn_by 2 pc success.
Definition execute_C_ADDI (pc insn : Z) : result :=
  let rd := insn_get_rd insn in
  let imm := insn_get_CI_CB_imm_se insn in
  rd_value ← read_x rd;
  write_x rd (uint64 (int64 (int64 rd_value + imm))) ;;
  advance_to_next_insn_by 2 pc success.
Definition execute_C_ADDIW (pc insn : Z) : result :=
  let rd := insn_get_rd insn in
  rd_value ← read_x rd;
  let imm := insn_get_CI_CB_imm_se insn in
  write_x rd (uint64 (int32 (int32 rd_value + imm))) ;;
  advance_to_next_insn_by 2 pc success.
Definition execute_C_LI (pc insn : Z) : result :=
  let rd := insn_get_rd insn in
  let imm := insn_get_CI_CB_imm_se insn in
  write_x rd (uint64 imm) ;;
  advance_to_next_insn_by 2 pc success.
Definition execute_C_ADDI16SP (pc insn : Z) : result :=
  let imm := insn_get_C_ADDI16SP_imm insn in
  rs1_value ← read_x 2;
  write_x 2 (uint64 (int64 (int64 rs1_value + imm))) ;;
  advance_to_next_insn_by 2 pc success.
Definition execute_C_LUI (pc insn : Z) : result :=
  let imm := insn_get_C_LUI_imm insn in
  let rd := insn_get_rd insn in
  write_x rd (uint64 imm) ;;
  advance_to_next_insn_by 2 pc success.
Definition execute_C_SRLI (pc insn : Z) : result :=
  let rs1 := insn_get_CL_CS_CA_CB_rs1 insn in
  let imm := insn_get_CI_CB_imm insn in
  rs1_value ← read_x rs1;
  write_x rs1 (Z.shiftr rs1_value imm) ;;
  advance_to_next_insn_by 2 pc success.
Definition execute_C_SRAI (pc insn : Z) : result :=
  let rs1 := insn_get_CL_CS_CA_CB_rs1 insn in
  let imm := insn_get_CI_CB_imm insn in
  rs1_value ← read_x rs1;
  write_x rs1 (uint64 (Z.shiftr (int64 rs1_value) imm)) ;;
  advance_to_next_insn_by 2 pc success.
Definition execute_C_ANDI (pc insn : Z) : result :=
  let rs1 := insn_get_CL_CS_CA_CB_rs1 insn in
  let imm := insn_get_CI_CB_imm_se insn in
  rs1_value ← read_x rs1;
  write_x rs1 (Z.land rs1_value (uint64 imm)) ;;
  advance_to_next_insn_by 2 pc success.
Definition execute_C_SLLI (pc insn : Z) : result :=
  let rd := insn_get_rd insn in
  let imm := insn_get_CI_CB_imm insn in
  rs1_value ← read_x rd;
  write_x rd (uint64 (Z.shiftl rs1_value imm)) ;;
  advance_to_next_insn_by 2 pc success.
Definition execute_C_MV (pc insn : Z) : result :=
  let rd := insn_get_rd insn in
  let rs2 := insn_get_CR_CSS_rs2 insn in
  val ← read_x rs2;
  write_x rd val ;;
  advance_to_next_insn_by 2 pc success.
Definition execute_C_ADD (pc insn : Z) : result :=
  let rd := insn_get_rd insn in
  let rs2 := insn_get_CR_CSS_rs2 insn in
  rd_value ← read_x rd;
  rs2_value ← read_x rs2;
  write_x rd (uint64 (rd_value + rs2_value)) ;;
  advance_to_next_insn_by 2 pc success.

Definition execute_C_SUB (pc insn : Z) : result :=
  execute_C_arithmetic pc insn (fun rs1_value rs2_value => uint64 (rs1_value - rs2_value)).
Definition execute_C_XOR (pc insn : Z) : result :=
  execute_C_arithmetic pc insn (fun rs1_value rs2_value => Z.lxor rs1_value rs2_value).
Definition execute_C_OR (pc insn : Z) : result :=
  execute_C_arithmetic pc insn (fun rs1_value rs2_value => Z.lor rs1_value rs2_value).
Definition execute_C_AND (pc insn : Z) : result :=
  execute_C_arithmetic pc insn (fun rs1_value rs2_value => Z.land rs1_value rs2_value).
Definition execute_C_SUBW (pc insn : Z) : result :=
  execute_C_arithmetic pc insn (fun rs1_value rs2_value => uint64 (int32 (int32 rs1_value - int32 rs2_value))).
Definition execute_C_ADDW (pc insn : Z) : result :=
  execute_C_arithmetic pc insn (fun rs1_value rs2_value => uint64 (int32 (int32 rs1_value + int32 rs2_value))).
Definition execute_C_MUL (pc insn : Z) : result :=
  execute_C_arithmetic pc insn (fun rs1_value rs2_value => uint64 (int64 (int64 rs1_value * int64 rs2_value))).

(** Zcb: extensions and complement. *)
Definition execute_C_ZEXT_B (pc insn : Z) : result :=
  let rd := insn_get_CL_CS_CA_CB_rs1 insn in
  rs1_value ← read_x rd;
  write_x rd (uint8 rs1_value) ;;
  advance_to_next_insn_by 2 pc success.
Definition execute_C_SEXT_B (pc insn : Z) : result :=
  let rd := insn_get_CL_CS_CA_CB_rs1 insn in
  rs1_value ← read_x rd;
  write_x rd (uint64 (int8 rs1_value)) ;;
  advance_to_next_insn_by 2 pc success.
Definition execute_C_ZEXT_H (pc insn : Z) : result :=
  let rd := insn_get_CL_CS_CA_CB_rs1 insn in
  rs1_value ← read_x rd;
  write_x rd (uint16 rs1_value) ;;
  advance_to_next_insn_by 2 pc success.
Definition execute_C_SEXT_H (pc insn : Z) : result :=
  let rd := insn_get_CL_CS_CA_CB_rs1 insn in
  rs1_value ← read_x rd;
  write_x rd (uint64 (int16 rs1_value)) ;;
  advance_to_next_insn_by 2 pc success.
Definition execute_C_ZEXT_W (pc insn : Z) : result :=
  let rd := insn_get_CL_CS_CA_CB_rs1 insn in
  rs1_value ← read_x rd;
  write_x rd (uint64 (uint32 rs1_value)) ;;
  advance_to_next_insn_by 2 pc success.
Definition execute_C_NOT (pc insn : Z) : result :=
  let rd := insn_get_CL_CS_CA_CB_rs1 insn in
  rs1_value ← read_x rd;
  write_x rd (not64 rs1_value) ;;
  advance_to_next_insn_by 2 pc success.

(** Jumps and branches. *)
Definition execute_C_J (pc insn : Z) : result :=
  let new_pc := uint64 (pc + uint64 (insn_get_C_J_imm insn)) in
  execute_jump pc new_pc.
Definition execute_C_BEQZ (pc insn : Z) : result :=
  let rs1 := insn_get_CL_CS_CA_CB_rs1 insn in
  rs1_value ← read_x rs1;
  if rs1_value =? 0 then
    let imm := insn_get_C_BEQZ_BNEZ_imm insn in
    let new_pc := uint64 (pc + uint64 imm) in
    execute_jump pc new_pc
  else advance_to_next_insn_by 2 pc success.
Definition execute_C_BNEZ (pc insn : Z) : result :=
  let rs1 := insn_get_CL_CS_CA_CB_rs1 insn in
  rs1_value ← read_x rs1;
  if negb (rs1_value =? 0) then
    let imm := insn_get_C_BEQZ_BNEZ_imm insn in
    let new_pc := uint64 (pc + uint64 imm) in
    execute_jump pc new_pc
  else advance_to_next_insn_by 2 pc success.
Definition execute_C_JR (pc insn : Z) : result :=
  let rs1 := insn_get_rd insn in
  rs1_value ← read_x rs1;
  let new_pc := Z.land rs1_value (not64 1) in
  execute_jump pc new_pc.
Definition execute_C_JALR (pc insn : Z) : result :=
  let rs1 := insn_get_rd insn in
  rs1_value ← read_x rs1;
  let new_pc := Z.land rs1_value (not64 1) in
  let val := uint64 (pc + 2) in
  write_x 1 val ;;
  execute_jump pc new_pc.
Definition execute_C_EBREAK (pc insn : Z) : result :=
  pc ← raise_exception pc MCAUSE_BREAKPOINT pc;
  advance_to_raised_exception pc.

(** Loads and stores. *)
Section compressed_memory.
Context (pmas : list address_range) (EVENT_DRIVEN_INTERPRETER_DEADLINES : bool).
#[local] Abbreviation read_virtual_memory := (read_virtual_memory pmas).
#[local] Abbreviation write_virtual_memory := (write_virtual_memory pmas EVENT_DRIVEN_INTERPRETER_DEADLINES).

Definition execute_C_L (is_signed : bool) (log2_size pc mcycle rd rs1 imm : Z) : result :=
  vaddr ← read_x rs1;
  '(val, pc) ← read_virtual_memory false log2_size pc mcycle (uint64 (vaddr + imm));
  match val with
  | None => advance_to_raised_exception pc
  | Some val =>
      write_x rd (extend_load is_signed log2_size val) ;;
      advance_to_next_insn_by 2 pc success
  end.
Definition execute_C_S (log2_size pc mcycle rs2 rs1 imm : Z) : result :=
  vaddr ← read_x rs1;
  val ← read_x rs2;
  '(status, pc) ← write_virtual_memory log2_size pc mcycle (uint64 (vaddr + imm)) val;
  if negb (bool_decide (status = success)) then
    if bool_decide (status = failure) then advance_to_raised_exception pc
    else advance_to_next_insn_by 2 pc status
  else advance_to_next_insn_by 2 pc success.
Definition execute_C_FL (fmt : sfloat_format) (log2_size pc mcycle rd rs1 imm : Z) : result :=
  vaddr ← read_x rs1;
  '(val, pc) ← read_virtual_memory false log2_size pc mcycle (uint64 (vaddr + imm));
  match val with
  | None => advance_to_raised_exception pc
  | Some val =>
      write_f rd (float_box fmt val) ;;
      advance_to_next_insn_by 2 pc success
  end.
Definition execute_C_FS (fmt : sfloat_format) (log2_size pc mcycle rs2 rs1 imm : Z) : result :=
  vaddr ← read_x rs1;
  f ← read_f rs2;
  let val := uwrap (F_SIZE fmt) f in
  '(status, pc) ← write_virtual_memory log2_size pc mcycle (uint64 (vaddr + imm)) val;
  if negb (bool_decide (status = success)) then
    if bool_decide (status = failure) then advance_to_raised_exception pc
    else advance_to_next_insn_by 2 pc status
  else advance_to_next_insn_by 2 pc success.

Definition execute_C_FLD (pc mcycle insn : Z) : result :=
  unless_FS_off pc insn (execute_C_FL i_sfloat64 3 pc mcycle (insn_get_CIW_CL_rd_CS_CA_rs2 insn) (insn_get_CL_CS_CA_CB_rs1 insn) (insn_get_CL_CS_imm insn)).
Definition execute_C_LW (pc mcycle insn : Z) : result :=
  execute_C_L true 2 pc mcycle (insn_get_CIW_CL_rd_CS_CA_rs2 insn) (insn_get_CL_CS_CA_CB_rs1 insn) (insn_get_C_LW_C_SW_imm insn).
Definition execute_C_LD (pc mcycle insn : Z) : result :=
  execute_C_L true 3 pc mcycle (insn_get_CIW_CL_rd_CS_CA_rs2 insn) (insn_get_CL_CS_CA_CB_rs1 insn) (insn_get_CL_CS_imm insn).
Definition execute_C_FSD (pc mcycle insn : Z) : result :=
  unless_FS_off pc insn (execute_C_FS i_sfloat64 3 pc mcycle (insn_get_CIW_CL_rd_CS_CA_rs2 insn) (insn_get_CL_CS_CA_CB_rs1 insn) (insn_get_CL_CS_imm insn)).
Definition execute_C_SW (pc mcycle insn : Z) : result :=
  execute_C_S 2 pc mcycle (insn_get_CIW_CL_rd_CS_CA_rs2 insn) (insn_get_CL_CS_CA_CB_rs1 insn) (insn_get_C_LW_C_SW_imm insn).
Definition execute_C_SD (pc mcycle insn : Z) : result :=
  execute_C_S 3 pc mcycle (insn_get_CIW_CL_rd_CS_CA_rs2 insn) (insn_get_CL_CS_CA_CB_rs1 insn) (insn_get_CL_CS_imm insn).
Definition execute_C_LBU (pc mcycle insn : Z) : result :=
  execute_C_L false 0 pc mcycle (insn_get_CIW_CL_rd_CS_CA_rs2 insn) (insn_get_CL_CS_CA_CB_rs1 insn) (insn_get_C_LS_B_uimm insn).
Definition execute_C_LHU (pc mcycle insn : Z) : result :=
  execute_C_L false 1 pc mcycle (insn_get_CIW_CL_rd_CS_CA_rs2 insn) (insn_get_CL_CS_CA_CB_rs1 insn) (insn_get_C_LS_H_uimm insn).
Definition execute_C_LH (pc mcycle insn : Z) : result :=
  execute_C_L true 1 pc mcycle (insn_get_CIW_CL_rd_CS_CA_rs2 insn) (insn_get_CL_CS_CA_CB_rs1 insn) (insn_get_C_LS_H_uimm insn).
Definition execute_C_SB (pc mcycle insn : Z) : result :=
  execute_C_S 0 pc mcycle (insn_get_CIW_CL_rd_CS_CA_rs2 insn) (insn_get_CL_CS_CA_CB_rs1 insn) (insn_get_C_LS_B_uimm insn).
Definition execute_C_SH (pc mcycle insn : Z) : result :=
  execute_C_S 1 pc mcycle (insn_get_CIW_CL_rd_CS_CA_rs2 insn) (insn_get_CL_CS_CA_CB_rs1 insn) (insn_get_C_LS_H_uimm insn).
Definition execute_C_FLDSP (pc mcycle insn : Z) : result :=
  unless_FS_off pc insn (execute_C_FL i_sfloat64 3 pc mcycle (insn_get_rd insn) 2 (insn_get_C_FLDSP_LDSP_imm insn)).
Definition execute_C_LWSP (pc mcycle insn : Z) : result :=
  execute_C_L true 2 pc mcycle (insn_get_rd insn) 2 (insn_get_C_LWSP_imm insn).
Definition execute_C_LDSP (pc mcycle insn : Z) : result :=
  execute_C_L true 3 pc mcycle (insn_get_rd insn) 2 (insn_get_C_FLDSP_LDSP_imm insn).
Definition execute_C_FSDSP (pc mcycle insn : Z) : result :=
  unless_FS_off pc insn (execute_C_FS i_sfloat64 3 pc mcycle (insn_get_CR_CSS_rs2 insn) 2 (insn_get_C_FSDSP_SDSP_imm insn)).
Definition execute_C_SWSP (pc mcycle insn : Z) : result :=
  execute_C_S 2 pc mcycle (insn_get_CR_CSS_rs2 insn) 2 (insn_get_C_SWSP_imm insn).
Definition execute_C_SDSP (pc mcycle insn : Z) : result :=
  execute_C_S 3 pc mcycle (insn_get_CR_CSS_rs2 insn) 2 (insn_get_C_FSDSP_SDSP_imm insn).
End compressed_memory.
