(* ===== verification/JumpTable.v ===== *)
(** * The jump table of the interpreter (tools/gen-interpret-jump-table.lua)

    The table that interpret.cpp includes is generated at build time; this
    is the generator, from its list of encodings to the label of each of the
    65536 values of the 16 low bits of an instruction.  Labels are the names
    that the generator emits. *)

From Stdlib Require Import Ascii.
From S2P Require Import Prelude.
#[local] Open Scope string_scope.
#[local] Open Scope list_scope.
#[local] Open Scope Z_scope.

Record insn_pattern := { bits : string; name : string; rd0_special : bool; rm : bool }.

(** A pattern, and whether it is special for [rd = 0] or has a rounding mode. *)
#[local] Abbreviation I b n := {| bits := b; name := n; rd0_special := false; rm := false |}.
#[local] Abbreviation Ird0 b n := {| bits := b; name := n; rd0_special := true; rm := false |}.
#[local] Abbreviation Irm b n := {| bits := b; name := n; rd0_special := false; rm := true |}.

Definition insns : list insn_pattern := [
  Ird0 "_________________________0110111" "LUI";
  Ird0 "_________________________0010111" "AUIPC";
  Ird0 "_________________________1101111" "JAL";
  Ird0 "_________________000_____1100111" "JALR";
  I "_________________000_____1100011" "BEQ";
  I "_________________001_____1100011" "BNE";
  I "_________________100_____1100011" "BLT";
  I "_________________101_____1100011" "BGE";
  I "_________________110_____1100011" "BLTU";
  I "_________________111_____1100011" "BGEU";
  Ird0 "_________________000_____0000011" "LB";
  Ird0 "_________________001_____0000011" "LH";
  Ird0 "_________________010_____0000011" "LW";
  Ird0 "_________________100_____0000011" "LBU";
  Ird0 "_________________101_____0000011" "LHU";
  I "_________________000_____0100011" "SB";
  I "_________________001_____0100011" "SH";
  I "_________________010_____0100011" "SW";
  Ird0 "_________________000_____0010011" "ADDI";
  Ird0 "_________________010_____0010011" "SLTI";
  Ird0 "_________________011_____0010011" "SLTIU";
  Ird0 "_________________100_____0010011" "XORI";
  Ird0 "_________________110_____0010011" "ORI";
  Ird0 "_________________111_____0010011" "ANDI";
  Ird0 "000000___________001_____0010011" "SLLI";
  Ird0 "000000___________101_____0010011" "SRLI";
  Ird0 "010000___________101_____0010011" "SRAI";
  Ird0 "0000000__________000_____0110011" "ADD";
  Ird0 "0100000__________000_____0110011" "SUB";
  Ird0 "0000000__________001_____0110011" "SLL";
  Ird0 "0000000__________010_____0110011" "SLT";
  Ird0 "0000000__________011_____0110011" "SLTU";
  Ird0 "0000000__________100_____0110011" "XOR";
  Ird0 "0000000__________101_____0110011" "SRL";
  Ird0 "0100000__________101_____0110011" "SRA";
  Ird0 "0000000__________110_____0110011" "OR";
  Ird0 "0000000__________111_____0110011" "AND";
  I "_________________000_____0001111" "FENCE";
  I "00000000000000000000000001110011" "ECALL";
  I "00000000000100000000000001110011" "EBREAK";
  Ird0 "_________________110_____0000011" "LWU";
  Ird0 "_________________011_____0000011" "LD";
  I "_________________011_____0100011" "SD";
  Ird0 "_________________000_____0011011" "ADDIW";
  Ird0 "0000000__________001_____0011011" "SLLIW";
  Ird0 "0000000__________101_____0011011" "SRLIW";
  Ird0 "0100000__________101_____0011011" "SRAIW";
  Ird0 "0000000__________000_____0111011" "ADDW";
  Ird0 "0100000__________000_____0111011" "SUBW";
  Ird0 "0000000__________001_____0111011" "SLLW";
  Ird0 "0000000__________101_____0111011" "SRLW";
  Ird0 "0100000__________101_____0111011" "SRAW";
  Ird0 "0000001__________000_____0110011" "MUL";
  Ird0 "0000001__________001_____0110011" "MULH";
  Ird0 "0000001__________010_____0110011" "MULHSU";
  Ird0 "0000001__________011_____0110011" "MULHU";
  Ird0 "0000001__________100_____0110011" "DIV";
  Ird0 "0000001__________101_____0110011" "DIVU";
  Ird0 "0000001__________110_____0110011" "REM";
  Ird0 "0000001__________111_____0110011" "REMU";
  Ird0 "0000001__________000_____0111011" "MULW";
  Ird0 "0000001__________100_____0111011" "DIVW";
  Ird0 "0000001__________101_____0111011" "DIVUW";
  Ird0 "0000001__________110_____0111011" "REMW";
  Ird0 "0000001__________111_____0111011" "REMUW";
  I "00010__00000_____010_____0101111" "LR.W";
  I "00011____________010_____0101111" "SC.W";
  I "00001____________010_____0101111" "AMOSWAP.W";
  I "00000____________010_____0101111" "AMOADD.W";
  I "00100____________010_____0101111" "AMOXOR.W";
  I "01100____________010_____0101111" "AMOAND.W";
  I "01000____________010_____0101111" "AMOOR.W";
  I "10000____________010_____0101111" "AMOMIN.W";
  I "10100____________010_____0101111" "AMOMAX.W";
  I "11000____________010_____0101111" "AMOMINU.W";
  I "11100____________010_____0101111" "AMOMAXU.W";
  I "00010__00000_____011_____0101111" "LR.D";
  I "00011____________011_____0101111" "SC.D";
  I "00001____________011_____0101111" "AMOSWAP.D";
  I "00000____________011_____0101111" "AMOADD.D";
  I "00100____________011_____0101111" "AMOXOR.D";
  I "01100____________011_____0101111" "AMOAND.D";
  I "01000____________011_____0101111" "AMOOR.D";
  I "10000____________011_____0101111" "AMOMIN.D";
  I "10100____________011_____0101111" "AMOMAX.D";
  I "11000____________011_____0101111" "AMOMINU.D";
  I "11100____________011_____0101111" "AMOMAXU.D";
  I "_________________010_____0000111" "FLW";
  I "_________________010_____0100111" "FSW";
  Irm "_____00__________________1000011" "FMADD.S";
  Irm "_____00__________________1000111" "FMSUB.S";
  Irm "_____00__________________1001011" "FNMSUB.S";
  Irm "_____00__________________1001111" "FNMADD.S";
  Irm "0000000__________________1010011" "FADD.S";
  Irm "0000100__________________1010011" "FSUB.S";
  Irm "0001000__________________1010011" "FMUL.S";
  Irm "0001100__________________1010011" "FDIV.S";
  Irm "010110000000_____________1010011" "FSQRT.S";
  I "0010000__________000_____1010011" "FSGNJ.S";
  I "0010000__________001_____1010011" "FSGNJN.S";
  I "0010000__________010_____1010011" "FSGNJX.S";
  I "0010100__________000_____1010011" "FMIN.S";
  I "0010100__________001_____1010011" "FMAX.S";
  Irm "110000000000_____________1010011" "FCVT.W.S";
  Irm "110000000001_____________1010011" "FCVT.WU.S";
  I "111000000000_____000_____1010011" "FMV.X.W";
  I "1010000__________010_____1010011" "FEQ.S";
  I "1010000__________001_____1010011" "FLT.S";
  I "1010000__________000_____1010011" "FLE.S";
  I "111000000000_____001_____1010011" "FCLASS.S";
  Irm "110100000000_____________1010011" "FCVT.S.W";
  Irm "110100000001_____________1010011" "FCVT.S.WU";
  I "111100000000_____000_____1010011" "FMV.W.X";
  Irm "110000000010_____________1010011" "FCVT.L.S";
  Irm "110000000011_____________1010011" "FCVT.LU.S";
  Irm "110100000010_____________1010011" "FCVT.S.L";
  Irm "110100000011_____________1010011" "FCVT.S.LU";
  I "_________________011_____0000111" "FLD";
  I "_________________011_____0100111" "FSD";
  Irm "_____01__________________1000011" "FMADD.D";
  Irm "_____01__________________1000111" "FMSUB.D";
  Irm "_____01__________________1001011" "FNMSUB.D";
  Irm "_____01__________________1001111" "FNMADD.D";
  Irm "0000001__________________1010011" "FADD.D";
  Irm "0000101__________________1010011" "FSUB.D";
  Irm "0001001__________________1010011" "FMUL.D";
  Irm "0001101__________________1010011" "FDIV.D";
  Irm "010110100000_____________1010011" "FSQRT.D";
  I "0010001__________000_____1010011" "FSGNJ.D";
  I "0010001__________001_____1010011" "FSGNJN.D";
  I "0010001__________010_____1010011" "FSGNJX.D";
  I "0010101__________000_____1010011" "FMIN.D";
  I "0010101__________001_____1010011" "FMAX.D";
  Irm "010000000001_____________1010011" "FCVT.S.D";
  Irm "010000100000_____________1010011" "FCVT.D.S";
  I "1010001__________010_____1010011" "FEQ.D";
  I "1010001__________001_____1010011" "FLT.D";
  I "1010001__________000_____1010011" "FLE.D";
  Irm "111000100000_____001_____1010011" "FCLASS.D";
  Irm "110000100000_____________1010011" "FCVT.W.D";
  Irm "110000100001_____________1010011" "FCVT.WU.D";
  Irm "110100100000_____________1010011" "FCVT.D.W";
  Irm "110100100001_____________1010011" "FCVT.D.WU";
  Irm "110000100010_____________1010011" "FCVT.L.D";
  Irm "110000100011_____________1010011" "FCVT.LU.D";
  I "111000100000_____000_____1010011" "FMV.X.D";
  Irm "110100100010_____________1010011" "FCVT.D.L";
  Irm "110100100011_____________1010011" "FCVT.D.LU";
  I "111100100000_____000_____1010011" "FMV.D.X";
  I "_________________001_____0001111" "FENCE.I";
  I "_________________001_____1110011" "CSRRW";
  I "_________________010_____1110011" "CSRRS";
  I "_________________011_____1110011" "CSRRC";
  I "_________________101_____1110011" "CSRRWI";
  I "_________________110_____1110011" "CSRRSI";
  I "_________________111_____1110011" "CSRRCI";
  I "00010000001000000000000001110011" "SRET";
  I "00110000001000000000000001110011" "MRET";
  I "01110000001000000000000001110011" "MNRET";
  I "00010000010100000000000001110011" "WFI";
  I "0001001__________000000001110011" "SFENCE.VMA"].

(** ** Strings of bits *)

(** [num] in base 2 on [nbits] digits. *)
Fixpoint tobase2 (num : Z) (nbits : nat) : string :=
  match nbits with
  | O => ""
  | S n => String (if Z.testbit num (Z.of_nat n) then "1"%char else "0"%char) (tobase2 num n)
  end.
(** Whether the bits can be those of the mask; an underscore is any bit. *)
Fixpoint matchmask (bits mask : string) : bool :=
  match bits, mask with
  | String b bits, String m mask =>
      if Ascii.eqb b "_"%char then matchmask bits mask
      else if Ascii.eqb m "_"%char then matchmask bits mask
      else if Ascii.eqb b m then matchmask bits mask else false
  | _, _ => true
  end.
Definition gsub (from to : Ascii.ascii) (s : string) : string :=
  String.string_of_list_ascii (map (fun c => if Ascii.eqb c from then to else c) (String.list_ascii_of_string s)).

(** ** Compressed instructions

    The generator goes through the values of the fields of each format and
    puts a name at the index with these fields; here the fields are those of
    the index [idx], and the tests are those on the loop variables.  An
    index that no loop reaches has no name. *)

Definition field (idx lo len : Z) : Z := Z.land (Z.shiftr idx lo) (Z.ones len).
Definition unless_hint (c : bool) (name : string) : option string := Some (if c then name else "C_HINT").

Definition quadrant0 (idx : Z) : option string :=
  let funct3 := field idx 13 3 in
  if funct3 =? 0 then let imm := field idx 5 8 in if negb (imm =? 0) then Some "C_ADDI4SPN" else None
  else if funct3 =? 1 then Some "C_FLD"
  else if funct3 =? 2 then Some "C_LW"
  else if funct3 =? 3 then Some "C_LD"
  else if funct3 =? 5 then Some "C_FSD"
  else if funct3 =? 6 then Some "C_SW"
  else if funct3 =? 7 then Some "C_SD"
  else
    let op := field idx 10 3 in
    if op =? 2 then Some "C_SB"
    else if op =? 3 then if field idx 6 1 =? 0 then Some "C_SH" else None
    else if op =? 0 then Some "C_LBU"
    else if op =? 1 then if field idx 6 1 =? 0 then Some "C_LHU" else Some "C_LH"
    else None.

Definition quadrant1 (idx : Z) : option string :=
  let funct3 := field idx 13 3 in
  let rd := field idx 7 5 in
  let imm := Z.lor (field idx 12 1) (Z.shiftl (field idx 2 5) 1) in
  if funct3 =? 0 then if rd =? 0 then unless_hint (negb (imm =? 0)) "C_NOP" else unless_hint (negb (imm =? 0)) "C_ADDI"
  else if funct3 =? 1 then if rd =? 0 then None else Some "C_ADDIW"
  else if funct3 =? 2 then unless_hint (negb (rd =? 0)) "C_LI"
  else if funct3 =? 3 then
    if negb (imm =? 0) then
      if rd =? 2 then unless_hint (negb (rd =? 0)) "C_ADDI16SP" else unless_hint (negb (rd =? 0)) "C_LUI"
    else None
  else if funct3 =? 5 then Some "C_J"
  else if funct3 =? 6 then Some "C_BEQZ"
  else if funct3 =? 7 then Some "C_BNEZ"
  else
    let op := field idx 10 2 in
    if op =? 0 then unless_hint (negb (imm =? 0)) "C_SRLI"
    else if op =? 1 then unless_hint (negb (imm =? 0)) "C_SRAI"
    else if op =? 2 then Some "C_ANDI"
    else
      let funct2 := field idx 5 2 in
      if field idx 12 1 =? 0 then
        Some (if funct2 =? 0 then "C_SUB" else if funct2 =? 1 then "C_XOR" else if funct2 =? 2 then "C_OR" else "C_AND")
      else if funct2 =? 0 then Some "C_SUBW"
      else if funct2 =? 1 then Some "C_ADDW"
      else if funct2 =? 2 then Some "C_MUL"
      else
        let op := field idx 2 3 in
        if op =? 0 then Some "C_ZEXT_B"
        else if op =? 1 then Some "C_SEXT_B"
        else if op =? 2 then Some "C_ZEXT_H"
        else if op =? 3 then Some "C_SEXT_H"
        else if op =? 4 then Some "C_ZEXT_W"
        else if op =? 5 then Some "C_NOT"
        else None.

Definition quadrant2 (idx : Z) : option string :=
  let funct3 := field idx 13 3 in
  let rd := field idx 7 5 in
  let imm := Z.lor (field idx 12 1) (Z.shiftl (field idx 2 5) 1) in
  if funct3 =? 0 then unless_hint (negb (imm =? 0) && negb (rd =? 0)) "C_SLLI"
  else if funct3 =? 1 then Some "C_FLDSP"
  else if funct3 =? 2 then if negb (rd =? 0) then Some "C_LWSP" else None
  else if funct3 =? 3 then if negb (rd =? 0) then Some "C_LDSP" else None
  else if funct3 =? 5 then Some "C_FSDSP"
  else if funct3 =? 6 then Some "C_SWSP"
  else if funct3 =? 7 then Some "C_SDSP"
  else
    let rs1 := field idx 7 5 in
    let rs2 := field idx 2 5 in
    if rs2 =? 0 then
      if rs1 =? 0 then if field idx 12 1 =? 1 then Some "C_EBREAK" else None
      else if field idx 12 1 =? 0 then Some "C_JR" else Some "C_JALR"
    else if field idx 12 1 =? 0 then unless_hint (negb (rs1 =? 0)) "C_MV"
    else unless_hint (negb (rs1 =? 0)) "C_ADD".

Definition c_insn_by_idx (idx : Z) : option string :=
  let quadrant := field idx 0 2 in
  if quadrant =? 0 then quadrant0 idx
  else if quadrant =? 1 then quadrant1 idx
  else if quadrant =? 2 then quadrant2 idx
  else None.

(** ** Rounding modes and groups *)

Definition valid_rms : list string := ["000"; "001"; "010"; "011"; "100"; "111"].
Definition with_rm (insn : insn_pattern) (rm : string) : insn_pattern :=
  {| bits := String.substring 0 17 (bits insn) +:+ rm +:+ String.substring 20 12 (bits insn); name := name insn;
     rd0_special := false; rm := false |}.
(** Instructions with a rounding mode take the first one in place, and the others at the end of the list. *)
Definition expanded_insns : list insn_pattern :=
  map (fun insn => if rm insn then with_rm insn "000" else insn) insns ++
  flat_map (fun insn => map (with_rm insn) (tail valid_rms)) (List.filter rm insns).

Definition group_names : list (string * string) := [
  ("ADD|SUB|MUL", "ADD_MUL_SUB");
  ("ADDW|SUBW|MULW", "ADDW_MULW_SUBW");
  ("SRL|SRA|DIVU", "SRL_DIVU_SRA");
  ("SRLW|SRAW|DIVUW", "SRLW_DIVUW_SRAW");
  ("LR.W|SC.W|AMOSWAP.W|AMOADD.W|AMOXOR.W|AMOAND.W|AMOOR.W|AMOMIN.W|AMOMAX.W|AMOMINU.W|AMOMAXU.W", "AMO_W");
  ("LR.D|SC.D|AMOSWAP.D|AMOADD.D|AMOXOR.D|AMOAND.D|AMOOR.D|AMOMIN.D|AMOMAX.D|AMOMINU.D|AMOMAXU.D", "AMO_D");
  ("FMADD.S|FMADD.D", "FMADD");
  ("FMSUB.S|FMSUB.D", "FMSUB");
  ("FNMADD.S|FNMADD.D", "FNMADD");
  ("FNMSUB.S|FNMSUB.D", "FNMSUB");
  ("FADD.S|FSUB.S|FMUL.S|FDIV.S|FSQRT.S|FSGNJ.S|FMIN.S|FCVT.W.S|FCVT.WU.S|FMV.X.W|FLE.S|FCVT.S.W|FCVT.S.WU|FMV.W.X|FCVT.L.S|FCVT.LU.S|FCVT.S.L|FCVT.S.LU|FADD.D|FSUB.D|FMUL.D|FDIV.D|FSQRT.D|FSGNJ.D|FMIN.D|FCVT.S.D|FCVT.D.S|FLE.D|FCLASS.D|FCVT.W.D|FCVT.WU.D|FCVT.D.W|FCVT.D.WU|FCVT.L.D|FCVT.LU.D|FMV.X.D|FCVT.D.L|FCVT.D.LU|FMV.D.X", "FD");
  ("FSGNJN.S|FMAX.S|FLT.S|FCLASS.S|FSGNJN.D|FMAX.D|FLT.D|FADD.S|FSUB.S|FMUL.S|FDIV.S|FSQRT.S|FCVT.W.S|FCVT.WU.S|FCVT.S.W|FCVT.S.WU|FCVT.L.S|FCVT.LU.S|FCVT.S.L|FCVT.S.LU|FADD.D|FSUB.D|FMUL.D|FDIV.D|FSQRT.D|FCVT.S.D|FCVT.D.S|FCLASS.D|FCVT.W.D|FCVT.WU.D|FCVT.D.W|FCVT.D.WU|FCVT.L.D|FCVT.LU.D|FCVT.D.L|FCVT.D.LU", "FD");
  ("FSGNJX.S|FEQ.S|FSGNJX.D|FEQ.D|FADD.S|FSUB.S|FMUL.S|FDIV.S|FSQRT.S|FCVT.W.S|FCVT.WU.S|FCVT.S.W|FCVT.S.WU|FCVT.L.S|FCVT.LU.S|FCVT.S.L|FCVT.S.LU|FADD.D|FSUB.D|FMUL.D|FDIV.D|FSQRT.D|FCVT.S.D|FCVT.D.S|FCLASS.D|FCVT.W.D|FCVT.WU.D|FCVT.D.W|FCVT.D.WU|FCVT.L.D|FCVT.LU.D|FCVT.D.L|FCVT.D.LU", "FD");
  ("FADD.S|FSUB.S|FMUL.S|FDIV.S|FSQRT.S|FCVT.W.S|FCVT.WU.S|FCVT.S.W|FCVT.S.WU|FCVT.L.S|FCVT.LU.S|FCVT.S.L|FCVT.S.LU|FADD.D|FSUB.D|FMUL.D|FDIV.D|FSQRT.D|FCVT.S.D|FCVT.D.S|FCLASS.D|FCVT.W.D|FCVT.WU.D|FCVT.D.W|FCVT.D.WU|FCVT.L.D|FCVT.LU.D|FCVT.D.L|FCVT.D.LU", "FD");
  ("ECALL|EBREAK|SRET|MRET|MNRET|WFI|SFENCE.VMA", "PRIVILEGED");
  ("SFENCE.VMA", "PRIVILEGED")].

(** ** The table

    The mask of an entry has underscores but at the bits 15 to 12 and 6 to 0,
    so a pattern matches it when its bits there do. *)

Definition index_bits (bits : string) : string := String.substring 16 4 bits +:+ String.substring 25 7 bits.
Definition index_patterns : list (string * string * bool) :=
  Eval vm_compute in map (fun insn => (index_bits (bits insn), name insn, rd0_special insn)) expanded_insns.

Definition lmask_bits : nat := 4.
Definition rmask_bits : nat := 7.

(** The matching names, in order and without repetition, and the special case of [rd = 0]. *)
Fixpoint matching (mask : string) (l : list (string * string * bool)) (matches : list string) (rd0 : bool) : list string * bool :=
  match l with
  | [] => (matches, rd0)
  | (bits, name, rd0_special) :: l =>
      if if matchmask bits mask then negb (existsb (String.eqb name) matches) else false then
        matching mask l (matches ++ [name])
          (match matches with [] => rd0_special | _ => if Bool.eqb rd0 rd0_special then rd0 else false end)
      else matching mask l matches rd0
  end.
Definition label_name (matches : list string) : string :=
  let namekey := String.concat "|" matches in
  let name :=
    match List.find (fun g => String.eqb (fst g) namekey) group_names with
    | Some (_, g) => g
    | None => gsub "|"%char "_"%char (gsub "."%char "_"%char namekey)
    end in
  if String.eqb name "" then "ILLEGAL" else name.

(** The label of the bits 15 to 12 and 6 to 0 of an instruction, and whether it depends on [rd]. *)
Definition table_entry (i : Z) : string * bool :=
  let mask := tobase2 i (lmask_bits + rmask_bits) in
  let '(matches, rd0_special) := matching mask index_patterns [] false in
  (label_name matches, rd0_special).
Definition insn_jumptable (idx : Z) : string :=
  let i := Z.lor (Z.shiftl (Z.shiftr idx 12) 7) (Z.land idx 0x7f) in
  let rd := Z.land (Z.shiftr idx 7) 0x1f in
  let '(name, rd0_special) := table_entry i in
  let ename := if rd0_special then if rd =? 0 then name +:+ "_rd0" else name +:+ "_rdN" else name in
  if String.eqb ename "ILLEGAL" then default ename (c_insn_by_idx idx) else ename.
