(* ===== verification/Interpreter.v ===== *)
(** * The interpreter loop (src/interpret.cpp)

    Instruction fetch, the switch over the labels of the jump table, and the
    loops of [interpret_loop] and [interpret].  The access to the state is the
    one of Hart.v, which is not interactive: nothing polls for external
    interrupts.  Each round of the inner loop runs one cycle, so the loops get
    as much fuel as cycles are left; a result of [None] is a loop that ran out
    of it. *)

From S2P Require Import Prelude Bits Shadow SolidityCompat HashTree Memory Machine MachineFacts UarchMemory Riscv Hart Trap Csr Devices VirtualMemory Decode Execute SoftFloat ExecuteFloat Compressed JumpTable.

(** The translation of the last page that an instruction was fetched from. *)
Record fetch_cache := { last_vaddr_page : Z; last_vf_offset : Z; last_pma_index : Z }.
Definition set_last_vaddr_page (page : Z) (cache : fetch_cache) : fetch_cache :=
  {| last_vaddr_page := page; last_vf_offset := last_vf_offset cache; last_pma_index := last_pma_index cache |}.

Definition fetch_cache_is_hit (pc last_vaddr_page : Z) : bool := Z.lxor pc last_vaddr_page <? PAGE_OFFSET_MASK - 1.

Section interpreter.
Context {cfg : BuildConfig} (pmas : list address_range) (EVENT_DRIVEN_INTERPRETER_DEADLINES : bool).

(** ** Fetch *)

(** The offset and the index of the range, unless an exception was raised; the new [pc] and page of the cache. *)
Definition fetch_translate_pc_slow (pc vaddr last_vaddr_page : Z) : M memory (option (Z * Z) * Z * Z) :=
  translated ← translate_virtual_address pmas true vaddr PTE_XWR_X_SHIFT;
  match translated with
  | None =>
      pc ← raise_exception pc MCAUSE_FETCH_PAGE_FAULT vaddr;
      mret (None, pc, ensure_fetch_cache_miss pc)
  | Some paddr =>
      '(ar, pma_index) ← find_pma pmas 2 paddr;
      if negb (is_memory ar) || negb (is_executable ar) then
        pc ← raise_exception pc MCAUSE_INSN_ACCESS_FAULT vaddr;
        mret (None, pc, ensure_fetch_cache_miss pc)
      else
        '(_, vf_offset) ← replace_tlb_entry TLB_CODE vaddr paddr pma_index;
        mret (Some (vf_offset, pma_index), pc, last_vaddr_page)
  end.

Definition fetch_translate_pc (pc vaddr last_vaddr_page : Z) : M memory (option (Z * Z) * Z * Z) :=
  let slot_index := tlb_slot_index vaddr in
  let slow := fetch_translate_pc_slow pc vaddr last_vaddr_page in
  let verified_hit :=
    ok ← verify_cold_tlb_slot pmas TLB_CODE slot_index;
    if negb ok then slow
    else
      vf_offset ← read_tlb_vf_offset TLB_CODE slot_index;
      pma_index ← read_tlb_pma_index TLB_CODE slot_index;
      mret (Some (vf_offset, pma_index), pc, last_vaddr_page) in
  slot_vaddr_page ← read_tlb_vaddr_page TLB_CODE slot_index;
  if negb (tlb_is_hit 2 slot_vaddr_page vaddr) then
    slot_vaddr_page ← init_hot_tlb_slot TLB_CODE slot_index;
    if negb (tlb_is_hit 2 slot_vaddr_page vaddr) then slow else verified_hit
  else verified_hit.

(** The part of [fetch_insn] after the first translation: the instruction
    may continue on the next page. *)
Definition fetch_insn_at (pc faddr : Z) (cache : fetch_cache) : M memory (option Z * Z * fetch_cache) :=
  if Z.shiftr (Z.land (not64 pc) PAGE_OFFSET_MASK) 1 =? 0 then
    insn ← read_memory_word 2 faddr;
    if insn_is_uncompressed insn then
      let pc2 := uint64 (pc + 2) in
      '(translated, pc, page) ← fetch_translate_pc pc pc2 (last_vaddr_page cache);
      match translated with
      | None => mret (None, pc, set_last_vaddr_page page cache)
      | Some (pc2_vf_offset, pc2_pma_index) =>
          let cache := {| last_vaddr_page := tlb_addr_page pc2; last_vf_offset := pc2_vf_offset; last_pma_index := pc2_pma_index |} in
          let faddr := uint64 (pc2 + last_vf_offset cache) in
          insn16 ← read_memory_word 2 faddr;
          mret (Some (Z.lor insn (uint32 (Z.shiftl insn16 16))), pc, cache)
      end
    else mret (Some insn, pc, cache)
  else
    insn ← read_memory_word 4 faddr;
    mret (Some insn, pc, cache).

(** The instruction, unless an exception was raised, the new [pc] and the cache. *)
Definition fetch_insn (pc : Z) (cache : fetch_cache) : M memory (option Z * Z * fetch_cache) :=
  if fetch_cache_is_hit pc (last_vaddr_page cache) then
    insn ← read_memory_word 4 (uint64 (pc + last_vf_offset cache));
    mret (Some insn, pc, cache)
  else
    let pc_vaddr_page := tlb_addr_page pc in
    if pc_vaddr_page =? last_vaddr_page cache then
      fetch_insn_at pc (uint64 (pc + last_vf_offset cache)) cache
    else
      '(translated, pc, page) ← fetch_translate_pc pc pc (last_vaddr_page cache);
      match translated with
      | None => mret (None, pc, set_last_vaddr_page page cache)
      | Some (pc_vf_offset, pc_pma_index) =>
          let cache := {| last_vaddr_page := pc_vaddr_page; last_vf_offset := pc_vf_offset; last_pma_index := pc_pma_index |} in
          fetch_insn_at pc (uint64 (pc + pc_vf_offset)) cache
      end.

(** ** The switch over the labels of the jump table, in its order *)

#[local] Open Scope string_scope.
#[local] Open Scope list_scope.
#[local] Open Scope Z_scope.

Definition IM_cases : list (string * (Z -> Z -> Z -> result)) := [
  ("LUI_rdN", fun pc mcycle insn => execute_LUI rd_xN pc insn);
  ("AUIPC_rdN", fun pc mcycle insn => execute_AUIPC rd_xN pc insn);
  ("JAL_rd0", fun pc mcycle insn => execute_JAL rd_x0 pc insn);
  ("JAL_rdN", fun pc mcycle insn => execute_JAL rd_xN pc insn);
  ("JALR_rd0", fun pc mcycle insn => execute_JALR rd_x0 pc insn);
  ("JALR_rdN", fun pc mcycle insn => execute_JALR rd_xN pc insn);
  ("BEQ", fun pc mcycle insn => execute_BEQ pc insn);
  ("BNE", fun pc mcycle insn => execute_BNE pc insn);
  ("BLT", fun pc mcycle insn => execute_BLT pc insn);
  ("BGE", fun pc mcycle insn => execute_BGE pc insn);
  ("BLTU", fun pc mcycle insn => execute_BLTU pc insn);
  ("BGEU", fun pc mcycle insn => execute_BGEU pc insn);
  ("ADDI_rdN", fun pc mcycle insn => execute_ADDI rd_xN pc insn);
  ("SLTI_rdN", fun pc mcycle insn => execute_SLTI rd_xN pc insn);
  ("SLTIU_rdN", fun pc mcycle insn => execute_SLTIU rd_xN pc insn);
  ("XORI_rdN", fun pc mcycle insn => execute_XORI rd_xN pc insn);
  ("ORI_rdN", fun pc mcycle insn => execute_ORI rd_xN pc insn);
  ("ANDI_rdN", fun pc mcycle insn => execute_ANDI rd_xN pc insn);
  ("SLLI_rdN", fun pc mcycle insn => execute_SLLI rd_xN pc insn);
  ("SRLI_SRAI_rdN", fun pc mcycle insn => execute_SRLI_SRAI rd_xN pc insn);
  ("ADD_MUL_SUB_rdN", fun pc mcycle insn => execute_ADD_MUL_SUB rd_xN pc insn);
  ("SLL_MULH_rdN", fun pc mcycle insn => execute_SLL_MULH rd_xN pc insn);
  ("SLT_MULHSU_rdN", fun pc mcycle insn => execute_SLT_MULHSU rd_xN pc insn);
  ("SLTU_MULHU_rdN", fun pc mcycle insn => execute_SLTU_MULHU rd_xN pc insn);
  ("XOR_DIV_rdN", fun pc mcycle insn => execute_XOR_DIV rd_xN pc insn);
  ("SRL_DIVU_SRA_rdN", fun pc mcycle insn => execute_SRL_DIVU_SRA rd_xN pc insn);
  ("OR_REM_rdN", fun pc mcycle insn => execute_OR_REM rd_xN pc insn);
  ("AND_REMU_rdN", fun pc mcycle insn => execute_AND_REMU rd_xN pc insn);
  ("ADDIW_rdN", fun pc mcycle insn => execute_ADDIW rd_xN pc insn);
  ("SLLIW_rdN", fun pc mcycle insn => execute_SLLIW rd_xN pc insn);
  ("SRLIW_SRAIW_rdN", fun pc mcycle insn => execute_SRLIW_SRAIW rd_xN pc insn);
  ("ADDW_MULW_SUBW_rdN", fun pc mcycle insn => execute_ADDW_MULW_SUBW rd_xN pc insn);
  ("SLLW_rdN", fun pc mcycle insn => execute_SLLW rd_xN pc insn);
  ("SRLW_DIVUW_SRAW_rdN", fun pc mcycle insn => execute_SRLW_DIVUW_SRAW rd_xN pc insn);
  ("DIVW_rdN", fun pc mcycle insn => execute_DIVW rd_xN pc insn);
  ("REMW_rdN", fun pc mcycle insn => execute_REMW rd_xN pc insn);
  ("REMUW_rdN", fun pc mcycle insn => execute_REMUW rd_xN pc insn);
  ("LD_rdN", fun pc mcycle insn => execute_LD pmas rd_xN pc mcycle insn);
  ("LW_rdN", fun pc mcycle insn => execute_LW pmas rd_xN pc mcycle insn);
  ("LWU_rdN", fun pc mcycle insn => execute_LWU pmas rd_xN pc mcycle insn);
  ("LH_rdN", fun pc mcycle insn => execute_LH pmas rd_xN pc mcycle insn);
  ("LHU_rdN", fun pc mcycle insn => execute_LHU pmas rd_xN pc mcycle insn);
  ("LB_rdN", fun pc mcycle insn => execute_LB pmas rd_xN pc mcycle insn);
  ("LBU_rdN", fun pc mcycle insn => execute_LBU pmas rd_xN pc mcycle insn);
  ("SD", fun pc mcycle insn => execute_SD pmas EVENT_DRIVEN_INTERPRETER_DEADLINES pc mcycle insn);
  ("SW", fun pc mcycle insn => execute_SW pmas EVENT_DRIVEN_INTERPRETER_DEADLINES pc mcycle insn);
  ("SH", fun pc mcycle insn => execute_SH pmas EVENT_DRIVEN_INTERPRETER_DEADLINES pc mcycle insn);
  ("SB", fun pc mcycle insn => execute_SB pmas EVENT_DRIVEN_INTERPRETER_DEADLINES pc mcycle insn)].
Definition C_cases : list (string * (Z -> Z -> Z -> result)) := [
  ("C_HINT", fun pc mcycle insn => execute_C_NOP pc insn);
  ("C_NOP", fun pc mcycle insn => execute_C_NOP pc insn);
  ("C_LUI", fun pc mcycle insn => execute_C_LUI pc insn);
  ("C_LI", fun pc mcycle insn => execute_C_LI pc insn);
  ("C_J", fun pc mcycle insn => execute_C_J pc insn);
  ("C_JR", fun pc mcycle insn => execute_C_JR pc insn);
  ("C_JALR", fun pc mcycle insn => execute_C_JALR pc insn);
  ("C_MV", fun pc mcycle insn => execute_C_MV pc insn);
  ("C_BEQZ", fun pc mcycle insn => execute_C_BEQZ pc insn);
  ("C_BNEZ", fun pc mcycle insn => execute_C_BNEZ pc insn);
  ("C_ADDI", fun pc mcycle insn => execute_C_ADDI pc insn);
  ("C_ADDIW", fun pc mcycle insn => execute_C_ADDIW pc insn);
  ("C_ADDI4SPN", fun pc mcycle insn => execute_C_ADDI4SPN pc insn);
  ("C_ADDI16SP", fun pc mcycle insn => execute_C_ADDI16SP pc insn);
  ("C_ANDI", fun pc mcycle insn => execute_C_ANDI pc insn);
  ("C_SLLI", fun pc mcycle insn => execute_C_SLLI pc insn);
  ("C_SRAI", fun pc mcycle insn => execute_C_SRAI pc insn);
  ("C_SRLI", fun pc mcycle insn => execute_C_SRLI pc insn);
  ("C_ADD", fun pc mcycle insn => execute_C_ADD pc insn);
  ("C_SUB", fun pc mcycle insn => execute_C_SUB pc insn);
  ("C_XOR", fun pc mcycle insn => execute_C_XOR pc insn);
  ("C_OR", fun pc mcycle insn => execute_C_OR pc insn);
  ("C_AND", fun pc mcycle insn => execute_C_AND pc insn);
  ("C_ADDW", fun pc mcycle insn => execute_C_ADDW pc insn);
  ("C_SUBW", fun pc mcycle insn => execute_C_SUBW pc insn);
  ("C_LD", fun pc mcycle insn => execute_C_LD pmas pc mcycle insn);
  ("C_LW", fun pc mcycle insn => execute_C_LW pmas pc mcycle insn);
  ("C_LDSP", fun pc mcycle insn => execute_C_LDSP pmas pc mcycle insn);
  ("C_LWSP", fun pc mcycle insn => execute_C_LWSP pmas pc mcycle insn);
  ("C_SD", fun pc mcycle insn => execute_C_SD pmas EVENT_DRIVEN_INTERPRETER_DEADLINES pc mcycle insn);
  ("C_SW", fun pc mcycle insn => execute_C_SW pmas EVENT_DRIVEN_INTERPRETER_DEADLINES pc mcycle insn);
  ("C_SDSP", fun pc mcycle insn => execute_C_SDSP pmas EVENT_DRIVEN_INTERPRETER_DEADLINES pc mcycle insn);
  ("C_SWSP", fun pc mcycle insn => execute_C_SWSP pmas EVENT_DRIVEN_INTERPRETER_DEADLINES pc mcycle insn);
  ("C_FLD", fun pc mcycle insn => execute_C_FLD pmas pc mcycle insn);
  ("C_FLDSP", fun pc mcycle insn => execute_C_FLDSP pmas pc mcycle insn);
  ("C_FSD", fun pc mcycle insn => execute_C_FSD pmas EVENT_DRIVEN_INTERPRETER_DEADLINES pc mcycle insn);
  ("C_FSDSP", fun pc mcycle insn => execute_C_FSDSP pmas EVENT_DRIVEN_INTERPRETER_DEADLINES pc mcycle insn);
  ("C_EBREAK", fun pc mcycle insn => execute_C_EBREAK pc insn)].
Definition Zcb_cases : list (string * (Z -> Z -> Z -> result)) := [
  ("C_LBU", fun pc mcycle insn => execute_C_LBU pmas pc mcycle insn);
  ("C_LHU", fun pc mcycle insn => execute_C_LHU pmas pc mcycle insn);
  ("C_LH", fun pc mcycle insn => execute_C_LH pmas pc mcycle insn);
  ("C_SB", fun pc mcycle insn => execute_C_SB pmas EVENT_DRIVEN_INTERPRETER_DEADLINES pc mcycle insn);
  ("C_SH", fun pc mcycle insn => execute_C_SH pmas EVENT_DRIVEN_INTERPRETER_DEADLINES pc mcycle insn);
  ("C_ZEXT_B", fun pc mcycle insn => execute_C_ZEXT_B pc insn);
  ("C_SEXT_B", fun pc mcycle insn => execute_C_SEXT_B pc insn);
  ("C_ZEXT_H", fun pc mcycle insn => execute_C_ZEXT_H pc insn);
  ("C_SEXT_H", fun pc mcycle insn => execute_C_SEXT_H pc insn);
  ("C_ZEXT_W", fun pc mcycle insn => execute_C_ZEXT_W pc insn);
  ("C_NOT", fun pc mcycle insn => execute_C_NOT pc insn);
  ("C_MUL", fun pc mcycle insn => execute_C_MUL pc insn)].
Definition FD_A_Zicsr_cases : list (string * (Z -> Z -> Z -> result)) := [
  ("FD", fun pc mcycle insn => execute_FD pc insn);
  ("FLD", fun pc mcycle insn => execute_FLD pmas pc mcycle insn);
  ("FLW", fun pc mcycle insn => execute_FLW pmas pc mcycle insn);
  ("FSD", fun pc mcycle insn => execute_FSD pmas EVENT_DRIVEN_INTERPRETER_DEADLINES pc mcycle insn);
  ("FSW", fun pc mcycle insn => execute_FSW pmas EVENT_DRIVEN_INTERPRETER_DEADLINES pc mcycle insn);
  ("FMADD", fun pc mcycle insn => execute_FMADD pc insn);
  ("FMSUB", fun pc mcycle insn => execute_FMSUB pc insn);
  ("FNMADD", fun pc mcycle insn => execute_FNMADD pc insn);
  ("FNMSUB", fun pc mcycle insn => execute_FNMSUB pc insn);
  ("AMO_D", fun pc mcycle insn => execute_AMO_D pmas EVENT_DRIVEN_INTERPRETER_DEADLINES pc mcycle insn);
  ("AMO_W", fun pc mcycle insn => execute_AMO_W pmas EVENT_DRIVEN_INTERPRETER_DEADLINES pc mcycle insn);
  ("CSRRW", fun pc mcycle insn => execute_CSRRW pc mcycle insn);
  ("CSRRS", fun pc mcycle insn => execute_CSRRS pc mcycle insn);
  ("CSRRC", fun pc mcycle insn => execute_CSRRC pc mcycle insn);
  ("CSRRWI", fun pc mcycle insn => execute_CSRRWI pc mcycle insn);
  ("CSRRSI", fun pc mcycle insn => execute_CSRRSI pc mcycle insn);
  ("CSRRCI", fun pc mcycle insn => execute_CSRRCI pc mcycle insn);
  ("FENCE", fun pc mcycle insn => execute_FENCE pc insn);
  ("FENCE_I", fun pc mcycle insn => execute_FENCE_I pc insn);
  ("PRIVILEGED", fun pc mcycle insn => execute_privileged pc insn)].
Definition rd0_cases : list (string * (Z -> Z -> Z -> result)) := [
  ("LUI_rd0", fun pc mcycle insn => execute_LUI rd_x0 pc insn);
  ("AUIPC_rd0", fun pc mcycle insn => execute_AUIPC rd_x0 pc insn);
  ("ADDI_rd0", fun pc mcycle insn => execute_ADDI rd_x0 pc insn);
  ("SLTI_rd0", fun pc mcycle insn => execute_SLTI rd_x0 pc insn);
  ("SLTIU_rd0", fun pc mcycle insn => execute_SLTIU rd_x0 pc insn);
  ("XORI_rd0", fun pc mcycle insn => execute_XORI rd_x0 pc insn);
  ("ORI_rd0", fun pc mcycle insn => execute_ORI rd_x0 pc insn);
  ("ANDI_rd0", fun pc mcycle insn => execute_ANDI rd_x0 pc insn);
  ("SLLI_rd0", fun pc mcycle insn => execute_SLLI rd_x0 pc insn);
  ("SRLI_SRAI_rd0", fun pc mcycle insn => execute_SRLI_SRAI rd_x0 pc insn);
  ("ADD_MUL_SUB_rd0", fun pc mcycle insn => execute_ADD_MUL_SUB rd_x0 pc insn);
  ("SLL_MULH_rd0", fun pc mcycle insn => execute_SLL_MULH rd_x0 pc insn);
  ("SLT_MULHSU_rd0", fun pc mcycle insn => execute_SLT_MULHSU rd_x0 pc insn);
  ("SLTU_MULHU_rd0", fun pc mcycle insn => execute_SLTU_MULHU rd_x0 pc insn);
  ("XOR_DIV_rd0", fun pc mcycle insn => execute_XOR_DIV rd_x0 pc insn);
  ("SRL_DIVU_SRA_rd0", fun pc mcycle insn => execute_SRL_DIVU_SRA rd_x0 pc insn);
  ("OR_REM_rd0", fun pc mcycle insn => execute_OR_REM rd_x0 pc insn);
  ("AND_REMU_rd0", fun pc mcycle insn => execute_AND_REMU rd_x0 pc insn);
  ("ADDIW_rd0", fun pc mcycle insn => execute_ADDIW rd_x0 pc insn);
  ("SLLIW_rd0", fun pc mcycle insn => execute_SLLIW rd_x0 pc insn);
  ("SRLIW_SRAIW_rd0", fun pc mcycle insn => execute_SRLIW_SRAIW rd_x0 pc insn);
  ("ADDW_MULW_SUBW_rd0", fun pc mcycle insn => execute_ADDW_MULW_SUBW rd_x0 pc insn);
  ("SLLW_rd0", fun pc mcycle insn => execute_SLLW rd_x0 pc insn);
  ("SRLW_DIVUW_SRAW_rd0", fun pc mcycle insn => execute_SRLW_DIVUW_SRAW rd_x0 pc insn);
  ("DIVW_rd0", fun pc mcycle insn => execute_DIVW rd_x0 pc insn);
  ("REMW_rd0", fun pc mcycle insn => execute_REMW rd_x0 pc insn);
  ("REMUW_rd0", fun pc mcycle insn => execute_REMUW rd_x0 pc insn);
  ("LD_rd0", fun pc mcycle insn => execute_LD pmas rd_x0 pc mcycle insn);
  ("LW_rd0", fun pc mcycle insn => execute_LW pmas rd_x0 pc mcycle insn);
  ("LWU_rd0", fun pc mcycle insn => execute_LWU pmas rd_x0 pc mcycle insn);
  ("LH_rd0", fun pc mcycle insn => execute_LH pmas rd_x0 pc mcycle insn);
  ("LHU_rd0", fun pc mcycle insn => execute_LHU pmas rd_x0 pc mcycle insn);
  ("LB_rd0", fun pc mcycle insn => execute_LB pmas rd_x0 pc mcycle insn);
  ("LBU_rd0", fun pc mcycle insn => execute_LBU pmas rd_x0 pc mcycle insn);
  ("ILLEGAL", fun pc mcycle insn => raise_illegal_insn_exception pc insn)].
Definition insn_cases : list (string * (Z -> Z -> Z -> result)) := IM_cases ++ C_cases ++ Zcb_cases ++ FD_A_Zicsr_cases ++ rd0_cases.

(** The computed goto has a label for each name of the table; another name
    does not compile. *)
Definition INSN_SWITCH (label : string) (pc mcycle insn : Z) : result :=
  match List.find (fun c => String.eqb (fst c) label) insn_cases with
  | Some (_, execute) => execute pc mcycle insn
  | None => throw (logic_error "no such label")
  end.

Definition execute_insn (pc mcycle insn : Z) : result := INSN_SWITCH (insn_jumptable (insn_get_id insn)) pc mcycle insn.

(** ** The loops *)

(** The variables of [interpret_loop]. *)
Record loop_state := { lpc : Z; lmcycle : Z; lcache : fetch_cache }.

(** How a round of the inner loop ends: by the end of its body, by the
    [break] that serves interrupts, or by returning from [interpret_loop]. *)
Inductive round_end :=
| round_done (l : loop_state)
| round_break (l : loop_state)
| round_return (status : execute_status).

Definition commit (pc mcycle : Z) : M memory unit := write_pc pc ;; write_mcycle mcycle.

(** The end of the body, after the switch. *)
Definition finish_round (pc mcycle : Z) (cache : fetch_cache) : M memory round_end :=
  let mcycle := uint64 (mcycle + 1) in
  (if NDEBUG then mret () else assert_no_brk) ;;
  mret (round_done {| lpc := pc; lmcycle := mcycle; lcache := cache |}).

(** The body of the inner loop. *)
Definition inner_round (l : loop_state) : M memory round_end :=
  let mcycle := lmcycle l in
  '(fetched, pc, cache) ← fetch_insn (lpc l) (lcache l);
  match fetched with
  | None => finish_round pc mcycle cache
  | Some insn =>
      '(status, pc) ← execute_insn pc mcycle insn;
      if execute_status_value success <? execute_status_value status then
        let cache := set_last_vaddr_page (ensure_fetch_cache_miss pc) cache in
        if execute_status_value success_and_serve_interrupts <=? execute_status_value status then
          let mcycle := uint64 (mcycle + 1) in
          if bool_decide (status = success_and_serve_interrupts) then
            mret (round_break {| lpc := pc; lmcycle := mcycle; lcache := cache |})
          else commit pc mcycle ;; mret (round_return status)
        else finish_round pc mcycle cache
      else finish_round pc mcycle cache
  end.

Fixpoint inner_loop (fuel : nat) (mcycle_tick_end : Z) (l : loop_state) : M memory (option round_end) :=
  if lmcycle l <? mcycle_tick_end then
    match fuel with
    | O => mret None
    | S fuel =>
        r ← inner_round l;
        match r with
        | round_done l => inner_loop fuel mcycle_tick_end l
        | _ => mret (Some r)
        end
    end
  else mret (Some (round_done l)).

(** The cycle at which the inner loop stops. *)
Definition mcycle_tick_end (mcycle_end mcycle : Z) : M memory Z :=
  if EVENT_DRIVEN_INTERPRETER_DEADLINES then
    mtimecmp ← read_clint_mtimecmp;
    mret (if negb (mtimecmp =? 0) && (rtc_cycle_to_time mcycle <? mtimecmp) && (mtimecmp <=? (2 ^ 64 - 1) / RTC_FREQ_DIV)
          then Z.min mcycle_end (rtc_time_to_cycle mtimecmp) else mcycle_end)
  else mret (uint64 (mcycle + Z.min (uint64 (mcycle_end - mcycle)) (RTC_FREQ_DIV - mcycle mod RTC_FREQ_DIV))).

(** The body of the outer loop, up to the inner loop. *)
Definition serve_interrupts (l : loop_state) : M memory loop_state :=
  let mcycle := lmcycle l in
  (if EVENT_DRIVEN_INTERPRETER_DEADLINES then set_rtc_interrupt true mcycle
   else when (rtc_is_tick mcycle) (set_rtc_interrupt false mcycle)) ;;
  '(pc, page) ← raise_interrupt_if_any (lpc l) (last_vaddr_page (lcache l));
  (if NDEBUG then mret () else assert_no_brk) ;;
  mret {| lpc := pc; lmcycle := mcycle; lcache := set_last_vaddr_page page (lcache l) |}.

Fixpoint outer_loop (fuel : nat) (mcycle_end : Z) (l : loop_state) : M memory (option execute_status) :=
  if lmcycle l <? mcycle_end then
    match fuel with
    | O => mret None
    | S fuel =>
        l ← serve_interrupts l;
        tick_end ← mcycle_tick_end mcycle_end (lmcycle l);
        r ← inner_loop (Z.to_nat (tick_end - lmcycle l)) tick_end l;
        match r with
        | None => mret None
        | Some (round_return status) => mret (Some status)
        | Some (round_done l) | Some (round_break l) => outer_loop fuel mcycle_end l
        end
    end
  else commit (lpc l) (lmcycle l) ;; mret (Some success).

Definition interpret_loop (mcycle_end mcycle : Z) : M memory (option execute_status) :=
  pc ← read_pc;
  pc ← if negb (Z.land pc 1 =? 0) then raise_exception pc MCAUSE_INSN_ADDRESS_MISALIGNED pc else mret pc;
  let cache := {| last_vaddr_page := ensure_fetch_cache_miss pc; last_vf_offset := 0; last_pma_index := TLB_INVALID_PMA_INDEX |} in
  outer_loop (Z.to_nat (mcycle_end - mcycle)) mcycle_end {| lpc := pc; lmcycle := mcycle; lcache := cache |}.

(** ** interpret (src/interpret.hpp) *)

Inductive interpreter_break_reason :=
| failed
| halted
| yielded_manually
| yielded_automatically
| yielded_softly
| reached_target_mcycle
| console_output
| console_input.

Definition interpret (mcycle_end : Z) : M memory (option interpreter_break_reason) :=
  mcycle ← read_mcycle;
  H ← read_iflags_H;
  if negb (H =? 0) then mret (Some halted) else
  Y ← read_iflags_Y;
  if negb (Y =? 0) then mret (Some yielded_manually) else
  if mcycle_end <=? mcycle then mret (Some reached_target_mcycle) else
  write_iflags_X 0 ;;
  status ← interpret_loop mcycle_end mcycle;
  match status with
  | None => mret None
  | Some status =>
      H ← read_iflags_H;
      if negb (H =? 0) then mret (Some halted) else
      Y ← read_iflags_Y;
      if negb (Y =? 0) then mret (Some yielded_manually) else
      X ← read_iflags_X;
      if negb (X =? 0) then mret (Some yielded_automatically) else
      if bool_decide (status = success_and_yield) then mret (Some yielded_softly) else
      if bool_decide (status = success_and_console_output) then mret (Some console_output) else
      if bool_decide (status = success_and_console_input) then mret (Some console_input) else
      (if NDEBUG then mret () else
         mcycle ← read_mcycle;
         if mcycle =? mcycle_end then mret () else throw (assertion_failed "a.read_mcycle() == mcycle_end")) ;;
      mret (Some reached_target_mcycle)
  end.
End interpreter.
