(* ===== verification/Rv64gc.v ===== *)
(** * The 32-bit encodings of RV64GC

    A reference for the decoder of the big interpreter: for every 32-bit
    instruction of the base, M, A, F, D, Zicsr and Zifencei and of the
    privileged architecture, the mask and match values of the instruction set
    manual and the function of the interpreter that models it. *)

From S2P Require Import Prelude SolidityCompat Memory Machine Riscv Hart Trap Csr Devices VirtualMemory Decode Execute SoftFloat ExecuteFloat.

Record encoding := {
  enc_mask : Z;
  enc_match : Z;
  enc_run : rd_kind -> Z -> Z -> Z -> result;    (* destination, pc, mcycle, insn *)
}.

(** ** Formats *)

Section formats.
Context (run : rd_kind -> Z -> Z -> Z -> result).

Definition U_format (opcode : Z) : encoding := {| enc_mask := 0x7f; enc_match := opcode; enc_run := run |}.
(** I, S and B formats, and R formats with free upper bits. *)
Definition I_format (opcode funct3 : Z) : encoding :=
  {| enc_mask := 0x707f; enc_match := funct3 * 2 ^ 12 + opcode; enc_run := run |}.
Definition R_format (opcode funct3 funct7 : Z) : encoding :=
  {| enc_mask := 0xfe00707f; enc_match := funct7 * 2 ^ 25 + funct3 * 2 ^ 12 + opcode; enc_run := run |}.
(** Shifts of 64 bits by an immediate. *)
Definition shift_format (opcode funct3 funct6 : Z) : encoding :=
  {| enc_mask := 0xfc00707f; enc_match := funct6 * 2 ^ 26 + funct3 * 2 ^ 12 + opcode; enc_run := run |}.
(** Atomics, with free aq and rl bits; LR has no second source. *)
Definition AMO_format (funct3 funct5 : Z) : encoding :=
  {| enc_mask := 0xf800707f; enc_match := funct5 * 2 ^ 27 + funct3 * 2 ^ 12 + 0x2f; enc_run := run |}.
Definition LR_format (funct3 : Z) : encoding :=
  {| enc_mask := 0xf9f0707f; enc_match := 2 * 2 ^ 27 + funct3 * 2 ^ 12 + 0x2f; enc_run := run |}.
(** Floating point, with a rounding mode in funct3 but in the last two. *)
Definition R4_format (opcode fmt : Z) : encoding :=
  {| enc_mask := 0x0600007f; enc_match := fmt * 2 ^ 25 + opcode; enc_run := run |}.
Definition FP_format (funct7 : Z) : encoding :=
  {| enc_mask := 0xfe00007f; enc_match := funct7 * 2 ^ 25 + 0x53; enc_run := run |}.
Definition FP1_format (funct7 rs2 : Z) : encoding :=
  {| enc_mask := 0xfff0007f; enc_match := funct7 * 2 ^ 25 + rs2 * 2 ^ 20 + 0x53; enc_run := run |}.
Definition FP3_format (funct7 funct3 : Z) : encoding := R_format 0x53 funct3 funct7.
Definition FP13_format (funct7 rs2 funct3 : Z) : encoding :=
  {| enc_mask := 0xfff0707f; enc_match := funct7 * 2 ^ 25 + rs2 * 2 ^ 20 + funct3 * 2 ^ 12 + 0x53; enc_run := run |}.
Definition word_format (word : Z) : encoding := {| enc_mask := 0xffffffff; enc_match := word; enc_run := run |}.
Definition sfence_format : encoding := {| enc_mask := 0xfe007fff; enc_match := 0x12000073; enc_run := run |}.
End formats.

(** Functions that do not depend on the destination, or on the clock. *)
Definition with_rd (f : rd_kind -> Z -> Z -> result) (k : rd_kind) (pc mcycle insn : Z) : result := f k pc insn.
Definition plain (f : Z -> Z -> result) (k : rd_kind) (pc mcycle insn : Z) : result := f pc insn.
Definition clocked (f : Z -> Z -> Z -> result) (k : rd_kind) (pc mcycle insn : Z) : result := f pc mcycle insn.
(** Floating point instructions are illegal when the FS field is off. *)
Definition with_FS (f : Z -> Z -> result) (k : rd_kind) (pc mcycle insn : Z) : result := unless_FS_off pc insn (f pc insn).

(** ** The listing *)

Section listing.
Context {cfg : BuildConfig} (pmas : list address_range) (EVENT_DRIVEN_INTERPRETER_DEADLINES : bool).
#[local] Abbreviation rd := with_rd.
#[local] Abbreviation fp := with_FS.
#[local] Abbreviation load f := (f pmas).
#[local] Abbreviation store f := (clocked (f pmas EVENT_DRIVEN_INTERPRETER_DEADLINES)).

Definition jumps : list encoding :=
  [U_format (rd execute_LUI) 0x37; U_format (rd execute_AUIPC) 0x17; U_format (rd execute_JAL) 0x6f; I_format (rd execute_JALR) 0x67 0;
   I_format (plain execute_BEQ) 0x63 0; I_format (plain execute_BNE) 0x63 1; I_format (plain execute_BLT) 0x63 4;
   I_format (plain execute_BGE) 0x63 5; I_format (plain execute_BLTU) 0x63 6; I_format (plain execute_BGEU) 0x63 7].
Definition loads_and_stores : list encoding :=
  [I_format (load execute_LB) 0x03 0; I_format (load execute_LH) 0x03 1; I_format (load execute_LW) 0x03 2; I_format (load execute_LD) 0x03 3;
   I_format (load execute_LBU) 0x03 4; I_format (load execute_LHU) 0x03 5; I_format (load execute_LWU) 0x03 6;
   I_format (store execute_SB) 0x23 0; I_format (store execute_SH) 0x23 1; I_format (store execute_SW) 0x23 2; I_format (store execute_SD) 0x23 3].
Definition immediates : list encoding :=
  [I_format (rd execute_ADDI) 0x13 0; I_format (rd execute_SLTI) 0x13 2; I_format (rd execute_SLTIU) 0x13 3;
   I_format (rd execute_XORI) 0x13 4; I_format (rd execute_ORI) 0x13 6; I_format (rd execute_ANDI) 0x13 7;
   shift_format (rd execute_SLLI) 0x13 1 0; shift_format (rd execute_SRLI) 0x13 5 0; shift_format (rd execute_SRAI) 0x13 5 0x10;
   I_format (rd execute_ADDIW) 0x1b 0; R_format (rd execute_SLLIW) 0x1b 1 0;
   R_format (rd execute_SRLIW) 0x1b 5 0; R_format (rd execute_SRAIW) 0x1b 5 0x20].
Definition operations : list encoding :=
  [R_format (rd execute_ADD) 0x33 0 0; R_format (rd execute_MUL) 0x33 0 1; R_format (rd execute_SUB) 0x33 0 0x20;
   R_format (rd execute_SLL) 0x33 1 0; R_format (rd execute_MULH) 0x33 1 1;
   R_format (rd execute_SLT) 0x33 2 0; R_format (rd execute_MULHSU) 0x33 2 1;
   R_format (rd execute_SLTU) 0x33 3 0; R_format (rd execute_MULHU) 0x33 3 1;
   R_format (rd execute_XOR) 0x33 4 0; R_format (rd execute_DIV) 0x33 4 1;
   R_format (rd execute_SRL) 0x33 5 0; R_format (rd execute_SRA) 0x33 5 0x20; R_format (rd execute_DIVU) 0x33 5 1;
   R_format (rd execute_OR) 0x33 6 0; R_format (rd execute_REM) 0x33 6 1;
   R_format (rd execute_AND) 0x33 7 0; R_format (rd execute_REMU) 0x33 7 1].
Definition word_operations : list encoding :=
  [R_format (rd execute_ADDW) 0x3b 0 0; R_format (rd execute_MULW) 0x3b 0 1; R_format (rd execute_SUBW) 0x3b 0 0x20;
   R_format (rd execute_SLLW) 0x3b 1 0; R_format (rd execute_DIVW) 0x3b 4 1;
   R_format (rd execute_SRLW) 0x3b 5 0; R_format (rd execute_DIVUW) 0x3b 5 1; R_format (rd execute_SRAW) 0x3b 5 0x20;
   R_format (rd execute_REMW) 0x3b 6 1; R_format (rd execute_REMUW) 0x3b 7 1].
Definition fences : list encoding := [I_format (plain execute_FENCE) 0x0f 0; I_format (plain execute_FENCE_I) 0x0f 1].
Definition atomics_W : list encoding :=
  [AMO_format (store execute_AMOADD_W) 2 0; AMO_format (store execute_AMOSWAP_W) 2 1; LR_format (clocked (execute_LR_W pmas)) 2;
   AMO_format (store execute_SC_W) 2 3; AMO_format (store execute_AMOXOR_W) 2 4; AMO_format (store execute_AMOOR_W) 2 8;
   AMO_format (store execute_AMOAND_W) 2 12; AMO_format (store execute_AMOMIN_W) 2 16; AMO_format (store execute_AMOMAX_W) 2 20;
   AMO_format (store execute_AMOMINU_W) 2 24; AMO_format (store execute_AMOMAXU_W) 2 28].
Definition atomics_D : list encoding :=
  [AMO_format (store execute_AMOADD_D) 3 0; AMO_format (store execute_AMOSWAP_D) 3 1; LR_format (clocked (execute_LR_D pmas)) 3;
   AMO_format (store execute_SC_D) 3 3; AMO_format (store execute_AMOXOR_D) 3 4; AMO_format (store execute_AMOOR_D) 3 8;
   AMO_format (store execute_AMOAND_D) 3 12; AMO_format (store execute_AMOMIN_D) 3 16; AMO_format (store execute_AMOMAX_D) 3 20;
   AMO_format (store execute_AMOMINU_D) 3 24; AMO_format (store execute_AMOMAXU_D) 3 28].
Definition float_memory : list encoding :=
  [I_format (clocked (execute_FLW pmas)) 0x07 2; I_format (clocked (execute_FLD pmas)) 0x07 3;
   I_format (store execute_FSW) 0x27 2; I_format (store execute_FSD) 0x27 3].
Definition fused : list encoding :=
  [R4_format (fp execute_FMADD_S) 0x43 0; R4_format (fp execute_FMADD_D) 0x43 1; R4_format (fp execute_FMSUB_S) 0x47 0; R4_format (fp execute_FMSUB_D) 0x47 1;
   R4_format (fp execute_FNMSUB_S) 0x4b 0; R4_format (fp execute_FNMSUB_D) 0x4b 1; R4_format (fp execute_FNMADD_S) 0x4f 0; R4_format (fp execute_FNMADD_D) 0x4f 1].
Definition float_arithmetic : list encoding :=
  [FP_format (fp execute_FADD_S) 0x00; FP_format (fp execute_FADD_D) 0x01; FP_format (fp execute_FSUB_S) 0x04; FP_format (fp execute_FSUB_D) 0x05;
   FP_format (fp execute_FMUL_S) 0x08; FP_format (fp execute_FMUL_D) 0x09; FP_format (fp execute_FDIV_S) 0x0c; FP_format (fp execute_FDIV_D) 0x0d;
   FP1_format (fp execute_FSQRT_S) 0x2c 0; FP1_format (fp execute_FSQRT_D) 0x2d 0].
Definition float_comparisons : list encoding :=
  [FP3_format (fp execute_FSGNJ_S) 0x10 0; FP3_format (fp execute_FSGNJN_S) 0x10 1; FP3_format (fp execute_FSGNJX_S) 0x10 2;
   FP3_format (fp execute_FSGNJ_D) 0x11 0; FP3_format (fp execute_FSGNJN_D) 0x11 1; FP3_format (fp execute_FSGNJX_D) 0x11 2;
   FP3_format (fp execute_FMIN_S) 0x14 0; FP3_format (fp execute_FMAX_S) 0x14 1; FP3_format (fp execute_FMIN_D) 0x15 0; FP3_format (fp execute_FMAX_D) 0x15 1;
   FP3_format (fp execute_FLE_S) 0x50 0; FP3_format (fp execute_FLT_S) 0x50 1; FP3_format (fp execute_FEQ_S) 0x50 2;
   FP3_format (fp execute_FLE_D) 0x51 0; FP3_format (fp execute_FLT_D) 0x51 1; FP3_format (fp execute_FEQ_D) 0x51 2].
Definition float_conversions : list encoding :=
  [FP1_format (fp execute_FCVT_W_S) 0x60 0; FP1_format (fp execute_FCVT_WU_S) 0x60 1; FP1_format (fp execute_FCVT_L_S) 0x60 2; FP1_format (fp execute_FCVT_LU_S) 0x60 3;
   FP1_format (fp execute_FCVT_W_D) 0x61 0; FP1_format (fp execute_FCVT_WU_D) 0x61 1; FP1_format (fp execute_FCVT_L_D) 0x61 2; FP1_format (fp execute_FCVT_LU_D) 0x61 3;
   FP1_format (fp execute_FCVT_S_D) 0x20 1; FP1_format (fp execute_FCVT_D_S) 0x21 0;
   FP1_format (fp execute_FCVT_S_W) 0x68 0; FP1_format (fp execute_FCVT_S_WU) 0x68 1; FP1_format (fp execute_FCVT_S_L) 0x68 2; FP1_format (fp execute_FCVT_S_LU) 0x68 3;
   FP1_format (fp execute_FCVT_D_W) 0x69 0; FP1_format (fp execute_FCVT_D_WU) 0x69 1; FP1_format (fp execute_FCVT_D_L) 0x69 2; FP1_format (fp execute_FCVT_D_LU) 0x69 3].
Definition float_moves : list encoding :=
  [FP13_format (fp execute_FMV_X_W) 0x70 0 0; FP13_format (fp execute_FCLASS_S) 0x70 0 1; FP13_format (fp execute_FMV_X_D) 0x71 0 0;
   FP13_format (fp execute_FCLASS_D) 0x71 0 1; FP13_format (fp execute_FMV_W_X) 0x78 0 0; FP13_format (fp execute_FMV_D_X) 0x79 0 0].
Definition csr_instructions : list encoding :=
  [I_format (clocked execute_CSRRW) 0x73 1; I_format (clocked execute_CSRRS) 0x73 2; I_format (clocked execute_CSRRC) 0x73 3;
   I_format (clocked execute_CSRRWI) 0x73 5; I_format (clocked execute_CSRRSI) 0x73 6; I_format (clocked execute_CSRRCI) 0x73 7].
Definition privileged : list encoding :=
  [word_format (plain execute_ECALL) 0x00000073; word_format (plain execute_EBREAK) 0x00100073; word_format (plain execute_SRET) 0x10200073;
   word_format (plain execute_MRET) 0x30200073; word_format (plain execute_WFI) 0x10500073; sfence_format (plain execute_SFENCE_VMA)].

Definition rv64gc_encodings : list encoding :=
  jumps ++ loads_and_stores ++ immediates ++ operations ++ word_operations ++ fences ++ atomics_W ++ atomics_D ++ float_memory ++ fused ++
  float_arithmetic ++ float_comparisons ++ float_conversions ++ float_moves ++ csr_instructions ++ privileged.
End listing.

Definition is_encoding (insn : Z) (e : encoding) : bool := Z.land insn (enc_mask e) =? enc_match e.

(** What a list of encodings runs for a word: its first match. *)
Definition run_matching (es : list encoding) (k : rd_kind) (pc mcycle insn : Z) : result :=
  match List.find (is_encoding insn) es with
  | Some e => enc_run e k pc mcycle insn
  | None => raise_illegal_insn_exception pc insn
  end.

(** The specialisation for the destination of a word. *)
Definition destination (insn : Z) : rd_kind := if insn_get_rd insn =? 0 then rd_x0 else rd_xN.
