(* ===== verification/Dispatch.v ===== *)
(** * The decoder of the interpreter

    From the jump table, which is indexed by 16 bits, and the functions that
    tell apart the instructions of one entry, to the listing of encodings.
    An entry of the table depends on 11 bits (and on whether [rd] is 0); the
    labels are computed for the 512 entries of 32-bit instructions, and each
    label is shown to run the encodings that agree with the bits its entries
    have in common. *)

From S2P Require Import Prelude Bits SolidityCompat Memory Machine Riscv Hart Trap Csr Devices VirtualMemory Decode Execute SoftFloat ExecuteFloat Compressed JumpTable Interpreter Rv64gc.
#[local] Open Scope string_scope.
#[local] Open Scope list_scope.
#[local] Open Scope Z_scope.

(** ** The bits of the index *)

(** Bits 15 to 12 and 6 to 0 of a word, and back. *)
Definition entry_of (insn : Z) : Z := Z.lor (Z.shiftl (Z.shiftr (insn_get_id insn) 12) 7) (Z.land (insn_get_id insn) 0x7f).
Definition entry_bits (i : Z) : Z := Z.lor (Z.shiftl (Z.shiftr i 7) 12) (Z.land i 0x7f).

Lemma entry_bits_of insn : entry_bits (entry_of insn) = Z.land insn 0xf07f.
Proof.
  unfold entry_bits, entry_of, insn_get_id. change 0xf07f with (Z.lor (Z.shiftl (Z.ones 4) 12) (Z.ones 7)).
  change 0x7f with (Z.ones 7). change 0xffff with (Z.ones 16). bitwise_cases.
Qed.

Lemma land_entry_bits insn mask : Z.land 0xf07f mask = mask -> Z.land (entry_bits (entry_of insn)) mask = Z.land insn mask.
Proof. intros Hm. by rewrite entry_bits_of, <-Z.land_assoc, Hm. Qed.

(** The 512 entries of words that end in 11. *)
Definition entries : list Z := map (fun j => j * 4 + 3) (seqZ 0 512).

Lemma entry_of_range insn : is_u 11 (entry_of insn).
Proof.
  assert (E : entry_of insn = uwrap 11 (entry_of insn)).
  { unfold entry_of, insn_get_id. change 0x7f with (Z.ones 7). change 0xffff with (Z.ones 16). bitwise_cases. }
  rewrite E. by apply uwrap_range.
Qed.

Lemma entry_of_uncompressed insn : Z.land insn 3 = 3 -> In (entry_of insn) entries.
Proof.
  intros H3. pose proof (entry_of_range insn) as Hr. unfold is_u in Hr. change (2 ^ 11) with 2048 in Hr.
  assert (Hm : entry_of insn mod 4 = 3).
  { change 4 with (2 ^ 2). rewrite <-Z.land_ones, <-H3 by lia. change 3 with (Z.ones 2).
    unfold entry_of, insn_get_id. change 0x7f with (Z.ones 7). change 0xffff with (Z.ones 16). bitwise_cases. }
  pose proof (Z.div_mod (entry_of insn) 4 ltac:(lia)).
  apply in_map_iff. exists (entry_of insn / 4). split; [lia|]. apply list_elem_of_In, elem_of_seqZ. lia.
Qed.

(** ** Groups of encodings

    The label of an entry, whether it depends on the destination, and the
    bits that all entries with this label have. *)
Record group := { g_label : string; g_rd0 : bool; g_mask : Z; g_match : Z }.

Definition label_of (g : group) (k : rd_kind) : string :=
  if g_rd0 g then g_label g +:+ match k with rd_x0 => "_rd0" | rd_xN => "_rdN" end else g_label g.

(** A word can have the bits of the group and be an encoding. *)
Definition compatible (g : group) (e : encoding) : bool :=
  Z.land (g_match g) (enc_mask e) =? Z.land (enc_match e) (g_mask g).

Lemma find_compatible g es insn :
  Z.land insn (g_mask g) = g_match g ->
  List.find (is_encoding insn) es = List.find (is_encoding insn) (List.filter (compatible g) es).
Proof.
  intros Hg. induction es as [|e es IH]; [done|]. simpl. destruct (is_encoding insn e) eqn:E.
  - assert (compatible g e = true) as ->; [|by simpl; rewrite E].
    unfold compatible, is_encoding in *. apply Z.eqb_eq in E. apply Z.eqb_eq.
    rewrite <-Hg, <-E, <-!Z.land_assoc. f_equal. apply Z.land_comm.
  - rewrite IH. destruct (compatible g e); simpl; [by rewrite E|done].
Qed.

(** The compatible encodings by their positions, which are computed. *)
Definition positions (g : group) (es : list encoding) : list nat :=
  map fst (List.filter (fun p => compatible g (snd p)) (imap pair es)).

Lemma filter_positions g es : List.filter (compatible g) es = omap (fun n => es !! n) (positions g es).
Proof.
  enough (H : forall n es', (forall j, es !! (n + j)%nat = es' !! j) ->
    List.filter (compatible g) es' = omap (fun n => es !! n) (map fst (List.filter (fun p => compatible g (snd p)) (imap (fun j e => ((n + j)%nat, e)) es')))).
  { by rewrite (H 0%nat es). }
  intros n es'. revert n. induction es' as [|e es' IH]; intros n Hn; [done|].
  assert (He : es !! n = Some e) by (specialize (Hn 0%nat); by rewrite Nat.add_0_r in Hn).
  cbn [imap List.filter]. rewrite Nat.add_0_r. cbn [snd].
  assert (IH' := IH (S n)). rewrite IH' by (intros j; specialize (Hn (S j)); by rewrite <-Nat.add_succ_comm in Hn).
  assert (imap (fun j e => ((S n + j)%nat, e)) es' = imap ((fun j e => ((n + j)%nat, e)) ∘ S) es') as ->
    by (apply imap_ext; intros j x _; cbn; f_equal; lia).
  destruct (compatible g e); [|done]. cbn [map omap list_omap fst]. by rewrite He.
Qed.

#[local] Abbreviation G l r m v := {| g_label := l; g_rd0 := r; g_mask := m; g_match := v |}.
(** Upper immediates, jumps and branches. *)
Definition jump_groups : list group := [
  G "LUI" true 0x7f 0x37; G "AUIPC" true 0x7f 0x17; G "JAL" true 0x7f 0x6f;
  G "JALR" true 0x707f 0x67; G "BEQ" false 0x707f 0x63; G "BNE" false 0x707f 0x1063;
  G "BLT" false 0x707f 0x4063; G "BGE" false 0x707f 0x5063; G "BLTU" false 0x707f 0x6063;
  G "BGEU" false 0x707f 0x7063].
(** Loads and stores. *)
Definition memory_groups : list group := [
  G "LB" true 0x707f 0x3; G "LH" true 0x707f 0x1003; G "LW" true 0x707f 0x2003;
  G "LD" true 0x707f 0x3003; G "LBU" true 0x707f 0x4003; G "LHU" true 0x707f 0x5003;
  G "LWU" true 0x707f 0x6003; G "SB" false 0x707f 0x23; G "SH" false 0x707f 0x1023;
  G "SW" false 0x707f 0x2023; G "SD" false 0x707f 0x3023].
(** Operations on an immediate. *)
Definition immediate_groups : list group := [
  G "ADDI" true 0x707f 0x13; G "SLTI" true 0x707f 0x2013; G "SLTIU" true 0x707f 0x3013;
  G "XORI" true 0x707f 0x4013; G "ORI" true 0x707f 0x6013; G "ANDI" true 0x707f 0x7013;
  G "SLLI" true 0x707f 0x1013; G "SRLI_SRAI" true 0x707f 0x5013; G "ADDIW" true 0x707f 0x1b;
  G "SLLIW" true 0x707f 0x101b; G "SRLIW_SRAIW" true 0x707f 0x501b].
(** Operations on two registers. *)
Definition operation_groups : list group := [
  G "ADD_MUL_SUB" true 0x707f 0x33; G "SLL_MULH" true 0x707f 0x1033; G "SLT_MULHSU" true 0x707f 0x2033;
  G "SLTU_MULHU" true 0x707f 0x3033; G "XOR_DIV" true 0x707f 0x4033; G "SRL_DIVU_SRA" true 0x707f 0x5033;
  G "OR_REM" true 0x707f 0x6033; G "AND_REMU" true 0x707f 0x7033; G "ADDW_MULW_SUBW" true 0x707f 0x3b;
  G "SLLW" true 0x707f 0x103b; G "DIVW" true 0x707f 0x403b; G "SRLW_DIVUW_SRAW" true 0x707f 0x503b;
  G "REMW" true 0x707f 0x603b; G "REMUW" true 0x707f 0x703b].
(** Fences, atomics and system instructions. *)
Definition system_groups : list group := [
  G "FENCE" false 0x707f 0xf; G "FENCE_I" false 0x707f 0x100f; G "AMO_W" false 0x707f 0x202f;
  G "AMO_D" false 0x707f 0x302f; G "PRIVILEGED" false 0x707f 0x73; G "CSRRW" false 0x707f 0x1073;
  G "CSRRS" false 0x707f 0x2073; G "CSRRC" false 0x707f 0x3073; G "CSRRWI" false 0x707f 0x5073;
  G "CSRRSI" false 0x707f 0x6073; G "CSRRCI" false 0x707f 0x7073].
(** Floating point. *)
Definition float_groups : list group := [
  G "FLW" false 0x707f 0x2007; G "FLD" false 0x707f 0x3007; G "FSW" false 0x707f 0x2027;
  G "FSD" false 0x707f 0x3027; G "FMADD" false 0x7f 0x43; G "FMSUB" false 0x7f 0x47;
  G "FNMSUB" false 0x7f 0x4b; G "FNMADD" false 0x7f 0x4f; G "FD" false 0x7f 0x53].
(** Floating point with one of the reserved rounding modes 5 and 6. *)
Definition reserved_rm_groups : list group := [
  G "ILLEGAL" false 0x707f 0x5043; G "ILLEGAL" false 0x707f 0x6043; G "ILLEGAL" false 0x707f 0x5047;
  G "ILLEGAL" false 0x707f 0x6047; G "ILLEGAL" false 0x707f 0x504b; G "ILLEGAL" false 0x707f 0x604b;
  G "ILLEGAL" false 0x707f 0x504f; G "ILLEGAL" false 0x707f 0x604f; G "ILLEGAL" false 0x707f 0x5053;
  G "ILLEGAL" false 0x707f 0x6053].

Definition groups : list group :=
  jump_groups ++ memory_groups ++ immediate_groups ++ operation_groups ++ system_groups ++ float_groups ++ reserved_rm_groups.

(** An illegal entry, as a group of its own. *)
Definition illegal_entry (i : Z) : group := G "ILLEGAL" false 0xf07f (entry_bits i).

Section dispatch.
Context {cfg : BuildConfig} (pmas : list address_range) (ev : bool).
#[local] Abbreviation encodings := (rv64gc_encodings pmas ev).
#[local] Abbreviation INSN_SWITCH := (INSN_SWITCH pmas ev).

(** Every entry is in a group with its label, or no encoding has its bits. *)
Definition entry_covered (entry : string * bool) (i : Z) : bool :=
  let '(label, rd0) := entry in
  existsb (fun g => String.eqb label (g_label g) && Bool.eqb rd0 (g_rd0 g) &&
             (Z.land (entry_bits i) (g_mask g) =? g_match g) && (Z.land 0xf07f (g_mask g) =? g_mask g)) groups ||
  String.eqb label "ILLEGAL" && negb rd0 && forallb (fun e => negb (compatible (illegal_entry i) e)) encodings.

Lemma entries_covered : forallb (fun i => entry_covered (table_entry i) i) entries = true.
Proof. vm_compute. reflexivity. Qed.

(** ** Fields against masks *)

Section fields.
Context (insn : Z) (Hu : is_u 32 insn).

Lemma high_field lo f : 0 <= lo <= 32 -> (Z.land insn (2 ^ 32 - 2 ^ lo) =? f * 2 ^ lo) = (Z.shiftr insn lo =? f).
Proof.
  intros Hlo. assert (Z.land insn (2 ^ 32 - 2 ^ lo) = Z.shiftr insn lo * 2 ^ lo) as ->.
  { rewrite <-Z.shiftl_mul_pow2 by lia.
    assert (2 ^ 32 - 2 ^ lo = Z.shiftl (Z.ones (32 - lo)) lo) as ->
      by (rewrite Z.shiftl_mul_pow2, Z.ones_equiv by lia; replace 32 with ((32 - lo) + lo) at 1 by lia; rewrite Z.pow_add_r by lia; lia).
    rewrite <-(uwrap_small 32 insn Hu). bitwise_cases. }
  pose proof (pow2_pos lo ltac:(lia)). destruct (Z.eqb_spec (Z.shiftr insn lo) f) as [->|H']; [apply Z.eqb_refl|].
  apply Z.eqb_neq. intros H''. apply H'. nia.
Qed.

(** A test on two disjoint masks is two tests. *)
Lemma land_part v1 v2 M1 M2 :
  Z.land M1 M2 = 0 -> Z.land v1 M1 = v1 -> Z.land v2 M2 = v2 -> Z.land (Z.lor v1 v2) M1 = v1.
Proof.
  intros HM H1 H2. rewrite Z.land_lor_distr_l, H1, <-H2, <-Z.land_assoc, (Z.land_comm M2), HM, Z.land_0_r. apply Z.lor_0_r.
Qed.

Lemma split_test M1 v1 M2 v2 :
  Z.land M1 M2 = 0 -> Z.land v1 M1 = v1 -> Z.land v2 M2 = v2 ->
  (Z.land insn (M1 + M2) =? v1 + v2) = (Z.land insn M1 =? v1) && (Z.land insn M2 =? v2).
Proof.
  intros HM H1 H2.
  assert (HM' : Z.land M2 M1 = 0) by (by rewrite Z.land_comm).
  assert (Hv : Z.land v1 v2 = 0) by (rewrite <-H1, <-H2, (Z.land_comm v2), Z.land_assoc, <-(Z.land_assoc v1), HM, Z.land_0_r; apply Z.land_0_l).
  rewrite <-!lor_disjoint, Z.land_lor_distr_r by done.
  apply eq_true_iff_eq. rewrite andb_true_iff, !Z.eqb_eq. split; [|by intros [-> ->]].
  intros E. split.
  - apply (f_equal (fun x => Z.land x M1)) in E. rewrite (land_part v1 v2 M1 M2) in E by done.
    rewrite (land_part (Z.land insn M1) (Z.land insn M2) M1 M2) in E; [done..| |]; by rewrite <-Z.land_assoc, Z.land_diag.
  - apply (f_equal (fun x => Z.land x M2)) in E. rewrite !(Z.lor_comm (Z.land insn M1)), !(Z.lor_comm v1) in E.
    rewrite (land_part v2 v1 M2 M1) in E by done.
    rewrite (land_part (Z.land insn M2) (Z.land insn M1) M2 M1) in E; [done..| |]; by rewrite <-Z.land_assoc, Z.land_diag.
Qed.

(** An encoding whose fields from bit [lo] on are the only unknown ones. *)
Lemma high_test e lo f low mask :
  Z.land insn mask = low -> 0 <= lo <= 32 ->
  enc_mask e = (2 ^ 32 - 2 ^ lo) + mask -> enc_match e = f * 2 ^ lo + low ->
  Z.land (2 ^ 32 - 2 ^ lo) mask = 0 -> Z.land (f * 2 ^ lo) (2 ^ 32 - 2 ^ lo) = f * 2 ^ lo -> Z.land low mask = low ->
  is_encoding insn e = (Z.shiftr insn lo =? f).
Proof.
  intros Hi Hlo Em Ev H1 H2 H3. unfold is_encoding. rewrite Em, Ev, split_test, high_field by done.
  by rewrite Hi, Z.eqb_refl, andb_true_r.
Qed.

(** An encoding whose bits under [M] are the only unknown ones. *)
Lemma mask_test e M v low mask :
  Z.land insn mask = low -> enc_mask e = M + mask -> enc_match e = v + low ->
  Z.land M mask = 0 -> Z.land v M = v -> Z.land low mask = low ->
  is_encoding insn e = (Z.land insn M =? v).
Proof.
  intros Hi Em Ev H1 H2 H3. unfold is_encoding. rewrite Em, Ev, split_test by done.
  by rewrite Hi, Z.eqb_refl, andb_true_r.
Qed.

Lemma word_test run w : is_encoding insn (word_format run w) = (insn =? w).
Proof. unfold is_encoding, word_format. simpl. change 0xffffffff with (Z.ones 32). rewrite Z.land_ones by lia. fold (uwrap 32 insn). by rewrite uwrap_small. Qed.

(** The field of funct7 and rs2 as two fields. *)
Lemma funct7_rs2_test c : 0 <= c < 2 ^ 12 ->
  (Z.shiftr insn 20 =? c) = (Z.shiftr insn 25 =? c / 2 ^ 5) && (Z.land insn 0x1f00000 =? (c mod 2 ^ 5) * 2 ^ 20).
Proof.
  intros Hc. pose proof (Z.div_mod c (2 ^ 5) ltac:(lia)). pose proof (Z.mod_pos_bound c (2 ^ 5) ltac:(lia)).
  assert (0 <= c / 2 ^ 5 < 2 ^ 7) by (split; [apply Z.div_pos|apply Z.div_lt_upper_bound]; lia).
  rewrite <-high_field, <-(high_field 25), <-split_test; [|done|..|lia|lia].
  - change (2 ^ 32 - 2 ^ 25 + 0x1f00000) with (2 ^ 32 - 2 ^ 20). do 2 f_equal. lia.
  - change (2 ^ 32 - 2 ^ 25) with (Z.shiftl (Z.ones 7) 25). rewrite <-Z.shiftl_mul_pow2, <-Z.shiftl_land by lia.
    by rewrite Z.land_ones, Z.mod_small by lia.
  - change 0x1f00000 with (Z.shiftl (Z.ones 5) 20). rewrite <-Z.shiftl_mul_pow2, <-Z.shiftl_land by lia.
    by rewrite Z.land_ones, Z.mod_small by lia.
Qed.

(** An encoding with all of its bits known. *)
Lemma known_test e : Z.land insn (enc_mask e) = enc_match e -> is_encoding insn e = true.
Proof. intros H. by apply Z.eqb_eq. Qed.

(** Two fields are unknown: one from bit [lo] on and one under [mask']. *)
Lemma two_test e lo f mask' v low mask :
  Z.land insn mask = low -> 0 <= lo <= 32 ->
  enc_mask e = (2 ^ 32 - 2 ^ lo) + (mask' + mask) -> enc_match e = f * 2 ^ lo + (v + low) ->
  Z.land (2 ^ 32 - 2 ^ lo) (mask' + mask) = 0 -> Z.land (f * 2 ^ lo) (2 ^ 32 - 2 ^ lo) = f * 2 ^ lo -> Z.land low mask = low ->
  Z.land mask' mask = 0 -> Z.land v mask' = v -> Z.land (v + low) (mask' + mask) = v + low ->
  is_encoding insn e = (Z.shiftr insn lo =? f) && (Z.land insn mask' =? v).
Proof.
  intros Hi Hlo Em Ev H1 H2 H3 H4 H5 H6. unfold is_encoding. rewrite Em, Ev, split_test, high_field, split_test by done.
  by rewrite Hi, Z.eqb_refl, andb_true_r.
Qed.
End fields.

(** ** Groups *)

(** The label of the group runs the encodings that a word with its bits matches. *)
Definition group_ok (g : group) : Prop :=
  forall k pc mcycle insn m,
    is_u 32 insn -> Z.land insn (g_mask g) = g_match g ->
    INSN_SWITCH (label_of g k) pc mcycle insn m = run_matching encodings k pc mcycle insn m.

Lemma run_matching_compatible g k pc mcycle insn :
  Z.land insn (g_mask g) = g_match g ->
  run_matching encodings k pc mcycle insn = run_matching (omap (fun n => encodings !! n) (positions g encodings)) k pc mcycle insn.
Proof. intros Hg. unfold run_matching. by rewrite (find_compatible g), filter_positions. Qed.

(** Reduces the search for a label in the cases of the switch. *)
Ltac open_label :=
  match goal with
  | |- context [List.find ?f (insn_cases ?p ?e)] =>
      let r := eval cbv [List.find insn_cases IM_cases C_cases Zcb_cases FD_A_Zicsr_cases rd0_cases app fst String.eqb Ascii.eqb Bool.eqb]
        in (List.find f (insn_cases p e)) in
      change (List.find f (insn_cases p e)) with r
  end;
  cbn beta iota.

(** Reduces a group to the function of its label and its encodings. *)
Ltac open_rows :=
  intros k pc mcycle insn m Hu Hg; rewrite (run_matching_compatible _ _ _ _ _ Hg); cbn [g_mask g_match] in Hg;
  match goal with
  | |- context [omap ?f (positions ?g ?es)] =>
      let l := eval vm_compute in (positions g es) in
      replace (positions g es) with l by (vm_compute; reflexivity);
      let r := eval cbv [omap list_omap lookup list_lookup rv64gc_encodings jumps loads_and_stores immediates operations word_operations
                         fences atomics_W atomics_D float_memory fused float_arithmetic float_comparisons float_conversions float_moves
                         csr_instructions privileged app] in (omap f l) in
      change (omap f l) with r
  end;
  unfold label_of, Interpreter.INSN_SWITCH; cbn [g_rd0 g_label];
  (* both specialisations, where there are two *)
  try (destruct k; match goal with |- context [?a +:+ ?b] => let c := eval vm_compute in (a +:+ b) in change (a +:+ b) with c end);
  open_label.
Ltac open_group := open_rows; unfold run_matching; cbn [List.find].

(** Turns the encodings into the tests of the code. *)
Ltac test_encodings :=
  repeat match goal with
  | Hu : is_u 32 ?insn, Hg : Z.land ?insn ?mask = ?low |- context [is_encoding ?insn ?e] =>
      first
        [ rewrite (known_test insn e) by exact Hg
        | rewrite (word_test insn Hu)
        | lazymatch e with
          | R_format _ _ _ ?f7 => rewrite (high_test insn Hu e 25 f7 low mask Hg) by (done || lia)
          | shift_format _ _ _ ?f6 => rewrite (high_test insn Hu e 26 f6 low mask Hg) by (done || lia)
          | AMO_format _ _ ?f5 => rewrite (high_test insn Hu e 27 f5 low mask Hg) by (done || lia)
          | LR_format _ _ => rewrite (two_test insn Hu e 27 2 0x1f00000 0 low mask Hg) by (done || lia)
          | R4_format _ _ ?f => let v := eval vm_compute in (f * 2 ^ 25) in rewrite (mask_test insn e 0x6000000 v low mask Hg) by (done || lia)
          | FP1_format _ ?f7 ?rs2 => let v := eval vm_compute in (rs2 * 2 ^ 20) in
              rewrite (two_test insn Hu e 25 f7 0x1f00000 v low mask Hg) by (done || lia)
          | FP3_format _ ?f7 ?f3 => let v := eval vm_compute in (f3 * 2 ^ 12) in
              rewrite (two_test insn Hu e 25 f7 0x7000 v low mask Hg) by (done || lia)
          | FP13_format _ ?f7 ?rs2 ?f3 => let v := eval vm_compute in (rs2 * 2 ^ 20) in let v' := eval vm_compute in (f3 * 2 ^ 12) in
              rewrite (two_test insn Hu e 25 f7 (0x1f00000 + 0x7000) (v + v') low mask Hg) by (done || lia);
              rewrite (split_test insn 0x1f00000 v 0x7000 v') by done
          | FP_format _ ?f7 => rewrite (high_test insn Hu e 25 f7 low mask Hg) by (done || lia)
          end ]
  end.

(** Splits on the tests, which both sides make. *)
Ltac split_tests :=
  repeat match goal with
  | |- context [?a =? ?b] => destruct (Z.eqb_spec a b); try congruence; cbn [negb andb]
  end;
  reflexivity.

(** The same, but one function is left to prove. *)
Ltac tested_last :=
  repeat match goal with
  | |- context [?a =? ?b] => destruct (Z.eqb_spec a b); try congruence; cbn [negb andb]; try reflexivity
  end.

(** A function that makes the test itself. *)
Ltac tested_inside c := destruct c eqn:E; cbn iota; [reflexivity|].

Ltac solve_group := open_group; test_encodings; first [reflexivity | idtac].
Ltac each_group := repeat apply Forall_cons_2; [..|by apply Forall_nil].

Lemma jump_groups_ok : Forall group_ok jump_groups.
Proof. unfold jump_groups. each_group; solve_group. Qed.
Lemma memory_groups_ok : Forall group_ok memory_groups.
Proof. unfold memory_groups. each_group; solve_group. Qed.
Lemma immediate_groups_ok : Forall group_ok immediate_groups.
Proof.
  unfold immediate_groups. each_group; solve_group.
  all: try (tested_inside (insn ≫ 26 =? 0); unfold execute_SLLI; change (Z.land insn (Z.shiftl 0x3f 26) =? 0) with (Z.land insn (2 ^ 32 - 2 ^ 26) =? 0 * 2 ^ 26);
            rewrite (high_field insn Hu 26 0) by lia; by rewrite E).
  all: try (tested_inside (insn ≫ 25 =? 0); unfold execute_SLLIW, insn_get_funct7; by rewrite E).
  all: unfold execute_SRLI_SRAI, execute_SRLIW_SRAIW, insn_get_funct7, insn_get_funct7_sr1.
  all: split_tests.
Qed.
Lemma operation_groups_ok : Forall group_ok operation_groups.
Proof.
  unfold operation_groups. each_group; open_group.
  all: try (match goal with |- context [is_encoding ?i ?e] => tested_inside (is_encoding i e) end;
            unfold execute_SLLW, execute_DIVW, execute_REMW, execute_REMUW;
            match goal with |- context [negb ?t] => by replace t with false by (symmetry; exact E) end).
  all: test_encodings.
  all: unfold execute_ADD_MUL_SUB, execute_SLL_MULH, execute_SLT_MULHSU, execute_SLTU_MULHU, execute_XOR_DIV, execute_SRL_DIVU_SRA,
    execute_OR_REM, execute_AND_REMU, execute_ADDW_MULW_SUBW, execute_SRLW_DIVUW_SRAW, insn_get_funct7.
  all: split_tests.
Qed.
Lemma system_groups_ok : Forall group_ok system_groups.
Proof.
  unfold system_groups. each_group; solve_group.
  - destruct (Z.land insn 0x1f00000 =? 0) eqn:E; unfold execute_AMO_W, insn_get_funct7_sr2; rewrite ?andb_true_r, ?andb_false_r; [split_tests|].
    tested_last. unfold execute_LR_W. by rewrite E.
  - destruct (Z.land insn 0x1f00000 =? 0) eqn:E; unfold execute_AMO_D, insn_get_funct7_sr2; rewrite ?andb_true_r, ?andb_false_r; [split_tests|].
    tested_last. unfold execute_LR_D. by rewrite E.
  - unfold execute_privileged. tested_last.
    match goal with |- context [is_encoding ?i ?e] => destruct (is_encoding i e) eqn:E end; [reflexivity|].
    unfold execute_SFENCE_VMA. match goal with |- context [negb ?t] => by replace t with false by (symmetry; exact E) end.
Qed.
(** Illegal instructions are illegal with the FS field off, too. *)
Lemma FS_off_illegal pc insn body m :
  body m = raise_illegal_insn_exception pc insn m ->
  unless_FS_off pc insn body m = raise_illegal_insn_exception pc insn m.
Proof.
  intros Hb. unfold unless_FS_off, read_mstatus, DEFINE_SA_WARL_READ, read_shadow_register, gets.
  unfold mbind, M_bind, mret, M_ret. by destruct (Z.land _ MSTATUS_FS_MASK =? MSTATUS_FS_OFF).
Qed.

Lemma fused_groups_ok : Forall group_ok (take 8 float_groups).
Proof.
  unfold float_groups. cbn [take]. each_group; solve_group.
  all: unfold execute_FMADD, execute_FMSUB, execute_FNMSUB, execute_FNMADD, insn_get_funct2_0000000000000000000000000.
  all: repeat match goal with |- context [?a =? ?b] => destruct (Z.eqb_spec a b); try congruence end; try reflexivity.
  all: by apply FS_off_illegal.
Qed.
(** By cases on funct7, and then on the other fields; the tests are
    rewritten, not reduced, so that nothing else is. *)
Ltac decide_test t b := replace t with b by (symmetry; first [by apply Z.eqb_eq; congruence | by apply Z.eqb_neq; congruence]).
Ltac funct7_cases insn :=
  match goal with
  | |- context [insn ≫ 25 =? ?c] =>
      let E := fresh "E" in
      destruct (Z.eqb_spec (insn ≫ 25) c) as [E|E];
      [ repeat match goal with
        | |- context [insn ≫ 25 =? ?d] => first [decide_test (insn ≫ 25 =? d) false | decide_test (insn ≫ 25 =? d) true]
        end
      | ];
      rewrite ?andb_false_l, ?andb_true_l;
      [ | funct7_cases insn]
  | |- _ => idtac
  end.
Ltac field_cases :=
  repeat match goal with
  | |- context [?a =? ?b] =>
      lazymatch a with Z.land _ 0x7000 => idtac | Z.land _ 0x1f00000 => idtac end;
      destruct (Z.eqb_spec a b); try congruence; rewrite ?andb_false_l, ?andb_true_l
  end.

Lemma shifted_field insn lo n : 0 <= lo -> Z.land insn (Z.shiftl n lo) <> 0 -> Z.land (Z.shiftr insn lo) n <> 0.
Proof. intros Hlo Hn E. apply Hn. apply (f_equal (fun x => Z.shiftl x lo)) in E. rewrite Z.shiftl_0_l in E. rewrite <-E. bitwise_cases. Qed.

(** The fields that these functions test themselves. *)
Lemma unary_rs2 fmt pc insn f m :
  Z.land insn 0x1f00000 <> 0 -> execute_float_unary_op_rm fmt pc insn f m = raise_illegal_insn_exception pc insn m.
Proof.
  intros Hn. apply (shifted_field insn 20 31) in Hn; [|done]. unfold execute_float_unary_op_rm, insn_get_rs2.
  apply Z.eqb_neq in Hn. change 0x1f with 31. by rewrite Hn.
Qed.
Lemma FMV_funct3 fmt pc insn m :
  Z.land insn 0x7000 <> 0 -> execute_FMV_F_X fmt pc insn m = raise_illegal_insn_exception pc insn m.
Proof.
  intros Hn. apply (shifted_field insn 12 7) in Hn; [|done]. unfold execute_FMV_F_X, insn_get_funct3.
  apply Z.eqb_neq in Hn. by rewrite Hn.
Qed.

Lemma FD_group_ok : group_ok (G "FD" false 0x7f 0x53).
Proof.
  open_group. test_encodings. unfold execute_FD, execute_FCVT_FMV_FCLASS, insn_get_funct7, insn_get_funct7_rs2. cbv zeta.
  repeat (rewrite (funct7_rs2_test insn Hu) by lia;
    match goal with |- context [(?a =? ?c / 2 ^ 5) && (_ =? ?d mod 2 ^ 5 * 2 ^ 20)] =>
      let v := eval vm_compute in (c / 2 ^ 5) in change (c / 2 ^ 5) with v;
      let v := eval vm_compute in (d mod 2 ^ 5 * 2 ^ 20) in change (d mod 2 ^ 5 * 2 ^ 20) with v end).
  funct7_cases insn.
  all: unfold execute_FSGN_S, execute_FSGN_D, execute_FMINMAX_S, execute_FMINMAX_D, execute_FCMP_S, execute_FCMP_D,
    execute_FMV_FCLASS_S, execute_FMV_FCLASS_D, insn_get_funct3_000000000000; cbv zeta.
  all: field_cases; try reflexivity; apply FS_off_illegal; try reflexivity.
  1,2: unfold execute_FSQRT_S, execute_FSQRT_D; by rewrite unary_rs2.
  all: unfold execute_FMV_W_X, execute_FMV_D_X; by rewrite FMV_funct3.
Qed.

Lemma float_groups_ok : Forall group_ok float_groups.
Proof.
  change float_groups with (take 8 float_groups ++ [G "FD" false 0x7f 0x53]).
  apply Forall_app_2; [apply fused_groups_ok|]. apply Forall_singleton, FD_group_ok.
Qed.

(** *** Reserved rounding modes *)

Lemma run_matching_none es k pc mcycle insn m :
  Forall (fun e => enc_run e k pc mcycle insn m = raise_illegal_insn_exception pc insn m) es ->
  run_matching es k pc mcycle insn m = raise_illegal_insn_exception pc insn m.
Proof.
  intros He. unfold run_matching. destruct (List.find _ es) as [e|] eqn:E; [|done].
  apply find_some in E as [E _]. rewrite Forall_forall in He. by apply He, list_elem_of_In.
Qed.

Definition reserved_rm (insn : Z) : Prop := insn_get_funct3 insn = 5 \/ insn_get_funct3 insn = 6.

Section reserved.
Context (pc insn : Z) (m : memory) (Hrm : reserved_rm insn).

Lemma reserved_get_rm fcsr : (FRM_RMM <? insn_get_rm insn fcsr) = true.
Proof. unfold insn_get_rm. by destruct Hrm as [-> | ->]. Qed.

#[local] Ltac reserved := cbv beta delta [execute_float_ternary_op_rm execute_float_binary_op_rm execute_float_unary_op_rm
  execute_FCVT_F_F execute_FCVT_X_F execute_FCVT_F_X read_fcsr DEFINE_SA_WARL_READ read_shadow_register gets]; unfold mbind, M_bind, mret, M_ret;
  cbv beta iota zeta; rewrite reserved_get_rm.
Lemma ternary_reserved fmt f : execute_float_ternary_op_rm fmt pc insn f m = raise_illegal_insn_exception pc insn m.
Proof. reserved. reflexivity. Qed.
Lemma binary_reserved fmt f : execute_float_binary_op_rm fmt pc insn f m = raise_illegal_insn_exception pc insn m.
Proof. reserved. reflexivity. Qed.
Lemma unary_reserved fmt f : execute_float_unary_op_rm fmt pc insn f m = raise_illegal_insn_exception pc insn m.
Proof. reserved. by destruct (negb _). Qed.
Lemma FCVT_F_F_reserved from to f : execute_FCVT_F_F from to pc insn f m = raise_illegal_insn_exception pc insn m.
Proof. reserved. reflexivity. Qed.
Lemma FCVT_X_F_reserved fmt f : execute_FCVT_X_F fmt pc insn f m = raise_illegal_insn_exception pc insn m.
Proof. reserved. reflexivity. Qed.
Lemma FCVT_F_X_reserved fmt f : execute_FCVT_F_X fmt pc insn f m = raise_illegal_insn_exception pc insn m.
Proof. reserved. reflexivity. Qed.
End reserved.
(** Unfolds an instruction with a rounding mode to its shape. *)
Ltac reserved_shape Hrm :=
  apply FS_off_illegal;
  unfold execute_FADD_D, execute_FADD_S, execute_FCVT_D_L, execute_FCVT_D_LU, execute_FCVT_D_S, execute_FCVT_D_W, execute_FCVT_D_WU, execute_FCVT_LU_D, execute_FCVT_LU_S, execute_FCVT_L_D, execute_FCVT_L_S, execute_FCVT_S_D, execute_FCVT_S_L, execute_FCVT_S_LU, execute_FCVT_S_W, execute_FCVT_S_WU, execute_FCVT_WU_D, execute_FCVT_WU_S, execute_FCVT_W_D, execute_FCVT_W_S, execute_FDIV_D, execute_FDIV_S, execute_FMADD_D, execute_FMADD_S, execute_FMSUB_D, execute_FMSUB_S, execute_FMUL_D, execute_FMUL_S, execute_FNMADD_D, execute_FNMADD_S, execute_FNMSUB_D, execute_FNMSUB_S, execute_FSQRT_D, execute_FSQRT_S, execute_FSUB_D, execute_FSUB_S;
  first [ rewrite (binary_reserved _ _ _ Hrm) | rewrite (ternary_reserved _ _ _ Hrm) | rewrite (unary_reserved _ _ _ Hrm)
        | rewrite (FCVT_F_F_reserved _ _ _ Hrm) | rewrite (FCVT_X_F_reserved _ _ _ Hrm) | rewrite (FCVT_F_X_reserved _ _ _ Hrm) ];
  reflexivity.

Lemma reserved_bits insn f :
  Z.land insn 0x707f = f -> Z.land (Z.shiftr f 12) 7 = 5 \/ Z.land (Z.shiftr f 12) 7 = 6 -> reserved_rm insn.
Proof.
  intros <- H. unfold reserved_rm, insn_get_funct3. by rewrite Z.shiftr_land, <-Z.land_assoc in H.
Qed.

Lemma reserved_rm_groups_ok : Forall group_ok reserved_rm_groups.
Proof.
  unfold reserved_rm_groups. each_group; open_rows.
  all: apply reserved_bits in Hg as Hrm; [|by (left + right)].
  all: symmetry; apply run_matching_none; repeat apply Forall_cons_2; [..|by apply Forall_nil].
  all: cbn [enc_run FP_format FP1_format R4_format with_FS]; reserved_shape Hrm.
Qed.
Lemma groups_ok : Forall group_ok groups.
Proof.
  unfold groups. repeat apply Forall_app_2.
  - apply jump_groups_ok.
  - apply memory_groups_ok.
  - apply immediate_groups_ok.
  - apply operation_groups_ok.
  - apply system_groups_ok.
  - apply float_groups_ok.
  - apply reserved_rm_groups_ok.
Qed.

(** ** The label of a word *)

Lemma insn_get_id_fields insn :
  Z.land (Z.shiftr (insn_get_id insn) 7) 0x1f = insn_get_rd insn /\ field (insn_get_id insn) 0 2 = Z.land insn 3.
Proof.
  unfold field, insn_get_id, insn_get_rd. change 0x1f with (Z.ones 5). change 0xffff with (Z.ones 16). change 3 with (Z.ones 2).
  split; bitwise_cases.
Qed.

Lemma jumptable_label insn g :
  Z.land insn 3 = 3 -> table_entry (entry_of insn) = (g_label g, g_rd0 g) ->
  insn_jumptable (insn_get_id insn) = label_of g (destination insn).
Proof.
  intros H3 E. unfold insn_jumptable. fold (entry_of insn). rewrite E. destruct (insn_get_id_fields insn) as [-> Hq].
  unfold label_of, destination, c_insn_by_idx. rewrite Hq, H3. change (3 =? 0) with false. change (3 =? 1) with false. change (3 =? 2) with false.
  cbv iota zeta. destruct (g_rd0 g), (insn_get_rd insn =? 0); destruct (String.eqb _ "ILLEGAL"); reflexivity.
Qed.

Lemma filter_none {A} (f : A -> bool) l : forallb (fun x => negb (f x)) l = true -> List.filter f l = [].
Proof.
  induction l as [|x l IH]; [done|]. cbn [forallb List.filter]. intros [Hx Hl]%andb_true_iff.
  apply negb_true_iff in Hx as ->. by apply IH.
Qed.

Lemma illegal_entry_ok i k pc mcycle insn m :
  forallb (fun e => negb (compatible (illegal_entry i) e)) encodings = true -> i = entry_of insn ->
  run_matching encodings k pc mcycle insn m = raise_illegal_insn_exception pc insn m.
Proof.
  intros Hc ->. unfold run_matching. rewrite (find_compatible (illegal_entry (entry_of insn))).
  - assert (List.filter (compatible (illegal_entry (entry_of insn))) encodings = []) as ->; [|reflexivity].
    by apply filter_none.
  - cbn [g_mask g_match illegal_entry]. symmetry. apply entry_bits_of.
Qed.

Lemma switch_ILLEGAL i k pc mcycle insn m : INSN_SWITCH (label_of (illegal_entry i) k) pc mcycle insn m = raise_illegal_insn_exception pc insn m.
Proof. unfold label_of. cbn [illegal_entry g_rd0 g_label]. unfold Interpreter.INSN_SWITCH. open_label. reflexivity. Qed.

(** The interpreter runs the encoding that a word matches, or raises an
    exception when there is none. *)
Lemma execute_insn_run_matching pc mcycle insn m :
  is_u 32 insn -> Z.land insn 3 = 3 ->
  execute_insn pmas ev pc mcycle insn m = run_matching encodings (destination insn) pc mcycle insn m.
Proof.
  intros Hu H3. unfold execute_insn.
  pose proof entries_covered as Hc. rewrite forallb_forall in Hc. specialize (Hc (entry_of insn) (entry_of_uncompressed insn H3)).
  destruct (table_entry (entry_of insn)) as [label rd0] eqn:E. apply orb_true_iff in Hc as [Hc|Hc].
  - apply existsb_exists in Hc as (g & Hin & Hg). rewrite !andb_true_iff, String.eqb_eq, Bool.eqb_true_iff, !Z.eqb_eq in Hg.
    destruct Hg as (((-> & ->) & Hb) & Hm). rewrite (jumptable_label insn g H3 E).
    pose proof groups_ok as Hok. rewrite Forall_forall in Hok. apply Hok; [by apply list_elem_of_In|done|].
    by rewrite <-Hb, land_entry_bits.
  - rewrite !andb_true_iff, String.eqb_eq, negb_true_iff in Hc. destruct Hc as ((-> & ->) & Hf).
    rewrite (jumptable_label insn (illegal_entry (entry_of insn)) H3 E), (illegal_entry_ok (entry_of insn)) by done.
    apply switch_ILLEGAL.
Qed.
End dispatch.
