(* ===== verification/DecodeProofs.v ===== *)
(** * Decoding in the interpreter: theorems *)

From S2P Require Import Prelude Bits SolidityCompat Memory Machine Samples Riscv Hart Trap Csr Devices VirtualMemory PageTableProofs Decode Execute SoftFloat ExecuteFloat Compressed JumpTable Interpreter Rv64gc Dispatch.

(** No word matches two encodings: they differ on a bit that both masks cover. *)
Definition apart (e e' : encoding) : bool := negb (Z.land (enc_match e) (enc_mask e') =? Z.land (enc_match e') (enc_mask e)).

Fixpoint pairwise_apart (es : list encoding) : bool :=
  match es with
  | [] => true
  | e :: es => forallb (fun e' => apart e e') es && pairwise_apart es
  end.

Lemma apart_matches insn e e' : apart e e' = true -> is_encoding insn e = true -> is_encoding insn e' = true -> False.
Proof.
  unfold apart, is_encoding. rewrite negb_true_iff, Z.eqb_neq, !Z.eqb_eq. intros Ha He He'. apply Ha.
  rewrite <-He, <-He', <-!Z.land_assoc. f_equal. apply Z.land_comm.
Qed.

Lemma find_apart es insn e :
  pairwise_apart es = true -> In e es -> is_encoding insn e = true -> List.find (is_encoding insn) es = Some e.
Proof.
  induction es as [|e' es IH]; [done|]. cbn [pairwise_apart In List.find]. intros [Ha Hp]%andb_true_iff [->|Hin] He.
  - by rewrite He.
  - destruct (is_encoding insn e') eqn:He'; [|by apply IH]. exfalso.
    rewrite forallb_forall in Ha. by apply (apart_matches insn e' e); [apply Ha| |].
Qed.

Section decoding.
Context {cfg : BuildConfig} (pmas : list address_range) (ev : bool).

Lemma encodings_apart : pairwise_apart (rv64gc_encodings pmas ev) = true.
Proof. vm_compute. reflexivity. Qed.

(** C36: The big interpreter decodes RV64GC: whatever the state, the privilege mode and the configuration, a 32-bit word that matches one of the 160 encodings of the base, M, A, F, D, Zicsr, Zifencei and privileged instructions runs the function of that instruction, and every other one raises an illegal instruction exception. The 16-bit jump table that the build generates, its specialisation for a destination x0, and the functions that tell apart the instructions of one entry by their upper bits, are equivalent to the listing of the manual, in which no word matches two encodings. *)
Theorem execute_insn_decodes pc mcycle insn m :
  is_u 32 insn -> Z.land insn 3 = 3 ->
  (forall e, In e (rv64gc_encodings pmas ev) -> is_encoding insn e = true ->
     execute_insn pmas ev pc mcycle insn m = enc_run e (destination insn) pc mcycle insn m) /\
  ((forall e, In e (rv64gc_encodings pmas ev) -> is_encoding insn e = false) ->
     execute_insn pmas ev pc mcycle insn m = raise_illegal_insn_exception pc insn m).
Proof.
  intros Hu H3. rewrite (execute_insn_run_matching pmas ev pc mcycle insn m Hu H3). unfold run_matching. split.
  - intros e Hin He. by rewrite (find_apart _ _ e encodings_apart Hin He).
  - intros Hnone. destruct (List.find _ _) as [e|] eqn:E; [|reflexivity].
    apply find_some in E as [Hin He]. by rewrite Hnone in He.
Qed.
End decoding.

(** A subtraction, and a word with the reserved funct7 value 2. *)
Lemma execute_insn_decodes_witness :
  @execute_insn debug_build [sample_ram] false 0x1000 0 0x40208133 sample_paged_hart = execute_SUB rd_xN 0x1000 0x40208133 sample_paged_hart /\
  @execute_insn debug_build [sample_ram] false 0x1000 0 0x04208133 sample_paged_hart = raise_illegal_insn_exception 0x1000 0x04208133 sample_paged_hart.
Proof.
  split.
  - destruct (@execute_insn_decodes debug_build [sample_ram] false 0x1000 0 0x40208133 sample_paged_hart) as [H _]; [by vm_compute..|].
    apply (H (R_format (with_rd execute_SUB) 0x33 0 0x20)); [|by vm_compute].
    unfold rv64gc_encodings. do 3 (apply in_or_app; right). apply in_or_app; left. right. right. left. reflexivity.
  - destruct (@execute_insn_decodes debug_build [sample_ram] false 0x1000 0 0x04208133 sample_paged_hart) as [_ H]; [by vm_compute..|].
    apply H. intros e Hin. apply negb_true_iff.
    apply (proj1 (forallb_forall (fun e => negb (is_encoding 0x04208133 e)) _)) with (2 := Hin). by vm_compute.
Defined.
