(* ===== verification/SimdVector.v ===== *)
(** * Vectors of words (src/simd-vector-type.hpp)

    The hash functions are templates over a vector of words, on which the
    operators of C++ work lane by lane.  The operations are a class, with one
    instance for a single word and one for the lanes of a vector; a
    computation on vectors is related, at each lane, to the same computation
    on words. *)

From S2P Require Import Prelude.

Declare Scope word_scope.
Delimit Scope word_scope with word.

(** The operators of the compiler's vector types, and the broadcast of a
    scalar operand. *)
Class WordVector (W : Type) := {
  wxor : W -> W -> W;
  wand : W -> W -> W;
  wor : W -> W -> W;
  wnot : W -> W;
  wshl : W -> Z -> W;
  wshr : W -> Z -> W;
  splat : Z -> W
}.

Class WordAdd (W : Type) := wadd : W -> W -> W.

Infix "^^" := wxor (at level 50, left associativity) : word_scope.
Infix "|||" := wor (at level 50, left associativity) : word_scope.
Infix "&&&" := wand (at level 40, left associativity) : word_scope.
Infix "+" := wadd : word_scope.
Infix "<<" := wshl (at level 35, no associativity) : word_scope.
Infix ">>" := wshr (at level 35, no associativity) : word_scope.
Notation "~~ x" := (wnot x) (at level 30, right associativity) : word_scope.

(** One word of [w] bits. *)
Definition word_ops (w : Z) : WordVector Z := {|
  wxor := Z.lxor;
  wand := Z.land;
  wor := Z.lor;
  wnot x := 2 ^ w - 1 - x;
  wshl x n := uwrap w (Z.shiftl x n);
  wshr := Z.shiftr;
  splat x := x
|}.

Definition word_add (w : Z) : WordAdd Z := fun x y => uwrap w (x + y).

(** [LaneCount] words of [w] bits. *)
Definition lanes_ops (w : Z) (LaneCount : nat) : WordVector (list Z) := {|
  wxor := zip_with Z.lxor;
  wand := zip_with Z.land;
  wor := zip_with Z.lor;
  wnot := map (fun x => 2 ^ w - 1 - x);
  wshl v n := map (fun x => uwrap w (Z.shiftl x n)) v;
  wshr v n := map (fun x => Z.shiftr x n) v;
  splat x := replicate LaneCount x
|}.

Definition lanes_add (w : Z) : WordAdd (list Z) := zip_with (word_add w).

(** ** Relations between vectors that the operations respect

    The relation may be between words in their range only, so the operands of
    the code must be: shifts are by constants that are not negative, and
    scalars are words. *)

Class WordSim {V W : Type} (width : Z) (v : WordVector V) (w : WordVector W) (R : V -> W -> Prop) := {
  sim_xor a b a' b' : R a a' -> R b b' -> R (wxor a b) (wxor a' b');
  sim_and a b a' b' : R a a' -> R b b' -> R (wand a b) (wand a' b');
  sim_or a b a' b' : R a a' -> R b b' -> R (wor a b) (wor a' b');
  sim_not a a' : R a a' -> R (wnot a) (wnot a');
  sim_shl a a' n : 0 <= n -> R a a' -> R (wshl a n) (wshl a' n);
  sim_shr a a' n : 0 <= n -> R a a' -> R (wshr a n) (wshr a' n);
  sim_splat x : is_u width x -> R (splat x) (splat x)
}.

Class AddSim {V W : Type} (v : WordAdd V) (w : WordAdd W) (R : V -> W -> Prop) :=
  sim_add a b a' b' : R a a' -> R b b' -> R (wadd a b) (wadd a' b').

(** Lane [l] of a vector is the word [x]. *)
Definition lane_is (LaneCount l : nat) (v : list Z) (x : Z) : Prop := length v = LaneCount /\ v !! l = Some x.

Section lanes.
Context (w : Z) (LaneCount l : nat) (Hl : (l < LaneCount)%nat).

Lemma lane_is_zip f a b x y :
  lane_is LaneCount l a x -> lane_is LaneCount l b y -> lane_is LaneCount l (zip_with f a b) (f x y).
Proof using Type.
  intros [Ha Hx] [Hb Hy]. split; [by rewrite length_zip_with, Ha, Hb, Nat.min_id|].
  by rewrite lookup_zip_with, Hx; simpl; rewrite Hy.
Qed.

Lemma lane_is_map f a x : lane_is LaneCount l a x -> lane_is LaneCount l (map f a) (f x).
Proof using Type. intros [Ha Hx]. split; [by rewrite length_map|]. by rewrite list_lookup_fmap, Hx. Qed.

#[export] Instance lanes_sim : WordSim w (lanes_ops w LaneCount) (word_ops w) (lane_is LaneCount l).
Proof using Hl LaneCount l.
  split; intros; cbn.
  1-3: by apply lane_is_zip.
  1: by apply (lane_is_map (fun x => 2 ^ w - 1 - x)).
  1: by apply (lane_is_map (fun x => uwrap w (Z.shiftl x n))).
  1: by apply (lane_is_map (fun x => Z.shiftr x n)).
  split; [apply length_replicate|]. by apply lookup_replicate_2.
Qed.

#[export] Instance lanes_add_sim : AddSim (lanes_add w) (word_add w) (lane_is LaneCount l).
Proof using Type. intros a b x y Ha Hb. by apply lane_is_zip. Qed.
End lanes.

(** ** Words as bits

    The bits [z] of a word, for [0 <= z < w]. *)

Definition bits_ops (w : Z) : WordVector (Z -> bool) := {|
  wxor a b z := xorb (a z) (b z);
  wand a b z := a z && b z;
  wor a b z := a z || b z;
  wnot a z := negb (a z);
  wshl a n z := (n <=? z) && a (z - n);
  wshr a n z := (z + n <? w) && a (z + n);
  splat x z := Z.testbit x z
|}.

Definition bits_are (w : Z) (x : Z) (b : Z -> bool) : Prop :=
  is_u w x /\ forall z, 0 <= z < w -> Z.testbit x z = b z.

Lemma testbit_word_not w x i :
  0 <= i -> is_u w x -> Z.testbit (2 ^ w - 1 - x) i = bool_decide (i < w) && negb (Z.testbit x i).
Proof.
  intros Hi Hx. destruct (decide (0 <= w)); [|unfold is_u in Hx; rewrite Z.pow_neg_r in Hx; lia].
  assert (2 ^ w - 1 - x = uwrap w (Z.lnot x)) as ->.
  { unfold uwrap, Z.lnot. apply Z.mod_unique with (-1); unfold is_u in Hx; lia. }
  rewrite testbit_uwrap, Z.lnot_spec by lia. done.
Qed.

Section bits.
Context (w : Z) (Hw : 0 <= w).

Lemma bits_are_intro x b :
  (forall i, w <= i -> Z.testbit x i = false) -> (forall z, 0 <= z < w -> Z.testbit x z = b z) -> bits_are w x b.
Proof using Hw. intros. split; [by apply testbit_is_u|done]. Qed.

Lemma bits_are_op (f : Z -> Z -> Z) (g : bool -> bool -> bool) x y a b :
  (forall x y i, Z.testbit (f x y) i = g (Z.testbit x i) (Z.testbit y i)) -> g false false = false ->
  bits_are w x a -> bits_are w y b -> bits_are w (f x y) (fun z => g (a z) (b z)).
Proof using Hw.
  intros Hf Hg [Hx Ha] [Hy Hb]. apply bits_are_intro; intros i Hi; rewrite Hf.
  - by rewrite !(is_u_testbit w) by (done || lia).
  - by rewrite Ha, Hb.
Qed.

#[export] Instance bits_sim : WordSim w (word_ops w) (bits_ops w) (bits_are w).
Proof using Hw.
  split; cbn.
  - intros a b a' b'. apply (bits_are_op Z.lxor xorb); [apply Z.lxor_spec|done].
  - intros a b a' b'. apply (bits_are_op Z.land andb); [apply Z.land_spec|done].
  - intros a b a' b'. apply (bits_are_op Z.lor orb); [apply Z.lor_spec|done].
  - intros a a' [Ha Hb]. apply bits_are_intro; intros i Hi; rewrite testbit_word_not by (done || lia).
    + by rewrite bool_decide_false by lia.
    + by rewrite bool_decide_true, Hb by lia.
  - intros a a' n Hn [Ha Hb]. apply bits_are_intro; intros i Hi; rewrite testbit_uwrap by lia.
    + by rewrite bool_decide_false by lia.
    + rewrite bool_decide_true, Z.shiftl_spec by lia. cbn. destruct (Z.leb_spec n i); cbn.
      * apply Hb. lia.
      * apply Z.testbit_neg_r. lia.
  - intros a a' n Hn [Ha Hb]. apply bits_are_intro; intros i Hi; rewrite Z.shiftr_spec by lia.
    + apply (is_u_testbit w); [done|lia].
    + destruct (Z.ltb_spec (i + n) w); cbn; [apply Hb; lia|]. apply (is_u_testbit w); [done|lia].
  - intros x Hx. by split.
Qed.
End bits.

(** ** Messages *)
Section messages.
Context (LaneCount : nat).

(** Messages: one for each lane, all of the same length. *)
Definition data_ok (data : list (list Z)) (len : Z) : Prop :=
  length data = LaneCount /\ Forall (fun d => Z.of_nat (length d) = len /\ Forall (is_u 8) d) data.

Definition message (data : list (list Z)) (l : nat) : list Z := nth l data [].

Lemma data_ok_message data len l :
  data_ok data len -> (l < LaneCount)%nat ->
  data !! l = Some (message data l) /\ Z.of_nat (length (message data l)) = len /\ Forall (is_u 8) (message data l).
Proof using Type.
  intros [Hl Hd] Hlt. destruct (lookup_lt_is_Some_2 data l ltac:(lia)) as [d Hk].
  unfold message. rewrite nth_lookup, Hk. split; [done|]. by apply (Forall_lookup_1 _ _ _ _ Hd Hk).
Qed.

(** The bytes that a step takes. *)
Definition piece (i n : Z) (d : list Z) : list Z := take (Z.to_nat n) (drop (Z.to_nat i) d).

Lemma piece_bytes i n d : Forall (is_u 8) d -> Forall (is_u 8) (piece i n d).
Proof using Type. intros. by apply Forall_take, Forall_drop. Qed.

Lemma length_piece i n d :
  0 <= i -> 0 <= n -> i + n <= Z.of_nat (length d) -> Z.of_nat (length (piece i n d)) = n.
Proof using Type. intros. unfold piece. rewrite length_take, length_drop. lia. Qed.

Lemma piece_app i n n' d : 0 <= i -> 0 <= n -> 0 <= n' -> piece i (n + n') d = piece i n d ++ piece (i + n) n' d.
Proof using Type.
  intros. unfold piece. rewrite !Z2Nat.inj_add, <-drop_drop by lia.
  by rewrite take_take_drop.
Qed.

Lemma piece_one i d : 0 <= i < Z.of_nat (length d) -> piece i 1 d = [nth (Z.to_nat i) d 0].
Proof using Type.
  intros H. unfold piece. rewrite nth_lookup.
  destruct (lookup_lt_is_Some_2 d (Z.to_nat i) ltac:(lia)) as [x Hx]. rewrite Hx.
  by rewrite (drop_S _ _ _ Hx).
Qed.

Lemma message_map (f : list Z -> Z) data len l :
  data_ok data len -> (l < LaneCount)%nat -> nth l (map f data) 0 = f (message data l).
Proof using Type.
  intros Hd Hl. destruct (data_ok_message _ _ _ Hd Hl) as [Hm _]. rewrite nth_lookup.
  change (map f data) with (f <$> data). by rewrite list_lookup_fmap, Hm.
Qed.

(** Message [l], the concatenation of its parts. *)
Definition concatenation (data : list (list (list Z))) (l : nat) : list Z := mjoin (map (fun d => message d l) data).

(** ** Loops that take the messages piece by piece

    [rel words words' pos bs] says what taking the bytes [bs l] of each
    message [l] at position [pos] does to the words. *)
Section pieces.
Context {A : Type} (ok : A -> Prop) (rel : A -> A -> Z -> (nat -> list Z) -> Prop).
Hypothesis rel_ok : forall a b pos bs, rel a b pos bs -> ok b.
Hypothesis rel_nil : forall a pos, ok a -> rel a a pos (fun _ => []).
Hypothesis rel_app : forall a b c pos pos' bs cs, 0 <= pos ->
  (forall l, (l < LaneCount)%nat -> pos' = pos + Z.of_nat (length (bs l))) ->
  rel a b pos bs -> rel b c pos' cs -> rel a c pos (fun l => bs l ++ cs l).
Hypothesis rel_ext : forall a b pos bs cs, (forall l, (l < LaneCount)%nat -> bs l = cs l) -> rel a b pos bs -> rel a b pos cs.

(** A loop over [j], in pieces of [size] bytes, from its body. *)
Lemma fold_pieces (step : A -> Z -> A) data len words pos i size n :
  ok words -> data_ok data len -> 0 <= pos -> 0 <= i -> 0 < size -> 0 <= n -> i + size * n <= len ->
  (forall words j, ok words -> 0 <= j < n ->
     rel words (step words (size * j)) (pos + size * j) (fun l => piece (i + size * j) size (message data l))) ->
  rel words (foldl step words (map (Z.mul size) (seqZ 0 n))) pos (fun l => piece i (size * n) (message data l)).
Proof using All.
  intros Hok Hd Hpos Hi Hsize Hn. revert n Hn. apply (natlike_ind (fun n => _ -> _ -> _)).
  - intros Hlen Hstep. rewrite Z.mul_0_r. by apply rel_nil.
  - intros n Hn IH Hlen Hstep. rewrite <-Z.add_1_r, seqZ_app, map_app, foldl_app by lia.
    assert (IHa := IH ltac:(lia) ltac:(intros; apply Hstep; done || lia)).
    eapply rel_ext; [|eapply (rel_app _ _ _ pos (pos + size * n)); [done| |exact IHa|]].
    + intros l Hl. cbn beta. rewrite Z.mul_add_distr_l, Z.mul_1_r. symmetry. by apply piece_app; lia.
    + intros l Hl. destruct (data_ok_message _ _ _ Hd Hl) as (_ & Hm & _). cbn beta. rewrite length_piece by lia. lia.
    + cbn. rewrite Z.add_0_l. apply Hstep; [by eapply rel_ok|lia].
Qed.

(** The loop by bytes, and the loop by words of [size] bytes. *)
Lemma fold_bytes (step : A -> Z -> A) data len words pos i n :
  ok words -> data_ok data len -> 0 <= pos -> 0 <= i -> 0 <= n -> i + n <= len ->
  (forall words j, ok words -> 0 <= j < n -> rel words (step words j) (pos + j) (fun l => piece (i + j) 1 (message data l))) ->
  rel words (foldl step words (seqZ 0 n)) pos (fun l => piece i n (message data l)).
Proof using All.
  intros Hok Hd Hpos Hi Hn Hlen Hstep. pose proof (fold_pieces step data len words pos i 1 n) as H.
  rewrite Z.mul_1_l in H. replace (map (Z.mul 1) (seqZ 0 n)) with (seqZ 0 n) in H.
  - apply H; try done; try lia. intros words' j Hok' Hj. rewrite Z.mul_1_l. by apply Hstep.
  - symmetry. rewrite <-(map_id (seqZ 0 n)) at 2. apply map_ext. lia.
Qed.

Lemma fold_words (step : A -> Z -> A) data len words pos i size n :
  ok words -> data_ok data len -> 0 <= pos -> 0 <= i -> 0 < size -> 0 <= n -> i + n <= len -> n mod size = 0 ->
  pos mod size = 0 ->
  (forall words j, ok words -> 0 <= j -> j + size <= n -> (pos + j) mod size = 0 ->
     rel words (step words j) (pos + j) (fun l => piece (i + j) size (message data l))) ->
  rel words (foldl step words (map (Z.mul size) (seqZ 0 ((n + (size - 1)) / size)))) pos (fun l => piece i n (message data l)).
Proof using All.
  intros Hok Hd Hpos Hi Hsize Hn Hlen Hmod Hp Hstep.
  pose proof (Z.div_mod n size ltac:(lia)) as Hdm. rewrite Hmod, Z.add_0_r in Hdm.
  assert (Hdiv : (n + (size - 1)) / size = n / size) by (symmetry; apply Z.div_unique with (size - 1); lia). rewrite Hdiv.
  assert (0 <= n / size) by (apply Z.div_pos; lia).
  pose proof (fold_pieces step data len words pos i size (n / size)) as Hfold. rewrite <-Hdm in Hfold.
  apply Hfold; try done; try lia. intros words' j Hok' Hj. apply Hstep; [done|nia|nia|].
  by rewrite Z.mul_comm, Z.mod_add by lia.
Qed.
End pieces.
End messages.
