(* ===== verification/Keccakf.v ===== *)
(** * The permutation Keccak-f[1600] (src/keccakf.hpp)

    The function is a straight line of assignments, 24 rounds that go back and
    forth between the matrices [A] and [E].  Each round is a definition, with
    the assignments of the code; a variable of the code that is assigned is
    bound again.  The parities [C] of the columns are computed at the end of a
    round for the next one; [B] and [D] do not outlive a round. *)

From S2P Require Import Prelude SimdVector.

(** [word_vector_type A[5][5]] *)
Record matrix (W : Type) := Matrix {
  a00 : W; a01 : W; a02 : W; a03 : W; a04 : W;
  a10 : W; a11 : W; a12 : W; a13 : W; a14 : W;
  a20 : W; a21 : W; a22 : W; a23 : W; a24 : W;
  a30 : W; a31 : W; a32 : W; a33 : W; a34 : W;
  a40 : W; a41 : W; a42 : W; a43 : W; a44 : W
}.
Arguments Matrix {W}.

(** [word_vector_type C[5]] *)
Record parities (W : Type) := Parities { c0 : W; c1 : W; c2 : W; c3 : W; c4 : W }.
Arguments Parities {W}.

Definition KECCAKF1600_ROUND_CONSTANTS (round : nat) : Z := nth round [
  0x0000000000000001; 0x0000000000008082; 0x800000000000808a; 0x8000000080008000;
  0x000000000000808b; 0x0000000080000001; 0x8000000080008081; 0x8000000000008009;
  0x000000000000008a; 0x0000000000000088; 0x0000000080008009; 0x000000008000000a;
  0x000000008000808b; 0x800000000000008b; 0x8000000000008089; 0x8000000000008003;
  0x8000000000008002; 0x8000000000000080; 0x000000000000800a; 0x800000008000000a;
  0x8000000080008081; 0x8000000000008080; 0x0000000080000001; 0x8000000080008008] 0.

Section permutation.
Context {W : Type} {V : WordVector W}.

#[local] Infix "^^" := (@wxor W V) (at level 50, left associativity).
#[local] Infix "&&&" := (@wand W V) (at level 40, left associativity).
#[local] Infix "<<" := (@wshl W V) (at level 35, no associativity).
#[local] Infix ">>" := (@wshr W V) (at level 35, no associativity).
#[local] Notation "~~ x" := (@wnot W V x) (at level 30, right associativity).

Definition keccakf_1600_parities (A : matrix W) : parities W :=
  let '(Matrix A00 A01 A02 A03 A04
    A10 A11 A12 A13 A14
    A20 A21 A22 A23 A24
    A30 A31 A32 A33 A34
    A40 A41 A42 A43 A44) := A in

  let C0 := A00 ^^ A10 ^^ A20 ^^ A30 ^^ A40 in
  let C1 := A01 ^^ A11 ^^ A21 ^^ A31 ^^ A41 in
  let C2 := A02 ^^ A12 ^^ A22 ^^ A32 ^^ A42 in
  let C3 := A03 ^^ A13 ^^ A23 ^^ A33 ^^ A43 in
  let C4 := A04 ^^ A14 ^^ A24 ^^ A34 ^^ A44 in
  Parities C0 C1 C2 C3 C4.

Definition keccakf_1600_round_0 (A : matrix W) (C : parities W) : matrix W * parities W :=
  let '(Matrix A00 A01 A02 A03 A04
    A10 A11 A12 A13 A14
    A20 A21 A22 A23 A24
    A30 A31 A32 A33 A34
    A40 A41 A42 A43 A44) := A in
  let '(Parities C0 C1 C2 C3 C4) := C in
  let D0 := C4 ^^ ((C1 << 1) ^^ (C1 >> (64 - 1))) in
  let D1 := C0 ^^ ((C2 << 1) ^^ (C2 >> (64 - 1))) in
  let D2 := C1 ^^ ((C3 << 1) ^^ (C3 >> (64 - 1))) in
  let D3 := C2 ^^ ((C4 << 1) ^^ (C4 >> (64 - 1))) in
  let D4 := C3 ^^ ((C0 << 1) ^^ (C0 >> (64 - 1))) in
  let A00 := A00 ^^ D0 in
  let B00 := A00 in
  let A11 := A11 ^^ D1 in
  let B01 := (A11 << 44) ^^ (A11 >> (64 - 44)) in
  let A22 := A22 ^^ D2 in
  let B02 := (A22 << 43) ^^ (A22 >> (64 - 43)) in
  let A33 := A33 ^^ D3 in
  let B03 := (A33 << 21) ^^ (A33 >> (64 - 21)) in
  let A44 := A44 ^^ D4 in
  let B04 := (A44 << 14) ^^ (A44 >> (64 - 14)) in
  let E00 := B00 ^^ ((~~ B01) &&& B02) in
  let E00 := E00 ^^ splat (KECCAKF1600_ROUND_CONSTANTS 0) in
  let C0 := E00 in
  let E01 := B01 ^^ ((~~ B02) &&& B03) in
  let C1 := E01 in
  let E02 := B02 ^^ ((~~ B03) &&& B04) in
  let C2 := E02 in
  let E03 := B03 ^^ ((~~ B04) &&& B00) in
  let C3 := E03 in
  let E04 := B04 ^^ ((~~ B00) &&& B01) in
  let C4 := E04 in
  let A03 := A03 ^^ D3 in
  let B10 := (A03 << 28) ^^ (A03 >> (64 - 28)) in
  let A14 := A14 ^^ D4 in
  let B11 := (A14 << 20) ^^ (A14 >> (64 - 20)) in
  let A20 := A20 ^^ D0 in
  let B12 := (A20 << 3) ^^ (A20 >> (64 - 3)) in
  let A31 := A31 ^^ D1 in
  let B13 := (A31 << 45) ^^ (A31 >> (64 - 45)) in
  let A42 := A42 ^^ D2 in
  let B14 := (A42 << 61) ^^ (A42 >> (64 - 61)) in
  let E10 := B10 ^^ ((~~ B11) &&& B12) in
  let C0 := C0 ^^ E10 in
  let E11 := B11 ^^ ((~~ B12) &&& B13) in
  let C1 := C1 ^^ E11 in
  let E12 := B12 ^^ ((~~ B13) &&& B14) in
  let C2 := C2 ^^ E12 in
  let E13 := B13 ^^ ((~~ B14) &&& B10) in
  let C3 := C3 ^^ E13 in
  let E14 := B14 ^^ ((~~ B10) &&& B11) in
  let C4 := C4 ^^ E14 in
  let A01 := A01 ^^ D1 in
  let B20 := (A01 << 1) ^^ (A01 >> (64 - 1)) in
  let A12 := A12 ^^ D2 in
  let B21 := (A12 << 6) ^^ (A12 >> (64 - 6)) in
  let A23 := A23 ^^ D3 in
  let B22 := (A23 << 25) ^^ (A23 >> (64 - 25)) in
  let A34 := A34 ^^ D4 in
  let B23 := (A34 << 8) ^^ (A34 >> (64 - 8)) in
  let A40 := A40 ^^ D0 in
  let B24 := (A40 << 18) ^^ (A40 >> (64 - 18)) in
  let E20 := B20 ^^ ((~~ B21) &&& B22) in
  let C0 := C0 ^^ E20 in
  let E21 := B21 ^^ ((~~ B22) &&& B23) in
  let C1 := C1 ^^ E21 in
  let E22 := B22 ^^ ((~~ B23) &&& B24) in
  let C2 := C2 ^^ E22 in
  let E23 := B23 ^^ ((~~ B24) &&& B20) in
  let C3 := C3 ^^ E23 in
  let E24 := B24 ^^ ((~~ B20) &&& B21) in
  let C4 := C4 ^^ E24 in
  let A04 := A04 ^^ D4 in
  let B30 := (A04 << 27) ^^ (A04 >> (64 - 27)) in
  let A10 := A10 ^^ D0 in
  let B31 := (A10 << 36) ^^ (A10 >> (64 - 36)) in
  let A21 := A21 ^^ D1 in
  let B32 := (A21 << 10) ^^ (A21 >> (64 - 10)) in
  let A32 := A32 ^^ D2 in
  let B33 := (A32 << 15) ^^ (A32 >> (64 - 15)) in
  let A43 := A43 ^^ D3 in
  let B34 := (A43 << 56) ^^ (A43 >> (64 - 56)) in
  let E30 := B30 ^^ ((~~ B31) &&& B32) in
  let C0 := C0 ^^ E30 in
  let E31 := B31 ^^ ((~~ B32) &&& B33) in
  let C1 := C1 ^^ E31 in
  let E32 := B32 ^^ ((~~ B33) &&& B34) in
  let C2 := C2 ^^ E32 in
  let E33 := B33 ^^ ((~~ B34) &&& B30) in
  let C3 := C3 ^^ E33 in
  let E34 := B34 ^^ ((~~ B30) &&& B31) in
  let C4 := C4 ^^ E34 in
  let A02 := A02 ^^ D2 in
  let B40 := (A02 << 62) ^^ (A02 >> (64 - 62)) in
  let A13 := A13 ^^ D3 in
  let B41 := (A13 << 55) ^^ (A13 >> (64 - 55)) in
  let A24 := A24 ^^ D4 in
  let B42 := (A24 << 39) ^^ (A24 >> (64 - 39)) in
  let A30 := A30 ^^ D0 in
  let B43 := (A30 << 41) ^^ (A30 >> (64 - 41)) in
  let A41 := A41 ^^ D1 in
  let B44 := (A41 << 2) ^^ (A41 >> (64 - 2)) in
  let E40 := B40 ^^ ((~~ B41) &&& B42) in
  let C0 := C0 ^^ E40 in
  let E41 := B41 ^^ ((~~ B42) &&& B43) in
  let C1 := C1 ^^ E41 in
  let E42 := B42 ^^ ((~~ B43) &&& B44) in
  let C2 := C2 ^^ E42 in
  let E43 := B43 ^^ ((~~ B44) &&& B40) in
  let C3 := C3 ^^ E43 in
  let E44 := B44 ^^ ((~~ B40) &&& B41) in
  let C4 := C4 ^^ E44 in
  (Matrix E00 E01 E02 E03 E04
     E10 E11 E12 E13 E14
     E20 E21 E22 E23 E24
     E30 E31 E32 E33 E34
     E40 E41 E42 E43 E44,
   Parities C0 C1 C2 C3 C4).

Definition keccakf_1600_round_1 (E : matrix W) (C : parities W) : matrix W * parities W :=
  let '(Matrix E00 E01 E02 E03 E04
    E10 E11 E12 E13 E14
    E20 E21 E22 E23 E24
    E30 E31 E32 E33 E34
    E40 E41 E42 E43 E44) := E in
  let '(Parities C0 C1 C2 C3 C4) := C in
  let D0 := C4 ^^ ((C1 << 1) ^^ (C1 >> (64 - 1))) in
  let D1 := C0 ^^ ((C2 << 1) ^^ (C2 >> (64 - 1))) in
  let D2 := C1 ^^ ((C3 << 1) ^^ (C3 >> (64 - 1))) in
  let D3 := C2 ^^ ((C4 << 1) ^^ (C4 >> (64 - 1))) in
  let D4 := C3 ^^ ((C0 << 1) ^^ (C0 >> (64 - 1))) in
  let E00 := E00 ^^ D0 in
  let B00 := E00 in
  let E11 := E11 ^^ D1 in
  let B01 := (E11 << 44) ^^ (E11 >> (64 - 44)) in
  let E22 := E22 ^^ D2 in
  let B02 := (E22 << 43) ^^ (E22 >> (64 - 43)) in
  let E33 := E33 ^^ D3 in
  let B03 := (E33 << 21) ^^ (E33 >> (64 - 21)) in
  let E44 := E44 ^^ D4 in
  let B04 := (E44 << 14) ^^ (E44 >> (64 - 14)) in
  let A00 := B00 ^^ ((~~ B01) &&& B02) in
  let A00 := A00 ^^ splat (KECCAKF1600_ROUND_CONSTANTS 1) in
  let C0 := A00 in
  let A01 := B01 ^^ ((~~ B02) &&& B03) in
  let C1 := A01 in
  let A02 := B02 ^^ ((~~ B03) &&& B04) in
  let C2 := A02 in
  let A03 := B03 ^^ ((~~ B04) &&& B00) in
  let C3 := A03 in
  let A04 := B04 ^^ ((~~ B00) &&& B01) in
  let C4 := A04 in
  let E03 := E03 ^^ D3 in
  let B10 := (E03 << 28) ^^ (E03 >> (64 - 28)) in
  let E14 := E14 ^^ D4 in
  let B11 := (E14 << 20) ^^ (E14 >> (64 - 20)) in
  let E20 := E20 ^^ D0 in
  let B12 := (E20 << 3) ^^ (E20 >> (64 - 3)) in
  let E31 := E31 ^^ D1 in
  let B13 := (E31 << 45) ^^ (E31 >> (64 - 45)) in
  let E42 := E42 ^^ D2 in
  let B14 := (E42 << 61) ^^ (E42 >> (64 - 61)) in
  let A10 := B10 ^^ ((~~ B11) &&& B12) in
  let C0 := C0 ^^ A10 in
  let A11 := B11 ^^ ((~~ B12) &&& B13) in
  let C1 := C1 ^^ A11 in
  let A12 := B12 ^^ ((~~ B13) &&& B14) in
  let C2 := C2 ^^ A12 in
  let A13 := B13 ^^ ((~~ B14) &&& B10) in
  let C3 := C3 ^^ A13 in
  let A14 := B14 ^^ ((~~ B10) &&& B11) in
  let C4 := C4 ^^ A14 in
  let E01 := E01 ^^ D1 in
  let B20 := (E01 << 1) ^^ (E01 >> (64 - 1)) in
  let E12 := E12 ^^ D2 in
  let B21 := (E12 << 6) ^^ (E12 >> (64 - 6)) in
  let E23 := E23 ^^ D3 in
  let B22 := (E23 << 25) ^^ (E23 >> (64 - 25)) in
  let E34 := E34 ^^ D4 in
  let B23 := (E34 << 8) ^^ (E34 >> (64 - 8)) in
  let E40 := E40 ^^ D0 in
  let B24 := (E40 << 18) ^^ (E40 >> (64 - 18)) in
  let A20 := B20 ^^ ((~~ B21) &&& B22) in
  let C0 := C0 ^^ A20 in
  let A21 := B21 ^^ ((~~ B22) &&& B23) in
  let C1 := C1 ^^ A21 in
  let A22 := B22 ^^ ((~~ B23) &&& B24) in
  let C2 := C2 ^^ A22 in
  let A23 := B23 ^^ ((~~ B24) &&& B20) in
  let C3 := C3 ^^ A23 in
  let A24 := B24 ^^ ((~~ B20) &&& B21) in
  let C4 := C4 ^^ A24 in
  let E04 := E04 ^^ D4 in
  let B30 := (E04 << 27) ^^ (E04 >> (64 - 27)) in
  let E10 := E10 ^^ D0 in
  let B31 := (E10 << 36) ^^ (E10 >> (64 - 36)) in
  let E21 := E21 ^^ D1 in
  let B32 := (E21 << 10) ^^ (E21 >> (64 - 10)) in
  let E32 := E32 ^^ D2 in
  let B33 := (E32 << 15) ^^ (E32 >> (64 - 15)) in
  let E43 := E43 ^^ D3 in
  let B34 := (E43 << 56) ^^ (E43 >> (64 - 56)) in
  let A30 := B30 ^^ ((~~ B31) &&& B32) in
  let C0 := C0 ^^ A30 in
  let A31 := B31 ^^ ((~~ B32) &&& B33) in
  let C1 := C1 ^^ A31 in
  let A32 := B32 ^^ ((~~ B33) &&& B34) in
  let C2 := C2 ^^ A32 in
  let A33 := B33 ^^ ((~~ B34) &&& B30) in
  let C3 := C3 ^^ A33 in
  let A34 := B34 ^^ ((~~ B30) &&& B31) in
  let C4 := C4 ^^ A34 in
  let E02 := E02 ^^ D2 in
  let B40 := (E02 << 62) ^^ (E02 >> (64 - 62)) in
  let E13 := E13 ^^ D3 in
  let B41 := (E13 << 55) ^^ (E13 >> (64 - 55)) in
  let E24 := E24 ^^ D4 in
  let B42 := (E24 << 39) ^^ (E24 >> (64 - 39)) in
  let E30 := E30 ^^ D0 in
  let B43 := (E30 << 41) ^^ (E30 >> (64 - 41)) in
  let E41 := E41 ^^ D1 in
  let B44 := (E41 << 2) ^^ (E41 >> (64 - 2)) in
  let A40 := B40 ^^ ((~~ B41) &&& B42) in
  let C0 := C0 ^^ A40 in
  let A41 := B41 ^^ ((~~ B42) &&& B43) in
  let C1 := C1 ^^ A41 in
  let A42 := B42 ^^ ((~~ B43) &&& B44) in
  let C2 := C2 ^^ A42 in
  let A43 := B43 ^^ ((~~ B44) &&& B40) in
  let C3 := C3 ^^ A43 in
  let A44 := B44 ^^ ((~~ B40) &&& B41) in
  let C4 := C4 ^^ A44 in
  (Matrix A00 A01 A02 A03 A04
     A10 A11 A12 A13 A14
     A20 A21 A22 A23 A24
     A30 A31 A32 A33 A34
     A40 A41 A42 A43 A44,
   Parities C0 C1 C2 C3 C4).

Definition keccakf_1600_round_2 (A : matrix W) (C : parities W) : matrix W * parities W :=
  let '(Matrix A00 A01 A02 A03 A04
    A10 A11 A12 A13 A14
    A20 A21 A22 A23 A24
    A30 A31 A32 A33 A34
    A40 A41 A42 A43 A44) := A in
  let '(Parities C0 C1 C2 C3 C4) := C in
  let D0 := C4 ^^ ((C1 << 1) ^^ (C1 >> (64 - 1))) in
  let D1 := C0 ^^ ((C2 << 1) ^^ (C2 >> (64 - 1))) in
  let D2 := C1 ^^ ((C3 << 1) ^^ (C3 >> (64 - 1))) in
  let D3 := C2 ^^ ((C4 << 1) ^^ (C4 >> (64 - 1))) in
  let D4 := C3 ^^ ((C0 << 1) ^^ (C0 >> (64 - 1))) in
  let A00 := A00 ^^ D0 in
  let B00 := A00 in
  let A11 := A11 ^^ D1 in
  let B01 := (A11 << 44) ^^ (A11 >> (64 - 44)) in
  let A22 := A22 ^^ D2 in
  let B02 := (A22 << 43) ^^ (A22 >> (64 - 43)) in
  let A33 := A33 ^^ D3 in
  let B03 := (A33 << 21) ^^ (A33 >> (64 - 21)) in
  let A44 := A44 ^^ D4 in
  let B04 := (A44 << 14) ^^ (A44 >> (64 - 14)) in
  let E00 := B00 ^^ ((~~ B01) &&& B02) in
  let E00 := E00 ^^ splat (KECCAKF1600_ROUND_CONSTANTS 2) in
  let C0 := E00 in
  let E01 := B01 ^^ ((~~ B02) &&& B03) in
  let C1 := E01 in
  let E02 := B02 ^^ ((~~ B03) &&& B04) in
  let C2 := E02 in
  let E03 := B03 ^^ ((~~ B04) &&& B00) in
  let C3 := E03 in
  let E04 := B04 ^^ ((~~ B00) &&& B01) in
  let C4 := E04 in
  let A03 := A03 ^^ D3 in
  let B10 := (A03 << 28) ^^ (A03 >> (64 - 28)) in
  let A14 := A14 ^^ D4 in
  let B11 := (A14 << 20) ^^ (A14 >> (64 - 20)) in
  let A20 := A20 ^^ D0 in
  let B12 := (A20 << 3) ^^ (A20 >> (64 - 3)) in
  let A31 := A31 ^^ D1 in
  let B13 := (A31 << 45) ^^ (A31 >> (64 - 45)) in
  let A42 := A42 ^^ D2 in
  let B14 := (A42 << 61) ^^ (A42 >> (64 - 61)) in
  let E10 := B10 ^^ ((~~ B11) &&& B12) in
  let C0 := C0 ^^ E10 in
  let E11 := B11 ^^ ((~~ B12) &&& B13) in
  let C1 := C1 ^^ E11 in
  let E12 := B12 ^^ ((~~ B13) &&& B14) in
  let C2 := C2 ^^ E12 in
  let E13 := B13 ^^ ((~~ B14) &&& B10) in
  let C3 := C3 ^^ E13 in
  let E14 := B14 ^^ ((~~ B10) &&& B11) in
  let C4 := C4 ^^ E14 in
  let A01 := A01 ^^ D1 in
  let B20 := (A01 << 1) ^^ (A01 >> (64 - 1)) in
  let A12 := A12 ^^ D2 in
  let B21 := (A12 << 6) ^^ (A12 >> (64 - 6)) in
  let A23 := A23 ^^ D3 in
  let B22 := (A23 << 25) ^^ (A23 >> (64 - 25)) in
  let A34 := A34 ^^ D4 in
  let B23 := (A34 << 8) ^^ (A34 >> (64 - 8)) in
  let A40 := A40 ^^ D0 in
  let B24 := (A40 << 18) ^^ (A40 >> (64 - 18)) in
  let E20 := B20 ^^ ((~~ B21) &&& B22) in
  let C0 := C0 ^^ E20 in
  let E21 := B21 ^^ ((~~ B22) &&& B23) in
  let C1 := C1 ^^ E21 in
  let E22 := B22 ^^ ((~~ B23) &&& B24) in
  let C2 := C2 ^^ E22 in
  let E23 := B23 ^^ ((~~ B24) &&& B20) in
  let C3 := C3 ^^ E23 in
  let E24 := B24 ^^ ((~~ B20) &&& B21) in
  let C4 := C4 ^^ E24 in
  let A04 := A04 ^^ D4 in
  let B30 := (A04 << 27) ^^ (A04 >> (64 - 27)) in
  let A10 := A10 ^^ D0 in
  let B31 := (A10 << 36) ^^ (A10 >> (64 - 36)) in
  let A21 := A21 ^^ D1 in
  let B32 := (A21 << 10) ^^ (A21 >> (64 - 10)) in
  let A32 := A32 ^^ D2 in
  let B33 := (A32 << 15) ^^ (A32 >> (64 - 15)) in
  let A43 := A43 ^^ D3 in
  let B34 := (A43 << 56) ^^ (A43 >> (64 - 56)) in
  let E30 := B30 ^^ ((~~ B31) &&& B32) in
  let C0 := C0 ^^ E30 in
  let E31 := B31 ^^ ((~~ B32) &&& B33) in
  let C1 := C1 ^^ E31 in
  let E32 := B32 ^^ ((~~ B33) &&& B34) in
  let C2 := C2 ^^ E32 in
  let E33 := B33 ^^ ((~~ B34) &&& B30) in
  let C3 := C3 ^^ E33 in
  let E34 := B34 ^^ ((~~ B30) &&& B31) in
  let C4 := C4 ^^ E34 in
  let A02 := A02 ^^ D2 in
  let B40 := (A02 << 62) ^^ (A02 >> (64 - 62)) in
  let A13 := A13 ^^ D3 in
  let B41 := (A13 << 55) ^^ (A13 >> (64 - 55)) in
  let A24 := A24 ^^ D4 in
  let B42 := (A24 << 39) ^^ (A24 >> (64 - 39)) in
  let A30 := A30 ^^ D0 in
  let B43 := (A30 << 41) ^^ (A30 >> (64 - 41)) in
  let A41 := A41 ^^ D1 in
  let B44 := (A41 << 2) ^^ (A41 >> (64 - 2)) in
  let E40 := B40 ^^ ((~~ B41) &&& B42) in
  let C0 := C0 ^^ E40 in
  let E41 := B41 ^^ ((~~ B42) &&& B43) in
  let C1 := C1 ^^ E41 in
  let E42 := B42 ^^ ((~~ B43) &&& B44) in
  let C2 := C2 ^^ E42 in
  let E43 := B43 ^^ ((~~ B44) &&& B40) in
  let C3 := C3 ^^ E43 in
  let E44 := B44 ^^ ((~~ B40) &&& B41) in
  let C4 := C4 ^^ E44 in
  (Matrix E00 E01 E02 E03 E04
     E10 E11 E12 E13 E14
     E20 E21 E22 E23 E24
     E30 E31 E32 E33 E34
     E40 E41 E42 E43 E44,
   Parities C0 C1 C2 C3 C4).

Definition keccakf_1600_round_3 (E : matrix W) (C : parities W) : matrix W * parities W :=
  let '(Matrix E00 E01 E02 E03 E04
    E10 E11 E12 E13 E14
    E20 E21 E22 E23 E24
    E30 E31 E32 E33 E34
    E40 E41 E42 E43 E44) := E in
  let '(Parities C0 C1 C2 C3 C4) := C in
  let D0 := C4 ^^ ((C1 << 1) ^^ (C1 >> (64 - 1))) in
  let D1 := C0 ^^ ((C2 << 1) ^^ (C2 >> (64 - 1))) in
  let D2 := C1 ^^ ((C3 << 1) ^^ (C3 >> (64 - 1))) in
  let D3 := C2 ^^ ((C4 << 1) ^^ (C4 >> (64 - 1))) in
  let D4 := C3 ^^ ((C0 << 1) ^^ (C0 >> (64 - 1))) in
  let E00 := E00 ^^ D0 in
  let B00 := E00 in
  let E11 := E11 ^^ D1 in
  let B01 := (E11 << 44) ^^ (E11 >> (64 - 44)) in
  let E22 := E22 ^^ D2 in
  let B02 := (E22 << 43) ^^ (E22 >> (64 - 43)) in
  let E33 := E33 ^^ D3 in
  let B03 := (E33 << 21) ^^ (E33 >> (64 - 21)) in
  let E44 := E44 ^^ D4 in
  let B04 := (E44 << 14) ^^ (E44 >> (64 - 14)) in
  let A00 := B00 ^^ ((~~ B01) &&& B02) in
  let A00 := A00 ^^ splat (KECCAKF1600_ROUND_CONSTANTS 3) in
  let C0 := A00 in
  let A01 := B01 ^^ ((~~ B02) &&& B03) in
  let C1 := A01 in
  let A02 := B02 ^^ ((~~ B03) &&& B04) in
  let C2 := A02 in
  let A03 := B03 ^^ ((~~ B04) &&& B00) in
  let C3 := A03 in
  let A04 := B04 ^^ ((~~ B00) &&& B01) in
  let C4 := A04 in
  let E03 := E03 ^^ D3 in
  let B10 := (E03 << 28) ^^ (E03 >> (64 - 28)) in
  let E14 := E14 ^^ D4 in
  let B11 := (E14 << 20) ^^ (E14 >> (64 - 20)) in
  let E20 := E20 ^^ D0 in
  let B12 := (E20 << 3) ^^ (E20 >> (64 - 3)) in
  let E31 := E31 ^^ D1 in
  let B13 := (E31 << 45) ^^ (E31 >> (64 - 45)) in
  let E42 := E42 ^^ D2 in
  let B14 := (E42 << 61) ^^ (E42 >> (64 - 61)) in
  let A10 := B10 ^^ ((~~ B11) &&& B12) in
  let C0 := C0 ^^ A10 in
  let A11 := B11 ^^ ((~~ B12) &&& B13) in
  let C1 := C1 ^^ A11 in
  let A12 := B12 ^^ ((~~ B13) &&& B14) in
  let C2 := C2 ^^ A12 in
  let A13 := B13 ^^ ((~~ B14) &&& B10) in
  let C3 := C3 ^^ A13 in
  let A14 := B14 ^^ ((~~ B10) &&& B11) in
  let C4 := C4 ^^ A14 in
  let E01 := E01 ^^ D1 in
  let B20 := (E01 << 1) ^^ (E01 >> (64 - 1)) in
  let E12 := E12 ^^ D2 in
  let B21 := (E12 << 6) ^^ (E12 >> (64 - 6)) in
  let E23 := E23 ^^ D3 in
  let B22 := (E23 << 25) ^^ (E23 >> (64 - 25)) in
  let E34 := E34 ^^ D4 in
  let B23 := (E34 << 8) ^^ (E34 >> (64 - 8)) in
  let E40 := E40 ^^ D0 in
  let B24 := (E40 << 18) ^^ (E40 >> (64 - 18)) in
  let A20 := B20 ^^ ((~~ B21) &&& B22) in
  let C0 := C0 ^^ A20 in
  let A21 := B21 ^^ ((~~ B22) &&& B23) in
  let C1 := C1 ^^ A21 in
  let A22 := B22 ^^ ((~~ B23) &&& B24) in
  let C2 := C2 ^^ A22 in
  let A23 := B23 ^^ ((~~ B24) &&& B20) in
  let C3 := C3 ^^ A23 in
  let A24 := B24 ^^ ((~~ B20) &&& B21) in
  let C4 := C4 ^^ A24 in
  let E04 := E04 ^^ D4 in
  let B30 := (E04 << 27) ^^ (E04 >> (64 - 27)) in
  let E10 := E10 ^^ D0 in
  let B31 := (E10 << 36) ^^ (E10 >> (64 - 36)) in
  let E21 := E21 ^^ D1 in
  let B32 := (E21 << 10) ^^ (E21 >> (64 - 10)) in
  let E32 := E32 ^^ D2 in
  let B33 := (E32 << 15) ^^ (E32 >> (64 - 15)) in
  let E43 := E43 ^^ D3 in
  let B34 := (E43 << 56) ^^ (E43 >> (64 - 56)) in
  let A30 := B30 ^^ ((~~ B31) &&& B32) in
  let C0 := C0 ^^ A30 in
  let A31 := B31 ^^ ((~~ B32) &&& B33) in
  let C1 := C1 ^^ A31 in
  let A32 := B32 ^^ ((~~ B33) &&& B34) in
  let C2 := C2 ^^ A32 in
  let A33 := B33 ^^ ((~~ B34) &&& B30) in
  let C3 := C3 ^^ A33 in
  let A34 := B34 ^^ ((~~ B30) &&& B31) in
  let C4 := C4 ^^ A34 in
  let E02 := E02 ^^ D2 in
  let B40 := (E02 << 62) ^^ (E02 >> (64 - 62)) in
  let E13 := E13 ^^ D3 in
  let B41 := (E13 << 55) ^^ (E13 >> (64 - 55)) in
  let E24 := E24 ^^ D4 in
  let B42 := (E24 << 39) ^^ (E24 >> (64 - 39)) in
  let E30 := E30 ^^ D0 in
  let B43 := (E30 << 41) ^^ (E30 >> (64 - 41)) in
  let E41 := E41 ^^ D1 in
  let B44 := (E41 << 2) ^^ (E41 >> (64 - 2)) in
  let A40 := B40 ^^ ((~~ B41) &&& B42) in
  let C0 := C0 ^^ A40 in
  let A41 := B41 ^^ ((~~ B42) &&& B43) in
  let C1 := C1 ^^ A41 in
  let A42 := B42 ^^ ((~~ B43) &&& B44) in
  let C2 := C2 ^^ A42 in
  let A43 := B43 ^^ ((~~ B44) &&& B40) in
  let C3 := C3 ^^ A43 in
  let A44 := B44 ^^ ((~~ B40) &&& B41) in
  let C4 := C4 ^^ A44 in
  (Matrix A00 A01 A02 A03 A04
     A10 A11 A12 A13 A14
     A20 A21 A22 A23 A24
     A30 A31 A32 A33 A34
     A40 A41 A42 A43 A44,
   Parities C0 C1 C2 C3 C4).

Definition keccakf_1600_round_4 (A : matrix W) (C : parities W) : matrix W * parities W :=
  let '(Matrix A00 A01 A02 A03 A04
    A10 A11 A12 A13 A14
    A20 A21 A22 A23 A24
    A30 A31 A32 A33 A34
    A40 A41 A42 A43 A44) := A in
  let '(Parities C0 C1 C2 C3 C4) := C in
  let D0 := C4 ^^ ((C1 << 1) ^^ (C1 >> (64 - 1))) in
  let D1 := C0 ^^ ((C2 << 1) ^^ (C2 >> (64 - 1))) in
  let D2 := C1 ^^ ((C3 << 1) ^^ (C3 >> (64 - 1))) in
  let D3 := C2 ^^ ((C4 << 1) ^^ (C4 >> (64 - 1))) in
  let D4 := C3 ^^ ((C0 << 1) ^^ (C0 >> (64 - 1))) in
  let A00 := A00 ^^ D0 in
  let B00 := A00 in
  let A11 := A11 ^^ D1 in
  let B01 := (A11 << 44) ^^ (A11 >> (64 - 44)) in
  let A22 := A22 ^^ D2 in
  let B02 := (A22 << 43) ^^ (A22 >> (64 - 43)) in
  let A33 := A33 ^^ D3 in
  let B03 := (A33 << 21) ^^ (A33 >> (64 - 21)) in
  let A44 := A44 ^^ D4 in
  let B04 := (A44 << 14) ^^ (A44 >> (64 - 14)) in
  let E00 := B00 ^^ ((~~ B01) &&& B02) in
  let E00 := E00 ^^ splat (KECCAKF1600_ROUND_CONSTANTS 4) in
  let C0 := E00 in
  let E01 := B01 ^^ ((~~ B02) &&& B03) in
  let C1 := E01 in
  let E02 := B02 ^^ ((~~ B03) &&& B04) in
  let C2 := E02 in
  let E03 := B03 ^^ ((~~ B04) &&& B00) in
  let C3 := E03 in
  let E04 := B04 ^^ ((~~ B00) &&& B01) in
  let C4 := E04 in
  let A03 := A03 ^^ D3 in
  let B10 := (A03 << 28) ^^ (A03 >> (64 - 28)) in
  let A14 := A14 ^^ D4 in
  let B11 := (A14 << 20) ^^ (A14 >> (64 - 20)) in
  let A20 := A20 ^^ D0 in
  let B12 := (A20 << 3) ^^ (A20 >> (64 - 3)) in
  let A31 := A31 ^^ D1 in
  let B13 := (A31 << 45) ^^ (A31 >> (64 - 45)) in
  let A42 := A42 ^^ D2 in
  let B14 := (A42 << 61) ^^ (A42 >> (64 - 61)) in
  let E10 := B10 ^^ ((~~ B11) &&& B12) in
  let C0 := C0 ^^ E10 in
  let E11 := B11 ^^ ((~~ B12) &&& B13) in
  let C1 := C1 ^^ E11 in
  let E12 := B12 ^^ ((~~ B13) &&& B14) in
  let C2 := C2 ^^ E12 in
  let E13 := B13 ^^ ((~~ B14) &&& B10) in
  let C3 := C3 ^^ E13 in
  let E14 := B14 ^^ ((~~ B10) &&& B11) in
  let C4 := C4 ^^ E14 in
  let A01 := A01 ^^ D1 in
  let B20 := (A01 << 1) ^^ (A01 >> (64 - 1)) in
  let A12 := A12 ^^ D2 in
  let B21 := (A12 << 6) ^^ (A12 >> (64 - 6)) in
  let A23 := A23 ^^ D3 in
  let B22 := (A23 << 25) ^^ (A23 >> (64 - 25)) in
  let A34 := A34 ^^ D4 in
  let B23 := (A34 << 8) ^^ (A34 >> (64 - 8)) in
  let A40 := A40 ^^ D0 in
  let B24 := (A40 << 18) ^^ (A40 >> (64 - 18)) in
  let E20 := B20 ^^ ((~~ B21) &&& B22) in
  let C0 := C0 ^^ E20 in
  let E21 := B21 ^^ ((~~ B22) &&& B23) in
  let C1 := C1 ^^ E21 in
  let E22 := B22 ^^ ((~~ B23) &&& B24) in
  let C2 := C2 ^^ E22 in
  let E23 := B23 ^^ ((~~ B24) &&& B20) in
  let C3 := C3 ^^ E23 in
  let E24 := B24 ^^ ((~~ B20) &&& B21) in
  let C4 := C4 ^^ E24 in
  let A04 := A04 ^^ D4 in
  let B30 := (A04 << 27) ^^ (A04 >> (64 - 27)) in
  let A10 := A10 ^^ D0 in
  let B31 := (A10 << 36) ^^ (A10 >> (64 - 36)) in
  let A21 := A21 ^^ D1 in
  let B32 := (A21 << 10) ^^ (A21 >> (64 - 10)) in
  let A32 := A32 ^^ D2 in
  let B33 := (A32 << 15) ^^ (A32 >> (64 - 15)) in
  let A43 := A43 ^^ D3 in
  let B34 := (A43 << 56) ^^ (A43 >> (64 - 56)) in
  let E30 := B30 ^^ ((~~ B31) &&& B32) in
  let C0 := C0 ^^ E30 in
  let E31 := B31 ^^ ((~~ B32) &&& B33) in
  let C1 := C1 ^^ E31 in
  let E32 := B32 ^^ ((~~ B33) &&& B34) in
  let C2 := C2 ^^ E32 in
  let E33 := B33 ^^ ((~~ B34) &&& B30) in
  let C3 := C3 ^^ E33 in
  let E34 := B34 ^^ ((~~ B30) &&& B31) in
  let C4 := C4 ^^ E34 in
  let A02 := A02 ^^ D2 in
  let B40 := (A02 << 62) ^^ (A02 >> (64 - 62)) in
  let A13 := A13 ^^ D3 in
  let B41 := (A13 << 55) ^^ (A13 >> (64 - 55)) in
  let A24 := A24 ^^ D4 in
  let B42 := (A24 << 39) ^^ (A24 >> (64 - 39)) in
  let A30 := A30 ^^ D0 in
  let B43 := (A30 << 41) ^^ (A30 >> (64 - 41)) in
  let A41 := A41 ^^ D1 in
  let B44 := (A41 << 2) ^^ (A41 >> (64 - 2)) in
  let E40 := B40 ^^ ((~~ B41) &&& B42) in
  let C0 := C0 ^^ E40 in
  let E41 := B41 ^^ ((~~ B42) &&& B43) in
  let C1 := C1 ^^ E41 in
  let E42 := B42 ^^ ((~~ B43) &&& B44) in
  let C2 := C2 ^^ E42 in
  let E43 := B43 ^^ ((~~ B44) &&& B40) in
  let C3 := C3 ^^ E43 in
  let E44 := B44 ^^ ((~~ B40) &&& B41) in
  let C4 := C4 ^^ E44 in
  (Matrix E00 E01 E02 E03 E04
     E10 E11 E12 E13 E14
     E20 E21 E22 E23 E24
     E30 E31 E32 E33 E34
     E40 E41 E42 E43 E44,
   Parities C0 C1 C2 C3 C4).

Definition keccakf_1600_round_5 (E : matrix W) (C : parities W) : matrix W * parities W :=
  let '(Matrix E00 E01 E02 E03 E04
    E10 E11 E12 E13 E14
    E20 E21 E22 E23 E24
    E30 E31 E32 E33 E34
    E40 E41 E42 E43 E44) := E in
  let '(Parities C0 C1 C2 C3 C4) := C in
  let D0 := C4 ^^ ((C1 << 1) ^^ (C1 >> (64 - 1))) in
  let D1 := C0 ^^ ((C2 << 1) ^^ (C2 >> (64 - 1))) in
  let D2 := C1 ^^ ((C3 << 1) ^^ (C3 >> (64 - 1))) in
  let D3 := C2 ^^ ((C4 << 1) ^^ (C4 >> (64 - 1))) in
  let D4 := C3 ^^ ((C0 << 1) ^^ (C0 >> (64 - 1))) in
  let E00 := E00 ^^ D0 in
  let B00 := E00 in
  let E11 := E11 ^^ D1 in
  let B01 := (E11 << 44) ^^ (E11 >> (64 - 44)) in
  let E22 := E22 ^^ D2 in
  let B02 := (E22 << 43) ^^ (E22 >> (64 - 43)) in
  let E33 := E33 ^^ D3 in
  let B03 := (E33 << 21) ^^ (E33 >> (64 - 21)) in
  let E44 := E44 ^^ D4 in
  let B04 := (E44 << 14) ^^ (E44 >> (64 - 14)) in
  let A00 := B00 ^^ ((~~ B01) &&& B02) in
  let A00 := A00 ^^ splat (KECCAKF1600_ROUND_CONSTANTS 5) in
  let C0 := A00 in
  let A01 := B01 ^^ ((~~ B02) &&& B03) in
  let C1 := A01 in
  let A02 := B02 ^^ ((~~ B03) &&& B04) in
  let C2 := A02 in
  let A03 := B03 ^^ ((~~ B04) &&& B00) in
  let C3 := A03 in
  let A04 := B04 ^^ ((~~ B00) &&& B01) in
  let C4 := A04 in
  let E03 := E03 ^^ D3 in
  let B10 := (E03 << 28) ^^ (E03 >> (64 - 28)) in
  let E14 := E14 ^^ D4 in
  let B11 := (E14 << 20) ^^ (E14 >> (64 - 20)) in
  let E20 := E20 ^^ D0 in
  let B12 := (E20 << 3) ^^ (E20 >> (64 - 3)) in
  let E31 := E31 ^^ D1 in
  let B13 := (E31 << 45) ^^ (E31 >> (64 - 45)) in
  let E42 := E42 ^^ D2 in
  let B14 := (E42 << 61) ^^ (E42 >> (64 - 61)) in
  let A10 := B10 ^^ ((~~ B11) &&& B12) in
  let C0 := C0 ^^ A10 in
  let A11 := B11 ^^ ((~~ B12) &&& B13) in
  let C1 := C1 ^^ A11 in
  let A12 := B12 ^^ ((~~ B13) &&& B14) in
  let C2 := C2 ^^ A12 in
  let A13 := B13 ^^ ((~~ B14) &&& B10) in
  let C3 := C3 ^^ A13 in
  let A14 := B14 ^^ ((~~ B10) &&& B11) in
  let C4 := C4 ^^ A14 in
  let E01 := E01 ^^ D1 in
  let B20 := (E01 << 1) ^^ (E01 >> (64 - 1)) in
  let E12 := E12 ^^ D2 in
  let B21 := (E12 << 6) ^^ (E12 >> (64 - 6)) in
  let E23 := E23 ^^ D3 in
  let B22 := (E23 << 25) ^^ (E23 >> (64 - 25)) in
  let E34 := E34 ^^ D4 in
  let B23 := (E34 << 8) ^^ (E34 >> (64 - 8)) in
  let E40 := E40 ^^ D0 in
  let B24 := (E40 << 18) ^^ (E40 >> (64 - 18)) in
  let A20 := B20 ^^ ((~~ B21) &&& B22) in
  let C0 := C0 ^^ A20 in
  let A21 := B21 ^^ ((~~ B22) &&& B23) in
  let C1 := C1 ^^ A21 in
  let A22 := B22 ^^ ((~~ B23) &&& B24) in
  let C2 := C2 ^^ A22 in
  let A23 := B23 ^^ ((~~ B24) &&& B20) in
  let C3 := C3 ^^ A23 in
  let A24 := B24 ^^ ((~~ B20) &&& B21) in
  let C4 := C4 ^^ A24 in
  let E04 := E04 ^^ D4 in
  let B30 := (E04 << 27) ^^ (E04 >> (64 - 27)) in
  let E10 := E10 ^^ D0 in
  let B31 := (E10 << 36) ^^ (E10 >> (64 - 36)) in
  let E21 := E21 ^^ D1 in
  let B32 := (E21 << 10) ^^ (E21 >> (64 - 10)) in
  let E32 := E32 ^^ D2 in
  let B33 := (E32 << 15) ^^ (E32 >> (64 - 15)) in
  let E43 := E43 ^^ D3 in
  let B34 := (E43 << 56) ^^ (E43 >> (64 - 56)) in
  let A30 := B30 ^^ ((~~ B31) &&& B32) in
  let C0 := C0 ^^ A30 in
  let A31 := B31 ^^ ((~~ B32) &&& B33) in
  let C1 := C1 ^^ A31 in
  let A32 := B32 ^^ ((~~ B33) &&& B34) in
  let C2 := C2 ^^ A32 in
  let A33 := B33 ^^ ((~~ B34) &&& B30) in
  let C3 := C3 ^^ A33 in
  let A34 := B34 ^^ ((~~ B30) &&& B31) in
  let C4 := C4 ^^ A34 in
  let E02 := E02 ^^ D2 in
  let B40 := (E02 << 62) ^^ (E02 >> (64 - 62)) in
  let E13 := E13 ^^ D3 in
  let B41 := (E13 << 55) ^^ (E13 >> (64 - 55)) in
  let E24 := E24 ^^ D4 in
  let B42 := (E24 << 39) ^^ (E24 >> (64 - 39)) in
  let E30 := E30 ^^ D0 in
  let B43 := (E30 << 41) ^^ (E30 >> (64 - 41)) in
  let E41 := E41 ^^ D1 in
  let B44 := (E41 << 2) ^^ (E41 >> (64 - 2)) in
  let A40 := B40 ^^ ((~~ B41) &&& B42) in
  let C0 := C0 ^^ A40 in
  let A41 := B41 ^^ ((~~ B42) &&& B43) in
  let C1 := C1 ^^ A41 in
  let A42 := B42 ^^ ((~~ B43) &&& B44) in
  let C2 := C2 ^^ A42 in
  let A43 := B43 ^^ ((~~ B44) &&& B40) in
  let C3 := C3 ^^ A43 in
  let A44 := B44 ^^ ((~~ B40) &&& B41) in
  let C4 := C4 ^^ A44 in
  (Matrix A00 A01 A02 A03 A04
     A10 A11 A12 A13 A14
     A20 A21 A22 A23 A24
     A30 A31 A32 A33 A34
     A40 A41 A42 A43 A44,
   Parities C0 C1 C2 C3 C4).

Definition keccakf_1600_round_6 (A : matrix W) (C : parities W) : matrix W * parities W :=
  let '(Matrix A00 A01 A02 A03 A04
    A10 A11 A12 A13 A14
    A20 A21 A22 A23 A24
    A30 A31 A32 A33 A34
    A40 A41 A42 A43 A44) := A in
  let '(Parities C0 C1 C2 C3 C4) := C in
  let D0 := C4 ^^ ((C1 << 1) ^^ (C1 >> (64 - 1))) in
  let D1 := C0 ^^ ((C2 << 1) ^^ (C2 >> (64 - 1))) in
  let D2 := C1 ^^ ((C3 << 1) ^^ (C3 >> (64 - 1))) in
  let D3 := C2 ^^ ((C4 << 1) ^^ (C4 >> (64 - 1))) in
  let D4 := C3 ^^ ((C0 << 1) ^^ (C0 >> (64 - 1))) in
  let A00 := A00 ^^ D0 in
  let B00 := A00 in
  let A11 := A11 ^^ D1 in
  let B01 := (A11 << 44) ^^ (A11 >> (64 - 44)) in
  let A22 := A22 ^^ D2 in
  let B02 := (A22 << 43) ^^ (A22 >> (64 - 43)) in
  let A33 := A33 ^^ D3 in
  let B03 := (A33 << 21) ^^ (A33 >> (64 - 21)) in
  let A44 := A44 ^^ D4 in
  let B04 := (A44 << 14) ^^ (A44 >> (64 - 14)) in
  let E00 := B00 ^^ ((~~ B01) &&& B02) in
  let E00 := E00 ^^ splat (KECCAKF1600_ROUND_CONSTANTS 6) in
  let C0 := E00 in
  let E01 := B01 ^^ ((~~ B02) &&& B03) in
  let C1 := E01 in
  let E02 := B02 ^^ ((~~ B03) &&& B04) in
  let C2 := E02 in
  let E03 := B03 ^^ ((~~ B04) &&& B00) in
  let C3 := E03 in
  let E04 := B04 ^^ ((~~ B00) &&& B01) in
  let C4 := E04 in
  let A03 := A03 ^^ D3 in
  let B10 := (A03 << 28) ^^ (A03 >> (64 - 28)) in
  let A14 := A14 ^^ D4 in
  let B11 := (A14 << 20) ^^ (A14 >> (64 - 20)) in
  let A20 := A20 ^^ D0 in
  let B12 := (A20 << 3) ^^ (A20 >> (64 - 3)) in
  let A31 := A31 ^^ D1 in
  let B13 := (A31 << 45) ^^ (A31 >> (64 - 45)) in
  let A42 := A42 ^^ D2 in
  let B14 := (A42 << 61) ^^ (A42 >> (64 - 61)) in
  let E10 := B10 ^^ ((~~ B11) &&& B12) in
  let C0 := C0 ^^ E10 in
  let E11 := B11 ^^ ((~~ B12) &&& B13) in
  let C1 := C1 ^^ E11 in
  let E12 := B12 ^^ ((~~ B13) &&& B14) in
  let C2 := C2 ^^ E12 in
  let E13 := B13 ^^ ((~~ B14) &&& B10) in
  let C3 := C3 ^^ E13 in
  let E14 := B14 ^^ ((~~ B10) &&& B11) in
  let C4 := C4 ^^ E14 in
  let A01 := A01 ^^ D1 in
  let B20 := (A01 << 1) ^^ (A01 >> (64 - 1)) in
  let A12 := A12 ^^ D2 in
  let B21 := (A12 << 6) ^^ (A12 >> (64 - 6)) in
  let A23 := A23 ^^ D3 in
  let B22 := (A23 << 25) ^^ (A23 >> (64 - 25)) in
  let A34 := A34 ^^ D4 in
  let B23 := (A34 << 8) ^^ (A34 >> (64 - 8)) in
  let A40 := A40 ^^ D0 in
  let B24 := (A40 << 18) ^^ (A40 >> (64 - 18)) in
  let E20 := B20 ^^ ((~~ B21) &&& B22) in
  let C0 := C0 ^^ E20 in
  let E21 := B21 ^^ ((~~ B22) &&& B23) in
  let C1 := C1 ^^ E21 in
  let E22 := B22 ^^ ((~~ B23) &&& B24) in
  let C2 := C2 ^^ E22 in
  let E23 := B23 ^^ ((~~ B24) &&& B20) in
  let C3 := C3 ^^ E23 in
  let E24 := B24 ^^ ((~~ B20) &&& B21) in
  let C4 := C4 ^^ E24 in
  let A04 := A04 ^^ D4 in
  let B30 := (A04 << 27) ^^ (A04 >> (64 - 27)) in
  let A10 := A10 ^^ D0 in
  let B31 := (A10 << 36) ^^ (A10 >> (64 - 36)) in
  let A21 := A21 ^^ D1 in
  let B32 := (A21 << 10) ^^ (A21 >> (64 - 10)) in
  let A32 := A32 ^^ D2 in
  let B33 := (A32 << 15) ^^ (A32 >> (64 - 15)) in
  let A43 := A43 ^^ D3 in
  let B34 := (A43 << 56) ^^ (A43 >> (64 - 56)) in
  let E30 := B30 ^^ ((~~ B31) &&& B32) in
  let C0 := C0 ^^ E30 in
  let E31 := B31 ^^ ((~~ B32) &&& B33) in
  let C1 := C1 ^^ E31 in
  let E32 := B32 ^^ ((~~ B33) &&& B34) in
  let C2 := C2 ^^ E32 in
  let E33 := B33 ^^ ((~~ B34) &&& B30) in
  let C3 := C3 ^^ E33 in
  let E34 := B34 ^^ ((~~ B30) &&& B31) in
  let C4 := C4 ^^ E34 in
  let A02 := A02 ^^ D2 in
  let B40 := (A02 << 62) ^^ (A02 >> (64 - 62)) in
  let A13 := A13 ^^ D3 in
  let B41 := (A13 << 55) ^^ (A13 >> (64 - 55)) in
  let A24 := A24 ^^ D4 in
  let B42 := (A24 << 39) ^^ (A24 >> (64 - 39)) in
  let A30 := A30 ^^ D0 in
  let B43 := (A30 << 41) ^^ (A30 >> (64 - 41)) in
  let A41 := A41 ^^ D1 in
  let B44 := (A41 << 2) ^^ (A41 >> (64 - 2)) in
  let E40 := B40 ^^ ((~~ B41) &&& B42) in
  let C0 := C0 ^^ E40 in
  let E41 := B41 ^^ ((~~ B42) &&& B43) in
  let C1 := C1 ^^ E41 in
  let E42 := B42 ^^ ((~~ B43) &&& B44) in
  let C2 := C2 ^^ E42 in
  let E43 := B43 ^^ ((~~ B44) &&& B40) in
  let C3 := C3 ^^ E43 in
  let E44 := B44 ^^ ((~~ B40) &&& B41) in
  let C4 := C4 ^^ E44 in
  (Matrix E00 E01 E02 E03 E04
     E10 E11 E12 E13 E14
     E20 E21 E22 E23 E24
     E30 E31 E32 E33 E34
     E40 E41 E42 E43 E44,
   Parities C0 C1 C2 C3 C4).

Definition keccakf_1600_round_7 (E : matrix W) (C : parities W) : matrix W * parities W :=
  let '(Matrix E00 E01 E02 E03 E04
    E10 E11 E12 E13 E14
    E20 E21 E22 E23 E24
    E30 E31 E32 E33 E34
    E40 E41 E42 E43 E44) := E in
  let '(Parities C0 C1 C2 C3 C4) := C in
  let D0 := C4 ^^ ((C1 << 1) ^^ (C1 >> (64 - 1))) in
  let D1 := C0 ^^ ((C2 << 1) ^^ (C2 >> (64 - 1))) in
  let D2 := C1 ^^ ((C3 << 1) ^^ (C3 >> (64 - 1))) in
  let D3 := C2 ^^ ((C4 << 1) ^^ (C4 >> (64 - 1))) in
  let D4 := C3 ^^ ((C0 << 1) ^^ (C0 >> (64 - 1))) in
  let E00 := E00 ^^ D0 in
  let B00 := E00 in
  let E11 := E11 ^^ D1 in
  let B01 := (E11 << 44) ^^ (E11 >> (64 - 44)) in
  let E22 := E22 ^^ D2 in
  let B02 := (E22 << 43) ^^ (E22 >> (64 - 43)) in
  let E33 := E33 ^^ D3 in
  let B03 := (E33 << 21) ^^ (E33 >> (64 - 21)) in
  let E44 := E44 ^^ D4 in
  let B04 := (E44 << 14) ^^ (E44 >> (64 - 14)) in
  let A00 := B00 ^^ ((~~ B01) &&& B02) in
  let A00 := A00 ^^ splat (KECCAKF1600_ROUND_CONSTANTS 7) in
  let C0 := A00 in
  let A01 := B01 ^^ ((~~ B02) &&& B03) in
  let C1 := A01 in
  let A02 := B02 ^^ ((~~ B03) &&& B04) in
  let C2 := A02 in
  let A03 := B03 ^^ ((~~ B04) &&& B00) in
  let C3 := A03 in
  let A04 := B04 ^^ ((~~ B00) &&& B01) in
  let C4 := A04 in
  let E03 := E03 ^^ D3 in
  let B10 := (E03 << 28) ^^ (E03 >> (64 - 28)) in
  let E14 := E14 ^^ D4 in
  let B11 := (E14 << 20) ^^ (E14 >> (64 - 20)) in
  let E20 := E20 ^^ D0 in
  let B12 := (E20 << 3) ^^ (E20 >> (64 - 3)) in
  let E31 := E31 ^^ D1 in
  let B13 := (E31 << 45) ^^ (E31 >> (64 - 45)) in
  let E42 := E42 ^^ D2 in
  let B14 := (E42 << 61) ^^ (E42 >> (64 - 61)) in
  let A10 := B10 ^^ ((~~ B11) &&& B12) in
  let C0 := C0 ^^ A10 in
  let A11 := B11 ^^ ((~~ B12) &&& B13) in
  let C1 := C1 ^^ A11 in
  let A12 := B12 ^^ ((~~ B13) &&& B14) in
  let C2 := C2 ^^ A12 in
  let A13 := B13 ^^ ((~~ B14) &&& B10) in
  let C3 := C3 ^^ A13 in
  let A14 := B14 ^^ ((~~ B10) &&& B11) in
  let C4 := C4 ^^ A14 in
  let E01 := E01 ^^ D1 in
  let B20 := (E01 << 1) ^^ (E01 >> (64 - 1)) in
  let E12 := E12 ^^ D2 in
  let B21 := (E12 << 6) ^^ (E12 >> (64 - 6)) in
  let E23 := E23 ^^ D3 in
  let B22 := (E23 << 25) ^^ (E23 >> (64 - 25)) in
  let E34 := E34 ^^ D4 in
  let B23 := (E34 << 8) ^^ (E34 >> (64 - 8)) in
  let E40 := E40 ^^ D0 in
  let B24 := (E40 << 18) ^^ (E40 >> (64 - 18)) in
  let A20 := B20 ^^ ((~~ B21) &&& B22) in
  let C0 := C0 ^^ A20 in
  let A21 := B21 ^^ ((~~ B22) &&& B23) in
  let C1 := C1 ^^ A21 in
  let A22 := B22 ^^ ((~~ B23) &&& B24) in
  let C2 := C2 ^^ A22 in
  let A23 := B23 ^^ ((~~ B24) &&& B20) in
  let C3 := C3 ^^ A23 in
  let A24 := B24 ^^ ((~~ B20) &&& B21) in
  let C4 := C4 ^^ A24 in
  let E04 := E04 ^^ D4 in
  let B30 := (E04 << 27) ^^ (E04 >> (64 - 27)) in
  let E10 := E10 ^^ D0 in
  let B31 := (E10 << 36) ^^ (E10 >> (64 - 36)) in
  let E21 := E21 ^^ D1 in
  let B32 := (E21 << 10) ^^ (E21 >> (64 - 10)) in
  let E32 := E32 ^^ D2 in
  let B33 := (E32 << 15) ^^ (E32 >> (64 - 15)) in
  let E43 := E43 ^^ D3 in
  let B34 := (E43 << 56) ^^ (E43 >> (64 - 56)) in
  let A30 := B30 ^^ ((~~ B31) &&& B32) in
  let C0 := C0 ^^ A30 in
  let A31 := B31 ^^ ((~~ B32) &&& B33) in
  let C1 := C1 ^^ A31 in
  let A32 := B32 ^^ ((~~ B33) &&& B34) in
  let C2 := C2 ^^ A32 in
  let A33 := B33 ^^ ((~~ B34) &&& B30) in
  let C3 := C3 ^^ A33 in
  let A34 := B34 ^^ ((~~ B30) &&& B31) in
  let C4 := C4 ^^ A34 in
  let E02 := E02 ^^ D2 in
  let B40 := (E02 << 62) ^^ (E02 >> (64 - 62)) in
  let E13 := E13 ^^ D3 in
  let B41 := (E13 << 55) ^^ (E13 >> (64 - 55)) in
  let E24 := E24 ^^ D4 in
  let B42 := (E24 << 39) ^^ (E24 >> (64 - 39)) in
  let E30 := E30 ^^ D0 in
  let B43 := (E30 << 41) ^^ (E30 >> (64 - 41)) in
  let E41 := E41 ^^ D1 in
  let B44 := (E41 << 2) ^^ (E41 >> (64 - 2)) in
  let A40 := B40 ^^ ((~~ B41) &&& B42) in
  let C0 := C0 ^^ A40 in
  let A41 := B41 ^^ ((~~ B42) &&& B43) in
  let C1 := C1 ^^ A41 in
  let A42 := B42 ^^ ((~~ B43) &&& B44) in
  let C2 := C2 ^^ A42 in
  let A43 := B43 ^^ ((~~ B44) &&& B40) in
  let C3 := C3 ^^ A43 in
  let A44 := B44 ^^ ((~~ B40) &&& B41) in
  let C4 := C4 ^^ A44 in
  (Matrix A00 A01 A02 A03 A04
     A10 A11 A12 A13 A14
     A20 A21 A22 A23 A24
     A30 A31 A32 A33 A34
     A40 A41 A42 A43 A44,
   Parities C0 C1 C2 C3 C4).

Definition keccakf_1600_round_8 (A : matrix W) (C : parities W) : matrix W * parities W :=
  let '(Matrix A00 A01 A02 A03 A04
    A10 A11 A12 A13 A14
    A20 A21 A22 A23 A24
    A30 A31 A32 A33 A34
    A40 A41 A42 A43 A44) := A in
  let '(Parities C0 C1 C2 C3 C4) := C in
  let D0 := C4 ^^ ((C1 << 1) ^^ (C1 >> (64 - 1))) in
  let D1 := C0 ^^ ((C2 << 1) ^^ (C2 >> (64 - 1))) in
  let D2 := C1 ^^ ((C3 << 1) ^^ (C3 >> (64 - 1))) in
  let D3 := C2 ^^ ((C4 << 1) ^^ (C4 >> (64 - 1))) in
  let D4 := C3 ^^ ((C0 << 1) ^^ (C0 >> (64 - 1))) in
  let A00 := A00 ^^ D0 in
  let B00 := A00 in
  let A11 := A11 ^^ D1 in
  let B01 := (A11 << 44) ^^ (A11 >> (64 - 44)) in
  let A22 := A22 ^^ D2 in
  let B02 := (A22 << 43) ^^ (A22 >> (64 - 43)) in
  let A33 := A33 ^^ D3 in
  let B03 := (A33 << 21) ^^ (A33 >> (64 - 21)) in
  let A44 := A44 ^^ D4 in
  let B04 := (A44 << 14) ^^ (A44 >> (64 - 14)) in
  let E00 := B00 ^^ ((~~ B01) &&& B02) in
  let E00 := E00 ^^ splat (KECCAKF1600_ROUND_CONSTANTS 8) in
  let C0 := E00 in
  let E01 := B01 ^^ ((~~ B02) &&& B03) in
  let C1 := E01 in
  let E02 := B02 ^^ ((~~ B03) &&& B04) in
  let C2 := E02 in
  let E03 := B03 ^^ ((~~ B04) &&& B00) in
  let C3 := E03 in
  let E04 := B04 ^^ ((~~ B00) &&& B01) in
  let C4 := E04 in
  let A03 := A03 ^^ D3 in
  let B10 := (A03 << 28) ^^ (A03 >> (64 - 28)) in
  let A14 := A14 ^^ D4 in
  let B11 := (A14 << 20) ^^ (A14 >> (64 - 20)) in
  let A20 := A20 ^^ D0 in
  let B12 := (A20 << 3) ^^ (A20 >> (64 - 3)) in
  let A31 := A31 ^^ D1 in
  let B13 := (A31 << 45) ^^ (A31 >> (64 - 45)) in
  let A42 := A42 ^^ D2 in
  let B14 := (A42 << 61) ^^ (A42 >> (64 - 61)) in
  let E10 := B10 ^^ ((~~ B11) &&& B12) in
  let C0 := C0 ^^ E10 in
  let E11 := B11 ^^ ((~~ B12) &&& B13) in
  let C1 := C1 ^^ E11 in
  let E12 := B12 ^^ ((~~ B13) &&& B14) in
  let C2 := C2 ^^ E12 in
  let E13 := B13 ^^ ((~~ B14) &&& B10) in
  let C3 := C3 ^^ E13 in
  let E14 := B14 ^^ ((~~ B10) &&& B11) in
  let C4 := C4 ^^ E14 in
  let A01 := A01 ^^ D1 in
  let B20 := (A01 << 1) ^^ (A01 >> (64 - 1)) in
  let A12 := A12 ^^ D2 in
  let B21 := (A12 << 6) ^^ (A12 >> (64 - 6)) in
  let A23 := A23 ^^ D3 in
  let B22 := (A23 << 25) ^^ (A23 >> (64 - 25)) in
  let A34 := A34 ^^ D4 in
  let B23 := (A34 << 8) ^^ (A34 >> (64 - 8)) in
  let A40 := A40 ^^ D0 in
  let B24 := (A40 << 18) ^^ (A40 >> (64 - 18)) in
  let E20 := B20 ^^ ((~~ B21) &&& B22) in
  let C0 := C0 ^^ E20 in
  let E21 := B21 ^^ ((~~ B22) &&& B23) in
  let C1 := C1 ^^ E21 in
  let E22 := B22 ^^ ((~~ B23) &&& B24) in
  let C2 := C2 ^^ E22 in
  let E23 := B23 ^^ ((~~ B24) &&& B20) in
  let C3 := C3 ^^ E23 in
  let E24 := B24 ^^ ((~~ B20) &&& B21) in
  let C4 := C4 ^^ E24 in
  let A04 := A04 ^^ D4 in
  let B30 := (A04 << 27) ^^ (A04 >> (64 - 27)) in
  let A10 := A10 ^^ D0 in
  let B31 := (A10 << 36) ^^ (A10 >> (64 - 36)) in
  let A21 := A21 ^^ D1 in
  let B32 := (A21 << 10) ^^ (A21 >> (64 - 10)) in
  let A32 := A32 ^^ D2 in
  let B33 := (A32 << 15) ^^ (A32 >> (64 - 15)) in
  let A43 := A43 ^^ D3 in
  let B34 := (A43 << 56) ^^ (A43 >> (64 - 56)) in
  let E30 := B30 ^^ ((~~ B31) &&& B32) in
  let C0 := C0 ^^ E30 in
  let E31 := B31 ^^ ((~~ B32) &&& B33) in
  let C1 := C1 ^^ E31 in
  let E32 := B32 ^^ ((~~ B33) &&& B34) in
  let C2 := C2 ^^ E32 in
  let E33 := B33 ^^ ((~~ B34) &&& B30) in
  let C3 := C3 ^^ E33 in
  let E34 := B34 ^^ ((~~ B30) &&& B31) in
  let C4 := C4 ^^ E34 in
  let A02 := A02 ^^ D2 in
  let B40 := (A02 << 62) ^^ (A02 >> (64 - 62)) in
  let A13 := A13 ^^ D3 in
  let B41 := (A13 << 55) ^^ (A13 >> (64 - 55)) in
  let A24 := A24 ^^ D4 in
  let B42 := (A24 << 39) ^^ (A24 >> (64 - 39)) in
  let A30 := A30 ^^ D0 in
  let B43 := (A30 << 41) ^^ (A30 >> (64 - 41)) in
  let A41 := A41 ^^ D1 in
  let B44 := (A41 << 2) ^^ (A41 >> (64 - 2)) in
  let E40 := B40 ^^ ((~~ B41) &&& B42) in
  let C0 := C0 ^^ E40 in
  let E41 := B41 ^^ ((~~ B42) &&& B43) in
  let C1 := C1 ^^ E41 in
  let E42 := B42 ^^ ((~~ B43) &&& B44) in
  let C2 := C2 ^^ E42 in
  let E43 := B43 ^^ ((~~ B44) &&& B40) in
  let C3 := C3 ^^ E43 in
  let E44 := B44 ^^ ((~~ B40) &&& B41) in
  let C4 := C4 ^^ E44 in
  (Matrix E00 E01 E02 E03 E04
     E10 E11 E12 E13 E14
     E20 E21 E22 E23 E24
     E30 E31 E32 E33 E34
     E40 E41 E42 E43 E44,
   Parities C0 C1 C2 C3 C4).

Definition keccakf_1600_round_9 (E : matrix W) (C : parities W) : matrix W * parities W :=
  let '(Matrix E00 E01 E02 E03 E04
    E10 E11 E12 E13 E14
    E20 E21 E22 E23 E24
    E30 E31 E32 E33 E34
    E40 E41 E42 E43 E44) := E in
  let '(Parities C0 C1 C2 C3 C4) := C in
  let D0 := C4 ^^ ((C1 << 1) ^^ (C1 >> (64 - 1))) in
  let D1 := C0 ^^ ((C2 << 1) ^^ (C2 >> (64 - 1))) in
  let D2 := C1 ^^ ((C3 << 1) ^^ (C3 >> (64 - 1))) in
  let D3 := C2 ^^ ((C4 << 1) ^^ (C4 >> (64 - 1))) in
  let D4 := C3 ^^ ((C0 << 1) ^^ (C0 >> (64 - 1))) in
  let E00 := E00 ^^ D0 in
  let B00 := E00 in
  let E11 := E11 ^^ D1 in
  let B01 := (E11 << 44) ^^ (E11 >> (64 - 44)) in
  let E22 := E22 ^^ D2 in
  let B02 := (E22 << 43) ^^ (E22 >> (64 - 43)) in
  let E33 := E33 ^^ D3 in
  let B03 := (E33 << 21) ^^ (E33 >> (64 - 21)) in
  let E44 := E44 ^^ D4 in
  let B04 := (E44 << 14) ^^ (E44 >> (64 - 14)) in
  let A00 := B00 ^^ ((~~ B01) &&& B02) in
  let A00 := A00 ^^ splat (KECCAKF1600_ROUND_CONSTANTS 9) in
  let C0 := A00 in
  let A01 := B01 ^^ ((~~ B02) &&& B03) in
  let C1 := A01 in
  let A02 := B02 ^^ ((~~ B03) &&& B04) in
  let C2 := A02 in
  let A03 := B03 ^^ ((~~ B04) &&& B00) in
  let C3 := A03 in
  let A04 := B04 ^^ ((~~ B00) &&& B01) in
  let C4 := A04 in
  let E03 := E03 ^^ D3 in
  let B10 := (E03 << 28) ^^ (E03 >> (64 - 28)) in
  let E14 := E14 ^^ D4 in
  let B11 := (E14 << 20) ^^ (E14 >> (64 - 20)) in
  let E20 := E20 ^^ D0 in
  let B12 := (E20 << 3) ^^ (E20 >> (64 - 3)) in
  let E31 := E31 ^^ D1 in
  let B13 := (E31 << 45) ^^ (E31 >> (64 - 45)) in
  let E42 := E42 ^^ D2 in
  let B14 := (E42 << 61) ^^ (E42 >> (64 - 61)) in
  let A10 := B10 ^^ ((~~ B11) &&& B12) in
  let C0 := C0 ^^ A10 in
  let A11 := B11 ^^ ((~~ B12) &&& B13) in
  let C1 := C1 ^^ A11 in
  let A12 := B12 ^^ ((~~ B13) &&& B14) in
  let C2 := C2 ^^ A12 in
  let A13 := B13 ^^ ((~~ B14) &&& B10) in
  let C3 := C3 ^^ A13 in
  let A14 := B14 ^^ ((~~ B10) &&& B11) in
  let C4 := C4 ^^ A14 in
  let E01 := E01 ^^ D1 in
  let B20 := (E01 << 1) ^^ (E01 >> (64 - 1)) in
  let E12 := E12 ^^ D2 in
  let B21 := (E12 << 6) ^^ (E12 >> (64 - 6)) in
  let E23 := E23 ^^ D3 in
  let B22 := (E23 << 25) ^^ (E23 >> (64 - 25)) in
  let E34 := E34 ^^ D4 in
  let B23 := (E34 << 8) ^^ (E34 >> (64 - 8)) in
  let E40 := E40 ^^ D0 in
  let B24 := (E40 << 18) ^^ (E40 >> (64 - 18)) in
  let A20 := B20 ^^ ((~~ B21) &&& B22) in
  let C0 := C0 ^^ A20 in
  let A21 := B21 ^^ ((~~ B22) &&& B23) in
  let C1 := C1 ^^ A21 in
  let A22 := B22 ^^ ((~~ B23) &&& B24) in
  let C2 := C2 ^^ A22 in
  let A23 := B23 ^^ ((~~ B24) &&& B20) in
  let C3 := C3 ^^ A23 in
  let A24 := B24 ^^ ((~~ B20) &&& B21) in
  let C4 := C4 ^^ A24 in
  let E04 := E04 ^^ D4 in
  let B30 := (E04 << 27) ^^ (E04 >> (64 - 27)) in
  let E10 := E10 ^^ D0 in
  let B31 := (E10 << 36) ^^ (E10 >> (64 - 36)) in
  let E21 := E21 ^^ D1 in
  let B32 := (E21 << 10) ^^ (E21 >> (64 - 10)) in
  let E32 := E32 ^^ D2 in
  let B33 := (E32 << 15) ^^ (E32 >> (64 - 15)) in
  let E43 := E43 ^^ D3 in
  let B34 := (E43 << 56) ^^ (E43 >> (64 - 56)) in
  let A30 := B30 ^^ ((~~ B31) &&& B32) in
  let C0 := C0 ^^ A30 in
  let A31 := B31 ^^ ((~~ B32) &&& B33) in
  let C1 := C1 ^^ A31 in
  let A32 := B32 ^^ ((~~ B33) &&& B34) in
  let C2 := C2 ^^ A32 in
  let A33 := B33 ^^ ((~~ B34) &&& B30) in
  let C3 := C3 ^^ A33 in
  let A34 := B34 ^^ ((~~ B30) &&& B31) in
  let C4 := C4 ^^ A34 in
  let E02 := E02 ^^ D2 in
  let B40 := (E02 << 62) ^^ (E02 >> (64 - 62)) in
  let E13 := E13 ^^ D3 in
  let B41 := (E13 << 55) ^^ (E13 >> (64 - 55)) in
  let E24 := E24 ^^ D4 in
  let B42 := (E24 << 39) ^^ (E24 >> (64 - 39)) in
  let E30 := E30 ^^ D0 in
  let B43 := (E30 << 41) ^^ (E30 >> (64 - 41)) in
  let E41 := E41 ^^ D1 in
  let B44 := (E41 << 2) ^^ (E41 >> (64 - 2)) in
  let A40 := B40 ^^ ((~~ B41) &&& B42) in
  let C0 := C0 ^^ A40 in
  let A41 := B41 ^^ ((~~ B42) &&& B43) in
  let C1 := C1 ^^ A41 in
  let A42 := B42 ^^ ((~~ B43) &&& B44) in
  let C2 := C2 ^^ A42 in
  let A43 := B43 ^^ ((~~ B44) &&& B40) in
  let C3 := C3 ^^ A43 in
  let A44 := B44 ^^ ((~~ B40) &&& B41) in
  let C4 := C4 ^^ A44 in
  (Matrix A00 A01 A02 A03 A04
     A10 A11 A12 A13 A14
     A20 A21 A22 A23 A24
     A30 A31 A32 A33 A34
     A40 A41 A42 A43 A44,
   Parities C0 C1 C2 C3 C4).

Definition keccakf_1600_round_10 (A : matrix W) (C : parities W) : matrix W * parities W :=
  let '(Matrix A00 A01 A02 A03 A04
    A10 A11 A12 A13 A14
    A20 A21 A22 A23 A24
    A30 A31 A32 A33 A34
    A40 A41 A42 A43 A44) := A in
  let '(Parities C0 C1 C2 C3 C4) := C in
  let D0 := C4 ^^ ((C1 << 1) ^^ (C1 >> (64 - 1))) in
  let D1 := C0 ^^ ((C2 << 1) ^^ (C2 >> (64 - 1))) in
  let D2 := C1 ^^ ((C3 << 1) ^^ (C3 >> (64 - 1))) in
  let D3 := C2 ^^ ((C4 << 1) ^^ (C4 >> (64 - 1))) in
  let D4 := C3 ^^ ((C0 << 1) ^^ (C0 >> (64 - 1))) in
  let A00 := A00 ^^ D0 in
  let B00 := A00 in
  let A11 := A11 ^^ D1 in
  let B01 := (A11 << 44) ^^ (A11 >> (64 - 44)) in
  let A22 := A22 ^^ D2 in
  let B02 := (A22 << 43) ^^ (A22 >> (64 - 43)) in
  let A33 := A33 ^^ D3 in
  let B03 := (A33 << 21) ^^ (A33 >> (64 - 21)) in
  let A44 := A44 ^^ D4 in
  let B04 := (A44 << 14) ^^ (A44 >> (64 - 14)) in
  let E00 := B00 ^^ ((~~ B01) &&& B02) in
  let E00 := E00 ^^ splat (KECCAKF1600_ROUND_CONSTANTS 10) in
  let C0 := E00 in
  let E01 := B01 ^^ ((~~ B02) &&& B03) in
  let C1 := E01 in
  let E02 := B02 ^^ ((~~ B03) &&& B04) in
  let C2 := E02 in
  let E03 := B03 ^^ ((~~ B04) &&& B00) in
  let C3 := E03 in
  let E04 := B04 ^^ ((~~ B00) &&& B01) in
  let C4 := E04 in
  let A03 := A03 ^^ D3 in
  let B10 := (A03 << 28) ^^ (A03 >> (64 - 28)) in
  let A14 := A14 ^^ D4 in
  let B11 := (A14 << 20) ^^ (A14 >> (64 - 20)) in
  let A20 := A20 ^^ D0 in
  let B12 := (A20 << 3) ^^ (A20 >> (64 - 3)) in
  let A31 := A31 ^^ D1 in
  let B13 := (A31 << 45) ^^ (A31 >> (64 - 45)) in
  let A42 := A42 ^^ D2 in
  let B14 := (A42 << 61) ^^ (A42 >> (64 - 61)) in
  let E10 := B10 ^^ ((~~ B11) &&& B12) in
  let C0 := C0 ^^ E10 in
  let E11 := B11 ^^ ((~~ B12) &&& B13) in
  let C1 := C1 ^^ E11 in
  let E12 := B12 ^^ ((~~ B13) &&& B14) in
  let C2 := C2 ^^ E12 in
  let E13 := B13 ^^ ((~~ B14) &&& B10) in
  let C3 := C3 ^^ E13 in
  let E14 := B14 ^^ ((~~ B10) &&& B11) in
  let C4 := C4 ^^ E14 in
  let A01 := A01 ^^ D1 in
  let B20 := (A01 << 1) ^^ (A01 >> (64 - 1)) in
  let A12 := A12 ^^ D2 in
  let B21 := (A12 << 6) ^^ (A12 >> (64 - 6)) in
  let A23 := A23 ^^ D3 in
  let B22 := (A23 << 25) ^^ (A23 >> (64 - 25)) in
  let A34 := A34 ^^ D4 in
  let B23 := (A34 << 8) ^^ (A34 >> (64 - 8)) in
  let A40 := A40 ^^ D0 in
  let B24 := (A40 << 18) ^^ (A40 >> (64 - 18)) in
  let E20 := B20 ^^ ((~~ B21) &&& B22) in
  let C0 := C0 ^^ E20 in
  let E21 := B21 ^^ ((~~ B22) &&& B23) in
  let C1 := C1 ^^ E21 in
  let E22 := B22 ^^ ((~~ B23) &&& B24) in
  let C2 := C2 ^^ E22 in
  let E23 := B23 ^^ ((~~ B24) &&& B20) in
  let C3 := C3 ^^ E23 in
  let E24 := B24 ^^ ((~~ B20) &&& B21) in
  let C4 := C4 ^^ E24 in
  let A04 := A04 ^^ D4 in
  let B30 := (A04 << 27) ^^ (A04 >> (64 - 27)) in
  let A10 := A10 ^^ D0 in
  let B31 := (A10 << 36) ^^ (A10 >> (64 - 36)) in
  let A21 := A21 ^^ D1 in
  let B32 := (A21 << 10) ^^ (A21 >> (64 - 10)) in
  let A32 := A32 ^^ D2 in
  let B33 := (A32 << 15) ^^ (A32 >> (64 - 15)) in
  let A43 := A43 ^^ D3 in
  let B34 := (A43 << 56) ^^ (A43 >> (64 - 56)) in
  let E30 := B30 ^^ ((~~ B31) &&& B32) in
  let C0 := C0 ^^ E30 in
  let E31 := B31 ^^ ((~~ B32) &&& B33) in
  let C1 := C1 ^^ E31 in
  let E32 := B32 ^^ ((~~ B33) &&& B34) in
  let C2 := C2 ^^ E32 in
  let E33 := B33 ^^ ((~~ B34) &&& B30) in
  let C3 := C3 ^^ E33 in
  let E34 := B34 ^^ ((~~ B30) &&& B31) in
  let C4 := C4 ^^ E34 in
  let A02 := A02 ^^ D2 in
  let B40 := (A02 << 62) ^^ (A02 >> (64 - 62)) in
  let A13 := A13 ^^ D3 in
  let B41 := (A13 << 55) ^^ (A13 >> (64 - 55)) in
  let A24 := A24 ^^ D4 in
  let B42 := (A24 << 39) ^^ (A24 >> (64 - 39)) in
  let A30 := A30 ^^ D0 in
  let B43 := (A30 << 41) ^^ (A30 >> (64 - 41)) in
  let A41 := A41 ^^ D1 in
  let B44 := (A41 << 2) ^^ (A41 >> (64 - 2)) in
  let E40 := B40 ^^ ((~~ B41) &&& B42) in
  let C0 := C0 ^^ E40 in
  let E41 := B41 ^^ ((~~ B42) &&& B43) in
  let C1 := C1 ^^ E41 in
  let E42 := B42 ^^ ((~~ B43) &&& B44) in
  let C2 := C2 ^^ E42 in
  let E43 := B43 ^^ ((~~ B44) &&& B40) in
  let C3 := C3 ^^ E43 in
  let E44 := B44 ^^ ((~~ B40) &&& B41) in
  let C4 := C4 ^^ E44 in
  (Matrix E00 E01 E02 E03 E04
     E10 E11 E12 E13 E14
     E20 E21 E22 E23 E24
     E30 E31 E32 E33 E34
     E40 E41 E42 E43 E44,
   Parities C0 C1 C2 C3 C4).

Definition keccakf_1600_round_11 (E : matrix W) (C : parities W) : matrix W * parities W :=
  let '(Matrix E00 E01 E02 E03 E04
    E10 E11 E12 E13 E14
    E20 E21 E22 E23 E24
    E30 E31 E32 E33 E34
    E40 E41 E42 E43 E44) := E in
  let '(Parities C0 C1 C2 C3 C4) := C in
  let D0 := C4 ^^ ((C1 << 1) ^^ (C1 >> (64 - 1))) in
  let D1 := C0 ^^ ((C2 << 1) ^^ (C2 >> (64 - 1))) in
  let D2 := C1 ^^ ((C3 << 1) ^^ (C3 >> (64 - 1))) in
  let D3 := C2 ^^ ((C4 << 1) ^^ (C4 >> (64 - 1))) in
  let D4 := C3 ^^ ((C0 << 1) ^^ (C0 >> (64 - 1))) in
  let E00 := E00 ^^ D0 in
  let B00 := E00 in
  let E11 := E11 ^^ D1 in
  let B01 := (E11 << 44) ^^ (E11 >> (64 - 44)) in
  let E22 := E22 ^^ D2 in
  let B02 := (E22 << 43) ^^ (E22 >> (64 - 43)) in
  let E33 := E33 ^^ D3 in
  let B03 := (E33 << 21) ^^ (E33 >> (64 - 21)) in
  let E44 := E44 ^^ D4 in
  let B04 := (E44 << 14) ^^ (E44 >> (64 - 14)) in
  let A00 := B00 ^^ ((~~ B01) &&& B02) in
  let A00 := A00 ^^ splat (KECCAKF1600_ROUND_CONSTANTS 11) in
  let C0 := A00 in
  let A01 := B01 ^^ ((~~ B02) &&& B03) in
  let C1 := A01 in
  let A02 := B02 ^^ ((~~ B03) &&& B04) in
  let C2 := A02 in
  let A03 := B03 ^^ ((~~ B04) &&& B00) in
  let C3 := A03 in
  let A04 := B04 ^^ ((~~ B00) &&& B01) in
  let C4 := A04 in
  let E03 := E03 ^^ D3 in
  let B10 := (E03 << 28) ^^ (E03 >> (64 - 28)) in
  let E14 := E14 ^^ D4 in
  let B11 := (E14 << 20) ^^ (E14 >> (64 - 20)) in
  let E20 := E20 ^^ D0 in
  let B12 := (E20 << 3) ^^ (E20 >> (64 - 3)) in
  let E31 := E31 ^^ D1 in
  let B13 := (E31 << 45) ^^ (E31 >> (64 - 45)) in
  let E42 := E42 ^^ D2 in
  let B14 := (E42 << 61) ^^ (E42 >> (64 - 61)) in
  let A10 := B10 ^^ ((~~ B11) &&& B12) in
  let C0 := C0 ^^ A10 in
  let A11 := B11 ^^ ((~~ B12) &&& B13) in
  let C1 := C1 ^^ A11 in
  let A12 := B12 ^^ ((~~ B13) &&& B14) in
  let C2 := C2 ^^ A12 in
  let A13 := B13 ^^ ((~~ B14) &&& B10) in
  let C3 := C3 ^^ A13 in
  let A14 := B14 ^^ ((~~ B10) &&& B11) in
  let C4 := C4 ^^ A14 in
  let E01 := E01 ^^ D1 in
  let B20 := (E01 << 1) ^^ (E01 >> (64 - 1)) in
  let E12 := E12 ^^ D2 in
  let B21 := (E12 << 6) ^^ (E12 >> (64 - 6)) in
  let E23 := E23 ^^ D3 in
  let B22 := (E23 << 25) ^^ (E23 >> (64 - 25)) in
  let E34 := E34 ^^ D4 in
  let B23 := (E34 << 8) ^^ (E34 >> (64 - 8)) in
  let E40 := E40 ^^ D0 in
  let B24 := (E40 << 18) ^^ (E40 >> (64 - 18)) in
  let A20 := B20 ^^ ((~~ B21) &&& B22) in
  let C0 := C0 ^^ A20 in
  let A21 := B21 ^^ ((~~ B22) &&& B23) in
  let C1 := C1 ^^ A21 in
  let A22 := B22 ^^ ((~~ B23) &&& B24) in
  let C2 := C2 ^^ A22 in
  let A23 := B23 ^^ ((~~ B24) &&& B20) in
  let C3 := C3 ^^ A23 in
  let A24 := B24 ^^ ((~~ B20) &&& B21) in
  let C4 := C4 ^^ A24 in
  let E04 := E04 ^^ D4 in
  let B30 := (E04 << 27) ^^ (E04 >> (64 - 27)) in
  let E10 := E10 ^^ D0 in
  let B31 := (E10 << 36) ^^ (E10 >> (64 - 36)) in
  let E21 := E21 ^^ D1 in
  let B32 := (E21 << 10) ^^ (E21 >> (64 - 10)) in
  let E32 := E32 ^^ D2 in
  let B33 := (E32 << 15) ^^ (E32 >> (64 - 15)) in
  let E43 := E43 ^^ D3 in
  let B34 := (E43 << 56) ^^ (E43 >> (64 - 56)) in
  let A30 := B30 ^^ ((~~ B31) &&& B32) in
  let C0 := C0 ^^ A30 in
  let A31 := B31 ^^ ((~~ B32) &&& B33) in
  let C1 := C1 ^^ A31 in
  let A32 := B32 ^^ ((~~ B33) &&& B34) in
  let C2 := C2 ^^ A32 in
  let A33 := B33 ^^ ((~~ B34) &&& B30) in
  let C3 := C3 ^^ A33 in
  let A34 := B34 ^^ ((~~ B30) &&& B31) in
  let C4 := C4 ^^ A34 in
  let E02 := E02 ^^ D2 in
  let B40 := (E02 << 62) ^^ (E02 >> (64 - 62)) in
  let E13 := E13 ^^ D3 in
  let B41 := (E13 << 55) ^^ (E13 >> (64 - 55)) in
  let E24 := E24 ^^ D4 in
  let B42 := (E24 << 39) ^^ (E24 >> (64 - 39)) in
  let E30 := E30 ^^ D0 in
  let B43 := (E30 << 41) ^^ (E30 >> (64 - 41)) in
  let E41 := E41 ^^ D1 in
  let B44 := (E41 << 2) ^^ (E41 >> (64 - 2)) in
  let A40 := B40 ^^ ((~~ B41) &&& B42) in
  let C0 := C0 ^^ A40 in
  let A41 := B41 ^^ ((~~ B42) &&& B43) in
  let C1 := C1 ^^ A41 in
  let A42 := B42 ^^ ((~~ B43) &&& B44) in
  let C2 := C2 ^^ A42 in
  let A43 := B43 ^^ ((~~ B44) &&& B40) in
  let C3 := C3 ^^ A43 in
  let A44 := B44 ^^ ((~~ B40) &&& B41) in
  let C4 := C4 ^^ A44 in
  (Matrix A00 A01 A02 A03 A04
     A10 A11 A12 A13 A14
     A20 A21 A22 A23 A24
     A30 A31 A32 A33 A34
     A40 A41 A42 A43 A44,
   Parities C0 C1 C2 C3 C4).

Definition keccakf_1600_round_12 (A : matrix W) (C : parities W) : matrix W * parities W :=
  let '(Matrix A00 A01 A02 A03 A04
    A10 A11 A12 A13 A14
    A20 A21 A22 A23 A24
    A30 A31 A32 A33 A34
    A40 A41 A42 A43 A44) := A in
  let '(Parities C0 C1 C2 C3 C4) := C in
  let D0 := C4 ^^ ((C1 << 1) ^^ (C1 >> (64 - 1))) in
  let D1 := C0 ^^ ((C2 << 1) ^^ (C2 >> (64 - 1))) in
  let D2 := C1 ^^ ((C3 << 1) ^^ (C3 >> (64 - 1))) in
  let D3 := C2 ^^ ((C4 << 1) ^^ (C4 >> (64 - 1))) in
  let D4 := C3 ^^ ((C0 << 1) ^^ (C0 >> (64 - 1))) in
  let A00 := A00 ^^ D0 in
  let B00 := A00 in
  let A11 := A11 ^^ D1 in
  let B01 := (A11 << 44) ^^ (A11 >> (64 - 44)) in
  let A22 := A22 ^^ D2 in
  let B02 := (A22 << 43) ^^ (A22 >> (64 - 43)) in
  let A33 := A33 ^^ D3 in
  let B03 := (A33 << 21) ^^ (A33 >> (64 - 21)) in
  let A44 := A44 ^^ D4 in
  let B04 := (A44 << 14) ^^ (A44 >> (64 - 14)) in
  let E00 := B00 ^^ ((~~ B01) &&& B02) in
  let E00 := E00 ^^ splat (KECCAKF1600_ROUND_CONSTANTS 12) in
  let C0 := E00 in
  let E01 := B01 ^^ ((~~ B02) &&& B03) in
  let C1 := E01 in
  let E02 := B02 ^^ ((~~ B03) &&& B04) in
  let C2 := E02 in
  let E03 := B03 ^^ ((~~ B04) &&& B00) in
  let C3 := E03 in
  let E04 := B04 ^^ ((~~ B00) &&& B01) in
  let C4 := E04 in
  let A03 := A03 ^^ D3 in
  let B10 := (A03 << 28) ^^ (A03 >> (64 - 28)) in
  let A14 := A14 ^^ D4 in
  let B11 := (A14 << 20) ^^ (A14 >> (64 - 20)) in
  let A20 := A20 ^^ D0 in
  let B12 := (A20 << 3) ^^ (A20 >> (64 - 3)) in
  let A31 := A31 ^^ D1 in
  let B13 := (A31 << 45) ^^ (A31 >> (64 - 45)) in
  let A42 := A42 ^^ D2 in
  let B14 := (A42 << 61) ^^ (A42 >> (64 - 61)) in
  let E10 := B10 ^^ ((~~ B11) &&& B12) in
  let C0 := C0 ^^ E10 in
  let E11 := B11 ^^ ((~~ B12) &&& B13) in
  let C1 := C1 ^^ E11 in
  let E12 := B12 ^^ ((~~ B13) &&& B14) in
  let C2 := C2 ^^ E12 in
  let E13 := B13 ^^ ((~~ B14) &&& B10) in
  let C3 := C3 ^^ E13 in
  let E14 := B14 ^^ ((~~ B10) &&& B11) in
  let C4 := C4 ^^ E14 in
  let A01 := A01 ^^ D1 in
  let B20 := (A01 << 1) ^^ (A01 >> (64 - 1)) in
  let A12 := A12 ^^ D2 in
  let B21 := (A12 << 6) ^^ (A12 >> (64 - 6)) in
  let A23 := A23 ^^ D3 in
  let B22 := (A23 << 25) ^^ (A23 >> (64 - 25)) in
  let A34 := A34 ^^ D4 in
  let B23 := (A34 << 8) ^^ (A34 >> (64 - 8)) in
  let A40 := A40 ^^ D0 in
  let B24 := (A40 << 18) ^^ (A40 >> (64 - 18)) in
  let E20 := B20 ^^ ((~~ B21) &&& B22) in
  let C0 := C0 ^^ E20 in
  let E21 := B21 ^^ ((~~ B22) &&& B23) in
  let C1 := C1 ^^ E21 in
  let E22 := B22 ^^ ((~~ B23) &&& B24) in
  let C2 := C2 ^^ E22 in
  let E23 := B23 ^^ ((~~ B24) &&& B20) in
  let C3 := C3 ^^ E23 in
  let E24 := B24 ^^ ((~~ B20) &&& B21) in
  let C4 := C4 ^^ E24 in
  let A04 := A04 ^^ D4 in
  let B30 := (A04 << 27) ^^ (A04 >> (64 - 27)) in
  let A10 := A10 ^^ D0 in
  let B31 := (A10 << 36) ^^ (A10 >> (64 - 36)) in
  let A21 := A21 ^^ D1 in
  let B32 := (A21 << 10) ^^ (A21 >> (64 - 10)) in
  let A32 := A32 ^^ D2 in
  let B33 := (A32 << 15) ^^ (A32 >> (64 - 15)) in
  let A43 := A43 ^^ D3 in
  let B34 := (A43 << 56) ^^ (A43 >> (64 - 56)) in
  let E30 := B30 ^^ ((~~ B31) &&& B32) in
  let C0 := C0 ^^ E30 in
  let E31 := B31 ^^ ((~~ B32) &&& B33) in
  let C1 := C1 ^^ E31 in
  let E32 := B32 ^^ ((~~ B33) &&& B34) in
  let C2 := C2 ^^ E32 in
  let E33 := B33 ^^ ((~~ B34) &&& B30) in
  let C3 := C3 ^^ E33 in
  let E34 := B34 ^^ ((~~ B30) &&& B31) in
  let C4 := C4 ^^ E34 in
  let A02 := A02 ^^ D2 in
  let B40 := (A02 << 62) ^^ (A02 >> (64 - 62)) in
  let A13 := A13 ^^ D3 in
  let B41 := (A13 << 55) ^^ (A13 >> (64 - 55)) in
  let A24 := A24 ^^ D4 in
  let B42 := (A24 << 39) ^^ (A24 >> (64 - 39)) in
  let A30 := A30 ^^ D0 in
  let B43 := (A30 << 41) ^^ (A30 >> (64 - 41)) in
  let A41 := A41 ^^ D1 in
  let B44 := (A41 << 2) ^^ (A41 >> (64 - 2)) in
  let E40 := B40 ^^ ((~~ B41) &&& B42) in
  let C0 := C0 ^^ E40 in
  let E41 := B41 ^^ ((~~ B42) &&& B43) in
  let C1 := C1 ^^ E41 in
  let E42 := B42 ^^ ((~~ B43) &&& B44) in
  let C2 := C2 ^^ E42 in
  let E43 := B43 ^^ ((~~ B44) &&& B40) in
  let C3 := C3 ^^ E43 in
  let E44 := B44 ^^ ((~~ B40) &&& B41) in
  let C4 := C4 ^^ E44 in
  (Matrix E00 E01 E02 E03 E04
     E10 E11 E12 E13 E14
     E20 E21 E22 E23 E24
     E30 E31 E32 E33 E34
     E40 E41 E42 E43 E44,
   Parities C0 C1 C2 C3 C4).

Definition keccakf_1600_round_13 (E : matrix W) (C : parities W) : matrix W * parities W :=
  let '(Matrix E00 E01 E02 E03 E04
    E10 E11 E12 E13 E14
    E20 E21 E22 E23 E24
    E30 E31 E32 E33 E34
    E40 E41 E42 E43 E44) := E in
  let '(Parities C0 C1 C2 C3 C4) := C in
  let D0 := C4 ^^ ((C1 << 1) ^^ (C1 >> (64 - 1))) in
  let D1 := C0 ^^ ((C2 << 1) ^^ (C2 >> (64 - 1))) in
  let D2 := C1 ^^ ((C3 << 1) ^^ (C3 >> (64 - 1))) in
  let D3 := C2 ^^ ((C4 << 1) ^^ (C4 >> (64 - 1))) in
  let D4 := C3 ^^ ((C0 << 1) ^^ (C0 >> (64 - 1))) in
  let E00 := E00 ^^ D0 in
  let B00 := E00 in
  let E11 := E11 ^^ D1 in
  let B01 := (E11 << 44) ^^ (E11 >> (64 - 44)) in
  let E22 := E22 ^^ D2 in
  let B02 := (E22 << 43) ^^ (E22 >> (64 - 43)) in
  let E33 := E33 ^^ D3 in
  let B03 := (E33 << 21) ^^ (E33 >> (64 - 21)) in
  let E44 := E44 ^^ D4 in
  let B04 := (E44 << 14) ^^ (E44 >> (64 - 14)) in
  let A00 := B00 ^^ ((~~ B01) &&& B02) in
  let A00 := A00 ^^ splat (KECCAKF1600_ROUND_CONSTANTS 13) in
  let C0 := A00 in
  let A01 := B01 ^^ ((~~ B02) &&& B03) in
  let C1 := A01 in
  let A02 := B02 ^^ ((~~ B03) &&& B04) in
  let C2 := A02 in
  let A03 := B03 ^^ ((~~ B04) &&& B00) in
  let C3 := A03 in
  let A04 := B04 ^^ ((~~ B00) &&& B01) in
  let C4 := A04 in
  let E03 := E03 ^^ D3 in
  let B10 := (E03 << 28) ^^ (E03 >> (64 - 28)) in
  let E14 := E14 ^^ D4 in
  let B11 := (E14 << 20) ^^ (E14 >> (64 - 20)) in
  let E20 := E20 ^^ D0 in
  let B12 := (E20 << 3) ^^ (E20 >> (64 - 3)) in
  let E31 := E31 ^^ D1 in
  let B13 := (E31 << 45) ^^ (E31 >> (64 - 45)) in
  let E42 := E42 ^^ D2 in
  let B14 := (E42 << 61) ^^ (E42 >> (64 - 61)) in
  let A10 := B10 ^^ ((~~ B11) &&& B12) in
  let C0 := C0 ^^ A10 in
  let A11 := B11 ^^ ((~~ B12) &&& B13) in
  let C1 := C1 ^^ A11 in
  let A12 := B12 ^^ ((~~ B13) &&& B14) in
  let C2 := C2 ^^ A12 in
  let A13 := B13 ^^ ((~~ B14) &&& B10) in
  let C3 := C3 ^^ A13 in
  let A14 := B14 ^^ ((~~ B10) &&& B11) in
  let C4 := C4 ^^ A14 in
  let E01 := E01 ^^ D1 in
  let B20 := (E01 << 1) ^^ (E01 >> (64 - 1)) in
  let E12 := E12 ^^ D2 in
  let B21 := (E12 << 6) ^^ (E12 >> (64 - 6)) in
  let E23 := E23 ^^ D3 in
  let B22 := (E23 << 25) ^^ (E23 >> (64 - 25)) in
  let E34 := E34 ^^ D4 in
  let B23 := (E34 << 8) ^^ (E34 >> (64 - 8)) in
  let E40 := E40 ^^ D0 in
  let B24 := (E40 << 18) ^^ (E40 >> (64 - 18)) in
  let A20 := B20 ^^ ((~~ B21) &&& B22) in
  let C0 := C0 ^^ A20 in
  let A21 := B21 ^^ ((~~ B22) &&& B23) in
  let C1 := C1 ^^ A21 in
  let A22 := B22 ^^ ((~~ B23) &&& B24) in
  let C2 := C2 ^^ A22 in
  let A23 := B23 ^^ ((~~ B24) &&& B20) in
  let C3 := C3 ^^ A23 in
  let A24 := B24 ^^ ((~~ B20) &&& B21) in
  let C4 := C4 ^^ A24 in
  let E04 := E04 ^^ D4 in
  let B30 := (E04 << 27) ^^ (E04 >> (64 - 27)) in
  let E10 := E10 ^^ D0 in
  let B31 := (E10 << 36) ^^ (E10 >> (64 - 36)) in
  let E21 := E21 ^^ D1 in
  let B32 := (E21 << 10) ^^ (E21 >> (64 - 10)) in
  let E32 := E32 ^^ D2 in
  let B33 := (E32 << 15) ^^ (E32 >> (64 - 15)) in
  let E43 := E43 ^^ D3 in
  let B34 := (E43 << 56) ^^ (E43 >> (64 - 56)) in
  let A30 := B30 ^^ ((~~ B31) &&& B32) in
  let C0 := C0 ^^ A30 in
  let A31 := B31 ^^ ((~~ B32) &&& B33) in
  let C1 := C1 ^^ A31 in
  let A32 := B32 ^^ ((~~ B33) &&& B34) in
  let C2 := C2 ^^ A32 in
  let A33 := B33 ^^ ((~~ B34) &&& B30) in
  let C3 := C3 ^^ A33 in
  let A34 := B34 ^^ ((~~ B30) &&& B31) in
  let C4 := C4 ^^ A34 in
  let E02 := E02 ^^ D2 in
  let B40 := (E02 << 62) ^^ (E02 >> (64 - 62)) in
  let E13 := E13 ^^ D3 in
  let B41 := (E13 << 55) ^^ (E13 >> (64 - 55)) in
  let E24 := E24 ^^ D4 in
  let B42 := (E24 << 39) ^^ (E24 >> (64 - 39)) in
  let E30 := E30 ^^ D0 in
  let B43 := (E30 << 41) ^^ (E30 >> (64 - 41)) in
  let E41 := E41 ^^ D1 in
  let B44 := (E41 << 2) ^^ (E41 >> (64 - 2)) in
  let A40 := B40 ^^ ((~~ B41) &&& B42) in
  let C0 := C0 ^^ A40 in
  let A41 := B41 ^^ ((~~ B42) &&& B43) in
  let C1 := C1 ^^ A41 in
  let A42 := B42 ^^ ((~~ B43) &&& B44) in
  let C2 := C2 ^^ A42 in
  let A43 := B43 ^^ ((~~ B44) &&& B40) in
  let C3 := C3 ^^ A43 in
  let A44 := B44 ^^ ((~~ B40) &&& B41) in
  let C4 := C4 ^^ A44 in
  (Matrix A00 A01 A02 A03 A04
     A10 A11 A12 A13 A14
     A20 A21 A22 A23 A24
     A30 A31 A32 A33 A34
     A40 A41 A42 A43 A44,
   Parities C0 C1 C2 C3 C4).

Definition keccakf_1600_round_14 (A : matrix W) (C : parities W) : matrix W * parities W :=
  let '(Matrix A00 A01 A02 A03 A04
    A10 A11 A12 A13 A14
    A20 A21 A22 A23 A24
    A30 A31 A32 A33 A34
    A40 A41 A42 A43 A44) := A in
  let '(Parities C0 C1 C2 C3 C4) := C in
  let D0 := C4 ^^ ((C1 << 1) ^^ (C1 >> (64 - 1))) in
  let D1 := C0 ^^ ((C2 << 1) ^^ (C2 >> (64 - 1))) in
  let D2 := C1 ^^ ((C3 << 1) ^^ (C3 >> (64 - 1))) in
  let D3 := C2 ^^ ((C4 << 1) ^^ (C4 >> (64 - 1))) in
  let D4 := C3 ^^ ((C0 << 1) ^^ (C0 >> (64 - 1))) in
  let A00 := A00 ^^ D0 in
  let B00 := A00 in
  let A11 := A11 ^^ D1 in
  let B01 := (A11 << 44) ^^ (A11 >> (64 - 44)) in
  let A22 := A22 ^^ D2 in
  let B02 := (A22 << 43) ^^ (A22 >> (64 - 43)) in
  let A33 := A33 ^^ D3 in
  let B03 := (A33 << 21) ^^ (A33 >> (64 - 21)) in
  let A44 := A44 ^^ D4 in
  let B04 := (A44 << 14) ^^ (A44 >> (64 - 14)) in
  let E00 := B00 ^^ ((~~ B01) &&& B02) in
  let E00 := E00 ^^ splat (KECCAKF1600_ROUND_CONSTANTS 14) in
  let C0 := E00 in
  let E01 := B01 ^^ ((~~ B02) &&& B03) in
  let C1 := E01 in
  let E02 := B02 ^^ ((~~ B03) &&& B04) in
  let C2 := E02 in
  let E03 := B03 ^^ ((~~ B04) &&& B00) in
  let C3 := E03 in
  let E04 := B04 ^^ ((~~ B00) &&& B01) in
  let C4 := E04 in
  let A03 := A03 ^^ D3 in
  let B10 := (A03 << 28) ^^ (A03 >> (64 - 28)) in
  let A14 := A14 ^^ D4 in
  let B11 := (A14 << 20) ^^ (A14 >> (64 - 20)) in
  let A20 := A20 ^^ D0 in
  let B12 := (A20 << 3) ^^ (A20 >> (64 - 3)) in
  let A31 := A31 ^^ D1 in
  let B13 := (A31 << 45) ^^ (A31 >> (64 - 45)) in
  let A42 := A42 ^^ D2 in
  let B14 := (A42 << 61) ^^ (A42 >> (64 - 61)) in
  let E10 := B10 ^^ ((~~ B11) &&& B12) in
  let C0 := C0 ^^ E10 in
  let E11 := B11 ^^ ((~~ B12) &&& B13) in
  let C1 := C1 ^^ E11 in
  let E12 := B12 ^^ ((~~ B13) &&& B14) in
  let C2 := C2 ^^ E12 in
  let E13 := B13 ^^ ((~~ B14) &&& B10) in
  let C3 := C3 ^^ E13 in
  let E14 := B14 ^^ ((~~ B10) &&& B11) in
  let C4 := C4 ^^ E14 in
  let A01 := A01 ^^ D1 in
  let B20 := (A01 << 1) ^^ (A01 >> (64 - 1)) in
  let A12 := A12 ^^ D2 in
  let B21 := (A12 << 6) ^^ (A12 >> (64 - 6)) in
  let A23 := A23 ^^ D3 in
  let B22 := (A23 << 25) ^^ (A23 >> (64 - 25)) in
  let A34 := A34 ^^ D4 in
  let B23 := (A34 << 8) ^^ (A34 >> (64 - 8)) in
  let A40 := A40 ^^ D0 in
  let B24 := (A40 << 18) ^^ (A40 >> (64 - 18)) in
  let E20 := B20 ^^ ((~~ B21) &&& B22) in
  let C0 := C0 ^^ E20 in
  let E21 := B21 ^^ ((~~ B22) &&& B23) in
  let C1 := C1 ^^ E21 in
  let E22 := B22 ^^ ((~~ B23) &&& B24) in
  let C2 := C2 ^^ E22 in
  let E23 := B23 ^^ ((~~ B24) &&& B20) in
  let C3 := C3 ^^ E23 in
  let E24 := B24 ^^ ((~~ B20) &&& B21) in
  let C4 := C4 ^^ E24 in
  let A04 := A04 ^^ D4 in
  let B30 := (A04 << 27) ^^ (A04 >> (64 - 27)) in
  let A10 := A10 ^^ D0 in
  let B31 := (A10 << 36) ^^ (A10 >> (64 - 36)) in
  let A21 := A21 ^^ D1 in
  let B32 := (A21 << 10) ^^ (A21 >> (64 - 10)) in
  let A32 := A32 ^^ D2 in
  let B33 := (A32 << 15) ^^ (A32 >> (64 - 15)) in
  let A43 := A43 ^^ D3 in
  let B34 := (A43 << 56) ^^ (A43 >> (64 - 56)) in
  let E30 := B30 ^^ ((~~ B31) &&& B32) in
  let C0 := C0 ^^ E30 in
  let E31 := B31 ^^ ((~~ B32) &&& B33) in
  let C1 := C1 ^^ E31 in
  let E32 := B32 ^^ ((~~ B33) &&& B34) in
  let C2 := C2 ^^ E32 in
  let E33 := B33 ^^ ((~~ B34) &&& B30) in
  let C3 := C3 ^^ E33 in
  let E34 := B34 ^^ ((~~ B30) &&& B31) in
  let C4 := C4 ^^ E34 in
  let A02 := A02 ^^ D2 in
  let B40 := (A02 << 62) ^^ (A02 >> (64 - 62)) in
  let A13 := A13 ^^ D3 in
  let B41 := (A13 << 55) ^^ (A13 >> (64 - 55)) in
  let A24 := A24 ^^ D4 in
  let B42 := (A24 << 39) ^^ (A24 >> (64 - 39)) in
  let A30 := A30 ^^ D0 in
  let B43 := (A30 << 41) ^^ (A30 >> (64 - 41)) in
  let A41 := A41 ^^ D1 in
  let B44 := (A41 << 2) ^^ (A41 >> (64 - 2)) in
  let E40 := B40 ^^ ((~~ B41) &&& B42) in
  let C0 := C0 ^^ E40 in
  let E41 := B41 ^^ ((~~ B42) &&& B43) in
  let C1 := C1 ^^ E41 in
  let E42 := B42 ^^ ((~~ B43) &&& B44) in
  let C2 := C2 ^^ E42 in
  let E43 := B43 ^^ ((~~ B44) &&& B40) in
  let C3 := C3 ^^ E43 in
  let E44 := B44 ^^ ((~~ B40) &&& B41) in
  let C4 := C4 ^^ E44 in
  (Matrix E00 E01 E02 E03 E04
     E10 E11 E12 E13 E14
     E20 E21 E22 E23 E24
     E30 E31 E32 E33 E34
     E40 E41 E42 E43 E44,
   Parities C0 C1 C2 C3 C4).

Definition keccakf_1600_round_15 (E : matrix W) (C : parities W) : matrix W * parities W :=
  let '(Matrix E00 E01 E02 E03 E04
    E10 E11 E12 E13 E14
    E20 E21 E22 E23 E24
    E30 E31 E32 E33 E34
    E40 E41 E42 E43 E44) := E in
  let '(Parities C0 C1 C2 C3 C4) := C in
  let D0 := C4 ^^ ((C1 << 1) ^^ (C1 >> (64 - 1))) in
  let D1 := C0 ^^ ((C2 << 1) ^^ (C2 >> (64 - 1))) in
  let D2 := C1 ^^ ((C3 << 1) ^^ (C3 >> (64 - 1))) in
  let D3 := C2 ^^ ((C4 << 1) ^^ (C4 >> (64 - 1))) in
  let D4 := C3 ^^ ((C0 << 1) ^^ (C0 >> (64 - 1))) in
  let E00 := E00 ^^ D0 in
  let B00 := E00 in
  let E11 := E11 ^^ D1 in
  let B01 := (E11 << 44) ^^ (E11 >> (64 - 44)) in
  let E22 := E22 ^^ D2 in
  let B02 := (E22 << 43) ^^ (E22 >> (64 - 43)) in
  let E33 := E33 ^^ D3 in
  let B03 := (E33 << 21) ^^ (E33 >> (64 - 21)) in
  let E44 := E44 ^^ D4 in
  let B04 := (E44 << 14) ^^ (E44 >> (64 - 14)) in
  let A00 := B00 ^^ ((~~ B01) &&& B02) in
  let A00 := A00 ^^ splat (KECCAKF1600_ROUND_CONSTANTS 15) in
  let C0 := A00 in
  let A01 := B01 ^^ ((~~ B02) &&& B03) in
  let C1 := A01 in
  let A02 := B02 ^^ ((~~ B03) &&& B04) in
  let C2 := A02 in
  let A03 := B03 ^^ ((~~ B04) &&& B00) in
  let C3 := A03 in
  let A04 := B04 ^^ ((~~ B00) &&& B01) in
  let C4 := A04 in
  let E03 := E03 ^^ D3 in
  let B10 := (E03 << 28) ^^ (E03 >> (64 - 28)) in
  let E14 := E14 ^^ D4 in
  let B11 := (E14 << 20) ^^ (E14 >> (64 - 20)) in
  let E20 := E20 ^^ D0 in
  let B12 := (E20 << 3) ^^ (E20 >> (64 - 3)) in
  let E31 := E31 ^^ D1 in
  let B13 := (E31 << 45) ^^ (E31 >> (64 - 45)) in
  let E42 := E42 ^^ D2 in
  let B14 := (E42 << 61) ^^ (E42 >> (64 - 61)) in
  let A10 := B10 ^^ ((~~ B11) &&& B12) in
  let C0 := C0 ^^ A10 in
  let A11 := B11 ^^ ((~~ B12) &&& B13) in
  let C1 := C1 ^^ A11 in
  let A12 := B12 ^^ ((~~ B13) &&& B14) in
  let C2 := C2 ^^ A12 in
  let A13 := B13 ^^ ((~~ B14) &&& B10) in
  let C3 := C3 ^^ A13 in
  let A14 := B14 ^^ ((~~ B10) &&& B11) in
  let C4 := C4 ^^ A14 in
  let E01 := E01 ^^ D1 in
  let B20 := (E01 << 1) ^^ (E01 >> (64 - 1)) in
  let E12 := E12 ^^ D2 in
  let B21 := (E12 << 6) ^^ (E12 >> (64 - 6)) in
  let E23 := E23 ^^ D3 in
  let B22 := (E23 << 25) ^^ (E23 >> (64 - 25)) in
  let E34 := E34 ^^ D4 in
  let B23 := (E34 << 8) ^^ (E34 >> (64 - 8)) in
  let E40 := E40 ^^ D0 in
  let B24 := (E40 << 18) ^^ (E40 >> (64 - 18)) in
  let A20 := B20 ^^ ((~~ B21) &&& B22) in
  let C0 := C0 ^^ A20 in
  let A21 := B21 ^^ ((~~ B22) &&& B23) in
  let C1 := C1 ^^ A21 in
  let A22 := B22 ^^ ((~~ B23) &&& B24) in
  let C2 := C2 ^^ A22 in
  let A23 := B23 ^^ ((~~ B24) &&& B20) in
  let C3 := C3 ^^ A23 in
  let A24 := B24 ^^ ((~~ B20) &&& B21) in
  let C4 := C4 ^^ A24 in
  let E04 := E04 ^^ D4 in
  let B30 := (E04 << 27) ^^ (E04 >> (64 - 27)) in
  let E10 := E10 ^^ D0 in
  let B31 := (E10 << 36) ^^ (E10 >> (64 - 36)) in
  let E21 := E21 ^^ D1 in
  let B32 := (E21 << 10) ^^ (E21 >> (64 - 10)) in
  let E32 := E32 ^^ D2 in
  let B33 := (E32 << 15) ^^ (E32 >> (64 - 15)) in
  let E43 := E43 ^^ D3 in
  let B34 := (E43 << 56) ^^ (E43 >> (64 - 56)) in
  let A30 := B30 ^^ ((~~ B31) &&& B32) in
  let C0 := C0 ^^ A30 in
  let A31 := B31 ^^ ((~~ B32) &&& B33) in
  let C1 := C1 ^^ A31 in
  let A32 := B32 ^^ ((~~ B33) &&& B34) in
  let C2 := C2 ^^ A32 in
  let A33 := B33 ^^ ((~~ B34) &&& B30) in
  let C3 := C3 ^^ A33 in
  let A34 := B34 ^^ ((~~ B30) &&& B31) in
  let C4 := C4 ^^ A34 in
  let E02 := E02 ^^ D2 in
  let B40 := (E02 << 62) ^^ (E02 >> (64 - 62)) in
  let E13 := E13 ^^ D3 in
  let B41 := (E13 << 55) ^^ (E13 >> (64 - 55)) in
  let E24 := E24 ^^ D4 in
  let B42 := (E24 << 39) ^^ (E24 >> (64 - 39)) in
  let E30 := E30 ^^ D0 in
  let B43 := (E30 << 41) ^^ (E30 >> (64 - 41)) in
  let E41 := E41 ^^ D1 in
  let B44 := (E41 << 2) ^^ (E41 >> (64 - 2)) in
  let A40 := B40 ^^ ((~~ B41) &&& B42) in
  let C0 := C0 ^^ A40 in
  let A41 := B41 ^^ ((~~ B42) &&& B43) in
  let C1 := C1 ^^ A41 in
  let A42 := B42 ^^ ((~~ B43) &&& B44) in
  let C2 := C2 ^^ A42 in
  let A43 := B43 ^^ ((~~ B44) &&& B40) in
  let C3 := C3 ^^ A43 in
  let A44 := B44 ^^ ((~~ B40) &&& B41) in
  let C4 := C4 ^^ A44 in
  (Matrix A00 A01 A02 A03 A04
     A10 A11 A12 A13 A14
     A20 A21 A22 A23 A24
     A30 A31 A32 A33 A34
     A40 A41 A42 A43 A44,
   Parities C0 C1 C2 C3 C4).

Definition keccakf_1600_round_16 (A : matrix W) (C : parities W) : matrix W * parities W :=
  let '(Matrix A00 A01 A02 A03 A04
    A10 A11 A12 A13 A14
    A20 A21 A22 A23 A24
    A30 A31 A32 A33 A34
    A40 A41 A42 A43 A44) := A in
  let '(Parities C0 C1 C2 C3 C4) := C in
  let D0 := C4 ^^ ((C1 << 1) ^^ (C1 >> (64 - 1))) in
  let D1 := C0 ^^ ((C2 << 1) ^^ (C2 >> (64 - 1))) in
  let D2 := C1 ^^ ((C3 << 1) ^^ (C3 >> (64 - 1))) in
  let D3 := C2 ^^ ((C4 << 1) ^^ (C4 >> (64 - 1))) in
  let D4 := C3 ^^ ((C0 << 1) ^^ (C0 >> (64 - 1))) in
  let A00 := A00 ^^ D0 in
  let B00 := A00 in
  let A11 := A11 ^^ D1 in
  let B01 := (A11 << 44) ^^ (A11 >> (64 - 44)) in
  let A22 := A22 ^^ D2 in
  let B02 := (A22 << 43) ^^ (A22 >> (64 - 43)) in
  let A33 := A33 ^^ D3 in
  let B03 := (A33 << 21) ^^ (A33 >> (64 - 21)) in
  let A44 := A44 ^^ D4 in
  let B04 := (A44 << 14) ^^ (A44 >> (64 - 14)) in
  let E00 := B00 ^^ ((~~ B01) &&& B02) in
  let E00 := E00 ^^ splat (KECCAKF1600_ROUND_CONSTANTS 16) in
  let C0 := E00 in
  let E01 := B01 ^^ ((~~ B02) &&& B03) in
  let C1 := E01 in
  let E02 := B02 ^^ ((~~ B03) &&& B04) in
  let C2 := E02 in
  let E03 := B03 ^^ ((~~ B04) &&& B00) in
  let C3 := E03 in
  let E04 := B04 ^^ ((~~ B00) &&& B01) in
  let C4 := E04 in
  let A03 := A03 ^^ D3 in
  let B10 := (A03 << 28) ^^ (A03 >> (64 - 28)) in
  let A14 := A14 ^^ D4 in
  let B11 := (A14 << 20) ^^ (A14 >> (64 - 20)) in
  let A20 := A20 ^^ D0 in
  let B12 := (A20 << 3) ^^ (A20 >> (64 - 3)) in
  let A31 := A31 ^^ D1 in
  let B13 := (A31 << 45) ^^ (A31 >> (64 - 45)) in
  let A42 := A42 ^^ D2 in
  let B14 := (A42 << 61) ^^ (A42 >> (64 - 61)) in
  let E10 := B10 ^^ ((~~ B11) &&& B12) in
  let C0 := C0 ^^ E10 in
  let E11 := B11 ^^ ((~~ B12) &&& B13) in
  let C1 := C1 ^^ E11 in
  let E12 := B12 ^^ ((~~ B13) &&& B14) in
  let C2 := C2 ^^ E12 in
  let E13 := B13 ^^ ((~~ B14) &&& B10) in
  let C3 := C3 ^^ E13 in
  let E14 := B14 ^^ ((~~ B10) &&& B11) in
  let C4 := C4 ^^ E14 in
  let A01 := A01 ^^ D1 in
  let B20 := (A01 << 1) ^^ (A01 >> (64 - 1)) in
  let A12 := A12 ^^ D2 in
  let B21 := (A12 << 6) ^^ (A12 >> (64 - 6)) in
  let A23 := A23 ^^ D3 in
  let B22 := (A23 << 25) ^^ (A23 >> (64 - 25)) in
  let A34 := A34 ^^ D4 in
  let B23 := (A34 << 8) ^^ (A34 >> (64 - 8)) in
  let A40 := A40 ^^ D0 in
  let B24 := (A40 << 18) ^^ (A40 >> (64 - 18)) in
  let E20 := B20 ^^ ((~~ B21) &&& B22) in
  let C0 := C0 ^^ E20 in
  let E21 := B21 ^^ ((~~ B22) &&& B23) in
  let C1 := C1 ^^ E21 in
  let E22 := B22 ^^ ((~~ B23) &&& B24) in
  let C2 := C2 ^^ E22 in
  let E23 := B23 ^^ ((~~ B24) &&& B20) in
  let C3 := C3 ^^ E23 in
  let E24 := B24 ^^ ((~~ B20) &&& B21) in
  let C4 := C4 ^^ E24 in
  let A04 := A04 ^^ D4 in
  let B30 := (A04 << 27) ^^ (A04 >> (64 - 27)) in
  let A10 := A10 ^^ D0 in
  let B31 := (A10 << 36) ^^ (A10 >> (64 - 36)) in
  let A21 := A21 ^^ D1 in
  let B32 := (A21 << 10) ^^ (A21 >> (64 - 10)) in
  let A32 := A32 ^^ D2 in
  let B33 := (A32 << 15) ^^ (A32 >> (64 - 15)) in
  let A43 := A43 ^^ D3 in
  let B34 := (A43 << 56) ^^ (A43 >> (64 - 56)) in
  let E30 := B30 ^^ ((~~ B31) &&& B32) in
  let C0 := C0 ^^ E30 in
  let E31 := B31 ^^ ((~~ B32) &&& B33) in
  let C1 := C1 ^^ E31 in
  let E32 := B32 ^^ ((~~ B33) &&& B34) in
  let C2 := C2 ^^ E32 in
  let E33 := B33 ^^ ((~~ B34) &&& B30) in
  let C3 := C3 ^^ E33 in
  let E34 := B34 ^^ ((~~ B30) &&& B31) in
  let C4 := C4 ^^ E34 in
  let A02 := A02 ^^ D2 in
  let B40 := (A02 << 62) ^^ (A02 >> (64 - 62)) in
  let A13 := A13 ^^ D3 in
  let B41 := (A13 << 55) ^^ (A13 >> (64 - 55)) in
  let A24 := A24 ^^ D4 in
  let B42 := (A24 << 39) ^^ (A24 >> (64 - 39)) in
  let A30 := A30 ^^ D0 in
  let B43 := (A30 << 41) ^^ (A30 >> (64 - 41)) in
  let A41 := A41 ^^ D1 in
  let B44 := (A41 << 2) ^^ (A41 >> (64 - 2)) in
  let E40 := B40 ^^ ((~~ B41) &&& B42) in
  let C0 := C0 ^^ E40 in
  let E41 := B41 ^^ ((~~ B42) &&& B43) in
  let C1 := C1 ^^ E41 in
  let E42 := B42 ^^ ((~~ B43) &&& B44) in
  let C2 := C2 ^^ E42 in
  let E43 := B43 ^^ ((~~ B44) &&& B40) in
  let C3 := C3 ^^ E43 in
  let E44 := B44 ^^ ((~~ B40) &&& B41) in
  let C4 := C4 ^^ E44 in
  (Matrix E00 E01 E02 E03 E04
     E10 E11 E12 E13 E14
     E20 E21 E22 E23 E24
     E30 E31 E32 E33 E34
     E40 E41 E42 E43 E44,
   Parities C0 C1 C2 C3 C4).

Definition keccakf_1600_round_17 (E : matrix W) (C : parities W) : matrix W * parities W :=
  let '(Matrix E00 E01 E02 E03 E04
    E10 E11 E12 E13 E14
    E20 E21 E22 E23 E24
    E30 E31 E32 E33 E34
    E40 E41 E42 E43 E44) := E in
  let '(Parities C0 C1 C2 C3 C4) := C in
  let D0 := C4 ^^ ((C1 << 1) ^^ (C1 >> (64 - 1))) in
  let D1 := C0 ^^ ((C2 << 1) ^^ (C2 >> (64 - 1))) in
  let D2 := C1 ^^ ((C3 << 1) ^^ (C3 >> (64 - 1))) in
  let D3 := C2 ^^ ((C4 << 1) ^^ (C4 >> (64 - 1))) in
  let D4 := C3 ^^ ((C0 << 1) ^^ (C0 >> (64 - 1))) in
  let E00 := E00 ^^ D0 in
  let B00 := E00 in
  let E11 := E11 ^^ D1 in
  let B01 := (E11 << 44) ^^ (E11 >> (64 - 44)) in
  let E22 := E22 ^^ D2 in
  let B02 := (E22 << 43) ^^ (E22 >> (64 - 43)) in
  let E33 := E33 ^^ D3 in
  let B03 := (E33 << 21) ^^ (E33 >> (64 - 21)) in
  let E44 := E44 ^^ D4 in
  let B04 := (E44 << 14) ^^ (E44 >> (64 - 14)) in
  let A00 := B00 ^^ ((~~ B01) &&& B02) in
  let A00 := A00 ^^ splat (KECCAKF1600_ROUND_CONSTANTS 17) in
  let C0 := A00 in
  let A01 := B01 ^^ ((~~ B02) &&& B03) in
  let C1 := A01 in
  let A02 := B02 ^^ ((~~ B03) &&& B04) in
  let C2 := A02 in
  let A03 := B03 ^^ ((~~ B04) &&& B00) in
  let C3 := A03 in
  let A04 := B04 ^^ ((~~ B00) &&& B01) in
  let C4 := A04 in
  let E03 := E03 ^^ D3 in
  let B10 := (E03 << 28) ^^ (E03 >> (64 - 28)) in
  let E14 := E14 ^^ D4 in
  let B11 := (E14 << 20) ^^ (E14 >> (64 - 20)) in
  let E20 := E20 ^^ D0 in
  let B12 := (E20 << 3) ^^ (E20 >> (64 - 3)) in
  let E31 := E31 ^^ D1 in
  let B13 := (E31 << 45) ^^ (E31 >> (64 - 45)) in
  let E42 := E42 ^^ D2 in
  let B14 := (E42 << 61) ^^ (E42 >> (64 - 61)) in
  let A10 := B10 ^^ ((~~ B11) &&& B12) in
  let C0 := C0 ^^ A10 in
  let A11 := B11 ^^ ((~~ B12) &&& B13) in
  let C1 := C1 ^^ A11 in
  let A12 := B12 ^^ ((~~ B13) &&& B14) in
  let C2 := C2 ^^ A12 in
  let A13 := B13 ^^ ((~~ B14) &&& B10) in
  let C3 := C3 ^^ A13 in
  let A14 := B14 ^^ ((~~ B10) &&& B11) in
  let C4 := C4 ^^ A14 in
  let E01 := E01 ^^ D1 in
  let B20 := (E01 << 1) ^^ (E01 >> (64 - 1)) in
  let E12 := E12 ^^ D2 in
  let B21 := (E12 << 6) ^^ (E12 >> (64 - 6)) in
  let E23 := E23 ^^ D3 in
  let B22 := (E23 << 25) ^^ (E23 >> (64 - 25)) in
  let E34 := E34 ^^ D4 in
  let B23 := (E34 << 8) ^^ (E34 >> (64 - 8)) in
  let E40 := E40 ^^ D0 in
  let B24 := (E40 << 18) ^^ (E40 >> (64 - 18)) in
  let A20 := B20 ^^ ((~~ B21) &&& B22) in
  let C0 := C0 ^^ A20 in
  let A21 := B21 ^^ ((~~ B22) &&& B23) in
  let C1 := C1 ^^ A21 in
  let A22 := B22 ^^ ((~~ B23) &&& B24) in
  let C2 := C2 ^^ A22 in
  let A23 := B23 ^^ ((~~ B24) &&& B20) in
  let C3 := C3 ^^ A23 in
  let A24 := B24 ^^ ((~~ B20) &&& B21) in
  let C4 := C4 ^^ A24 in
  let E04 := E04 ^^ D4 in
  let B30 := (E04 << 27) ^^ (E04 >> (64 - 27)) in
  let E10 := E10 ^^ D0 in
  let B31 := (E10 << 36) ^^ (E10 >> (64 - 36)) in
  let E21 := E21 ^^ D1 in
  let B32 := (E21 << 10) ^^ (E21 >> (64 - 10)) in
  let E32 := E32 ^^ D2 in
  let B33 := (E32 << 15) ^^ (E32 >> (64 - 15)) in
  let E43 := E43 ^^ D3 in
  let B34 := (E43 << 56) ^^ (E43 >> (64 - 56)) in
  let A30 := B30 ^^ ((~~ B31) &&& B32) in
  let C0 := C0 ^^ A30 in
  let A31 := B31 ^^ ((~~ B32) &&& B33) in
  let C1 := C1 ^^ A31 in
  let A32 := B32 ^^ ((~~ B33) &&& B34) in
  let C2 := C2 ^^ A32 in
  let A33 := B33 ^^ ((~~ B34) &&& B30) in
  let C3 := C3 ^^ A33 in
  let A34 := B34 ^^ ((~~ B30) &&& B31) in
  let C4 := C4 ^^ A34 in
  let E02 := E02 ^^ D2 in
  let B40 := (E02 << 62) ^^ (E02 >> (64 - 62)) in
  let E13 := E13 ^^ D3 in
  let B41 := (E13 << 55) ^^ (E13 >> (64 - 55)) in
  let E24 := E24 ^^ D4 in
  let B42 := (E24 << 39) ^^ (E24 >> (64 - 39)) in
  let E30 := E30 ^^ D0 in
  let B43 := (E30 << 41) ^^ (E30 >> (64 - 41)) in
  let E41 := E41 ^^ D1 in
  let B44 := (E41 << 2) ^^ (E41 >> (64 - 2)) in
  let A40 := B40 ^^ ((~~ B41) &&& B42) in
  let C0 := C0 ^^ A40 in
  let A41 := B41 ^^ ((~~ B42) &&& B43) in
  let C1 := C1 ^^ A41 in
  let A42 := B42 ^^ ((~~ B43) &&& B44) in
  let C2 := C2 ^^ A42 in
  let A43 := B43 ^^ ((~~ B44) &&& B40) in
  let C3 := C3 ^^ A43 in
  let A44 := B44 ^^ ((~~ B40) &&& B41) in
  let C4 := C4 ^^ A44 in
  (Matrix A00 A01 A02 A03 A04
     A10 A11 A12 A13 A14
     A20 A21 A22 A23 A24
     A30 A31 A32 A33 A34
     A40 A41 A42 A43 A44,
   Parities C0 C1 C2 C3 C4).

Definition keccakf_1600_round_18 (A : matrix W) (C : parities W) : matrix W * parities W :=
  let '(Matrix A00 A01 A02 A03 A04
    A10 A11 A12 A13 A14
    A20 A21 A22 A23 A24
    A30 A31 A32 A33 A34
    A40 A41 A42 A43 A44) := A in
  let '(Parities C0 C1 C2 C3 C4) := C in
  let D0 := C4 ^^ ((C1 << 1) ^^ (C1 >> (64 - 1))) in
  let D1 := C0 ^^ ((C2 << 1) ^^ (C2 >> (64 - 1))) in
  let D2 := C1 ^^ ((C3 << 1) ^^ (C3 >> (64 - 1))) in
  let D3 := C2 ^^ ((C4 << 1) ^^ (C4 >> (64 - 1))) in
  let D4 := C3 ^^ ((C0 << 1) ^^ (C0 >> (64 - 1))) in
  let A00 := A00 ^^ D0 in
  let B00 := A00 in
  let A11 := A11 ^^ D1 in
  let B01 := (A11 << 44) ^^ (A11 >> (64 - 44)) in
  let A22 := A22 ^^ D2 in
  let B02 := (A22 << 43) ^^ (A22 >> (64 - 43)) in
  let A33 := A33 ^^ D3 in
  let B03 := (A33 << 21) ^^ (A33 >> (64 - 21)) in
  let A44 := A44 ^^ D4 in
  let B04 := (A44 << 14) ^^ (A44 >> (64 - 14)) in
  let E00 := B00 ^^ ((~~ B01) &&& B02) in
  let E00 := E00 ^^ splat (KECCAKF1600_ROUND_CONSTANTS 18) in
  let C0 := E00 in
  let E01 := B01 ^^ ((~~ B02) &&& B03) in
  let C1 := E01 in
  let E02 := B02 ^^ ((~~ B03) &&& B04) in
  let C2 := E02 in
  let E03 := B03 ^^ ((~~ B04) &&& B00) in
  let C3 := E03 in
  let E04 := B04 ^^ ((~~ B00) &&& B01) in
  let C4 := E04 in
  let A03 := A03 ^^ D3 in
  let B10 := (A03 << 28) ^^ (A03 >> (64 - 28)) in
  let A14 := A14 ^^ D4 in
  let B11 := (A14 << 20) ^^ (A14 >> (64 - 20)) in
  let A20 := A20 ^^ D0 in
  let B12 := (A20 << 3) ^^ (A20 >> (64 - 3)) in
  let A31 := A31 ^^ D1 in
  let B13 := (A31 << 45) ^^ (A31 >> (64 - 45)) in
  let A42 := A42 ^^ D2 in
  let B14 := (A42 << 61) ^^ (A42 >> (64 - 61)) in
  let E10 := B10 ^^ ((~~ B11) &&& B12) in
  let C0 := C0 ^^ E10 in
  let E11 := B11 ^^ ((~~ B12) &&& B13) in
  let C1 := C1 ^^ E11 in
  let E12 := B12 ^^ ((~~ B13) &&& B14) in
  let C2 := C2 ^^ E12 in
  let E13 := B13 ^^ ((~~ B14) &&& B10) in
  let C3 := C3 ^^ E13 in
  let E14 := B14 ^^ ((~~ B10) &&& B11) in
  let C4 := C4 ^^ E14 in
  let A01 := A01 ^^ D1 in
  let B20 := (A01 << 1) ^^ (A01 >> (64 - 1)) in
  let A12 := A12 ^^ D2 in
  let B21 := (A12 << 6) ^^ (A12 >> (64 - 6)) in
  let A23 := A23 ^^ D3 in
  let B22 := (A23 << 25) ^^ (A23 >> (64 - 25)) in
  let A34 := A34 ^^ D4 in
  let B23 := (A34 << 8) ^^ (A34 >> (64 - 8)) in
  let A40 := A40 ^^ D0 in
  let B24 := (A40 << 18) ^^ (A40 >> (64 - 18)) in
  let E20 := B20 ^^ ((~~ B21) &&& B22) in
  let C0 := C0 ^^ E20 in
  let E21 := B21 ^^ ((~~ B22) &&& B23) in
  let C1 := C1 ^^ E21 in
  let E22 := B22 ^^ ((~~ B23) &&& B24) in
  let C2 := C2 ^^ E22 in
  let E23 := B23 ^^ ((~~ B24) &&& B20) in
  let C3 := C3 ^^ E23 in
  let E24 := B24 ^^ ((~~ B20) &&& B21) in
  let C4 := C4 ^^ E24 in
  let A04 := A04 ^^ D4 in
  let B30 := (A04 << 27) ^^ (A04 >> (64 - 27)) in
  let A10 := A10 ^^ D0 in
  let B31 := (A10 << 36) ^^ (A10 >> (64 - 36)) in
  let A21 := A21 ^^ D1 in
  let B32 := (A21 << 10) ^^ (A21 >> (64 - 10)) in
  let A32 := A32 ^^ D2 in
  let B33 := (A32 << 15) ^^ (A32 >> (64 - 15)) in
  let A43 := A43 ^^ D3 in
  let B34 := (A43 << 56) ^^ (A43 >> (64 - 56)) in
  let E30 := B30 ^^ ((~~ B31) &&& B32) in
  let C0 := C0 ^^ E30 in
  let E31 := B31 ^^ ((~~ B32) &&& B33) in
  let C1 := C1 ^^ E31 in
  let E32 := B32 ^^ ((~~ B33) &&& B34) in
  let C2 := C2 ^^ E32 in
  let E33 := B33 ^^ ((~~ B34) &&& B30) in
  let C3 := C3 ^^ E33 in
  let E34 := B34 ^^ ((~~ B30) &&& B31) in
  let C4 := C4 ^^ E34 in
  let A02 := A02 ^^ D2 in
  let B40 := (A02 << 62) ^^ (A02 >> (64 - 62)) in
  let A13 := A13 ^^ D3 in
  let B41 := (A13 << 55) ^^ (A13 >> (64 - 55)) in
  let A24 := A24 ^^ D4 in
  let B42 := (A24 << 39) ^^ (A24 >> (64 - 39)) in
  let A30 := A30 ^^ D0 in
  let B43 := (A30 << 41) ^^ (A30 >> (64 - 41)) in
  let A41 := A41 ^^ D1 in
  let B44 := (A41 << 2) ^^ (A41 >> (64 - 2)) in
  let E40 := B40 ^^ ((~~ B41) &&& B42) in
  let C0 := C0 ^^ E40 in
  let E41 := B41 ^^ ((~~ B42) &&& B43) in
  let C1 := C1 ^^ E41 in
  let E42 := B42 ^^ ((~~ B43) &&& B44) in
  let C2 := C2 ^^ E42 in
  let E43 := B43 ^^ ((~~ B44) &&& B40) in
  let C3 := C3 ^^ E43 in
  let E44 := B44 ^^ ((~~ B40) &&& B41) in
  let C4 := C4 ^^ E44 in
  (Matrix E00 E01 E02 E03 E04
     E10 E11 E12 E13 E14
     E20 E21 E22 E23 E24
     E30 E31 E32 E33 E34
     E40 E41 E42 E43 E44,
   Parities C0 C1 C2 C3 C4).

Definition keccakf_1600_round_19 (E : matrix W) (C : parities W) : matrix W * parities W :=
  let '(Matrix E00 E01 E02 E03 E04
    E10 E11 E12 E13 E14
    E20 E21 E22 E23 E24
    E30 E31 E32 E33 E34
    E40 E41 E42 E43 E44) := E in
  let '(Parities C0 C1 C2 C3 C4) := C in
  let D0 := C4 ^^ ((C1 << 1) ^^ (C1 >> (64 - 1))) in
  let D1 := C0 ^^ ((C2 << 1) ^^ (C2 >> (64 - 1))) in
  let D2 := C1 ^^ ((C3 << 1) ^^ (C3 >> (64 - 1))) in
  let D3 := C2 ^^ ((C4 << 1) ^^ (C4 >> (64 - 1))) in
  let D4 := C3 ^^ ((C0 << 1) ^^ (C0 >> (64 - 1))) in
  let E00 := E00 ^^ D0 in
  let B00 := E00 in
  let E11 := E11 ^^ D1 in
  let B01 := (E11 << 44) ^^ (E11 >> (64 - 44)) in
  let E22 := E22 ^^ D2 in
  let B02 := (E22 << 43) ^^ (E22 >> (64 - 43)) in
  let E33 := E33 ^^ D3 in
  let B03 := (E33 << 21) ^^ (E33 >> (64 - 21)) in
  let E44 := E44 ^^ D4 in
  let B04 := (E44 << 14) ^^ (E44 >> (64 - 14)) in
  let A00 := B00 ^^ ((~~ B01) &&& B02) in
  let A00 := A00 ^^ splat (KECCAKF1600_ROUND_CONSTANTS 19) in
  let C0 := A00 in
  let A01 := B01 ^^ ((~~ B02) &&& B03) in
  let C1 := A01 in
  let A02 := B02 ^^ ((~~ B03) &&& B04) in
  let C2 := A02 in
  let A03 := B03 ^^ ((~~ B04) &&& B00) in
  let C3 := A03 in
  let A04 := B04 ^^ ((~~ B00) &&& B01) in
  let C4 := A04 in
  let E03 := E03 ^^ D3 in
  let B10 := (E03 << 28) ^^ (E03 >> (64 - 28)) in
  let E14 := E14 ^^ D4 in
  let B11 := (E14 << 20) ^^ (E14 >> (64 - 20)) in
  let E20 := E20 ^^ D0 in
  let B12 := (E20 << 3) ^^ (E20 >> (64 - 3)) in
  let E31 := E31 ^^ D1 in
  let B13 := (E31 << 45) ^^ (E31 >> (64 - 45)) in
  let E42 := E42 ^^ D2 in
  let B14 := (E42 << 61) ^^ (E42 >> (64 - 61)) in
  let A10 := B10 ^^ ((~~ B11) &&& B12) in
  let C0 := C0 ^^ A10 in
  let A11 := B11 ^^ ((~~ B12) &&& B13) in
  let C1 := C1 ^^ A11 in
  let A12 := B12 ^^ ((~~ B13) &&& B14) in
  let C2 := C2 ^^ A12 in
  let A13 := B13 ^^ ((~~ B14) &&& B10) in
  let C3 := C3 ^^ A13 in
  let A14 := B14 ^^ ((~~ B10) &&& B11) in
  let C4 := C4 ^^ A14 in
  let E01 := E01 ^^ D1 in
  let B20 := (E01 << 1) ^^ (E01 >> (64 - 1)) in
  let E12 := E12 ^^ D2 in
  let B21 := (E12 << 6) ^^ (E12 >> (64 - 6)) in
  let E23 := E23 ^^ D3 in
  let B22 := (E23 << 25) ^^ (E23 >> (64 - 25)) in
  let E34 := E34 ^^ D4 in
  let B23 := (E34 << 8) ^^ (E34 >> (64 - 8)) in
  let E40 := E40 ^^ D0 in
  let B24 := (E40 << 18) ^^ (E40 >> (64 - 18)) in
  let A20 := B20 ^^ ((~~ B21) &&& B22) in
  let C0 := C0 ^^ A20 in
  let A21 := B21 ^^ ((~~ B22) &&& B23) in
  let C1 := C1 ^^ A21 in
  let A22 := B22 ^^ ((~~ B23) &&& B24) in
  let C2 := C2 ^^ A22 in
  let A23 := B23 ^^ ((~~ B24) &&& B20) in
  let C3 := C3 ^^ A23 in
  let A24 := B24 ^^ ((~~ B20) &&& B21) in
  let C4 := C4 ^^ A24 in
  let E04 := E04 ^^ D4 in
  let B30 := (E04 << 27) ^^ (E04 >> (64 - 27)) in
  let E10 := E10 ^^ D0 in
  let B31 := (E10 << 36) ^^ (E10 >> (64 - 36)) in
  let E21 := E21 ^^ D1 in
  let B32 := (E21 << 10) ^^ (E21 >> (64 - 10)) in
  let E32 := E32 ^^ D2 in
  let B33 := (E32 << 15) ^^ (E32 >> (64 - 15)) in
  let E43 := E43 ^^ D3 in
  let B34 := (E43 << 56) ^^ (E43 >> (64 - 56)) in
  let A30 := B30 ^^ ((~~ B31) &&& B32) in
  let C0 := C0 ^^ A30 in
  let A31 := B31 ^^ ((~~ B32) &&& B33) in
  let C1 := C1 ^^ A31 in
  let A32 := B32 ^^ ((~~ B33) &&& B34) in
  let C2 := C2 ^^ A32 in
  let A33 := B33 ^^ ((~~ B34) &&& B30) in
  let C3 := C3 ^^ A33 in
  let A34 := B34 ^^ ((~~ B30) &&& B31) in
  let C4 := C4 ^^ A34 in
  let E02 := E02 ^^ D2 in
  let B40 := (E02 << 62) ^^ (E02 >> (64 - 62)) in
  let E13 := E13 ^^ D3 in
  let B41 := (E13 << 55) ^^ (E13 >> (64 - 55)) in
  let E24 := E24 ^^ D4 in
  let B42 := (E24 << 39) ^^ (E24 >> (64 - 39)) in
  let E30 := E30 ^^ D0 in
  let B43 := (E30 << 41) ^^ (E30 >> (64 - 41)) in
  let E41 := E41 ^^ D1 in
  let B44 := (E41 << 2) ^^ (E41 >> (64 - 2)) in
  let A40 := B40 ^^ ((~~ B41) &&& B42) in
  let C0 := C0 ^^ A40 in
  let A41 := B41 ^^ ((~~ B42) &&& B43) in
  let C1 := C1 ^^ A41 in
  let A42 := B42 ^^ ((~~ B43) &&& B44) in
  let C2 := C2 ^^ A42 in
  let A43 := B43 ^^ ((~~ B44) &&& B40) in
  let C3 := C3 ^^ A43 in
  let A44 := B44 ^^ ((~~ B40) &&& B41) in
  let C4 := C4 ^^ A44 in
  (Matrix A00 A01 A02 A03 A04
     A10 A11 A12 A13 A14
     A20 A21 A22 A23 A24
     A30 A31 A32 A33 A34
     A40 A41 A42 A43 A44,
   Parities C0 C1 C2 C3 C4).

Definition keccakf_1600_round_20 (A : matrix W) (C : parities W) : matrix W * parities W :=
  let '(Matrix A00 A01 A02 A03 A04
    A10 A11 A12 A13 A14
    A20 A21 A22 A23 A24
    A30 A31 A32 A33 A34
    A40 A41 A42 A43 A44) := A in
  let '(Parities C0 C1 C2 C3 C4) := C in
  let D0 := C4 ^^ ((C1 << 1) ^^ (C1 >> (64 - 1))) in
  let D1 := C0 ^^ ((C2 << 1) ^^ (C2 >> (64 - 1))) in
  let D2 := C1 ^^ ((C3 << 1) ^^ (C3 >> (64 - 1))) in
  let D3 := C2 ^^ ((C4 << 1) ^^ (C4 >> (64 - 1))) in
  let D4 := C3 ^^ ((C0 << 1) ^^ (C0 >> (64 - 1))) in
  let A00 := A00 ^^ D0 in
  let B00 := A00 in
  let A11 := A11 ^^ D1 in
  let B01 := (A11 << 44) ^^ (A11 >> (64 - 44)) in
  let A22 := A22 ^^ D2 in
  let B02 := (A22 << 43) ^^ (A22 >> (64 - 43)) in
  let A33 := A33 ^^ D3 in
  let B03 := (A33 << 21) ^^ (A33 >> (64 - 21)) in
  let A44 := A44 ^^ D4 in
  let B04 := (A44 << 14) ^^ (A44 >> (64 - 14)) in
  let E00 := B00 ^^ ((~~ B01) &&& B02) in
  let E00 := E00 ^^ splat (KECCAKF1600_ROUND_CONSTANTS 20) in
  let C0 := E00 in
  let E01 := B01 ^^ ((~~ B02) &&& B03) in
  let C1 := E01 in
  let E02 := B02 ^^ ((~~ B03) &&& B04) in
  let C2 := E02 in
  let E03 := B03 ^^ ((~~ B04) &&& B00) in
  let C3 := E03 in
  let E04 := B04 ^^ ((~~ B00) &&& B01) in
  let C4 := E04 in
  let A03 := A03 ^^ D3 in
  let B10 := (A03 << 28) ^^ (A03 >> (64 - 28)) in
  let A14 := A14 ^^ D4 in
  let B11 := (A14 << 20) ^^ (A14 >> (64 - 20)) in
  let A20 := A20 ^^ D0 in
  let B12 := (A20 << 3) ^^ (A20 >> (64 - 3)) in
  let A31 := A31 ^^ D1 in
  let B13 := (A31 << 45) ^^ (A31 >> (64 - 45)) in
  let A42 := A42 ^^ D2 in
  let B14 := (A42 << 61) ^^ (A42 >> (64 - 61)) in
  let E10 := B10 ^^ ((~~ B11) &&& B12) in
  let C0 := C0 ^^ E10 in
  let E11 := B11 ^^ ((~~ B12) &&& B13) in
  let C1 := C1 ^^ E11 in
  let E12 := B12 ^^ ((~~ B13) &&& B14) in
  let C2 := C2 ^^ E12 in
  let E13 := B13 ^^ ((~~ B14) &&& B10) in
  let C3 := C3 ^^ E13 in
  let E14 := B14 ^^ ((~~ B10) &&& B11) in
  let C4 := C4 ^^ E14 in
  let A01 := A01 ^^ D1 in
  let B20 := (A01 << 1) ^^ (A01 >> (64 - 1)) in
  let A12 := A12 ^^ D2 in
  let B21 := (A12 << 6) ^^ (A12 >> (64 - 6)) in
  let A23 := A23 ^^ D3 in
  let B22 := (A23 << 25) ^^ (A23 >> (64 - 25)) in
  let A34 := A34 ^^ D4 in
  let B23 := (A34 << 8) ^^ (A34 >> (64 - 8)) in
  let A40 := A40 ^^ D0 in
  let B24 := (A40 << 18) ^^ (A40 >> (64 - 18)) in
  let E20 := B20 ^^ ((~~ B21) &&& B22) in
  let C0 := C0 ^^ E20 in
  let E21 := B21 ^^ ((~~ B22) &&& B23) in
  let C1 := C1 ^^ E21 in
  let E22 := B22 ^^ ((~~ B23) &&& B24) in
  let C2 := C2 ^^ E22 in
  let E23 := B23 ^^ ((~~ B24) &&& B20) in
  let C3 := C3 ^^ E23 in
  let E24 := B24 ^^ ((~~ B20) &&& B21) in
  let C4 := C4 ^^ E24 in
  let A04 := A04 ^^ D4 in
  let B30 := (A04 << 27) ^^ (A04 >> (64 - 27)) in
  let A10 := A10 ^^ D0 in
  let B31 := (A10 << 36) ^^ (A10 >> (64 - 36)) in
  let A21 := A21 ^^ D1 in
  let B32 := (A21 << 10) ^^ (A21 >> (64 - 10)) in
  let A32 := A32 ^^ D2 in
  let B33 := (A32 << 15) ^^ (A32 >> (64 - 15)) in
  let A43 := A43 ^^ D3 in
  let B34 := (A43 << 56) ^^ (A43 >> (64 - 56)) in
  let E30 := B30 ^^ ((~~ B31) &&& B32) in
  let C0 := C0 ^^ E30 in
  let E31 := B31 ^^ ((~~ B32) &&& B33) in
  let C1 := C1 ^^ E31 in
  let E32 := B32 ^^ ((~~ B33) &&& B34) in
  let C2 := C2 ^^ E32 in
  let E33 := B33 ^^ ((~~ B34) &&& B30) in
  let C3 := C3 ^^ E33 in
  let E34 := B34 ^^ ((~~ B30) &&& B31) in
  let C4 := C4 ^^ E34 in
  let A02 := A02 ^^ D2 in
  let B40 := (A02 << 62) ^^ (A02 >> (64 - 62)) in
  let A13 := A13 ^^ D3 in
  let B41 := (A13 << 55) ^^ (A13 >> (64 - 55)) in
  let A24 := A24 ^^ D4 in
  let B42 := (A24 << 39) ^^ (A24 >> (64 - 39)) in
  let A30 := A30 ^^ D0 in
  let B43 := (A30 << 41) ^^ (A30 >> (64 - 41)) in
  let A41 := A41 ^^ D1 in
  let B44 := (A41 << 2) ^^ (A41 >> (64 - 2)) in
  let E40 := B40 ^^ ((~~ B41) &&& B42) in
  let C0 := C0 ^^ E40 in
  let E41 := B41 ^^ ((~~ B42) &&& B43) in
  let C1 := C1 ^^ E41 in
  let E42 := B42 ^^ ((~~ B43) &&& B44) in
  let C2 := C2 ^^ E42 in
  let E43 := B43 ^^ ((~~ B44) &&& B40) in
  let C3 := C3 ^^ E43 in
  let E44 := B44 ^^ ((~~ B40) &&& B41) in
  let C4 := C4 ^^ E44 in
  (Matrix E00 E01 E02 E03 E04
     E10 E11 E12 E13 E14
     E20 E21 E22 E23 E24
     E30 E31 E32 E33 E34
     E40 E41 E42 E43 E44,
   Parities C0 C1 C2 C3 C4).

Definition keccakf_1600_round_21 (E : matrix W) (C : parities W) : matrix W * parities W :=
  let '(Matrix E00 E01 E02 E03 E04
    E10 E11 E12 E13 E14
    E20 E21 E22 E23 E24
    E30 E31 E32 E33 E34
    E40 E41 E42 E43 E44) := E in
  let '(Parities C0 C1 C2 C3 C4) := C in
  let D0 := C4 ^^ ((C1 << 1) ^^ (C1 >> (64 - 1))) in
  let D1 := C0 ^^ ((C2 << 1) ^^ (C2 >> (64 - 1))) in
  let D2 := C1 ^^ ((C3 << 1) ^^ (C3 >> (64 - 1))) in
  let D3 := C2 ^^ ((C4 << 1) ^^ (C4 >> (64 - 1))) in
  let D4 := C3 ^^ ((C0 << 1) ^^ (C0 >> (64 - 1))) in
  let E00 := E00 ^^ D0 in
  let B00 := E00 in
  let E11 := E11 ^^ D1 in
  let B01 := (E11 << 44) ^^ (E11 >> (64 - 44)) in
  let E22 := E22 ^^ D2 in
  let B02 := (E22 << 43) ^^ (E22 >> (64 - 43)) in
  let E33 := E33 ^^ D3 in
  let B03 := (E33 << 21) ^^ (E33 >> (64 - 21)) in
  let E44 := E44 ^^ D4 in
  let B04 := (E44 << 14) ^^ (E44 >> (64 - 14)) in
  let A00 := B00 ^^ ((~~ B01) &&& B02) in
  let A00 := A00 ^^ splat (KECCAKF1600_ROUND_CONSTANTS 21) in
  let C0 := A00 in
  let A01 := B01 ^^ ((~~ B02) &&& B03) in
  let C1 := A01 in
  let A02 := B02 ^^ ((~~ B03) &&& B04) in
  let C2 := A02 in
  let A03 := B03 ^^ ((~~ B04) &&& B00) in
  let C3 := A03 in
  let A04 := B04 ^^ ((~~ B00) &&& B01) in
  let C4 := A04 in
  let E03 := E03 ^^ D3 in
  let B10 := (E03 << 28) ^^ (E03 >> (64 - 28)) in
  let E14 := E14 ^^ D4 in
  let B11 := (E14 << 20) ^^ (E14 >> (64 - 20)) in
  let E20 := E20 ^^ D0 in
  let B12 := (E20 << 3) ^^ (E20 >> (64 - 3)) in
  let E31 := E31 ^^ D1 in
  let B13 := (E31 << 45) ^^ (E31 >> (64 - 45)) in
  let E42 := E42 ^^ D2 in
  let B14 := (E42 << 61) ^^ (E42 >> (64 - 61)) in
  let A10 := B10 ^^ ((~~ B11) &&& B12) in
  let C0 := C0 ^^ A10 in
  let A11 := B11 ^^ ((~~ B12) &&& B13) in
  let C1 := C1 ^^ A11 in
  let A12 := B12 ^^ ((~~ B13) &&& B14) in
  let C2 := C2 ^^ A12 in
  let A13 := B13 ^^ ((~~ B14) &&& B10) in
  let C3 := C3 ^^ A13 in
  let A14 := B14 ^^ ((~~ B10) &&& B11) in
  let C4 := C4 ^^ A14 in
  let E01 := E01 ^^ D1 in
  let B20 := (E01 << 1) ^^ (E01 >> (64 - 1)) in
  let E12 := E12 ^^ D2 in
  let B21 := (E12 << 6) ^^ (E12 >> (64 - 6)) in
  let E23 := E23 ^^ D3 in
  let B22 := (E23 << 25) ^^ (E23 >> (64 - 25)) in
  let E34 := E34 ^^ D4 in
  let B23 := (E34 << 8) ^^ (E34 >> (64 - 8)) in
  let E40 := E40 ^^ D0 in
  let B24 := (E40 << 18) ^^ (E40 >> (64 - 18)) in
  let A20 := B20 ^^ ((~~ B21) &&& B22) in
  let C0 := C0 ^^ A20 in
  let A21 := B21 ^^ ((~~ B22) &&& B23) in
  let C1 := C1 ^^ A21 in
  let A22 := B22 ^^ ((~~ B23) &&& B24) in
  let C2 := C2 ^^ A22 in
  let A23 := B23 ^^ ((~~ B24) &&& B20) in
  let C3 := C3 ^^ A23 in
  let A24 := B24 ^^ ((~~ B20) &&& B21) in
  let C4 := C4 ^^ A24 in
  let E04 := E04 ^^ D4 in
  let B30 := (E04 << 27) ^^ (E04 >> (64 - 27)) in
  let E10 := E10 ^^ D0 in
  let B31 := (E10 << 36) ^^ (E10 >> (64 - 36)) in
  let E21 := E21 ^^ D1 in
  let B32 := (E21 << 10) ^^ (E21 >> (64 - 10)) in
  let E32 := E32 ^^ D2 in
  let B33 := (E32 << 15) ^^ (E32 >> (64 - 15)) in
  let E43 := E43 ^^ D3 in
  let B34 := (E43 << 56) ^^ (E43 >> (64 - 56)) in
  let A30 := B30 ^^ ((~~ B31) &&& B32) in
  let C0 := C0 ^^ A30 in
  let A31 := B31 ^^ ((~~ B32) &&& B33) in
  let C1 := C1 ^^ A31 in
  let A32 := B32 ^^ ((~~ B33) &&& B34) in
  let C2 := C2 ^^ A32 in
  let A33 := B33 ^^ ((~~ B34) &&& B30) in
  let C3 := C3 ^^ A33 in
  let A34 := B34 ^^ ((~~ B30) &&& B31) in
  let C4 := C4 ^^ A34 in
  let E02 := E02 ^^ D2 in
  let B40 := (E02 << 62) ^^ (E02 >> (64 - 62)) in
  let E13 := E13 ^^ D3 in
  let B41 := (E13 << 55) ^^ (E13 >> (64 - 55)) in
  let E24 := E24 ^^ D4 in
  let B42 := (E24 << 39) ^^ (E24 >> (64 - 39)) in
  let E30 := E30 ^^ D0 in
  let B43 := (E30 << 41) ^^ (E30 >> (64 - 41)) in
  let E41 := E41 ^^ D1 in
  let B44 := (E41 << 2) ^^ (E41 >> (64 - 2)) in
  let A40 := B40 ^^ ((~~ B41) &&& B42) in
  let C0 := C0 ^^ A40 in
  let A41 := B41 ^^ ((~~ B42) &&& B43) in
  let C1 := C1 ^^ A41 in
  let A42 := B42 ^^ ((~~ B43) &&& B44) in
  let C2 := C2 ^^ A42 in
  let A43 := B43 ^^ ((~~ B44) &&& B40) in
  let C3 := C3 ^^ A43 in
  let A44 := B44 ^^ ((~~ B40) &&& B41) in
  let C4 := C4 ^^ A44 in
  (Matrix A00 A01 A02 A03 A04
     A10 A11 A12 A13 A14
     A20 A21 A22 A23 A24
     A30 A31 A32 A33 A34
     A40 A41 A42 A43 A44,
   Parities C0 C1 C2 C3 C4).

Definition keccakf_1600_round_22 (A : matrix W) (C : parities W) : matrix W * parities W :=
  let '(Matrix A00 A01 A02 A03 A04
    A10 A11 A12 A13 A14
    A20 A21 A22 A23 A24
    A30 A31 A32 A33 A34
    A40 A41 A42 A43 A44) := A in
  let '(Parities C0 C1 C2 C3 C4) := C in
  let D0 := C4 ^^ ((C1 << 1) ^^ (C1 >> (64 - 1))) in
  let D1 := C0 ^^ ((C2 << 1) ^^ (C2 >> (64 - 1))) in
  let D2 := C1 ^^ ((C3 << 1) ^^ (C3 >> (64 - 1))) in
  let D3 := C2 ^^ ((C4 << 1) ^^ (C4 >> (64 - 1))) in
  let D4 := C3 ^^ ((C0 << 1) ^^ (C0 >> (64 - 1))) in
  let A00 := A00 ^^ D0 in
  let B00 := A00 in
  let A11 := A11 ^^ D1 in
  let B01 := (A11 << 44) ^^ (A11 >> (64 - 44)) in
  let A22 := A22 ^^ D2 in
  let B02 := (A22 << 43) ^^ (A22 >> (64 - 43)) in
  let A33 := A33 ^^ D3 in
  let B03 := (A33 << 21) ^^ (A33 >> (64 - 21)) in
  let A44 := A44 ^^ D4 in
  let B04 := (A44 << 14) ^^ (A44 >> (64 - 14)) in
  let E00 := B00 ^^ ((~~ B01) &&& B02) in
  let E00 := E00 ^^ splat (KECCAKF1600_ROUND_CONSTANTS 22) in
  let C0 := E00 in
  let E01 := B01 ^^ ((~~ B02) &&& B03) in
  let C1 := E01 in
  let E02 := B02 ^^ ((~~ B03) &&& B04) in
  let C2 := E02 in
  let E03 := B03 ^^ ((~~ B04) &&& B00) in
  let C3 := E03 in
  let E04 := B04 ^^ ((~~ B00) &&& B01) in
  let C4 := E04 in
  let A03 := A03 ^^ D3 in
  let B10 := (A03 << 28) ^^ (A03 >> (64 - 28)) in
  let A14 := A14 ^^ D4 in
  let B11 := (A14 << 20) ^^ (A14 >> (64 - 20)) in
  let A20 := A20 ^^ D0 in
  let B12 := (A20 << 3) ^^ (A20 >> (64 - 3)) in
  let A31 := A31 ^^ D1 in
  let B13 := (A31 << 45) ^^ (A31 >> (64 - 45)) in
  let A42 := A42 ^^ D2 in
  let B14 := (A42 << 61) ^^ (A42 >> (64 - 61)) in
  let E10 := B10 ^^ ((~~ B11) &&& B12) in
  let C0 := C0 ^^ E10 in
  let E11 := B11 ^^ ((~~ B12) &&& B13) in
  let C1 := C1 ^^ E11 in
  let E12 := B12 ^^ ((~~ B13) &&& B14) in
  let C2 := C2 ^^ E12 in
  let E13 := B13 ^^ ((~~ B14) &&& B10) in
  let C3 := C3 ^^ E13 in
  let E14 := B14 ^^ ((~~ B10) &&& B11) in
  let C4 := C4 ^^ E14 in
  let A01 := A01 ^^ D1 in
  let B20 := (A01 << 1) ^^ (A01 >> (64 - 1)) in
  let A12 := A12 ^^ D2 in
  let B21 := (A12 << 6) ^^ (A12 >> (64 - 6)) in
  let A23 := A23 ^^ D3 in
  let B22 := (A23 << 25) ^^ (A23 >> (64 - 25)) in
  let A34 := A34 ^^ D4 in
  let B23 := (A34 << 8) ^^ (A34 >> (64 - 8)) in
  let A40 := A40 ^^ D0 in
  let B24 := (A40 << 18) ^^ (A40 >> (64 - 18)) in
  let E20 := B20 ^^ ((~~ B21) &&& B22) in
  let C0 := C0 ^^ E20 in
  let E21 := B21 ^^ ((~~ B22) &&& B23) in
  let C1 := C1 ^^ E21 in
  let E22 := B22 ^^ ((~~ B23) &&& B24) in
  let C2 := C2 ^^ E22 in
  let E23 := B23 ^^ ((~~ B24) &&& B20) in
  let C3 := C3 ^^ E23 in
  let E24 := B24 ^^ ((~~ B20) &&& B21) in
  let C4 := C4 ^^ E24 in
  let A04 := A04 ^^ D4 in
  let B30 := (A04 << 27) ^^ (A04 >> (64 - 27)) in
  let A10 := A10 ^^ D0 in
  let B31 := (A10 << 36) ^^ (A10 >> (64 - 36)) in
  let A21 := A21 ^^ D1 in
  let B32 := (A21 << 10) ^^ (A21 >> (64 - 10)) in
  let A32 := A32 ^^ D2 in
  let B33 := (A32 << 15) ^^ (A32 >> (64 - 15)) in
  let A43 := A43 ^^ D3 in
  let B34 := (A43 << 56) ^^ (A43 >> (64 - 56)) in
  let E30 := B30 ^^ ((~~ B31) &&& B32) in
  let C0 := C0 ^^ E30 in
  let E31 := B31 ^^ ((~~ B32) &&& B33) in
  let C1 := C1 ^^ E31 in
  let E32 := B32 ^^ ((~~ B33) &&& B34) in
  let C2 := C2 ^^ E32 in
  let E33 := B33 ^^ ((~~ B34) &&& B30) in
  let C3 := C3 ^^ E33 in
  let E34 := B34 ^^ ((~~ B30) &&& B31) in
  let C4 := C4 ^^ E34 in
  let A02 := A02 ^^ D2 in
  let B40 := (A02 << 62) ^^ (A02 >> (64 - 62)) in
  let A13 := A13 ^^ D3 in
  let B41 := (A13 << 55) ^^ (A13 >> (64 - 55)) in
  let A24 := A24 ^^ D4 in
  let B42 := (A24 << 39) ^^ (A24 >> (64 - 39)) in
  let A30 := A30 ^^ D0 in
  let B43 := (A30 << 41) ^^ (A30 >> (64 - 41)) in
  let A41 := A41 ^^ D1 in
  let B44 := (A41 << 2) ^^ (A41 >> (64 - 2)) in
  let E40 := B40 ^^ ((~~ B41) &&& B42) in
  let C0 := C0 ^^ E40 in
  let E41 := B41 ^^ ((~~ B42) &&& B43) in
  let C1 := C1 ^^ E41 in
  let E42 := B42 ^^ ((~~ B43) &&& B44) in
  let C2 := C2 ^^ E42 in
  let E43 := B43 ^^ ((~~ B44) &&& B40) in
  let C3 := C3 ^^ E43 in
  let E44 := B44 ^^ ((~~ B40) &&& B41) in
  let C4 := C4 ^^ E44 in
  (Matrix E00 E01 E02 E03 E04
     E10 E11 E12 E13 E14
     E20 E21 E22 E23 E24
     E30 E31 E32 E33 E34
     E40 E41 E42 E43 E44,
   Parities C0 C1 C2 C3 C4).

Definition keccakf_1600_round_23 (E : matrix W) (C : parities W) : matrix W :=
  let '(Matrix E00 E01 E02 E03 E04
    E10 E11 E12 E13 E14
    E20 E21 E22 E23 E24
    E30 E31 E32 E33 E34
    E40 E41 E42 E43 E44) := E in
  let '(Parities C0 C1 C2 C3 C4) := C in
  let D0 := C4 ^^ ((C1 << 1) ^^ (C1 >> (64 - 1))) in
  let D1 := C0 ^^ ((C2 << 1) ^^ (C2 >> (64 - 1))) in
  let D2 := C1 ^^ ((C3 << 1) ^^ (C3 >> (64 - 1))) in
  let D3 := C2 ^^ ((C4 << 1) ^^ (C4 >> (64 - 1))) in
  let D4 := C3 ^^ ((C0 << 1) ^^ (C0 >> (64 - 1))) in
  let E00 := E00 ^^ D0 in
  let B00 := E00 in
  let E11 := E11 ^^ D1 in
  let B01 := (E11 << 44) ^^ (E11 >> (64 - 44)) in
  let E22 := E22 ^^ D2 in
  let B02 := (E22 << 43) ^^ (E22 >> (64 - 43)) in
  let E33 := E33 ^^ D3 in
  let B03 := (E33 << 21) ^^ (E33 >> (64 - 21)) in
  let E44 := E44 ^^ D4 in
  let B04 := (E44 << 14) ^^ (E44 >> (64 - 14)) in
  let A00 := B00 ^^ ((~~ B01) &&& B02) in
  let A00 := A00 ^^ splat (KECCAKF1600_ROUND_CONSTANTS 23) in
  let A01 := B01 ^^ ((~~ B02) &&& B03) in
  let A02 := B02 ^^ ((~~ B03) &&& B04) in
  let A03 := B03 ^^ ((~~ B04) &&& B00) in
  let A04 := B04 ^^ ((~~ B00) &&& B01) in
  let E03 := E03 ^^ D3 in
  let B10 := (E03 << 28) ^^ (E03 >> (64 - 28)) in
  let E14 := E14 ^^ D4 in
  let B11 := (E14 << 20) ^^ (E14 >> (64 - 20)) in
  let E20 := E20 ^^ D0 in
  let B12 := (E20 << 3) ^^ (E20 >> (64 - 3)) in
  let E31 := E31 ^^ D1 in
  let B13 := (E31 << 45) ^^ (E31 >> (64 - 45)) in
  let E42 := E42 ^^ D2 in
  let B14 := (E42 << 61) ^^ (E42 >> (64 - 61)) in
  let A10 := B10 ^^ ((~~ B11) &&& B12) in
  let A11 := B11 ^^ ((~~ B12) &&& B13) in
  let A12 := B12 ^^ ((~~ B13) &&& B14) in
  let A13 := B13 ^^ ((~~ B14) &&& B10) in
  let A14 := B14 ^^ ((~~ B10) &&& B11) in
  let E01 := E01 ^^ D1 in
  let B20 := (E01 << 1) ^^ (E01 >> (64 - 1)) in
  let E12 := E12 ^^ D2 in
  let B21 := (E12 << 6) ^^ (E12 >> (64 - 6)) in
  let E23 := E23 ^^ D3 in
  let B22 := (E23 << 25) ^^ (E23 >> (64 - 25)) in
  let E34 := E34 ^^ D4 in
  let B23 := (E34 << 8) ^^ (E34 >> (64 - 8)) in
  let E40 := E40 ^^ D0 in
  let B24 := (E40 << 18) ^^ (E40 >> (64 - 18)) in
  let A20 := B20 ^^ ((~~ B21) &&& B22) in
  let A21 := B21 ^^ ((~~ B22) &&& B23) in
  let A22 := B22 ^^ ((~~ B23) &&& B24) in
  let A23 := B23 ^^ ((~~ B24) &&& B20) in
  let A24 := B24 ^^ ((~~ B20) &&& B21) in
  let E04 := E04 ^^ D4 in
  let B30 := (E04 << 27) ^^ (E04 >> (64 - 27)) in
  let E10 := E10 ^^ D0 in
  let B31 := (E10 << 36) ^^ (E10 >> (64 - 36)) in
  let E21 := E21 ^^ D1 in
  let B32 := (E21 << 10) ^^ (E21 >> (64 - 10)) in
  let E32 := E32 ^^ D2 in
  let B33 := (E32 << 15) ^^ (E32 >> (64 - 15)) in
  let E43 := E43 ^^ D3 in
  let B34 := (E43 << 56) ^^ (E43 >> (64 - 56)) in
  let A30 := B30 ^^ ((~~ B31) &&& B32) in
  let A31 := B31 ^^ ((~~ B32) &&& B33) in
  let A32 := B32 ^^ ((~~ B33) &&& B34) in
  let A33 := B33 ^^ ((~~ B34) &&& B30) in
  let A34 := B34 ^^ ((~~ B30) &&& B31) in
  let E02 := E02 ^^ D2 in
  let B40 := (E02 << 62) ^^ (E02 >> (64 - 62)) in
  let E13 := E13 ^^ D3 in
  let B41 := (E13 << 55) ^^ (E13 >> (64 - 55)) in
  let E24 := E24 ^^ D4 in
  let B42 := (E24 << 39) ^^ (E24 >> (64 - 39)) in
  let E30 := E30 ^^ D0 in
  let B43 := (E30 << 41) ^^ (E30 >> (64 - 41)) in
  let E41 := E41 ^^ D1 in
  let B44 := (E41 << 2) ^^ (E41 >> (64 - 2)) in
  let A40 := B40 ^^ ((~~ B41) &&& B42) in
  let A41 := B41 ^^ ((~~ B42) &&& B43) in
  let A42 := B42 ^^ ((~~ B43) &&& B44) in
  let A43 := B43 ^^ ((~~ B44) &&& B40) in
  let A44 := B44 ^^ ((~~ B40) &&& B41) in
  Matrix A00 A01 A02 A03 A04
     A10 A11 A12 A13 A14
     A20 A21 A22 A23 A24
     A30 A31 A32 A33 A34
     A40 A41 A42 A43 A44.

Definition keccakf_1600 (A : matrix W) : matrix W :=
  let C := keccakf_1600_parities A in
  let (E, C) := keccakf_1600_round_0 A C in
  let (A, C) := keccakf_1600_round_1 E C in
  let (E, C) := keccakf_1600_round_2 A C in
  let (A, C) := keccakf_1600_round_3 E C in
  let (E, C) := keccakf_1600_round_4 A C in
  let (A, C) := keccakf_1600_round_5 E C in
  let (E, C) := keccakf_1600_round_6 A C in
  let (A, C) := keccakf_1600_round_7 E C in
  let (E, C) := keccakf_1600_round_8 A C in
  let (A, C) := keccakf_1600_round_9 E C in
  let (E, C) := keccakf_1600_round_10 A C in
  let (A, C) := keccakf_1600_round_11 E C in
  let (E, C) := keccakf_1600_round_12 A C in
  let (A, C) := keccakf_1600_round_13 E C in
  let (E, C) := keccakf_1600_round_14 A C in
  let (A, C) := keccakf_1600_round_15 E C in
  let (E, C) := keccakf_1600_round_16 A C in
  let (A, C) := keccakf_1600_round_17 E C in
  let (E, C) := keccakf_1600_round_18 A C in
  let (A, C) := keccakf_1600_round_19 E C in
  let (E, C) := keccakf_1600_round_20 A C in
  let (A, C) := keccakf_1600_round_21 E C in
  let (E, C) := keccakf_1600_round_22 A C in
  keccakf_1600_round_23 E C.
End permutation.
