(* ===== verification/KeccakSpec.v ===== *)
(** * Keccak, as FIPS 202 defines it

    An independent reference for the hash of the machine: the permutation on
    an array of bits, the sponge, and the padding.  Nothing here is taken from
    the program.  The function is the Keccak of the competition, with no
    domain bits before the padding, which is not SHA3-256. *)

From S2P Require Import Prelude.

(** ** The state array *)

(** Bit [x], [y], [z] for [0 <= x < 5], [0 <= y < 5] and [0 <= z < 64].  An
    index [x - 1] modulo 5 is written [x + 4]. *)
Definition state_array : Type := nat -> nat -> Z -> bool.

Definition column_parity (A : state_array) (x : nat) (z : Z) : bool :=
  xorb (xorb (xorb (xorb (A x 0%nat z) (A x 1%nat z)) (A x 2%nat z)) (A x 3%nat z)) (A x 4%nat z).

Definition theta (A : state_array) : state_array := fun x y z =>
  xorb (A x y z)
    (xorb (column_parity A ((x + 4) mod 5) z) (column_parity A ((x + 1) mod 5) ((z - 1) mod 64))).

(** The walk over the lanes in which the offsets of [rho] grow. *)
Definition rho_walk (t : nat) : nat * nat :=
  Nat.iter t (fun '(x, y) => (y, (2 * x + 3 * y) mod 5)%nat) (1, 0)%nat.

Definition rho_offset (x y : nat) : Z :=
  match find (fun t => bool_decide (rho_walk t = (x, y))) (seq 0 24) with
  | Some t => (Z.of_nat t + 1) * (Z.of_nat t + 2) / 2 mod 64
  | None => 0
  end.

Definition rho (A : state_array) : state_array := fun x y z => A x y ((z - rho_offset x y) mod 64).

Definition pi (A : state_array) : state_array := fun x y z => A ((x + 3 * y) mod 5)%nat x z.

Definition chi (A : state_array) : state_array := fun x y z =>
  xorb (A x y z) (negb (A ((x + 1) mod 5)%nat y z) && A ((x + 2) mod 5)%nat y z).

(** The linear feedback shift register of the round constants, with bit 0
    first. *)
Definition lfsr_step (R : list bool) : list bool :=
  match R with
  | [r0; r1; r2; r3; r4; r5; r6; r7] => [r7; r0; r1; r2; xorb r3 r7; xorb r4 r7; xorb r5 r7; r6]
  | _ => R
  end.

Definition rc (t : nat) : bool :=
  nth 0 (Nat.iter (t mod 255)%nat lfsr_step [true; false; false; false; false; false; false; false]) false.

Definition RC (ir : nat) (z : Z) : bool :=
  match find (fun j => z =? 2 ^ Z.of_nat j - 1) (seq 0 7) with
  | Some j => rc (j + 7 * ir)
  | None => false
  end.

Definition iota (ir : nat) (A : state_array) : state_array := fun x y z =>
  match x, y with
  | O, O => xorb (A x y z) (RC ir z)
  | _, _ => A x y z
  end.

Definition Rnd (A : state_array) (ir : nat) : state_array := iota ir (chi (pi (rho (theta A)))).

Definition keccak_f_array (A : state_array) : state_array := foldl Rnd A (seq 0 24).

(** ** The sponge, on strings of bits *)

(** A state of 1600 bits; bit [z] of lane [x], [y] is bit [64 (5 y + x) + z]. *)
Definition bit_state : Type := Z -> bool.

Definition to_array (S : bit_state) : state_array := fun x y z => S (64 * (5 * Z.of_nat y + Z.of_nat x) + z).

Definition of_array (A : state_array) : bit_state := fun i =>
  A (Z.to_nat (i / 64 mod 5)) (Z.to_nat (i / 64 / 5)) (i mod 64).

Definition keccak_f (S : bit_state) : bit_state := of_array (keccak_f_array (to_array S)).

(** The rate of Keccak with capacity 512. *)
Definition rate : nat := 1088.

(** [pad10*1] for a message of [m] bits. *)
Definition pad10_1 (m : nat) : list bool :=
  [true] ++ repeat false (Z.to_nat ((- Z.of_nat m - 2) mod Z.of_nat rate)) ++ [true].

(** The bits of [P] are added at the front of the state. *)
Definition add_block (S : bit_state) (P : list bool) : bit_state := fun i =>
  xorb (S i) (nth (Z.to_nat i) P false).

(** The message is cut into blocks of [rate] bits. *)
Definition absorb (fuel : nat) (S : bit_state) (P : list bool) : bit_state :=
  fold_blocks (fun S P => keccak_f (add_block S P)) rate fuel S P.

(** The first 256 bits of the state are the hash. *)
Definition keccak_bits (message : list bool) : list bool :=
  let P := message ++ pad10_1 (length message) in
  map (absorb (length P) (fun _ => false) P) (seqZ 0 256).

(** The bits of a byte string, lowest bit first. *)
Definition byte_bits (b : Z) : list bool := map (Z.testbit b) (seqZ 0 8).
Definition bytes_bits (bs : list Z) : list bool := mjoin (map byte_bits bs).
