(* ===== verification/KeccakFacts.v ===== *)
(** * The permutation computes Keccak-f[1600]

    Each round of the code is the composition of the five steps on lanes,
    whatever the type of vectors; on vectors of bits these are the steps of
    FIPS 202, and the simulations of SimdVector.v carry the result to words
    and to the lanes of vectors. *)

From S2P Require Import Prelude SimdVector Keccakf KeccakSpec.

(** ** Matrices by index: [A[y][x]] *)

Definition column {W} (a b c d e : W) (i : nat) : W :=
  match i with 0 => a | 1 => b | 2 => c | 3 => d | _ => e end%nat.

Definition get_cell {W} (A : matrix W) (y x : nat) : W :=
  let '(Matrix a00 a01 a02 a03 a04 a10 a11 a12 a13 a14 a20 a21 a22 a23 a24
               a30 a31 a32 a33 a34 a40 a41 a42 a43 a44) := A in
  column (column a00 a01 a02 a03 a04 x) (column a10 a11 a12 a13 a14 x) (column a20 a21 a22 a23 a24 x)
         (column a30 a31 a32 a33 a34 x) (column a40 a41 a42 a43 a44 x) y.

Definition make {W} (f : nat -> nat -> W) : matrix W :=
  (Matrix (f 0 0) (f 0 1) (f 0 2) (f 0 3) (f 0 4) (f 1 0) (f 1 1) (f 1 2) (f 1 3) (f 1 4)
          (f 2 0) (f 2 1) (f 2 2) (f 2 3) (f 2 4) (f 3 0) (f 3 1) (f 3 2) (f 3 3) (f 3 4)
          (f 4 0) (f 4 1) (f 4 2) (f 4 3) (f 4 4))%nat.

Lemma below_5 (P : nat -> Prop) : P 0%nat -> P 1%nat -> P 2%nat -> P 3%nat -> P 4%nat -> forall i, (i < 5)%nat -> P i.
Proof. intros ????? i Hi. by do 5 (destruct i as [|i]; [done|]); lia. Qed.

Lemma get_make {W} (f : nat -> nat -> W) y x : (y < 5)%nat -> (x < 5)%nat -> get_cell (make f) y x = f y x.
Proof. intros Hy Hx. revert y Hy. apply below_5; revert x Hx; by apply below_5. Qed.

Lemma mod_5 x : (x mod 5 < 5)%nat.
Proof. by apply Nat.mod_upper_bound. Qed.
#[local] Hint Resolve mod_5 : core.

Lemma rho_offset_range x y : 0 <= rho_offset x y < 64.
Proof. unfold rho_offset. destruct (find _ _); [by apply Z.mod_pos_bound|lia]. Qed.
#[local] Hint Resolve rho_offset_range : core.

(** ** The steps on lanes *)
Section lanes.
Context {W : Type} {V : WordVector W}.

Definition rotate (a : W) (n : Z) : W := if n =? 0 then a else wxor (wshl a n) (wshr a (64 - n)).

Definition parity_of (A : matrix W) (x : nat) : W :=
  let '(Parities c0 c1 c2 c3 c4) := keccakf_1600_parities A in column c0 c1 c2 c3 c4 x.

Lemma parity_cells A x :
  (x < 5)%nat ->
  parity_of A x =
  wxor (wxor (wxor (wxor (get_cell A 0 x) (get_cell A 1 x)) (get_cell A 2 x)) (get_cell A 3 x)) (get_cell A 4 x).
Proof using Type. revert x. destruct A. by apply below_5. Qed.

Definition theta_lanes (A : matrix W) : matrix W :=
  make (fun y x => wxor (get_cell A y x) (wxor (parity_of A ((x + 4) mod 5)) (rotate (parity_of A ((x + 1) mod 5)) 1))).
Definition rho_lanes (A : matrix W) : matrix W := make (fun y x => rotate (get_cell A y x) (rho_offset x y)).
Definition pi_lanes (A : matrix W) : matrix W := make (fun y x => get_cell A x ((x + 3 * y) mod 5)).
Definition chi_lanes (A : matrix W) : matrix W :=
  make (fun y x => wxor (get_cell A y x) (wand (wnot (get_cell A y ((x + 1) mod 5))) (get_cell A y ((x + 2) mod 5)))).
Definition iota_lanes (ir : nat) (A : matrix W) : matrix W :=
  make (fun y x => match y, x with
                   | O, O => wxor (get_cell A y x) (splat (KECCAKF1600_ROUND_CONSTANTS ir))
                   | _, _ => get_cell A y x
                   end).
Definition round_lanes (A : matrix W) (ir : nat) : matrix W :=
  iota_lanes ir (chi_lanes (pi_lanes (rho_lanes (theta_lanes A)))).

(** [round] is the round with index [ir] on lanes. *)
Definition is_round (round : matrix W -> parities W -> matrix W * parities W) (ir : nat) : Prop :=
  forall A, round A (keccakf_1600_parities A) = (round_lanes A ir, keccakf_1600_parities (round_lanes A ir)).

Definition first_rounds : list (matrix W -> parities W -> matrix W * parities W) :=
  [keccakf_1600_round_0; keccakf_1600_round_1; keccakf_1600_round_2; keccakf_1600_round_3;
   keccakf_1600_round_4; keccakf_1600_round_5; keccakf_1600_round_6; keccakf_1600_round_7;
   keccakf_1600_round_8; keccakf_1600_round_9; keccakf_1600_round_10; keccakf_1600_round_11;
   keccakf_1600_round_12; keccakf_1600_round_13; keccakf_1600_round_14; keccakf_1600_round_15;
   keccakf_1600_round_16; keccakf_1600_round_17; keccakf_1600_round_18; keccakf_1600_round_19;
   keccakf_1600_round_20; keccakf_1600_round_21; keccakf_1600_round_22].

Lemma rounds_are : Forall2 is_round first_rounds (seq 0 23).
Proof using Type. repeat constructor; intros []; reflexivity. Qed.

Lemma last_round A : keccakf_1600_round_23 A (keccakf_1600_parities A) = round_lanes A 23.
Proof using Type. by destruct A. Qed.

(** The rounds one after the other, as the code nests them. *)
Fixpoint chain (rounds : list (matrix W -> parities W -> matrix W * parities W)) (A : matrix W) (C : parities W) (last : matrix W -> parities W -> matrix W) : matrix W :=
  match rounds with
  | [] => last A C
  | r :: rounds => let (A, C) := r A C in chain rounds A C last
  end.

Lemma chain_is rounds irs A last :
  Forall2 is_round rounds irs ->
  chain rounds A (keccakf_1600_parities A) last =
  last (foldl round_lanes A irs) (keccakf_1600_parities (foldl round_lanes A irs)).
Proof using Type.
  intros H. revert A. induction H as [|r ir rounds irs Hr _ IH]; intros A; [done|]. cbn. by rewrite Hr, IH.
Qed.

Lemma keccakf_1600_rounds A : keccakf_1600 A = foldl round_lanes A (seq 0 24).
Proof using Type.
  transitivity (chain first_rounds A (keccakf_1600_parities A) keccakf_1600_round_23); [reflexivity|].
  rewrite (chain_is _ _ _ _ rounds_are), last_round. by rewrite (seq_S 23), foldl_app.
Qed.
End lanes.

(** ** The steps on bits are those of FIPS 202 *)
Section bits.
#[local] Instance bits_64 : WordVector (Z -> bool) := bits_ops 64.

Ltac bit_ops := cbn [wxor wand wnot splat bits_64 bits_ops].

(** The array of bits of a matrix, where it is defined. *)
Definition is_array (M : matrix (Z -> bool)) (A : state_array) : Prop :=
  forall x y z, (x < 5)%nat -> (y < 5)%nat -> 0 <= z < 64 -> get_cell M y x z = A x y z.

Lemma rotate_bit (b : Z -> bool) n z : 0 <= n < 64 -> 0 <= z < 64 -> rotate b n z = b ((z - n) mod 64).
Proof.
  intros Hn Hz. unfold rotate. destruct (Z.eqb_spec n 0) as [->|]; [rewrite Z.mod_small by lia; f_equal; lia|].
  cbn. destruct (Z.leb_spec n z).
  - rewrite (proj2 (Z.ltb_ge _ _)), Z.mod_small by lia. cbn. apply xorb_false_r.
  - rewrite (proj2 (Z.ltb_lt _ _)) by lia. cbn. f_equal. apply Z.mod_unique with (-1); lia.
Qed.

Lemma parity_bit M A x z : is_array M A -> (x < 5)%nat -> 0 <= z < 64 -> parity_of M x z = column_parity A x z.
Proof.
  intros H Hx Hz. unfold column_parity. rewrite <-!H by lia. by rewrite parity_cells.
Qed.

Lemma mod_64 z : 0 <= z mod 64 < 64.
Proof. by apply Z.mod_pos_bound. Qed.
#[local] Hint Resolve mod_64 : core.

Lemma theta_bits M A : is_array M A -> is_array (theta_lanes M) (theta A).
Proof.
  intros H x y z Hx Hy Hz. unfold theta_lanes. rewrite get_make by done. bit_ops.
  rewrite rotate_bit, H, !(parity_bit M A) by (done || lia). done.
Qed.

Lemma rho_bits M A : is_array M A -> is_array (rho_lanes M) (rho A).
Proof. intros H x y z Hx Hy Hz. unfold rho_lanes. rewrite get_make, rotate_bit, H by done. done. Qed.

Lemma pi_bits M A : is_array M A -> is_array (pi_lanes M) (pi A).
Proof. intros H x y z Hx Hy Hz. unfold pi_lanes. by rewrite get_make, H by done. Qed.

Lemma chi_bits M A : is_array M A -> is_array (chi_lanes M) (chi A).
Proof. intros H x y z Hx Hy Hz. unfold chi_lanes. rewrite get_make by done. bit_ops. by rewrite !H by done. Qed.

Lemma round_constants ir z : (ir < 24)%nat -> 0 <= z < 64 -> Z.testbit (KECCAKF1600_ROUND_CONSTANTS ir) z = RC ir z.
Proof.
  intros Hir Hz.
  assert (Hall : forallb (fun ir => forallb (fun z =>
      eqb (Z.testbit (KECCAKF1600_ROUND_CONSTANTS ir) z) (RC ir z)) (seqZ 0 64)) (seq 0 24) = true) by by vm_compute.
  rewrite forallb_forall in Hall. specialize (Hall ir ltac:(apply in_seq; lia)).
  rewrite forallb_forall in Hall. apply eqb_prop, Hall, list_elem_of_In, elem_of_seqZ. lia.
Qed.

Lemma round_constant_range ir : (ir < 24)%nat -> is_u 64 (KECCAKF1600_ROUND_CONSTANTS ir).
Proof. intros Hir. do 24 (destruct ir as [|ir]; [by apply (bool_decide_unpack _)|]). lia. Qed.

Lemma iota_bits ir M A : (ir < 24)%nat -> is_array M A -> is_array (iota_lanes ir M) (iota ir A).
Proof.
  intros Hir H x y z Hx Hy Hz. unfold iota_lanes, iota. rewrite get_make by done.
  destruct y, x; [|by apply H..]. bit_ops. by rewrite H, round_constants.
Qed.

Lemma rounds_bits irs M A :
  Forall (fun ir => ir < 24)%nat irs -> is_array M A -> is_array (foldl round_lanes M irs) (foldl Rnd A irs).
Proof.
  intros Hirs. revert M A. induction Hirs as [|ir irs Hir _ IH]; intros M A H; [done|].
  apply IH, iota_bits, chi_bits, pi_bits, rho_bits, theta_bits; done.
Qed.

Lemma keccakf_1600_bits M A : is_array M A -> is_array (keccakf_1600 M) (keccak_f_array A).
Proof. rewrite keccakf_1600_rounds. apply rounds_bits. apply Forall_seq. lia. Qed.
End bits.

(** ** Related matrices *)

Definition matrix_rel {V W} (R : V -> W -> Prop) (A : matrix V) (B : matrix W) : Prop :=
  forall y x, (y < 5)%nat -> (x < 5)%nat -> R (get_cell A y x) (get_cell B y x).

Section sim.
Context {V W : Type} {v : WordVector V} {w : WordVector W} (R : V -> W -> Prop) `{!WordSim 64 v w R}.

Lemma matrix_rel_make f g :
  (forall y x, (y < 5)%nat -> (x < 5)%nat -> R (f y x) (g y x)) -> matrix_rel R (make f) (make g).
Proof using Type. intros H y x Hy Hx. rewrite !get_make by done. by apply H. Qed.

Lemma rotate_sim a b n : 0 <= n < 64 -> R a b -> R (rotate a n) (rotate b n).
Proof using All. intros Hn H. unfold rotate. case_match; [done|]. apply sim_xor; [apply sim_shl|apply sim_shr]; lia || done. Qed.

Lemma parity_sim A B x : matrix_rel R A B -> (x < 5)%nat -> R (parity_of A x) (parity_of B x).
Proof using All. intros H Hx. rewrite !parity_cells by done. repeat apply sim_xor; apply H; lia. Qed.

Lemma theta_sim A B : matrix_rel R A B -> matrix_rel R (theta_lanes A) (theta_lanes B).
Proof using All.
  intros H. apply matrix_rel_make. intros y x Hy Hx.
  repeat first [apply rotate_sim | apply parity_sim | apply sim_xor]; lia || auto.
Qed.

Lemma rho_sim A B : matrix_rel R A B -> matrix_rel R (rho_lanes A) (rho_lanes B).
Proof using All. intros H. apply matrix_rel_make. intros y x Hy Hx. apply rotate_sim; auto. Qed.

Lemma pi_sim A B : matrix_rel R A B -> matrix_rel R (pi_lanes A) (pi_lanes B).
Proof using Type. intros H. apply matrix_rel_make. intros y x Hy Hx. auto. Qed.

Lemma chi_sim A B : matrix_rel R A B -> matrix_rel R (chi_lanes A) (chi_lanes B).
Proof using All.
  intros H. apply matrix_rel_make. intros y x Hy Hx.
  repeat first [apply sim_xor | apply sim_and | apply sim_not]; auto.
Qed.

Lemma iota_sim ir A B : (ir < 24)%nat -> matrix_rel R A B -> matrix_rel R (iota_lanes ir A) (iota_lanes ir B).
Proof using All.
  intros Hir H. apply matrix_rel_make. intros y x Hy Hx. destruct y, x; try by apply H.
  apply sim_xor; [by apply H|]. by apply sim_splat, round_constant_range.
Qed.

(** The permutation respects every relation that the operations respect. *)
Lemma keccakf_1600_sim A B : matrix_rel R A B -> matrix_rel R (keccakf_1600 A) (keccakf_1600 B).
Proof using All.
  rewrite !keccakf_1600_rounds. assert (Hirs : Forall (fun ir => ir < 24)%nat (seq 0 24)) by (apply Forall_seq; lia).
  revert A B. induction Hirs as [|ir irs Hir _ IH]; intros A B H; [done|].
  apply IH, iota_sim, chi_sim, pi_sim, rho_sim, theta_sim; done.
Qed.
End sim.

(** ** The permutation on words *)

(** The words of a matrix have the bits of an array. *)
Definition words_are (A : matrix Z) (S : state_array) : Prop :=
  forall x y, (x < 5)%nat -> (y < 5)%nat -> bits_are 64 (get_cell A y x) (S x y).

Lemma keccakf_1600_words A S :
  words_are A S -> words_are (@keccakf_1600 _ (word_ops 64) A) (keccak_f_array S).
Proof.
  intros H.
  assert (Hsim : matrix_rel (bits_are 64) (@keccakf_1600 _ (word_ops 64) A)
                   (@keccakf_1600 _ (bits_ops 64) (make (fun y x => S x y)))).
  { apply keccakf_1600_sim; [apply bits_sim; lia|]. intros y x Hy Hx. rewrite get_make by done. by apply H. }
  intros x y Hx Hy. destruct (Hsim y x Hy Hx) as [Hr Hb]. split; [done|].
  intros z Hz. rewrite Hb by done. apply (keccakf_1600_bits _ S); [|done..].
  intros x' y' z' Hx' Hy' Hz'. by rewrite get_make.
Qed.
