(* ===== verification/Keccak256.v ===== *)
(** * Keccak-256 on several messages at once (src/keccak-256-hasher.cpp, src/keccak-256-hasher.hpp)

    A context hashes [LaneCount] messages of the same length in the lanes of
    its words.  A message is a list of bytes; the words [m_words[5][5]] are in
    the order of memory.  [DataExtent] is [None] for spans of dynamic extent,
    which are absorbed byte by byte. *)

From S2P Require Import Prelude SimdVector Keccakf.

Definition MACHINE_HASH_SIZE : Z := 32.
Definition KECCAK_WORD_COUNT : Z := 25.
Definition KECCAK_RSIZE : Z := KECCAK_WORD_COUNT * 8 - 2 * MACHINE_HASH_SIZE.

(** The array of words as the argument of the permutation. *)
Definition to_matrix {W} (words : list W) : option (matrix W) :=
  match words with
  | [a00; a01; a02; a03; a04; a10; a11; a12; a13; a14; a20; a21; a22; a23; a24;
     a30; a31; a32; a33; a34; a40; a41; a42; a43; a44] =>
      Some (Matrix a00 a01 a02 a03 a04 a10 a11 a12 a13 a14 a20 a21 a22 a23 a24
                   a30 a31 a32 a33 a34 a40 a41 a42 a43 a44)
  | _ => None
  end.

Definition of_matrix {W} (A : matrix W) : list W :=
  let '(Matrix a00 a01 a02 a03 a04 a10 a11 a12 a13 a14 a20 a21 a22 a23 a24
               a30 a31 a32 a33 a34 a40 a41 a42 a43 a44) := A in
  [a00; a01; a02; a03; a04; a10; a11; a12; a13; a14; a20; a21; a22; a23; a24;
   a30; a31; a32; a33; a34; a40; a41; a42; a43; a44].

Section context.
Context (LaneCount : nat) (DataExtent : option Z).

#[local] Instance keccak_256_ops : WordVector (list Z) := lanes_ops 64 LaneCount.

(** [m_words] *)
Definition keccak_256_words : Type := list (list Z).

Definition keccak_256_init : keccak_256_words := replicate 25 (replicate LaneCount 0).

(** The call [keccakf_1600(m_words)], which works in place. *)
Definition permute (m_words : keccak_256_words) : keccak_256_words :=
  match to_matrix m_words with Some A => of_matrix (keccakf_1600 A) | None => m_words end.

(** [words_bytes[bi][l][bj] ^= data[l][i + j]] for each lane [l] *)
Definition xor_data_byte (data : list (list Z)) (pos i : Z) (m_words : keccak_256_words) (j : Z) : keccak_256_words :=
  let bi := (pos + j) / 8 in
  let bj := (pos + j) mod 8 in
  alter (fun word => zip_with (fun x d => Z.lxor x (Z.shiftl (nth (Z.to_nat (i + j)) d 0) (8 * bj))) word data)
        (Z.to_nat bi) m_words.

(** [m_words[((pos + j) / 8) / 5][((pos + j) / 8) % 5] ^= data_word] *)
Definition xor_data_word (data : list (list Z)) (pos i : Z) (m_words : keccak_256_words) (j : Z) : keccak_256_words :=
  let data_word := map (fun d => le_value (take 8 (drop (Z.to_nat (i + j)) d))) data in
  alter (fun word => wxor word data_word) (Z.to_nat ((pos + j) / 8)) m_words.

(** A step of the loop: [step] bytes of every message. *)
Definition absorb_step (data : list (list Z)) (pos i step : Z) (m_words : keccak_256_words) : keccak_256_words :=
  let by_words := match DataExtent with Some extent => extent mod 8 =? 0 | None => false end in
  if by_words then foldl (xor_data_word data pos i) m_words (map (Z.mul 8) (seqZ 0 ((step + 7) / 8)))
  else foldl (xor_data_byte data pos i) m_words (seqZ 0 step).

(** Each step absorbs at least a byte, so [fuel] is the length of the data. *)
Fixpoint keccak_256_update_loop (fuel : nat) (data : list (list Z)) (data_len i : Z) (m_words : keccak_256_words) (pos : Z) :
    keccak_256_words * Z :=
  match fuel with
  | O => (m_words, pos)
  | S fuel =>
      if i <? data_len then
        let step := Z.min (KECCAK_RSIZE - pos) (data_len - i) in
        let m_words := absorb_step data pos i step m_words in
        let i := i + step in
        let pos := pos + step in
        if KECCAK_RSIZE <=? pos then keccak_256_update_loop fuel data data_len i (permute m_words) 0
        else keccak_256_update_loop fuel data data_len i m_words pos
      else (m_words, pos)
  end.

Definition keccak_256_update (m_words : keccak_256_words) (pos : Z) (data : list (list Z)) : keccak_256_words * Z :=
  let data_len := Z.of_nat (length (nth 0 data [])) in
  keccak_256_update_loop (Z.to_nat data_len) data data_len 0 m_words pos.

Definition keccak_256_finish (m_words : keccak_256_words) (pos : Z) : list (list Z) :=
  let KECCAK_DSUFFIX := 0x01 in
  let dsuffix_word_pos := pos / 8 in
  let dsuffix_byte_pos := pos mod 8 in
  let m_words := alter (fun word => wxor word (splat (uint64 (Z.shiftl KECCAK_DSUFFIX (dsuffix_byte_pos * 8)))))
                       (Z.to_nat dsuffix_word_pos) m_words in
  let KECCAK_LASTBIT := 0x80 in
  let lastbit_word_pos := (KECCAK_RSIZE - 1) / 8 in
  let lastbit_byte_pos := (KECCAK_RSIZE - 1) mod 8 in
  let m_words := alter (fun word => wxor word (splat (uint64 (Z.shiftl KECCAK_LASTBIT (lastbit_byte_pos * 8)))))
                       (Z.to_nat lastbit_word_pos) m_words in
  let m_words := permute m_words in
  map (fun l => mjoin (map (fun i => le_bytes 8 (nth l (nth (Z.to_nat (i / 8)) m_words []) 0)) [0; 8; 16; 24]))
      (seq 0 LaneCount).

(** [data] has, for each part of the messages, that part of each message. *)
Definition keccak_256_simd_concat_hash (data : list (list (list Z))) : list (list Z) :=
  let '(m_words, pos) := foldl (fun '(m_words, pos) d => keccak_256_update m_words pos d) (keccak_256_init, 0) data in
  keccak_256_finish m_words pos.
End context.

(** ** The functions for each number of messages *)

Definition word_extent : option Z := Some 32.

Definition keccak_256_data_1x1 := keccak_256_simd_concat_hash 1 None.
Definition keccak_256_word_1x1 := keccak_256_simd_concat_hash 1 word_extent.
Definition keccak_256_word_1x2 := keccak_256_simd_concat_hash 2 word_extent.
Definition keccak_256_word_1x4 := keccak_256_simd_concat_hash 4 word_extent.
Definition keccak_256_word_1x8 := keccak_256_simd_concat_hash 8 word_extent.
Definition keccak_256_data_2x1 := keccak_256_simd_concat_hash 1 None.
Definition keccak_256_hash_2x1 := keccak_256_simd_concat_hash 1 word_extent.
Definition keccak_256_hash_2x2 := keccak_256_simd_concat_hash 2 word_extent.
Definition keccak_256_hash_2x4 := keccak_256_simd_concat_hash 4 word_extent.
Definition keccak_256_hash_2x8 := keccak_256_simd_concat_hash 8 word_extent.

(** Sixteen messages are two runs of eight. *)
Definition do_simd_concat_hash_1x16 (data : list (list (list Z))) : list (list Z) :=
  keccak_256_word_1x8 (map (take 8) data) ++ keccak_256_word_1x8 (map (drop 8) data).
Definition do_simd_concat_hash_2x16 (data : list (list (list Z))) : list (list Z) :=
  keccak_256_hash_2x8 (map (take 8) data) ++ keccak_256_hash_2x8 (map (drop 8) data).

(** [do_simd_concat_hash], by the counts and whether the extent is dynamic;
    other instances of the template are not defined. *)
Definition keccak_256_do_simd_concat_hash (ConcatCount LaneCount : nat) (dynamic_extent : bool)
    (data : list (list (list Z))) : option (list (list Z)) :=
  match ConcatCount, LaneCount, dynamic_extent with
  | 1, 1, true => Some (keccak_256_data_1x1 data)
  | 1, 1, false => Some (keccak_256_word_1x1 data)
  | 1, 2, false => Some (keccak_256_word_1x2 data)
  | 1, 4, false => Some (keccak_256_word_1x4 data)
  | 1, 8, false => Some (keccak_256_word_1x8 data)
  | 1, 16, false => Some (do_simd_concat_hash_1x16 data)
  | 2, 1, true => Some (keccak_256_data_2x1 data)
  | 2, 1, false => Some (keccak_256_hash_2x1 data)
  | 2, 2, false => Some (keccak_256_hash_2x2 data)
  | 2, 4, false => Some (keccak_256_hash_2x4 data)
  | 2, 8, false => Some (keccak_256_hash_2x8 data)
  | 2, 16, false => Some (do_simd_concat_hash_2x16 data)
  | _, _, _ => None
  end%nat.
