(* ===== verification/Keccak256Facts.v ===== *)
(** * The sponge of Keccak-256

    What each loop of the context adds to the state of a lane, and the
    invariant that relates the state to the part of the message absorbed so
    far. *)

From S2P Require Import Prelude SimdVector Keccakf KeccakSpec KeccakFacts Keccak256.

(** ** States of 1600 bits *)

Definition state_eq (S T : bit_state) : Prop := forall i, 0 <= i < 1600 -> S i = T i.

#[export] Instance state_eq_equiv : Equivalence state_eq.
Proof.
  split; [by intros S i | by intros S T H i Hi; rewrite H|].
  intros S T U H1 H2 i Hi. by rewrite H1, H2.
Qed.

Definition add_bits (S : bit_state) (off : Z) (P : list bool) : bit_state := fun i =>
  xorb (S i) ((off <=? i) && nth (Z.to_nat (i - off)) P false).

#[export] Instance add_bits_proper : Proper (state_eq ==> eq ==> eq ==> state_eq) add_bits.
Proof. intros S T H off ? <- P ? <- i Hi. unfold add_bits. by rewrite H. Qed.

Lemma add_block_bits S P : state_eq (add_block S P) (add_bits S 0 P).
Proof. intros i Hi. unfold add_block, add_bits. by rewrite (proj2 (Z.leb_le 0 i)), Z.sub_0_r by lia. Qed.

Lemma add_bits_app S off P Q :
  0 <= off -> state_eq (add_bits (add_bits S off P) (off + Z.of_nat (length P)) Q) (add_bits S off (P ++ Q)).
Proof.
  intros Hoff i Hi. unfold add_bits. rewrite xorb_assoc. f_equal.
  destruct (Z.leb_spec off i); cbn [andb]; [|by rewrite (proj2 (Z.leb_gt _ _)) by lia].
  destruct (Z.leb_spec (off + Z.of_nat (length P)) i); cbn [andb].
  - rewrite nth_overflow by lia. rewrite app_nth2 by lia. cbn. f_equal. lia.
  - rewrite app_nth1 by lia. apply xorb_false_r.
Qed.

Lemma add_bits_nil S off : state_eq (add_bits S off []) S.
Proof. intros i Hi. unfold add_bits. rewrite nth_overflow by (cbn; lia). by rewrite andb_false_r, xorb_false_r. Qed.

(** The permutation only reads the 1600 bits. *)
#[export] Instance keccak_f_proper : Proper (state_eq ==> state_eq) keccak_f.
Proof.
  intros S T H i Hi. unfold keccak_f, of_array.
  set (M := make (fun y x => to_array S x y)).
  assert (HS : is_array M (to_array S)) by (intros x y z Hx Hy Hz; unfold M; by rewrite get_make).
  assert (HT : is_array M (to_array T)).
  { intros x y z Hx Hy Hz. rewrite HS by done. unfold to_array. apply H. lia. }
  rewrite <-(keccakf_1600_bits M _ HS), <-(keccakf_1600_bits M _ HT); [done|..];
    pose proof (Z.mod_pos_bound (i / 64) 5); pose proof (Z.mod_pos_bound i 64);
    assert (i / 64 / 5 < 5) by (rewrite Z.div_div by lia; apply Z.div_lt_upper_bound; lia);
    assert (0 <= i / 64 / 5) by (apply Z.div_pos; [apply Z.div_pos|]; lia); lia.
Qed.

(** ** Bits of bytes *)

Lemma length_byte_bits b : length (byte_bits b) = 8%nat.
Proof. done. Qed.

Lemma bytes_bits_cons b bs : bytes_bits (b :: bs) = byte_bits b ++ bytes_bits bs.
Proof. done. Qed.

Lemma bytes_bits_app bs cs : bytes_bits (bs ++ cs) = bytes_bits bs ++ bytes_bits cs.
Proof. unfold bytes_bits. by rewrite map_app, join_app. Qed.

Lemma length_bytes_bits bs : length (bytes_bits bs) = (8 * length bs)%nat.
Proof. induction bs as [|b bs IH]; [done|]. rewrite bytes_bits_cons, length_app, IH, length_byte_bits. cbn [length]. lia. Qed.

Lemma nth_byte_bits b n : is_u 8 b -> nth n (byte_bits b) false = Z.testbit b (Z.of_nat n).
Proof.
  intros Hb. destruct (decide (n < 8)%nat) as [Hn|Hn].
  - unfold byte_bits. do 8 (destruct n as [|n]; [done|]). lia.
  - rewrite nth_overflow by (rewrite length_byte_bits; lia). symmetry. apply (is_u_testbit 8); [done|lia].
Qed.

(** A number in little-endian order has the bits of its bytes. *)
Lemma testbit_le_value bs n :
  Forall (is_u 8) bs -> Z.testbit (le_value bs) (Z.of_nat n) = nth n (bytes_bits bs) false.
Proof.
  intros Hbs. revert n. induction Hbs as [|b bs Hb Hbs IH]; intros n; [by destruct n; rewrite Z.bits_0|].
  rewrite bytes_bits_cons. unfold le_value in *. cbn. rewrite Z.lor_spec, Z.shiftl_spec by lia.
  destruct (decide (n < 8)%nat).
  - rewrite app_nth1 by (rewrite length_byte_bits; lia). rewrite (Z.testbit_neg_r _ (Z.of_nat n - 8)), orb_false_r by lia.
    by rewrite nth_byte_bits.
  - rewrite app_nth2 by (rewrite length_byte_bits; lia). rewrite length_byte_bits, <-IH.
    rewrite (is_u_testbit 8 b) by (done || lia). cbn. f_equal. lia.
Qed.

Lemma le_value_range bs : Forall (is_u 8) bs -> is_u (8 * Z.of_nat (length bs)) (le_value bs).
Proof.
  intros Hbs. apply testbit_is_u; [lia|]. intros i Hi. replace i with (Z.of_nat (Z.to_nat i)) by lia.
  rewrite testbit_le_value by done. apply nth_overflow. rewrite length_bytes_bits. lia.
Qed.

Lemma lxor_range w x y : 0 <= w -> is_u w x -> is_u w y -> is_u w (Z.lxor x y).
Proof.
  intros Hw Hx Hy. apply testbit_is_u; [done|]. intros i Hi. by rewrite Z.lxor_spec, !(is_u_testbit w) by (done || lia).
Qed.

Lemma shl_byte_range x k : 0 <= k <= 56 -> is_u 8 x -> is_u 64 (Z.shiftl x k).
Proof.
  intros Hk Hx. apply testbit_is_u; [lia|]. intros i Hi. rewrite Z.shiftl_spec by lia.
  apply (is_u_testbit 8); [done|lia].
Qed.

(** ** The words of a lane *)
Section lanes.
Context (LaneCount : nat).

Definition lane_word (words : list (list Z)) (k : nat) (l : nat) : Z := nth l (nth k words []) 0.

Definition lane_state (words : list (list Z)) (l : nat) : bit_state := fun i =>
  Z.testbit (lane_word words (Z.to_nat (i / 64)) l) (i mod 64).

Definition lanes_ok (v : list Z) : Prop := length v = LaneCount /\ Forall (is_u 64) v.
Definition words_ok (words : list (list Z)) : Prop := length words = 25%nat /\ Forall lanes_ok words.

Lemma lane_word_range words k l : words_ok words -> is_u 64 (lane_word words k l).
Proof using Type.
  intros [Hlen Hok]. unfold lane_word. rewrite !nth_lookup.
  destruct (words !! k) as [v|] eqn:Hk; cbn; [|by destruct l].
  destruct (Forall_lookup_1 _ _ _ _ Hok Hk) as [_ Hr].
  destruct (v !! l) as [x|] eqn:Hl; cbn; [by apply (Forall_lookup_1 _ _ _ _ Hr Hl)|done].
Qed.

(** Exclusive or of the vector [g] into word [k]. *)
Definition xor_at (k : nat) (g : list Z) (words : list (list Z)) : list (list Z) :=
  alter (fun word => zip_with Z.lxor word g) k words.

Lemma xor_at_ok k g words : words_ok words -> lanes_ok g -> words_ok (xor_at k g words).
Proof using Type.
  intros [Hlen Hok] [Hg Hr]. split; [by unfold xor_at; rewrite length_alter|].
  apply Forall_lookup_2. intros j v Hj. unfold xor_at in Hj.
  destruct (decide (j = k)) as [->|]; [|rewrite list_lookup_alter_ne in Hj by done; by eapply Forall_lookup_1].
  rewrite list_lookup_alter_eq in Hj. apply fmap_Some in Hj as (w & Hw & ->).
  destruct (Forall_lookup_1 _ _ _ _ Hok Hw) as [Hl Hwr]. split; [rewrite length_zip_with; lia|].
  apply Forall_lookup_2. intros i z Hz. rewrite lookup_zip_with in Hz.
  apply bind_Some in Hz as (x & Hx & Hz). apply bind_Some in Hz as (y & Hy & [= <-]).
  apply (lxor_range 64); [lia|by apply (Forall_lookup_1 _ _ _ _ Hwr Hx)|by apply (Forall_lookup_1 _ _ _ _ Hr Hy)].
Qed.

Lemma xor_at_word k g words j l :
  words_ok words -> length g = LaneCount -> (k < 25)%nat -> (l < LaneCount)%nat ->
  lane_word (xor_at k g words) j l =
  if decide (j = k) then Z.lxor (lane_word words j l) (nth l g 0) else lane_word words j l.
Proof using Type.
  intros [Hlen Hok] Hg Hk Hl. unfold lane_word, xor_at.
  case_decide as E; [subst j|by rewrite !nth_lookup, list_lookup_alter_ne by congruence].
  destruct (lookup_lt_is_Some_2 words k ltac:(lia)) as [w Hw].
  destruct (Forall_lookup_1 _ _ _ _ Hok Hw) as [Hwl _].
  rewrite !(nth_lookup _ k), list_lookup_alter_eq, Hw. cbn [fmap option_fmap option_map default id].
  rewrite !nth_lookup, lookup_zip_with.
  destruct (lookup_lt_is_Some_2 w l ltac:(lia)) as [x ->].
  destruct (lookup_lt_is_Some_2 g l ltac:(lia)) as [y ->]. done.
Qed.

(** It adds bits to the state of each lane, where [g] has them. *)
Lemma xor_at_state k g words l P off :
  words_ok words -> length g = LaneCount -> (k < 25)%nat -> (l < LaneCount)%nat -> 0 <= off ->
  off / 64 = Z.of_nat k -> off mod 64 + Z.of_nat (length P) <= 64 ->
  (forall n, 0 <= n < 64 -> Z.testbit (nth l g 0) n = (off mod 64 <=? n) && nth (Z.to_nat (n - off mod 64)) P false) ->
  state_eq (lane_state (xor_at k g words) l) (add_bits (lane_state words l) off P).
Proof using Type.
  intros Hok Hg Hk Hl Hoff Hk' HP Hbits i Hi. unfold lane_state, add_bits. rewrite xor_at_word by done.
  pose proof (Z.div_mod i 64 ltac:(lia)). pose proof (Z.mod_pos_bound i 64 ltac:(lia)).
  pose proof (Z.div_mod off 64 ltac:(lia)). pose proof (Z.mod_pos_bound off 64 ltac:(lia)).
  assert (0 <= i / 64) by (apply Z.div_pos; lia).
  case_decide as E.
  - rewrite Z.lxor_spec, Hbits by lia. f_equal.
    replace (i - off) with (i mod 64 - off mod 64) by lia.
    destruct (Z.leb_spec off i), (Z.leb_spec (off mod 64) (i mod 64)); done || lia.
  - destruct (Z.leb_spec off i); cbn [andb]; [|by rewrite xorb_false_r].
    rewrite nth_overflow by lia. by rewrite xorb_false_r.
Qed.

(** ** What the loops absorb *)

(** [words'] is [words] with the bytes [bs l] added to lane [l] from byte [pos]. *)
Definition adds (words words' : list (list Z)) (pos : Z) (bs : nat -> list Z) : Prop :=
  words_ok words' /\
  forall l, (l < LaneCount)%nat ->
    state_eq (lane_state words' l) (add_bits (lane_state words l) (8 * pos) (bytes_bits (bs l))).

Lemma adds_ok words words' pos bs : adds words words' pos bs -> words_ok words'.
Proof using Type. by intros []. Qed.

Lemma adds_nil words pos : words_ok words -> adds words words pos (fun _ => []).
Proof using Type. intros Hok. split; [done|]. intros l Hl. by rewrite add_bits_nil. Qed.

Lemma adds_app words words1 words2 pos pos' bs cs :
  0 <= pos -> (forall l, (l < LaneCount)%nat -> pos' = pos + Z.of_nat (length (bs l))) ->
  adds words words1 pos bs -> adds words1 words2 pos' cs -> adds words words2 pos (fun l => bs l ++ cs l).
Proof using Type.
  intros Hpos Hlen [_ H1] [Hok H2]. split; [done|]. intros l Hl.
  rewrite (H2 l Hl), (H1 l Hl), bytes_bits_app, <-add_bits_app by lia.
  by rewrite length_bytes_bits, (Hlen l Hl), Nat2Z.inj_mul, Z.mul_add_distr_l.
Qed.

Lemma adds_ext words words' pos bs cs :
  (forall l, (l < LaneCount)%nat -> bs l = cs l) -> adds words words' pos bs -> adds words words' pos cs.
Proof using Type. intros H [Hok Ha]. split; [done|]. intros l Hl. by rewrite <-H, Ha. Qed.

(** An exclusive or that adds [n] bytes inside of one word. *)
Lemma xor_at_adds words pos n g bs :
  words_ok words -> lanes_ok g -> 0 <= pos < 200 -> 0 <= n -> pos mod 8 + n <= 8 ->
  (forall l, (l < LaneCount)%nat -> Z.of_nat (length (bs l)) = n /\ Forall (is_u 8) (bs l) /\
     nth l g 0 = Z.shiftl (le_value (bs l)) (8 * (pos mod 8))) ->
  adds words (xor_at (Z.to_nat (pos / 8)) g words) pos bs.
Proof using Type.
  intros Hok Hg Hpos Hn Hfit Hbs. split; [by apply xor_at_ok|]. intros l Hl. destruct (Hbs l Hl) as (Hlen & Hb & Hgl).
  pose proof (Z.div_mod pos 8 ltac:(lia)). pose proof (Z.mod_pos_bound pos 8 ltac:(lia)).
  assert (Hw : pos / 8 < 25) by (apply Z.div_lt_upper_bound; lia). assert (0 <= pos / 8) by (apply Z.div_pos; lia).
  assert (Hm : (8 * pos) mod 64 = 8 * (pos mod 8)) by (apply (Z.mul_mod_distr_l pos 8 8); lia).
  assert (Hd : 8 * pos / 64 = pos / 8) by (apply (Z.div_mul_cancel_l pos 8 8); lia).
  apply xor_at_state; try done; try lia.
  - by destruct Hg.
  - rewrite Hm, length_bytes_bits. lia.
  - intros k Hk. rewrite Hm, Hgl, Z.shiftl_spec by lia. destruct (Z.leb_spec (8 * (pos mod 8)) k); cbn [andb].
    + replace (k - 8 * (pos mod 8)) with (Z.of_nat (Z.to_nat (k - 8 * (pos mod 8)))) at 1 by lia.
      by apply testbit_le_value.
    + apply Z.testbit_neg_r. lia.
Qed.

Lemma lanes_ok_map (f : list Z -> Z) (data : list (list Z)) :
  length data = LaneCount -> Forall (fun d => is_u 64 (f d)) data -> lanes_ok (map f data).
Proof using Type. intros Hl Hd. split; [by rewrite length_map|]. by apply Forall_fmap. Qed.

Lemma xor_data_byte_adds data len words pos i j :
  words_ok words -> data_ok LaneCount data len -> 0 <= pos -> 0 <= i -> 0 <= j -> pos + j < 136 -> i + j < len ->
  adds words (xor_data_byte data pos i words j) (pos + j) (fun l => piece (i + j) 1 (message data l)).
Proof using Type.
  intros Hok Hd Hpos Hi Hj Hp Hlen. set (f d := Z.shiftl (nth (Z.to_nat (i + j)) d 0) (8 * ((pos + j) mod 8))).
  pose proof (Z.mod_pos_bound (pos + j) 8 ltac:(lia)).
  replace (xor_data_byte data pos i words j) with (xor_at (Z.to_nat ((pos + j) / 8)) (map f data) words).
  2: { apply list_alter_ext; [|done]. intros w Hw. apply zip_with_fmap_r. }
  apply xor_at_adds with 1; try done; try lia.
  - apply lanes_ok_map; [apply Hd|]. destruct Hd as [_ Hd]. eapply Forall_impl; [exact Hd|]. intros d [Hdl Hdb].
    unfold f. apply shl_byte_range; [lia|]. rewrite nth_lookup.
    destruct (lookup_lt_is_Some_2 d (Z.to_nat (i + j)) ltac:(lia)) as [b Hb]. rewrite Hb.
    by apply (Forall_lookup_1 _ _ _ _ Hdb Hb).
  - intros l Hl. destruct (data_ok_message _ _ _ _ Hd Hl) as (_ & Hm & Hb).
    rewrite length_piece, (message_map LaneCount f data len) by (done || lia). split_and!; [done|by apply piece_bytes|].
    rewrite piece_one by lia. unfold f, le_value. cbn [little_endian_to_Z]. by rewrite Z.shiftl_0_l, Z.lor_0_r.
Qed.

Lemma xor_data_word_adds data len words pos i j :
  words_ok words -> data_ok LaneCount data len -> 0 <= pos -> 0 <= i -> 0 <= j -> pos + j < 136 -> i + j + 8 <= len ->
  (pos + j) mod 8 = 0 ->
  adds words (xor_data_word LaneCount data pos i words j) (pos + j) (fun l => piece (i + j) 8 (message data l)).
Proof using Type.
  intros Hok Hd Hpos Hi Hj Hp Hlen Hm8. set (f d := le_value (piece (i + j) 8 d)).
  change (xor_data_word LaneCount data pos i words j) with (xor_at (Z.to_nat ((pos + j) / 8)) (map f data) words).
  apply xor_at_adds with 8; try done; try lia.
  - apply lanes_ok_map; [apply Hd|]. destruct Hd as [_ Hd]. eapply Forall_impl; [exact Hd|]. intros d [Hdl Hdb].
    unfold f. replace 64 with (8 * Z.of_nat (length (piece (i + j) 8 d))) by (rewrite length_piece; lia).
    by apply le_value_range, piece_bytes.
  - intros l Hl. destruct (data_ok_message _ _ _ _ Hd Hl) as (_ & Hm & Hb).
    rewrite length_piece, (message_map LaneCount f data len) by (done || lia). split_and!; [done|by apply piece_bytes|].
    unfold f. by rewrite Hm8, Z.mul_0_r, Z.shiftl_0_r.
Qed.

End lanes.

(** ** The permutation of the words *)
Section permute.
Context (LaneCount : nat).

Lemma to_matrix_make {W} (words : list W) d :
  length words = 25%nat -> to_matrix words = Some (make (fun y x => nth (5 * y + x)%nat words d)).
Proof using Type.
  intros H. do 25 (destruct words as [|? words]; [done|]). by destruct words.
Qed.

Lemma nth_of_matrix {W} (A : matrix W) d y x :
  (y < 5)%nat -> (x < 5)%nat -> nth (5 * y + x) (of_matrix A) d = get_cell A y x.
Proof using Type. intros Hy Hx. destruct A. revert y Hy. apply below_5; revert x Hx; by apply below_5. Qed.

Lemma length_of_matrix {W} (A : matrix W) : length (of_matrix A) = 25%nat.
Proof using Type. by destruct A. Qed.

(** The words of a lane, as the matrix of the permutation on words. *)
Definition lane_matrix (words : list (list Z)) (l : nat) : matrix Z := make (fun y x => lane_word words (5 * y + x) l).

Lemma lane_matrix_words words l : words_ok LaneCount words -> words_are (lane_matrix words l) (to_array (lane_state words l)).
Proof using Type.
  intros Hok x y Hx Hy. unfold lane_matrix. rewrite get_make by done.
  split; [by apply (lane_word_range LaneCount)|]. intros z Hz. unfold to_array, lane_state.
  f_equal; [f_equal|]; [|by rewrite Z.add_comm, Z.mul_comm, Z.mod_add, Z.mod_small by lia].
  rewrite Z.add_comm, Z.mul_comm, Z.div_add, Z.div_small by lia. lia.
Qed.

Lemma permute_lane words l :
  words_ok LaneCount words -> (l < LaneCount)%nat ->
  forall y x, (y < 5)%nat -> (x < 5)%nat ->
  lane_is LaneCount l (nth (5 * y + x) (permute LaneCount words) [])
    (get_cell (@keccakf_1600 _ (word_ops 64) (lane_matrix words l)) y x).
Proof using Type.
  intros Hok Hl y x Hy Hx. destruct Hok as [Hlen Hok]. unfold permute. rewrite (to_matrix_make _ []) by done.
  rewrite nth_of_matrix by done.
  pose proof (lanes_sim 64 LaneCount l Hl) as Hsim.
  apply (@keccakf_1600_sim _ _ _ _ (lane_is LaneCount l) Hsim _ (lane_matrix words l)); [|done..].
  intros y' x' Hy' Hx'. unfold lane_matrix. rewrite !get_make by done. unfold lane_word.
  rewrite (nth_lookup words). destruct (lookup_lt_is_Some_2 words (5 * y' + x') ltac:(lia)) as [v Hv]. rewrite Hv. cbn.
  destruct (Forall_lookup_1 _ _ _ _ Hok Hv) as [Hvl _]. split; [done|].
  rewrite nth_lookup. by destruct (lookup_lt_is_Some_2 v l ltac:(lia)) as [w ->].
Qed.

Lemma index_25 (P : nat -> Prop) :
  (forall y x, (y < 5)%nat -> (x < 5)%nat -> P (5 * y + x)%nat) -> forall k, (k < 25)%nat -> P k.
Proof using Type.
  intros H k Hk. rewrite (Nat.div_mod_eq k 5). apply H; [apply Nat.Div0.div_lt_upper_bound; lia|apply mod_5].
Qed.

Lemma permute_ok words l :
  words_ok LaneCount words -> (l < LaneCount)%nat ->
  words_ok LaneCount (permute LaneCount words) /\
  state_eq (lane_state (permute LaneCount words) l) (keccak_f (lane_state words l)).
Proof using Type.
  intros Hok Hl.
  assert (Hwords : forall l, words_are (@keccakf_1600 _ (word_ops 64) (lane_matrix words l))
                              (keccak_f_array (to_array (lane_state words l)))).
  { intros l'. by apply keccakf_1600_words, lane_matrix_words. }
  assert (Hlen : length (permute LaneCount words) = 25%nat).
  { unfold permute. rewrite (to_matrix_make _ []) by apply Hok. apply length_of_matrix. }
  split.
  - split; [done|]. apply Forall_lookup_2. intros k v Hk.
    assert (Hv : v = nth k (permute LaneCount words) []) by (by rewrite nth_lookup, Hk).
    assert (Hk25 : (k < 25)%nat) by (rewrite <-Hlen; by eapply lookup_lt_Some).
    subst v. clear Hk. revert k Hk25. apply index_25. intros y x Hy Hx.
    pose proof (proj1 (permute_lane words l Hok Hl y x Hy Hx)) as Hv. split; [exact Hv|].
    apply Forall_lookup_2. intros l' w Hw.
    assert (Hl' : (l' < LaneCount)%nat).
    { rewrite <-Hv. by eapply lookup_lt_Some. }
    pose proof (proj2 (permute_lane words l' Hok Hl' y x Hy Hx)) as Hw'.
    assert (Hsame : Some w = Some (get_cell (@keccakf_1600 _ (word_ops 64) (lane_matrix words l')) y x))
      by (rewrite <-Hw, <-Hw'; reflexivity).
    assert (w = get_cell (@keccakf_1600 _ (word_ops 64) (lane_matrix words l')) y x) as -> by congruence.
    by apply (Hwords l' x y Hx Hy).
  - intros i Hi. unfold lane_state at 1, keccak_f, of_array.
    pose proof (Z.mod_pos_bound i 64 ltac:(lia)). assert (0 <= i / 64 < 25) by (split; [apply Z.div_pos|apply Z.div_lt_upper_bound]; lia).
    assert (Hx : (Z.to_nat (i / 64 mod 5) < 5)%nat) by (pose proof (Z.mod_pos_bound (i / 64) 5); lia).
    assert (Hy : (Z.to_nat (i / 64 / 5) < 5)%nat).
    { assert (i / 64 / 5 < 5) by (apply Z.div_lt_upper_bound; lia). lia. }
    rewrite <-(proj2 (Hwords l _ _ Hx Hy)) by done.
    pose proof (proj2 (permute_lane words l Hok Hl _ _ Hy Hx)) as Hw. unfold lane_word. rewrite nth_lookup.
    replace (Z.to_nat (i / 64)) with (5 * Z.to_nat (i / 64 / 5) + Z.to_nat (i / 64 mod 5))%nat
      by (pose proof (Z.div_mod (i / 64) 5 ltac:(lia)); assert (0 <= i / 64 / 5) by (apply Z.div_pos; lia);
          pose proof (Z.mod_pos_bound (i / 64) 5 ltac:(lia)); lia).
    by rewrite Hw.
Qed.
End permute.

(** * The context of Keccak-256 is the sponge

    The invariant of [keccak_256_update]: in each lane the state is that of the sponge
    after the blocks of the message that are complete, with the bytes of the
    last block added.  [keccak_256_finish] pads that block. *)

(** ** The sponge, block by block *)

Lemma rate_bytes : rate = (8 * 136)%nat.
Proof. done. Qed.
#[local] Opaque rate.

Lemma absorb_end fuel S : absorb fuel S [] = S.
Proof. apply fold_blocks_nil. Qed.

Lemma absorb_app n fuel S P Q :
  length P = (rate * n)%nat -> (n <= fuel)%nat -> absorb fuel S (P ++ Q) = absorb (fuel - n) (absorb n S P) Q.
Proof. intros. apply fold_blocks_app; [rewrite rate_bytes; lia|done..]. Qed.

Lemma absorb_block S P : length P = rate -> absorb 1 S P = keccak_f (add_block S P).
Proof. intros. apply (fold_blocks_one (fun S P => keccak_f (add_block S P))); [done|rewrite rate_bytes; lia]. Qed.

Definition zero_state : bit_state := fun _ => false.

(** The state of a lane after the bytes [msg], of which [pos] are in the last
    block. *)
Definition absorbed (msg : list Z) (S : bit_state) (pos : Z) : Prop :=
  exists n full rest, msg = full ++ rest /\ length full = (136 * n)%nat /\
    pos = Z.of_nat (length rest) /\ pos < 136 /\
    state_eq S (add_bits (absorb n zero_state (bytes_bits full)) 0 (bytes_bits rest)).

Lemma absorbed_nil : absorbed [] zero_state 0.
Proof. exists 0%nat, [], []. split_and!; try done. intros i Hi. cbn. unfold add_bits. by destruct (Z.to_nat _), (_ <=? _). Qed.

Lemma absorbed_eq msg S T pos : state_eq S T -> absorbed msg S pos -> absorbed msg T pos.
Proof. intros H (n & full & rest & ? & ? & ? & ? & HS). exists n, full, rest. split_and!; try done. by rewrite <-H. Qed.

(** More bytes in the same block. *)
Lemma absorbed_add msg S pos bs :
  absorbed msg S pos -> pos + Z.of_nat (length bs) < 136 ->
  absorbed (msg ++ bs) (add_bits S (8 * pos) (bytes_bits bs)) (pos + Z.of_nat (length bs)).
Proof.
  intros (n & full & rest & -> & Hfull & -> & Hp & HS) Hlen. exists n, full, (rest ++ bs).
  split_and!; [by rewrite app_assoc|done|rewrite length_app; lia|lia|].
  rewrite HS, bytes_bits_app, <-add_bits_app, length_bytes_bits by lia. by rewrite Nat2Z.inj_mul.
Qed.

(** Bytes that fill the block. *)
Lemma absorbed_permute msg S pos bs :
  absorbed msg S pos -> pos + Z.of_nat (length bs) = 136 ->
  absorbed (msg ++ bs) (keccak_f (add_bits S (8 * pos) (bytes_bits bs))) 0.
Proof.
  intros (n & full & rest & -> & Hfull & -> & Hp & HS) Hlen. exists (n + 1)%nat, (full ++ rest ++ bs), [].
  assert (Hlast : length (bytes_bits (rest ++ bs)) = rate) by (rewrite length_bytes_bits, length_app, rate_bytes; lia).
  assert (Hblocks : length (bytes_bits full) = (rate * n)%nat) by (rewrite length_bytes_bits, rate_bytes; lia).
  split_and!; [by rewrite app_nil_r, app_assoc|rewrite !length_app; lia|done|done|].
  rewrite bytes_bits_app, (absorb_app n), Nat.add_sub', absorb_block by (done || lia). unfold bytes_bits at 4. cbn.
  rewrite add_bits_nil, HS, add_block_bits, (bytes_bits_app rest), <-add_bits_app, length_bytes_bits by lia.
  by rewrite Nat2Z.inj_mul.
Qed.

(** The two bits that [keccak_256_finish] flips are the padding. *)
Lemma add_padding T r k :
  (r < 136)%nat -> k = (8 * (136 - r) - 2)%nat ->
  state_eq (add_bits (add_bits T (8 * Z.of_nat r) [true]) 1087 [true])
           (add_bits T (0 + Z.of_nat 8 * Z.of_nat r) ([true] ++ repeat false k ++ [true])).
Proof.
  intros Hr -> j Hj. unfold add_bits. rewrite xorb_assoc. f_equal. change (Z.of_nat 8) with 8. rewrite Z.add_0_l.
  destruct (Z.leb_spec (8 * Z.of_nat r) j) as [Hj1|Hj1]; cbn [andb].
  2: { by rewrite (proj2 (Z.leb_gt 1087 j)) by lia. }
  set (m := Z.to_nat (j - 8 * Z.of_nat r)). destruct (Z.leb_spec 1087 j); cbn [andb].
  - rewrite (app_nth2 [true]) by (cbn; lia). rewrite app_nth2 by (rewrite repeat_length; cbn; lia).
    rewrite repeat_length. rewrite nth_overflow by (cbn; lia). cbn [length xorb]. f_equal. lia.
  - assert (Hm : (m < 8 * (136 - r) - 1)%nat) by lia. rewrite xorb_false_r. destruct m as [|m]; [done|].
    cbn [app nth]. rewrite app_nth1 by (rewrite repeat_length; lia). rewrite nth_repeat. by destruct m.
Qed.

(** The padding completes the last block, and the hash is read. *)
Lemma absorbed_finish msg S pos :
  absorbed msg S pos ->
  map (keccak_f (add_bits (add_bits S (8 * pos) [true]) 1087 [true])) (seqZ 0 256) = keccak_bits (bytes_bits msg).
Proof.
  intros (n & full & rest & -> & Hfull & -> & Hp & HS). unfold keccak_bits.
  assert (Hblocks : length (bytes_bits full) = (rate * n)%nat) by (rewrite length_bytes_bits, rate_bytes; lia).
  set (k := (8 * (136 - length rest) - 2)%nat).
  assert (Hpad : pad10_1 (length (bytes_bits (full ++ rest))) = [true] ++ repeat false k ++ [true]).
  { unfold pad10_1. do 3 f_equal. rewrite length_bytes_bits, length_app, Hfull, rate_bytes.
    transitivity (Z.to_nat (Z.of_nat k)); [|lia]. f_equal. symmetry.
    apply Z.mod_unique with (- Z.of_nat n - 1); lia. }
  rewrite Hpad. set (pad := [true] ++ repeat false k ++ [true]).
  assert (Hpl : length pad = (k + 2)%nat) by (unfold pad; rewrite !length_app, repeat_length; cbn; lia).
  set (last := bytes_bits rest ++ pad).
  assert (Hlast : length last = rate) by (unfold last; rewrite length_app, Hpl, length_bytes_bits, rate_bytes; lia).
  assert (Hsplit : bytes_bits (full ++ rest) ++ pad = bytes_bits full ++ last) by (unfold last; by rewrite bytes_bits_app, app_assoc).
  rewrite Hsplit, length_app, Hblocks, Hlast, (absorb_app n) by (done || (rewrite rate_bytes; lia)).
  assert (Hfuel : exists f, (rate * n + rate - n = Datatypes.S f)%nat)
    by (exists (rate * n + rate - n - 1)%nat; rewrite rate_bytes; lia).
  destruct Hfuel as [f ->]. rewrite <-(app_nil_r last), (absorb_app 1), absorb_end, absorb_block by (lia || done).
  apply map_ext_in. intros i Hi%list_elem_of_In. apply elem_of_seqZ in Hi.
  apply keccak_f_proper; [|lia]. rewrite HS, add_block_bits. unfold last. rewrite <-add_bits_app by lia.
  rewrite length_bytes_bits, Nat2Z.inj_mul. apply add_padding; [lia|done].
Qed.

(** A word as the bits of its bytes. *)
Lemma le_bytes_range n x : 0 <= n -> Forall (is_u 8) (le_bytes n x).
Proof. intros Hn. by apply Z_to_little_endian_bound. Qed.

Lemma bits_of_word x : is_u 64 x -> bytes_bits (le_bytes 8 x) = map (Z.testbit x) (seqZ 0 64).
Proof.
  intros Hx. apply nth_ext with false (Z.testbit x 0).
  { by rewrite length_bytes_bits, length_le_bytes, length_map, length_seqZ. }
  intros n Hn. rewrite length_bytes_bits, length_le_bytes in Hn by done.
  rewrite <-testbit_le_value, le_value_bytes, uwrap_small by (done || by apply le_bytes_range).
  rewrite map_nth. f_equal. rewrite nth_lookup, lookup_seqZ_lt by lia. cbn. lia.
Qed.

(** ** The context *)
Section context.
Context (LaneCount : nat) (DataExtent : option Z).

(** Parts of static extent have that length, which the type ensures. *)
Definition extent_ok (len : Z) : Prop := match DataExtent with Some extent => len = extent | None => True end.

(** Whether data is absorbed by words; positions are then multiples of 8. *)
Definition by_words : Prop := exists extent, DataExtent = Some extent /\ extent mod 8 = 0.

Lemma absorb_step_adds data len words pos i step :
  words_ok LaneCount words -> data_ok LaneCount data len -> 0 <= pos -> 0 <= i -> 0 <= step ->
  pos + step <= 136 -> i + step <= len -> (by_words -> pos mod 8 = 0 /\ step mod 8 = 0) ->
  adds LaneCount words (absorb_step LaneCount DataExtent data pos i step words) pos
    (fun l => piece i step (message data l)).
Proof using Type.
  intros Hok Hd Hpos Hi Hstep Hp Hlen Hw. unfold absorb_step.
  pose proof (adds_ok LaneCount) as Hrel. pose proof (adds_nil LaneCount) as Hnil.
  pose proof (adds_app LaneCount) as Happ. pose proof (adds_ext LaneCount) as Hextn.
  destruct (match DataExtent with Some extent => extent mod 8 =? 0 | None => false end) eqn:E.
  - destruct Hw as [Hp8 Hs8]; [unfold by_words; destruct DataExtent as [extent|]; [|done]; exists extent; split; [done|lia]|].
    apply (fold_words LaneCount (words_ok LaneCount) _ Hrel Hnil Happ Hextn _ data len words pos i 8); try done; try lia.
    intros. apply xor_data_word_adds with len; done || lia.
  - apply (fold_bytes LaneCount (words_ok LaneCount) _ Hrel Hnil Happ Hextn _ data len); try done.
    intros. apply xor_data_byte_adds with len; done || lia.
Qed.

(** The invariant between the steps of [keccak_256_update]. *)
Definition context_ok (msg : nat -> list Z) (words : keccak_256_words) (pos : Z) : Prop :=
  words_ok LaneCount words /\ 0 <= pos < 136 /\ (by_words -> pos mod 8 = 0) /\
  forall l, (l < LaneCount)%nat -> absorbed (msg l) (lane_state words l) pos.

Lemma context_ok_ext msg msg' words pos :
  (forall l, (l < LaneCount)%nat -> msg l = msg' l) -> context_ok msg words pos -> context_ok msg' words pos.
Proof using Type. intros H (Hok & Hp & H8 & Ha). repeat (split; [assumption|]). intros l Hl. rewrite <-H by done. by apply Ha. Qed.

Lemma step_mod_8 len pos i :
  by_words -> extent_ok len -> pos mod 8 = 0 -> i mod 8 = 0 -> Z.min (136 - pos) (len - i) mod 8 = 0.
Proof using Type.
  intros (extent & E & He) Hext Hp Hi. unfold extent_ok in Hext. rewrite E in Hext. subst extent.
  destruct (Z.min_spec (136 - pos) (len - i)) as [[_ ->]|[_ ->]]; rewrite Zminus_mod, ?Hp, ?Hi, ?He; done.
Qed.

Lemma keccak_256_update_loop_ok fuel data len i msg words pos :
  data_ok LaneCount data len -> extent_ok len -> (0 < LaneCount)%nat ->
  0 <= i <= len -> len - i <= Z.of_nat fuel -> (by_words -> i mod 8 = 0) ->
  context_ok (fun l => msg l ++ piece 0 i (message data l)) words pos ->
  let '(words', pos') := keccak_256_update_loop LaneCount DataExtent fuel data len i words pos in
  context_ok (fun l => msg l ++ message data l) words' pos'.
Proof using Type.
  intros Hd Hext HL. revert i words pos. induction fuel as [|fuel IH]; intros i words pos Hi Hfuel Hi8 Hctx; cbn [keccak_256_update_loop].
  { eapply context_ok_ext; [|exact Hctx]. intros l Hl. destruct (data_ok_message _ _ _ _ Hd Hl) as (_ & Hm & _).
    f_equal. unfold piece. by rewrite drop_0, take_ge by lia. }
  destruct (Z.ltb_spec i len) as [Hlt|Hge].
  2: { eapply context_ok_ext; [|exact Hctx]. intros l Hl. destruct (data_ok_message _ _ _ _ Hd Hl) as (_ & Hm & _).
       f_equal. unfold piece. by rewrite drop_0, take_ge by lia. }
  change KECCAK_RSIZE with 136. destruct Hctx as (Hok & Hpos & Hp8 & Habs).
  set (step := Z.min (136 - pos) (len - i)).
  assert (Hs8 : by_words -> step mod 8 = 0) by (intros Hw; apply step_mod_8; auto).
  assert (Hstep : 0 < step /\ step <= 136 - pos /\ step <= len - i) by lia.
  pose proof (absorb_step_adds data len words pos i step Hok Hd ltac:(lia) ltac:(lia) ltac:(lia) ltac:(lia) ltac:(lia)
                (fun Hw => conj (Hp8 Hw) (Hs8 Hw))) as [Hok' Hadds].
  set (words' := absorb_step _ _ _ _ _ _ _) in *.
  assert (Hmsg : forall l, (l < LaneCount)%nat ->
            (msg l ++ piece 0 i (message data l)) ++ piece i step (message data l) =
            msg l ++ piece 0 (i + step) (message data l)).
  { intros l Hl. rewrite <-app_assoc. f_equal. symmetry. apply (piece_app 0 i step); lia. }
  assert (Hlen : forall l, (l < LaneCount)%nat -> Z.of_nat (length (piece i step (message data l))) = step).
  { intros l Hl. destruct (data_ok_message _ _ _ _ Hd Hl) as (_ & Hm & _). apply length_piece; lia. }
  assert (Hi8' : by_words -> (i + step) mod 8 = 0) by (intros Hw; rewrite Zplus_mod, Hi8, Hs8 by done; done).
  destruct (Z.leb_spec 136 (pos + step)) as [Hfull|Hpart]; apply IH; try lia; try done.
  - destruct (permute_ok LaneCount words' 0 Hok' HL) as [Hok'' _]. split_and!; try done.
    intros l Hl. cbn beta. rewrite <-Hmsg by done. destruct (permute_ok LaneCount words' l Hok' Hl) as [_ Hperm].
    eapply absorbed_eq; [symmetry; rewrite Hperm; apply keccak_f_proper, (Hadds l Hl)|].
    apply absorbed_permute; [by apply Habs|]. rewrite Hlen by done. lia.
  - split_and!; try done; try lia; [intros Hw; rewrite Zplus_mod, Hp8, Hs8 by done; done|].
    intros l Hl. cbn beta. rewrite <-Hmsg by done. eapply absorbed_eq; [symmetry; apply (Hadds l Hl)|].
    pose proof (Hlen l Hl) as Hl'. set (bs := piece i step _) in *. rewrite <-Hl'. apply absorbed_add; [by apply Habs|lia].
Qed.

(** All the parts of the messages have the same length in each lane. *)
Definition part_ok (data : list (list Z)) : Prop := exists len, data_ok LaneCount data len /\ extent_ok len.

Lemma updates_ok data msg words pos :
  (0 < LaneCount)%nat -> Forall part_ok data -> context_ok msg words pos ->
  let '(words', pos') := foldl (fun '(m_words, pos) d => keccak_256_update LaneCount DataExtent m_words pos d) (words, pos) data in
  context_ok (fun l => msg l ++ concatenation data l) words' pos'.
Proof using Type.
  intros HL Hdata. revert msg words pos. induction Hdata as [|d data (len & Hd & Hext) _ IH]; intros msg words pos Hctx.
  { eapply context_ok_ext; [|exact Hctx]. intros l Hl. by rewrite app_nil_r. }
  cbn [foldl]. destruct (keccak_256_update LaneCount DataExtent words pos d) as [words1 pos1] eqn:E.
  assert (Hlen : Z.of_nat (length (nth 0 d [])) = len) by (by destruct (data_ok_message _ _ _ 0 Hd HL) as (_ & Hm & _)).
  pose proof (keccak_256_update_loop_ok (Z.to_nat len) d len 0 msg words pos Hd Hext HL) as Hu.
  unfold keccak_256_update in E. rewrite Hlen in E. rewrite E in Hu.
  assert (Hctx1 : context_ok (fun l => msg l ++ message d l) words1 pos1).
  { apply Hu; try lia; [done|]. eapply context_ok_ext; [|exact Hctx]. intros l Hl. by rewrite app_nil_r. }
  specialize (IH _ _ _ Hctx1). destruct (foldl _ _ data). eapply context_ok_ext; [|exact IH].
  intros l Hl. cbn beta. unfold concatenation. cbn [map]. by rewrite <-app_assoc.
Qed.

Lemma init_ok : context_ok (fun _ => []) (keccak_256_init LaneCount) 0.
Proof using Type.
  assert (Hok : words_ok LaneCount (keccak_256_init LaneCount)).
  { split; [done|]. apply Forall_replicate. split; [apply length_replicate|]. by apply Forall_replicate. }
  split; [done|]. split; [lia|]. split; [done|]. intros l Hl.
  eapply absorbed_eq; [|exact absorbed_nil]. intros i Hi. unfold lane_state, lane_word, zero_state.
  rewrite !nth_lookup. unfold keccak_256_init. destruct (replicate 25 _ !! _) as [v|] eqn:Hv; cbn; [|by destruct l; rewrite Z.bits_0].
  apply lookup_replicate in Hv as [-> _]. destruct (replicate LaneCount 0 !! l) as [x|] eqn:Hx; cbn; [|by rewrite Z.bits_0].
  apply lookup_replicate in Hx as [-> _]. by rewrite Z.bits_0.
Qed.

(** The bits of the hash that [keccak_256_finish] reads out of the words of a lane. *)
Lemma hash_bits words l :
  words_ok LaneCount words ->
  bytes_bits (mjoin (map (fun i => le_bytes 8 (nth l (nth (Z.to_nat (i / 8)) words []) 0)) [0; 8; 16; 24])) =
  map (lane_state words l) (seqZ 0 256).
Proof using Type.
  intros Hok. change (seqZ 0 256) with (mjoin (map (fun k => map (fun i => 64 * k + i) (seqZ 0 64)) [0; 1; 2; 3])).
  assert (Hword : forall k, 0 <= k < 4 ->
            bytes_bits (le_bytes 8 (lane_word words (Z.to_nat k) l)) =
            map (lane_state words l) (map (fun i => 64 * k + i) (seqZ 0 64))).
  { intros k Hk. rewrite bits_of_word by (by apply (lane_word_range LaneCount)). rewrite map_map. apply map_ext_in.
    intros i Hi%list_elem_of_In. apply elem_of_seqZ in Hi. unfold lane_state.
    rewrite (Z.mul_comm 64), Z.div_add_l, Z.div_small, Z.add_0_r, Z.add_comm, Z.mod_add, Z.mod_small by lia. done. }
  cbn [map mjoin list_join]. rewrite !bytes_bits_app, !map_app. cbn [map].
  rewrite <-(Hword 0), <-(Hword 1), <-(Hword 2), <-(Hword 3) by lia. done.
Qed.

(** Bit [j] of a byte flipped in every lane. *)
Lemma flip_ok words k byte j l :
  words_ok LaneCount words -> (k < 25)%nat -> 0 <= byte < 8 -> 0 <= j < 8 -> (l < LaneCount)%nat ->
  let words' := xor_at k (replicate LaneCount (uint64 (Z.shiftl (2 ^ j) (byte * 8)))) words in
  words_ok LaneCount words' /\
  state_eq (lane_state words' l) (add_bits (lane_state words l) (64 * Z.of_nat k + 8 * byte + j) [true]).
Proof using Type.
  intros Hok Hk Hbyte Hj Hl words'. set (x := uint64 (Z.shiftl (2 ^ j) (byte * 8))).
  assert (Hx : is_u 64 x) by (apply uwrap_range; lia).
  split; [apply xor_at_ok; [done|]; split; [apply length_replicate|by apply Forall_replicate]|].
  assert (Hm : (64 * Z.of_nat k + 8 * byte + j) mod 64 = 8 * byte + j)
    by (symmetry; apply Z.mod_unique with (Z.of_nat k); lia).
  assert (Hd : (64 * Z.of_nat k + 8 * byte + j) / 64 = Z.of_nat k)
    by (symmetry; apply Z.div_unique with (8 * byte + j); lia).
  apply (xor_at_state LaneCount); try done; try lia; [apply length_replicate|cbn [length]; lia|].
  intros n Hn. rewrite nth_lookup, lookup_replicate_2, Hm by done. cbn [from_option id]. unfold x, uint64.
  rewrite testbit_uwrap, bool_decide_true, Z.shiftl_spec, Z.pow2_bits_eqb by lia. cbn [andb id].
  destruct (Z.leb_spec (8 * byte + j) n); cbn [andb]; [|destruct (Z.eqb_spec j (n - byte * 8)); lia].
  destruct (Z.eqb_spec j (n - byte * 8)); [by replace (n - (8 * byte + j)) with 0 by lia|].
  by rewrite nth_overflow by (cbn; lia).
Qed.

(** [keccak_256_finish] returns the hash of each message. *)
Lemma finish_ok msg words pos l :
  context_ok msg words pos -> (l < LaneCount)%nat ->
  bytes_bits (nth l (keccak_256_finish LaneCount words pos) []) = keccak_bits (bytes_bits (msg l)).
Proof using Type.
  intros (Hok & Hpos & _ & Habs) Hl. rewrite <-(absorbed_finish _ _ _ (Habs l Hl)).
  pose proof (Z.div_mod pos 8 ltac:(lia)). pose proof (Z.mod_pos_bound pos 8 ltac:(lia)).
  assert (0 <= pos / 8 < 17) by (split; [apply Z.div_pos|apply Z.div_lt_upper_bound]; lia).
  destruct (flip_ok words (Z.to_nat (pos / 8)) (pos mod 8) 0 l Hok ltac:(lia) ltac:(lia) ltac:(lia) Hl) as [Hok1 Hs1].
  set (words1 := xor_at _ _ words) in *.
  destruct (flip_ok words1 16 7 7 l Hok1 ltac:(lia) ltac:(lia) ltac:(lia) Hl) as [Hok2 Hs2].
  set (words2 := xor_at _ _ words1) in *.
  destruct (permute_ok LaneCount words2 l Hok2 Hl) as [Hok3 Hs3].
  transitivity (map (lane_state (permute LaneCount words2) l) (seqZ 0 256)).
  - rewrite <-hash_bits by done. f_equal. unfold keccak_256_finish. rewrite nth_lookup, list_lookup_fmap, lookup_seq_lt by done. done.
  - apply map_ext_in. intros i Hi%list_elem_of_In. apply elem_of_seqZ in Hi. rewrite (Hs3 i) by lia.
    apply keccak_f_proper; [|lia]. rewrite Hs2, Hs1.
    by replace (64 * Z.of_nat (Z.to_nat (pos / 8)) + 8 * (pos mod 8) + 0) with (8 * pos) by lia.
Qed.

(** The hash of each message is its Keccak-256. *)
Lemma keccak_256_simd_concat_hash_ok data l :
  Forall part_ok data -> (l < LaneCount)%nat ->
  bytes_bits (nth l (keccak_256_simd_concat_hash LaneCount DataExtent data) []) =
  keccak_bits (bytes_bits (concatenation data l)).
Proof using Type.
  intros Hdata Hl. unfold keccak_256_simd_concat_hash.
  pose proof (updates_ok data _ _ _ ltac:(lia) Hdata init_ok) as H. destruct (foldl _ _ data) as [words pos].
  by apply (finish_ok (fun l => [] ++ concatenation data l)).
Qed.
End context.
