(* ===== verification/Sha256.v ===== *)
(** * SHA-256 on several messages at once (src/sha-256-hasher.cpp, src/sha-256-hasher.hpp)

    The same interface as Keccak256.v, on 32-bit words.  The compression keeps
    the last 16 words of the schedule and the eight variables in circular
    buffers. *)

From S2P Require Import Prelude SimdVector.

Definition SHA256_ROUND_COUNT : Z := 64.
Definition SHA256_STATE_WORD_COUNT : Z := 8.
Definition SHA256_BUF_WORD_COUNT : Z := 16.
Definition SHA256_BUF_SIZE : Z := 64.
Definition SHA256_LENGTH_WORD_INDEX : Z := 14.

Definition SHA256_K : list Z :=
  (* 0 *)  [0x428a2f98; 0x71374491; 0xb5c0fbcf; 0xe9b5dba5; 0x3956c25b; 0x59f111f1; 0x923f82a4; 0xab1c5ed5] ++
  (* 8 *)  [0xd807aa98; 0x12835b01; 0x243185be; 0x550c7dc3; 0x72be5d74; 0x80deb1fe; 0x9bdc06a7; 0xc19bf174] ++
  (* 16 *) [0xe49b69c1; 0xefbe4786; 0x0fc19dc6; 0x240ca1cc; 0x2de92c6f; 0x4a7484aa; 0x5cb0a9dc; 0x76f988da] ++
  (* 24 *) [0x983e5152; 0xa831c66d; 0xb00327c8; 0xbf597fc7; 0xc6e00bf3; 0xd5a79147; 0x06ca6351; 0x14292967] ++
  (* 32 *) [0x27b70a85; 0x2e1b2138; 0x4d2c6dfc; 0x53380d13; 0x650a7354; 0x766a0abb; 0x81c2c92e; 0x92722c85] ++
  (* 40 *) [0xa2bfe8a1; 0xa81a664b; 0xc24b8b70; 0xc76c51a3; 0xd192e819; 0xd6990624; 0xf40e3585; 0x106aa070] ++
  (* 48 *) [0x19a4c116; 0x1e376c08; 0x2748774c; 0x34b0bcb5; 0x391c0cb3; 0x4ed8aa4a; 0x5b9cca4f; 0x682e6ff3] ++
  (* 56 *) [0x748f82ee; 0x78a5636f; 0x84c87814; 0x8cc70208; 0x90befffa; 0xa4506ceb; 0xbef9a3f7; 0xc67178f2].

(** ** The compression, on vectors of words *)
Section compress.
Context {W : Type} {V : WordVector W} {A : WordAdd W}.
#[local] Open Scope word_scope.

Definition SHA256_CH (x y z : W) : W := (x &&& y) ^^ ((~~ x) &&& z).
Definition SHA256_MAJ (x y z : W) : W := (x &&& y) ^^ (x &&& z) ^^ (y &&& z).
Definition SHA256_ROR (x : W) (n : Z) : W := (x >> n) ||| (x << (32 - n)).
Definition SHA256_S0 (x : W) : W := SHA256_ROR x 2 ^^ SHA256_ROR x 13 ^^ SHA256_ROR x 22.
Definition SHA256_S1 (x : W) : W := SHA256_ROR x 6 ^^ SHA256_ROR x 11 ^^ SHA256_ROR x 25.
Definition SHA256_G0 (x : W) : W := SHA256_ROR x 7 ^^ SHA256_ROR x 18 ^^ (x >> 3).
Definition SHA256_G1 (x : W) : W := SHA256_ROR x 17 ^^ SHA256_ROR x 19 ^^ (x >> 10).

(** Indices of the circular buffers. *)
Definition SHA256_WI (i k : Z) : nat := Z.to_nat (Z.land (uint64 (i - k)) 15).
Definition SHA256_SI (i k : Z) : nat := Z.to_nat (Z.land (uint64 (k - i)) 7).

Definition at_index (v : list W) (k : nat) : W := nth k v (splat 0).

(** A round of the loop, on the variables [s] and the words [w]. *)
Definition compress_round (m_words : list W) '((s, w) : list W * list W) (r : Z) : list W * list W :=
  let i := r mod 16 in
  let j := r - i in
  let wi := Z.to_nat i in
  let w :=
    if j =? 0 then <[wi := at_index m_words wi]> w
    else <[wi := at_index w wi + (SHA256_G1 (at_index w (SHA256_WI i 2)) + at_index w (SHA256_WI i 7) +
                                  SHA256_G0 (at_index w (SHA256_WI i 15)))]> w in
  let S k := SHA256_SI i k in
  let s := <[S 7 := at_index s (S 7) +
              (at_index w wi + SHA256_S1 (at_index s (S 4)) +
               SHA256_CH (at_index s (S 4)) (at_index s (S 5)) (at_index s (S 6)) +
               splat (nth (Z.to_nat (i + j)) SHA256_K 0%Z))]> s in
  let s := <[S 3 := at_index s (S 3) + at_index s (S 7)]> s in
  let s := <[S 7 := at_index s (S 7) +
              (SHA256_S0 (at_index s (S 0)) +
               SHA256_MAJ (at_index s (S 0)) (at_index s (S 1)) (at_index s (S 2)))]> s in
  (s, w).

(** [w] is not initialised in the code: the first 16 rounds assign it before
    it is read. *)
Definition compress (m_words m_state : list W) : list W :=
  let s := m_state in
  let w := replicate 16 (splat 0) in
  let '(s, w) := foldl (compress_round m_words) (s, w) (seqZ 0 SHA256_ROUND_COUNT) in
  zip_with wadd m_state s.
End compress.

(** ** The context *)
Section context.
Context (LaneCount : nat) (DataExtent : option Z).

#[local] Instance sha_256_ops : WordVector (list Z) := lanes_ops 32 LaneCount.
#[local] Instance sha_256_add : WordAdd (list Z) := lanes_add 32.

(** [m_words], [m_state], and the position and length kept by the caller. *)
Record sha_256_context := {
  m_words : list (list Z);
  m_state : list (list Z);
  pos : Z;
  len : Z
}.

Definition sha_256_init : sha_256_context := {|
  m_words := replicate 16 (replicate LaneCount 0);
  m_state := map splat [0x6a09e667; 0xbb67ae85; 0x3c6ef372; 0xa54ff53a; 0x510e527f; 0x9b05688c; 0x1f83d9ab; 0x5be0cd19];
  pos := 0;
  len := 0
|}.

Definition bswap32 (x : Z) : Z := le_value (rev (le_bytes 4 x)).

(** [data_word[l] = bswap32(lane_word)], for a word of each lane *)
Definition set_data_word (data : list (list Z)) (pos i : Z) (m_words : list (list Z)) (j : Z) : list (list Z) :=
  let data_word := map (fun d => bswap32 (le_value (take 4 (drop (Z.to_nat (i + j)) d)))) data in
  <[Z.to_nat ((pos + j) / 4) := wor (splat 0) data_word]> m_words.

(** [words_bytes[bi][l][bj] = data[l][i + j]] for each lane [l]: a byte of a
    word is replaced. *)
Definition set_data_byte (data : list (list Z)) (pos i : Z) (m_words : list (list Z)) (j : Z) : list (list Z) :=
  let bi := (pos + j) / 4 in
  let bj := 4 - 1 - (pos + j) mod 4 in
  alter (fun word => zip_with (fun x d =>
           Z.lor (Z.land x (not32 (Z.shiftl 255 (8 * bj)))) (Z.shiftl (nth (Z.to_nat (i + j)) d 0) (8 * bj))) word data)
        (Z.to_nat bi) m_words.

Definition fill_step (data : list (list Z)) (pos i step : Z) (m_words : list (list Z)) : list (list Z) :=
  let by_words := match DataExtent with Some extent => extent mod 4 =? 0 | None => false end in
  if by_words then foldl (set_data_word data pos i) m_words (map (Z.mul 4) (seqZ 0 ((step + 3) / 4)))
  else foldl (set_data_byte data pos i) m_words (seqZ 0 step).

(** Each step takes at least a byte, so [fuel] is the length of the data. *)
Fixpoint sha_256_update_loop (fuel : nat) (data : list (list Z)) (data_len i : Z) (c : sha_256_context) : sha_256_context :=
  match fuel with
  | O => c
  | S fuel =>
      if i <? data_len then
        let step := Z.min (SHA256_BUF_SIZE - pos c) (data_len - i) in
        let words := fill_step data (pos c) i step (m_words c) in
        let i := i + step in
        let p := pos c + step in
        if SHA256_BUF_SIZE <=? p then
          sha_256_update_loop fuel data data_len i
            {| m_words := words; m_state := compress words (m_state c); pos := 0; len := len c + 1 |}
        else
          sha_256_update_loop fuel data data_len i {| m_words := words; m_state := m_state c; pos := p; len := len c |}
      else c
  end.

Definition sha_256_update (c : sha_256_context) (data : list (list Z)) : sha_256_context :=
  let data_len := Z.of_nat (length (nth 0 data [])) in
  sha_256_update_loop (Z.to_nat data_len) data data_len 0 c.

Definition sha_256_finish (c : sha_256_context) : list (list Z) :=
  let bi := Z.to_nat (pos c / 4) in
  let bj := 4 - 1 - pos c mod 4 in
  let words := alter (fun word => wand word (splat (uint32 (Z.shiftl 0xffffff00 (bj * 8))))) bi (m_words c) in
  let words := alter (fun word => wor word (splat (uint32 (Z.shiftl 0x00000080 (bj * 8))))) bi words in
  (* for (x = bi + 1; x < SHA256_BUF_WORD_COUNT; ++x) *)
  let words := foldl (fun words x => <[x := splat 0]> words) words (seq (bi + 1) (Z.to_nat SHA256_BUF_WORD_COUNT - (bi + 1))) in
  let '(words, state) :=
    if SHA256_LENGTH_WORD_INDEX * 4 <=? pos c then
      let state := compress words (m_state c) in
      (foldl (fun words x => <[x := splat 0]> words) words (seq 0 (Z.to_nat SHA256_BUF_WORD_COUNT)), state)
    else (words, m_state c) in
  let bit_len := uint64 ((len c * SHA256_BUF_SIZE + pos c) * 8) in
  let words := alter (fun word => wor word (splat (uint32 (Z.shiftr bit_len 32)))) (Z.to_nat (SHA256_LENGTH_WORD_INDEX + 0)) words in
  let words := alter (fun word => wor word (splat (uint32 bit_len))) (Z.to_nat (SHA256_LENGTH_WORD_INDEX + 1)) words in
  let state := compress words state in
  map (fun l => mjoin (map (fun i => le_bytes 4 (bswap32 (nth l (nth (Z.to_nat (i / 4)) state []) 0)))
                           [0; 4; 8; 12; 16; 20; 24; 28]))
      (seq 0 LaneCount).

Definition sha_256_simd_concat_hash (data : list (list (list Z))) : list (list Z) :=
  sha_256_finish (foldl sha_256_update sha_256_init data).
End context.

(** ** The functions for each number of messages *)

Definition sha_256_data_1x1 := sha_256_simd_concat_hash 1 None.
Definition sha_256_word_1x1 := sha_256_simd_concat_hash 1 (Some 32).
Definition sha_256_word_1x2 := sha_256_simd_concat_hash 2 (Some 32).
Definition sha_256_word_1x4 := sha_256_simd_concat_hash 4 (Some 32).
Definition sha_256_word_1x8 := sha_256_simd_concat_hash 8 (Some 32).
Definition sha_256_word_1x16 := sha_256_simd_concat_hash 16 (Some 32).
Definition sha_256_data_2x1 := sha_256_simd_concat_hash 1 None.
Definition sha_256_hash_2x1 := sha_256_simd_concat_hash 1 (Some 32).
Definition sha_256_hash_2x2 := sha_256_simd_concat_hash 2 (Some 32).
Definition sha_256_hash_2x4 := sha_256_simd_concat_hash 4 (Some 32).
Definition sha_256_hash_2x8 := sha_256_simd_concat_hash 8 (Some 32).
Definition sha_256_hash_2x16 := sha_256_simd_concat_hash 16 (Some 32).

(** [do_simd_concat_hash], by the counts and whether the extent is dynamic. *)
Definition sha_256_do_simd_concat_hash (ConcatCount LaneCount : nat) (dynamic_extent : bool)
    (data : list (list (list Z))) : option (list (list Z)) :=
  match ConcatCount, LaneCount, dynamic_extent with
  | 1, 1, true => Some (sha_256_data_1x1 data)
  | 1, 1, false => Some (sha_256_word_1x1 data)
  | 1, 2, false => Some (sha_256_word_1x2 data)
  | 1, 4, false => Some (sha_256_word_1x4 data)
  | 1, 8, false => Some (sha_256_word_1x8 data)
  | 1, 16, false => Some (sha_256_word_1x16 data)
  | 2, 1, true => Some (sha_256_data_2x1 data)
  | 2, 1, false => Some (sha_256_hash_2x1 data)
  | 2, 2, false => Some (sha_256_hash_2x2 data)
  | 2, 4, false => Some (sha_256_hash_2x4 data)
  | 2, 8, false => Some (sha_256_hash_2x8 data)
  | 2, 16, false => Some (sha_256_hash_2x16 data)
  | _, _, _ => None
  end%nat.
