(* ===== verification/Sha256Spec.v ===== *)
(** * SHA-256, as FIPS 180-4 defines it

    An independent reference, on messages of whole bytes.  The constants are
    computed from their definition: the first bits of the fractional parts of
    roots of primes.  Nothing here is taken from the program. *)

From S2P Require Import Prelude.

(** ** Functions on 32-bit words *)

Definition add32 (x y : Z) : Z := (x + y) mod 2 ^ 32.
Definition not_word (x : Z) : Z := 2 ^ 32 - 1 - x.
Definition shr (n x : Z) : Z := Z.shiftr x n.
Definition rotr (n x : Z) : Z := Z.lor (Z.shiftr x n) (Z.shiftl x (32 - n) mod 2 ^ 32).

Definition choose (x y z : Z) : Z := Z.lxor (Z.land x y) (Z.land (not_word x) z).
Definition majority (x y z : Z) : Z := Z.lxor (Z.lxor (Z.land x y) (Z.land x z)) (Z.land y z).

(** The four sums of rotations; [last] is the third operand. *)
Definition sum3 (n m : Z) (last : Z -> Z) (x : Z) : Z := Z.lxor (Z.lxor (rotr n x) (rotr m x)) (last x).
Definition Sigma_0 : Z -> Z := sum3 2 13 (rotr 22).
Definition Sigma_1 : Z -> Z := sum3 6 11 (rotr 25).
Definition sigma_0 : Z -> Z := sum3 7 18 (shr 3).
Definition sigma_1 : Z -> Z := sum3 17 19 (shr 10).

(** ** Constants *)

(** Trial division up to the square root. *)
Definition is_prime (n : Z) : bool := (1 <? n) && forallb (fun d => negb (n mod d =? 0)) (seqZ 2 (Z.sqrt n - 1)).

Definition first_primes (k : nat) : list Z := take k (List.filter is_prime (seqZ 2 310)).

(** The integer cube root, by its bits. *)
Fixpoint cube_root (bits : nat) (n : Z) (r : Z) : Z :=
  match bits with
  | O => r
  | S bits =>
      let r' := r + 2 ^ Z.of_nat bits in
      cube_root bits n (if r' * r' * r' <=? n then r' else r)
  end.

(** The first 32 bits of the fractional part of the cube root, or square
    root, of [p]. *)
Definition cube_root_fraction (p : Z) : Z := cube_root 36 (p * 2 ^ 96) 0 mod 2 ^ 32.
Definition square_root_fraction (p : Z) : Z := Z.sqrt (p * 2 ^ 64) mod 2 ^ 32.

Definition round_constants : list Z := map cube_root_fraction (first_primes 64).
Definition initial_hash : list Z := map square_root_fraction (first_primes 8).

(** ** Processing a block *)

(** The word at the end of the schedule, from the sixteen before it. *)
Definition next_word (W : list Z) : Z :=
  let t := length W in
  let W_ k := nth (t - k) W 0 in
  add32 (add32 (add32 (sigma_1 (W_ 2%nat)) (W_ 7%nat)) (sigma_0 (W_ 15%nat))) (W_ 16%nat).

Definition schedule (block : list Z) : list Z := Nat.iter 48 (fun W => W ++ [next_word W]) block.

(** One step on the working variables. *)
Definition sha_step (v : list Z) (Kt Wt : Z) : list Z :=
  match v with
  | [a; b; c; d; e; f; g; h] =>
      let T1 := add32 (add32 (add32 (add32 h (Sigma_1 e)) (choose e f g)) Kt) Wt in
      let T2 := add32 (Sigma_0 a) (majority a b c) in
      [add32 T1 T2; a; b; c; add32 d T1; e; f; g]
  | _ => v
  end.

Definition process_block (H : list Z) (block : list Z) : list Z :=
  let W := schedule block in
  let v := foldl (fun v t => sha_step v (nth t round_constants 0) (nth t W 0)) H (seq 0 64) in
  zip_with add32 H v.

(** ** Messages *)

(** Numbers in big-endian order. *)
Definition be_value (bs : list Z) : Z := foldl (fun x b => 256 * x + b) 0 bs.
Definition be_bytes (n : nat) (x : Z) : list Z := map (fun k => Z.shiftr x (8 * Z.of_nat k) mod 256) (rev (seq 0 n)).

(** The words of 64 bytes. *)
Definition block_words (bs : list Z) : list Z :=
  map (fun k => be_value (take 4 (drop (4 * k)%nat bs))) (seq 0 16).

(** A bit 1, the least number of bits 0 that leaves room for the length, and
    the length in bits.  The bit 1 and the first seven 0 are a byte. *)
Definition padding (l : nat) : list Z :=
  let zeros := (448 - (8 * Z.of_nat l + 1)) mod 512 in
  [128] ++ repeat 0 (Z.to_nat ((zeros - 7) / 8)) ++ be_bytes 8 (8 * Z.of_nat l).

(** Blocks of 64 bytes. *)
Definition process (fuel : nat) (H : list Z) (bs : list Z) : list Z :=
  fold_blocks (fun H block => process_block H (block_words block)) 64 fuel H bs.

Definition sha_256 (message : list Z) : list Z :=
  let bs := message ++ padding (length message) in
  mjoin (map (be_bytes 4) (process (length bs) initial_hash bs)).
