(* ===== verification/Sha256Facts.v ===== *)
(** * The compression of SHA-256

    The circular buffers of the code hold the working variables and the last
    sixteen words of the schedule of FIPS 180-4. *)

From S2P Require Import Prelude SimdVector Sha256 Sha256Spec.

(** ** The schedule *)

Definition schedule_prefix (n : nat) (block : list Z) : list Z := Nat.iter n (fun W => W ++ [next_word W]) block.

Lemma schedule_is_prefix block : schedule block = schedule_prefix 48 block.
Proof. unfold schedule, schedule_prefix. reflexivity. Qed.

Lemma schedule_prefix_S n block :
  schedule_prefix (S n) block = schedule_prefix n block ++ [next_word (schedule_prefix n block)].
Proof. done. Qed.

Lemma length_schedule_prefix n block : length (schedule_prefix n block) = (length block + n)%nat.
Proof. induction n as [|n IH]; [by rewrite Nat.add_0_r|]. rewrite schedule_prefix_S, length_app, IH. cbn. lia. Qed.

Lemma schedule_prefix_block n block t :
  (t < length block)%nat -> nth t (schedule_prefix n block) 0 = nth t block 0.
Proof.
  intros Ht. induction n as [|n IH]; [done|]. rewrite schedule_prefix_S, app_nth1; [done|].
  rewrite length_schedule_prefix. lia.
Qed.

Lemma schedule_prefix_next n block t :
  (length block <= t < length block + n)%nat ->
  nth t (schedule_prefix n block) 0 = next_word (take t (schedule_prefix n block)).
Proof.
  induction n as [|n IH]; intros Ht; [lia|]. rewrite schedule_prefix_S.
  pose proof (length_schedule_prefix n block) as Hlen.
  destruct (decide (t = length block + n)%nat) as [->|].
  - rewrite app_nth2, Hlen, Nat.sub_diag by lia. cbn [nth]. by rewrite take_app_length' by lia.
  - rewrite app_nth1 by lia. rewrite take_app_le by lia. apply IH. lia.
Qed.

Lemma nth_take_lt (l : list Z) n k : (k < n)%nat -> nth k (take n l) 0 = nth k l 0.
Proof. intros. by rewrite !nth_lookup, lookup_take_lt. Qed.

(** The words of the schedule, from the seventeenth. *)
Lemma schedule_next block t :
  length block = 16%nat -> (16 <= t < 64)%nat ->
  let W k := nth (t - k) (schedule block) 0 in
  nth t (schedule block) 0 = add32 (add32 (add32 (sigma_1 (W 2%nat)) (W 7%nat)) (sigma_0 (W 15%nat))) (W 16%nat).
Proof.
  intros Hb Ht W. unfold W. rewrite schedule_is_prefix.
  rewrite schedule_prefix_next by lia. unfold next_word. cbv zeta.
  rewrite length_take_le by (rewrite length_schedule_prefix; lia). by rewrite !nth_take_lt by lia.
Qed.

(** ** Circular buffers *)

Lemma land_low k x : 0 <= k -> Z.land x (2 ^ k - 1) = x mod 2 ^ k.
Proof. intros. by rewrite <-Z.land_ones, Z.ones_equiv. Qed.

Lemma SHA256_SI_mod r k : SHA256_SI (r mod 16) k = Z.to_nat ((k - r) mod 8).
Proof.
  unfold SHA256_SI, uint64, uwrap. rewrite (land_low 3) by lia. f_equal. change (2 ^ 3) with 8.
  rewrite Z.mod_mod_divide by by exists (2 ^ 61).
  rewrite Zminus_mod, Z.mod_mod_divide, <-Zminus_mod by by exists 2. done.
Qed.

Lemma SHA256_WI_mod r k : SHA256_WI (r mod 16) k = Z.to_nat ((r - k) mod 16).
Proof.
  unfold SHA256_WI, uint64, uwrap. rewrite (land_low 4) by lia. f_equal. change (2 ^ 4) with 16.
  rewrite Z.mod_mod_divide by by exists (2 ^ 60). by rewrite Zminus_mod_idemp_l.
Qed.

(** ** The rounds on words *)
Section words.
#[local] Instance word_32 : WordVector Z := word_ops 32.
#[local] Instance add_32 : WordAdd Z := word_add 32.

Lemma at_index_insert (s : list Z) i j x :
  (i < length s)%nat -> at_index (<[i := x]> s) j = if decide (i = j) then x else at_index s j.
Proof.
  intros Hi. unfold at_index. rewrite !nth_lookup. case_decide as E; [subst j|by rewrite list_lookup_insert_ne].
  by rewrite list_lookup_insert_eq.
Qed.

(** Variable [k] of the specification is at index [SI r k] of the buffer. *)
Definition variables_at (r : Z) (s v : list Z) : Prop :=
  length s = 8%nat /\ length v = 8%nat /\
  forall k, 0 <= k < 8 -> at_index s (Z.to_nat ((k - r) mod 8)) = nth (Z.to_nat k) v 0.

Definition words_at (r : Z) (w block : list Z) : Prop :=
  length w = 16%nat /\ forall t, 0 <= t -> r - 16 <= t < r -> at_index w (Z.to_nat (t mod 16)) = nth (Z.to_nat t) (schedule block) 0.

Lemma index_range n x : 0 < n -> (Z.to_nat (x mod n) < Z.to_nat n)%nat.
Proof. intros. pose proof (Z.mod_pos_bound x n). lia. Qed.

Lemma index_inj n x y : 0 < n -> Z.to_nat (x mod n) = Z.to_nat (y mod n) -> x mod n = y mod n.
Proof. intros. pose proof (Z.mod_pos_bound x n). pose proof (Z.mod_pos_bound y n). lia. Qed.

Lemma same_residue n r k j : 0 <= k < n -> 0 <= j < n -> (k - r) mod n = (j - r) mod n -> k = j.
Proof.
  intros Hk Hj H. assert (Hm : (k - j) mod n = 0).
  { replace (k - j) with ((k - r) - (j - r)) by lia. rewrite Zminus_mod, H, Z.sub_diag. apply Zmod_0_l. }
  apply Z.mod_divide in Hm as [q Hq]; [|lia].
  assert (q = 0) by (destruct (Z.lt_trichotomy q 0) as [|[|]]; nia). lia.
Qed.

(** Sums modulo [2^32], in any order. *)
Ltac mod_sum :=
  repeat (rewrite ?Zplus_mod_idemp_l, <-?Z.add_assoc); rewrite ?Zplus_mod_idemp_r; f_equal; lia.

Lemma sum_T1 h e f g K x :
  wadd h (wadd (wadd (wadd x (SHA256_S1 e)) (SHA256_CH e f g)) K) =
  add32 (add32 (add32 (add32 h (Sigma_1 e)) (choose e f g)) K) x.
Proof.
  change (SHA256_S1 e) with (Sigma_1 e). change (SHA256_CH e f g) with (choose e f g).
  unfold add32, wadd, add_32, word_add, uwrap. mod_sum.
Qed.

(** The index of variable [k] in round [r], and an update of the buffer. *)
Definition slot (r k : Z) : nat := Z.to_nat ((k - r) mod 8).

Lemma slot_insert r s j k x :
  length s = 8%nat -> 0 <= j < 8 -> 0 <= k < 8 ->
  at_index (<[slot r j := x]> s) (slot r k) = if decide (k = j) then x else at_index s (slot r k).
Proof.
  intros Hs Hj Hk. rewrite at_index_insert by (rewrite Hs; apply (index_range 8); lia).
  destruct (decide (k = j)) as [->|Hne]; [by rewrite decide_True|]. rewrite decide_False; [done|].
  intros Heq. apply Hne. symmetry. apply (same_residue 8 r); try done. by apply index_inj.
Qed.

Lemma slot_next r k : slot (r + 1) k = slot r ((k + 7) mod 8).
Proof.
  unfold slot. f_equal. rewrite Zminus_mod_idemp_l. replace (k + 7 - r) with (k - (r + 1) + 1 * 8) by lia.
  by rewrite Z.mod_add.
Qed.

(** One round on the variables, given the word of the schedule. *)
Lemma variables_round r s v x :
  variables_at r s v ->
  let S := slot r in
  let K := nth (Z.to_nat r) SHA256_K 0 in
  let s1 := <[S 7 := wadd (at_index s (S 7))
              (wadd (wadd (wadd x (SHA256_S1 (at_index s (S 4))))
                 (SHA256_CH (at_index s (S 4)) (at_index s (S 5)) (at_index s (S 6)))) K)]> s in
  let s2 := <[S 3 := wadd (at_index s1 (S 3)) (at_index s1 (S 7))]> s1 in
  let s3 := <[S 7 := wadd (at_index s2 (S 7))
              (wadd (SHA256_S0 (at_index s2 (S 0))) (SHA256_MAJ (at_index s2 (S 0)) (at_index s2 (S 1)) (at_index s2 (S 2))))]> s2 in
  variables_at (r + 1) s3 (sha_step v K x).
Proof.
  intros (Hs & Hv & H) S K s1 s2 s3. destruct v as [|a [|b [|c [|d [|e [|f [|g [|h [|? ?]]]]]]]]]; try discriminate Hv.
  assert (H0 : at_index s (S 0) = a) by (by apply (H 0)). assert (H1 : at_index s (S 1) = b) by (by apply (H 1)).
  assert (H2 : at_index s (S 2) = c) by (by apply (H 2)). assert (H3 : at_index s (S 3) = d) by (by apply (H 3)).
  assert (H4 : at_index s (S 4) = e) by (by apply (H 4)). assert (H5 : at_index s (S 5) = f) by (by apply (H 5)).
  assert (H6 : at_index s (S 6) = g) by (by apply (H 6)). assert (H7 : at_index s (S 7) = h) by (by apply (H 7)).
  set (T1 := add32 (add32 (add32 (add32 h (Sigma_1 e)) (choose e f g)) K) x).
  set (T2 := add32 (Sigma_0 a) (majority a b c)).
  assert (E1 : forall k, 0 <= k < 8 -> at_index s1 (S k) = if decide (k = 7) then T1 else at_index s (S k)).
  { intros k Hk. unfold s1, S. rewrite slot_insert by done. fold S. by rewrite H4, H5, H6, H7, sum_T1. }
  assert (E2 : forall k, 0 <= k < 8 -> at_index s2 (S k) = if decide (k = 3) then add32 d T1 else at_index s1 (S k)).
  { intros k Hk. unfold s2, S. rewrite slot_insert by (done || by unfold s1; rewrite length_insert).
    fold S. by rewrite (E1 3), (E1 7), H3 by done. }
  assert (E3 : forall k, 0 <= k < 8 -> at_index s3 (S k) = if decide (k = 7) then add32 T1 T2 else at_index s2 (S k)).
  { intros k Hk. unfold s3, S. rewrite slot_insert by (done || by unfold s2, s1; rewrite !length_insert). fold S.
    rewrite (E2 7), (E2 0), (E2 1), (E2 2), (E1 7), (E1 0), (E1 1), (E1 2) by done. cbn [decide]. by rewrite H0, H1, H2. }
  split; [unfold s3, s2, s1; by rewrite !length_insert|]. split; [done|].
  intros k Hk. change (Z.to_nat ((k - (r + 1)) mod 8)) with (slot (r + 1) k).
  rewrite slot_next. fold S. rewrite E3, E2, E1 by (apply Z.mod_pos_bound; lia).
  clearbody s3 s2 s1 S. clear E1 E2 E3 H.
  assert (Hcases : k = 0 \/ k = 1 \/ k = 2 \/ k = 3 \/ k = 4 \/ k = 5 \/ k = 6 \/ k = 7) by lia.
  destruct Hcases as [->|[->|[->|[->|[->|[->|[->| ->]]]]]]];
    repeat (case_decide as E; try discriminate E; try (exfalso; by apply E)); assumption || reflexivity.
Qed.

Lemma SHA256_G0_sigma x : SHA256_G0 x = sigma_0 x.
Proof. done. Qed.
Lemma SHA256_G1_sigma x : SHA256_G1 x = sigma_1 x.
Proof. done. Qed.

(** One round on the words. *)
Lemma words_round r w block :
  0 <= r < 64 -> length block = 16%nat -> words_at r w block ->
  let wi := Z.to_nat (r mod 16) in
  let I k := Z.to_nat ((r - k) mod 16) in
  let w' := if r - r mod 16 =? 0 then <[wi := at_index block wi]> w
            else <[wi := wadd (at_index w wi)
                   (wadd (wadd (SHA256_G1 (at_index w (I 2))) (at_index w (I 7))) (SHA256_G0 (at_index w (I 15))))]> w in
  words_at (r + 1) w' block /\ at_index w' wi = nth (Z.to_nat r) (schedule block) 0.
Proof.
  intros Hr Hb [Hlen H] wi I w'. pose proof (Z.mod_pos_bound r 16 ltac:(lia)).
  assert (Hwi : (wi < length w)%nat) by (rewrite Hlen; apply (index_range 16); lia).
  assert (Hnew : at_index w' wi = nth (Z.to_nat r) (schedule block) 0).
  { unfold w'. destruct (Z.eqb_spec (r - r mod 16) 0) as [Hj|Hj]; rewrite at_index_insert, decide_True by done.
    - assert (r < 16) by (pose proof (Z.div_mod r 16 ltac:(lia)); pose proof (Z.mod_small r 16); lia).
      unfold wi. rewrite Z.mod_small by lia. symmetry. rewrite schedule_is_prefix. apply schedule_prefix_block. lia.
    - assert (16 <= r) by (destruct (Z.lt_ge_cases r 16); [rewrite Z.mod_small in Hj; lia|done]).
      rewrite (schedule_next block) by lia. unfold I.
      assert (Hat : forall k, 1 <= k <= 16 -> at_index w (Z.to_nat ((r - k) mod 16)) = nth (Z.to_nat r - Z.to_nat k) (schedule block) 0).
      { intros k Hk. rewrite H by lia. f_equal. lia. }
      assert (H16 : at_index w wi = nth (Z.to_nat r - Z.to_nat 16) (schedule block) 0).
      { rewrite <-Hat by lia. unfold wi. do 2 f_equal. replace (r - 16) with (r + -1 * 16) by lia. by rewrite Z.mod_add. }
      rewrite H16, !Hat by lia. change (Z.to_nat 16) with 16%nat. change (Z.to_nat 15) with 15%nat.
      change (Z.to_nat 7) with 7%nat. change (Z.to_nat 2) with 2%nat. rewrite SHA256_G1_sigma, SHA256_G0_sigma. unfold add32, wadd, add_32, word_add, uwrap. mod_sum. }
  split; [|done]. split; [unfold w'; by case_match; rewrite length_insert|]. intros t Ht0 Ht.
  destruct (decide (t = r)) as [->|]; [done|]. rewrite <-H by lia.
  assert (Hne : wi <> Z.to_nat (t mod 16)).
  { intros Heq. apply (index_inj 16) in Heq; [|lia]. assert (r - t = 0); [|lia].
    assert (Hm : (r - t) mod 16 = 0) by (by rewrite Zminus_mod, Heq, Z.sub_diag). rewrite Z.mod_small in Hm; lia. }
  unfold w'. case_match; by rewrite at_index_insert, decide_False.
Qed.

Lemma round_constants_K : round_constants = SHA256_K.
Proof. by vm_compute. Qed.

(** The loop of the code is the loop of the specification. *)
Lemma rounds_ok n block s v w :
  (n <= 64)%nat -> length block = 16%nat -> variables_at 0 s v -> words_at 0 w block ->
  let '(s', w') := foldl (compress_round block) (s, w) (seqZ 0 (Z.of_nat n)) in
  variables_at (Z.of_nat n) s'
    (foldl (fun v t => sha_step v (nth t round_constants 0) (nth t (schedule block) 0)) v (seq 0 n)) /\
  words_at (Z.of_nat n) w' block.
Proof.
  intros Hn Hb Hv Hw. induction n as [|n IH]; [done|].
  rewrite Nat2Z.inj_succ, <-Z.add_1_r, seqZ_app, seq_S, !foldl_app by lia. specialize (IH ltac:(lia)).
  destruct (foldl _ (s, w) _) as [s1 w1]. destruct IH as [IHv IHw].
  destruct (words_round (Z.of_nat n) w1 block ltac:(lia) Hb IHw) as [Hw' Hx].
  rewrite (seqZ_cons (0 + Z.of_nat n) 1) by lia. cbn [foldl seq]. change (seqZ _ (Z.pred 1)) with (@nil Z). cbn [foldl].
  unfold compress_round. rewrite Z.add_0_l, Nat.add_0_l.
  replace (Z.of_nat n mod 16 + (Z.of_nat n - Z.of_nat n mod 16)) with (Z.of_nat n) by lia.
  rewrite !SHA256_SI_mod, !SHA256_WI_mod. split; [|exact Hw'].
  rewrite Hx. rewrite round_constants_K. pose proof (variables_round _ _ _ (nth n (schedule block) 0) IHv) as Hv'.
  rewrite Nat2Z.id in Hv'. rewrite Nat2Z.id. unfold slot in Hv'. cbv zeta in Hv' |- *. exact Hv'.
Qed.

Lemma compress_block block state :
  length block = 16%nat -> length state = 8%nat -> compress block state = process_block state block.
Proof.
  intros Hb Hs. unfold compress, process_block.
  pose proof (rounds_ok 64 block state state (replicate 16 0) ltac:(lia) Hb) as H.
  change (Z.of_nat 64) with SHA256_ROUND_COUNT in H. change (replicate 16 (splat 0)) with (replicate 16 0).
  destruct (foldl (compress_round block) _ _) as [s w]. destruct H as [(Hls & Hlv & Hv) _].
  { split_and!; [done..|]. intros k Hk. unfold at_index. rewrite Z.sub_0_r, Z.mod_small by lia. done. }
  { split; [done|]. intros t Ht Ht'. lia. }
  f_equal. apply nth_ext with 0 0; [congruence|]. intros k Hk. rewrite Hls in Hk.
  specialize (Hv (Z.of_nat k) ltac:(lia)). rewrite Nat2Z.id in Hv. rewrite <-Hv. unfold at_index.
  change SHA256_ROUND_COUNT with (8 * 8). replace (Z.of_nat k - 8 * 8) with (Z.of_nat k + -8 * 8) by lia.
  rewrite Z.mod_add, Z.mod_small, Nat2Z.id by lia. done.
Qed.
End words.

(** * The context of SHA-256 processes the blocks of the padded message

    The lanes of the compression, the bytes that the loops put in the words,
    and the invariant of the context: in each lane, the state after the blocks
    that are complete, and the bytes of the last block. *)

(** ** The compression respects simulations *)
Section sim.
Context {V W : Type} {v : WordVector V} {va : WordAdd V} {w : WordVector W} {wa : WordAdd W}.
Context (R : V -> W -> Prop) `{!WordSim 32 v w R} `{!AddSim va wa R}.

Lemma at_index_sim a b k : Forall2 R a b -> R (at_index a k) (at_index b k).
Proof using All.
  intros H. unfold at_index. rewrite !nth_lookup. pose proof (proj1 (Forall2_lookup R a b) H k) as Hk.
  destruct Hk; [done|]. by apply sim_splat.
Qed.

Lemma Forall2_zip_with_words a b a' b' :
  Forall2 R a a' -> Forall2 R b b' -> Forall2 R (zip_with wadd a b) (zip_with wadd a' b').
Proof using All.
  intros Ha. revert b b'. induction Ha; intros b b' Hb; [done|]. destruct Hb; [done|]. constructor; [by apply sim_add|auto].
Qed.

Lemma constant_range k : is_u 32 (nth k SHA256_K 0).
Proof using Type.
  rewrite nth_lookup. destruct (SHA256_K !! k) as [x|] eqn:E; [|done].
  assert (Hall : Forall (is_u 32) SHA256_K) by (by apply (bool_decide_unpack _)).
  by apply (Forall_lookup_1 _ _ _ _ Hall E).
Qed.

(** Relates two runs of the same operations. *)
Ltac word_sim :=
  repeat first
    [ assumption
    | apply at_index_sim
    | apply sim_splat, constant_range
    | apply sim_xor | apply sim_and | apply sim_or | apply sim_add | apply sim_not
    | apply sim_shl; [done|] | apply sim_shr; [done|] ].

Lemma round_sim words words' s s' x x' r :
  Forall2 R words words' -> Forall2 R s s' -> Forall2 R x x' ->
  let '(s1, x1) := compress_round words (s, x) r in
  let '(s1', x1') := compress_round words' (s', x') r in
  Forall2 R s1 s1' /\ Forall2 R x1 x1'.
Proof using All.
  intros Hw Hs Hx. unfold compress_round. cbv zeta.
  match goal with |- context [if ?c then <[?i := ?a]> x else _] => set (x1 := if c then <[i := a]> x else _) end.
  match goal with |- context [if ?c then <[?i := ?a]> x' else _] => set (x1' := if c then <[i := a]> x' else _) end.
  assert (Hx1 : Forall2 R x1 x1') by (unfold x1, x1'; case_match; apply Forall2_insert; word_sim).
  clearbody x1 x1'. split; [|done].
  match goal with |- context [<[?i := ?a]> s] => set (s1 := <[i := a]> s) end.
  match goal with |- context [<[?i := ?a]> s'] => set (s1' := <[i := a]> s') end.
  assert (Hs1 : Forall2 R s1 s1') by (apply Forall2_insert; word_sim). clearbody s1 s1'.
  match goal with |- context [<[?i := ?a]> s1] => set (s2 := <[i := a]> s1) end.
  match goal with |- context [<[?i := ?a]> s1'] => set (s2' := <[i := a]> s1') end.
  assert (Hs2 : Forall2 R s2 s2') by (apply Forall2_insert; word_sim). clearbody s2 s2'.
  apply Forall2_insert; word_sim.
Qed.

Lemma compress_sim words words' state state' :
  Forall2 R words words' -> Forall2 R state state' -> Forall2 R (compress words state) (compress words' state').
Proof using All.
  intros Hw Hs. unfold compress.
  assert (Hloop : forall rs s s' x x', Forall2 R s s' -> Forall2 R x x' ->
    Forall2 R (foldl (compress_round words) (s, x) rs).1 (foldl (compress_round words') (s', x') rs).1).
  { induction rs as [|r rs IH]; intros s s' x x' H1 H2; [done|]. cbn [foldl].
    pose proof (round_sim words words' s s' x x' r Hw H1 H2) as H.
    destruct (compress_round words (s, x) r), (compress_round words' (s', x') r). by apply IH; apply H. }
  specialize (Hloop (seqZ 0 SHA256_ROUND_COUNT) state state' (replicate 16 (splat 0)) (replicate 16 (splat 0)) Hs).
  destruct (foldl _ _ _), (foldl _ _ _). apply Forall2_zip_with_words; [done|].
  apply Hloop, Forall2_replicate. by apply sim_splat.
Qed.
End sim.

(** ** Lanes *)
Section lanes.
Context (LaneCount : nat).

Definition lanes32_ok (v : list Z) : Prop := length v = LaneCount /\ Forall (is_u 32) v.
Definition words32_ok (n : nat) (words : list (list Z)) : Prop := length words = n /\ Forall lanes32_ok words.

(** The words of lane [l]. *)
Definition lane (words : list (list Z)) (l : nat) : list Z := map (fun v => nth l v 0) words.

Lemma length_lane words l : length (lane words l) = length words.
Proof using Type. apply length_map. Qed.

Lemma lane_insert words k v l : lane (<[k := v]> words) l = <[k := nth l v 0]> (lane words l).
Proof using Type. unfold lane. by rewrite list_fmap_insert. Qed.

Lemma lanes32_nth v l : lanes32_ok v -> (l < LaneCount)%nat -> v !! l = Some (nth l v 0) /\ is_u 32 (nth l v 0).
Proof using Type.
  intros [Hl Hr] Hlt. destruct (lookup_lt_is_Some_2 v l ltac:(lia)) as [x Hx]. rewrite nth_lookup, Hx.
  split; [done|]. by apply (Forall_lookup_1 _ _ _ _ Hr Hx).
Qed.

Lemma lane_sim n words l :
  words32_ok n words -> (l < LaneCount)%nat -> Forall2 (lane_is LaneCount l) words (lane words l).
Proof using Type.
  intros [_ Hok] Hl. unfold lane. apply Forall2_fmap_r. apply Forall_Forall2_diag.
  eapply Forall_impl; [exact Hok|]. intros v Hv. split; [apply Hv|]. by apply lanes32_nth.
Qed.

Lemma lane_of_sim words xs l : Forall2 (lane_is LaneCount l) words xs -> lane words l = xs.
Proof using Type.
  induction 1 as [|v x words xs [_ Hx] _ IH]; [done|].
  change (lane (v :: words) l) with (nth l v 0 :: lane words l). by rewrite IH, nth_lookup, Hx.
Qed.

Lemma lane_range n words l : words32_ok n words -> (l < LaneCount)%nat -> Forall (is_u 32) (lane words l).
Proof using Type.
  intros [_ Hok] Hl. apply Forall_fmap. eapply Forall_impl; [exact Hok|]. intros v Hv. by apply lanes32_nth.
Qed.

Lemma process_block_range H block : Forall (is_u 32) (process_block H block).
Proof using Type.
  unfold process_block. apply Forall_lookup_2. intros k x Hx. rewrite lookup_zip_with in Hx.
  apply bind_Some in Hx as (? & _ & Hx). apply bind_Some in Hx as (? & _ & [= <-]). by apply uwrap_range.
Qed.

Lemma length_process_block H block : length H = 8%nat -> length (process_block H block) = 8%nat.
Proof using Type.
  intros HH. unfold process_block. rewrite length_zip_with.
  assert (Hv : forall ts v, length v = 8%nat ->
    length (foldl (fun v t => sha_step v (nth t round_constants 0) (nth t (schedule block) 0)) v ts) = 8%nat).
  { induction ts as [|t ts IH]; intros v Hv; [done|]. cbn [foldl]. apply IH.
    by do 9 (destruct v as [|? v]; [done|]). }
  rewrite Hv by done. by rewrite HH.
Qed.

(** The compression in each lane. *)
Lemma compress_lanes words state :
  (0 < LaneCount)%nat -> words32_ok 16 words -> words32_ok 8 state ->
  let state' := @compress _ (lanes_ops 32 LaneCount) (lanes_add 32) words state in
  words32_ok 8 state' /\
  forall l, (l < LaneCount)%nat -> lane state' l = process_block (lane state l) (lane words l).
Proof using Type.
  intros HL Hw Hs state'.
  assert (Hlane : forall l, (l < LaneCount)%nat -> Forall2 (lane_is LaneCount l) state'
            (process_block (lane state l) (lane words l))).
  { intros l Hl. rewrite <-compress_block by (rewrite length_lane; by destruct Hw, Hs).
    pose proof (lanes_sim 32 LaneCount l Hl). pose proof (lanes_add_sim 32 LaneCount l).
    apply (compress_sim (lane_is LaneCount l)); by eapply lane_sim. }
  split; [|intros l Hl; by apply lane_of_sim, Hlane].
  assert (Hlen : length state' = 8%nat).
  { rewrite (Forall2_length _ _ _ (Hlane 0%nat HL)). apply length_process_block. rewrite length_lane. by destruct Hs. }
  split; [done|]. apply Forall_lookup_2. intros k v Hk. split.
  - destruct (Forall2_lookup_l _ _ _ _ _ (Hlane 0%nat HL) Hk) as (x & _ & Hv & _). done.
  - apply Forall_lookup_2. intros l x Hx.
    assert (Hl : (l < LaneCount)%nat).
    { destruct (Forall2_lookup_l _ _ _ _ _ (Hlane 0%nat HL) Hk) as (? & _ & <- & _). by eapply lookup_lt_Some. }
    destruct (Forall2_lookup_l _ _ _ _ _ (Hlane l Hl) Hk) as (y & Hy & _ & Hx').
    assert (x = y) as -> by congruence. by apply (Forall_lookup_1 _ _ _ _ (process_block_range _ _) Hy).
Qed.

(** ** Bytes of the words: the first is the highest *)

Definition word_byte (x : Z) (q : Z) : Z := Z.shiftr x (8 * (3 - q)) mod 256.
Definition lane_byte (words : list (list Z)) (l : nat) (q : Z) : Z :=
  word_byte (nth (Z.to_nat (q / 4)) (lane words l) 0) (q mod 4).

(** [words'] is [words] with the bytes [bs l] of lane [l] put at [pos]. *)
Definition puts (words words' : list (list Z)) (pos : Z) (bs : nat -> list Z) : Prop :=
  words32_ok 16 words' /\
  forall l q, (l < LaneCount)%nat -> 0 <= q < 64 ->
    lane_byte words' l q =
    if decide (pos <= q < pos + Z.of_nat (length (bs l))) then nth (Z.to_nat (q - pos)) (bs l) 0 else lane_byte words l q.

Lemma puts_ok words words' pos bs : puts words words' pos bs -> words32_ok 16 words'.
Proof using Type. by intros []. Qed.

Lemma puts_nil words pos : words32_ok 16 words -> puts words words pos (fun _ => []).
Proof using Type. intros Hok. split; [done|]. intros l q Hl Hq. rewrite decide_False; [done|]. cbn. lia. Qed.

Lemma puts_app words words1 words2 pos pos' bs cs :
  0 <= pos -> (forall l, (l < LaneCount)%nat -> pos' = pos + Z.of_nat (length (bs l))) ->
  puts words words1 pos bs -> puts words1 words2 pos' cs -> puts words words2 pos (fun l => bs l ++ cs l).
Proof using Type.
  intros Hpos Hlen [_ H1] [Hok H2]. split; [done|]. intros l q Hl Hq. rewrite H2, H1, length_app by done.
  specialize (Hlen l Hl). destruct (decide (pos' <= q < pos' + _)).
  - rewrite decide_True, app_nth2 by lia. f_equal. lia.
  - destruct (decide (pos <= q < pos + Z.of_nat (length (bs l)))).
    + rewrite decide_True, app_nth1 by lia. done.
    + by rewrite decide_False by lia.
Qed.

Lemma puts_ext words words' pos bs cs :
  (forall l, (l < LaneCount)%nat -> bs l = cs l) -> puts words words' pos bs -> puts words words' pos cs.
Proof using Type. intros H [Hok Ha]. split; [done|]. intros l q Hl Hq. rewrite <-H by done. by apply Ha. Qed.

(** Replacing word [k]: only its bytes change. *)
Lemma puts_insert words k v pos n bs :
  words32_ok 16 words -> lanes32_ok v -> (k < 16)%nat -> 0 <= n ->
  4 * Z.of_nat k <= pos -> pos + n <= 4 * Z.of_nat k + 4 ->
  (forall l q, (l < LaneCount)%nat -> 0 <= q < 4 -> Z.of_nat (length (bs l)) = n /\
     word_byte (nth l v 0) q =
     if decide (pos <= 4 * Z.of_nat k + q < pos + n) then nth (Z.to_nat (4 * Z.of_nat k + q - pos)) (bs l) 0
     else word_byte (nth k (lane words l) 0) q) ->
  puts words (<[k := v]> words) pos bs.
Proof using Type.
  intros [Hlen Hok] Hv Hk Hn Hlo Hhi Hb. split; [split; [by rewrite length_insert|by apply Forall_insert]|].
  intros l q Hl Hq. pose proof (Z.div_mod q 4 ltac:(lia)). pose proof (Z.mod_pos_bound q 4 ltac:(lia)).
  assert (0 <= q / 4 < 16) by (split; [apply Z.div_pos|apply Z.div_lt_upper_bound]; lia).
  destruct (Hb l (q mod 4) Hl ltac:(lia)) as [Hbl Hbyte]. rewrite Hbl.
  unfold lane_byte. rewrite lane_insert, nth_lookup.
  destruct (decide (Z.to_nat (q / 4) = k)) as [Hqk|Hqk].
  - rewrite Hqk, list_lookup_insert_eq by (rewrite length_lane; lia). cbn [from_option id]. rewrite Hbyte.
    replace (4 * Z.of_nat k + q mod 4) with q by lia. done.
  - rewrite list_lookup_insert_ne, <-nth_lookup by done. rewrite decide_False; [done|]. lia.
Qed.

(** ** Bytes of a word *)

Lemma word_byte_nth x q : 0 <= q < 4 -> word_byte x q = nth (Z.to_nat (3 - q)) (le_bytes 4 x) 0.
Proof using Type.
  intros Hq. unfold word_byte, le_bytes. rewrite nth_lookup.
  replace (Z_to_little_endian 4 8 x !! Z.to_nat (3 - q)) with (Some (Z.land (Z.shiftr x (8 * (3 - q))) (Z.ones 8))).
  - cbn [from_option id]. by rewrite Z.land_ones.
  - symmetry. apply Z_to_little_endian_lookup_Some; [done..|]. split; [lia|]. f_equal. f_equal. lia.
Qed.

Lemma le_value_byte b bs : is_u 8 b -> le_value (b :: bs) = b + 256 * le_value bs.
Proof using Type.
  intros Hb. unfold le_value. cbn [little_endian_to_Z]. rewrite lor_disjoint, Z.shiftl_mul_pow2 by
    (done || by rewrite <-(uwrap_small 8 b Hb); apply low_high_disjoint). lia.
Qed.

Lemma be_value_rev bs : Forall (is_u 8) bs -> be_value bs = le_value (rev bs).
Proof using Type.
  induction bs as [|b bs IH] using rev_ind; intros Hbs; [done|]. apply Forall_app in Hbs as [Hbs Hb]. inv Hb.
  unfold be_value in *. rewrite foldl_app, rev_app_distr. cbn [foldl rev app].
  rewrite IH, le_value_byte by done. lia.
Qed.

Lemma le_bytes_value bs : Forall (is_u 8) bs -> le_bytes (Z.of_nat (length bs)) (le_value bs) = bs.
Proof using Type. intros Hbs. by apply Z_to_little_endian_to_Z. Qed.

(** A word is the number of its bytes. *)
Lemma word_of_bytes x bs :
  is_u 32 x -> length bs = 4%nat -> Forall (is_u 8) bs ->
  (forall q, 0 <= q < 4 -> word_byte x q = nth (Z.to_nat q) bs 0) -> x = be_value bs.
Proof using Type.
  intros Hx Hlen Hbs Hq. rewrite be_value_rev by done. rewrite <-(uwrap_small 32 x Hx), <-(le_value_bytes 4) by done.
  f_equal. apply nth_ext with 0 0; [by rewrite length_le_bytes, length_rev, Hlen|].
  intros n Hn. rewrite length_le_bytes in Hn by done.
  specialize (Hq (3 - Z.of_nat n) ltac:(lia)). rewrite word_byte_nth in Hq by lia.
  replace (Z.to_nat (3 - (3 - Z.of_nat n))) with n in Hq by lia. rewrite Hq, rev_nth by lia. f_equal. lia.
Qed.

Lemma word_byte_be bs q :
  length bs = 4%nat -> Forall (is_u 8) bs -> 0 <= q < 4 -> word_byte (le_value (rev bs)) q = nth (Z.to_nat q) bs 0.
Proof using Type.
  intros Hlen Hbs Hq. rewrite word_byte_nth by done. replace 4 with (Z.of_nat (length (rev bs))) by (rewrite length_rev; lia).
  rewrite le_bytes_value by by apply Forall_rev. rewrite rev_nth by lia. f_equal. lia.
Qed.

Lemma be_bytes_range bs : length bs = 4%nat -> Forall (is_u 8) bs -> is_u 32 (le_value (rev bs)).
Proof using Type.
  intros Hlen Hbs. pose proof (le_bytes_value (rev bs) ltac:(by apply Forall_rev)) as H. rewrite length_rev, Hlen in H.
  rewrite <-H, le_value_bytes by done. by apply uwrap_range.
Qed.

Lemma bswap32_bytes bs : length bs = 4%nat -> Forall (is_u 8) bs -> bswap32 (le_value bs) = le_value (rev bs).
Proof using Type. intros Hlen Hbs. unfold bswap32. replace 4 with (Z.of_nat (length bs)) by lia. by rewrite le_bytes_value. Qed.

(** The bytes of a hash word, as it is stored. *)
Lemma le_bytes_bswap32 x : le_bytes 4 (bswap32 x) = be_bytes 4 x.
Proof using Type.
  unfold bswap32. replace 4 with (Z.of_nat (length (rev (le_bytes 4 x)))) at 1 by by rewrite length_rev, length_le_bytes.
  rewrite le_bytes_value by (apply Forall_rev, Z_to_little_endian_bound; done).
  apply nth_ext with 0 0; [by rewrite length_rev, length_le_bytes|]. intros n Hn. rewrite length_rev, length_le_bytes in Hn by done.
  rewrite rev_nth, length_le_bytes by (rewrite ?length_le_bytes; lia).
  replace (Z.to_nat 4 - S n)%nat with (Z.to_nat (3 - Z.of_nat n)) by lia. rewrite <-word_byte_nth by lia.
  unfold word_byte. do 4 (destruct n as [|n]; [done|]). lia.
Qed.

Lemma testbit_word_byte x q i : 0 <= q < 4 -> 0 <= i < 8 -> Z.testbit (word_byte x q) i = Z.testbit x (i + 8 * (3 - q)).
Proof using Type.
  intros Hq Hi. unfold word_byte. change 256 with (2 ^ 8). fold (uwrap 8 (Z.shiftr x (8 * (3 - q)))).
  by rewrite testbit_uwrap, bool_decide_true, Z.shiftr_spec by lia.
Qed.

Lemma word_byte_range x q : is_u 8 (word_byte x q).
Proof using Type. by apply Z.mod_pos_bound. Qed.

Lemma word_byte_ext x b q :
  0 <= q < 4 -> is_u 8 b -> (forall i, 0 <= i < 8 -> Z.testbit x (i + 8 * (3 - q)) = Z.testbit b i) -> word_byte x q = b.
Proof using Type.
  intros Hq Hb H. apply Z.bits_inj'. intros i Hi. destruct (Z.lt_ge_cases i 8).
  - by rewrite testbit_word_byte, H by lia.
  - by rewrite !(is_u_testbit 8) by (done || apply word_byte_range || lia).
Qed.

Lemma testbit_255 i : Z.testbit 255 i = (0 <=? i) && (i <? 8).
Proof using Type.
  destruct (Z.leb_spec 0 i); [|apply Z.testbit_neg_r; lia]. change 255 with (Z.ones 8). rewrite testbit_ones by lia.
  cbn [andb]. by destruct (Z.ltb_spec i 8); [rewrite bool_decide_true|rewrite bool_decide_false by lia].
Qed.

(** Replacing a byte of a word, as a store does. *)
Definition replace_byte (x bj b : Z) : Z := Z.lor (Z.land x (not32 (Z.shiftl 255 (8 * bj)))) (Z.shiftl b (8 * bj)).

Lemma byte_mask_range bj : 0 <= bj < 4 -> is_u 32 (Z.shiftl 255 (8 * bj)).
Proof using Type.
  intros Hbj. assert (Hc : bj = 0 \/ bj = 1 \/ bj = 2 \/ bj = 3) by lia.
  by destruct Hc as [->|[->|[->| ->]]].
Qed.

Lemma replace_byte_range x bj b : is_u 32 x -> is_u 8 b -> 0 <= bj < 4 -> is_u 32 (replace_byte x bj b).
Proof using Type.
  intros Hx Hb Hbj. apply testbit_is_u; [done|]. intros i Hi. unfold replace_byte.
  rewrite Z.lor_spec, Z.land_spec, (is_u_testbit 32 x), Z.shiftl_spec by (done || lia). cbn.
  apply (is_u_testbit 8); [done|lia].
Qed.

Lemma word_byte_replace x bj b q :
  is_u 32 x -> is_u 8 b -> 0 <= bj < 4 -> 0 <= q < 4 ->
  word_byte (replace_byte x bj b) q = if decide (q = 3 - bj) then b else word_byte x q.
Proof using Type.
  intros Hx Hb Hbj Hq. apply word_byte_ext; [done|case_decide; [done|apply word_byte_range]|].
  intros i Hi. unfold replace_byte, not32.
  rewrite Z.lor_spec, Z.land_spec, testbit_word_not, !Z.shiftl_spec, testbit_255 by (lia || by apply byte_mask_range).
  rewrite bool_decide_true by lia. case_decide as E.
  - subst q. replace (i + 8 * (3 - (3 - bj)) - 8 * bj) with i by lia.
    rewrite (proj2 (Z.leb_le 0 i)), (proj2 (Z.ltb_lt i 8)) by lia. cbn. by rewrite andb_false_r.
  - rewrite testbit_word_byte by done. set (j := i + 8 * (3 - q) - 8 * bj).
    assert (Hj : j < 0 \/ 8 <= j) by lia.
    assert ((0 <=? j) && (j <? 8) = false) as -> by (destruct (Z.leb_spec 0 j), (Z.ltb_spec j 8); done || lia).
    cbn. rewrite andb_true_r. replace (Z.testbit b j) with false; [by rewrite orb_false_r|]. symmetry.
    destruct Hj; [by apply Z.testbit_neg_r|by apply (is_u_testbit 8)].
Qed.

(** The [word_vector_type{} | data_word] of the code. *)
Lemma or_zero v : length v = LaneCount -> @wor _ (lanes_ops 32 LaneCount) (@splat _ (lanes_ops 32 LaneCount) 0) v = v.
Proof using Type. intros <-. cbn. induction v as [|x v IH]; [done|]. cbn. f_equal. apply IH. Qed.

(** ** The loops put the bytes of the messages in the words *)

Lemma alter_insert {A} (f : A -> A) k (l : list A) d : (k < length l)%nat -> alter f k l = <[k := f (nth k l d)]> l.
Proof using Type.
  intros Hk. apply list_eq. intros j. destruct (decide (j = k)) as [->|].
  - rewrite list_lookup_alter_eq, list_lookup_insert_eq, nth_lookup by done.
    by destruct (lookup_lt_is_Some_2 l k Hk) as [x ->].
  - by rewrite list_lookup_alter_ne, list_lookup_insert_ne by congruence.
Qed.

Lemma nth_zip_data (f : Z -> list Z -> Z) w data len l :
  length w = LaneCount -> data_ok LaneCount data len -> (l < LaneCount)%nat ->
  nth l (zip_with f w data) 0 = f (nth l w 0) (message data l).
Proof using Type.
  intros Hw Hd Hl. destruct (data_ok_message _ _ _ _ Hd Hl) as [Hm _]. rewrite nth_lookup, lookup_zip_with, Hm.
  rewrite nth_lookup. by destruct (lookup_lt_is_Some_2 w l ltac:(lia)) as [x ->].
Qed.

Lemma lanes32_zip (f : Z -> list Z -> Z) w data len :
  lanes32_ok w -> data_ok LaneCount data len ->
  (forall x l, (l < LaneCount)%nat -> is_u 32 x -> is_u 32 (f x (message data l))) -> lanes32_ok (zip_with f w data).
Proof using Type.
  intros [Hl Hr] Hd Hf. split; [rewrite length_zip_with; destruct Hd; lia|].
  apply Forall_lookup_2. intros l x Hx. rewrite lookup_zip_with in Hx.
  apply bind_Some in Hx as (y & Hy & Hx). apply bind_Some in Hx as (d & Hd' & [= <-]).
  assert (Hlt : (l < LaneCount)%nat) by (apply lookup_lt_Some in Hy; lia).
  assert (d = message data l) as -> by (unfold message; by rewrite nth_lookup, Hd').
  apply Hf; [done|]. by apply (Forall_lookup_1 _ _ _ _ Hr Hy).
Qed.

Lemma nth_lane words k l : nth k (lane words l) 0 = nth l (nth k words []) 0.
Proof using Type. rewrite !nth_lookup. unfold lane. rewrite list_lookup_fmap.
  destruct (words !! k); cbn; [by rewrite nth_lookup|by rewrite lookup_nil].
Qed.

Lemma words32_nth n words k : words32_ok n words -> (k < n)%nat -> lanes32_ok (nth k words []).
Proof using Type.
  intros [Hlen Hok] Hk. rewrite nth_lookup. destruct (lookup_lt_is_Some_2 words k ltac:(lia)) as [v Hv]. rewrite Hv.
  by apply (Forall_lookup_1 _ _ _ _ Hok Hv).
Qed.

Lemma nth_message_byte data len l i :
  data_ok LaneCount data len -> (l < LaneCount)%nat -> 0 <= i < len -> is_u 8 (nth (Z.to_nat i) (message data l) 0).
Proof using Type.
  intros Hd Hl Hi. destruct (data_ok_message _ _ _ _ Hd Hl) as (_ & Hm & Hb). rewrite nth_lookup.
  destruct (lookup_lt_is_Some_2 (message data l) (Z.to_nat i) ltac:(lia)) as [b Hb']. rewrite Hb'.
  by apply (Forall_lookup_1 _ _ _ _ Hb Hb').
Qed.

Lemma set_data_byte_puts data len words pos i j :
  words32_ok 16 words -> data_ok LaneCount data len -> 0 <= pos -> 0 <= i -> 0 <= j -> pos + j < 64 -> i + j < len ->
  puts words (set_data_byte data pos i words j) (pos + j) (fun l => piece (i + j) 1 (message data l)).
Proof using Type.
  intros Hok Hd Hpos Hi Hj Hp Hlen. set (p := pos + j) in *. unfold set_data_byte. fold p.
  pose proof (Z.div_mod p 4 ltac:(lia)). pose proof (Z.mod_pos_bound p 4 ltac:(lia)).
  assert (0 <= p / 4 < 16) by (split; [apply Z.div_pos|apply Z.div_lt_upper_bound]; lia).
  rewrite (alter_insert _ _ _ []) by (destruct Hok; lia).
  assert (Hv : lanes32_ok (nth (Z.to_nat (p / 4)) words [])) by (apply (words32_nth 16); [done|lia]).
  apply puts_insert with 1; try done; try lia.
  - apply lanes32_zip with len; [done..|]. intros x l Hl Hx. apply (replace_byte_range x (4 - 1 - p mod 4)); [done| |lia].
    apply nth_message_byte with len; lia || done.
  - intros l q Hl Hq. destruct (data_ok_message _ _ _ _ Hd Hl) as (_ & Hm & _). rewrite length_piece by lia.
    split; [done|]. rewrite nth_zip_data with (len := len) by (done || apply Hv). rewrite nth_lane.
    assert (Hb : is_u 8 (nth (Z.to_nat (i + j)) (message data l) 0)) by (apply nth_message_byte with len; done || lia).
    pose proof (word_byte_replace (nth l (nth (Z.to_nat (p / 4)) words []) 0) (4 - 1 - p mod 4) _ q
      (proj2 (lanes32_nth _ l Hv Hl)) Hb ltac:(lia) Hq) as Hr. unfold replace_byte in Hr. rewrite Hr.
    rewrite piece_one by lia. case_decide.
    + rewrite decide_True by lia. replace (4 * Z.of_nat (Z.to_nat (p / 4)) + q - p) with 0 by lia. done.
    + by rewrite decide_False by lia.
Qed.

Lemma set_data_word_puts data len words pos i j :
  words32_ok 16 words -> data_ok LaneCount data len -> 0 <= pos -> 0 <= i -> 0 <= j -> pos + j < 64 -> i + j + 4 <= len ->
  (pos + j) mod 4 = 0 ->
  puts words (set_data_word LaneCount data pos i words j) (pos + j) (fun l => piece (i + j) 4 (message data l)).
Proof using Type.
  intros Hok Hd Hpos Hi Hj Hp Hlen Hm4. set (p := pos + j) in *. unfold set_data_word. fold p.
  pose proof (Z.div_mod p 4 ltac:(lia)).
  assert (0 <= p / 4 < 16) by (split; [apply Z.div_pos|apply Z.div_lt_upper_bound]; lia).
  set (f d := bswap32 (le_value (piece (i + j) 4 d))).
  set (v := @wor _ _ _ _).
  assert (Hv : v = map f data).
  { unfold v. apply or_zero. rewrite length_map. apply Hd. }
  assert (Hf : forall l, (l < LaneCount)%nat -> f (message data l) = le_value (rev (piece (i + j) 4 (message data l)))).
  { intros l Hl. destruct (data_ok_message _ _ _ _ Hd Hl) as (_ & Hm & Hb).
    apply bswap32_bytes; [|by apply piece_bytes]. pose proof (length_piece (i + j) 4 (message data l)). lia. }
  assert (Hnth : forall l, (l < LaneCount)%nat -> nth l (map f data) 0 = f (message data l))
    by (intros l Hl; by apply (message_map LaneCount f data len)).
  rewrite Hv. apply puts_insert with 4; try done; try lia.
  - split; [rewrite length_map; apply Hd|]. apply Forall_lookup_2. intros l x Hx.
    assert (Hl : (l < LaneCount)%nat) by (apply lookup_lt_Some in Hx; rewrite length_map in Hx; destruct Hd; lia).
    specialize (Hnth l Hl). rewrite nth_lookup, Hx in Hnth. cbn in Hnth. subst x. rewrite Hf by done.
    destruct (data_ok_message _ _ _ _ Hd Hl) as (_ & Hm & Hb).
    apply be_bytes_range; [|by apply piece_bytes]. pose proof (length_piece (i + j) 4 (message data l)). lia.
  - intros l q Hl Hq. destruct (data_ok_message _ _ _ _ Hd Hl) as (_ & Hm & Hb). pose proof (length_piece (i + j) 4 (message data l)).
    split; [lia|]. rewrite Hnth, Hf by done. rewrite decide_True by lia.
    rewrite word_byte_be; [|lia|by apply piece_bytes|done]. do 2 f_equal. lia.
Qed.
End lanes.
