(* ===== verification/Sha256Context.v ===== *)
(** * The context of SHA-256 computes the hash

    The invariant of [update], the padding that [finish] writes in the last
    block or two, and the hash. *)

From S2P Require Import Prelude Bits SimdVector Sha256 Sha256Spec Sha256Facts.

(** ** Blocks *)

Lemma process_app n fuel H P Q :
  length P = (64 * n)%nat -> (n <= fuel)%nat -> process fuel H (P ++ Q) = process (fuel - n) (process n H P) Q.
Proof. intros. apply fold_blocks_app; [lia|done..]. Qed.

Lemma process_one H bs : length bs = 64%nat -> process 1 H bs = process_block H (block_words bs).
Proof. intros. apply (fold_blocks_one (fun H block => process_block H (block_words block))); [done|lia]. Qed.

Lemma process_end fuel H : process fuel H [] = H.
Proof. apply fold_blocks_nil. Qed.

Section context.
Context (LaneCount : nat) (DataExtent : option Z).

(** The 64 bytes of the words of a lane. *)
Definition lane_holds (words : list (list Z)) (l : nat) (n : Z) (bs : list Z) : Prop :=
  forall q, 0 <= q < n -> lane_byte words l q = nth (Z.to_nat q) bs 0.

Lemma lane_block words l bs :
  words32_ok LaneCount 16 words -> (l < LaneCount)%nat -> length bs = 64%nat -> Forall (is_u 8) bs ->
  lane_holds words l 64 bs -> lane words l = block_words bs.
Proof using Type.
  intros Hok Hl Hlen Hbs H. unfold block_words. apply nth_ext with 0 0.
  { rewrite length_lane, length_map, length_seq. by destruct Hok. }
  intros k Hk. rewrite length_lane in Hk. destruct Hok as [H16 Hok]. rewrite H16 in Hk.
  rewrite (nth_lookup (map _ _)). change (map ?f ?x) with (f <$> x). rewrite list_lookup_fmap, lookup_seq_lt by done.
  cbn [fmap option_fmap option_map from_option id Nat.add]. apply word_of_bytes.
  - apply (Forall_nth (is_u 32)); [|by rewrite length_lane, H16]. by apply (lane_range LaneCount 16).
  - rewrite length_take, length_drop. lia.
  - by apply Forall_take, Forall_drop.
  - intros q Hq. specialize (H (4 * Z.of_nat k + q) ltac:(lia)). unfold lane_byte in H.
    rewrite (Z.mul_comm 4), Z.div_add_l, Z.div_small, Z.add_0_r, Z.add_comm, Z.mod_add, Z.mod_small, Nat2Z.id in H by lia.
    rewrite H, !nth_lookup, lookup_take_lt, lookup_drop by lia. f_equal. f_equal. lia.
Qed.

Lemma nth_lane_range words l k : words32_ok LaneCount 16 words -> (l < LaneCount)%nat -> is_u 32 (nth k (lane words l) 0).
Proof using Type.
  intros Hok Hl. rewrite nth_lookup. destruct (lane words l !! k) as [x|] eqn:E; [|done].
  by apply (Forall_lookup_1 _ _ _ _ (lane_range LaneCount 16 words l Hok Hl) E).
Qed.

(** ** Zeros *)

Lemma zero_words words l n a m :
  words32_ok LaneCount n words -> (a + m <= n)%nat ->
  let words' := foldl (fun words x => <[x := replicate LaneCount 0]> words) words (seq a m) in
  words32_ok LaneCount n words' /\
  ((l < LaneCount)%nat -> forall k, nth k (lane words' l) 0 = if decide (a <= k < a + m)%nat then 0 else nth k (lane words l) 0).
Proof using Type.
  intros Hok. revert words Hok. induction m as [|m IH]; intros words Hok Hm words'.
  { split; [done|]. intros Hl k. by rewrite decide_False by lia. }
  unfold words'. rewrite seq_S, foldl_app. cbn [foldl].
  destruct (IH words Hok ltac:(lia)) as [Hok' H]. set (w := foldl _ words (seq a m)) in *. split.
  - split; [rewrite length_insert; apply Hok'|]. apply Forall_insert; [apply Hok'|].
    split; [apply length_replicate|by apply Forall_replicate].
  - intros Hl k. rewrite lane_insert, nth_lookup. destruct (decide (k = a + m)%nat) as [->|].
    + rewrite list_lookup_insert_eq by (rewrite length_lane; destruct Hok'; lia). rewrite decide_True by lia.
      cbn. by rewrite nth_lookup, lookup_replicate_2.
    + rewrite list_lookup_insert_ne, <-nth_lookup, H by done. repeat case_decide; done || lia.
Qed.

(** ** The bit after the message *)

Definition mark (x bj : Z) : Z :=
  Z.lor (Z.land x (uint32 (Z.shiftl 0xffffff00 (bj * 8)))) (uint32 (Z.shiftl 0x00000080 (bj * 8))).

Lemma mark_range x bj : is_u 32 x -> is_u 32 (mark x bj).
Proof using Type.
  intros Hx. apply testbit_is_u; [done|]. intros i Hi. unfold mark, uint32.
  rewrite Z.lor_spec, Z.land_spec, (is_u_testbit 32 x), !testbit_uwrap, !bool_decide_false by (done || lia). done.
Qed.

Lemma word_byte_mark x bj q :
  is_u 32 x -> 0 <= bj < 4 -> 0 <= q < 4 ->
  word_byte (mark x bj) q = if decide (q < 3 - bj) then word_byte x q else if decide (q = 3 - bj) then 128 else 0.
Proof using Type.
  intros Hx Hbj Hq. apply word_byte_ext; [done|repeat case_decide; done || apply word_byte_range|].
  intros i Hi. unfold mark.
  assert (Hm : uint32 (Z.shiftl 0xffffff00 (bj * 8)) = Z.shiftl (Z.ones (24 - 8 * bj)) (8 * bj + 8)).
  { assert (Hc : bj = 0 \/ bj = 1 \/ bj = 2 \/ bj = 3) by lia. by destruct Hc as [->|[->|[->| ->]]]. }
  assert (Hb : uint32 (Z.shiftl 0x00000080 (bj * 8)) = 2 ^ (8 * bj + 7)).
  { assert (Hc : bj = 0 \/ bj = 1 \/ bj = 2 \/ bj = 3) by lia. by destruct Hc as [->|[->|[->| ->]]]. }
  rewrite Hm, Hb, Z.lor_spec, Z.land_spec, Z.shiftl_spec, Z.pow2_bits_eqb by lia.
  set (n := i + 8 * (3 - q)). destruct (Z.lt_ge_cases n (8 * bj + 8)) as [Hn|Hn].
  - rewrite (Z.testbit_neg_r (Z.ones _)), andb_false_r by lia. cbn [orb]. rewrite decide_False by lia.
    case_decide as E.
    + subst q. change 128 with (2 ^ 7). rewrite Z.pow2_bits_eqb by lia.
      destruct (Z.eqb_spec (8 * bj + 7) n), (Z.eqb_spec 7 i); done || lia.
    + rewrite Z.bits_0. apply Z.eqb_neq. lia.
  - rewrite testbit_ones, bool_decide_true by lia. rewrite (proj2 (Z.eqb_neq _ _)) by lia.
    rewrite decide_True by lia. by rewrite andb_true_r, orb_false_r, testbit_word_byte by lia.
Qed.

(** ** The invariant *)

Definition hashed (msg : list Z) (H : list Z) (words : list (list Z)) (l : nat) (pos len : Z) : Prop :=
  exists full rest, msg = full ++ rest /\ Forall (is_u 8) msg /\ 0 <= len /\ length full = (64 * Z.to_nat len)%nat /\
    pos = Z.of_nat (length rest) /\ H = process (Z.to_nat len) initial_hash full /\ lane_holds words l pos rest.

Definition by_words4 : Prop := exists extent, DataExtent = Some extent /\ extent mod 4 = 0.
Definition extent32_ok (n : Z) : Prop := match DataExtent with Some extent => n = extent | None => True end.

Definition sha_ok (msg : nat -> list Z) (c : sha_256_context) : Prop :=
  words32_ok LaneCount 16 (m_words c) /\ words32_ok LaneCount 8 (m_state c) /\ 0 <= pos c < 64 /\
  (by_words4 -> pos c mod 4 = 0) /\
  forall l, (l < LaneCount)%nat -> hashed (msg l) (lane (m_state c) l) (m_words c) l (pos c) (len c).

Lemma sha_ok_ext msg msg' c :
  (forall l, (l < LaneCount)%nat -> msg l = msg' l) -> sha_ok msg c -> sha_ok msg' c.
Proof using Type. intros H (? & ? & ? & ? & Ha). do 4 (split; [assumption|]). intros l Hl. rewrite <-H by done. by apply Ha. Qed.

(** More bytes in the same block, and bytes that complete it. *)
Lemma hashed_put msg H words words' l pos len bs :
  hashed msg H words l pos len -> Forall (is_u 8) bs -> pos + Z.of_nat (length bs) <= 64 ->
  (forall q, 0 <= q < 64 -> lane_byte words' l q =
     if decide (pos <= q < pos + Z.of_nat (length bs)) then nth (Z.to_nat (q - pos)) bs 0 else lane_byte words l q) ->
  hashed (msg ++ bs) H words' l (pos + Z.of_nat (length bs)) len.
Proof using Type.
  intros (full & rest & -> & Hb & Hlen & Hfull & -> & -> & Hh) Hbs Hfit Hput. exists full, (rest ++ bs).
  split_and!; try done; [by rewrite app_assoc|by apply Forall_app|rewrite length_app; lia|].
  intros q Hq. rewrite Hput by lia. case_decide.
  - rewrite app_nth2 by lia. f_equal. lia.
  - rewrite app_nth1 by lia. apply Hh. lia.
Qed.

Lemma hashed_block msg H words l len :
  words32_ok LaneCount 16 words -> (l < LaneCount)%nat -> hashed msg H words l 64 len ->
  hashed msg (process_block H (lane words l)) words l 0 (len + 1).
Proof using Type.
  intros Hok Hl (full & rest & -> & Hb & Hlen & Hfull & Hr & -> & Hh). exists (full ++ rest), [].
  apply Forall_app in Hb as Hb'. destruct Hb' as [_ Hrest]. rewrite (Z2Nat.inj_add len 1) by lia.
  split_and!; try done; try lia; [by rewrite app_nil_r|rewrite length_app; lia| |intros q Hq; lia].
  rewrite (process_app (Z.to_nat len)), Nat.add_sub' by (done || lia).
  rewrite (lane_block words l rest), process_one; done || lia.
Qed.

Lemma fill_step_puts data n words pos i step :
  words32_ok LaneCount 16 words -> data_ok LaneCount data n -> 0 <= pos -> 0 <= i -> 0 <= step ->
  pos + step <= 64 -> i + step <= n -> (by_words4 -> pos mod 4 = 0 /\ step mod 4 = 0) ->
  puts LaneCount words (fill_step LaneCount DataExtent data pos i step words) pos (fun l => piece i step (message data l)).
Proof using Type.
  intros Hok Hd Hpos Hi Hstep Hp Hlen Hw. unfold fill_step.
  pose proof (puts_ok LaneCount) as Hrel. pose proof (puts_nil LaneCount) as Hnil.
  pose proof (puts_app LaneCount) as Happ. pose proof (puts_ext LaneCount) as Hext.
  destruct (match DataExtent with Some extent => extent mod 4 =? 0 | None => false end) eqn:E.
  - destruct Hw as [Hp4 Hs4]; [unfold by_words4; destruct DataExtent as [extent|]; [|done]; exists extent; split; [done|lia]|].
    apply (fold_words LaneCount (words32_ok LaneCount 16) _ Hrel Hnil Happ Hext _ data n words pos i 4); try done; try lia.
    intros. apply set_data_word_puts with n; done || lia.
  - apply (fold_bytes LaneCount (words32_ok LaneCount 16) _ Hrel Hnil Happ Hext _ data n); try done.
    intros. apply set_data_byte_puts with n; done || lia.
Qed.

Lemma step_mod_4 n p i :
  by_words4 -> extent32_ok n -> p mod 4 = 0 -> i mod 4 = 0 -> Z.min (64 - p) (n - i) mod 4 = 0.
Proof using Type.
  intros (extent & E & He) Hext Hp Hi. unfold extent32_ok in Hext. rewrite E in Hext. subst extent.
  destruct (Z.min_spec (64 - p) (n - i)) as [[_ ->]|[_ ->]]; rewrite Zminus_mod, ?Hp, ?Hi, ?He; done.
Qed.

Lemma sha_update_loop_ok fuel data n i msg c :
  data_ok LaneCount data n -> extent32_ok n -> (0 < LaneCount)%nat ->
  0 <= i <= n -> n - i <= Z.of_nat fuel -> (by_words4 -> i mod 4 = 0) ->
  sha_ok (fun l => msg l ++ piece 0 i (message data l)) c ->
  sha_ok (fun l => msg l ++ message data l) (sha_256_update_loop LaneCount DataExtent fuel data n i c).
Proof using Type.
  intros Hd Hext HL. revert i c. induction fuel as [|fuel IH]; intros i c Hi Hfuel Hi4 Hctx; cbn [sha_256_update_loop].
  { eapply sha_ok_ext; [|exact Hctx]. intros l Hl. destruct (data_ok_message _ _ _ _ Hd Hl) as (_ & Hm & _).
    f_equal. unfold piece. by rewrite drop_0, take_ge by lia. }
  destruct (Z.ltb_spec i n) as [Hlt|Hge].
  2: { eapply sha_ok_ext; [|exact Hctx]. intros l Hl. destruct (data_ok_message _ _ _ _ Hd Hl) as (_ & Hm & _).
       f_equal. unfold piece. by rewrite drop_0, take_ge by lia. }
  change SHA256_BUF_SIZE with 64. destruct Hctx as (Hok & Hst & Hpos & Hp4 & Habs). destruct c as [words state p len0].
  cbn [m_words m_state pos len] in *.
  set (step := Z.min (64 - p) (n - i)).
  assert (Hs4 : by_words4 -> step mod 4 = 0) by (intros Hw; apply step_mod_4; auto).
  pose proof (fill_step_puts data n words p i step Hok Hd ltac:(lia) ltac:(lia) ltac:(lia) ltac:(lia) ltac:(lia)
                (fun Hw => conj (Hp4 Hw) (Hs4 Hw))) as [Hok' Hputs].
  set (words' := fill_step _ _ _ _ _ _ _) in *.
  assert (Hput : forall l, (l < LaneCount)%nat ->
            hashed (msg l ++ piece 0 (i + step) (message data l)) (lane state l) words' l (p + step) len0).
  { intros l Hl. destruct (data_ok_message _ _ _ _ Hd Hl) as (_ & Hm & Hb).
    pose proof (length_piece i step (message data l) ltac:(lia) ltac:(lia) ltac:(lia)) as Hsl.
    pose proof (piece_app 0 i step (message data l) ltac:(lia) ltac:(lia) ltac:(lia)) as Hsp.
    rewrite Hsp, Z.add_0_l, app_assoc. specialize (Hputs l). pose proof (piece_bytes i step _ Hb) as Hbs.
    set (bs := piece i step (message data l)) in *. clearbody bs. rewrite <-Hsl.
    apply hashed_put with words; [by apply Habs|done|lia|]. intros q Hq. by apply Hputs. }
  assert (Hi4' : by_words4 -> (i + step) mod 4 = 0) by (intros Hw; rewrite Zplus_mod, Hi4, Hs4 by done; done).
  destruct (Z.leb_spec 64 (p + step)) as [Hfull|Hpart]; apply IH; try lia; try done; unfold sha_ok; cbn [m_words m_state pos len].
  - destruct (compress_lanes LaneCount words' state HL Hok' Hst) as [Hst' Hlane]. split_and!; try done.
    intros l Hl. rewrite Hlane by done. apply hashed_block; [done..|]. replace 64 with (p + step) by lia. by apply Hput.
  - split_and!; try done; try lia. intros Hw. by rewrite Zplus_mod, Hp4, Hs4.
Qed.

Definition part32_ok (data : list (list Z)) : Prop := exists n, data_ok LaneCount data n /\ extent32_ok n.

Lemma sha_updates_ok data msg c :
  (0 < LaneCount)%nat -> Forall part32_ok data -> sha_ok msg c ->
  sha_ok (fun l => msg l ++ concatenation data l) (foldl (sha_256_update LaneCount DataExtent) c data).
Proof using Type.
  intros HL Hdata. revert msg c. induction Hdata as [|d data (n & Hd & Hext) _ IH]; intros msg c Hctx.
  { eapply sha_ok_ext; [|exact Hctx]. intros l Hl. by rewrite app_nil_r. }
  cbn [foldl].
  assert (Hlen : Z.of_nat (length (nth 0 d [])) = n) by (by destruct (data_ok_message _ _ _ 0 Hd HL) as (_ & Hm & _)).
  assert (Hu : sha_ok (fun l => msg l ++ message d l) (sha_256_update LaneCount DataExtent c d)).
  { unfold sha_256_update. rewrite Hlen. apply sha_update_loop_ok; try done; try lia.
    eapply sha_ok_ext; [|exact Hctx]. intros l Hl. by rewrite app_nil_r. }
  eapply sha_ok_ext; [|exact (IH _ _ Hu)]. intros l Hl. cbn beta. unfold concatenation. cbn [map]. by rewrite <-app_assoc.
Qed.

(** ** The last block *)

(** An operation of a word of every lane with a scalar. *)
Lemma alter_splat (f : Z -> Z -> Z) k words x n :
  words32_ok LaneCount n words -> (k < n)%nat -> (forall y, is_u 32 y -> is_u 32 (f y x)) ->
  let words' := alter (fun v => zip_with f v (replicate LaneCount x)) k words in
  words32_ok LaneCount n words' /\
  forall l, (l < LaneCount)%nat -> forall j,
    nth j (lane words' l) 0 = if decide (j = k) then f (nth j (lane words l) 0) x else nth j (lane words l) 0.
Proof using Type.
  intros Hok Hk Hf words'. pose proof (words32_nth LaneCount n words k Hok Hk) as [Hlen Hr].
  assert (Hw : words' = <[k := zip_with f (nth k words []) (replicate LaneCount x)]> words).
  { unfold words'. rewrite (alter_insert _ _ _ []); [done|]. destruct Hok. lia. }
  rewrite Hw. split; [split; [rewrite length_insert; apply Hok|apply Forall_insert; [apply Hok|]]|].
  - split; [rewrite length_zip_with, length_replicate; lia|]. apply Forall_lookup_2. intros l y Hy.
    rewrite lookup_zip_with in Hy. apply bind_Some in Hy as (u & Hu & Hy). apply bind_Some in Hy as (w & Hx & [= <-]).
    apply lookup_replicate in Hx as [-> _]. by apply Hf, (Forall_lookup_1 _ _ _ _ Hr Hu).
  - intros l Hl j. rewrite lane_insert, nth_lookup. destruct (decide (j = k)) as [->|].
    + rewrite list_lookup_insert_eq by (rewrite length_lane; destruct Hok; lia). cbn [from_option id].
      rewrite nth_lane, nth_lookup, lookup_zip_with, lookup_replicate_2 by done.
      rewrite (nth_lookup (nth k words [])). by destruct (lookup_lt_is_Some_2 (nth k words []) l ltac:(lia)) as [y ->].
    + by rewrite list_lookup_insert_ne, <-nth_lookup by congruence.
Qed.

(** The words of the last block: the message, a bit 1, and zeros. *)
Definition marked (c : sha_256_context) : list (list Z) :=
  let bi := Z.to_nat (pos c / 4) in
  let bj := 4 - 1 - pos c mod 4 in
  let words := alter (fun v => zip_with Z.land v (replicate LaneCount (uint32 (Z.shiftl 0xffffff00 (bj * 8))))) bi (m_words c) in
  let words := alter (fun v => zip_with Z.lor v (replicate LaneCount (uint32 (Z.shiftl 0x00000080 (bj * 8))))) bi words in
  foldl (fun words x => <[x := replicate LaneCount 0]> words) words (seq (bi + 1) (Z.to_nat SHA256_BUF_WORD_COUNT - (bi + 1))).

Lemma land_u32 x y : is_u 32 x -> is_u 32 (Z.land x y).
Proof using Type.
  intros Hx. apply testbit_is_u; [done|]. intros i Hi. by rewrite Z.land_spec, (is_u_testbit 32 x) by (done || lia).
Qed.

Lemma marked_ok c rest l :
  words32_ok LaneCount 16 (m_words c) -> 0 <= pos c < 64 -> pos c = Z.of_nat (length rest) -> (l < LaneCount)%nat ->
  lane_holds (m_words c) l (pos c) rest ->
  words32_ok LaneCount 16 (marked c) /\
  lane_holds (marked c) l 64 (rest ++ [128] ++ repeat 0 (63 - length rest)).
Proof using Type.
  intros Hok Hpos Hr Hl Hh. unfold marked. set (p := pos c) in *. set (bi := Z.to_nat (p / 4)). set (bj := 4 - 1 - p mod 4).
  pose proof (Z.div_mod p 4 ltac:(lia)). pose proof (Z.mod_pos_bound p 4 ltac:(lia)).
  assert (0 <= p / 4 < 16) by (split; [apply Z.div_pos|apply Z.div_lt_upper_bound]; lia).
  destruct (alter_splat Z.land bi (m_words c) (uint32 (Z.shiftl 0xffffff00 (bj * 8))) 16 Hok ltac:(lia)) as [Hok1 Hw1].
  { intros. by apply land_u32. }
  set (w1 := alter _ _ (m_words c)) in *.
  destruct (alter_splat Z.lor bi w1 (uint32 (Z.shiftl 0x00000080 (bj * 8))) 16 Hok1 ltac:(lia)) as [Hok2 Hw2].
  { intros. apply lor_range; [done|done|]. by apply uwrap_range. }
  set (w2 := alter _ _ w1) in *.
  destruct (zero_words w2 l 16 (bi + 1) (16 - (bi + 1)) Hok2 ltac:(lia)) as [Hok3 Hw3]. split; [exact Hok3|].
  intros q Hq. unfold lane_byte. specialize (Hw3 Hl (Z.to_nat (q / 4))).
  change (Z.to_nat SHA256_BUF_WORD_COUNT) with 16%nat. rewrite Hw3. cbn [app].
  pose proof (Z.div_mod q 4 ltac:(lia)). pose proof (Z.mod_pos_bound q 4 ltac:(lia)).
  assert (0 <= q / 4 < 16) by (split; [apply Z.div_pos|apply Z.div_lt_upper_bound]; lia).
  assert (Hin : q < p -> nth (Z.to_nat q) (rest ++ 128 :: repeat 0 (63 - length rest)) 0 = nth (Z.to_nat q) rest 0)
    by (intros; apply app_nth1; lia).
  assert (Hout : p < q -> nth (Z.to_nat q) (rest ++ 128 :: repeat 0 (63 - length rest)) 0 = 0).
  { intros. rewrite app_nth2 by lia. destruct (Z.to_nat q - length rest)%nat eqn:E; [lia|]. apply nth_repeat. }
  case_decide as Ehi; [rewrite Hout by lia; unfold word_byte; by rewrite Z.shiftr_0_l|].
  rewrite Hw2, Hw1 by done. case_decide as Ebi.
  - fold (mark (nth (Z.to_nat (q / 4)) (lane (m_words c) l) 0) bj). rewrite word_byte_mark; [|by apply nth_lane_range|lia|lia].
    repeat case_decide; try lia.
    + rewrite Hin by lia. by apply Hh; lia.
    + replace (Z.to_nat q) with (length rest) by lia. by rewrite app_nth2, Nat.sub_diag by lia.
  - rewrite Hin by lia. by apply Hh; lia.
Qed.

(** The length in bits at the end of the last block. *)
Definition with_length (bits : Z) (words : list (list Z)) : list (list Z) :=
  let words := alter (fun v => zip_with Z.lor v (replicate LaneCount (uint32 (Z.shiftr (uint64 bits) 32)))) 14%nat words in
  alter (fun v => zip_with Z.lor v (replicate LaneCount (uint32 (uint64 bits)))) 15%nat words.

Lemma nth_be_bytes x q : 0 <= q < 8 -> nth (Z.to_nat q) (be_bytes 8 x) 0 = Z.shiftr x (8 * (7 - q)) mod 256.
Proof using Type.
  intros Hq. assert (Hc : q = 0 \/ q = 1 \/ q = 2 \/ q = 3 \/ q = 4 \/ q = 5 \/ q = 6 \/ q = 7) by lia.
  by destruct Hc as [->|[->|[->|[->|[->|[->|[->| ->]]]]]]].
Qed.

Lemma word_byte_length bits q k :
  0 <= q < 4 -> k = 0 \/ k = 32 ->
  word_byte (uint32 (Z.shiftr (uint64 bits) k)) q = Z.shiftr bits (8 * (3 - q) + k) mod 256.
Proof using Type.
  intros Hq Hk. apply word_byte_ext; [done|by apply Z.mod_pos_bound|]. intros i Hi. unfold uint32, uint64.
  change 256 with (2 ^ 8). fold (uwrap 8 (Z.shiftr bits (8 * (3 - q) + k))).
  rewrite !testbit_uwrap, !Z.shiftr_spec, testbit_uwrap by lia. rewrite !bool_decide_true by lia. cbn. f_equal. lia.
Qed.

Lemma zero_word words l k pre :
  words32_ok LaneCount 16 words -> (l < LaneCount)%nat -> length pre = 56%nat -> k = 14%nat \/ k = 15%nat ->
  lane_holds words l 64 (pre ++ repeat 0 8) -> nth k (lane words l) 0 = 0.
Proof using Type.
  intros Hok Hl Hpre Hk Hh. transitivity (be_value [0; 0; 0; 0]); [|done]. apply word_of_bytes; [by apply nth_lane_range|done| |].
  { by repeat constructor. }
  intros q Hq. specialize (Hh (4 * Z.of_nat k + q) ltac:(lia)). unfold lane_byte in Hh.
  rewrite (Z.mul_comm 4), Z.div_add_l, Z.div_small, Z.add_0_r, Z.add_comm, Z.mod_add, Z.mod_small, Nat2Z.id in Hh by lia.
  rewrite Hh, app_nth2, nth_repeat by lia. symmetry. apply (nth_repeat 0 4).
Qed.

Lemma with_length_ok words l pre bits :
  words32_ok LaneCount 16 words -> (l < LaneCount)%nat -> length pre = 56%nat ->
  lane_holds words l 64 (pre ++ repeat 0 8) ->
  words32_ok LaneCount 16 (with_length bits words) /\
  lane_holds (with_length bits words) l 64 (pre ++ be_bytes 8 bits).
Proof using Type.
  intros Hok Hl Hpre Hh. unfold with_length.
  destruct (alter_splat Z.lor 14 words (uint32 (Z.shiftr (uint64 bits) 32)) 16 Hok ltac:(lia)) as [Hok1 Hw1].
  { intros. apply lor_range; [done|done|by apply uwrap_range]. }
  set (w1 := alter _ _ words) in *.
  destruct (alter_splat Z.lor 15 w1 (uint32 (uint64 bits)) 16 Hok1 ltac:(lia)) as [Hok2 Hw2].
  { intros. apply lor_range; [done|done|by apply uwrap_range]. }
  split; [exact Hok2|]. set (w2 := alter _ _ w1) in *. intros q Hq. unfold lane_byte.
  pose proof (Z.div_mod q 4 ltac:(lia)). pose proof (Z.mod_pos_bound q 4 ltac:(lia)).
  assert (0 <= q / 4 < 16) by (split; [apply Z.div_pos|apply Z.div_lt_upper_bound]; lia).
  rewrite Hw2, Hw1 by done.
  assert (Hend : 56 <= q -> nth (Z.to_nat q) (pre ++ be_bytes 8 bits) 0 = Z.shiftr bits (8 * (7 - (q - 56))) mod 256).
  { intros. rewrite app_nth2, <-nth_be_bytes by lia. f_equal. lia. }
  destruct (decide (Z.to_nat (q / 4) = 15%nat)) as [E|E].
  - rewrite E, decide_False, (zero_word words l 15 pre), Z.lor_0_l by (done || lia || by right).
    rewrite <-(Z.shiftr_0_r (uint64 bits)), word_byte_length, Hend by (lia || by left). do 2 f_equal. lia.
  - case_decide as E'.
    + rewrite E', (zero_word words l 14 pre), Z.lor_0_l by (done || lia || by left).
      rewrite word_byte_length, Hend by (lia || by right). do 2 f_equal. lia.
    + pose proof (Hh q Hq) as Hhq. rewrite app_nth1 in Hhq by lia. rewrite app_nth1 by lia. exact Hhq.
Qed.

(** ** The hash *)

Lemma padding_short r n :
  (r < 56)%nat -> padding (64 * n + r) = ([128] ++ repeat 0 (55 - r)) ++ be_bytes 8 (8 * Z.of_nat (64 * n + r)).
Proof using Type.
  intros Hr. unfold padding. rewrite <-app_assoc. do 3 f_equal. 
  assert (Hz : (448 - (8 * Z.of_nat (64 * n + r) + 1)) mod 512 = 447 - 8 * Z.of_nat r)
    by (symmetry; apply Z.mod_unique with (- Z.of_nat n); lia).
  rewrite Hz. replace (447 - 8 * Z.of_nat r - 7) with (Z.of_nat (55 - r) * 8) by lia. by rewrite Z.div_mul, Nat2Z.id.
Qed.

Lemma padding_long r n :
  (56 <= r < 64)%nat ->
  padding (64 * n + r) = ([128] ++ repeat 0 (63 - r)) ++ repeat 0 56 ++ be_bytes 8 (8 * Z.of_nat (64 * n + r)).
Proof using Type.
  intros Hr. unfold padding.
  assert (Hz : (448 - (8 * Z.of_nat (64 * n + r) + 1)) mod 512 = 959 - 8 * Z.of_nat r)
    by (symmetry; apply Z.mod_unique with (- Z.of_nat n - 1); lia).
  rewrite Hz. replace (959 - 8 * Z.of_nat r - 7) with (Z.of_nat (63 - r + 56) * 8) by lia.
  rewrite Z.div_mul, Nat2Z.id, repeat_app, <-!app_assoc by lia. done.
Qed.

Lemma bytes_zero n : Forall (is_u 8) (repeat 0 n).
Proof using Type. apply Forall_forall. intros x Hx. apply list_elem_of_In, repeat_spec in Hx. by subst x. Qed.

Lemma bytes_be_bytes n x : Forall (is_u 8) (be_bytes n x).
Proof using Type. apply Forall_fmap, Forall_forall. intros k _. by apply Z.mod_pos_bound. Qed.

(** The state from which the hash is read. *)
Definition compress_in_lanes := @compress _ (lanes_ops 32 LaneCount) (lanes_add 32).

Definition long_state (bits : Z) (c : sha_256_context) : list (list Z) :=
  compress_in_lanes
    (with_length bits (foldl (fun words x => <[x := replicate LaneCount 0]> words) (marked c) (seq 0 16)))
    (compress_in_lanes (marked c) (m_state c)).

Definition short_state (bits : Z) (c : sha_256_context) : list (list Z) :=
  compress_in_lanes (with_length bits (marked c)) (m_state c).

Definition final_state (c : sha_256_context) : list (list Z) :=
  let bits := (len c * 64 + pos c) * 8 in
  if 56 <=? pos c then long_state bits c else short_state bits c.

(** The last two blocks, when the length does not fit in the first, or the last one. *)
Lemma final_long c (full rest : list Z) (n : nat) (l : nat) :
  (0 < LaneCount)%nat -> (l < LaneCount)%nat ->
  words32_ok LaneCount 16 (marked c) -> words32_ok LaneCount 8 (m_state c) ->
  Forall (is_u 8) rest -> length full = (64 * n)%nat -> lane (m_state c) l = process n initial_hash full ->
  lane_holds (marked c) l 64 (rest ++ [128] ++ repeat 0 (63 - length rest)) ->
  (56 <= length rest < 64)%nat ->
  let bits := 8 * Z.of_nat (64 * n + length rest) in
  let msg := full ++ rest ++ padding (64 * n + length rest) in
  words32_ok LaneCount 8 (long_state bits c) /\
  lane (long_state bits c) l = process (length msg) initial_hash msg.
Proof using Type.
  intros HL Hl Hokm Hst Hrest Hfull HH Hm Hlong bits. cbv zeta. set (r := length rest) in *.
  unfold long_state.
  rewrite padding_long by lia. fold bits. set (b1 := rest ++ [128] ++ repeat 0 (63 - r)) in Hm. pose (b2 := repeat 0 56 ++ be_bytes 8 bits).
  assert (Hb1 : length b1 = 64%nat) by (unfold b1; rewrite !length_app, repeat_length; cbn; lia).
  assert (Hb2 : length b2 = 64%nat) by done.
  assert (Hu1 : Forall (is_u 8) b1) by (unfold b1; apply Forall_app; split; [done|by constructor; [|apply bytes_zero]]).
  assert (Hu2 : Forall (is_u 8) b2) by (apply Forall_app; split; [apply bytes_zero|apply bytes_be_bytes]).
  replace (full ++ rest ++ ([128] ++ repeat 0 (63 - r)) ++ repeat 0 56 ++ be_bytes 8 bits) with (full ++ b1 ++ b2)
    by (unfold b1; by rewrite <-!app_assoc).
  destruct (compress_lanes LaneCount (marked c) (m_state c) HL Hokm Hst) as [Hst1 Hl1].
  destruct (zero_words (marked c) l 16 0 16 Hokm ltac:(lia)) as [Hokz Hz].
  set (zeros := foldl _ (marked c) _) in *.
  destruct (with_length_ok zeros l (repeat 0 56) bits Hokz Hl ltac:(done)) as [Hokw Hw].
  { intros q Hq. unfold lane_byte. assert (0 <= q / 4 < 16) by (split; [apply Z.div_pos|apply Z.div_lt_upper_bound]; lia).
    rewrite Hz, decide_True by (done || lia). unfold word_byte. rewrite Z.shiftr_0_l, <-repeat_app. symmetry. apply nth_repeat. }
  destruct (compress_lanes LaneCount (with_length bits zeros) _ HL Hokw Hst1) as [Hst2 Hl2]. split; [exact Hst2|].
  rewrite Hl2, Hl1, (lane_block (marked c) l b1), (lane_block (with_length bits zeros) l b2), HH by done.
  clearbody b1 b2. rewrite !length_app, Hfull, Hb1, Hb2, (process_app n) by (done || lia).
  replace (64 * n + (64 + 64) - n)%nat with (63 * n + 126 + 1 + 1)%nat by lia.
  rewrite (process_app 1), Nat.add_sub, process_one by (done || lia).
  rewrite <-(app_nil_r b2), (process_app 1), process_end, process_one, app_nil_r by (done || lia). done.
Qed.

Lemma final_short c (full rest : list Z) (n : nat) (l : nat) :
  (0 < LaneCount)%nat -> (l < LaneCount)%nat ->
  words32_ok LaneCount 16 (marked c) -> words32_ok LaneCount 8 (m_state c) ->
  Forall (is_u 8) rest -> length full = (64 * n)%nat -> lane (m_state c) l = process n initial_hash full ->
  lane_holds (marked c) l 64 (rest ++ [128] ++ repeat 0 (63 - length rest)) ->
  (length rest < 56)%nat ->
  let bits := 8 * Z.of_nat (64 * n + length rest) in
  let msg := full ++ rest ++ padding (64 * n + length rest) in
  words32_ok LaneCount 8 (short_state bits c) /\
  lane (short_state bits c) l = process (length msg) initial_hash msg.
Proof using Type.
  intros HL Hl Hokm Hst Hrest Hfull HH Hm Hshort bits. cbv zeta. set (r := length rest) in *.
  unfold short_state.
  rewrite padding_short by lia. fold bits. pose (b1 := rest ++ [128] ++ repeat 0 (55 - r)). pose (b := b1 ++ be_bytes 8 bits).
  assert (Hb1 : length b1 = 56%nat) by (unfold b1; rewrite !length_app, repeat_length; cbn; lia).
  assert (Hbl : length b = 64%nat) by (unfold b; by rewrite length_app, Hb1).
  assert (Hu : Forall (is_u 8) b).
  { apply Forall_app; split; [|apply bytes_be_bytes]. apply Forall_app; split; [done|by constructor; [|apply bytes_zero]]. }
  replace (full ++ rest ++ ([128] ++ repeat 0 (55 - r)) ++ be_bytes 8 bits) with (full ++ b)
    by (unfold b, b1; by rewrite <-!app_assoc).
  destruct (with_length_ok (marked c) l b1 bits Hokm Hl Hb1) as [Hokw Hw].
  { intros q Hq. rewrite Hm by done. unfold b1. rewrite <-!app_assoc, <-repeat_app. do 4 f_equal. lia. }
  destruct (compress_lanes LaneCount (with_length bits (marked c)) _ HL Hokw Hst) as [Hst2 Hl2]. split; [exact Hst2|].
  rewrite Hl2, (lane_block (with_length bits (marked c)) l b), HH by done. clearbody b. rewrite !length_app, Hfull, Hbl, (process_app n) by (done || lia).
  replace (64 * n + 64 - n)%nat with (63 * n + 63 + 1)%nat by lia.
  rewrite <-(app_nil_r b), (process_app 1), process_end, process_one, app_nil_r by (done || lia). done.
Qed.

Lemma final_state_ok msg c l :
  (0 < LaneCount)%nat -> sha_ok msg c -> (l < LaneCount)%nat ->
  words32_ok LaneCount 8 (final_state c) /\
  lane (final_state c) l =
    process (length (msg l ++ padding (length (msg l)))) initial_hash (msg l ++ padding (length (msg l))).
Proof using Type.
  intros HL (Hok & Hst & Hpos & _ & Hh) Hl. destruct (Hh l Hl) as (full & rest & -> & Hb & Hlen & Hfull & Hr & HH & Hhold).
  apply Forall_app in Hb as [_ Hrest].
  destruct (marked_ok c rest l Hok Hpos Hr Hl Hhold) as [Hokm Hm]. unfold final_state.
  replace ((len c * 64 + pos c) * 8) with (8 * Z.of_nat (64 * Z.to_nat (len c) + length rest)) by lia.
  rewrite <-!app_assoc, (length_app full rest), Hfull.
  destruct (Z.leb_spec 56 (pos c)); [apply final_long|apply final_short]; done || lia.
Qed.


#[local] Opaque compress.

(** [finish] reads the hash of each message out of the final state. *)
Lemma sha_finish_ok msg c l :
  sha_ok msg c -> (l < LaneCount)%nat -> nth l (sha_256_finish LaneCount c) [] = sha_256 (msg l).
Proof using Type.
  intros Hc Hl. destruct (final_state_ok msg c l ltac:(lia) Hc Hl) as [[Hlen _] Hlane].
  transitivity (mjoin (map (be_bytes 4) (lane (final_state c) l))).
  - assert (Hfinish : sha_256_finish LaneCount c =
      map (fun l => mjoin (map (fun i => le_bytes 4 (bswap32 (nth l (nth (Z.to_nat (i / 4)) (final_state c) []) 0)))
                               [0; 4; 8; 12; 16; 20; 24; 28])) (seq 0 LaneCount)).
    { unfold sha_256_finish, final_state, long_state, short_state, marked. change (SHA256_LENGTH_WORD_INDEX * 4) with 56.
      destruct (56 <=? pos c); reflexivity. }
    rewrite Hfinish, nth_lookup, list_lookup_fmap, lookup_seq_lt by done. cbn [fmap option_fmap option_map from_option id Nat.add].
    f_equal. unfold lane. rewrite map_map. set (state := final_state c) in *. clearbody state.
    do 8 (destruct state as [|? state]; [done|]). destruct state; [|done]. cbn [map]. rewrite !le_bytes_bswap32. done.
  - by rewrite Hlane.
Qed.

Lemma sha_init_ok : sha_ok (fun _ => []) (sha_256_init LaneCount).
Proof using Type.
  assert (Hz : lanes32_ok LaneCount (replicate LaneCount 0)) by (split; [apply length_replicate|by apply Forall_replicate]).
  split; [split; [done|by apply Forall_replicate]|].
  split; [split; [done|cbn [m_state sha_256_init map];
    repeat (apply Forall_cons; split; [split; [apply length_replicate|by apply Forall_replicate]|]); by apply Forall_nil]|].
  split; [done|]. split; [done|]. intros l Hl. exists [], []. split_and!; try done; [|intros q Hq; cbn in Hq; lia].
  cbn [m_state sha_256_init]. unfold lane. rewrite map_map.
  transitivity [0x6a09e667; 0xbb67ae85; 0x3c6ef372; 0xa54ff53a; 0x510e527f; 0x9b05688c; 0x1f83d9ab; 0x5be0cd19]; [|by vm_compute].
  cbn. by rewrite !nth_lookup, !lookup_replicate_2.
Qed.

(** The hash of each message is its SHA-256. *)
Lemma sha_256_simd_concat_hash_ok data l :
  Forall part32_ok data -> (l < LaneCount)%nat ->
  nth l (sha_256_simd_concat_hash LaneCount DataExtent data) [] = sha_256 (concatenation data l).
Proof using Type.
  intros Hdata Hl. unfold sha_256_simd_concat_hash.
  apply (sha_finish_ok (fun l => [] ++ concatenation data l)); [|done].
  apply sha_updates_ok; [lia|done|apply sha_init_ok].
Qed.
End context.
