(* ===== verification/VariantHasher.v ===== *)
(** * The hasher of a machine (src/variant-hasher.hpp, src/i-hasher.hpp)

    A machine hashes with Keccak-256 or with SHA-256; both have the interface
    [i_hasher], and [variant_hasher] is the choice of one at run time. *)

From S2P Require Import Prelude HashTree Keccak256 Sha256.

Inductive hash_function_type := keccak256 | sha256.

#[export] Instance hash_function_type_eq_dec : EqDecision hash_function_type.
Proof. solve_decision. Defined.

(** [std::variant] of the two hashers; they have no state. *)
Definition variant_hasher : Type := hash_function_type.

(** The constructor, from the number of the enumeration. *)
Definition variant_hasher_new (algo : Z) : outcome variant_hasher :=
  if algo =? 0 then mret keccak256
  else if algo =? 1 then mret sha256
  else Throw (invalid_argument "unsupported hash function type").

Section hasher.
Context (h : variant_hasher).

Definition variant_do_simd_concat_hash (ConcatCount LaneCount : nat) (dynamic_extent : bool) (data : list (list (list Z))) :
    option (list (list Z)) :=
  match h with
  | keccak256 => keccak_256_do_simd_concat_hash ConcatCount LaneCount dynamic_extent data
  | sha256 => sha_256_do_simd_concat_hash ConcatCount LaneCount dynamic_extent data
  end.

(** The hash of the one message of a call. *)
Definition only_hash (hashes : option (list (list Z))) : list Z :=
  match hashes with Some [hash] => hash | _ => [] end.

(** [hash]: both cases call the same instance, as their argument is an array
    of spans of dynamic extent. *)
Definition i_hasher_hash (data : list Z) : list Z :=
  if Z.of_nat (length data) =? HASH_TREE_WORD_SIZE then only_hash (variant_do_simd_concat_hash 1 1 true [[data]])
  else only_hash (variant_do_simd_concat_hash 1 1 true [[data]]).

Definition i_hasher_concat_hash (data1 data2 : list Z) : list Z :=
  if (Z.of_nat (length data1) =? MACHINE_HASH_SIZE) && (Z.of_nat (length data2) =? MACHINE_HASH_SIZE) then
    only_hash (variant_do_simd_concat_hash 2 1 false [[data1]; [data2]])
  else only_hash (variant_do_simd_concat_hash 2 1 true [[data1]; [data2]]).

(** The interface that hash trees are built on. *)
Definition variant_IHasher : IHasher (list Z) := {|
  hash := i_hasher_hash;
  concat_hash := i_hasher_concat_hash;
  machine_hash_of_bytes bs := bs;
  machine_hash_eq_dec := _
|}.
End hasher.
