(* ===== verification/HashProofs.v ===== *)
(** * The hash functions compute Keccak-256 and SHA-256

    For every number of messages that the hashers take at once, each hash is
    that of the standard, of the concatenation of the parts of its message. *)

From S2P Require Import Prelude HashTree SimdVector KeccakSpec Keccak256 Keccak256Facts Sha256 Sha256Spec Sha256Facts Sha256Context VariantHasher.

(** ** Calls of the hashers *)

(** The instances of [do_simd_concat_hash] that exist. *)
Definition supported (ConcatCount LaneCount : nat) (dynamic_extent : bool) : Prop :=
  (ConcatCount = 1 \/ ConcatCount = 2)%nat /\
  (LaneCount = 1 \/ dynamic_extent = false /\ (LaneCount = 2 \/ LaneCount = 4 \/ LaneCount = 8 \/ LaneCount = 16))%nat.

(** The arguments of a call: the parts of the messages, of one length for
    each part, which is 32 when the extent is static. *)
Definition hash_arguments (ConcatCount LaneCount : nat) (dynamic_extent : bool) (data : list (list (list Z))) : Prop :=
  length data = ConcatCount /\
  Forall (fun part => exists len, data_ok LaneCount part len /\ (dynamic_extent = false -> len = 32)) data.

(** [hashes] has a hash of [P] for each message. *)
Definition hashes_are (LaneCount : nat) (hashes : list (list Z)) (P : nat -> list Z -> Prop) : Prop :=
  length hashes = LaneCount /\ forall l, (l < LaneCount)%nat -> P l (nth l hashes []).

Lemma hashes_are_app n m a b P Q :
  hashes_are n a P -> hashes_are m b (fun l => Q (n + l)%nat) ->
  (forall l x, (l < n)%nat -> P l x -> Q l x) -> hashes_are (n + m) (a ++ b) Q.
Proof.
  intros [Ha HP] [Hb HQ] H. split; [rewrite length_app; lia|]. intros l Hl. destruct (decide (l < n)%nat).
  - rewrite app_nth1 by lia. auto.
  - rewrite app_nth2 by lia. replace l with (n + (l - n))%nat at 1 by lia. rewrite Ha. apply HQ. lia.
Qed.

Lemma data_ok_take n m part len : data_ok (n + m) part len -> data_ok n (take n part) len.
Proof. intros [Hl Hd]. split; [rewrite length_take; lia|by apply Forall_take]. Qed.

Lemma data_ok_drop n m part len : data_ok (n + m) part len -> data_ok m (drop n part) len.
Proof. intros [Hl Hd]. split; [rewrite length_drop; lia|by apply Forall_drop]. Qed.

Lemma concatenation_take n data l : (l < n)%nat -> concatenation (map (take n) data) l = concatenation data l.
Proof.
  intros Hl. unfold concatenation. rewrite map_map. f_equal. apply map_ext. intros d. unfold message.
  by rewrite !nth_lookup, lookup_take_lt.
Qed.

Lemma concatenation_drop n data l : concatenation (map (drop n) data) l = concatenation data (n + l)%nat.
Proof.
  unfold concatenation. rewrite map_map. f_equal. apply map_ext. intros d. unfold message.
  by rewrite !nth_lookup, lookup_drop.
Qed.

(** A hash function [run] for [n] messages that is right is right on the
    halves of twice as many. *)
Lemma halves n (run : list (list (list Z)) -> list (list Z)) (P : list Z -> list Z -> Prop) data :
  (forall data, Forall (fun part => exists len, data_ok n part len /\ len = 32) data ->
     hashes_are n (run data) (fun l => P (concatenation data l))) ->
  Forall (fun part => exists len, data_ok (n + n) part len /\ len = 32) data ->
  hashes_are (n + n) (run (map (take n) data) ++ run (map (drop n) data)) (fun l => P (concatenation data l)).
Proof.
  intros Hrun Hdata. eapply hashes_are_app with (P := fun l => P (concatenation (map (take n) data) l)).
  - apply Hrun, Forall_fmap. eapply Forall_impl; [exact Hdata|]. intros part (len & Hp & Hlen). exists len.
    split; [by eapply data_ok_take|done].
  - assert (H : hashes_are n (run (map (drop n) data)) (fun l => P (concatenation (map (drop n) data) l))).
    { apply Hrun, Forall_fmap. eapply Forall_impl; [exact Hdata|]. intros part (len & Hp & Hlen). exists len.
      split; [by eapply data_ok_drop|done]. }
    destruct H as [Hl H]. split; [done|]. intros l Hlt. rewrite <-concatenation_drop. by apply H.
  - intros l x Hl. by rewrite concatenation_take.
Qed.

(** ** Keccak-256 *)

(** A hash of 32 bytes with the bits of the standard. *)
Definition is_keccak_256 (msg hash : list Z) : Prop :=
  length hash = 32%nat /\ Forall (is_u 8) hash /\ bytes_bits hash = keccak_bits (bytes_bits msg).

Lemma finish_bytes LaneCount words pos l :
  (l < LaneCount)%nat ->
  length (nth l (keccak_256_finish LaneCount words pos) []) = 32%nat /\ Forall (is_u 8) (nth l (keccak_256_finish LaneCount words pos) []).
Proof.
  intros Hl. unfold keccak_256_finish. rewrite nth_lookup, list_lookup_fmap, lookup_seq_lt by done.
  cbn [fmap option_fmap option_map from_option id map]. cbn [mjoin list_join].
  rewrite !length_app, !length_le_bytes by done. split; [done|].
  repeat (apply Forall_app; split; [by apply le_bytes_range|]). by apply Forall_nil.
Qed.

Lemma keccak_256_context_ok LaneCount DataExtent data :
  Forall (part_ok LaneCount DataExtent) data ->
  hashes_are LaneCount (keccak_256_simd_concat_hash LaneCount DataExtent data) (fun l => is_keccak_256 (concatenation data l)).
Proof.
  intros Hdata. split.
  - unfold keccak_256_simd_concat_hash. destruct (foldl _ _ data). unfold keccak_256_finish. by rewrite length_map, length_seq.
  - intros l Hl. pose proof (keccak_256_simd_concat_hash_ok LaneCount DataExtent data l Hdata Hl) as H.
    unfold keccak_256_simd_concat_hash in *. destruct (foldl _ _ data) as [words pos].
    by destruct (finish_bytes LaneCount words pos l Hl).
Qed.

(** Arguments of a call, for a context. *)
Lemma static_parts n data :
  Forall (fun part => exists len, data_ok n part len /\ (false = false -> len = 32)) data ->
  Forall (fun part => exists len, data_ok n part len /\ len = 32) data.
Proof. intros H. eapply Forall_impl; [exact H|]. intros part (len & Hd & Hlen). exists len. auto. Qed.

Lemma keccak_parts n (dynamic : bool) data :
  Forall (fun part => exists len, data_ok n part len /\ (dynamic = false -> len = 32)) data ->
  Forall (part_ok n (if dynamic then None else Some 32)) data.
Proof. intros H. eapply Forall_impl; [exact H|]. intros part (len & Hd & Hlen). exists len. split; [done|].
  destruct dynamic; [done|by apply Hlen].
Qed.

(** C37: the Keccak-256 hasher.  For one or two parts, and every number of
    messages that is supported (1, 2, 4, 8 or 16 parts of 32 bytes, or one
    message of any length), [do_simd_concat_hash] returns, for each message,
    the 32 bytes of the Keccak-256 hash that FIPS 202 defines (with no domain
    bits) of the concatenation of its parts: the unrolled permutation, the
    interleaving of the messages in vector lanes, absorption by words or by
    bytes across blocks, and the padding are right. *)
Theorem keccak_256_hasher_correct ConcatCount LaneCount dynamic_extent data :
  supported ConcatCount LaneCount dynamic_extent -> hash_arguments ConcatCount LaneCount dynamic_extent data ->
  exists hashes, keccak_256_do_simd_concat_hash ConcatCount LaneCount dynamic_extent data = Some hashes /\
    hashes_are LaneCount hashes (fun l => is_keccak_256 (concatenation data l)).
Proof.
  intros [HC HL] [_ Hdata]. pose proof (keccak_parts _ _ _ Hdata) as Hparts.
  assert (H16 : dynamic_extent = false -> LaneCount = 16%nat -> hashes_are LaneCount
    (keccak_256_simd_concat_hash 8 word_extent (map (take 8) data) ++ keccak_256_simd_concat_hash 8 word_extent (map (drop 8) data))
    (fun l => is_keccak_256 (concatenation data l))).
  { intros -> ->. apply (halves 8); [|by apply static_parts]. intros d Hd.
    apply keccak_256_context_ok, (keccak_parts 8 false). eapply Forall_impl; [exact Hd|].
    intros part (len & Hp & Hlen). by exists len. }
  destruct HC as [-> | ->], HL as [-> |(-> & [-> |[-> |[-> | ->]]])]; try destruct dynamic_extent;
    (eexists; split; [reflexivity|]); try (by apply H16); by apply keccak_256_context_ok.
Qed.

Lemma keccak_256_hasher_correct_witness :
  exists hashes, keccak_256_do_simd_concat_hash 2 2 false
      [[repeat 1 32; repeat 2 32]; [repeat 3 32; repeat 4 32]] = Some hashes /\
    hashes_are 2 hashes (fun l => is_keccak_256 (concatenation [[repeat 1 32; repeat 2 32]; [repeat 3 32; repeat 4 32]] l)).
Proof.
  apply keccak_256_hasher_correct.
  - split; [by right|]. right. split; [done|by left].
  - split; [done|]. repeat constructor; exists 32; split; try done; by apply (bool_decide_unpack _).
Defined.

(** ** SHA-256 *)

Lemma sha_256_context_ok LaneCount DataExtent data :
  Forall (part32_ok LaneCount DataExtent) data ->
  hashes_are LaneCount (sha_256_simd_concat_hash LaneCount DataExtent data) (fun l hash => hash = sha_256 (concatenation data l)).
Proof.
  intros Hdata. split.
  - unfold sha_256_simd_concat_hash, sha_256_finish. case_match. by rewrite length_map, length_seq.
  - intros l Hl. by apply sha_256_simd_concat_hash_ok.
Qed.

Lemma sha_parts n (dynamic : bool) data :
  Forall (fun part => exists len, data_ok n part len /\ (dynamic = false -> len = 32)) data ->
  Forall (part32_ok n (if dynamic then None else Some 32)) data.
Proof.
  intros H. eapply Forall_impl; [exact H|]. intros part (len & Hd & Hlen). exists len. split; [done|].
  destruct dynamic; [done|by apply Hlen].
Qed.

(** C38: the SHA-256 hasher, in the same way: for every supported call each
    hash is the SHA-256 of FIPS 180-4 of the concatenation of the parts of its
    message.  The compression with circular buffers is that of the standard,
    its constants are the roots of primes, and the padding is right in one
    block and in two. *)
Theorem sha_256_hasher_correct ConcatCount LaneCount dynamic_extent data :
  supported ConcatCount LaneCount dynamic_extent -> hash_arguments ConcatCount LaneCount dynamic_extent data ->
  exists hashes, sha_256_do_simd_concat_hash ConcatCount LaneCount dynamic_extent data = Some hashes /\
    hashes_are LaneCount hashes (fun l hash => hash = sha_256 (concatenation data l)).
Proof.
  intros [HC HL] [_ Hdata]. pose proof (sha_parts _ _ _ Hdata) as Hparts.
  destruct HC as [-> | ->], HL as [-> |(-> & [-> |[-> |[-> | ->]]])]; try destruct dynamic_extent;
    (eexists; split; [reflexivity|]); by apply sha_256_context_ok.
Qed.

Lemma sha_256_hasher_correct_witness :
  exists hashes, sha_256_do_simd_concat_hash 1 1 true [[[97; 98; 99]]] = Some hashes /\
    hashes_are 1 hashes (fun l hash => hash = sha_256 (concatenation [[[97; 98; 99]]] l)).
Proof.
  apply sha_256_hasher_correct.
  - split; by left.
  - split; [done|]. repeat constructor. exists 3. split; [|done]. by apply (bool_decide_unpack _).
Defined.

(** Published values. *)
Example keccak_256_of_nothing :
  be_value (mjoin (keccak_256_data_1x1 [[[]]])) = 0xc5d2460186f7233c927e7db2dcc703c0e500b653ca82273b7bfad8045d85a470.
Proof. by vm_compute. Qed.

Example sha_256_of_abc :
  be_value (mjoin (sha_256_data_1x1 [[[97; 98; 99]]])) = 0xba7816bf8f01cfea414140de5dae2223b00361a396177a9cb410ff61f20015ad.
Proof. by vm_compute. Qed.
