(* ===== verification/RiscvIsa.v ===== *)
(** * The interpreter implements RV64IM

    An independent reference for the M extension, and the effect that the
    manual gives to each instruction of RV64IM for each execute function of
    the interpreter.  RV64I is in Rv64i.v, which the microarchitecture is
    also proved against. *)

From S2P Require Import Prelude Bits Shadow SolidityCompat Rv64i HashTree Memory UarchFacts Machine MachineFacts UarchMemory UarchIsa Riscv Hart Trap Csr Devices VirtualMemory Decode Execute Rv64gc.

(** ** The M extension *)

Inductive m_mnemonic := MUL | MULH | MULHSU | MULHU | DIV | DIVU | REM | REMU | MULW | DIVW | DIVUW | REMW | REMUW.

(** Products are exact integers, of which an instruction keeps the low or the
    high half.  A division by zero gives -1 and leaves the dividend as
    remainder; the quotient of the least integer by -1 wraps. *)
Definition m_alu (n : m_mnemonic) (a b : Z) : Z :=
  match n with
  | MUL => uint64 (a * b)
  | MULH => uint64 (int64 a * int64 b / 2 ^ 64)
  | MULHSU => uint64 (int64 a * b / 2 ^ 64)
  | MULHU => a * b / 2 ^ 64
  | DIV => if b =? 0 then uint64 (-1) else uint64 (Z.quot (int64 a) (int64 b))
  | DIVU => if b =? 0 then uint64 (-1) else a / b
  | REM => if b =? 0 then a else uint64 (Z.rem (int64 a) (int64 b))
  | REMU => if b =? 0 then a else a mod b
  | MULW => uint64 (int32 (a * b))
  | DIVW => if uint32 b =? 0 then uint64 (-1) else uint64 (int32 (Z.quot (int32 a) (int32 b)))
  | DIVUW => if uint32 b =? 0 then uint64 (-1) else uint64 (int32 (uint32 a / uint32 b))
  | REMW => if uint32 b =? 0 then uint64 (int32 a) else uint64 (int32 (Z.rem (int32 a) (int32 b)))
  | REMUW => if uint32 b =? 0 then uint64 (int32 a) else uint64 (int32 (uint32 a mod uint32 b))
  end.

Record m_opcode := { m_name : m_mnemonic; m_major : Z; m_funct3 : Z }.

Definition rv64m_opcodes : list m_opcode :=
  [{| m_name := MUL; m_major := 0x33; m_funct3 := 0 |}; {| m_name := MULH; m_major := 0x33; m_funct3 := 1 |};
   {| m_name := MULHSU; m_major := 0x33; m_funct3 := 2 |}; {| m_name := MULHU; m_major := 0x33; m_funct3 := 3 |};
   {| m_name := DIV; m_major := 0x33; m_funct3 := 4 |}; {| m_name := DIVU; m_major := 0x33; m_funct3 := 5 |};
   {| m_name := REM; m_major := 0x33; m_funct3 := 6 |}; {| m_name := REMU; m_major := 0x33; m_funct3 := 7 |};
   {| m_name := MULW; m_major := 0x3b; m_funct3 := 0 |}; {| m_name := DIVW; m_major := 0x3b; m_funct3 := 4 |};
   {| m_name := DIVUW; m_major := 0x3b; m_funct3 := 5 |}; {| m_name := REMW; m_major := 0x3b; m_funct3 := 6 |};
   {| m_name := REMUW; m_major := 0x3b; m_funct3 := 7 |}].

(** All are R types with funct7 = 1. *)
Definition m_match (o : m_opcode) : Z := 1 * 2 ^ 25 + m_funct3 o * 2 ^ 12 + m_major o.
Definition m_matches (insn : Z) (o : m_opcode) : bool := Z.land insn 0xfe00707f =? m_match o.

Definition m_decode (insn : Z) : option m_mnemonic := m_name <$> List.find (m_matches insn) rv64m_opcodes.

(** ** Fields and immediates *)

Section fields.
Context (insn : Z).

Lemma get_rd_field : insn_get_rd insn = rd insn.
Proof. unfold insn_get_rd, rd, bitfield. change 31 with (Z.ones 5). done. Qed.
Lemma get_rs1_field : insn_get_rs1 insn = rs1 insn.
Proof. unfold insn_get_rs1, rs1, bitfield. change 31 with (Z.ones 5). done. Qed.
Lemma get_rs2_field : insn_get_rs2 insn = rs2 insn.
Proof. unfold insn_get_rs2, rs2, bitfield. change 31 with (Z.ones 5). done. Qed.
Lemma I_imm_spec : insn_I_get_imm insn = immI insn.
Proof. unfold insn_I_get_imm, immI, int32, bitfield. bitwise_cases. Qed.
Lemma U_imm_spec : insn_U_get_imm insn = immU insn.
Proof.
  unfold insn_U_get_imm, immU, placed, int32, bitfield. change 0xfffff000 with (Z.shiftl (Z.ones 20) 12). bitwise_cases.
Qed.
Lemma S_imm_spec : insn_S_get_imm insn = immS insn.
Proof.
  unfold insn_S_get_imm, immS, placed, int32, bitfield. change 0xfe000000 with (Z.shiftl (Z.ones 7) 25).
  change 0x1f with (Z.ones 5). bitwise_cases.
Qed.
Lemma B_imm_spec : insn_B_get_imm insn = immB insn.
Proof. unfold insn_B_get_imm, immB, placed, int32, uint32, bitfield. bitwise_cases. Qed.
Lemma J_imm_spec : insn_J_get_imm insn = immJ insn.
Proof. unfold insn_J_get_imm, immJ, placed, int32, uint32, bitfield. bitwise_cases. Qed.
End fields.

(** ** Arithmetic *)

Lemma shift_amount b : Z.land b (XLEN - 1) = b mod 64.
Proof. change (XLEN - 1) with (Z.ones 6). by rewrite land_ones_mod by lia. Qed.
Lemma shift_amount_W b : Z.land b 31 = b mod 32.
Proof. change 31 with (Z.ones 5). by rewrite land_ones_mod by lia. Qed.

Lemma immI_shamt6 insn : immI insn mod 64 = shamt6 insn.
Proof.
  change 64 with (2 ^ 6). fold (uwrap 6 (immI insn)). unfold immI, shamt6, bitfield. bitwise_cases.
Qed.
Lemma immI_shamt5 insn : immI insn mod 32 = shamt5 insn.
Proof.
  change 32 with (2 ^ 5). fold (uwrap 5 (immI insn)). unfold immI, shamt5, bitfield. bitwise_cases.
Qed.

Lemma uint64_int64 x : uint64 (int64 x) = uint64 x.
Proof. by apply uwrap_swrap. Qed.
Lemma uint64_idem x : uint64 (uint64 x) = uint64 x.
Proof. by apply uwrap_idem. Qed.
Lemma int64_small x : is_s 64 x -> int64 x = x.
Proof. by apply swrap_small. Qed.

(** The signed and the unsigned value of a word are zero together. *)
Lemma swrap_zero w x : 0 < w -> (swrap w x =? 0) = (uwrap w x =? 0).
Proof.
  intros Hw. destruct (swrap w x =? 0) eqn:E; symmetry; [apply Z.eqb_eq in E|apply Z.eqb_neq in E].
  - rewrite <-uwrap_swrap, E by lia. unfold uwrap. rewrite Z.mod_0_l; [done|]. pose proof (pow2_pos w). lia.
  - apply Z.eqb_neq. intros H. apply E. rewrite <-swrap_uwrap, H by lia. apply swrap_small; [lia|].
    split; pose proof (pow2_pos (w - 1)); lia.
Qed.

(** A quotient of signed words is a signed word but for one case. *)
Lemma quot_range w a b :
  1 < w -> is_s w a -> is_s w b -> b <> 0 -> (b =? -1) && (a =? - 2 ^ (w - 1)) = false -> is_s w (Z.quot a b).
Proof.
  intros Hw Ha Hb Hb0 Hc. unfold is_s in *. pose proof (pow2_pos (w - 1) ltac:(lia)) as Hp.
  assert (Habs : Z.abs (Z.quot a b) <= Z.abs a).
  { rewrite <-Z.quot_abs by lia. rewrite Z.quot_div_nonneg by lia. apply Z.div_le_upper_bound; nia. }
  destruct (decide (a = - 2 ^ (w - 1))) as [->|]; [|lia].
  apply andb_false_iff in Hc as [Hc|Hc]; apply Z.eqb_neq in Hc; [|lia].
  destruct (decide (b = 1)) as [->|]; [rewrite Z.quot_1_r; lia|].
  assert (Z.abs (Z.quot (- 2 ^ (w - 1)) b) < 2 ^ (w - 1)); [|lia].
  rewrite <-Z.quot_abs by lia. rewrite Z.quot_div_nonneg by lia. apply Z.div_lt_upper_bound; nia.
Qed.
Lemma rem_range w a b : 0 < w -> is_s w a -> is_s w b -> b <> 0 -> is_s w (Z.rem a b).
Proof.
  intros Hw Ha Hb Hb0. unfold is_s in *. pose proof (Z.rem_bound_abs a b Hb0) as Hr.
  assert (Z.abs b <= 2 ^ (w - 1)) by lia. lia.
Qed.

(** The guards of the divisions compute what wrapping the exact quotient does. *)
Lemma guarded_quot w a b :
  1 < w -> is_s w a -> is_s w b -> b <> 0 ->
  (if (b =? -1) && (a =? - 2 ^ (w - 1)) then a else Z.quot a b) = swrap w (Z.quot a b).
Proof.
  intros Hw Ha Hb Hb0. destruct (_ && _) eqn:E.
  - apply andb_true_iff in E as [->%Z.eqb_eq ->%Z.eqb_eq]. change (-1) with (- (1)). rewrite Z.quot_opp_opp, Z.quot_1_r by lia.
    rewrite <-(swrap_small w (- 2 ^ (w - 1))) at 1 by (unfold is_s in *; lia). apply swrap_eq; [lia|].
    unfold uwrap. replace (2 ^ (w - 1)) with (- 2 ^ (w - 1) + 1 * 2 ^ w) at 2.
    + by rewrite Z_mod_plus_full.
    + assert (2 ^ w = 2 * 2 ^ (w - 1)) by (rewrite <-Z.pow_succ_r; [f_equal|]; lia). lia.
  - symmetry. apply swrap_small; [lia|]. by apply quot_range.
Qed.
Lemma guarded_rem w a b :
  0 < w -> is_s w a -> is_s w b -> b <> 0 ->
  (if (b =? -1) && (a =? - 2 ^ (w - 1)) then 0 else Z.rem a b) = Z.rem a b.
Proof.
  intros Hw Ha Hb Hb0. destruct (_ && _) eqn:E; [|done].
  apply andb_true_iff in E as [->%Z.eqb_eq ->%Z.eqb_eq]. change (-1) with (- (1)). by rewrite Z.rem_opp_r, Z.rem_1_r by lia.
Qed.

(** ** Bytes of an access *)

Lemma load_bytes_range m p n : 0 <= n -> is_u (8 * n) (load_bytes m p n).
Proof.
  intros Hn. unfold load_bytes, le_value, is_u.
  replace (8 * n) with (Z.of_nat (length (bytes_at m p n)) * 8) by (rewrite length_bytes_at; lia).
  apply little_endian_to_Z_bound; [lia|]. unfold bytes_at. apply Forall_fmap, Forall_true. intros q.
  exact (eq_ind_r (is_u 8) (bitfield_range _ 8 _ ltac:(lia)) (byte_at_field m q)).
Qed.

Lemma hart_store_bytes_uwrap m p n v : 0 <= n -> store_bytes m p n (uwrap (8 * n) v) = store_bytes m p n v.
Proof.
  intros Hn. unfold store_bytes. f_equal. rewrite Z.mul_comm, <-le_value_bytes by done.
  apply Z_to_little_endian_to_Z; [rewrite length_le_bytes; lia|lia|by apply le_bytes_u8].
Qed.

(** ** Effects on the state of the interpreter *)

(** Register [i]; x0 reads as zero. *)
Definition x_value (m : memory) (i : Z) : Z := if i =? 0 then 0 else mem_read m (x_address i).

(** Where an address of the program is in memory: the accesses of loads and
    stores go through the TLB. *)
Definition translated (SET : Z) (m : memory) (vaddr : Z) : Z :=
  uint64 (vaddr + mem_read m (shadow_tlb_get_abs_addr SET (tlb_slot_index vaddr) + 8)).

Definition x_write (insn v : Z) (m : memory) : memory :=
  if rd insn =? 0 then m else mem_write (x_address (rd insn)) v m.
Definition effect_on (insn : Z) (e : effect) (m : memory) : memory :=
  match eff_write e with
  | write_nothing => m
  | write_register v => x_write insn v m
  | write_bytes a n v => store_bytes m (translated TLB_WRITE m a) n v
  end.

(** The TLB has a translation for an access of [size] bytes, and the slot
    that holds it is valid. *)
Definition in_tlb (pmas : list address_range) (SET size : Z) (m : memory) (vaddr : Z) : Prop :=
  tlb_is_hit size (mem_read m (shadow_tlb_get_abs_addr SET (tlb_slot_index vaddr) + 0)) vaddr = true /\
  verify_cold_tlb_slot pmas SET (tlb_slot_index vaddr) m = (Ret true, m).

(** What the interpreter returns for an instruction that has no exception. *)
Definition completes (insn : Z) (e : effect) (m : memory) : outcome (execute_status * Z) * memory :=
  (Ret (success, eff_pc e), effect_on insn e m).
Definition rv64i_step (n : mnemonic) (insn pc : Z) (m : memory) : outcome (execute_status * Z) * memory :=
  completes insn (isa_effect n insn pc (x_value m) (fun a => load_bytes m (translated TLB_READ m a))) m.
Definition rv64m_step (n : m_mnemonic) (insn pc : Z) (m : memory) : outcome (execute_status * Z) * memory :=
  completes insn {| eff_write := write_register (m_alu n (x_value m (rs1 insn)) (x_value m (rs2 insn))); eff_pc := uint64 (pc + 4) |} m.

Section instructions.
Context {cfg : BuildConfig} (pmas : list address_range) (EVENT_DRIVEN_INTERPRETER_DEADLINES : bool).
Context (insn pc mcycle : Z) (m : memory).
Context (Hx0 : mem_read m (x_address 0) = 0).

Lemma read_x_value i : mem_read m (x_address i) = x_value m i.
Proof. unfold x_value. destruct (i =? 0) eqn:E; [|done]. by apply Z.eqb_eq in E as ->. Qed.
Lemma get_rs1 : read_x (insn_get_rs1 insn) m = (Ret (x_value m (rs1 insn)), m).
Proof. rewrite get_rs1_field, <-read_x_value. done. Qed.
Lemma get_rs2 : read_x (insn_get_rs2 insn) m = (Ret (x_value m (rs2 insn)), m).
Proof. rewrite get_rs2_field, <-read_x_value. done. Qed.
Lemma x_value_u64 i : is_u 64 (x_value m i).
Proof. unfold x_value. destruct (i =? 0); [done|apply mem_read_range]. Qed.

#[local] Abbreviation k := (destination insn).
#[local] Abbreviation a := (x_value m (rs1 insn)).
#[local] Abbreviation b := (x_value m (rs2 insn)).
#[local] Abbreviation next v := {| eff_write := write_register v; eff_pc := uint64 (pc + 4) |}.

Lemma unless_x0_run body v :
  body m = (write_x (insn_get_rd insn) v ;; advance_to_next_insn pc success) m ->
  unless_x0 k pc body m = completes insn (next v) m.
Proof.
  intros Hb. unfold destination, unless_x0, completes, effect_on, x_write. cbn [eff_write eff_pc].
  rewrite get_rd_field in *. destruct (rd insn =? 0); [done|]. by rewrite Hb.
Qed.
Lemma arithmetic_run f v : f a b = v -> unless_x0 k pc (execute_arithmetic pc insn f) m = completes insn (next v) m.
Proof.
  intros Hf. apply unless_x0_run. unfold execute_arithmetic.
  erewrite bind_Ret by apply get_rs1. erewrite bind_Ret by apply get_rs2. by rewrite Hf.
Qed.
Lemma immediate_run f v : f a (immI insn) = v -> unless_x0 k pc (execute_arithmetic_immediate pc insn f) m = completes insn (next v) m.
Proof.
  intros Hf. apply unless_x0_run. unfold execute_arithmetic_immediate. erewrite bind_Ret by apply get_rs1.
  cbv zeta. by rewrite I_imm_spec, Hf.
Qed.

(** *** Jumps and branches *)

Lemma LUI_isa : execute_LUI k pc insn m = rv64i_step LUI insn pc m.
Proof. apply unless_x0_run. cbv zeta. by rewrite U_imm_spec. Qed.
Lemma AUIPC_isa : execute_AUIPC k pc insn m = rv64i_step AUIPC insn pc m.
Proof. apply unless_x0_run. cbv zeta. by rewrite U_imm_spec. Qed.
Lemma JAL_isa : execute_JAL k pc insn m = rv64i_step JAL insn pc m.
Proof.
  unfold execute_JAL, destination, rv64i_step, completes, effect_on, x_write. cbn [eff_write eff_pc isa_effect].
  rewrite get_rd_field, J_imm_spec. by destruct (rd insn =? 0).
Qed.
Lemma JALR_isa : execute_JALR k pc insn m = rv64i_step JALR insn pc m.
Proof.
  unfold execute_JALR, destination, rv64i_step, completes, effect_on, x_write. cbn [eff_write eff_pc isa_effect].
  erewrite bind_Ret by apply get_rs1. cbv zeta. rewrite get_rd_field, I_imm_spec.
  assert (Heven : Z.land (uint64 (a + immI insn)) (not64 1) = uint64 (a + immI insn) / 2 * 2).
  { change 2 with (2 ^ 1). rewrite <-Z.shiftr_div_pow2, <-Z.shiftl_mul_pow2 by lia.
    change (not64 1) with (Z.shiftl (Z.ones 63) 1). unfold uint64. bitwise_cases. }
  rewrite Heven. by destruct (rd insn =? 0).
Qed.

Lemma hart_branch_run f n :
  f a b = taken n a b -> (forall x load, isa_effect n insn pc x load =
    {| eff_write := write_nothing; eff_pc := if taken n (x (rs1 insn)) (x (rs2 insn)) then uint64 (pc + immB insn) else uint64 (pc + 4) |}) ->
  execute_branch pc insn f m = rv64i_step n insn pc m.
Proof.
  intros Hf Hn. unfold execute_branch, rv64i_step, completes, effect_on. rewrite Hn. cbn [eff_write eff_pc].
  erewrite bind_Ret by apply get_rs1. erewrite bind_Ret by apply get_rs2. rewrite Hf, B_imm_spec. by destruct (taken n a b).
Qed.

(** *** Operations with an immediate *)

Lemma ADDI_isa : execute_ADDI k pc insn m = rv64i_step ADDI insn pc m.
Proof.
  apply immediate_run. cbn [alu]. rewrite uint64_int64. apply mod_eq_add; [apply uint64_int64|]. symmetry. apply uint64_idem.
Qed.
Lemma SLTI_isa : execute_SLTI k pc insn m = rv64i_step SLTI insn pc m.
Proof. apply immediate_run. cbn [alu]. unfold immI. by rewrite uint64_swrap12. Qed.
Lemma SLTIU_isa : execute_SLTIU k pc insn m = rv64i_step SLTIU insn pc m.
Proof. by apply immediate_run. Qed.
Lemma XORI_isa : execute_XORI k pc insn m = rv64i_step XORI insn pc m.
Proof. by apply immediate_run. Qed.
Lemma ORI_isa : execute_ORI k pc insn m = rv64i_step ORI insn pc m.
Proof. by apply immediate_run. Qed.
Lemma ANDI_isa : execute_ANDI k pc insn m = rv64i_step ANDI insn pc m.
Proof. by apply immediate_run. Qed.
Lemma ADDIW_isa : execute_ADDIW k pc insn m = rv64i_step ADDIW insn pc m.
Proof. apply immediate_run. cbn [alu]. f_equal. exact (alu_addiw a (immI insn)). Qed.

Lemma shamt6_mod : shamt6 insn mod 64 = shamt6 insn.
Proof. apply Z.mod_small. exact (bitfield_range 20 6 insn ltac:(lia)). Qed.
Lemma shamt5_mod : shamt5 insn mod 32 = shamt5 insn.
Proof. apply Z.mod_small. exact (bitfield_range 20 5 insn ltac:(lia)). Qed.

Lemma SLLI_isa : matches insn (s6_type SLLI 0x13 1 0) = true -> execute_SLLI k pc insn m = rv64i_step SLLI insn pc m.
Proof.
  intros Hm. unfold execute_SLLI.
  assert (Z.land insn (Z.shiftl 63 26) = 0) as ->.
  { unfold matches, s6_type in Hm. cbn in Hm. apply Z.eqb_eq in Hm.
    change (Z.shiftl 63 26) with (Z.land 0xfc00707f (Z.shiftl 63 26)). by rewrite Z.land_assoc, Hm. }
  apply immediate_run. change 0x3f with (XLEN - 1). cbn [alu]. rewrite shift_amount, immI_shamt6, shamt6_mod, Z.shiftl_mul_pow2; [done|].
  apply (bitfield_range 20 6 insn). lia.
Qed.
Lemma SRLI_isa : execute_SRLI k pc insn m = rv64i_step SRLI insn pc m.
Proof.
  apply immediate_run. cbn [alu]. rewrite shift_amount, immI_shamt6, shamt6_mod, Z.shiftr_div_pow2; [done|].
  apply (bitfield_range 20 6 insn). lia.
Qed.
Lemma SRAI_isa : execute_SRAI k pc insn m = rv64i_step SRAI insn pc m.
Proof.
  apply immediate_run. cbn [alu]. rewrite shift_amount, immI_shamt6, shamt6_mod, Z.shiftr_div_pow2; [done|].
  apply (bitfield_range 20 6 insn). lia.
Qed.

Lemma SLLIW_isa : insn_get_funct7 insn = 0 -> execute_SLLIW k pc insn m = rv64i_step SLLIW insn pc m.
Proof.
  intros H7. unfold execute_SLLIW. rewrite H7. apply immediate_run. change 0x1f with 31. cbn [alu].
  rewrite shift_amount_W, immI_shamt5, shamt5_mod, Z.shiftl_mul_pow2 by apply (bitfield_range 20 5 insn ltac:(lia)).
  cbv zeta. f_equal. unfold int32, uint32. rewrite swrap_uwrap by lia. apply swrap_eq; [lia|]. apply mod_eq_mul_r. by apply uwrap_idem.
Qed.
Lemma SRLIW_isa : execute_SRLIW k pc insn m = rv64i_step SRLIW insn pc m.
Proof.
  apply immediate_run. change 0x1f with 31. cbn [alu].
  by rewrite shift_amount_W, immI_shamt5, shamt5_mod, Z.shiftr_div_pow2 by apply (bitfield_range 20 5 insn ltac:(lia)).
Qed.
Lemma SRAIW_isa : execute_SRAIW k pc insn m = rv64i_step SRAIW insn pc m.
Proof.
  apply immediate_run. change 0x1f with 31. cbn [alu].
  by rewrite shift_amount_W, immI_shamt5, shamt5_mod, Z.shiftr_div_pow2 by apply (bitfield_range 20 5 insn ltac:(lia)).
Qed.

(** *** Operations on registers *)

#[local] Ltac shifts :=
  pose proof (Z.mod_pos_bound b 64 ltac:(lia)); pose proof (Z.mod_pos_bound b 32 ltac:(lia));
  cbv zeta; cbn [alu];
  rewrite ?shift_amount, ?shift_amount_W, ?Z.shiftl_mul_pow2, ?Z.shiftr_div_pow2 by lia.

Lemma ADD_isa : execute_ADD k pc insn m = rv64i_step ADD insn pc m.
Proof. by apply arithmetic_run. Qed.
Lemma SUB_isa : execute_SUB k pc insn m = rv64i_step SUB insn pc m.
Proof. by apply arithmetic_run. Qed.
Lemma SLL_isa : execute_SLL k pc insn m = rv64i_step SLL insn pc m.
Proof. apply arithmetic_run. by shifts. Qed.
Lemma SLT_isa : execute_SLT k pc insn m = rv64i_step SLT insn pc m.
Proof. by apply arithmetic_run. Qed.
Lemma SLTU_isa : execute_SLTU k pc insn m = rv64i_step SLTU insn pc m.
Proof. by apply arithmetic_run. Qed.
Lemma XOR_isa : execute_XOR k pc insn m = rv64i_step XOR insn pc m.
Proof. by apply arithmetic_run. Qed.
Lemma SRL_isa : execute_SRL k pc insn m = rv64i_step SRL insn pc m.
Proof. apply arithmetic_run. by shifts. Qed.
Lemma SRA_isa : execute_SRA k pc insn m = rv64i_step SRA insn pc m.
Proof. apply arithmetic_run. by shifts. Qed.
Lemma OR_isa : execute_OR k pc insn m = rv64i_step OR insn pc m.
Proof. by apply arithmetic_run. Qed.
Lemma AND_isa : execute_AND k pc insn m = rv64i_step AND insn pc m.
Proof. by apply arithmetic_run. Qed.
Lemma ADDW_isa : execute_ADDW k pc insn m = rv64i_step ADDW insn pc m.
Proof. apply arithmetic_run. cbn [alu]. f_equal. exact (alu_addw a b). Qed.
Lemma SUBW_isa : execute_SUBW k pc insn m = rv64i_step SUBW insn pc m.
Proof. apply arithmetic_run. cbn [alu]. f_equal. exact (alu_subw a b). Qed.
Lemma SLLW_isa : matches insn (r_type SLLW 0x3b 1 0) = true -> execute_SLLW k pc insn m = rv64i_step SLLW insn pc m.
Proof.
  unfold matches, r_type, execute_SLLW. cbn [op_mask op_match]. intros H%Z.eqb_eq.
  change (0 * 2 ^ 25 + 1 * 2 ^ 12 + 59) with 0x103b in H. rewrite H. apply arithmetic_run. shifts. f_equal.
  unfold int32, uint32. rewrite swrap_uwrap by lia. apply swrap_eq; [lia|]. apply mod_eq_mul_r. by apply uwrap_idem.
Qed.
Lemma SRLW_isa : execute_SRLW k pc insn m = rv64i_step SRLW insn pc m.
Proof. apply arithmetic_run. by shifts. Qed.
Lemma SRAW_isa : execute_SRAW k pc insn m = rv64i_step SRAW insn pc m.
Proof. apply arithmetic_run. by shifts. Qed.

(** *** The M extension *)

#[local] Abbreviation operands_u64 := (conj (x_value_u64 (rs1 insn)) (x_value_u64 (rs2 insn))).

Lemma MUL_isa : execute_MUL k pc insn m = rv64m_step MUL insn pc m.
Proof.
  apply arithmetic_run. cbv zeta. cbn [m_alu]. rewrite uint64_int64. unfold uint64, uwrap, int64.
  rewrite Zmult_mod. fold (uwrap 64 (swrap 64 a)) (uwrap 64 (swrap 64 b)). rewrite !uwrap_swrap by lia.
  unfold uwrap. by rewrite <-Zmult_mod.
Qed.

(** The product of a signed and a signed or unsigned word fits 128 bits. *)
Lemma product_fits x y : is_s 64 x -> - 2 ^ 63 <= y < 2 ^ 64 -> swrap 128 (x * y) = x * y.
Proof. intros Hx Hy. apply swrap_small; [lia|]. unfold is_s in *. change (64 - 1) with 63 in Hx. change (128 - 1) with 127. nia. Qed.

Lemma MULH_isa : execute_MULH k pc insn m = rv64m_step MULH insn pc m.
Proof.
  apply arithmetic_run. cbv zeta. cbn [m_alu]. pose proof (swrap_range 64 b ltac:(lia)) as Hb. unfold is_s in Hb. change (64 - 1) with 63 in Hb.
  rewrite product_fits by (first [by apply swrap_range|unfold int64; lia]). by rewrite uint64_int64, Z.shiftr_div_pow2.
Qed.
Lemma MULHSU_isa : execute_MULHSU k pc insn m = rv64m_step MULHSU insn pc m.
Proof.
  apply arithmetic_run. cbv zeta. cbn [m_alu]. pose proof (x_value_u64 (rs2 insn)) as Hb. unfold is_u in Hb.
  rewrite product_fits by (first [by apply swrap_range|lia]). by rewrite uint64_int64, Z.shiftr_div_pow2.
Qed.
Lemma MULHU_isa : execute_MULHU k pc insn m = rv64m_step MULHU insn pc m.
Proof.
  apply arithmetic_run. cbn [m_alu]. pose proof (x_value_u64 (rs1 insn)) as Ha. pose proof (x_value_u64 (rs2 insn)) as Hb. unfold is_u in *.
  rewrite (uwrap_small 128) by (unfold is_u; nia). rewrite Z.shiftr_div_pow2 by lia. apply uwrap_small.
  split; [apply Z.div_pos; nia|]. apply Z.div_lt_upper_bound; nia.
Qed.

Lemma int64_zero : (int64 b =? 0) = (b =? 0).
Proof. unfold int64. rewrite swrap_zero by lia. by rewrite uwrap_small by apply x_value_u64. Qed.
Lemma is_s_int64 x : is_s 64 (int64 x).
Proof. by apply swrap_range. Qed.
Lemma is_s_int32 x : is_s 32 (int32 x).
Proof. by apply swrap_range. Qed.

Lemma DIV_isa : execute_DIV k pc insn m = rv64m_step DIV insn pc m.
Proof.
  apply arithmetic_run. cbv zeta. cbn [m_alu]. rewrite int64_zero. destruct (b =? 0) eqn:E; [done|].
  rewrite <-int64_zero in E. apply Z.eqb_neq in E. rewrite <-(uint64_int64 (Z.quot _ _)). change (int64 (Z.quot (int64 a) (int64 b))) with (swrap 64 (Z.quot (int64 a) (int64 b))).
  rewrite <-guarded_quot by (done || apply is_s_int64). change (int64 (Z.shiftl 1 (XLEN - 1))) with (- 2 ^ (64 - 1)).
  by destruct (_ && _).
Qed.
Lemma DIVU_isa : execute_DIVU k pc insn m = rv64m_step DIVU insn pc m.
Proof. by apply arithmetic_run. Qed.
Lemma REM_isa : execute_REM k pc insn m = rv64m_step REM insn pc m.
Proof.
  apply arithmetic_run. cbv zeta. cbn [m_alu]. rewrite int64_zero. destruct (b =? 0) eqn:E.
  - rewrite uint64_int64. apply uwrap_small, x_value_u64.
  - rewrite <-int64_zero in E. apply Z.eqb_neq in E.
    rewrite <-(guarded_rem 64) by (done || apply is_s_int64). change (int64 (Z.shiftl 1 (XLEN - 1))) with (- 2 ^ (64 - 1)).
    by destruct (_ && _).
Qed.
Lemma REMU_isa : execute_REMU k pc insn m = rv64m_step REMU insn pc m.
Proof. by apply arithmetic_run. Qed.

Lemma int32_mul x y : int32 (int32 x * int32 y) = int32 (x * y).
Proof.
  unfold int32. apply swrap_eq; [lia|]. unfold uwrap.
  rewrite Zmult_mod. fold (uwrap 32 (swrap 32 x)) (uwrap 32 (swrap 32 y)). rewrite !uwrap_swrap by lia. unfold uwrap. by rewrite <-Zmult_mod.
Qed.
Lemma MULW_isa : execute_MULW k pc insn m = rv64m_step MULW insn pc m.
Proof. apply arithmetic_run. cbv zeta. cbn [m_alu]. by rewrite int32_mul. Qed.

(** The guards of the functions that share a jump table entry with nothing
    but illegal words. *)
Definition m_word (funct3 : Z) : Z := 1 * 2 ^ 25 + funct3 * 2 ^ 12 + 0x3b.

Lemma int32_zero : (int32 b =? 0) = (uint32 b =? 0).
Proof. by apply swrap_zero. Qed.

Lemma DIVW_isa : Z.land insn 0xfe00707f = m_word 4 -> execute_DIVW k pc insn m = rv64m_step DIVW insn pc m.
Proof.
  intros Hw. unfold execute_DIVW. rewrite Hw. apply arithmetic_run. cbv zeta. cbn [m_alu]. rewrite int32_zero.
  destruct (uint32 b =? 0) eqn:E; [done|]. rewrite <-int32_zero in E. apply Z.eqb_neq in E.
  change (int32 (Z.quot (int32 a) (int32 b))) with (swrap 32 (Z.quot (int32 a) (int32 b))). rewrite <-guarded_quot by (done || apply is_s_int32). change (int32 (Z.shiftl 1 (32 - 1))) with (- 2 ^ (32 - 1)).
  by destruct (_ && _).
Qed.
Lemma DIVUW_isa : execute_DIVUW k pc insn m = rv64m_step DIVUW insn pc m.
Proof. by apply arithmetic_run. Qed.
Lemma REMW_isa : Z.land insn 0xfe00707f = m_word 6 -> execute_REMW k pc insn m = rv64m_step REMW insn pc m.
Proof.
  intros Hw. unfold execute_REMW. rewrite Hw. apply arithmetic_run. cbv zeta. cbn [m_alu]. rewrite int32_zero.
  destruct (uint32 b =? 0) eqn:E; [done|]. rewrite <-int32_zero in E. apply Z.eqb_neq in E.
  assert (int32 (Z.rem (int32 a) (int32 b)) = Z.rem (int32 a) (int32 b)) as -> by (apply swrap_small, rem_range; done || apply is_s_int32).
  rewrite <-(guarded_rem 32) by (done || apply is_s_int32). change (int32 (Z.shiftl 1 (32 - 1))) with (- 2 ^ (32 - 1)).
  by destruct (_ && _).
Qed.
Lemma REMUW_isa : Z.land insn 0xfe00707f = m_word 7 -> execute_REMUW k pc insn m = rv64m_step REMUW insn pc m.
Proof.
  intros Hw. unfold execute_REMUW. rewrite Hw. apply arithmetic_run. cbv zeta. cbn [m_alu].
  assert (int32 (uint32 a) = int32 a) as ->; [by apply swrap_uwrap|done].
Qed.

(** *** Loads and stores whose translation is in the TLB *)

Lemma read_hit (log2_size vaddr : Z) :
  in_tlb pmas TLB_READ (Z.shiftl 1 log2_size) m vaddr ->
  read_virtual_memory pmas false log2_size pc mcycle vaddr m =
    (Ret (Some (load_bytes m (translated TLB_READ m vaddr) (Z.shiftl 1 log2_size)), pc), m).
Proof.
  intros [Hhit Hok]. unfold read_virtual_memory. erewrite bind_Ret by reflexivity. rewrite Hhit. cbn [negb].
  erewrite bind_Ret by exact Hok. reflexivity.
Qed.

Lemma write_hit (log2_size vaddr val : Z) :
  0 <= log2_size -> in_tlb pmas TLB_WRITE (Z.shiftl 1 log2_size) m vaddr ->
  write_virtual_memory pmas EVENT_DRIVEN_INTERPRETER_DEADLINES log2_size pc mcycle vaddr val m =
    (Ret (success, pc), store_bytes m (translated TLB_WRITE m vaddr) (Z.shiftl 1 log2_size) val).
Proof.
  intros Hl [Hhit Hok]. unfold write_virtual_memory. erewrite bind_Ret by reflexivity. rewrite Hhit. cbn [negb].
  erewrite bind_Ret by exact Hok. rewrite <-(hart_store_bytes_uwrap _ _ _ val) by (apply Z.shiftl_nonneg; lia). reflexivity.
Qed.

#[local] Abbreviation load_address := (uint64 (a + immI insn)).
#[local] Abbreviation store_address := (uint64 (a + immS insn)).

Lemma load_run is_signed log2_size n :
  in_tlb pmas TLB_READ (Z.shiftl 1 log2_size) m load_address -> width n = Z.shiftl 1 log2_size ->
  (forall x load, isa_effect n insn pc x load = next (extend n (load (uint64 (x (rs1 insn) + immI insn)) (width n)))) ->
  (forall v, is_u (8 * width n) v -> extend_load is_signed log2_size v = extend n v) ->
  execute_L pmas is_signed log2_size k pc mcycle insn m = rv64i_step n insn pc m.
Proof.
  intros Ht Hw Hn Hv. unfold rv64i_step. rewrite Hn, Hw.
  unfold execute_L. erewrite bind_Ret by apply get_rs1. cbv zeta. rewrite I_imm_spec.
  erewrite bind_Ret by by apply read_hit. apply unless_x0_run. rewrite Hv; [done|]. rewrite Hw. apply load_bytes_range.
  apply Z.shiftl_nonneg. lia.
Qed.

Lemma LD_extend v : is_u (8 * width LD) v -> extend_load true 3 v = extend LD v.
Proof. intros Hv. change (extend_load true 3 v) with (uint64 (int64 v)). rewrite uint64_int64. by apply uwrap_small. Qed.

Lemma hart_store_run log2_size n :
  0 <= log2_size -> in_tlb pmas TLB_WRITE (Z.shiftl 1 log2_size) m store_address -> width n = Z.shiftl 1 log2_size ->
  (forall x load, isa_effect n insn pc x load =
     {| eff_write := write_bytes (uint64 (x (rs1 insn) + immS insn)) (width n) (x (rs2 insn)); eff_pc := uint64 (pc + 4) |}) ->
  execute_S pmas EVENT_DRIVEN_INTERPRETER_DEADLINES log2_size pc mcycle insn m = rv64i_step n insn pc m.
Proof.
  intros Hl Ht Hw Hn. unfold rv64i_step. rewrite Hn, Hw.
  unfold execute_S. erewrite bind_Ret by apply get_rs1. cbv zeta. rewrite S_imm_spec.
  erewrite bind_Ret by apply get_rs2. erewrite bind_Ret by by apply write_hit. reflexivity.
Qed.

(** An access that a load or a store makes is in the TLB. *)
Definition access_in_tlb (n : mnemonic) : Prop :=
  match n with
  | LB | LH | LW | LD | LBU | LHU | LWU => in_tlb pmas TLB_READ (width n) m load_address
  | SB | SH | SW | SD => in_tlb pmas TLB_WRITE (width n) m store_address
  | _ => True
  end.
End instructions.
