(* ===== verification/RiscvProofs.v ===== *)
(** * The interpreter runs RV64IM: theorem *)

From S2P Require Import Prelude Bits Shadow SolidityCompat Rv64i HashTree Memory UarchFacts Machine MachineFacts UarchMemory UarchIsa Samples Riscv Hart Trap Csr Devices VirtualMemory PageTableProofs Decode Execute SoftFloat ExecuteFloat Compressed JumpTable Interpreter Rv64gc Dispatch DecodeProofs RiscvIsa.

(** ** The encoding of each mnemonic *)

Section encodings.
Context {cfg : BuildConfig} (pmas : list address_range) (ev : bool).
#[local] Abbreviation load f := (f pmas).
#[local] Abbreviation store f := (clocked (f pmas ev)).

Definition rv64i_run (n : mnemonic) : rd_kind -> Z -> Z -> Z -> result :=
  match n with
  | LUI => with_rd execute_LUI | AUIPC => with_rd execute_AUIPC | JAL => with_rd execute_JAL | JALR => with_rd execute_JALR
  | BEQ => plain execute_BEQ | BNE => plain execute_BNE | BLT => plain execute_BLT
  | BGE => plain execute_BGE | BLTU => plain execute_BLTU | BGEU => plain execute_BGEU
  | LB => load execute_LB | LH => load execute_LH | LW => load execute_LW | LD => load execute_LD
  | LBU => load execute_LBU | LHU => load execute_LHU | LWU => load execute_LWU
  | SB => store execute_SB | SH => store execute_SH | SW => store execute_SW | SD => store execute_SD
  | ADDI => with_rd execute_ADDI | SLTI => with_rd execute_SLTI | SLTIU => with_rd execute_SLTIU
  | XORI => with_rd execute_XORI | ORI => with_rd execute_ORI | ANDI => with_rd execute_ANDI
  | SLLI => with_rd execute_SLLI | SRLI => with_rd execute_SRLI | SRAI => with_rd execute_SRAI
  | ADD => with_rd execute_ADD | SUB => with_rd execute_SUB | SLL => with_rd execute_SLL | SLT => with_rd execute_SLT
  | SLTU => with_rd execute_SLTU | XOR => with_rd execute_XOR | SRL => with_rd execute_SRL | SRA => with_rd execute_SRA
  | OR => with_rd execute_OR | AND => with_rd execute_AND
  | ADDIW => with_rd execute_ADDIW | SLLIW => with_rd execute_SLLIW | SRLIW => with_rd execute_SRLIW | SRAIW => with_rd execute_SRAIW
  | ADDW => with_rd execute_ADDW | SUBW => with_rd execute_SUBW | SLLW => with_rd execute_SLLW
  | SRLW => with_rd execute_SRLW | SRAW => with_rd execute_SRAW
  | FENCE => plain execute_FENCE | ECALL => plain execute_ECALL | EBREAK => plain execute_EBREAK
  end.
Definition rv64m_run (n : m_mnemonic) : rd_kind -> Z -> Z -> Z -> result :=
  match n with
  | MUL => with_rd execute_MUL | MULH => with_rd execute_MULH | MULHSU => with_rd execute_MULHSU | MULHU => with_rd execute_MULHU
  | DIV => with_rd execute_DIV | DIVU => with_rd execute_DIVU | REM => with_rd execute_REM | REMU => with_rd execute_REMU
  | MULW => with_rd execute_MULW | DIVW => with_rd execute_DIVW | DIVUW => with_rd execute_DIVUW
  | REMW => with_rd execute_REMW | REMUW => with_rd execute_REMUW
  end.

(** The place in the listing of the encoding of an opcode. *)
Definition place (mask match_ : Z) : nat :=
  default O (fst <$> list_find (fun e => enc_mask e = mask /\ enc_match e = match_) (rv64gc_encodings pmas ev)).

Lemma rv64i_listed :
  Forall (fun o => nth_error (rv64gc_encodings pmas ev) (place (op_mask o) (op_match o)) =
    Some {| enc_mask := op_mask o; enc_match := op_match o; enc_run := rv64i_run (op_name o) |}) rv64i_opcodes.
Proof. repeat apply Forall_cons_2; try apply Forall_nil_2; reflexivity. Qed.
Lemma rv64m_listed :
  Forall (fun o => nth_error (rv64gc_encodings pmas ev) (place 0xfe00707f (m_match o)) =
    Some {| enc_mask := 0xfe00707f; enc_match := m_match o; enc_run := rv64m_run (m_name o) |}) rv64m_opcodes.
Proof. repeat apply Forall_cons_2; try apply Forall_nil_2; reflexivity. Qed.
End encodings.

(** ** Each mnemonic *)

Section steps.
Context {cfg : BuildConfig} (pmas : list address_range) (ev : bool) (insn pc mcycle : Z) (m : memory).
Context (Hu : is_u 32 insn) (Hx0 : mem_read m (x_address 0) = 0).

Lemma funct7_of_match o : Z.land insn 0xfe00707f = o -> insn_get_funct7 insn = Z.shiftr o 25.
Proof using Hu.
  intros <-. rewrite Z.shiftr_land. change (Z.shiftr 0xfe00707f 25) with (Z.ones 7).
  rewrite Z.land_ones, Z.mod_small; [done| |lia]. rewrite Z.shiftr_div_pow2 by lia. unfold is_u in Hu.
  split; [apply Z.div_pos; lia|apply Z.div_lt_upper_bound; lia].
Qed.

Lemma rv64i_run_isa o :
  In o rv64i_opcodes -> matches insn o = true -> op_name o <> ECALL -> op_name o <> EBREAK ->
  access_in_tlb pmas insn m (op_name o) ->
  rv64i_run pmas ev (op_name o) (destination insn) pc mcycle insn m = rv64i_step (op_name o) insn pc m.
Proof using Hu Hx0.
  intros Hin Ho Hec Heb Ht. unfold rv64i_opcodes in Hin. cbn [In] in Hin.
  repeat (destruct Hin as [<-|Hin]; [cbn [op_name u_type i_type r_type s6_type sys_type access_in_tlb] in *|]); try done.
  - apply LUI_isa. - apply AUIPC_isa. - apply JAL_isa. - by apply JALR_isa.
  - by apply hart_branch_run. - by apply hart_branch_run. - by apply hart_branch_run. - by apply hart_branch_run. - by apply hart_branch_run. - by apply hart_branch_run.
  - by apply load_run. - by apply load_run. - by apply load_run. - apply load_run; try done. exact LD_extend.
  - by apply load_run. - by apply load_run. - by apply load_run.
  - by apply hart_store_run. - by apply hart_store_run. - by apply hart_store_run. - by apply hart_store_run.
  - by apply ADDI_isa. - by apply SLTI_isa. - by apply SLTIU_isa. - by apply XORI_isa. - by apply ORI_isa. - by apply ANDI_isa.
  - by apply SLLI_isa. - by apply SRLI_isa. - by apply SRAI_isa.
  - by apply ADD_isa. - by apply SUB_isa. - by apply SLL_isa. - by apply SLT_isa. - by apply SLTU_isa. - by apply XOR_isa.
  - by apply SRL_isa. - by apply SRA_isa. - by apply OR_isa. - by apply AND_isa.
  - by apply ADDIW_isa.
  - apply SLLIW_isa; [done|]. apply (funct7_of_match 0x101b). by apply Z.eqb_eq in Ho.
  - by apply SRLIW_isa. - by apply SRAIW_isa. - by apply ADDW_isa. - by apply SUBW_isa. - by apply SLLW_isa. - by apply SRLW_isa. - by apply SRAW_isa.
Qed.

Lemma rv64m_run_isa o :
  In o rv64m_opcodes -> m_matches insn o = true ->
  rv64m_run (m_name o) (destination insn) pc mcycle insn m = rv64m_step (m_name o) insn pc m.
Proof using Hx0.
  intros Hin Ho. apply Z.eqb_eq in Ho. unfold rv64m_opcodes in Hin. cbn [In] in Hin.
  repeat (destruct Hin as [<-|Hin]; [cbn [m_name] in *|]); try done.
  - by apply MUL_isa. - by apply MULH_isa. - by apply MULHSU_isa. - by apply MULHU_isa.
  - by apply DIV_isa. - by apply DIVU_isa. - by apply REM_isa. - by apply REMU_isa.
  - by apply MULW_isa. - by apply DIVW_isa. - by apply DIVUW_isa. - by apply REMW_isa. - by apply REMUW_isa.
Qed.
End steps.

(** ** Words *)

Section words.
Context {cfg : BuildConfig} (pmas : list address_range) (ev : bool).

Lemma low_bits insn mask match_ : Z.land mask 3 = 3 -> Z.land match_ 3 = 3 -> Z.land insn mask = match_ -> Z.land insn 3 = 3.
Proof. intros Hk Hm E. rewrite <-E, <-Z.land_assoc, Hk in Hm. exact Hm. Qed.

Lemma execute_insn_listed pc mcycle insn m e :
  is_u 32 insn -> In e (rv64gc_encodings pmas ev) -> is_encoding insn e = true -> Z.land (enc_mask e) 3 = 3 -> Z.land (enc_match e) 3 = 3 ->
  execute_insn pmas ev pc mcycle insn m = enc_run e (destination insn) pc mcycle insn m.
Proof.
  intros Hu Hin He Hk Hm. pose proof He as E. apply Z.eqb_eq in E.
  rewrite (execute_insn_run_matching pmas ev pc mcycle insn m Hu (low_bits _ _ _ Hk Hm E)). unfold run_matching.
  by rewrite (find_apart _ _ e (encodings_apart pmas ev) Hin He).
Qed.

Lemma opcodes_low_bits :
  forallb (fun o => (Z.land (op_mask o) 3 =? 3) && (Z.land (op_match o) 3 =? 3)) rv64i_opcodes &&
  forallb (fun o => Z.land (m_match o) 3 =? 3) rv64m_opcodes = true.
Proof. vm_compute. reflexivity. Qed.

(** C39: The big interpreter implements RV64I and the M extension as the manual defines them. A word that the manual decodes to an instruction, not ECALL nor EBREAK, writes the register, the bytes and the next pc that the instruction has there, and nothing else; a destination x0 is not written. Of a load or a store this holds when the translation of its address is in the TLB, and the address is then taken through it; when it is not, the slow path walks the page tables. The reference for RV64I is the one that the microarchitecture implements (C6), so both interpreters run the same base instructions. *)
Theorem execute_insn_rv64im pc mcycle insn m :
  is_u 32 insn -> mem_read m (x_address 0) = 0 ->
  (forall n, Rv64i.decode insn = Some n -> n <> ECALL -> n <> EBREAK -> access_in_tlb pmas insn m n ->
     execute_insn pmas ev pc mcycle insn m = rv64i_step n insn pc m) /\
  (forall n, m_decode insn = Some n -> execute_insn pmas ev pc mcycle insn m = rv64m_step n insn pc m).
Proof.
  intros Hu Hx0. pose proof opcodes_low_bits as Hlow. apply andb_true_iff in Hlow as [Hi Hm]. rewrite !forallb_forall in Hi, Hm. split.
  - intros n (o & Ho & ->)%fmap_Some Hec Heb Ht. apply find_some in Ho as [Hin Ho]. specialize (Hi o Hin).
    apply andb_true_iff in Hi as [Hk%Z.eqb_eq Hl%Z.eqb_eq]. pose proof (rv64i_listed pmas ev) as H.
    rewrite Forall_forall in H. pose proof (nth_error_In _ _ (H o (proj2 (list_elem_of_In _ o) Hin))) as HIn.
    rewrite (execute_insn_listed pc mcycle insn m _ Hu HIn Ho Hk Hl). by apply rv64i_run_isa.
  - intros n (o & Ho & ->)%fmap_Some. apply find_some in Ho as [Hin Ho]. specialize (Hm o Hin). apply Z.eqb_eq in Hm.
    pose proof (rv64m_listed pmas ev) as H.
    rewrite Forall_forall in H. pose proof (nth_error_In _ _ (H o (proj2 (list_elem_of_In _ o) Hin))) as HIn.
    rewrite (execute_insn_listed pc mcycle insn m _ Hu HIn Ho eq_refl Hm). by apply rv64m_run_isa.
Qed.
End words.

(** A state with the page 0x80000000 in the TLB for loads and stores; x1 points to it. *)
Definition sample_mapped_hart : memory :=
  mem_write (x_address 1) 0x80000010 (mem_write (x_address 2) 7
    (mem_write_tlb TLB_READ (tlb_slot_index 0x80000000) 0x80000000 0 0
      (mem_write_tlb TLB_WRITE (tlb_slot_index 0x80000000) 0x80000000 0 0 ∅))).

(** [sw x2, 4(x1)], [lw x3, 0(x1)] and [mul x3, x1, x2]. *)
Lemma execute_insn_rv64im_witness :
  @execute_insn debug_build [sample_ram] false 0x1000 0 0x0020a223 sample_mapped_hart =
    (Ret (success, 0x1004), store_bytes sample_mapped_hart 0x80000014 4 7) /\
  @execute_insn debug_build [sample_ram] false 0x1000 0 0x0000a183 sample_mapped_hart =
    (Ret (success, 0x1004), mem_write (x_address 3) 0 sample_mapped_hart) /\
  @execute_insn debug_build [sample_ram] false 0x1000 0 0x022081b3 sample_mapped_hart =
    (Ret (success, 0x1004), mem_write (x_address 3) 0x380000070 sample_mapped_hart).
Proof.
  split_and!.
  - etrans; [apply (proj1 (@execute_insn_rv64im debug_build [sample_ram] false 0x1000 0 0x0020a223 sample_mapped_hart ltac:(vm_compute; done) eq_refl) SW)|];
      first [done|reflexivity|split; vm_compute; reflexivity].
  - etrans; [apply (proj1 (@execute_insn_rv64im debug_build [sample_ram] false 0x1000 0 0x0000a183 sample_mapped_hart ltac:(vm_compute; done) eq_refl) LW)|];
      first [done|reflexivity|split; vm_compute; reflexivity].
  - etrans; [apply (proj2 (@execute_insn_rv64im debug_build [sample_ram] false 0x1000 0 0x022081b3 sample_mapped_hart ltac:(vm_compute; done) eq_refl) MUL)|]; reflexivity.
Defined.
