(* ===== verification/BackMerkleTree.v ===== *)
(** * Incremental Merkle trees (src/back-merkle-tree.hpp, src/back-merkle-tree.cpp)

    A tree of 2^log2_max_leaves leaves that are appended one at a time, of
    which only the roots of the complete subtrees are kept: entry [i] of the
    context is that of 2^i leaves when bit [i] of the leaf count is set, and
    is not used otherwise.  Methods that change the tree are computations on
    it. *)

From S2P Require Import Prelude SolidityCompat HashTree Machine.

Section back_merkle_tree.
Context `{IHasher H}.

Record back_merkle_tree := {
  m_leaf_count : Z;
  m_context : list H
}.

(** A [machine_hash] that is value-initialised. *)
Definition no_hash : H := machine_hash_of_bytes (zeros 32).

(** [(leaf_count & (UINT64_C(1) << i)) != 0] *)
Definition has_span (leaf_count : Z) (i : nat) : bool := negb (Z.land leaf_count (uint64 (Z.shiftl 1 (Z.of_nat i))) =? 0).

Definition get_log2_max_leaves (t : back_merkle_tree) : Z := Z.of_nat (length (m_context t)) - 1.
Definition get_max_leaves (t : back_merkle_tree) : Z := uint64 (Z.shiftl 1 (get_log2_max_leaves t)).
Definition full (t : back_merkle_tree) : bool := get_max_leaves t <=? m_leaf_count t.
Definition back_tree_empty (t : back_merkle_tree) : bool := m_leaf_count t =? 0.
Definition get_remaining_leaf_count (t : back_merkle_tree) : Z := uint64 (get_max_leaves t - m_leaf_count t).
Definition get_leaf_count (t : back_merkle_tree) : Z := m_leaf_count t.

(** ** Construction and saving of the context *)

(** The loop that unpacks [context], from [i], of [n] iterations. *)
Fixpoint unpack_context (n i : nat) (leaf_count : Z) (context : list H) (m_context : list H) : outcome (list H * list H) :=
  match n with
  | O => mret (m_context, context)
  | S n =>
      if has_span leaf_count i then
        match context with
        | [] => Throw (out_of_range "leaves context is incompatible")
        | hash :: context => unpack_context n (S i) leaf_count context (<[i := hash]> m_context)
        end
      else unpack_context n (S i) leaf_count context m_context
  end.

Definition back_merkle_tree_new (log2_max_leaves leaf_count : Z) (context : list H) : outcome back_merkle_tree :=
  let t := {| m_leaf_count := leaf_count; m_context := replicate (Z.to_nat (Z.max 1 (log2_max_leaves + 1))) no_hash |} in
  if log2_max_leaves <? 0 then Throw (out_of_range "log2_max_leaves is negative")
  else if 64 <=? log2_max_leaves then Throw (out_of_range "log2_max_leaves is too large")
  else if get_max_leaves t <=? leaf_count then Throw (out_of_range "leaf count is greater than or equal to max leaves")
  else
    '(m_context, rest) ← (if 0 <? leaf_count then unpack_context (Z.to_nat (log2_max_leaves + 1)) 0 leaf_count context (m_context t)
                          else mret (m_context t, context));
    match rest with
    | [] => mret {| m_leaf_count := leaf_count; m_context := m_context |}
    | _ => Throw (out_of_range "leaves context is incompatible")
    end.

Definition validate_log2_max_leaves_size (log2_root_size log2_leaf_size log2_word_size : Z) : outcome Z :=
  if log2_root_size <? 0 then Throw (out_of_range "log2_root_size is negative")
  else if log2_leaf_size <? 0 then Throw (out_of_range "log2_leaf_size is negative")
  else if log2_word_size <? 0 then Throw (out_of_range "log2_word_size is negative")
  else if log2_root_size <? log2_leaf_size then Throw (out_of_range "log2_leaf_size is greater than log2_root_size")
  else if log2_leaf_size <? log2_word_size then Throw (out_of_range "log2_word_size is greater than log2_leaf_size")
  else if 64 <=? log2_root_size - log2_leaf_size then Throw (out_of_range "log2_root_size is too large")
  else mret (log2_root_size - log2_leaf_size).

Definition back_merkle_tree_of_sizes (log2_root_size log2_leaf_size log2_word_size : Z) : outcome back_merkle_tree :=
  log2_max_leaves ← validate_log2_max_leaves_size log2_root_size log2_leaf_size log2_word_size;
  back_merkle_tree_new log2_max_leaves 0 [].

Definition get_context (t : back_merkle_tree) : list H :=
  if 0 <? m_leaf_count t then
    omap (fun i => if has_span (m_leaf_count t) i then m_context t !! i else None) (seq 0 (length (m_context t)))
  else [].

(** ** Appending *)

(** The loop that combines [right] with the subtrees on its left, from
    [i], of [n] iterations: the context, and the entry that was set. *)
Fixpoint bubble_right (n i : nat) (leaf_count : Z) (right : H) (context : list H) : list H * option nat :=
  match n with
  | O => (context, None)
  | S n =>
      if has_span leaf_count i then
        let left := default no_hash (context !! i) in
        bubble_right n (S i) leaf_count (concat_hash left right) context
      else (<[i := right]> context, Some i)
  end.

Definition push_back (new_leaf_hash : H) : M back_merkle_tree () :=
  t ← get;
  let right := new_leaf_hash in
  if get_max_leaves t <=? m_leaf_count t then throw (out_of_range "too many leaves")
  else
    let '(context, _) := bubble_right (length (m_context t)) 0 (m_leaf_count t) right (m_context t) in
    modify (fun _ => {| m_leaf_count := uint64 (m_leaf_count t + 1); m_context := context |}).

(** The main loop of [pad_back]: the remaining count and the tree.  An
    iteration moves [j] on, so [fuel] is the number of entries. *)
Fixpoint pad_loop (fuel j : nat) (new_leaf_count : Z) (pad_hashes : list H) (t : back_merkle_tree) : Z * back_merkle_tree :=
  match fuel with
  | O => (new_leaf_count, t)
  | S fuel =>
      let j_span := uint64 (Z.shiftl 1 (Z.of_nat j)) in
      if (length (m_context t) <=? j)%nat then (new_leaf_count, t)
      else if new_leaf_count <? j_span then (new_leaf_count, t)
      else if has_span (m_leaf_count t) j then
        let right := default no_hash (pad_hashes !! j) in
        let '(context, set) := bubble_right (length (m_context t) - j) j (m_leaf_count t) right (m_context t) in
        pad_loop fuel (default j set) (new_leaf_count - j_span) pad_hashes
          {| m_leaf_count := uint64 (m_leaf_count t + j_span); m_context := context |}
      else pad_loop fuel (S j) new_leaf_count pad_hashes t
  end.

(** The loop that adds the rest, from [i], of [n] iterations. *)
Fixpoint rest_loop (n i : nat) (new_leaf_count : Z) (pad_hashes : list H) (t : back_merkle_tree) : Z * back_merkle_tree :=
  match n with
  | O => (new_leaf_count, t)
  | S n =>
      let i_span := uint64 (Z.shiftl 1 (Z.of_nat i)) in
      if 0 <? new_leaf_count then
        if has_span new_leaf_count i then
          rest_loop n (S i) (new_leaf_count - i_span) pad_hashes
            {| m_leaf_count := uint64 (m_leaf_count t + i_span);
               m_context := <[i := default no_hash (pad_hashes !! i)]> (m_context t) |}
        else rest_loop n (S i) new_leaf_count pad_hashes t
      else (new_leaf_count, t)
  end.

Definition pad_back `{BuildConfig} (new_leaf_count : Z) (pad_hashes : list H) : M back_merkle_tree () :=
  t ← get;
  if new_leaf_count =? 0 then mret ()
  else if (get_max_leaves t <? new_leaf_count) || (get_max_leaves t <? uint64 (m_leaf_count t + new_leaf_count))
  then throw (invalid_argument "too many leaves")
  else if negb (length pad_hashes =? length (m_context t))%nat
  then throw (invalid_argument "pad hashes does not have expected size")
  else
    let '(new_leaf_count, t) := pad_loop (S (length (m_context t))) 0 new_leaf_count pad_hashes t in
    let '(new_leaf_count, t) := rest_loop (length (m_context t)) 0 new_leaf_count pad_hashes t in
    modify (fun _ => t) ;;
    require (new_leaf_count =? 0) "new_leaf_count == 0" ;;
    require (m_leaf_count t <=? get_max_leaves t) "m_leaf_count <= get_max_leaves()".

Definition back_tree_get_root_hash (t : back_merkle_tree) : outcome H :=
  if negb (full t) then Throw (runtime_error "attempt to get root hash of an incomplete back tree")
  else mret (default no_hash (last (m_context t))).

Definition clear : M back_merkle_tree () := modify (fun t => {| m_leaf_count := 0; m_context := m_context t |}).

(** ** Hashes for padding *)

Fixpoint pad_hashes_from (n : nat) (h : H) : list H :=
  match n with
  | O => []
  | S n => h :: pad_hashes_from n (concat_hash h h)
  end.
Definition make_pad_hashes (leaf_hash : H) (log2_max_leaves : Z) : list H :=
  pad_hashes_from (Z.to_nat (log2_max_leaves + 1)) leaf_hash.

Definition get_pristine_word_hash (log2_word_size : Z) : H := hash (zeros (Z.shiftl 1 log2_word_size)).

Definition make_pristine_pad_hashes (log2_root_size log2_leaf_size log2_word_size : Z) : outcome (list H) :=
  validate_log2_max_leaves_size log2_root_size log2_leaf_size log2_word_size ;;
  let pristine_pad_hashes := make_pad_hashes (get_pristine_word_hash log2_word_size) (log2_root_size - log2_word_size) in
  if log2_word_size <? log2_leaf_size then mret (drop (Z.to_nat (log2_leaf_size - log2_word_size)) pristine_pad_hashes)
  else mret pristine_pad_hashes.
End back_merkle_tree.
Arguments back_merkle_tree : clear implicits.
