(* ===== verification/BackMerkleFacts.v ===== *)
(** * What the incremental tree represents

    The state of a [back_merkle_tree] after some leaves were appended, in
    terms of the reference tree over those leaves, and how each method
    changes it. *)

From S2P Require Import Prelude SolidityCompat HashTree Machine BackMerkleTree.

(** ** Arithmetic of spans *)

Lemma mod_span_succ c i : 0 <= c -> c mod 2 ^ Z.of_nat (S i) = c mod 2 ^ Z.of_nat i + 2 ^ Z.of_nat i * b2u (Z.odd (c / 2 ^ Z.of_nat i)).
Proof.
  intros Hc. rewrite Nat2Z.inj_succ, Z.pow_succ_r, (Z.mul_comm 2), Z.rem_mul_r by lia. rewrite Zmod_odd. unfold b2u. by destruct (Z.odd _).
Qed.

Lemma div_span_succ c i : c / 2 ^ Z.of_nat (S i) = c / 2 ^ Z.of_nat i / 2.
Proof. rewrite Nat2Z.inj_succ, Z.pow_succ_r, (Z.mul_comm 2), Z.div_div by lia. done. Qed.

(** A count that ends in zeros, plus a smaller one. *)
Lemma add_below c s j x :
  0 <= s < 2 ^ Z.of_nat j -> c mod 2 ^ Z.of_nat j = 0 ->
  if decide (x < j)%nat then Z.odd ((c + s) / 2 ^ Z.of_nat x) = Z.odd (s / 2 ^ Z.of_nat x)
  else (c + s) / 2 ^ Z.of_nat x = c / 2 ^ Z.of_nat x.
Proof.
  intros Hs Hc. pose proof (Z.div_mod c (2 ^ Z.of_nat j) ltac:(lia)) as E. rewrite Hc, Z.add_0_r in E.
  set (q := c / 2 ^ Z.of_nat j) in *. destruct (decide (x < j)%nat).
  - assert (Ej : 2 ^ Z.of_nat j = 2 ^ Z.of_nat x * (2 * 2 ^ Z.of_nat (j - x - 1))).
    { rewrite <-Z.pow_succ_r, <-Z.pow_add_r by lia. f_equal. lia. }
    rewrite E, Ej. replace (2 ^ Z.of_nat x * (2 * 2 ^ Z.of_nat (j - x - 1)) * q + s)
      with (s + 2 * (2 ^ Z.of_nat (j - x - 1) * q) * 2 ^ Z.of_nat x) by ring.
    rewrite Z.div_add by lia. rewrite Z.odd_add, Z.odd_mul. by destruct (Z.odd _).
  - assert (Ex : 2 ^ Z.of_nat x = 2 ^ Z.of_nat j * 2 ^ Z.of_nat (x - j)) by (rewrite <-Z.pow_add_r by lia; f_equal; lia).
    rewrite Ex, <-!Z.div_div by lia. f_equal. rewrite E. rewrite (Z.mul_comm (2 ^ Z.of_nat j)), Z.add_comm, Z.div_add by lia.
    rewrite Z.div_mul, Z.div_small by lia. done.
Qed.

Section facts.
Context `{IHasher H}.
Implicit Types t : back_merkle_tree H.

Lemma has_span_spec c i : is_u 64 c -> (i < 64)%nat -> has_span c i = Z.odd (c / 2 ^ Z.of_nat i).
Proof. intros Hc Hi. apply (target_bit_spec c (Z.of_nat i)); [done|lia]. Qed.

(** ** Leaves *)

Definition leaf_at (ls : list H) (k : Z) : H := default no_hash (ls !! Z.to_nat k).

(** The root of 2^i leaves that are all [h]. *)
Fixpoint pad_node (i : nat) (h : H) : H :=
  match i with O => h | S i => concat_hash (pad_node i h) (pad_node i h) end.

Lemma pad_node_shift i h : pad_node i (concat_hash h h) = pad_node (S i) h.
Proof. induction i as [|i IH]; [done|]. cbn [pad_node] in *. by rewrite IH. Qed.

Lemma pad_hashes_lookup n h i : (i < n)%nat -> pad_hashes_from n h !! i = Some (pad_node i h).
Proof.
  revert n h. induction i as [|i IH]; intros [|n] h Hi; try lia; [done|]. cbn [pad_hashes_from lookup list_lookup].
  rewrite IH by lia. by rewrite pad_node_shift.
Qed.
Lemma length_pad_hashes n h : length (pad_hashes_from n h) = n.
Proof. revert h. induction n as [|n IH]; intros h; [done|]. cbn. by rewrite IH. Qed.

Lemma node_pad leaf n i h : (forall y, in_node n i y -> leaf y = h) -> node leaf n i = pad_node n h.
Proof.
  intros Hl. rewrite (node_ext _ (fun _ => h)) by done. clear Hl. revert i.
  induction n as [|n IH]; intros i; [done|]. cbn [node pad_node]. by rewrite !IH.
Qed.

(** ** The state *)

Record represents (L : nat) (ls : list H) t : Prop := {
  rep_entries : length (m_context t) = S L;
  rep_count : m_leaf_count t = Z.of_nat (length ls);
  rep_bound : Z.of_nat (length ls) <= 2 ^ Z.of_nat L;
  rep_context i : (i <= L)%nat -> Z.odd (Z.of_nat (length ls) / 2 ^ Z.of_nat i) = true ->
    m_context t !! i = Some (node (leaf_at ls) i (Z.of_nat (length ls) / 2 ^ Z.of_nat i - 1))
}.

(** A complete subtree does not change when leaves are appended. *)
Lemma node_app ls ls' i x :
  0 <= x -> (x + 1) * 2 ^ Z.of_nat i <= Z.of_nat (length ls) -> node (leaf_at (ls ++ ls')) i x = node (leaf_at ls) i x.
Proof.
  intros Hx Hl. apply node_ext. intros y Hy. unfold in_node in Hy. unfold leaf_at.
  pose proof (Z.div_mod y (2 ^ Z.of_nat i) ltac:(lia)). pose proof (Z.mod_pos_bound y (2 ^ Z.of_nat i) ltac:(lia)).
  rewrite lookup_app_l; [done|]. nia.
Qed.

Lemma odd_span_positive c i : 0 <= c -> Z.odd (c / 2 ^ Z.of_nat i) = true -> 0 <= c / 2 ^ Z.of_nat i - 1 /\ (c / 2 ^ Z.of_nat i - 1 + 1) * 2 ^ Z.of_nat i <= c.
Proof.
  intros Hc Ho. pose proof (Z.div_mod c (2 ^ Z.of_nat i) ltac:(lia)). pose proof (Z.mod_pos_bound c (2 ^ Z.of_nat i) ltac:(lia)).
  assert (0 <= c / 2 ^ Z.of_nat i) by (apply Z.div_pos; lia).
  assert (c / 2 ^ Z.of_nat i <> 0) by (intros E; by rewrite E in Ho). split; [lia|nia].
Qed.

Lemma rep_context_app L ls ls' t i :
  represents L ls t -> (i <= L)%nat -> Z.odd (Z.of_nat (length ls) / 2 ^ Z.of_nat i) = true ->
  m_context t !! i = Some (node (leaf_at (ls ++ ls')) i (Z.of_nat (length ls) / 2 ^ Z.of_nat i - 1)).
Proof.
  intros Hr Hi Ho. rewrite (rep_context _ _ _ Hr i Hi Ho). f_equal. symmetry.
  apply node_app; apply odd_span_positive; lia || done.
Qed.

(** ** Appending a complete subtree *)

(** [right] climbs through the subtrees at its left, up to the first entry
    that is free. *)
Lemma bubble_right_spec leaf L j c n i right context :
  is_u 64 c -> (L < 64)%nat -> c + 2 ^ Z.of_nat j <= 2 ^ Z.of_nat L ->
  (i + n = S L)%nat -> (j <= i)%nat -> c mod 2 ^ Z.of_nat i + 2 ^ Z.of_nat j = 2 ^ Z.of_nat i ->
  (forall x, (i <= x <= L)%nat -> Z.odd (c / 2 ^ Z.of_nat x) = true ->
     context !! x = Some (node leaf x (c / 2 ^ Z.of_nat x - 1))) ->
  right = node leaf i (c / 2 ^ Z.of_nat i) ->
  exists k, (i <= k <= L)%nat /\ (has_span c i = true -> (i < k)%nat) /\
    Z.odd (c / 2 ^ Z.of_nat k) = false /\ c mod 2 ^ Z.of_nat k + 2 ^ Z.of_nat j = 2 ^ Z.of_nat k /\
    bubble_right n i c right context = (<[k := node leaf k (c / 2 ^ Z.of_nat k)]> context, Some k).
Proof.
  intros Hc HL Hfit. unfold is_u in Hc. revert i right. induction n as [|n IH]; intros i right Hn Hj Hm Hctx Hr.
  - exfalso. assert (i = S L) as -> by lia. pose proof (Z.mod_le c (2 ^ Z.of_nat (S L)) ltac:(lia) ltac:(lia)).
    rewrite Nat2Z.inj_succ, Z.pow_succ_r in * by lia. lia.
  - assert (Hi : (i <= L)%nat).
    { destruct (decide (i <= L)%nat); [done|lia]. }
    cbn [bubble_right]. rewrite has_span_spec by (done || lia). destruct (Z.odd (c / 2 ^ Z.of_nat i)) eqn:Ho.
    + destruct (IH (S i) (concat_hash (default no_hash (context !! i)) right)) as (k & Hk & _ & Hodd & Hmk & E); [lia|lia|..].
      * rewrite mod_span_succ, Ho by lia. rewrite Nat2Z.inj_succ, Z.pow_succ_r by lia. cbn [b2u]. lia.
      * intros x Hx. apply Hctx. lia.
      * rewrite (Hctx i) by (done || lia). cbn [default]. rewrite Hr. cbn [node]. rewrite div_span_succ.
        pose proof (Z.div_mod (c / 2 ^ Z.of_nat i) 2 ltac:(lia)) as E. rewrite Zmod_odd, Ho in E. do 2 f_equal; unfold id; f_equal; lia.
      * exists k. split; [lia|]. split; [lia|]. done.
    + exists i. split; [lia|]. split; [by intros|]. split; [done|]. split; [done|]. by rewrite Hr.
Qed.

(** The count after such a step, by spans: [k] is the entry that was set. *)
Lemma carry_spans c j k x :
  0 <= c -> c mod 2 ^ Z.of_nat k + 2 ^ Z.of_nat j = 2 ^ Z.of_nat k -> Z.odd (c / 2 ^ Z.of_nat k) = false ->
  (c + 2 ^ Z.of_nat j) mod 2 ^ Z.of_nat k = 0 /\ (c + 2 ^ Z.of_nat j) / 2 ^ Z.of_nat k = c / 2 ^ Z.of_nat k + 1 /\
  ((x < k)%nat -> Z.odd ((c + 2 ^ Z.of_nat j) / 2 ^ Z.of_nat x) = false) /\
  ((k < x)%nat -> (c + 2 ^ Z.of_nat j) / 2 ^ Z.of_nat x = c / 2 ^ Z.of_nat x).
Proof.
  intros Hc Hm Ho. pose proof (Z.div_mod c (2 ^ Z.of_nat k) ltac:(lia)) as E.
  assert (Esum : c + 2 ^ Z.of_nat j = (c / 2 ^ Z.of_nat k + 1) * 2 ^ Z.of_nat k) by lia. rewrite Esum.
  split; [by apply Z.mod_mul; lia|]. split; [by apply Z.div_mul; lia|]. split.
  - intros Hx. replace (2 ^ Z.of_nat k) with (2 * 2 ^ Z.of_nat (k - x - 1) * 2 ^ Z.of_nat x)
      by (rewrite <-Z.pow_succ_r, <-Z.pow_add_r by lia; f_equal; lia).
    rewrite Z.mul_assoc, Z.div_mul by lia. rewrite !Z.odd_mul. apply andb_false_r.
  - intros Hx. replace (2 ^ Z.of_nat x) with (2 ^ Z.of_nat k * 2 * 2 ^ Z.of_nat (x - k - 1))
      by (rewrite <-Z.mul_assoc, <-Z.pow_succ_r, <-Z.pow_add_r by lia; f_equal; lia).
    rewrite <-!Z.div_div by lia. rewrite Z.div_mul by lia. f_equal. set (q := c / 2 ^ Z.of_nat k) in *.
    pose proof (Z.div_mod q 2 ltac:(lia)) as Eq. rewrite Zmod_odd, Ho in Eq.
    symmetry. apply Z.div_unique with 1; lia.
Qed.

Lemma append_block L ls bs t j right :
  (L < 64)%nat -> represents L ls t -> (j <= L)%nat -> Z.of_nat (length ls) mod 2 ^ Z.of_nat j = 0 ->
  Z.of_nat (length bs) = 2 ^ Z.of_nat j -> Z.of_nat (length ls) + 2 ^ Z.of_nat j <= 2 ^ Z.of_nat L ->
  right = node (leaf_at (ls ++ bs)) j (Z.of_nat (length ls) / 2 ^ Z.of_nat j) ->
  exists context k, bubble_right (S L - j) j (m_leaf_count t) right (m_context t) = (context, Some k) /\
    (j <= k <= L)%nat /\ (has_span (m_leaf_count t) j = true -> (j < k)%nat) /\
    Z.of_nat (length (ls ++ bs)) mod 2 ^ Z.of_nat k = 0 /\
    represents L (ls ++ bs) {| m_leaf_count := Z.of_nat (length (ls ++ bs)); m_context := context |}.
Proof.
  intros HL Hr Hj Hm Hb Hfit Hright. set (c := Z.of_nat (length ls)) in *.
  assert (Hpow : 2 ^ Z.of_nat L < 2 ^ 64) by (apply Z.pow_lt_mono_r; lia).
  assert (Hc : is_u 64 c) by (unfold is_u; lia).
  rewrite (rep_count _ _ _ Hr). fold c.
  destruct (bubble_right_spec (leaf_at (ls ++ bs)) L j c (S L - j) j right (m_context t)) as (k & Hk & Hspan & Hodd & Hmk & E);
    [done|done|done|lia|lia|lia|..|done|].
  { intros x Hx Ho. apply (rep_context_app L); [done|lia|done]. }
  exists (<[k := node (leaf_at (ls ++ bs)) k (c / 2 ^ Z.of_nat k)]> (m_context t)), k.
  rewrite length_app, Nat2Z.inj_add, Hb. fold c.
  split; [exact E|]. split; [lia|]. split; [done|].
  destruct (carry_spans c j k 0 ltac:(lia) Hmk Hodd) as (Hz & _ & _ & _). split; [done|].
  split; cbn [m_leaf_count m_context]; rewrite ?length_insert, ?length_app, ?Nat2Z.inj_add, ?Hb; fold c; [apply Hr|done|done|].
  intros x Hx Ho. destruct (carry_spans c j k x ltac:(lia) Hmk Hodd) as (_ & Hd & Hlow & Hhigh).
  destruct (decide (x < k)%nat); [by rewrite Hlow in Ho|]. destruct (decide (x = k)) as [->|].
  - rewrite list_lookup_insert_eq by (rewrite (rep_entries _ _ _ Hr); lia). rewrite Hd. do 2 f_equal. lia.
  - rewrite Hhigh in * by lia. rewrite list_lookup_insert_ne by done. by apply (rep_context_app L).
Qed.

Lemma max_leaves_spec L ls t : (L < 64)%nat -> represents L ls t -> get_max_leaves t = 2 ^ Z.of_nat L.
Proof.
  intros HL Hr. unfold get_max_leaves, get_log2_max_leaves. rewrite (rep_entries _ _ _ Hr).
  replace (Z.of_nat (S L) - 1) with (Z.of_nat L) by lia. rewrite Z.shiftl_mul_pow2, Z.mul_1_l by lia. apply uwrap_small.
  split; [lia|]. apply Z.pow_lt_mono_r; lia.
Qed.

Lemma pow_fits L : (L < 64)%nat -> 2 ^ Z.of_nat L < 2 ^ 64.
Proof. intros HL. apply Z.pow_lt_mono_r; lia. Qed.

Lemma push_back_run L ls t h :
  (L < 64)%nat -> represents L ls t -> Z.of_nat (length ls) < 2 ^ Z.of_nat L ->
  exists t', push_back h t = (Ret (), t') /\ represents L (ls ++ [h]) t'.
Proof.
  intros HL Hr Hl. pose proof (pow_fits L HL).
  destruct (append_block L ls [h] t 0 h) as (context & k & E & _ & _ & _ & Hr'); [done|done|lia|by rewrite Z.mod_1_r|done|cbn; lia|..].
  { cbn [node]. rewrite Z.div_1_r. unfold leaf_at. by rewrite Nat2Z.id, lookup_app_r, Nat.sub_diag by lia. }
  eexists. split; [|exact Hr']. unfold push_back. erewrite bind_Ret by reflexivity.
  rewrite (max_leaves_spec L ls t) by done. rewrite (rep_count _ _ _ Hr). destruct (_ <=? _) eqn:Hf; [lia|].
  rewrite (rep_entries _ _ _ Hr). replace (S L) with (S L - 0)%nat by lia. rewrite (rep_count _ _ _ Hr) in E. rewrite E.
  unfold modify. do 3 f_equal. rewrite length_app, Nat2Z.inj_add. apply uwrap_small. unfold is_u. cbn. lia.
Qed.

Lemma push_back_full L ls t h :
  (L < 64)%nat -> represents L ls t -> Z.of_nat (length ls) = 2 ^ Z.of_nat L ->
  push_back h t = (Throw (out_of_range "too many leaves"), t).
Proof.
  intros HL Hr Hl. unfold push_back. erewrite bind_Ret by reflexivity. rewrite (max_leaves_spec L ls t) by done.
  rewrite (rep_count _ _ _ Hr), Hl, Z.leb_refl. done.
Qed.

(** ** Padding *)

(** The root of a subtree of padding. *)
Lemma node_replicate ls n h i x :
  Z.of_nat (length ls) <= x * 2 ^ Z.of_nat i -> (x + 1) * 2 ^ Z.of_nat i <= Z.of_nat (length ls) + Z.of_nat n ->
  node (leaf_at (ls ++ replicate n h)) i x = pad_node i h.
Proof.
  intros Hl Hn. apply node_pad. intros y Hy. unfold in_node in Hy.
  pose proof (Z.div_mod y (2 ^ Z.of_nat i) ltac:(lia)). pose proof (Z.mod_pos_bound y (2 ^ Z.of_nat i) ltac:(lia)).
  unfold leaf_at. rewrite lookup_app_r by nia. rewrite lookup_replicate_2; [done|]. nia.
Qed.

Lemma pad_loop_spec L p fuel j n ls t :
  (L < 64)%nat -> represents L ls t -> (j <= S L)%nat -> Z.of_nat (length ls) mod 2 ^ Z.of_nat j = 0 ->
  0 <= n -> Z.of_nat (length ls) + n <= 2 ^ Z.of_nat L -> (S (S L) - j <= fuel)%nat ->
  exists d t' j', pad_loop fuel j n (pad_hashes_from (S L) p) t = (n - Z.of_nat d, t') /\ Z.of_nat d <= n /\ (j' <= S L)%nat /\
    represents L (ls ++ replicate d p) t' /\ Z.of_nat (length (ls ++ replicate d p)) mod 2 ^ Z.of_nat j' = 0 /\
    n - Z.of_nat d < 2 ^ Z.of_nat j'.
Proof.
  intros HL. pose proof (pow_fits L HL) as Hpow. revert j n ls t. induction fuel as [|fuel IH]; intros j n ls t Hr Hj Hm Hn Hfit Hf; [lia|].
  assert (Hstop : n < 2 ^ Z.of_nat j -> exists d t' j', (n, t) = (n - Z.of_nat d, t') /\ Z.of_nat d <= n /\ (j' <= S L)%nat /\
    represents L (ls ++ replicate d p) t' /\ Z.of_nat (length (ls ++ replicate d p)) mod 2 ^ Z.of_nat j' = 0 /\ n - Z.of_nat d < 2 ^ Z.of_nat j').
  { intros Hlt. exists 0%nat, t, j. rewrite app_nil_r, Z.sub_0_r. split_and!; try done; lia. }
  cbn [pad_loop]. rewrite (rep_entries _ _ _ Hr). destruct (_ <=? _)%nat eqn:El.
  { apply Nat.leb_le in El. apply Hstop. assert (j = S L) as -> by lia. rewrite Nat2Z.inj_succ, Z.pow_succ_r by lia. lia. }
  apply Nat.leb_gt in El. assert (Ej : uint64 (Z.shiftl 1 (Z.of_nat j)) = 2 ^ Z.of_nat j).
  { rewrite Z.shiftl_mul_pow2, Z.mul_1_l by lia. apply uwrap_small. split; [lia|]. apply Z.pow_lt_mono_r; lia. }
  rewrite Ej. destruct (n <? _) eqn:En; [apply Hstop; lia|]. apply Z.ltb_ge in En.
  rewrite (rep_count _ _ _ Hr), has_span_spec by (unfold is_u; lia). destruct (Z.odd _) eqn:Ho.
  - set (b := Z.to_nat (2 ^ Z.of_nat j)). assert (Hb : Z.of_nat b = 2 ^ Z.of_nat j) by (unfold b; lia).
    pose proof (Z.div_mod (Z.of_nat (length ls)) (2 ^ Z.of_nat j) ltac:(lia)) as Ec. rewrite Hm in Ec.
    destruct (append_block L ls (replicate b p) t j (pad_node j p)) as (context & k & E & Hk & Hspan & Hmk & Hr'); [done|done|lia|done|..].
    { by rewrite length_replicate. }
    { lia. }
    { symmetry. apply node_replicate; lia. }
    rewrite (rep_count _ _ _ Hr) in E, Hspan. rewrite has_span_spec, Ho in Hspan by (unfold is_u; lia). specialize (Hspan eq_refl).
    rewrite pad_hashes_lookup by lia. cbn [default]. unfold id. rewrite E. cbn [default]. unfold id.
    assert (Ecount : uint64 (Z.of_nat (length ls) + 2 ^ Z.of_nat j) = Z.of_nat (length (ls ++ replicate b p))).
    { rewrite length_app, length_replicate, Nat2Z.inj_add, Hb. apply uwrap_small. unfold is_u. lia. }
    rewrite Ecount.
    assert (Hlen : Z.of_nat (length (ls ++ replicate b p)) = Z.of_nat (length ls) + 2 ^ Z.of_nat j)
      by (rewrite length_app, length_replicate; lia).
    destruct (IH k (n - 2 ^ Z.of_nat j) _ _ Hr') as (d & t' & j' & -> & Hd & Hj' & Hr'' & Hm' & Hlt); [lia|done|lia|lia|lia|].
    exists (b + d)%nat, t', j'. rewrite replicate_add, app_assoc. split; [f_equal; lia|]. split_and!; try done; lia.
  - apply IH; try done; try lia. rewrite mod_span_succ, Ho, Hm by lia. cbn [b2u]. lia.
Qed.

(** The rest of the padding: [s] leaves were added to [ls], whose count ends
    in [j] zeros, and [r] are left. *)
Record padded (L j : nat) (ls : list H) (p : H) (s : Z) t : Prop := {
  padded_entries : length (m_context t) = S L;
  padded_count : m_leaf_count t = Z.of_nat (length ls) + s;
  padded_low x : (x < j)%nat -> (x <= L)%nat -> Z.odd (s / 2 ^ Z.of_nat x) = true -> m_context t !! x = Some (pad_node x p);
  padded_high x : (j <= x <= L)%nat -> Z.odd (Z.of_nat (length ls) / 2 ^ Z.of_nat x) = true ->
    m_context t !! x = Some (node (leaf_at ls) x (Z.of_nat (length ls) / 2 ^ Z.of_nat x - 1))
}.

Lemma padded_represents L j ls p s t :
  Z.of_nat (length ls) mod 2 ^ Z.of_nat j = 0 -> 0 <= s < 2 ^ Z.of_nat j -> Z.of_nat (length ls) + s <= 2 ^ Z.of_nat L ->
  padded L j ls p s t -> represents L (ls ++ replicate (Z.to_nat s) p) t.
Proof.
  intros Hm Hs Hfit Hp. set (c := Z.of_nat (length ls)) in *.
  assert (Hlen : Z.of_nat (length (ls ++ replicate (Z.to_nat s) p)) = c + s)
    by (rewrite length_app, length_replicate, Nat2Z.inj_add, Z2Nat.id; lia).
  split; [apply Hp|by rewrite Hlen, (padded_count _ _ _ _ _ _ Hp)|lia|]. rewrite Hlen. intros x Hx Ho.
  pose proof (add_below c s j x Hs Hm) as Hadd. destruct (decide (x < j)%nat).
  - rewrite (padded_low _ _ _ _ _ _ Hp) by (done || congruence). f_equal. symmetry.
    pose proof (Z.div_mod (c + s) (2 ^ Z.of_nat x) ltac:(lia)). pose proof (Z.mod_pos_bound (c + s) (2 ^ Z.of_nat x) ltac:(lia)).
    set (q := (c + s) / 2 ^ Z.of_nat x) in *.
    apply node_replicate; [|rewrite Z2Nat.id by lia; fold c; nia]. fold c.
    (* the subtree begins after the leaves, whose count is a multiple of its size *)
    assert (Hcx : c = (c / 2 ^ Z.of_nat x) * 2 ^ Z.of_nat x).
    { pose proof (Z.div_mod c (2 ^ Z.of_nat j) ltac:(lia)) as Ec. rewrite Hm, Z.add_0_r in Ec. rewrite Ec at 1 2.
      replace (2 ^ Z.of_nat j) with (2 ^ Z.of_nat (j - x) * 2 ^ Z.of_nat x) by (rewrite <-Z.pow_add_r by lia; f_equal; lia).
      replace (2 ^ Z.of_nat (j - x) * 2 ^ Z.of_nat x * (c / (2 ^ Z.of_nat (j - x) * 2 ^ Z.of_nat x)))
        with (2 ^ Z.of_nat (j - x) * (c / (2 ^ Z.of_nat (j - x) * 2 ^ Z.of_nat x)) * 2 ^ Z.of_nat x) by ring.
      by rewrite Z.div_mul by lia. }
    assert (Hsq : 1 <= s / 2 ^ Z.of_nat x).
    { assert (0 <= s / 2 ^ Z.of_nat x) by (apply Z.div_pos; lia). destruct (decide (s / 2 ^ Z.of_nat x = 0)) as [E0|]; [|lia].
      rewrite Hadd, E0 in Ho. done. }
    assert (Hq : q = c / 2 ^ Z.of_nat x + s / 2 ^ Z.of_nat x).
    { unfold q. rewrite Hcx at 1. rewrite Z.add_comm, Z.div_add by lia. lia. }
    rewrite Hq. rewrite Hcx at 1. apply Z.mul_le_mono_nonneg_r; lia.
  - rewrite Hadd in *. rewrite (padded_high _ _ _ _ _ _ Hp) by (done || lia). f_equal. symmetry.
    apply node_app; apply odd_span_positive; lia || done.
Qed.

Lemma represents_padded L j ls p t : represents L ls t -> padded L j ls p 0 t.
Proof.
  intros Hr. split; [apply Hr|rewrite (rep_count _ _ _ Hr); lia| |].
  - intros x _ _ Ho. by rewrite Z.div_0_l in Ho by lia.
  - intros x Hx Ho. apply (rep_context _ _ _ Hr); [lia|done].
Qed.

Lemma add_span s i x : 0 <= s < 2 ^ Z.of_nat i ->
  Z.odd ((s + 2 ^ Z.of_nat i) / 2 ^ Z.of_nat x) = if decide (x < i)%nat then Z.odd (s / 2 ^ Z.of_nat x) else bool_decide (x = i).
Proof.
  intros Hs. rewrite Z.add_comm. assert (Hi : 2 ^ Z.of_nat i <> 0) by lia.
  pose proof (add_below (2 ^ Z.of_nat i) s i x Hs (Z.mod_same _ Hi)) as Ha.
  destruct (decide (x < i)%nat); [done|]. rewrite Ha. case_bool_decide as Hx; [subst; by rewrite Z.div_same by lia|].
  rewrite Z.div_small; [done|]. split; [lia|]. apply Z.pow_lt_mono_r; lia.
Qed.

Lemma rest_loop_spec L j n i p s r ls t :
  (L < 64)%nat -> (i + n = S L)%nat -> 0 <= s < 2 ^ Z.of_nat i -> 0 <= r -> r mod 2 ^ Z.of_nat i = 0 ->
  s + r < 2 ^ Z.of_nat j -> Z.of_nat (length ls) + s + r <= 2 ^ Z.of_nat L -> padded L j ls p s t ->
  exists t', rest_loop n i r (pad_hashes_from (S L) p) t = (0, t') /\ padded L j ls p (s + r) t'.
Proof.
  intros HL. pose proof (pow_fits L HL) as Hpow. revert i s r t. induction n as [|n IH]; intros i s r t Hn Hs Hr Hm Hlt Hfit Hp.
  - exists t. cbn [rest_loop]. assert (i = S L) as -> by lia.
    assert (r = 0) as ->; [|by rewrite Z.add_0_r].
    rewrite Z.mod_small in Hm; [done|]. rewrite Nat2Z.inj_succ, Z.pow_succ_r by lia. lia.
  - cbn [rest_loop]. destruct (0 <? r) eqn:Er; [|apply Z.ltb_ge in Er; assert (r = 0) as -> by lia; exists t; by rewrite Z.add_0_r].
    rewrite has_span_spec by (unfold is_u; lia).
    assert (Ei : uint64 (Z.shiftl 1 (Z.of_nat i)) = 2 ^ Z.of_nat i).
    { rewrite Z.shiftl_mul_pow2, Z.mul_1_l by lia. apply uwrap_small. split; [lia|]. apply Z.pow_lt_mono_r; lia. }
    pose proof (Z.div_mod r (2 ^ Z.of_nat i) ltac:(lia)) as Er'. rewrite Hm, Z.add_0_r in Er'.
    pose proof (mod_span_succ r i Hr) as Hms. rewrite Hm in Hms.
    assert (Epow : 2 ^ Z.of_nat (S i) = 2 * 2 ^ Z.of_nat i) by (rewrite Nat2Z.inj_succ, Z.pow_succ_r by lia; done).
    destruct (Z.odd (r / 2 ^ Z.of_nat i)) eqn:Ho; cbn [b2u] in Hms.
    + assert (Hri : 2 ^ Z.of_nat i <= r) by (destruct (decide (r < 2 ^ Z.of_nat i)); [|lia]; by rewrite Z.div_small in Ho by lia).
      assert (Hij : (i < j)%nat).
      { destruct (decide (i < j)%nat); [done|]. pose proof (Z.pow_le_mono_r 2 (Z.of_nat j) (Z.of_nat i) ltac:(lia) ltac:(lia)). lia. }
      rewrite Ei. destruct (IH (S i) (s + 2 ^ Z.of_nat i) (r - 2 ^ Z.of_nat i)
        {| m_leaf_count := uint64 (m_leaf_count t + 2 ^ Z.of_nat i);
           m_context := <[i := default no_hash (pad_hashes_from (S L) p !! i)]> (m_context t) |}) as (t' & E & Hp'); [lia|lia|lia| |lia|lia| |].
      * rewrite Zminus_mod, Hms, Epow, (Z.mod_small (2 ^ Z.of_nat i)) by lia.
        replace (0 + 2 ^ Z.of_nat i * 1 - 2 ^ Z.of_nat i) with 0 by lia. apply Z.mod_0_l. lia.
      * split; cbn [m_leaf_count m_context]; rewrite ?length_insert, ?(padded_count _ _ _ _ _ _ Hp); [apply Hp| | |].
        -- rewrite <-Z.add_assoc. apply uwrap_small. unfold is_u. lia.
        -- intros x Hx HxL Hox. rewrite add_span in Hox by done. destruct (decide (x < i)%nat).
           ++ rewrite list_lookup_insert_ne by lia. by apply (padded_low _ _ _ _ _ _ Hp).
           ++ apply bool_decide_eq_true in Hox as ->. rewrite list_lookup_insert_eq by (rewrite (padded_entries _ _ _ _ _ _ Hp); lia).
              by rewrite pad_hashes_lookup by lia.
        -- intros x Hx Hox. rewrite list_lookup_insert_ne by lia. by apply (padded_high _ _ _ _ _ _ Hp).
      * exists t'. rewrite E. split; [done|]. by replace (s + r) with (s + 2 ^ Z.of_nat i + (r - 2 ^ Z.of_nat i)) by lia.
    + apply IH; try done; lia.
Qed.

Lemma pad_back_run `{BuildConfig} L ls t n p :
  (L < 64)%nat -> represents L ls t -> 0 <= n -> Z.of_nat (length ls) + n <= 2 ^ Z.of_nat L ->
  exists t', pad_back n (make_pad_hashes p (Z.of_nat L)) t = (Ret (), t') /\ represents L (ls ++ replicate (Z.to_nat n) p) t'.
Proof.
  intros HL Hr Hn Hfit. pose proof (pow_fits L HL). unfold pad_back. erewrite bind_Ret by reflexivity.
  destruct (n =? 0) eqn:En; [apply Z.eqb_eq in En as ->; exists t; by rewrite app_nil_r|]. apply Z.eqb_neq in En.
  rewrite (max_leaves_spec L ls t) by done. rewrite (rep_count _ _ _ Hr).
  rewrite (uwrap_small 64) by (unfold is_u; lia).
  destruct (_ <? n) eqn:E1; [lia|]. destruct (_ <? _ + n) eqn:E2; [lia|]. cbn [orb].
  unfold make_pad_hashes. replace (Z.to_nat (Z.of_nat L + 1)) with (S L) by lia.
  rewrite length_pad_hashes, (rep_entries _ _ _ Hr), Nat.eqb_refl. cbn [negb].
  destruct (pad_loop_spec L p (S (S L)) 0 n ls t) as (d & t1 & j & E & Hd & Hj & Hr1 & Hm & Hlt); try done; try lia; [by rewrite Z.mod_1_r|].
  rewrite E. assert (Hlen : Z.of_nat (length (ls ++ replicate d p)) = Z.of_nat (length ls) + Z.of_nat d)
    by (rewrite length_app, length_replicate; lia).
  rewrite (rep_entries _ _ _ Hr1).
  destruct (rest_loop_spec L j (S L) 0 p 0 (n - Z.of_nat d) (ls ++ replicate d p) t1) as (t2 & E2' & Hp); try done; try lia;
    [by rewrite Z.mod_1_r|by apply represents_padded|].
  rewrite E2'. rewrite Z.add_0_l in Hp. apply padded_represents in Hp; [|done|lia|lia].
  rewrite <-app_assoc, <-replicate_add in Hp. replace (d + Z.to_nat (n - Z.of_nat d))%nat with (Z.to_nat n) in Hp by lia.
  exists t2. split; [|done]. erewrite bind_Ret by reflexivity. unfold require. rewrite (max_leaves_spec L _ t2) by done.
  rewrite (rep_count _ _ _ Hp). pose proof (rep_bound _ _ _ Hp) as Hb. apply Z.leb_le in Hb. rewrite Hb. by destruct NDEBUG.
Qed.

(** With 2^63 leaves the sum of the counts can wrap. *)
Lemma pad_back_too_many `{BuildConfig} L ls t n p :
  (L < 63)%nat -> represents L ls t -> 2 ^ Z.of_nat L < Z.of_nat (length ls) + n -> is_u 64 n ->
  pad_back n (make_pad_hashes p (Z.of_nat L)) t = (Throw (invalid_argument "too many leaves"), t).
Proof.
  intros HL Hr Hl Hn. unfold is_u in Hn. pose proof (rep_bound _ _ _ Hr).
  assert (2 ^ Z.of_nat L < 2 ^ 63) by (apply Z.pow_lt_mono_r; lia). unfold pad_back. erewrite bind_Ret by reflexivity.
  destruct (n =? 0) eqn:En; [lia|]. rewrite (max_leaves_spec L ls t) by (done || lia). rewrite (rep_count _ _ _ Hr).
  destruct (_ <? n) eqn:E1; [done|]. rewrite (uwrap_small 64 (_ + n)) by (unfold is_u; lia).
  destruct (_ <? _ + n) eqn:E2; [done|lia].
Qed.

(** ** Construction and saving *)

Lemma new_run L : (L < 64)%nat -> exists t, back_merkle_tree_new (Z.of_nat L) 0 [] = Ret t /\ represents L [] t.
Proof.
  intros HL. unfold back_merkle_tree_new. destruct (_ <? 0) eqn:E1; [lia|]. destruct (64 <=? _) eqn:E2; [lia|].
  unfold get_max_leaves, get_log2_max_leaves. cbn [m_context m_leaf_count]. rewrite length_replicate, Z2Nat.id by lia.
  replace (Z.max 1 (Z.of_nat L + 1) - 1) with (Z.of_nat L) by lia. rewrite Z.shiftl_mul_pow2, Z.mul_1_l by lia.
  pose proof (pow_fits L HL). assert (0 < 2 ^ Z.of_nat L) by lia. unfold uint64. rewrite uwrap_small by (unfold is_u; lia).
  destruct (_ <=? 0) eqn:E3; [lia|]. cbn. eexists. split; [reflexivity|].
  split; cbn [m_context m_leaf_count length]; [rewrite length_replicate; lia|done|lia|].
  intros i _ Ho. by rewrite Z.div_0_l in Ho by lia.
Qed.

(** Unpacking what was packed restores the entries that are used. *)
Lemma unpack_packed c (saved : list H) n i (context : list H) :
  (forall x, (i <= x < i + n)%nat -> has_span c x = true -> is_Some (saved !! x)) -> (i + n <= length context)%nat ->
  exists context', unpack_context n i c (omap (fun x => if has_span c x then saved !! x else None) (seq i n)) context = Ret (context', []) /\
    length context' = length context /\
    forall x, (x < i + n)%nat -> context' !! x = if decide (i <= x)%nat then (if has_span c x then saved !! x else context !! x) else context !! x.
Proof.
  revert i context. induction n as [|n IH]; intros i context Hs Hl; cbn [unpack_context seq omap list_omap].
  - exists context. split; [done|]. split; [done|]. intros x Hx. by rewrite decide_False by lia.
  - destruct (has_span c i) eqn:Hi.
    + destruct (Hs i ltac:(lia) Hi) as [h Eh]. rewrite Eh.
      destruct (IH (S i) (<[i := h]> context)) as (context' & E & Hlen & Hc); [intros; apply Hs; [lia|done]|rewrite length_insert; lia|].
      exists context'. rewrite length_insert in Hlen. split; [exact E|]. split; [done|]. intros x Hx. rewrite Hc by lia.
      destruct (decide (x = i)) as [->|].
      * rewrite decide_False, decide_True, Hi by lia. rewrite list_lookup_insert_eq by lia. done.
      * rewrite list_lookup_insert_ne by done. destruct (decide (S i <= x)%nat), (decide (i <= x)%nat); done || lia.
    + destruct (IH (S i) context) as (context' & E & Hlen & Hc); [intros; apply Hs; [lia|done]|lia|].
      exists context'. split; [exact E|]. split; [done|]. intros x Hx. rewrite Hc by lia.
      destruct (decide (S i <= x)%nat), (decide (i <= x)%nat); try done; try lia. assert (x = i) as -> by lia. by rewrite Hi.
Qed.

Lemma reload_run L ls t :
  (L < 64)%nat -> represents L ls t -> Z.of_nat (length ls) < 2 ^ Z.of_nat L ->
  exists t', back_merkle_tree_new (Z.of_nat L) (get_leaf_count t) (get_context t) = Ret t' /\ represents L ls t'.
Proof.
  intros HL Hr Hl. pose proof (pow_fits L HL) as Hpow. unfold get_leaf_count, get_context, back_merkle_tree_new.
  destruct (Z.of_nat L <? 0) eqn:E1; [lia|]. destruct (64 <=? Z.of_nat L) eqn:E2; [lia|].
  unfold get_max_leaves, get_log2_max_leaves. cbn [m_context m_leaf_count]. rewrite length_replicate, Z2Nat.id by lia.
  replace (Z.max 1 (Z.of_nat L + 1) - 1) with (Z.of_nat L) by lia. rewrite Z.shiftl_mul_pow2, Z.mul_1_l by lia.
  rewrite (rep_count _ _ _ Hr), (rep_entries _ _ _ Hr). unfold uint64. rewrite (uwrap_small 64 (2 ^ _)) by (unfold is_u; lia).
  destruct (2 ^ _ <=? _) eqn:E3; [lia|]. set (c := Z.of_nat (length ls)) in *.
  assert (Hspan : forall x, (x <= L)%nat -> has_span c x = Z.odd (c / 2 ^ Z.of_nat x)) by (intros; apply has_span_spec; unfold is_u; lia).
  destruct (0 <? c) eqn:E4.
  - destruct (unpack_packed c (m_context t) (Z.to_nat (Z.of_nat L + 1)) 0 (replicate (Z.to_nat (Z.max 1 (Z.of_nat L + 1))) no_hash))
      as (context' & E & Hlen & Hc).
    { intros x Hx Ho. rewrite Hspan in Ho by lia. rewrite (rep_context _ _ _ Hr) by (done || lia). eauto. }
    { rewrite length_replicate. lia. }
    replace (Z.to_nat (Z.of_nat L + 1)) with (S L) in * by lia. rewrite E. cbn.
    eexists. split; [reflexivity|]. rewrite length_replicate in Hlen.
    split; cbn [m_context m_leaf_count]; [rewrite Hlen; lia|done|lia|]. fold c. intros x Hx Ho.
    rewrite Hc by lia. rewrite decide_True, Hspan, Ho by lia. by apply (rep_context _ _ _ Hr).
  - apply Z.ltb_ge in E4. cbn. eexists. split; [reflexivity|].
    split; cbn [m_context m_leaf_count]; [rewrite length_replicate; lia|done|lia|]. fold c. intros x Hx Ho.
    replace c with 0 in Ho by lia. by rewrite Z.div_0_l in Ho by lia.
Qed.

Lemma reload_full L ls t :
  (L < 64)%nat -> represents L ls t -> Z.of_nat (length ls) = 2 ^ Z.of_nat L ->
  back_merkle_tree_new (Z.of_nat L) (get_leaf_count t) (get_context t) =
    Throw (out_of_range "leaf count is greater than or equal to max leaves").
Proof.
  intros HL Hr Hl. pose proof (pow_fits L HL) as Hpow. unfold get_leaf_count, back_merkle_tree_new.
  destruct (Z.of_nat L <? 0) eqn:E1; [lia|]. destruct (64 <=? Z.of_nat L) eqn:E2; [lia|].
  unfold get_max_leaves, get_log2_max_leaves. cbn [m_context m_leaf_count]. rewrite length_replicate, Z2Nat.id by lia.
  replace (Z.max 1 (Z.of_nat L + 1) - 1) with (Z.of_nat L) by lia. rewrite Z.shiftl_mul_pow2, Z.mul_1_l by lia.
  rewrite (rep_count _ _ _ Hr), Hl. unfold uint64. rewrite (uwrap_small 64 (2 ^ _)) by (unfold is_u; lia). by rewrite Z.leb_refl.
Qed.

Lemma clear_run L ls t : represents L ls t -> exists t', clear t = (Ret (), t') /\ represents L [] t'.
Proof.
  intros Hr. eexists. split; [reflexivity|]. split; cbn [m_context m_leaf_count length]; [apply Hr|done|lia|].
  intros i _ Ho. by rewrite Z.div_0_l in Ho by lia.
Qed.

(** ** The root *)

Lemma full_spec L ls t : (L < 64)%nat -> represents L ls t -> full t = bool_decide (Z.of_nat (length ls) = 2 ^ Z.of_nat L).
Proof.
  intros HL Hr. unfold full. rewrite (max_leaves_spec L ls t), (rep_count _ _ _ Hr) by done. pose proof (rep_bound _ _ _ Hr).
  case_bool_decide; [apply Z.leb_le|apply Z.leb_gt]; lia.
Qed.

Lemma root_hash_run L ls t :
  (L < 64)%nat -> represents L ls t ->
  back_tree_get_root_hash t = if bool_decide (Z.of_nat (length ls) = 2 ^ Z.of_nat L) then Ret (node (leaf_at ls) L 0)
                    else Throw (runtime_error "attempt to get root hash of an incomplete back tree").
Proof.
  intros HL Hr. unfold back_tree_get_root_hash. rewrite (full_spec L ls t) by done. case_bool_decide as Hl; [|done]. cbn [negb].
  rewrite last_lookup, (rep_entries _ _ _ Hr). cbn [pred].
  rewrite (rep_context _ _ _ Hr) by (first [lia|rewrite Hl, Z.div_same by lia; done]). rewrite Hl, Z.div_same by lia. done.
Qed.

(** ** Padding of a pristine tree *)

Lemma pad_hashes_drop k n h : drop k (pad_hashes_from (k + n) h) = pad_hashes_from n (pad_node k h).
Proof.
  revert h. induction k as [|k IH]; intros h; [done|]. cbn [Nat.add pad_hashes_from drop]. by rewrite IH, pad_node_shift.
Qed.

Lemma pristine_pad_hashes_spec log2_root log2_leaf log2_word :
  0 <= log2_word <= log2_leaf -> log2_leaf <= log2_root < log2_leaf + 64 ->
  make_pristine_pad_hashes log2_root log2_leaf log2_word =
    Ret (make_pad_hashes (pad_node (Z.to_nat (log2_leaf - log2_word)) (hash (zeros (2 ^ log2_word)))) (log2_root - log2_leaf)).
Proof.
  intros Hw Hl. unfold make_pristine_pad_hashes, validate_log2_max_leaves_size.
  destruct (log2_root <? 0) eqn:E1; [lia|]. destruct (log2_leaf <? 0) eqn:E2; [lia|]. destruct (log2_word <? 0) eqn:E3; [lia|].
  destruct (log2_root <? log2_leaf) eqn:E4; [lia|]. destruct (log2_leaf <? log2_word) eqn:E5; [lia|]. destruct (64 <=? _) eqn:E6; [lia|].
  cbn [mbind outcome_bind mret outcome_ret]. unfold get_pristine_word_hash, make_pad_hashes. rewrite Z.shiftl_mul_pow2, Z.mul_1_l by lia.
  destruct (log2_word <? log2_leaf) eqn:E7.
  - replace (Z.to_nat (log2_root - log2_word + 1)) with (Z.to_nat (log2_leaf - log2_word) + Z.to_nat (log2_root - log2_leaf + 1))%nat by lia.
    by rewrite pad_hashes_drop.
  - assert (log2_word = log2_leaf) as -> by lia. by rewrite Z.sub_diag.
Qed.
End facts.
