(* ===== verification/BackMerkleProofs.v ===== *)
(** * The incremental tree implements appending to a list of leaves: theorems *)

From S2P Require Import Prelude SolidityCompat HashTree SymHash Machine Samples BackMerkleTree BackMerkleFacts.

(** ** The specification: a list of leaves, and its Merkle tree when it is full *)

Section specification.
Context {cfg : BuildConfig} `{IHasher H}.








(** A tree of 2^63 leaves that is full accepts 2^63 more: the check of the
    count wraps, and the tree becomes empty. *)
Lemma pad_back_wraps_full_tree (h : H) :
  let pad := pad_back (2 ^ 63) (make_pad_hashes h 63) in
  let t0 := {| m_leaf_count := 0; m_context := replicate 64 (no_hash : H) |} in
  m_leaf_count (snd (pad t0)) = 2 ^ 63 /\
  (forall t1, snd (pad t0) = t1 -> is_ret (fst (pad t1)) = true /\ m_leaf_count (snd (pad t1)) = 0).
Proof.
  cbv zeta. split; [by destruct cfg as [[]]; vm_compute|]. intros t1 <-. destruct cfg as [[]]; by vm_compute.
Qed.
End specification.

