(* ===== verification/HartSafety.v ===== *)
(** * What the interpreter may change: rules

    A program of the interpreter is safe when it never throws and keeps an
    invariant: register x0 is zero, and no word changes but registers, TLB
    slots and words of the memory ranges.  The rules of this file are in the
    style of weakest preconditions: a program is safe for a postcondition on
    its result and on a flag, whether the machine is known to be halted. *)

From S2P Require Import Prelude Bits Shadow SolidityCompat Rv64i HashTree Memory Machine MachineFacts UarchMemory Riscv Hart Trap Csr Devices VirtualMemory HartFacts RiscvIsa.

(** ** Words that are not in a memory range *)

(** The shadows of the registers are below all memory, and a range does not
    wrap around. *)
Definition range_ok (ar : address_range) : Prop :=
  is_memory ar = true -> AR_SHADOW_TLB_START <= m_start ar /\ m_start ar <= m_end ar < 2 ^ 64.
Definition outside_range (p : Z) (ar : address_range) : Prop :=
  is_memory ar = true -> p + 8 <= m_start ar \/ m_end ar <= p.
Definition outside_memory (pmas : list address_range) (p : Z) : Prop :=
  p mod 8 = 0 /\ Forall (outside_range p) pmas.

Definition TLB_END : Z := AR_SHADOW_TLB_START + 32 * TLB_NUM_SETS_ * TLB_SET_SIZE.

Definition halted_address : Z := machine_reg.iflags_H.

Lemma reg_outside pmas p : Forall range_ok pmas -> p mod 8 = 0 -> p < AR_SHADOW_TLB_START -> outside_memory pmas p.
Proof.
  intros Hp Ha Hlt. split; [done|]. eapply Forall_impl; [exact Hp|]. intros ar Hok Hm.
  destruct (Hok Hm). left. pose proof (Z.div_mod p 8 ltac:(lia)). unfold AR_SHADOW_TLB_START in *. lia.
Qed.

(** Stores inside of a range leave the words outside of it alone. *)
Lemma mem_write_bytes_other q bs p m :
  p mod 8 = 0 -> p + 8 <= q \/ q + Z.of_nat (length bs) <= p -> mem_read (mem_write_bytes q bs m) p = mem_read m p.
Proof.
  intros Hp. revert q m. induction bs as [|b bs IH]; intros q m Hq; [done|]. cbn [mem_write_bytes].
  cbn [length] in Hq. rewrite IH by lia. unfold mem_write_byte. apply read_write_other. rewrite !word_index_div.
  pose proof (Z.div_mod p 8 ltac:(lia)). pose proof (Z.div_mod q 8 ltac:(lia)). pose proof (Z.mod_pos_bound q 8 ltac:(lia)). lia.
Qed.

Lemma store_bytes_other a n v p m :
  0 <= n -> p mod 8 = 0 -> p + 8 <= a \/ a + n <= p -> mem_read (store_bytes m a n v) p = mem_read m p.
Proof. intros Hn Hp Ha. apply mem_write_bytes_other; [done|]. rewrite length_le_bytes by lia. lia. Qed.

(** ** Safe programs *)

Section rules.
Context (pmas : list address_range) (Hpmas : Forall range_ok pmas) (m0 : memory).

Definition kept (p : Z) : Prop := outside_memory pmas p /\ TLB_END <= p.

Definition inv (b : bool) (m : memory) : Prop :=
  mem_read m (x_address 0) = 0 /\ (b = true -> mem_read m halted_address <> 0) /\
  forall p, kept p -> mem_read m p = mem_read m0 p.

Definition safe {A} (b : bool) (k : M memory A) (Q : A -> bool -> Prop) : Prop :=
  forall m, inv b m ->
    match k m with (Ret a, m') => exists b', inv b' m' /\ Q a b' | (Throw _, _) => False end.

Lemma safe_ret {A} b (a : A) Q : Q a b -> safe b (mret a) Q.
Proof. intros HQ m Hm. by exists b. Qed.

Lemma safe_bind {A B} b (k : M memory A) (f : A -> M memory B) Q :
  safe b k (fun a b' => safe b' (f a) Q) -> safe b (k ≫= f) Q.
Proof.
  intros Hk m Hm. specialize (Hk m Hm). rewrite run_bind. destruct (k m) as [[a|e] m']; [|done].
  destruct Hk as (b' & Hm' & Hf). by apply Hf.
Qed.

Lemma safe_mono {A} b (k : M memory A) (Q Q' : A -> bool -> Prop) :
  (forall a b', Q a b' -> Q' a b') -> safe b k Q -> safe b k Q'.
Proof.
  intros HQ Hk m Hm. specialize (Hk m Hm). destruct (k m) as [[a|e] m']; [|done].
  destruct Hk as (b' & Hm' & Ha). exists b'. auto.
Qed.

Lemma safe_gets {A} b (f : memory -> A) Q : (forall a, Q a b) -> safe b (gets f) Q.
Proof. intros HQ m Hm. exists b. auto. Qed.

Lemma safe_modify b f Q :
  (forall m, inv b m -> inv b (f m)) -> Q () b -> safe b (modify f) Q.
Proof. intros Hf HQ m Hm. exists b. auto. Qed.

Lemma safe_when b (c : bool) k Q : (c = true -> safe b k Q) -> (c = false -> Q () b) -> safe b (when c k) Q.
Proof. destruct c; intros Hk HQ; [by apply Hk|]. apply safe_ret. by apply HQ. Qed.

(** ** Registers *)

Lemma is_reg_kept p q : is_reg p -> kept q -> word_index p <> word_index q.
Proof.
  unfold is_reg, kept, TLB_END, AR_SHADOW_TLB_START, TLB_NUM_SETS_, TLB_SET_SIZE. rewrite !word_index_div. intros Hp [_ Hq].
  assert (p / 8 < 512) by (apply Z.div_lt_upper_bound; lia).
  assert (512 <= q / 8) by (apply Z.div_le_lower_bound; lia). lia.
Qed.

(** A register that is neither x0 nor the flag of a halted machine. *)
Definition plain_reg (p : Z) : Prop :=
  is_reg p /\ word_index p <> word_index (x_address 0) /\ word_index p <> word_index halted_address.

Lemma inv_write_reg b p v m : plain_reg p -> inv b m -> inv b (mem_write p v m).
Proof.
  intros (Hr & Hx & Hh) (Ix & Ih & Ik). split; [|split].
  - by rewrite read_write_other.
  - intros Hb. rewrite read_write_other by done. auto.
  - intros q Hq. rewrite read_write_other by (by apply is_reg_kept). auto.
Qed.

Lemma safe_write b p v Q : plain_reg p -> Q () b -> safe b (write_shadow_register p v) Q.
Proof. intros Hp HQ. apply safe_modify; [|done]. intros m. by apply inv_write_reg. Qed.

Lemma safe_read b p Q : (forall v, Q v b) -> safe b (read_shadow_register p) Q.
Proof. apply safe_gets. Qed.

Lemma plain_x i : 0 < i < 32 -> plain_reg (x_address i).
Proof.
  intros Hi. unfold plain_reg, is_reg, x_address, machine_reg_address, uint64.
  change machine_reg.x0 with 0. rewrite !uwrap_small by (unfold is_u; lia). rewrite !word_index_div.
  unfold AR_SHADOW_TLB_START. replace (0 + i * 8) with (i * 8) by lia. rewrite Z.div_mul by lia.
  change (halted_address / 8) with 97. change ((0 + 0 * 8) / 8) with 0. lia.
Qed.
Lemma plain_f i : 0 <= i < 32 -> plain_reg (f_address i).
Proof.
  intros Hi. unfold plain_reg, is_reg, f_address, x_address, machine_reg_address, uint64.
  change machine_reg.x0 with 0. change machine_reg.f0 with (35 * 8). rewrite !uwrap_small by (unfold is_u; lia). rewrite !word_index_div.
  unfold AR_SHADOW_TLB_START. replace (35 * 8 + i * 8) with ((35 + i) * 8) by lia. rewrite Z.div_mul by lia.
  change (halted_address / 8) with 97. change ((0 + 0 * 8) / 8) with 0. lia.
Qed.

Lemma safe_read_x b i Q : (forall v, is_u 64 v -> Q v b) -> safe b (read_x i) Q.
Proof. intros HQ m Hm. exists b. split; [done|]. apply HQ, word_at_range. Qed.
Lemma safe_read_f b i Q : (forall v, Q v b) -> safe b (read_f i) Q.
Proof. apply safe_read. Qed.
Lemma safe_write_x b i v Q : 0 < i < 32 -> Q () b -> safe b (write_x i v) Q.
Proof. intros Hi. apply safe_write. by apply plain_x. Qed.
Lemma safe_write_f b i v Q : 0 <= i < 32 -> Q () b -> safe b (write_f i v) Q.
Proof. intros Hi. apply safe_write. by apply plain_f. Qed.

Lemma safe_warl_read b WARL p Q : (forall v, Q (WARL v) b) -> safe b (DEFINE_SA_WARL_READ WARL p) Q.
Proof. intros HQ. apply safe_bind, safe_read. intros v. by apply safe_ret. Qed.

(** The halt: from here on the machine is known to be halted. *)
Lemma safe_write_H b Q : Q () true -> safe b (write_iflags_H 1) Q.
Proof.
  intros HQ m (Ix & Ih & Ik). exists true. split; [|done]. split; [|split].
  - rewrite read_write_other by closed_reg. done.
  - intros _. change (mem_read (mem_write halted_address 1 m) halted_address <> 0). by rewrite read_write_same.
  - intros q Hq. rewrite read_write_other by (apply is_reg_kept; [by vm_compute|done]). auto.
Qed.

(** ** The TLB *)

Lemma tlb_word_other SET i p :
  0 <= SET < TLB_NUM_SETS_ -> 0 <= i < TLB_SET_SIZE -> is_reg p \/ TLB_END <= p ->
  word_index p / 4 <> 128 + SET * TLB_SET_SIZE + i.
Proof.
  unfold is_reg, TLB_END, AR_SHADOW_TLB_START, TLB_NUM_SETS_, TLB_SET_SIZE. rewrite word_index_div, Z.div_div by lia. change (8 * 4) with 32.
  intros HS Hi [Hp|Hp].
  - assert (p / 32 < 128) by (apply Z.div_lt_upper_bound; lia). lia.
  - assert (896 <= p / 32) by (apply Z.div_le_lower_bound; lia). lia.
Qed.

Lemma inv_write_tlb b SET i x y z m :
  0 <= SET < TLB_NUM_SETS_ -> 0 <= i < TLB_SET_SIZE -> inv b m -> inv b (mem_write_tlb SET i x y z m).
Proof.
  intros HS Hi (Ix & Ih & Ik). split; [|split].
  - rewrite mem_read_write_tlb_ne; [done|done|done|]. apply tlb_word_other; [done|done|]. left. by vm_compute.
  - intros Hb. rewrite mem_read_write_tlb_ne; [auto|done|done|]. apply tlb_word_other; [done|done|]. left. by vm_compute.
  - intros q Hq. rewrite mem_read_write_tlb_ne; [auto|done|done|]. apply tlb_word_other; [done|done|]. right. apply Hq.
Qed.

Lemma safe_write_tlb b SET i x y z Q :
  0 <= SET < TLB_NUM_SETS_ -> 0 <= i < TLB_SET_SIZE -> Q () b -> safe b (write_tlb SET i x y z) Q.
Proof. intros HS Hi. apply safe_modify. intros m. by apply inv_write_tlb. Qed.

Lemma safe_flush_tlb_set b SET Q : 0 <= SET < TLB_NUM_SETS_ -> Q () b -> safe b (flush_tlb_set SET) Q.
Proof.
  intros HS HQ m Hm. rewrite flush_tlb_set_run. exists b. split; [|done]. unfold flush_set.
  assert (H : forall n i m, inv b m -> 0 <= i -> i + Z.of_nat n <= TLB_SET_SIZE -> inv b (flush_slots n SET i m)).
  { induction n as [|n IH]; intros i m' Hm' Hi Hn; [done|]. apply IH; [|lia..]. apply inv_write_tlb; [done|lia|done]. }
  apply H; [done|lia|by vm_compute].
Qed.
Lemma safe_flush_all_tlb b Q : Q () b -> safe b flush_all_tlb Q.
Proof.
  intros HQ. unfold flush_all_tlb.
  apply safe_bind, safe_flush_tlb_set; [by vm_compute|]. apply safe_bind, safe_flush_tlb_set; [by vm_compute|].
  by apply safe_flush_tlb_set.
Qed.
Lemma safe_flush_tlb_vaddr b v Q : Q () b -> safe b (flush_tlb_vaddr v) Q.
Proof. apply safe_flush_all_tlb. Qed.

(** ** Memory *)

Lemma inv_store b a n v m ar :
  In ar pmas -> is_memory ar = true -> 0 <= n -> m_start ar <= a -> a + n <= m_end ar ->
  inv b m -> inv b (store_bytes m a n v).
Proof.
  intros Hin Har Hn H1 H2 (Ix & Ih & Ik).
  assert (Ho : forall p, outside_memory pmas p -> mem_read (store_bytes m a n v) p = mem_read m p).
  { intros p [Hp Hf]. rewrite Forall_forall in Hf. specialize (Hf ar ltac:(by apply list_elem_of_In) Har).
    apply store_bytes_other; [done|done|lia]. }
  split; [|split].
  - rewrite Ho; [done|]. by apply reg_outside.
  - intros Hb. rewrite Ho; [auto|]. by apply reg_outside.
  - intros q Hq. rewrite Ho; [auto|apply Hq].
Qed.
End rules.

(** * Safety of traps, virtual memory and devices

    The parts of the interpreter that its instructions share: each is safe
    for a postcondition that holds of every result it can have.  A new [pc]
    is even, and a device returns [success_and_halt] only when it has set the
    flag of a halted machine. *)

(** ** Automation *)

Create HintDb safety.
#[export] Hint Constants Opaque : safety.

(** Concrete registers. *)
Ltac solve_reg := apply (bool_decide_eq_true_1 _); vm_compute; reflexivity.
#[export] Instance plain_reg_dec p : Decision (plain_reg p).
Proof. unfold plain_reg, is_reg. apply _. Defined.

(** Unfolds a program to its definition. *)
Ltac head_of t := lazymatch t with ?f _ => head_of f | _ => t end.
Ltac unfold_program k := let h := head_of k in unfold h.

Ltac safe_step :=
  cbv beta;
  lazymatch goal with
  | |- forall _, _ => intros ?
  | |- safe _ _ _ (mbind _ _) _ => apply safe_bind
  | |- safe _ _ _ (mret _) _ => apply safe_ret
  | |- safe _ _ _ (when _ _) _ => apply safe_when
  | |- safe _ _ _ (gets _) _ => apply safe_gets
  | |- safe _ _ _ (let _ := _ in _) _ => cbv zeta
  | |- safe _ _ _ (if ?c then _ else _) _ => destruct c eqn:?
  | |- safe _ _ _ (match ?x with _ => _ end) _ => destruct x eqn:?
  | |- safe _ _ _ (read_x _) _ => apply safe_read_x
  | |- safe _ _ _ (read_f _) _ => apply safe_read_f
  | |- safe _ _ _ (read_shadow_register _) _ => apply safe_read
  | |- safe _ _ _ (write_shadow_register _ _) _ => apply safe_write; [solve_reg|]
  | |- safe _ _ _ (DEFINE_SA_WARL_READ _ _) _ => apply safe_warl_read
  | |- safe _ _ _ (write_iflags_H 1) _ => apply safe_write_H
  | |- safe _ _ _ (write_iflags_H _) _ => fail "halt"
  | |- safe _ _ _ (flush_tlb_set _) _ => apply safe_flush_tlb_set; [solve_reg|]
  | |- safe _ _ _ flush_all_tlb _ => apply safe_flush_all_tlb
  | |- safe _ _ _ (flush_tlb_vaddr _) _ => apply safe_flush_tlb_vaddr
  end.
(** Steps of a program, with [tac] for the programs it knows. *)
Tactic Notation "safe_steps" "using" tactic3(tac) :=
  repeat (cbv beta; first [tac | safe_step | match goal with |- safe _ _ _ ?k _ => unfold_program k end]).
Ltac safe_steps := safe_steps using fail.

(** ** Even addresses *)

Lemma even_uint64 x : Z.even (uint64 x) = Z.even x.
Proof.
  unfold uint64, uwrap. rewrite (Z.div_mod x (2 ^ 64)) at 2 by lia.
  rewrite Z.even_add, Z.even_mul. change (Z.even (2 ^ 64)) with true. cbn [orb]. by destruct (Z.even (x mod 2 ^ 64)).
Qed.
Lemma even_land x y : Z.even y = true -> Z.even (Z.land x y) = true.
Proof.
  rewrite <-!Z.negb_odd, <-!Z.bit0_odd, Z.land_spec. intros H. apply negb_true_iff in H. rewrite H. by rewrite andb_false_r.
Qed.
Lemma even_lor x y : Z.even x = true -> Z.even y = true -> Z.even (Z.lor x y) = true.
Proof.
  rewrite <-!Z.negb_odd, <-!Z.bit0_odd, Z.lor_spec. intros Hx%negb_true_iff Hy%negb_true_iff. by rewrite Hx, Hy.
Qed.
Lemma even_shiftl x n : 0 < n -> Z.even (Z.shiftl x n) = true.
Proof. intros Hn. by rewrite <-Z.negb_odd, <-Z.bit0_odd, Z.shiftl_spec_low. Qed.
Lemma even_uint32 x : Z.even x = true -> Z.even (uint32 x) = true.
Proof. intros H. unfold uint32, uwrap. rewrite <-Z.land_ones by lia. rewrite Z.land_comm. by apply even_land. Qed.
Lemma even_int32 x : Z.even x = true -> Z.even (int32 x) = true.
Proof.
  intros H. unfold int32, swrap. rewrite Z.even_sub. rewrite <-Z.land_ones, Z.land_comm by lia.
  rewrite even_land; [done|]. by rewrite Z.even_add, H.
Qed.
Lemma even_next pc n : Z.even pc = true -> Z.even n = true -> Z.even (uint64 (pc + n)) = true.
Proof. intros H1 H2. by rewrite even_uint64, Z.even_add, H1, H2. Qed.

(** ** Ranges and the TLB *)

Lemma contains_absolute_range ar a n :
  range_ok ar -> is_memory ar = true -> is_u 64 a -> 0 < n <= 8 ->
  contains_absolute ar a n = true -> m_start ar <= a /\ a + n <= m_end ar.
Proof.
  intros Hok Har Ha Hn. destruct (Hok Har) as [H1 H2]. unfold AR_SHADOW_TLB_START in H1. unfold is_u in Ha.
  unfold contains_absolute, contains_relative, get_start, get_length. rewrite !andb_true_iff, !Z.leb_le.
  intros [Hs [Hl Ho]]. unfold uint64 in *.
  rewrite (uwrap_small 64 (m_end ar - m_start ar)) in * by (unfold is_u; lia).
  rewrite (uwrap_small 64 (a - m_start ar)) in Ho by (unfold is_u; lia).
  rewrite uwrap_small in Ho by (unfold is_u; lia). lia.
Qed.

(** A slot that is verified maps its page into a memory range. *)
Lemma verify_slot_spec page off padding ar :
  range_ok ar -> is_u 64 page ->
  shadow_tlb_verify_slot page off padding (is_memory ar) (get_start ar) (get_length ar) <> TLB_INVALID_PAGE ->
  is_memory ar = true /\ m_start ar <= uint64 (page + off) /\ uint64 (page + off) + 4096 <= m_end ar /\
  Z.land page PAGE_OFFSET_MASK = 0 /\ Z.land (uint64 (page + off)) PAGE_OFFSET_MASK = 0.
Proof.
  intros Hok Hp. unfold shadow_tlb_verify_slot. destruct (page =? _) eqn:E1; [done|]. destruct (negb (padding =? 0)); [done|].
  destruct (Z.land page _ =? 0) eqn:E2; [|done]. cbn [negb]. cbv zeta. destruct (Z.land (uint64 _) _ =? 0) eqn:E3; [|done]. cbn [negb].
  destruct (is_memory ar) eqn:Har; [|done]. cbn [negb].
  destruct ((uint64 (page + off) <? get_start ar) || _) eqn:E4; [done|]. intros _.
  apply orb_false_iff in E4 as [E4 E5]. apply Z.ltb_ge in E4, E5. apply Z.eqb_eq in E2, E3.
  destruct (Hok Har) as [H1 H2]. set (q := uint64 (page + off)) in *.
  unfold get_start, get_length, AR_PAGE_SIZE, AR_SHADOW_TLB_START, uint64 in E4, E5, H1. change (Z.shiftl 1 12) with 4096 in E5.
  rewrite (uwrap_small 64 (m_end ar - m_start ar)) in E5 by (unfold is_u; lia).
  destruct (decide (4096 <= m_end ar - m_start ar)).
  - rewrite uwrap_small in E5 by (unfold is_u; lia). repeat split; try done; lia.
  - rewrite uwrap_small in E5 by (unfold is_u; lia). lia.
Qed.

(** ** Exceptions and interrupts *)

Section shared.
Context (pmas : list address_range) (Hpmas : Forall range_ok pmas) (m0 : memory).
#[local] Abbreviation safe := (safe pmas m0).

Lemma even_xtvec v : Z.even (WARL_xtvec v) = true.
Proof. by apply even_land. Qed.
Lemma even_xepc v : Z.even (Z.land v (not64 1)) = true.
Proof. by apply even_land. Qed.

Lemma safe_set_prv b prv Q : Q () b -> safe b (set_prv prv) Q.
Proof. intros HQ. by safe_steps. Qed.

Lemma safe_raise_exception b pc cause tval Q :
  (forall pc', Z.even pc' = true -> Q pc' b) -> safe b (raise_exception pc cause tval) Q.
Proof.
  intros HQ. unfold raise_exception. cbv zeta. safe_steps; apply HQ; apply even_xtvec.
Qed.

Lemma safe_raise_interrupt {cfg : BuildConfig} b pc page Q :
  NDEBUG = true -> Z.even pc = true -> (forall pc' page', Z.even pc' = true -> Q (pc', page') b) ->
  safe b (raise_interrupt_if_any pc page) Q.
Proof.
  intros Hrel Hpc HQ. unfold raise_interrupt_if_any. apply safe_bind.
  assert (Hmask : forall Q', (forall v, Q' v b) -> safe b get_pending_irq_mask Q') by (intros Q' HQ'; safe_steps; apply HQ').
  apply Hmask. intros mask. destruct (negb (mask =? 0)); [|by apply safe_ret, HQ].
  apply safe_bind. assert (exists n, get_highest_priority_irq_num mask = Ret n) as [n E].
  { unfold get_highest_priority_irq_num. rewrite Hrel. destruct (List.find _ _); by eexists. }
  rewrite E. intros m Hm. exists b. split; [done|]. apply safe_bind, safe_raise_exception. intros pc' Hpc'. apply safe_ret. by apply HQ.
Qed.

Lemma safe_set_rtc_interrupt b ev mcycle Q : Q () b -> safe b (set_rtc_interrupt ev mcycle) Q.
Proof. intros HQ. unfold set_rtc_interrupt. by safe_steps. Qed.

(** ** Control and status registers *)

Lemma safe_read_csr b mcycle csraddr Q : (forall v, Q v b) -> safe b (read_csr mcycle csraddr) Q.
Proof. intros HQ. unfold read_csr. safe_steps; apply HQ. Qed.

Lemma safe_write_csr_mstatus b val Q : (forall st, st <> success_and_halt -> Q st b) -> safe b (write_csr_mstatus val) Q.
Proof. intros HQ. safe_steps; by apply HQ. Qed.

Lemma safe_write_csr b mcycle csraddr val Q : (forall st, st <> success_and_halt -> Q st b) -> safe b (write_csr mcycle csraddr val) Q.
Proof.
  intros HQ. unfold write_csr.
  safe_steps using (idtac; lazymatch goal with |- safe _ (write_csr_mstatus _) _ => by apply safe_write_csr_mstatus end); by apply HQ.
Qed.

(** ** Devices *)

Lemma safe_read_device b ar mcycle offset log2_size Q : (forall v, Q v b) -> safe b (read_device ar mcycle offset log2_size) Q.
Proof. intros HQ. unfold read_device. safe_steps; apply HQ. Qed.

Lemma safe_write_device b ev ar offset log2_size val Q :
  (forall st b', (st = success_and_halt -> b' = true) -> Q st b') -> safe b (write_device ev ar offset log2_size val) Q.
Proof. intros HQ. unfold write_device. safe_steps; apply HQ; by repeat case_match. Qed.

(** ** Virtual memory *)

Lemma pma_at_cases i : pma_at pmas i = sentinel \/ In (pma_at pmas i) pmas.
Proof.
  unfold pma_at. destruct (PMA_MAX <=? i); [by left|]. destruct (pmas !! Z.to_nat i) as [ar|] eqn:E; [|by left].
  right. apply list_elem_of_In. by eapply list_elem_of_lookup_2.
Qed.

Lemma find_pma_cases size paddr fuel i ar j :
  find_pma_loop pmas fuel size paddr i = (ar, j) -> is_memory ar = true ->
  In ar pmas /\ (is_empty ar = false -> contains_absolute ar paddr size = true).
Proof.
  intros E Har. revert i E. induction fuel as [|fuel IH]; intros i; cbn [find_pma_loop]; [by intros [= <- _]|].
  destruct (pma_at_cases i) as [Es|Hin]; [rewrite Es; cbn; by intros [= <- _]|].
  destruct (is_empty (pma_at pmas i)) eqn:He; [|destruct (contains_absolute (pma_at pmas i) _ _) eqn:Hc; [|by apply IH]].
  - intros [= <- _]. split; [done|]. by rewrite He.
  - by intros [= <- _].
Qed.

Lemma range_ok_of ar : In ar pmas -> range_ok ar.
Proof. intros Hin. rewrite Forall_forall in Hpmas. apply Hpmas. by apply list_elem_of_In. Qed.

(** Memory that is found at an address contains it. *)
Lemma find_pma_contains size paddr ar j :
  find_pma_loop pmas find_pma_fuel size paddr 0 = (ar, j) -> is_memory ar = true -> is_u 64 paddr -> 0 < size <= 8 ->
  In ar pmas /\ m_start ar <= paddr /\ paddr + size <= m_end ar.
Proof.
  intros E Har Hp Hs. destruct (find_pma_cases _ _ _ _ _ _ E Har) as [Hin Hc]. split; [done|].
  pose proof (range_ok_of ar Hin) as Hok. apply contains_absolute_range; [done..|]. apply Hc.
  unfold is_empty. destruct (Hok Har). unfold AR_SHADOW_TLB_START in *. apply Z.eqb_neq. lia.
Qed.

Lemma safe_store b a n v ar Q :
  In ar pmas -> is_memory ar = true -> 0 <= n -> m_start ar <= a -> a + n <= m_end ar -> Q () b ->
  safe b (write_memory_word n a v) Q.
Proof. intros. apply safe_modify; [|done]. intros m. by apply (inv_store pmas Hpmas m0 b a n v m ar). Qed.

Lemma safe_find_pma b size paddr Q :
  (forall ar j, (is_memory ar = true -> is_u 64 paddr -> 0 < size <= 8 -> In ar pmas /\ m_start ar <= paddr /\ paddr + size <= m_end ar) -> Q (ar, j) b) ->
  safe b (find_pma pmas size paddr) Q.
Proof.
  intros HQ. apply safe_ret. destruct (find_pma_loop _ _ _ _ _) as [ar j] eqn:E. apply HQ. intros. by eapply find_pma_contains.
Qed.

Lemma safe_read_ram b paddr Q : (forall v, Q v b) -> safe b (read_ram_uint64 pmas paddr) Q.
Proof.
  intros HQ. unfold read_ram_uint64. apply safe_bind, safe_find_pma. intros ar j _. safe_steps; apply HQ.
Qed.

Lemma safe_write_ram b paddr val Q : is_u 64 paddr -> (forall v, Q v b) -> safe b (write_ram_uint64 pmas paddr val) Q.
Proof.
  intros Hp HQ. unfold write_ram_uint64. apply safe_bind, safe_find_pma. intros ar j Hin.
  destruct (is_memory ar) eqn:Har; [|apply safe_ret, HQ]. destruct (is_writeable ar); [|apply safe_ret, HQ].
  destruct (Hin eq_refl Hp ltac:(lia)) as (? & ? & ?). cbn [negb orb]. apply safe_bind.
  by eapply safe_store; [..|apply safe_ret, HQ].
Qed.

Definition some_u64 (v : option Z) : Prop := match v with Some a => is_u 64 a | None => True end.

Lemma safe_walk b update n prv mstatus vaddr xwr_shift pte_addr vaddr_shift Q :
  (forall v, (is_u 64 vaddr -> some_u64 v) -> Q v b) -> safe b (walk pmas update n prv mstatus vaddr xwr_shift pte_addr vaddr_shift) Q.
Proof.
  intros HQ. revert pte_addr vaddr_shift. induction n as [|n IH]; intros pte_addr vaddr_shift; [by apply safe_ret, HQ|].
  cbn [walk]. safe_steps using (idtac; lazymatch goal with
  | |- safe _ (walk _ _ _ _ _ _ _ _ _) _ => apply IH
  | |- safe _ (read_ram_uint64 _ _) _ => apply safe_read_ram
  | |- safe _ (write_ram_uint64 _ _ _) _ => apply safe_write_ram; [by apply uwrap_range|]
  end); apply HQ; intros Hv; try done; apply lor_range; rewrite 1?Z.land_comm; try apply land_range; try done; by apply uwrap_range.
Qed.

Lemma safe_translate b update vaddr xwr_shift Q :
  (forall v, (is_u 64 vaddr -> some_u64 v) -> Q v b) -> safe b (translate_virtual_address pmas update vaddr xwr_shift) Q.
Proof.
  intros HQ. unfold translate_virtual_address.
  safe_steps using (idtac; lazymatch goal with |- safe _ (walk _ _ _ _ _ _ _ _ _) _ => by apply safe_walk end); by apply HQ.
Qed.

(** A new page of the TLB. *)
Lemma tlb_slot_index_range vaddr : 0 <= tlb_slot_index vaddr < TLB_SET_SIZE.
Proof. unfold tlb_slot_index. change (TLB_SET_SIZE - 1) with (Z.ones 8). rewrite Z.land_ones by lia. by apply Z.mod_pos_bound. Qed.

Lemma safe_replace_tlb b SET vaddr paddr i Q :
  0 <= SET < TLB_NUM_SETS_ -> (forall off, Q (paddr, off) b) -> safe b (replace_tlb_entry SET vaddr paddr i) Q.
Proof.
  intros HS HQ. unfold replace_tlb_entry. cbv zeta. apply safe_bind, safe_write_tlb; [done|apply tlb_slot_index_range|].
  apply safe_ret, HQ.
Qed.

Lemma safe_read_memory b size paddr Q : (forall v, Q v b) -> safe b (read_memory_word size paddr) Q.
Proof. apply safe_gets. Qed.
Lemma safe_read_tlb b SET i k Q : (forall v, Q v b) -> safe b (read_shadow_tlb SET i k) Q.
Proof. apply safe_gets. Qed.

Lemma safe_read_slow b raise log2_size pc mcycle vaddr Q :
  Z.even pc = true -> (forall v pc', Z.even pc' = true -> Q (v, pc') b) ->
  safe b (read_virtual_memory_slow pmas raise log2_size pc mcycle vaddr) Q.
Proof.
  intros Hpc HQ. unfold read_virtual_memory_slow.
  safe_steps using (idtac; lazymatch goal with
  | |- safe _ (raise_exception _ _ _) _ => apply safe_raise_exception
  | |- safe _ (translate_virtual_address _ _ _ _) _ => apply safe_translate
  | |- safe _ (find_pma _ _ _) _ => apply safe_find_pma; intros ? ? _
  | |- safe _ (replace_tlb_entry _ _ _ _) _ => apply safe_replace_tlb; [solve_reg|]
  | |- safe _ (read_memory_word _ _) _ => apply safe_read_memory
  | |- safe _ (read_device _ _ _ _) _ => apply safe_read_device
  end); by apply HQ.
Qed.

Lemma safe_read_virtual_memory b raise log2_size pc mcycle vaddr Q :
  Z.even pc = true -> (forall v pc', Z.even pc' = true -> Q (v, pc') b) ->
  safe b (read_virtual_memory pmas raise log2_size pc mcycle vaddr) Q.
Proof.
  intros Hpc HQ. unfold read_virtual_memory.
  safe_steps using (idtac; lazymatch goal with
  | |- safe _ (read_virtual_memory_slow _ _ _ _ _ _) _ => apply safe_read_slow; [done|]
  | |- safe _ (read_memory_word _ _) _ => apply safe_read_memory
  | |- safe _ (read_shadow_tlb _ _ _) _ => apply safe_read_tlb
  end); by apply HQ.
Qed.

Lemma safe_write_slow b ev log2_size pc mcycle vaddr val Q :
  0 <= log2_size <= 3 -> is_u 64 vaddr -> Z.even pc = true ->
  (forall st pc' b', Z.even pc' = true -> (st = success_and_halt -> b' = true) -> Q (st, pc') b') ->
  safe b (write_virtual_memory_slow pmas ev log2_size pc mcycle vaddr val) Q.
Proof.
  intros Hl Hv Hpc HQ. unfold write_virtual_memory_slow.
  assert (Hsize : 0 < Z.shiftl 1 log2_size <= 8).
  { rewrite Z.shiftl_1_l. change 8 with (2 ^ 3). split; [apply pow2_pos; lia|]. apply Z.pow_le_mono_r; lia. }
  safe_steps using (idtac; lazymatch goal with
  | |- safe _ (raise_exception _ _ _) _ => apply safe_raise_exception
  | |- safe _ (translate_virtual_address _ _ _ _) _ => apply safe_translate
  | |- safe _ (find_pma _ _ _) _ => apply safe_find_pma; intros ? ? Hin
  | |- safe _ (replace_tlb_entry _ _ _ _) _ => apply safe_replace_tlb; [solve_reg|]
  | Hin : true = true -> _, Hm : is_memory _ = true, Hu : is_u 64 vaddr -> some_u64 _ |- safe _ (write_memory_word _ _ _) _ =>
      destruct (Hin eq_refl (Hu Hv) Hsize) as (? & ? & ?); eapply safe_store; [done|done|lia|done|done|]
  | |- safe _ (write_device _ _ _ _ _) _ => apply safe_write_device
  end); by apply HQ.
Qed.

(** The page of a slot that is hit and verified is in a memory range. *)
Lemma in_tlb_range SET log2_size m vaddr :
  0 <= log2_size <= 3 -> is_u 64 vaddr -> in_tlb pmas SET (Z.shiftl 1 log2_size) m vaddr ->
  exists ar, In ar pmas /\ is_memory ar = true /\
    m_start ar <= translated SET m vaddr /\ translated SET m vaddr + Z.shiftl 1 log2_size <= m_end ar.
Proof.
  intros Hl Hv [Hhit Hok]. unfold verify_cold_tlb_slot in Hok.
  set (p := shadow_tlb_get_abs_addr SET (tlb_slot_index vaddr)) in *.
  set (ar := pma_at pmas (mem_read m (p + 16))).
  assert (Hver : shadow_tlb_verify_slot (mem_read m (p + 0)) (mem_read m (p + 8)) (mem_read m (p + 24)) (is_memory ar) (get_start ar) (get_length ar) <> TLB_INVALID_PAGE).
  { injection Hok as Hok. apply negb_true_iff, Z.eqb_neq in Hok. exact Hok. }
  destruct (pma_at_cases (mem_read m (p + 16))) as [Es|Hin].
  { fold ar in Es. unfold shadow_tlb_verify_slot in Hver. rewrite Es in Hver. cbn in Hver. repeat case_match; done. }
  pose proof (range_ok_of _ Hin) as Hr. fold ar in Hin, Hr. exists ar. split; [done|].
  apply verify_slot_spec in Hver as (Har & H1 & H2 & H3 & H4); [|done|apply word_at_range]. split; [done|].
  rewrite Z.shiftl_1_l in *. rewrite tlb_is_hit_spec in Hhit by (done || lia). apply bool_decide_eq_true in Hhit as [Hpage Hal].
  unfold translated. fold p. unfold tlb_addr_page in Hpage. change PAGE_OFFSET_MASK with (Z.ones 12) in *.
  rewrite land_not64_ones in Hpage by (done || lia). change (2 ^ 12) with 4096 in Hpage.
  rewrite Z.land_ones in H4 by lia. change (2 ^ 12) with 4096 in H4.
  set (page := mem_read m (p + 0)) in *. set (off := mem_read m (p + 8)) in *.
  pose proof (Z.div_mod vaddr 4096 ltac:(lia)). pose proof (Z.mod_pos_bound vaddr 4096 ltac:(lia)).
  pose proof (uwrap_range 64 (page + off) ltac:(lia)) as Hq. unfold is_u in Hq. change (2 ^ 64) with 18446744073709551616 in Hq.
  assert (Hword : uint64 (vaddr + off) = uint64 (page + off) + vaddr mod 4096).
  { replace (vaddr + off) with (page + off + vaddr mod 4096) by lia. unfold uint64, uwrap in *. rewrite <-Zplus_mod_idemp_l. apply (uwrap_small 64).
    destruct (Hr Har). unfold is_u. lia. }
  rewrite Hword. split; [lia|].
  enough (vaddr mod 4096 + 2 ^ log2_size <= 4096) by lia. pose proof (Z.div_mod vaddr (2 ^ log2_size) ltac:(lia)) as Hd.
  rewrite Hal in Hd. assert (log2_size = 0 \/ log2_size = 1 \/ log2_size = 2 \/ log2_size = 3) as Hk by lia.
  destruct Hk as [->|[->|[->| ->]]]; cbn [Z.pow Z.pow_pos Pos.iter Z.mul Pos.mul] in *; lia.
Qed.

Lemma safe_write_virtual_memory b ev log2_size pc mcycle vaddr val Q :
  0 <= log2_size <= 3 -> is_u 64 vaddr -> Z.even pc = true ->
  (forall st pc' b', Z.even pc' = true -> (st = success_and_halt -> b' = true) -> Q (st, pc') b') ->
  safe b (write_virtual_memory pmas ev log2_size pc mcycle vaddr val) Q.
Proof.
  intros Hl Hv Hpc HQ m Hm. pose proof (safe_write_slow b ev log2_size pc mcycle vaddr val Q Hl Hv Hpc HQ m Hm) as Hslow.
  destruct (tlb_is_hit (Z.shiftl 1 log2_size) (mem_read m (shadow_tlb_get_abs_addr TLB_WRITE (tlb_slot_index vaddr) + 0)) vaddr) eqn:Hhit.
  - destruct (verify_cold_tlb_slot pmas TLB_WRITE (tlb_slot_index vaddr) m) as [[[]|e] m'] eqn:Hok; [| |done].
    + assert (m' = m) as -> by (by injection Hok). assert (Ht : in_tlb pmas TLB_WRITE (Z.shiftl 1 log2_size) m vaddr) by done.
      rewrite write_hit by (done || lia). destruct (in_tlb_range _ _ _ _ Hl Hv Ht) as (ar & ? & ? & ? & ?).
      exists b. split; [|by apply HQ]. eapply inv_store; [done..| |done|done|done]. rewrite Z.shiftl_1_l. pose proof (pow2_pos log2_size). lia.
    + assert (m' = m) as -> by (by injection Hok). unfold write_virtual_memory. rewrite run_bind.
      change (read_tlb_vaddr_page TLB_WRITE (tlb_slot_index vaddr) m) with (@Ret Z (mem_read m (shadow_tlb_get_abs_addr TLB_WRITE (tlb_slot_index vaddr) + 0)), m).
      cbv beta iota. rewrite Hhit. cbn [negb]. rewrite run_bind, Hok. exact Hslow.
  - unfold write_virtual_memory. rewrite run_bind.
    change (read_tlb_vaddr_page TLB_WRITE (tlb_slot_index vaddr) m) with (@Ret Z (mem_read m (shadow_tlb_get_abs_addr TLB_WRITE (tlb_slot_index vaddr) + 0)), m).
    cbv beta iota. rewrite Hhit. cbn [negb]. rewrite run_bind.
    change (init_hot_tlb_slot TLB_WRITE (tlb_slot_index vaddr) m) with (@Ret Z (mem_read m (shadow_tlb_get_abs_addr TLB_WRITE (tlb_slot_index vaddr) + 0)), m).
    cbv beta iota. rewrite Hhit. exact Hslow.
Qed.
End shared.
