(* ===== verification/InsnSafety.v ===== *)
(** * Safety of the instructions

    Each function of the switch of the interpreter is safe, given that [pc]
    is even and that the label it runs for was chosen by the jump table: a
    label of a destination other than x0 needs such a destination. *)

From S2P Require Import Prelude Bits Shadow SolidityCompat HashTree Memory Machine MachineFacts UarchMemory Riscv Hart Trap Csr Devices VirtualMemory HartFacts Decode Execute SoftFloat ExecuteFloat Compressed JumpTable Interpreter HartSafety.
#[local] Open Scope string_scope.
#[local] Open Scope list_scope.
#[local] Open Scope Z_scope.

(** ** Floating point never fails

    With assertions compiled out, the operations only set flags. *)

Definition total {A} (op : M Z A) : Prop := forall s, exists a s', op s = (Ret a, s').

Lemma total_ret {A} (a : A) : total (mret a).
Proof. intros s. by eexists _, _. Qed.
Lemma total_bind {A B} (op : M Z A) (f : A -> M Z B) : total op -> (forall a, total (f a)) -> total (op ≫= f).
Proof. intros Hop Hf s. destruct (Hop s) as (a & s' & E). rewrite run_bind, E. apply Hf. Qed.
Lemma total_op_when c (op : M Z unit) : total op -> total (when c op).
Proof. destruct c; [done|]. intros _. apply total_ret. Qed.
Lemma total_set_fflags mask : total (set_fflags mask).
Proof. intros s. by eexists _, _. Qed.

Ltac total_step :=
  cbv beta;
  lazymatch goal with
  | |- forall _, _ => intros ?
  | |- total (mbind _ _) => apply total_bind
  | |- total (mret _) => apply total_ret
  | |- total (when _ _) => apply total_op_when
  | |- total (set_fflags _) => apply total_set_fflags
  | |- total (let _ := _ in _) => cbv zeta
  | |- total (if ?c then _ else _) => destruct c
  | |- total (match ?x with _ => _ end) => destruct x
  end.

Section floats.
Context {cfg : BuildConfig} (Hrel : NDEBUG = true).

Lemma total_assert_shift shift : total (i_sfloat.assert_shift shift).
Proof. intros s. unfold i_sfloat.assert_shift. rewrite Hrel. by eexists _, _. Qed.

Ltac total_op :=
  repeat (cbv beta; first
    [ lazymatch goal with |- total (i_sfloat.assert_shift _) => apply total_assert_shift end
    | total_step | match goal with |- total ?k => unfold_program k end ]).

Lemma total_fma fmt a b c rm : total (i_sfloat.fma fmt a b c rm).
Proof. total_op. Qed.
Lemma total_add fmt a b rm : total (i_sfloat.add fmt a b rm).
Proof. total_op. Qed.
Lemma total_mul fmt a b rm : total (i_sfloat.mul fmt a b rm).
Proof. total_op. Qed.
Lemma total_div fmt a b rm : total (i_sfloat.div fmt a b rm).
Proof. total_op. Qed.
Lemma total_sqrt fmt a rm : total (i_sfloat.sqrt fmt a rm).
Proof. total_op. Qed.
Lemma total_min fmt a b : total (i_sfloat.min fmt a b).
Proof. total_op. Qed.
Lemma total_max fmt a b : total (i_sfloat.max fmt a b).
Proof. total_op. Qed.
Lemma total_le fmt a b : total (i_sfloat.le fmt a b).
Proof. total_op. Qed.
Lemma total_lt fmt a b : total (i_sfloat.lt fmt a b).
Proof. total_op. Qed.
Lemma total_eq fmt a b : total (i_sfloat.eq fmt a b).
Proof. total_op. Qed.
Lemma total_cvt_f_i fmt size u a rm : total (i_sfloat.cvt_f_i fmt size u a rm).
Proof. total_op. Qed.
Lemma total_cvt_i_f fmt size u a rm : total (i_sfloat.cvt_i_f fmt size u a rm).
Proof. total_op. Qed.
Lemma total_cvt_f64_f32 a rm : total (sfloat_cvt_f64_f32 a rm).
Proof. total_op. Qed.
Lemma total_cvt_f32_f64 a : total (sfloat_cvt_f32_f64 a).
Proof. total_op. Qed.
End floats.

(** ** Fields *)

Lemma insn_get_rd_range insn : 0 <= insn_get_rd insn < 32.
Proof. unfold insn_get_rd. change 0x1f with (Z.ones 5). rewrite Z.land_ones by lia. by apply Z.mod_pos_bound. Qed.
Lemma rd_range insn : insn_get_rd insn <> 0 -> 0 < insn_get_rd insn < 32.
Proof. pose proof (insn_get_rd_range insn). lia. Qed.

Lemma creg_range x : 0 < Z.lor (Z.land x 7) 8 < 32.
Proof.
  assert (H : is_u 4 (Z.lor (Z.land x 7) 8)) by (apply lor_range; [done|apply land_range; done|done]).
  unfold is_u in H. change (2 ^ 4) with 16 in H. split; [|lia].
  destruct (decide (Z.lor (Z.land x 7) 8 = 0)) as [E|]; [|lia]. apply (f_equal (fun y => Z.testbit y 3)) in E.
  rewrite Z.lor_spec in E. cbn in E. by rewrite orb_true_r in E.
Qed.

Lemma creg_range_0 x : 0 <= Z.lor (Z.land x 7) 8 < 32.
Proof. pose proof (creg_range x). lia. Qed.

Lemma even_B_imm insn : Z.even (insn_B_get_imm insn) = true.
Proof. apply even_int32, even_lor; [apply even_uint32, even_shiftl; lia|repeat apply even_lor; apply even_shiftl; lia]. Qed.
Lemma even_J_imm insn : Z.even (insn_J_get_imm insn) = true.
Proof. apply even_int32, even_lor; [apply even_uint32, even_shiftl; lia|repeat apply even_lor; apply even_shiftl; lia]. Qed.
Lemma even_C_J_imm insn : Z.even (insn_get_C_J_imm insn) = true.
Proof. apply even_int32. unfold lor_list. cbn [foldr]. repeat apply even_lor; try done; by apply even_land. Qed.
Lemma even_C_B_imm insn : Z.even (insn_get_C_BEQZ_BNEZ_imm insn) = true.
Proof. apply even_int32. unfold lor_list. cbn [foldr]. repeat apply even_lor; try done; by apply even_land. Qed.

(** ** Instructions *)

(** What holds of the result of an instruction. *)
Definition good (r : execute_status * Z) (halted : bool) : Prop :=
  Z.even r.2 = true /\ (r.1 = success_and_halt -> halted = true).

Section instructions.
Context {cfg : BuildConfig} (Hrel : NDEBUG = true) (pmas : list address_range) (Hpmas : Forall range_ok pmas) (m0 : memory) (ev : bool).
#[local] Abbreviation safe := (safe pmas m0).

Lemma safe_with_fflags {A} b (op : M Z A) fflags Q : total op -> (forall a, Q a b) -> safe b (with_fflags op fflags) Q.
Proof. intros Hop HQ m Hm. unfold with_fflags, lift. destruct (Hop fflags) as (a & s' & ->). exists b. by split. Qed.

Ltac solve_even :=
  cbn [fst snd];
  lazymatch goal with
  | |- Z.even (uint64 (_ + insn_B_get_imm _)) = true => apply even_next; [assumption|apply even_B_imm]
  | |- Z.even (uint64 (_ + insn_J_get_imm _)) = true => apply even_next; [assumption|apply even_J_imm]
  | |- Z.even (uint64 (_ + uint64 (insn_get_C_J_imm _))) = true => apply even_next; [assumption|rewrite even_uint64; apply even_C_J_imm]
  | |- Z.even (uint64 (_ + uint64 (insn_get_C_BEQZ_BNEZ_imm _))) = true => apply even_next; [assumption|rewrite even_uint64; apply even_C_B_imm]
  | |- Z.even (uint64 (_ + _)) = true => apply even_next; [assumption|reflexivity]
  | |- Z.even (Z.land _ (not64 1)) = true => apply even_xepc
  | |- Z.even (WARL_sepc _) = true => apply even_xepc
  | |- Z.even (WARL_mepc _) = true => apply even_xepc
  | |- Z.even ?pc = true => is_var pc; assumption
  end.
Ltac solve_good :=
  lazymatch goal with |- good _ _ => split; [solve_even | cbn [fst snd]; first [assumption | discriminate | by intros; simplify_eq]] end.
Ltac solve_rd :=
  lazymatch goal with
  | |- 0 < insn_get_CIW_CL_rd_CS_CA_rs2 _ < 32 => apply creg_range
  | |- 0 < insn_get_CL_CS_CA_CB_rs1 _ < 32 => apply creg_range
  | |- 0 < insn_get_rd _ < 32 => apply rd_range; first [assumption | by apply Z.eqb_neq]
  | |- 0 <= insn_get_rd _ < 32 => apply insn_get_rd_range
  | |- 0 <= insn_get_CIW_CL_rd_CS_CA_rs2 _ < 32 => apply creg_range_0
  | _ => lia
  end.

Ltac insn_step :=
  first [ idtac; lazymatch goal with
  | |- safe _ (raise_exception _ _ _) _ => apply safe_raise_exception
  | |- safe _ (read_virtual_memory _ _ _ _ _ _) _ =>
      apply (safe_read_virtual_memory pmas Hpmas m0); [assumption|]
  | |- safe _ (write_virtual_memory _ _ _ _ _ _ _) _ =>
      apply (safe_write_virtual_memory pmas Hpmas m0); [lia|first [assumption|by apply uwrap_range]|assumption|]
  | |- safe _ (write_x _ _) _ => apply safe_write_x; [solve_rd|]
  | |- safe _ (write_f _ _) _ => apply safe_write_f; [solve_rd|]
  | |- safe _ (read_csr _ _) _ => apply safe_read_csr
  | |- safe _ (write_csr _ _ _) _ => apply safe_write_csr
  end
  | safe_step | match goal with |- safe _ ?k _ => unfold_program k end ].
Ltac insn_steps := repeat (cbv beta; insn_step).
Ltac insn_float Hf :=
  repeat (cbv beta; first
    [ lazymatch goal with |- safe _ (with_fflags _ _) _ => apply safe_with_fflags; [apply Hf|] end | insn_step ]); solve_good.

Lemma safe_illegal b pc insn : safe b (raise_illegal_insn_exception pc insn) good.
Proof. insn_steps. solve_good. Qed.

Lemma safe_arithmetic b pc insn f : Z.even pc = true -> insn_get_rd insn <> 0 -> safe b (execute_arithmetic pc insn f) good.
Proof. intros Hpc Hrd. insn_steps. solve_good. Qed.
Lemma safe_arithmetic_immediate b pc insn f : Z.even pc = true -> insn_get_rd insn <> 0 -> safe b (execute_arithmetic_immediate pc insn f) good.
Proof. intros Hpc Hrd. insn_steps. solve_good. Qed.
Lemma safe_branch b pc insn f : Z.even pc = true -> safe b (execute_branch pc insn f) good.
Proof. intros Hpc. insn_steps; solve_good. Qed.
Lemma safe_C_arithmetic b pc insn f : Z.even pc = true -> safe b (execute_C_arithmetic pc insn f) good.
Proof. intros Hpc. insn_steps; solve_good. Qed.
Lemma safe_AMO b sg l pc mcycle insn f : 0 <= l <= 3 -> Z.even pc = true -> safe b (execute_AMO pmas ev sg l pc mcycle insn f) good.
Proof. intros Hl Hpc. insn_steps; solve_good. Qed.
Lemma safe_SC_end b st pc insn val :
  Z.even pc = true -> (st = success_and_halt -> b = true) -> safe b (SC_end st pc insn val) good.
Proof. intros Hpc Hst. insn_steps; solve_good. Qed.

Lemma safe_ternary b fmt pc insn f : Z.even pc = true -> (forall s1 s2 s3 rm, total (f s1 s2 s3 rm)) -> safe b (execute_float_ternary_op_rm fmt pc insn f) good.
Proof. intros Hpc Hf. unfold execute_float_ternary_op_rm. insn_float Hf. Qed.
Lemma safe_binary_rm b fmt pc insn f : Z.even pc = true -> (forall s1 s2 rm, total (f s1 s2 rm)) -> safe b (execute_float_binary_op_rm fmt pc insn f) good.
Proof. intros Hpc Hf. unfold execute_float_binary_op_rm. insn_float Hf. Qed.
Lemma safe_unary b fmt pc insn f : Z.even pc = true -> (forall s1 rm, total (f s1 rm)) -> safe b (execute_float_unary_op_rm fmt pc insn f) good.
Proof. intros Hpc Hf. unfold execute_float_unary_op_rm. insn_float Hf. Qed.
Lemma safe_binary b fmt pc insn f : Z.even pc = true -> (forall s1 s2, total (f s1 s2)) -> safe b (execute_float_binary_op fmt pc insn f) good.
Proof. intros Hpc Hf. unfold execute_float_binary_op. insn_float Hf. Qed.
Lemma safe_cmp b fmt pc insn f : Z.even pc = true -> (forall s1 s2, total (f s1 s2)) -> safe b (execute_float_cmp_op fmt pc insn f) good.
Proof. intros Hpc Hf. unfold execute_float_cmp_op. insn_float Hf. Qed.
Lemma safe_FCVT_F_F b from to pc insn f : Z.even pc = true -> (forall s1 rm, total (f s1 rm)) -> safe b (execute_FCVT_F_F from to pc insn f) good.
Proof. intros Hpc Hf. unfold execute_FCVT_F_F. insn_float Hf. Qed.
Lemma safe_FCVT_X_F b fmt pc insn f : Z.even pc = true -> (forall s1 rm, total (f s1 rm)) -> safe b (execute_FCVT_X_F fmt pc insn f) good.
Proof. intros Hpc Hf. unfold execute_FCVT_X_F. insn_float Hf. Qed.
Lemma safe_FCVT_F_X b fmt pc insn f : Z.even pc = true -> (forall s1 rm, total (f s1 rm)) -> safe b (execute_FCVT_F_X fmt pc insn f) good.
Proof. intros Hpc Hf. unfold execute_FCVT_F_X. insn_float Hf. Qed.

Ltac solve_total :=
  intros; repeat first
    [ lazymatch goal with
      | |- total (i_sfloat.fma _ _ _ _ _) => by apply total_fma
      | |- total (i_sfloat.add _ _ _ _) => by apply total_add
      | |- total (i_sfloat.mul _ _ _ _) => by apply total_mul
      | |- total (i_sfloat.div _ _ _ _) => by apply total_div
      | |- total (i_sfloat.sqrt _ _ _) => by apply total_sqrt
      | |- total (i_sfloat.min _ _ _) => by apply total_min
      | |- total (i_sfloat.max _ _ _) => by apply total_max
      | |- total (i_sfloat.le _ _ _) => by apply total_le
      | |- total (i_sfloat.lt _ _ _) => by apply total_lt
      | |- total (i_sfloat.eq _ _ _) => by apply total_eq
      | |- total (i_sfloat.cvt_f_i _ _ _ _ _) => by apply total_cvt_f_i
      | |- total (i_sfloat.cvt_i_f _ _ _ _ _) => by apply total_cvt_i_f
      | |- total (sfloat_cvt_f64_f32 _ _) => by apply total_cvt_f64_f32
      | |- total (sfloat_cvt_f32_f64 _) => by apply total_cvt_f32_f64
      end
    | total_step ].

(** The functions of the switch. *)
Ltac insn_cases :=
  repeat (cbv beta; first
    [ lazymatch goal with
      | |- safe _ (execute_arithmetic _ _ _) _ => by apply safe_arithmetic
      | |- safe _ (execute_arithmetic_immediate _ _ _) _ => by apply safe_arithmetic_immediate
      | |- safe _ (execute_branch _ _ _) _ => by apply safe_branch
      | |- safe _ (execute_C_arithmetic _ _ _) _ => by apply safe_C_arithmetic
      | |- safe _ (execute_AMO _ _ _ _ _ _ _ _) _ => apply safe_AMO; [lia|done]
      | |- safe _ (raise_illegal_insn_exception _ _) _ => apply safe_illegal
      | |- safe _ (SC_end _ _ _ _) _ => by apply safe_SC_end
      | |- safe _ (execute_float_ternary_op_rm _ _ _ _) _ => apply safe_ternary; [done|solve_total]
      | |- safe _ (execute_float_binary_op_rm _ _ _ _) _ => apply safe_binary_rm; [done|solve_total]
      | |- safe _ (execute_float_unary_op_rm _ _ _ _) _ => apply safe_unary; [done|solve_total]
      | |- safe _ (execute_float_binary_op _ _ _ _) _ => apply safe_binary; [done|solve_total]
      | |- safe _ (execute_float_cmp_op _ _ _ _) _ => apply safe_cmp; [done|solve_total]
      | |- safe _ (execute_FCVT_F_F _ _ _ _ _) _ => apply safe_FCVT_F_F; [done|solve_total]
      | |- safe _ (execute_FCVT_X_F _ _ _ _) _ => apply safe_FCVT_X_F; [done|solve_total]
      | |- safe _ (execute_FCVT_F_X _ _ _ _) _ => apply safe_FCVT_F_X; [done|solve_total]
      end
    | insn_step | solve_good ]).

(** The labels that need a destination other than x0. *)
Definition compressed_rd_labels : list string :=
  ["C_ADDI"; "C_ADDIW"; "C_LI"; "C_LUI"; "C_SLLI"; "C_MV"; "C_ADD"; "C_LWSP"; "C_LDSP"].
Definition needs_rd (label : string) : bool :=
  String.eqb (String.substring (String.length label - 4) 4 label) "_rdN" || existsb (String.eqb label) compressed_rd_labels.

Definition case_safe (c : string * (Z -> Z -> Z -> result)) : Prop :=
  forall b pc mcycle insn, Z.even pc = true -> (needs_rd (fst c) = true -> insn_get_rd insn <> 0) ->
    safe b (snd c pc mcycle insn) good.

Ltac all_cases :=
  repeat lazymatch goal with
  | |- Forall _ (_ :: _) => apply List.Forall_cons
  | |- Forall _ [] => apply List.Forall_nil
  end;
  intros b pc mcycle insn Hpc Hrd; cbn [fst snd] in *; first [specialize (Hrd eq_refl)|clear Hrd]; insn_cases.

Lemma IM_cases_safe : Forall case_safe (IM_cases pmas ev).
Proof. unfold IM_cases. all_cases. Qed.
Lemma C_cases_safe : Forall case_safe (C_cases pmas ev).
Proof. unfold C_cases. all_cases. Qed.
Lemma Zcb_cases_safe : Forall case_safe (Zcb_cases pmas ev).
Proof. unfold Zcb_cases. all_cases. Qed.
Lemma rd0_cases_safe : Forall case_safe (rd0_cases pmas).
Proof. unfold rd0_cases. all_cases. Qed.
Lemma FD_A_Zicsr_cases_safe : Forall case_safe (FD_A_Zicsr_cases pmas ev).
Proof. unfold FD_A_Zicsr_cases. all_cases. Qed.

Lemma insn_cases_safe : Forall case_safe (insn_cases pmas ev).
Proof.
  unfold insn_cases. repeat apply Forall_app_2; [apply IM_cases_safe|apply C_cases_safe|apply Zcb_cases_safe|apply FD_A_Zicsr_cases_safe|apply rd0_cases_safe].
Qed.
End instructions.
