(* ===== verification/InterpretSafety.v ===== *)
(** * The labels of the jump table

    The generated table gives each word a label of the switch of the
    interpreter, and a label for a destination other than x0 only when the
    word has one.  Compressed words share the table: no pattern of a 32-bit
    instruction matches them. *)

From Stdlib Require Import Ascii.
From S2P Require Import Prelude Bits Shadow SolidityCompat HashTree Memory UarchFacts Machine MachineFacts UarchMemory Riscv Hart Trap Csr Devices VirtualMemory HartFacts Decode Execute JumpTable Interpreter Rv64gc Dispatch HartSafety InsnSafety.
#[local] Open Scope string_scope.
#[local] Open Scope list_scope.
#[local] Open Scope Z_scope.

(** ** Strings of bits *)

Lemma matchmask_app p q s t : String.length p = String.length q -> matchmask (p +:+ s) (q +:+ t) = true -> matchmask s t = true.
Proof.
  revert q. induction p as [|b p IH]; intros [|m q] Hl Hm; try done. apply (IH q); [by injection Hl|].
  change (matchmask (String b (p +:+ s)) (String m (q +:+ t)) = true) in Hm. cbn [matchmask] in Hm. by repeat case_match.
Qed.

Lemma tobase2_app i n : exists p, String.length p = n /\ tobase2 i (n + 2) = p +:+ tobase2 i 2.
Proof.
  induction n as [|n (p & Hp & E)]; [by exists ""|].
  eexists (String _ p). split; [by rewrite <-Hp|]. cbn [Nat.add tobase2]. rewrite E. reflexivity.
Qed.

(** Every pattern ends in 11. *)
Definition ends_in_11 (bits : string) : bool :=
  Nat.eqb (String.length bits) 11 && String.eqb bits (String.substring 0 9 bits +:+ "11").

Lemma patterns_end_in_11 : forallb (fun p => ends_in_11 (fst (fst p))) index_patterns = true.
Proof. vm_compute. reflexivity. Qed.

Lemma matchmask_11 bits i : ends_in_11 bits = true -> matchmask bits (tobase2 i 11) = true -> Z.testbit i 0 = true /\ Z.testbit i 1 = true.
Proof.
  unfold ends_in_11. rewrite andb_true_iff, Nat.eqb_eq, String.eqb_eq. intros [Hl E] Hm.
  destruct (tobase2_app i 9) as (p & Hp & Ei). change (9 + 2)%nat with 11%nat in Ei. rewrite E, Ei in Hm.
  apply matchmask_app in Hm.
  - revert Hm. change (tobase2 i 2) with (String (if Z.testbit i 1 then "1"%char else "0"%char) (String (if Z.testbit i 0 then "1"%char else "0"%char) "")).
    by destruct (Z.testbit i 1), (Z.testbit i 0).
  - rewrite Hp. clear -Hl. do 11 (destruct bits as [|? bits]; [done|]). by destruct bits.
Qed.

Lemma matching_none mask l matches rd0 :
  Forall (fun p => matchmask (fst (fst p)) mask = false) l -> matching mask l matches rd0 = (matches, rd0).
Proof. induction 1 as [|[[bits name] special] l Hp Hl IH]; [done|]. cbn in Hp |- *. by rewrite Hp. Qed.

Lemma table_entry_compressed i : Z.testbit i 0 && Z.testbit i 1 = false -> table_entry i = ("ILLEGAL", false).
Proof.
  intros Hi. unfold table_entry. rewrite matching_none; [vm_compute; reflexivity|].
  pose proof patterns_end_in_11 as Hf. rewrite forallb_forall in Hf. apply Forall_forall. intros p Hp%list_elem_of_In.
  destruct (matchmask _ _) eqn:E; [|done]. apply matchmask_11 in E as [E0 E1]; [by rewrite E0, E1 in Hi|by apply Hf].
Qed.

(** ** Labels *)

Section labels.
Context {cfg : BuildConfig} (pmas : list address_range) (ev : bool).

Definition listed (label : string) : bool := existsb (fun c => String.eqb (fst c) label) (insn_cases pmas ev).

Lemma listed_find label :
  listed label = true -> exists c, List.find (fun c => String.eqb (fst c) label) (insn_cases pmas ev) = Some c /\ In c (insn_cases pmas ev) /\ fst c = label.
Proof.
  intros Hl. destruct (List.find _ _) as [c|] eqn:E.
  - exists c. split; [done|]. apply find_some in E as [? ?%String.eqb_eq]. done.
  - exfalso. apply existsb_exists in Hl as (c & Hin & Hc). by rewrite (find_none _ _ E c Hin) in Hc.
Qed.

(** A label that the switch can run for a word with the destination [rd]. *)
Definition label_fits (rd : Z) (label : string) : bool := listed label && (negb (needs_rd label) || negb (rd =? 0)).

Definition group_fits (g : group) : bool :=
  listed (label_of g rd_x0) && listed (label_of g rd_xN) && negb (needs_rd (label_of g rd_x0)) &&
  (g_rd0 g || negb (needs_rd (label_of g rd_xN))).

Lemma groups_fit : forallb group_fits groups = true.
Proof. vm_compute. reflexivity. Qed.

Lemma uncompressed_label_fits insn :
  Z.land insn 3 = 3 -> label_fits (insn_get_rd insn) (insn_jumptable (insn_get_id insn)) = true.
Proof.
  intros H3. pose proof (entries_covered pmas ev) as Hc. rewrite forallb_forall in Hc. specialize (Hc (entry_of insn) (entry_of_uncompressed insn H3)).
  destruct (table_entry (entry_of insn)) as [label rd0] eqn:E. apply orb_true_iff in Hc as [Hc|Hc].
  - apply existsb_exists in Hc as (g & Hin & Hg). rewrite !andb_true_iff, String.eqb_eq, Bool.eqb_true_iff, !Z.eqb_eq in Hg.
    destruct Hg as (((-> & ->) & Hb) & Hm). rewrite (jumptable_label insn g H3 E).
    pose proof groups_fit as Hf. rewrite forallb_forall in Hf. specialize (Hf g Hin). unfold group_fits in Hf.
    rewrite !andb_true_iff in Hf. destruct Hf as (((H0 & HN) & Hn0) & HnN). unfold label_fits, destination.
    destruct (insn_get_rd insn =? 0); [by rewrite H0, Hn0|rewrite HN]. by rewrite orb_true_r.
  - rewrite !andb_true_iff, String.eqb_eq, negb_true_iff in Hc. destruct Hc as ((-> & ->) & _).
    rewrite (jumptable_label insn (illegal_entry (entry_of insn)) H3 E). vm_compute. reflexivity.
Qed.

Lemma compressed_label_fits idx label : c_insn_by_idx idx = Some label -> label_fits (field idx 7 5) label = true.
Proof.
  unfold c_insn_by_idx. destruct (_ =? 0); [|destruct (_ =? 1); [|destruct (_ =? 2); [|done]]].
  - unfold quadrant0. repeat (destruct (_ =? _)); intros [= <-]; vm_compute; reflexivity.
  - unfold quadrant1, unless_hint. cbv zeta. destruct (field idx 7 5 =? 0) eqn:Hrd; unfold label_fits; rewrite Hrd.
    all: repeat (destruct (_ =? _)); cbn [negb]; intros [= <-]; vm_compute; reflexivity.
  - unfold quadrant2, unless_hint. cbv zeta. destruct (field idx 7 5 =? 0) eqn:Hrd; unfold label_fits; rewrite Hrd.
    all: repeat (destruct (_ =? _)); cbn [negb andb]; intros [= <-]; vm_compute; reflexivity.
Qed.
End labels.

(** * Safety of the interpreter loop

    Fetching and running an instruction keeps the invariant of HartSafety.v,
    and the loops count: a round adds one to [mcycle], the inner loop goes up
    to the end of the tick and the outer one to [mcycle_end]. *)

Section interpreter.
Context {cfg : BuildConfig} (Hrel : NDEBUG = true) (pmas : list address_range) (Hpmas : Forall range_ok pmas) (m0 : memory) (ev : bool).
#[local] Abbreviation safe := (safe pmas m0).
#[local] Abbreviation inv := (inv pmas m0).

Lemma safe_run {A} b (k : M memory A) Q m :
  safe b k Q -> inv b m -> exists a b' m', k m = (Ret a, m') /\ inv b' m' /\ Q a b'.
Proof.
  intros Hk Hm. specialize (Hk m Hm). destruct (k m) as [[a|e] m']; [|done]. destruct Hk as (b' & ? & ?). by exists a, b', m'.
Qed.

(** ** An instruction *)

Lemma entry_of_low insn i : i = 0 \/ i = 1 -> Z.testbit (entry_of insn) i = Z.testbit insn i.
Proof.
  intros Hi. unfold entry_of, insn_get_id. rewrite Z.lor_spec, Z.shiftl_spec_low, !Z.land_spec by lia.
  by destruct Hi as [-> | ->]; rewrite !andb_true_r.
Qed.

Lemma label_runs insn : label_fits pmas ev (insn_get_rd insn) (insn_jumptable (insn_get_id insn)) = true.
Proof.
  destruct (decide (Z.land insn 3 = 3)) as [H3|H3]; [by apply uncompressed_label_fits|].
  unfold insn_jumptable. fold (entry_of insn). destruct (insn_get_id_fields insn) as [Hrd Hq]. rewrite Hrd.
  rewrite table_entry_compressed.
  - cbv iota zeta. rewrite String.eqb_refl. destruct (c_insn_by_idx _) as [label|] eqn:E; cbn [default].
    + apply (compressed_label_fits pmas ev) in E. by rewrite <-Hrd.
    + reflexivity.
  - apply not_true_iff_false. intros [H0 H1]%andb_true_iff. apply H3. rewrite entry_of_low in H0, H1 by auto.
    change 3 with (Z.lor (Z.ones 1) (Z.shiftl (Z.ones 1) 1)). apply Z.bits_inj'. intros i Hi. rewrite Z.land_spec.
    destruct (decide (i = 0)) as [->|]; [by rewrite H0|]. destruct (decide (i = 1)) as [->|]; [by rewrite H1|].
    rewrite (is_u_testbit 2 (Z.lor _ _) i) by (done || lia). apply andb_false_r.
Qed.

Lemma safe_switch b label pc mcycle insn :
  label_fits pmas ev (insn_get_rd insn) label = true -> Z.even pc = true -> safe b (INSN_SWITCH pmas ev label pc mcycle insn) good.
Proof.
  unfold label_fits. intros [Hl Hrd]%andb_true_iff Hpc. unfold INSN_SWITCH.
  destruct (listed_find _ _ _ Hl) as ((label' & run) & -> & Hin & Elabel).
  pose proof (insn_cases_safe Hrel pmas Hpmas m0 ev) as Hs. rewrite Forall_forall in Hs.
  apply (Hs (label', run)); [by apply list_elem_of_In|done|]. cbn [fst] in *. subst label'. intros Hn. rewrite Hn in Hrd.
  by apply Z.eqb_neq, negb_true_iff.
Qed.

#[local] Opaque insn_jumptable.
Lemma safe_execute_insn b pc mcycle insn : Z.even pc = true -> safe b (execute_insn pmas ev pc mcycle insn) good.
Proof. intros Hpc. unfold execute_insn. apply safe_switch; [apply label_runs|done]. Qed.

(** ** Fetch *)

Lemma safe_fetch_slow b pc vaddr page Q :
  Z.even pc = true -> (forall t pc' page', Z.even pc' = true -> Q (t, pc', page') b) ->
  safe b (fetch_translate_pc_slow pmas pc vaddr page) Q.
Proof.
  intros Hpc HQ. unfold fetch_translate_pc_slow. safe_steps using (idtac; lazymatch goal with
  | |- safe _ (raise_exception _ _ _) _ => apply safe_raise_exception
  | |- safe _ (translate_virtual_address _ _ _ _) _ => apply (safe_translate pmas Hpmas)
  | |- safe _ (find_pma _ _ _) _ => apply (safe_find_pma pmas Hpmas); intros ? ? _
  | |- safe _ (replace_tlb_entry _ _ _ _) _ => apply safe_replace_tlb; [solve_reg|]
  end); by apply HQ.
Qed.

Lemma safe_fetch_translate b pc vaddr page Q :
  Z.even pc = true -> (forall t pc' page', Z.even pc' = true -> Q (t, pc', page') b) ->
  safe b (fetch_translate_pc pmas pc vaddr page) Q.
Proof.
  intros Hpc HQ. unfold fetch_translate_pc. safe_steps using (idtac; lazymatch goal with
  | |- safe _ (fetch_translate_pc_slow _ _ _ _) _ => apply safe_fetch_slow; [done|]
  | |- safe _ (read_shadow_tlb _ _ _) _ => apply safe_read_tlb
  end); by apply HQ.
Qed.

Lemma safe_fetch_insn b pc cache Q :
  Z.even pc = true -> (forall insn pc' cache', Z.even pc' = true -> Q (insn, pc', cache') b) ->
  safe b (fetch_insn pmas pc cache) Q.
Proof.
  intros Hpc HQ. unfold fetch_insn, fetch_insn_at. safe_steps using (idtac; lazymatch goal with
  | |- safe _ (fetch_translate_pc _ _ _ _) _ => apply safe_fetch_translate; [done|]
  | |- safe _ (read_memory_word _ _) _ => apply safe_read_memory
  end); by apply HQ.
Qed.

(** ** The loops *)

Definition pc_of (m : memory) : Z := mem_read m machine_reg.pc.
Definition mcycle_of (m : memory) : Z := mem_read m machine_reg.mcycle.

(** A status with which the loop returns. *)
Definition stops (status : execute_status) : Prop :=
  status = success_and_yield \/ status = success_and_halt \/ status = success_and_console_output \/ status = success_and_console_input.

(** The state in which the loop has returned with a status. *)
Definition returned (lo hi : Z) (status : execute_status) (b : bool) (m : memory) : Prop :=
  stops status /\ (status = success_and_halt -> b = true) /\ Z.even (pc_of m) = true /\ lo < mcycle_of m <= hi.

Definition advanced (lo hi : Z) (l : loop_state) : Prop := Z.even (lpc l) = true /\ lo < lmcycle l <= hi.

Definition ended (lo hi : Z) (r : round_end) (b : bool) (m : memory) : Prop :=
  match r with
  | round_done l | round_break l => advanced lo hi l
  | round_return status => returned lo hi status b m
  end.

Lemma ended_weaken lo lo' hi r b m : lo <= lo' -> ended lo' hi r b m -> ended lo hi r b m.
Proof. intros Hlo. unfold ended, advanced, returned. destruct r; intuition lia. Qed.

Lemma commit_run pc mcycle m :
  commit pc mcycle m = (Ret (), mem_write machine_reg.mcycle mcycle (mem_write machine_reg.pc pc m)).
Proof. done. Qed.

Lemma inv_commit b pc mcycle m : inv b m -> inv b (mem_write machine_reg.mcycle mcycle (mem_write machine_reg.pc pc m)).
Proof. intros Hm. do 2 (apply inv_write_reg; [solve_reg|]). done. Qed.

Lemma finish_round_run pc mcycle cache m :
  finish_round pc mcycle cache m = (Ret (round_done {| lpc := pc; lmcycle := uint64 (mcycle + 1); lcache := cache |}), m).
Proof. unfold finish_round. by rewrite Hrel. Qed.

Lemma inner_round_ok b l hi m :
  inv b m -> Z.even (lpc l) = true -> 0 <= lmcycle l < hi -> hi < 2 ^ 64 ->
  exists r b' m', inner_round pmas ev l m = (Ret r, m') /\ inv b' m' /\ ended (lmcycle l) (lmcycle l + 1) r b' m'.
Proof.
  intros Hm Hpc Hlo Hhi. assert (Hnext : uint64 (lmcycle l + 1) = lmcycle l + 1) by (apply uint64_id; unfold is_u; lia).
  unfold inner_round. cbv zeta. rewrite run_bind.
  destruct (safe_run b (fetch_insn pmas (lpc l) (lcache l)) (fun r b' => Z.even r.1.2 = true) m) as ([[fetched pc] cache] & b1 & m1 & -> & Hm1 & Hpc1);
    [by apply safe_fetch_insn|done|]. cbn [fst snd] in Hpc1. cbv beta iota.
  destruct fetched as [insn|].
  2:{ rewrite finish_round_run, Hnext. eexists _, b1, m1. do 2 (split; [done|]). split; [done|]. cbn. lia. }
  rewrite run_bind. destruct (safe_run b1 _ _ m1 (safe_execute_insn b1 pc (lmcycle l) insn Hpc1) Hm1) as ([status pc'] & b2 & m2 & -> & Hm2 & Hpc2 & Hst).
  cbn [fst snd] in *. cbv beta iota.
  assert (Hdone : forall cache', ended (lmcycle l) (lmcycle l + 1) (round_done {| lpc := pc'; lmcycle := lmcycle l + 1; lcache := cache' |}) b2 m2)
    by (intros; split; cbn; [done|lia]).
  destruct (execute_status_value success <? _) eqn:E1; [|rewrite finish_round_run, Hnext; by eexists _, b2, m2].
  destruct (_ <=? execute_status_value status) eqn:E2; [|rewrite finish_round_run, Hnext; by eexists _, b2, m2].
  rewrite Hnext. case_bool_decide as Hs.
  { eexists _, b2, m2. do 2 (split; [reflexivity || done|]). exact (Hdone _). }
  rewrite run_bind, commit_run. cbv beta iota. eexists _, b2, _. split; [reflexivity|]. split; [by apply inv_commit|].
  split; [|split; [done|]].
  - unfold stops. destruct status; cbn in E1, E2; (done || auto).
  - unfold pc_of, mcycle_of. hart_simpl. rewrite even_uint64. split; [done|]. rewrite uint64_id by (unfold is_u; lia). lia.
Qed.

(** The inner loop stops at [tick_end] or before; it never runs out of fuel. *)
Lemma inner_loop_ok fuel tick_end b l m :
  inv b m -> Z.even (lpc l) = true -> 0 <= lmcycle l <= tick_end -> tick_end < 2 ^ 64 -> tick_end - lmcycle l <= Z.of_nat fuel ->
  exists r b' m', inner_loop pmas ev fuel tick_end l m = (Ret (Some r), m') /\ inv b' m' /\
    (lmcycle l < tick_end -> ended (lmcycle l) tick_end r b' m') /\
    (lmcycle l = tick_end -> r = round_done l).
Proof.
  revert b l m. induction fuel as [|fuel IH]; intros b l m Hm Hpc Hl Ht Hf; cbn [inner_loop]; destruct (lmcycle l <? tick_end) eqn:E;
    rewrite ?Z.ltb_lt, ?Z.ltb_ge in E; try lia.
  1,3: eexists _, b, m; split; [done|]; split; [done|]; split; intros; [lia|done].
  rewrite run_bind. destruct (inner_round_ok b l tick_end m Hm Hpc ltac:(lia) Ht) as (r & b1 & m1 & -> & Hm1 & Hr). cbv beta iota.
  destruct r as [l1|l1|status].
  - destruct Hr as [Hpc1 Hl1]. destruct (IH b1 l1 m1 Hm1 Hpc1 ltac:(lia) Ht ltac:(lia)) as (r & b2 & m2 & -> & Hm2 & Hr & Hd).
    exists r, b2, m2. split; [done|]. split; [done|]. split; [|lia]. intros _. destruct (decide (lmcycle l1 = tick_end)) as [Heq|].
    + rewrite (Hd Heq). split; [done|lia].
    + apply (ended_weaken _ (lmcycle l1)); [lia|]. apply Hr. lia.
  - eexists _, b1, m1. split; [done|]. split; [done|]. split; [|lia]. intros _. cbn in *. unfold advanced in *. intuition lia.
  - eexists _, b1, m1. split; [done|]. split; [done|]. split; [|lia]. intros _. cbn in *. unfold returned in *. intuition lia.
Qed.

(** The end of the tick is ahead, and not after the target. *)
Lemma mcycle_tick_end_ok mcycle_end mcycle m :
  0 <= mcycle < mcycle_end -> mcycle_end < 2 ^ 64 ->
  exists t, mcycle_tick_end ev mcycle_end mcycle m = (Ret t, m) /\ mcycle < t <= mcycle_end.
Proof.
  intros Hm He. unfold mcycle_tick_end. destruct ev.
  - rewrite run_bind. change (read_clint_mtimecmp m) with (@Ret Z (mem_read m machine_reg.clint_mtimecmp), m). cbv beta iota.
    set (mtimecmp := mem_read m machine_reg.clint_mtimecmp). destruct (_ && _ && _) eqn:E; (eexists; split; [reflexivity|]); [|lia].
    rewrite !andb_true_iff, Z.ltb_lt, Z.leb_le in E. destruct E as [[_ E1] E2]. unfold rtc_cycle_to_time, rtc_time_to_cycle, RTC_FREQ_DIV in *.
    assert (mtimecmp * 8192 <= 2 ^ 64 - 1) by (pose proof (Z.mul_div_le (2 ^ 64 - 1) 8192 ltac:(lia)); lia).
    pose proof (Z.div_mod mcycle 8192 ltac:(lia)). pose proof (Z.mod_pos_bound mcycle 8192 ltac:(lia)).
    unfold uint64. rewrite uwrap_small by (unfold is_u; lia). lia.
  - eexists. split; [reflexivity|]. unfold RTC_FREQ_DIV. pose proof (Z.mod_pos_bound mcycle 8192 ltac:(lia)).
    unfold uint64. rewrite (uwrap_small 64 (mcycle_end - mcycle)) by (unfold is_u; lia). rewrite uwrap_small by (unfold is_u; lia). lia.
Qed.

Lemma serve_interrupts_ok b l m :
  inv b m -> Z.even (lpc l) = true ->
  exists l' b' m', serve_interrupts ev l m = (Ret l', m') /\ inv b' m' /\ Z.even (lpc l') = true /\ lmcycle l' = lmcycle l.
Proof.
  intros Hm Hpc. apply (safe_run b _ (fun l' b' => Z.even (lpc l') = true /\ lmcycle l' = lmcycle l)); [|done].
  unfold serve_interrupts. rewrite Hrel. safe_steps using (idtac; lazymatch goal with
  | |- safe _ (set_rtc_interrupt _ _) _ => apply safe_set_rtc_interrupt
  | |- safe _ (raise_interrupt_if_any _ _) _ => apply safe_raise_interrupt; [done|done|]
  end); done.
Qed.

(** How [interpret_loop] ends. *)
Definition loop_ended (lo hi : Z) (status : execute_status) (b : bool) (m : memory) : Prop :=
  returned lo hi status b m \/ status = success /\ Z.even (pc_of m) = true /\ mcycle_of m = hi.

Lemma outer_loop_ok fuel mcycle_end b l m :
  inv b m -> Z.even (lpc l) = true -> 0 <= lmcycle l <= mcycle_end -> mcycle_end < 2 ^ 64 -> mcycle_end - lmcycle l <= Z.of_nat fuel ->
  exists status b' m', outer_loop pmas ev fuel mcycle_end l m = (Ret (Some status), m') /\ inv b' m' /\
    loop_ended (lmcycle l) mcycle_end status b' m'.
Proof.
  revert b l m. induction fuel as [|fuel IH]; intros b l m Hm Hpc Hl He Hf; cbn [outer_loop]; destruct (lmcycle l <? mcycle_end) eqn:E;
    rewrite ?Z.ltb_lt, ?Z.ltb_ge in E; try lia.
  1,3: rewrite run_bind, commit_run; eexists _, b, _; split; [reflexivity|]; split; [by apply inv_commit|]; right; split; [done|];
    unfold pc_of, mcycle_of; hart_simpl; rewrite even_uint64, uint64_id by (unfold is_u; lia); split; [done|lia].
  rewrite run_bind. destruct (serve_interrupts_ok b l m Hm Hpc) as (l1 & b1 & m1 & -> & Hm1 & Hpc1 & Hl1). cbv beta iota.
  rewrite run_bind, Hl1. destruct (mcycle_tick_end_ok mcycle_end (lmcycle l) m1 ltac:(lia) He) as (t & -> & Ht). cbv beta iota.
  rewrite run_bind. destruct (inner_loop_ok (Z.to_nat (t - lmcycle l)) t b1 l1 m1 Hm1 Hpc1 ltac:(lia) ltac:(lia) ltac:(lia)) as (r & b2 & m2 & -> & Hm2 & Hr & _).
  specialize (Hr ltac:(lia)). rewrite Hl1 in Hr. cbv beta iota.
  assert (Hnext : forall l2, advanced (lmcycle l) t l2 -> exists status b' m', outer_loop pmas ev fuel mcycle_end l2 m2 = (Ret (Some status), m') /\
    inv b' m' /\ loop_ended (lmcycle l) mcycle_end status b' m').
  { intros l2 [Hpc2 Hl2]. destruct (IH b2 l2 m2 Hm2 Hpc2 ltac:(lia) He ltac:(lia)) as (status & b3 & m3 & E3 & Hm3 & H3).
    exists status, b3, m3. do 2 (split; [done|]). unfold loop_ended, returned in *. intuition lia. }
  destruct r as [l2|l2|status]; [by apply Hnext|by apply Hnext|].
  eexists _, b2, m2. do 2 (split; [done|]). left. cbn in Hr. unfold returned in *. intuition lia.
Qed.

Lemma interpret_loop_ok mcycle_end mcycle b m :
  inv b m -> 0 <= mcycle <= mcycle_end -> mcycle_end < 2 ^ 64 ->
  exists status b' m', interpret_loop pmas ev mcycle_end mcycle m = (Ret (Some status), m') /\ inv b' m' /\
    loop_ended mcycle mcycle_end status b' m'.
Proof.
  intros Hm Hc He. unfold interpret_loop. rewrite run_bind.
  change (read_pc m) with (@Ret Z (pc_of m), m). cbv beta iota. rewrite run_bind.
  destruct (safe_run b (if negb (Z.land (pc_of m) 1 =? 0) then raise_exception (pc_of m) MCAUSE_INSN_ADDRESS_MISALIGNED (pc_of m) else mret (pc_of m))
    (fun pc b' => Z.even pc = true) m) as (pc & b1 & m1 & -> & Hm1 & Hpc1); [|done|].
  { destruct (Z.land (pc_of m) 1 =? 0) eqn:E; cbn [negb]; [apply safe_ret|by apply safe_raise_exception].
    apply Z.eqb_eq in E. change 1 with (Z.ones 1) in E. rewrite Z.land_ones in E by lia. rewrite Zeven_mod. by apply Z.eqb_eq. }
  cbv beta iota. by apply (outer_loop_ok _ _ b1); cbn; [..|lia].
Qed.
End interpreter.

(** ** Runs *)

Definition x0_of (m : memory) : Z := mem_read m (x_address 0).
Definition X_of (m : memory) : Z := mem_read m machine_reg.iflags_X.
Definition Y_of (m : memory) : Z := mem_read m machine_reg.iflags_Y.
Definition H_of (m : memory) : Z := mem_read m machine_reg.iflags_H.

(** The machine is not stopped and its target is ahead. *)
Definition can_run (mcycle_end : Z) (m : memory) : Prop := H_of m = 0 /\ Y_of m = 0 /\ mcycle_of m < mcycle_end.

(** What a reason to stop says about the state. *)
Definition explains (mcycle_end : Z) (reason : interpreter_break_reason) (m : memory) : Prop :=
  match reason with
  | halted => H_of m <> 0
  | yielded_manually => H_of m = 0 /\ Y_of m <> 0
  | yielded_automatically => H_of m = 0 /\ Y_of m = 0 /\ X_of m <> 0
  | yielded_softly | console_output | console_input => H_of m = 0 /\ Y_of m = 0 /\ X_of m = 0
  | reached_target_mcycle => H_of m = 0 /\ Y_of m = 0 /\ mcycle_end <= mcycle_of m
  | failed => False
  end.

(** The part of [interpret] that finds the reason. *)
Lemma interpret_reason {cfg : BuildConfig} mcycle_end lo status b m :
  NDEBUG = true -> (b = true -> H_of m <> 0) -> loop_ended lo mcycle_end status b m ->
  exists reason, (H ← read_iflags_H;
      if negb (H =? 0) then mret (Some halted) else
      Y ← read_iflags_Y;
      if negb (Y =? 0) then mret (Some yielded_manually) else
      X ← read_iflags_X;
      if negb (X =? 0) then mret (Some yielded_automatically) else
      if bool_decide (status = success_and_yield) then mret (Some yielded_softly) else
      if bool_decide (status = success_and_console_output) then mret (Some console_output) else
      if bool_decide (status = success_and_console_input) then mret (Some console_input) else
      (if NDEBUG then mret () else
         mcycle ← read_mcycle;
         if mcycle =? mcycle_end then mret () else throw (assertion_failed "a.read_mcycle() == mcycle_end")) ;;
      mret (Some reached_target_mcycle)) m = (Ret (Some reason), m) /\ explains mcycle_end reason m.
Proof.
  intros Hrel Hb Hend. rewrite run_bind. change (read_iflags_H m) with (@Ret Z (H_of m), m). cbv beta iota.
  destruct (Z.eqb_spec (H_of m) 0) as [HH|HH]; cbn [negb]; [|by exists halted].
  rewrite run_bind. change (read_iflags_Y m) with (@Ret Z (Y_of m), m). cbv beta iota.
  destruct (Z.eqb_spec (Y_of m) 0) as [HY|HY]; cbn [negb]; [|by exists yielded_manually].
  rewrite run_bind. change (read_iflags_X m) with (@Ret Z (X_of m), m). cbv beta iota.
  destruct (Z.eqb_spec (X_of m) 0) as [HX|HX]; cbn [negb]; [|by exists yielded_automatically].
  rewrite Hrel. destruct Hend as [([->|[->|[->| ->]]] & Hhalt & _)|(-> & _ & Hc)]; cbn.
  - by exists yielded_softly. - by destruct Hb; [apply Hhalt|]. - by exists console_output. - by exists console_input.
  - exists reached_target_mcycle. cbn. repeat split; try done. lia.
Qed.

Lemma interpret_ok {cfg : BuildConfig} pmas ev mcycle_end m :
  NDEBUG = true -> Forall range_ok pmas -> is_u 64 mcycle_end -> x0_of m = 0 ->
  exists reason b m', interpret pmas ev mcycle_end m = (Ret (Some reason), m') /\ inv pmas m b m' /\ explains mcycle_end reason m' /\
    (~ can_run mcycle_end m -> m' = m) /\
    (can_run mcycle_end m -> mcycle_of m < mcycle_of m' <= mcycle_end /\ Z.even (pc_of m') = true).
Proof.
  intros Hrel Hp He Hx. assert (Hm : inv pmas m false m) by done. unfold interpret, can_run.
  rewrite run_bind. change (read_mcycle m) with (@Ret Z (mcycle_of m), m). cbv beta iota.
  rewrite run_bind. change (read_iflags_H m) with (@Ret Z (H_of m), m). cbv beta iota.
  destruct (Z.eqb_spec (H_of m) 0) as [HH|HH]; cbn [negb].
  2:{ exists halted, false, m. repeat split; try done; tauto. }
  rewrite run_bind. change (read_iflags_Y m) with (@Ret Z (Y_of m), m). cbv beta iota.
  destruct (Z.eqb_spec (Y_of m) 0) as [HY|HY]; cbn [negb].
  2:{ exists yielded_manually, false, m. repeat split; try done; tauto. }
  destruct (Z.leb_spec mcycle_end (mcycle_of m)) as [Hc|Hc].
  { exists reached_target_mcycle, false, m. repeat split; try done; lia. }
  rewrite run_bind. set (m1 := mem_write machine_reg.iflags_X 0 m). change (write_iflags_X 0 m) with (@Ret unit (), m1). cbv beta iota.
  assert (Hm1 : inv pmas m false m1) by (apply inv_write_reg; [solve_reg|done]).
  pose proof (word_at_range m (word_index machine_reg.mcycle)) as Hmc. fold (mem_read m machine_reg.mcycle) (mcycle_of m) in Hmc. unfold is_u in Hmc, He.
  rewrite run_bind. destruct (interpret_loop_ok Hrel pmas Hp m ev mcycle_end (mcycle_of m) false m1 Hm1 ltac:(lia) ltac:(lia)) as (status & b & m2 & -> & Hm2 & Hend).
  cbv beta iota. destruct (interpret_reason mcycle_end (mcycle_of m) status b m2 Hrel (proj1 (proj2 Hm2)) Hend) as (reason & -> & Hr).
  exists reason, b, m2. do 3 (split; [done|]). split; [intros []; tauto|]. intros _.
  destruct Hend as [(_ & _ & ? & ?)|(_ & ? & ?)]; split; try done; lia.
Qed.
