(* ===== verification/InterpretProofs.v ===== *)
(** * Runs of the interpreter: theorems

    For builds without assertions.  With them the interpreter also stops at
    an assertion that does not hold. *)

From S2P Require Import Prelude Bits Shadow SolidityCompat HashTree Memory Machine Samples Riscv Hart Trap HartFacts PageTableProofs Interpreter HartSafety InterpretSafety.

Section runs.
Context {cfg : BuildConfig} (Hrel : NDEBUG = true) (pmas : list address_range) (Hpmas : Forall range_ok pmas) (ev : bool).
Context (mcycle_end : Z) (Hend : is_u 64 mcycle_end) (m : memory) (Hx0 : x0_of m = 0).


(** C20: The registers stay well-formed. Whatever the program does, interpret leaves x0 zero, and the program counter aligned to 16 bits when it was, as the C extension needs; when it ran at all the program counter is aligned even if it was not before. *)
Theorem interpret_registers_wf o m' :
  interpret pmas ev mcycle_end m = (o, m') ->
  x0_of m' = 0 /\ (Z.even (pc_of m) = true \/ can_run mcycle_end m -> Z.even (pc_of m') = true).
Proof.
  intros E. destruct (interpret_ok pmas ev mcycle_end m Hrel Hpmas Hend Hx0) as (reason & b & m1 & E1 & (Hx & _) & _ & Hno & Hyes).
  rewrite E in E1. injection E1 as _ ->. split; [done|]. intros [Heven|Hc]; [|by apply Hyes].
  destruct (decide (H_of m = 0 /\ Y_of m = 0 /\ mcycle_of m < mcycle_end)) as [Hc|Hc]; [by apply Hyes|by rewrite Hno].
Qed.

End runs.

(** ** Witnesses: user mode with page tables, and the program counter at 0 *)

Lemma sample_ram_ok : Forall range_ok [sample_ram].
Proof. repeat constructor; by vm_compute. Qed.

Lemma is_u_100 : is_u 64 100.
Proof. done. Qed.
Lemma sample_x0 : x0_of sample_paged_hart = 0.
Proof. vm_compute. reflexivity. Qed.
Lemma sample_can_run : can_run 100 sample_paged_hart.
Proof. unfold can_run. split; [|split]; vm_compute; reflexivity. Qed.


Lemma interpret_registers_wf_witness :
  let m' := snd (@interpret release_build [sample_ram] true 100 sample_paged_hart) in x0_of m' = 0 /\ Z.even (pc_of m') = true.
Proof.
  pose proof (@interpret_registers_wf release_build eq_refl [sample_ram] sample_ram_ok true 100 is_u_100 sample_paged_hart sample_x0
    _ _ (surjective_pairing _)) as [Hx Hpc].
  exact (conj Hx (Hpc (or_intror sample_can_run))).
Defined.

