(* ===== verification/StepLog.v ===== *)
(** * Step logs (src/record-step-state-access.hpp, src/replay-step-state-access.hpp)

    A step log holds the pages that an execution of the big machine touches,
    as they were before it, and the hashes of the hash tree that are missing
    to find the root from these pages.  This file has the format of the log,
    what is recorded in it, and how the root hash is found from it. *)

From S2P Require Import Prelude Shadow HashTree Memory Machine Keccak256 VariantHasher.

Definition AR_LOG2_PAGE_SIZE : Z := 12.
Definition HASH_TREE_LOG2_PAGE_SIZE : Z := 12.
Definition sizeof_uint64 : Z := 8.
(** [sizeof(page_type)], which is packed: index, data and hash. *)
Definition sizeof_page_type : Z := sizeof_uint64 + AR_PAGE_SIZE + MACHINE_HASH_SIZE.

(** The hashes of a log: each hash function that a log can name, and the
    bytes of a hash.  In the program a hash is its bytes. *)
Class StepHash (H : Type) := {
  variant_hasher_of : hash_function_type -> IHasher H;
  hash_of_bytes : list Z -> H;
  bytes_of_hash : H -> list Z;
  step_hash_eq_dec :: EqDecision H
}.

#[export] Instance machine_step_hash : StepHash (list Z) := {|
  variant_hasher_of := variant_IHasher;
  hash_of_bytes bs := bs;
  bytes_of_hash h := h;
  step_hash_eq_dec := _
|}.

(** ** The log *)
Section log.
Context `{StepHash H}.

Record page_type := {
  page_index : Z;
  page_data : list Z;
  page_hash : H
}.

(** What the constructor of the replay reads; [pages] is an array that the
    replay changes in place, of which [next_page] and the like are indices. *)
Record step_log := {
  logged_root_hash_before : H;
  logged_mcycle_count : Z;
  logged_root_hash_after : H;
  log_hash_function : hash_function_type;
  pages : list page_type;
  sibling_hashes : list H
}.

Definition page_count (log : step_log) : Z := Z.of_nat (length (pages log)).
Definition sibling_count (log : step_log) : Z := Z.of_nat (length (sibling_hashes log)).

Definition set_pages (ps : list page_type) (log : step_log) : step_log :=
  {| logged_root_hash_before := logged_root_hash_before log; logged_mcycle_count := logged_mcycle_count log;
     logged_root_hash_after := logged_root_hash_after log; log_hash_function := log_hash_function log;
     pages := ps; sibling_hashes := sibling_hashes log |}.

(** ** The root hash of a log *)

(** [static void merkle_tree_hash] and [concat_hash] of the file. *)
Definition merkle_tree_hash (f : hash_function_type) (data : list Z) : outcome H :=
  @get_merkle_tree_hash H (variant_hasher_of f) data HASH_TREE_WORD_SIZE.
Definition log_concat_hash (f : hash_function_type) (left right : H) : H :=
  @concat_hash H (variant_hasher_of f) left right.

(** The loop of [compute_root_hash]: the hash of each page, in the page. *)
Fixpoint hash_pages (f : hash_function_type) (ps : list page_type) : outcome (list page_type) :=
  match ps with
  | [] => mret []
  | p :: ps =>
      h ← merkle_tree_hash f (page_data p);
      ps ← hash_pages f ps;
      mret ({| page_index := page_index p; page_data := page_data p; page_hash := h |} :: ps)
  end.

(** The sibling at [next_sibling], and the index after it. *)
Definition take_sibling (log : step_log) (next_sibling : nat) : outcome (H * nat) :=
  match sibling_hashes log !! next_sibling with
  | Some h => mret (h, S next_sibling)
  | None => Throw (runtime_error "too few sibling hashes in log")
  end.

(** Returns the hash of the range, with [next_page] and [next_sibling]. *)
Fixpoint compute_root_hash_impl (log : step_log) (range_index : Z) (log2_page_count : nat)
    (next_page next_sibling : nat) : outcome (H * nat * nat) :=
  let page_count := Z.shiftl 1 (Z.of_nat log2_page_count) in
  let skip := '(h, next_sibling) ← take_sibling log next_sibling; mret (h, next_page, next_sibling) in
  match pages log !! next_page with
  | None => skip
  | Some p =>
      if uint64 (range_index + page_count) <=? page_index p then skip
      else match log2_page_count with
           | S log2_page_count =>
               '(left_hash, next_page, next_sibling) ←
                 compute_root_hash_impl log range_index log2_page_count next_page next_sibling;
               let halfway_page_index := uint64 (range_index + Z.shiftr page_count 1) in
               '(right_hash, next_page, next_sibling) ←
                 compute_root_hash_impl log halfway_page_index log2_page_count next_page next_sibling;
               mret (log_concat_hash (log_hash_function log) left_hash right_hash, next_page, next_sibling)
           | O =>
               if page_index p =? range_index then mret (page_hash p, S next_page, next_sibling)
               else skip
           end
  end.

(** Log2 of the number of pages of the address space. *)
Definition LOG2_PAGES : nat := Z.to_nat (HASH_TREE_LOG2_ROOT_SIZE - AR_LOG2_PAGE_SIZE).

(** Returns the root hash and the log, whose pages have their hashes now. *)
Definition compute_root_hash (log : step_log) : outcome (H * step_log) :=
  ps ← hash_pages (log_hash_function log) (pages log);
  let log := set_pages ps log in
  '(root_hash, next_page, next_sibling) ← compute_root_hash_impl log 0 LOG2_PAGES 0 0;
  if negb (Z.of_nat next_page =? page_count log) then Throw (runtime_error "too many pages in log")
  else if negb (Z.of_nat next_sibling =? sibling_count log) then
    Throw (runtime_error "too many sibling hashes in log")
  else mret (root_hash, log).

(** ** Reading a log *)

Definition validate_and_advance_offset (max current elsize elcount : Z) : option Z :=
  let size := elsize * elcount in
  if 2 ^ 64 <=? size then None
  else
    let next := current + size in
    if 2 ^ 64 <=? next then None
    else if next <=? max then Some next else None.

(** The next offset, or the exception of the constructor. *)
Definition advance (max current elsize elcount : Z) (what : string) : outcome Z :=
  match validate_and_advance_offset max current elsize elcount with
  | Some next => mret next
  | None => Throw (runtime_error what)
  end.

Definition bytes_from (log_image : list Z) (offset size : Z) : list Z :=
  take (Z.to_nat size) (drop (Z.to_nat offset) log_image).
(** [aliased_aligned_read<uint64_t, uint8_t>(log_image + offset)] *)
Definition read_uint64 (log_image : list Z) (offset : Z) : Z := le_value (bytes_from log_image offset sizeof_uint64).
Definition read_hash (log_image : list Z) (offset : Z) : H := hash_of_bytes (bytes_from log_image offset MACHINE_HASH_SIZE).

(** The arrays that the pointers of the context are cast to. *)
Definition page_at (log_image : list Z) (offset : Z) : page_type := {|
  page_index := read_uint64 log_image offset;
  page_data := bytes_from log_image (offset + sizeof_uint64) AR_PAGE_SIZE;
  page_hash := read_hash log_image (offset + sizeof_uint64 + AR_PAGE_SIZE)
|}.
Definition pages_at (log_image : list Z) (offset count : Z) : list page_type :=
  map (fun i => page_at log_image (offset + i * sizeof_page_type)) (seqZ 0 count).
Definition hashes_at (log_image : list Z) (offset count : Z) : list H :=
  map (fun i => read_hash log_image (offset + i * MACHINE_HASH_SIZE)) (seqZ 0 count).

Definition all_zeros : H := hash_of_bytes (replicate (Z.to_nat MACHINE_HASH_SIZE) 0).

(** The loop over the pages; [previous] is the index of the page before. *)
Fixpoint check_pages (previous : option Z) (ps : list page_type) : outcome () :=
  match ps with
  | [] => mret ()
  | p :: ps =>
      if match previous with Some i => page_index p <=? i | None => false end then
        Throw (runtime_error "invalid log format: page index is not in increasing order")
      else if negb (bool_decide (page_hash p = all_zeros)) then
        Throw (runtime_error "invalid log format: page scratch hash area is not zero")
      else check_pages (Some (page_index p)) ps
  end.

Definition hash_function_of (temp_hash_function : Z) : outcome hash_function_type :=
  if temp_hash_function =? 0 then mret keccak256
  else if temp_hash_function =? 1 then mret sha256
  else Throw (runtime_error "invalid log format: unsupported hash function type").

(** The part of the constructor before the root hash is checked. *)
Definition parse_step_log (log_image : list Z) : outcome step_log :=
  let log_size := Z.of_nat (length log_image) in
  mcycle_count_offset ← advance log_size 0 MACHINE_HASH_SIZE 1 "root hash before past end of step log";
  root_hash_after_offset ← advance log_size mcycle_count_offset sizeof_uint64 1 "mcycle count past end of step log";
  hash_function_offset ← advance log_size root_hash_after_offset MACHINE_HASH_SIZE 1
                           "root hash after past end of step log";
  page_count_offset ← advance log_size hash_function_offset sizeof_uint64 1
                        "hash function type past end of step log";
  hash_function ← hash_function_of (read_uint64 log_image hash_function_offset);
  first_page_offset ← advance log_size page_count_offset sizeof_uint64 1 "page count past end of step log";
  let page_count := read_uint64 log_image page_count_offset in
  if page_count =? 0 then Throw (runtime_error "page count is zero")
  else
    sibling_count_offset ← advance log_size first_page_offset sizeof_page_type page_count
                             "page data past end of step log";
    first_sibling_offset ← advance log_size sibling_count_offset sizeof_uint64 1
                             "sibling count past end of step log";
    let sibling_count := read_uint64 log_image sibling_count_offset in
    end_offset ← advance log_size first_sibling_offset MACHINE_HASH_SIZE sibling_count
                   "sibling hashes past end of step log";
    if negb (end_offset =? log_size) then Throw (runtime_error "extra data at end of step log")
    else
      let pages := pages_at log_image first_page_offset page_count in
      check_pages None pages ;;
      mret {| logged_root_hash_before := read_hash log_image 0;
              logged_mcycle_count := read_uint64 log_image mcycle_count_offset;
              logged_root_hash_after := read_hash log_image root_hash_after_offset;
              log_hash_function := hash_function;
              pages := pages;
              sibling_hashes := hashes_at log_image first_sibling_offset sibling_count |}.

(** The check of the root hash that follows. *)
Definition open_step_log (log_image : list Z) : outcome step_log :=
  log ← parse_step_log log_image;
  '(computed_root_hash_before, log) ← compute_root_hash log;
  if negb (bool_decide (computed_root_hash_before = logged_root_hash_before log)) then
    Throw (runtime_error "initial root hash mismatch")
  else mret log.
End log.
Arguments page_type : clear implicits.
Arguments step_log : clear implicits.

(** ** Recording *)

(** [std::map]: the pages by address, in ascending order. *)
Abbreviation pages_type := (list (Z * list Z)).

Definition contains (address : Z) (touched_pages : pages_type) : bool :=
  existsb (fun p => p.1 =? address) touched_pages.

Fixpoint emplace (address : Z) (data : list Z) (touched_pages : pages_type) : pages_type :=
  match touched_pages with
  | [] => [(address, data)]
  | p :: rest => if address <? p.1 then (address, data) :: p :: rest else p :: emplace address data rest
  end.

Record record_context := {
  touched_pages : pages_type;
  m_m : machine
}.

Definition on_m {A} (f : M machine A) : M record_context A := fun s =>
  let '(r, m) := f (m_m s) in (r, {| touched_pages := touched_pages s; m_m := m |}).

Definition touch_page (address : Z) : M record_context () :=
  let page := Z.land address (not64 PAGE_OFFSET_MASK) in
  s ← get;
  if contains page (touched_pages s) then mret ()
  else
    data ← on_m (read_memory page AR_PAGE_SIZE);
    modify (fun s => {| touched_pages := emplace page data (touched_pages s); m_m := m_m s |}).

(** [MARCHID_INIT] and [MIMPID_INIT] as in Machine.v. *)
Definition log_read_reg (MARCHID_INIT MIMPID_INIT reg : Z) : M record_context Z :=
  touch_page (machine_reg_address reg 0) ;;
  on_m (read_reg MARCHID_INIT MIMPID_INIT reg).

Definition log_write_reg (reg val : Z) : M record_context () :=
  touch_page (machine_reg_address reg 0) ;;
  on_m (write_reg reg val).

Section record.
Context `{StepHash H} (hash_function : hash_function_type).

(** [next_page_index] is the list of the indices from the iterator to the
    end; the hashes are appended to [sibling_hashes]. *)
Fixpoint get_sibling_hashes_impl (range_index : Z) (page_count_log2_size : nat) (next_page_index : list Z)
    (sibling_hashes : list H) : M machine (list Z * list H) :=
  let page_count := Z.shiftl 1 (Z.of_nat page_count_log2_size) in
  let push :=
    h ← @get_node_hash H (variant_hasher_of hash_function) (uint64 (Z.shiftl range_index HASH_TREE_LOG2_PAGE_SIZE))
          (Z.of_nat page_count_log2_size + HASH_TREE_LOG2_PAGE_SIZE);
    mret (next_page_index, sibling_hashes ++ [h]) in
  match next_page_index with
  | [] => push
  | index :: rest =>
      if uint64 (range_index + page_count) <=? index then push
      else match page_count_log2_size with
           | S log2_size =>
               '(next_page_index, sibling_hashes) ←
                 get_sibling_hashes_impl range_index log2_size next_page_index sibling_hashes;
               get_sibling_hashes_impl (uint64 (range_index + Z.shiftl 1 (Z.of_nat log2_size))) log2_size
                 next_page_index sibling_hashes
           | O => mret (rest, sibling_hashes)
           end
  end.

Definition get_sibling_hashes : M record_context (list H) :=
  s ← get;
  let page_indices := map (fun p => Z.shiftr p.1 HASH_TREE_LOG2_PAGE_SIZE) (touched_pages s) in
  '(next_page_index, sibling_hashes) ←
    on_m (get_sibling_hashes_impl 0 (Z.to_nat (HASH_TREE_LOG2_ROOT_SIZE - HASH_TREE_LOG2_PAGE_SIZE)) page_indices []);
  match next_page_index with
  | [] => mret sibling_hashes
  | _ => throw (runtime_error "get_sibling_hashes failed to consume all pages")
  end.

(** The number that stands for the hash function in the log. *)
Definition hash_function_code (f : hash_function_type) : Z := match f with keccak256 => 0 | sha256 => 1 end.

Definition page_image (p : Z * list Z) : list Z :=
  le_bytes 8 (Z.shiftr p.1 HASH_TREE_LOG2_PAGE_SIZE) ++ p.2 ++ replicate (Z.to_nat MACHINE_HASH_SIZE) 0.

(** The bytes that [finish] writes to the file. *)
Definition finish_recording (root_hash_before : H) (mcycle_count : Z) (root_hash_after : H)
    : M record_context (list Z) :=
  sibling_hashes ← get_sibling_hashes;
  s ← get;
  let page_count := Z.of_nat (length (touched_pages s)) in
  let sibling_count := Z.of_nat (length sibling_hashes) in
  mret (bytes_of_hash root_hash_before ++ le_bytes 8 mcycle_count ++ bytes_of_hash root_hash_after ++
        le_bytes 8 (hash_function_code hash_function) ++
        le_bytes 8 page_count ++ mjoin (map page_image (touched_pages s)) ++
        le_bytes 8 sibling_count ++ mjoin (map bytes_of_hash sibling_hashes)).
End record.
