(* ===== verification/StepLogFacts.v ===== *)
(** * Facts about step logs

    The hash of a page as a node of the hash tree, the siblings that a set of
    pages needs (the frontier), and the root hash that a log leads to: it is
    that of the memory with the pages of the log, and with an ideal hash there
    is no other log for it.  The format of logs, both ways, and what a
    recording writes. *)

From S2P Require Import Prelude Bits Shadow HashTree Memory Machine MachineFacts Keccak256 Sha256 VariantHasher HashProofs Samples StepLog.
From Stdlib Require Import Sorted.

(** ** Hashing a buffer is a tree *)
Section buffer.
Context `{IHasher H}.

Definition chunk (data : list Z) (i : Z) : list Z := take 32 (drop (Z.to_nat (32 * i)) data).

Lemma in_node_bounds n i j : in_node n i j <-> i * 2 ^ Z.of_nat n <= j < (i + 1) * 2 ^ Z.of_nat n.
Proof.
  unfold in_node. pose proof (pow2_pos (Z.of_nat n)).
  split; intros Hj; [|symmetry; apply Z.div_unique with (j - i * 2 ^ Z.of_nat n); nia].
  pose proof (Z.div_mod j (2 ^ Z.of_nat n)). pose proof (Z.mod_pos_bound j (2 ^ Z.of_nat n)). nia.
Qed.

Lemma pow2_nat n : Z.of_nat (2 ^ n) = 2 ^ Z.of_nat n.
Proof. rewrite Nat2Z.inj_pow. done. Qed.

Lemma get_merkle_tree_hash_rec_node fuel n data :
  length data = (32 * 2 ^ n)%nat -> (n <= fuel)%nat ->
  get_merkle_tree_hash_rec fuel data 32 = Ret (node (fun i => hash (chunk data i)) n 0).
Proof.
  revert fuel data. induction n as [|n IH]; intros fuel data Hl Hf.
  - change (32 * 2 ^ 0)%nat with 32%nat in Hl.
    assert (Hc : chunk data 0 = data) by (unfold chunk; rewrite drop_0, take_ge by lia; done).
    destruct fuel; cbn [get_merkle_tree_hash_rec node]; by rewrite Hl, Hc.
  - destruct fuel as [|fuel]; [lia|]. cbn [get_merkle_tree_hash_rec]. 
    assert (Hp : (1 <= 2 ^ n)%nat) by (pose proof (Nat.pow_nonzero 2 n); lia).
    assert (Hsize : Z.of_nat (length data) = Z.of_nat (32 * 2 ^ n) * 2) by (rewrite Hl, Nat.pow_succ_r'; lia).
    rewrite (proj2 (Z.ltb_lt _ _)) by lia.
    assert (E : Z.land (Z.of_nat (length data)) 1 = 0).
    { change 1 with (Z.ones 1). rewrite Z.land_ones, Hsize by lia. apply Z.mod_mul. done. }
    rewrite E. cbn [negb Z.eqb]. rewrite Hsize, Z.shiftr_div_pow2 by lia. change (2 ^ 1) with 2.
    rewrite Z.div_mul, Nat2Z.id by done.
    rewrite !IH by (rewrite ?length_take, ?length_drop; lia). cbn [mbind outcome_bind]. unfold mret, outcome_ret. f_equal. cbn [node].
    f_equal.
    + apply node_ext. intros j Hj%in_node_bounds. f_equal. unfold chunk.
      rewrite <-pow2_nat in Hj. rewrite !take_drop_commute, take_take. do 2 f_equal. lia.
    + change (2 * 0 + 1) with (0 + 1). rewrite <-(node_shift _ n 1). apply node_ext. intros j Hj%in_node_bounds.
      rewrite <-pow2_nat in *. f_equal. unfold chunk. rewrite drop_drop. do 2 f_equal. lia.
Qed.

Lemma node_node (leaf : Z -> H) k n i : node (node leaf k) n i = node leaf (k + n) i.
Proof.
  revert i. induction n as [|n IH]; intros i; [by rewrite Nat.add_0_r|].
  rewrite Nat.add_succ_r. cbn [node]. by rewrite !IH.
Qed.

Lemma node_inj `{!CollisionFree H} (leaf leaf' : Z -> H) n i j :
  node leaf n i = node leaf' n i -> in_node n i j -> leaf j = leaf' j.
Proof.
  revert i. induction n as [|n IH]; intros i E Hj.
  - unfold in_node in Hj. rewrite Z.div_1_r in Hj. by subst.
  - cbn [node] in E. apply concat_hash_inj in E as [E1 E2].
    apply in_node_bounds in Hj. rewrite Nat2Z.inj_succ, Z.pow_succ_r in Hj by lia.
    destruct (decide (j < (2 * i + 1) * 2 ^ Z.of_nat n)).
    + eapply IH; [exact E1|]. apply in_node_bounds. lia.
    + eapply IH; [exact E2|]. apply in_node_bounds. nia.
Qed.
End buffer.

(** ** Pages *)

Definition page_bytes (m : memory) (p : Z) : list Z := bytes_at m (4096 * p) 4096.

Lemma length_page_bytes m p : length (page_bytes m p) = 4096%nat.
Proof. unfold page_bytes. by rewrite length_bytes_at. Qed.

Lemma chunk_page_bytes m p i : 0 <= i < 128 -> chunk (page_bytes m p) i = leaf_bytes m (i + p * 2 ^ 7).
Proof.
  intros Hi. unfold chunk, page_bytes.
  replace 4096 with (32 * i + (32 + (4096 - 32 * i - 32))) at 2 by lia.
  rewrite <-!bytes_at_app by lia.
  rewrite drop_app_length' by (by rewrite length_bytes_at).
  rewrite take_app_length' by (by rewrite length_bytes_at). rewrite leaf_bytes_bytes. f_equal. lia.
Qed.

(** A page's data is made of its chunks. *)
Lemma chunks_eq data data' :
  length data = 4096%nat -> length data' = 4096%nat ->
  (forall i, 0 <= i < 128 -> chunk data i = chunk data' i) -> data = data'.
Proof.
  intros Hl Hl' Hc. apply list_eq. intros k. destruct (decide (k < 4096)%nat).
  2:{ rewrite !lookup_ge_None_2 by lia. done. }
  specialize (Hc (Z.of_nat k / 32)).
  pose proof (Z.div_mod (Z.of_nat k) 32 ltac:(lia)). pose proof (Z.mod_pos_bound (Z.of_nat k) 32 ltac:(lia)).
  assert (E : chunk data (Z.of_nat k / 32) = chunk data' (Z.of_nat k / 32)) by (apply Hc; lia).
  apply (f_equal (lookup (Z.to_nat (Z.of_nat k mod 32)))) in E. unfold chunk in E.
  rewrite !lookup_take_lt, !lookup_drop in E by lia.
  replace (Z.to_nat (32 * (Z.of_nat k / 32)) + Z.to_nat (Z.of_nat k mod 32))%nat with k in E by lia. done.
Qed.

Section page_hash.
Context `{IHasher H}.

(** The hash of page [p] of a memory. *)
Definition page_node (m : memory) : Z -> H := node (leaf m) 7.

Lemma page_merkle data :
  length data = 4096%nat -> get_merkle_tree_hash data 32 = Ret (node (fun i => hash (chunk data i)) 7 0).
Proof. intros Hl. unfold get_merkle_tree_hash. apply get_merkle_tree_hash_rec_node; rewrite Hl; [done|lia]. Qed.

Lemma node_chunks m p : node (fun i => hash (chunk (page_bytes m p) i)) 7 0 = page_node m p.
Proof.
  unfold page_node. transitivity (node (leaf m) 7 (0 + p)); [|by rewrite Z.add_0_l]. rewrite <-(node_shift _ 7 p).
  apply node_ext. intros j Hj%in_node_bounds. change (2 ^ Z.of_nat 7) with 128 in *.
  rewrite chunk_page_bytes by lia. done.
Qed.

Lemma page_merkle_bytes m p : get_merkle_tree_hash (page_bytes m p) 32 = Ret (page_node m p).
Proof. rewrite page_merkle by apply length_page_bytes. by rewrite node_chunks. Qed.

Lemma page_merkle_inj `{!CollisionFree H} data m p :
  length data = 4096%nat -> get_merkle_tree_hash data 32 = Ret (page_node m p) -> data = page_bytes m p.
Proof.
  intros Hl E. rewrite page_merkle, <-node_chunks in E by done. injection E as E.
  apply chunks_eq; [done | apply length_page_bytes|]. intros i Hi.
  assert (Hlen : forall d, length d = 4096%nat -> length (chunk d i) = 32%nat).
  { intros d Hd. unfold chunk. rewrite length_take, length_drop. lia. }
  apply hash_word_inj; [auto | apply Hlen, length_page_bytes|].
  apply (node_inj (fun i => hash (chunk data i)) (fun i => hash (chunk (page_bytes m p) i)) 7 0 i E).
  apply in_node_bounds. change (2 ^ Z.of_nat 7) with 128. lia.
Qed.

Lemma root_hash_of_pages m : root_hash_of m = node (page_node m) 52 0.
Proof. unfold root_hash_of, page_node. by rewrite node_node, TREE_DEPTH_value. Qed.
End page_hash.

Lemma page_bytes_ext m m' p :
  (forall w, in_node 9 p w -> word_at m w = word_at m' w) -> page_bytes m p = page_bytes m' p.
Proof.
  intros Hw. unfold page_bytes, bytes_at. apply map_ext_in. intros q Hq%list_elem_of_In%elem_of_seqZ.
  unfold byte_at, mem_read, word_index. rewrite (Hw (Z.shiftr q 3)); [done|].
  unfold in_node. rewrite Z.shiftr_div_pow2, Z.div_div by lia. symmetry.
  apply Z.div_unique with (q - 4096 * p); change (2 ^ 3 * 2 ^ Z.of_nat 9) with 4096; lia.
Qed.

(** ** The frontier

    The hashes of the largest ranges of pages that hold none of the pages
    [idxs], from left to right, within the node [j] of height [n]; and the
    pages that are left for the nodes after it. *)
Section frontier.
Context `{IHasher H}.

Fixpoint frontier (tree : Z -> H) (n : nat) (j : Z) (idxs : list Z) : list Z * list H :=
  match idxs with
  | [] => ([], [node tree n j])
  | i :: rest =>
      if (j + 1) * 2 ^ Z.of_nat n <=? i then (idxs, [node tree n j])
      else match n with
           | S n =>
               let l := frontier tree n (2 * j) idxs in
               let r := frontier tree n (2 * j + 1) l.1 in
               (r.1, l.2 ++ r.2)
           | O => (rest, [])
           end
  end.

Definition from (b : Z) (idxs : list Z) : Prop := Forall (Z.le b) idxs.

Lemma sorted_from_head b i rest : StronglySorted Z.lt (i :: rest) -> b <= i -> from b (i :: rest).
Proof.
  intros [_ Hi]%StronglySorted_inv Hb. constructor; [done|].
  eapply Forall_impl; [exact Hi|]. cbn. lia.
Qed.

Lemma half_bound n j : 2 * j * 2 ^ Z.of_nat n = j * 2 ^ Z.of_nat (S n) /\
  (2 * j + 1 + 1) * 2 ^ Z.of_nat n = (j + 1) * 2 ^ Z.of_nat (S n).
Proof. rewrite Nat2Z.inj_succ, Z.pow_succ_r by lia. split; ring. Qed.

(** What a node uses is in it, and what is left is after it. *)
Lemma frontier_used tree n j idxs :
  StronglySorted Z.lt idxs -> from (j * 2 ^ Z.of_nat n) idxs ->
  exists used, idxs = used ++ (frontier tree n j idxs).1 /\ Forall (in_node n j) used /\
    from ((j + 1) * 2 ^ Z.of_nat n) (frontier tree n j idxs).1.
Proof.
  assert (Hnone : forall n j idxs, from ((j + 1) * 2 ^ Z.of_nat n) idxs ->
    exists used, idxs = used ++ idxs /\ Forall (in_node n j) used /\ from ((j + 1) * 2 ^ Z.of_nat n) idxs).
  { intros n' j' l Hl. exists []. split; [done|]. split; [by apply Forall_nil|done]. }
  revert j idxs. induction n as [|n IH]; intros j [|i rest] Hs Hf; cbn [frontier];
    try (apply Hnone, Forall_nil; done);
    (destruct (_ <=? i) eqn:Ei; [apply Hnone, sorted_from_head; [done|by apply Z.leb_le]|apply Z.leb_gt in Ei]).
  - exists [i]. split; [done|]. apply Forall_cons in Hf as [Hi _]. split.
    + apply Forall_singleton, in_node_bounds. change (2 ^ Z.of_nat 0) with 1 in *. lia.
    + apply StronglySorted_inv in Hs as [_ Hs]. eapply Forall_impl; [exact Hs|].
      change (2 ^ Z.of_nat 0) with 1 in *. cbn. lia.
  - destruct (half_bound n j) as [E1 E2]. cbn [fst].
    destruct (IH (2 * j) (i :: rest)) as (u1 & Eu1 & Hu1 & Hf1); [done|by rewrite E1|].
    set (l := frontier tree n (2 * j) (i :: rest)) in *.
    assert (Hs1 : StronglySorted Z.lt l.1).
    { rewrite Eu1 in Hs. clear -Hs. induction u1; [done|]. apply StronglySorted_inv in Hs as [Hs _]. auto. }
    destruct (IH (2 * j + 1) l.1 Hs1 Hf1) as (u2 & Eu2 & Hu2 & Hf2).
    exists (u1 ++ u2). rewrite <-app_assoc, <-Eu2. split; [done|]. rewrite E2 in Hf2. split; [|done].
    pose proof (pow2_pos (Z.of_nat n)).
    apply Forall_app. split; (eapply Forall_impl; [eassumption|]); intros k Hk%in_node_bounds;
      apply in_node_bounds; rewrite <-E2, <-E1; nia.
Qed.

Lemma frontier_sorted tree n j idxs :
  StronglySorted Z.lt idxs -> from (j * 2 ^ Z.of_nat n) idxs -> StronglySorted Z.lt (frontier tree n j idxs).1.
Proof.
  intros Hs Hf. destruct (frontier_used tree n j idxs Hs Hf) as (u & Eu & _). rewrite Eu in Hs. clear -Hs.
  induction u; [done|]. apply StronglySorted_inv in Hs as [Hs _]. auto.
Qed.

(** The pages left do not depend on the hashes. *)
Lemma frontier_rest tree tree' n j idxs : (frontier tree n j idxs).1 = (frontier tree' n j idxs).1.
Proof.
  revert j idxs. induction n as [|n IH]; intros j [|i rest]; cbn [frontier]; try done; case_match; try done.
  cbn [fst]. by rewrite (IH (2 * j)), (IH (2 * j + 1)).
Qed.

(** All pages of the address space are used. *)
Lemma frontier_root tree n idxs :
  StronglySorted Z.lt idxs -> Forall (fun i => 0 <= i < 2 ^ Z.of_nat n) idxs -> (frontier tree n 0 idxs).1 = [].
Proof.
  intros Hs Hb. destruct (frontier_used tree n 0 idxs Hs) as (u & Eu & _ & Hf).
  - eapply Forall_impl; [exact Hb|]. cbn. lia.
  - destruct (frontier tree n 0 idxs).1 as [|i rest]; [done|]. exfalso.
    rewrite Eu in Hb. apply Forall_app in Hb as [_ Hb]. apply Forall_cons in Hb as [Hi _].
    apply Forall_cons in Hf as [Hf _]. lia.
Qed.

Lemma frontier_skip tree n j i rest :
  (j + 1) * 2 ^ Z.of_nat n <= i -> frontier tree n j (i :: rest) = (i :: rest, [node tree n j]).
Proof. intros. destruct n; cbn [frontier]; by rewrite (proj2 (Z.leb_le _ _)). Qed.

Lemma frontier_split tree n j i rest :
  i < (j + 1) * 2 ^ Z.of_nat (S n) ->
  frontier tree (S n) j (i :: rest) =
    ((frontier tree n (2 * j + 1) (frontier tree n (2 * j) (i :: rest)).1).1,
     (frontier tree n (2 * j) (i :: rest)).2 ++
     (frontier tree n (2 * j + 1) (frontier tree n (2 * j) (i :: rest)).1).2).
Proof. intros. cbn [frontier]. by rewrite (proj2 (Z.leb_gt _ _)). Qed.
End frontier.

(** ** The root hash of a log *)
Section root.
Context `{SH : StepHash H} (f : hash_function_type).
#[local] Instance f_hasher : IHasher H := variant_hasher_of f.
Implicit Types log : step_log H.

Definition indices (ps : list (page_type H)) : list Z := map page_index ps.

(** The sibling hash that a range takes. *)
Lemma take_sibling_next log ns h s :
  drop ns (sibling_hashes log) = h :: s -> take_sibling log ns = Ret (h, S ns) /\ drop (S ns) (sibling_hashes log) = s.
Proof.
  intros E. assert (Hl : sibling_hashes log !! ns = Some h).
  { replace ns with (ns + 0)%nat by lia. by rewrite <-lookup_drop, E. }
  unfold take_sibling. rewrite Hl. split; [done|]. rewrite (drop_S _ _ _ Hl) in E. congruence.
Qed.

Lemma take_sibling_Ret log ns h ns' :
  take_sibling log ns = Ret (h, ns') -> ns' = S ns /\ drop ns (sibling_hashes log) = h :: drop ns' (sibling_hashes log).
Proof.
  unfold take_sibling. destruct (sibling_hashes log !! ns) as [h'|] eqn:El; [|done]. intros [= -> <-].
  split; [done|]. by apply drop_S.
Qed.

(** The pages still to be visited. *)
Definition next_pages log np : list (page_type H) := drop np (pages log).

Lemma next_page_head log np p rest : next_pages log np = p :: rest -> pages log !! np = Some p /\ next_pages log (S np) = rest.
Proof.
  unfold next_pages. intros E. assert (Hl : pages log !! np = Some p).
  { replace np with (np + 0)%nat by lia. by rewrite <-lookup_drop, E. }
  split; [done|]. rewrite (drop_S _ _ _ Hl) in E. congruence.
Qed.

Lemma next_page_none log np : next_pages log np = [] -> pages log !! np = None.
Proof. unfold next_pages. intros E%(f_equal length). rewrite length_drop in E. apply lookup_ge_None_2. simpl in E. lia. Qed.

(** The three ways through a range. *)
Lemma range_end n j : 0 <= j -> (j + 1) * 2 ^ Z.of_nat n <= 2 ^ 63 ->
  uint64 (j * 2 ^ Z.of_nat n + Z.shiftl 1 (Z.of_nat n)) = (j + 1) * 2 ^ Z.of_nat n.
Proof.
  intros. pose proof (pow2_pos (Z.of_nat n)). rewrite Z.shiftl_mul_pow2, Z.mul_1_l by lia.
  unfold uint64. rewrite uwrap_small; [ring|]. unfold is_u. nia.
Qed.

Lemma impl_skip log n j np ns :
  0 <= j -> (j + 1) * 2 ^ Z.of_nat n <= 2 ^ 63 -> from ((j + 1) * 2 ^ Z.of_nat n) (indices (next_pages log np)) ->
  compute_root_hash_impl log (j * 2 ^ Z.of_nat n) n np ns =
    '(h, ns) ← take_sibling log ns; mret (h, np, ns).
Proof.
  intros Hj Hn Hf. destruct (next_pages log np) as [|p rest] eqn:Ep.
  - apply next_page_none in Ep. destruct n; cbn [compute_root_hash_impl]; by rewrite Ep.
  - apply next_page_head in Ep as [Ep _]. apply Forall_cons in Hf as [Hp _].
    destruct n; cbn [compute_root_hash_impl]; rewrite Ep, range_end by done; by rewrite (proj2 (Z.leb_le _ _)).
Qed.

Lemma impl_leaf log j np ns p rest :
  0 <= j -> j + 1 <= 2 ^ 63 -> next_pages log np = p :: rest -> page_index p = j ->
  compute_root_hash_impl log j 0 np ns = Ret (page_hash p, S np, ns).
Proof.
  intros Hj Hn Ep <-. apply next_page_head in Ep as [Ep _]. cbn [compute_root_hash_impl]. rewrite Ep.
  pose proof (range_end 0 (page_index p)) as E. change (2 ^ Z.of_nat 0) with 1 in E. rewrite !Z.mul_1_r in E.
  rewrite E by lia. rewrite (proj2 (Z.leb_gt _ _)), Z.eqb_refl by lia. done.
Qed.

Lemma impl_split log n j np ns p rest :
  0 <= j -> (j + 1) * 2 ^ Z.of_nat (S n) <= 2 ^ 63 -> next_pages log np = p :: rest ->
  page_index p < (j + 1) * 2 ^ Z.of_nat (S n) ->
  compute_root_hash_impl log (j * 2 ^ Z.of_nat (S n)) (S n) np ns =
    '(l, np, ns) ← compute_root_hash_impl log (2 * j * 2 ^ Z.of_nat n) n np ns;
    '(r, np, ns) ← compute_root_hash_impl log ((2 * j + 1) * 2 ^ Z.of_nat n) n np ns;
    mret (log_concat_hash (log_hash_function log) l r, np, ns).
Proof.
  intros Hj Hn Ep Hp. apply next_page_head in Ep as [Ep _].
  cbn [compute_root_hash_impl]. rewrite Ep, range_end by done. rewrite (proj2 (Z.leb_gt _ _)) by done.
  destruct (half_bound n j) as [E1 E2]. pose proof (pow2_pos (Z.of_nat n)).
  assert (Eh : uint64 (j * 2 ^ Z.of_nat (S n) + Z.shiftr (Z.shiftl 1 (Z.of_nat (S n))) 1) = (2 * j + 1) * 2 ^ Z.of_nat n).
  { rewrite Z.shiftr_shiftl_l by lia. replace (Z.of_nat (S n) - 1) with (Z.of_nat n) by lia.
    rewrite Z.shiftl_mul_pow2, <-E1 by lia. unfold uint64. rewrite uwrap_small; [ring|]. unfold is_u. nia. }
  by rewrite Eh, <-E1.
Qed.

Lemma indices_cons p ps : indices (p :: ps) = page_index p :: indices ps.
Proof. done. Qed.

(** The pages after a range are those the frontier leaves. *)
Lemma used_pages log np used rest :
  indices (next_pages log np) = used ++ rest -> indices (next_pages log (np + length used)) = rest.
Proof.
  unfold next_pages, indices. intros E. rewrite <-drop_drop. rewrite <-skipn_map, E. by rewrite drop_app_length.
Qed.

(** A range is skipped or has the next page. *)
Lemma range_cases log np b :
  StronglySorted Z.lt (indices (next_pages log np)) ->
  from b (indices (next_pages log np)) \/
  exists p rest, next_pages log np = p :: rest /\ page_index p < b.
Proof.
  destruct (next_pages log np) as [|p rest]; intros Hs; [left; apply Forall_nil; done|].
  destruct (decide (b <= page_index p)); [left; by apply sorted_from_head|]. right. exists p, rest. split; [done|lia].
Qed.

Lemma frontier_after (tree : Z -> H) n j idxs :
  from ((j + 1) * 2 ^ Z.of_nat n) idxs -> frontier tree n j idxs = (idxs, [node tree n j]).
Proof.
  destruct idxs as [|i rest]; intros Hf; [by destruct n|]. apply Forall_cons in Hf as [Hi _]. by apply frontier_skip.
Qed.

Lemma from_not_in n j idxs i : from ((j + 1) * 2 ^ Z.of_nat n) idxs -> in_node n j i -> i ∉ idxs.
Proof. intros Hf Hi%in_node_bounds Hin. unfold from in Hf. rewrite Forall_forall in Hf. specialize (Hf i Hin). lia. Qed.

Lemma in_half n j i b : 0 <= b <= 1 -> in_node n (2 * j + b) i -> in_node (S n) j i.
Proof.
  rewrite !in_node_bounds. intros Hb Hi. destruct (half_bound n j) as [<- <-]. pose proof (pow2_pos (Z.of_nat n)). nia.
Qed.

(** What it takes for a node to lead to its hash in [tree']. *)
Definition leads log (tree tree' : Z -> H) n j np ns s : Prop :=
  exists np' ns', compute_root_hash_impl log (j * 2 ^ Z.of_nat n) n np ns = Ret (node tree' n j, np', ns') /\
    indices (next_pages log np') = (frontier tree n j (indices (next_pages log np))).1 /\
    drop ns' (sibling_hashes log) = s /\ (np <= np')%nat.

Lemma skip_leads log tree tree' n j np ns s :
  0 <= j -> (j + 1) * 2 ^ Z.of_nat n <= 2 ^ 63 -> from ((j + 1) * 2 ^ Z.of_nat n) (indices (next_pages log np)) ->
  (forall i, in_node n j i -> i ∉ indices (next_pages log np) -> tree i = tree' i) ->
  drop ns (sibling_hashes log) = (frontier tree n j (indices (next_pages log np))).2 ++ s ->
  leads log tree tree' n j np ns s.
Proof.
  intros Hj Hn Hafter Ht Hd. unfold leads. rewrite impl_skip by done.
  rewrite frontier_after in * by done. cbn [fst snd app] in *.
  destruct (take_sibling_next _ _ _ _ Hd) as [-> Hd']. exists np, (S ns).
  split; [|split; [done|split; [done|lia]]]. cbn [mbind outcome_bind]. unfold mret, outcome_ret. do 3 f_equal.
  apply node_ext. intros i Hi. apply Ht; [done|]. by eapply from_not_in.
Qed.

(** With the siblings of a frontier of [tree], a log leads to the hash of
    the tree that has the hashes of the pages at their places. *)
Lemma impl_complete log tree tree' n j np ns s :
  log_hash_function log = f ->
  0 <= j -> (j + 1) * 2 ^ Z.of_nat n <= 2 ^ 63 ->
  StronglySorted Z.lt (indices (next_pages log np)) -> from (j * 2 ^ Z.of_nat n) (indices (next_pages log np)) ->
  Forall (fun p => page_hash p = tree' (page_index p)) (next_pages log np) ->
  (forall i, in_node n j i -> i ∉ indices (next_pages log np) -> tree i = tree' i) ->
  drop ns (sibling_hashes log) = (frontier tree n j (indices (next_pages log np))).2 ++ s ->
  leads log tree tree' n j np ns s.
Proof.
  intros Hf. revert j np ns s.
  induction n as [|n IH]; intros j np ns s Hj Hn Hs Hfr Hp Ht Hd;
    match goal with |- leads _ _ _ ?n _ _ _ _ =>
      destruct (range_cases log np ((j + 1) * 2 ^ Z.of_nat n) Hs) as [Hafter|(p & rest & Ep & Hlt)];
        [by apply skip_leads|] end; unfold leads.
  - change (2 ^ Z.of_nat 0) with 1 in *. rewrite Z.mul_1_r in *.
    assert (page_index p = j) as Ei.
    { rewrite Ep, indices_cons in Hfr. apply Forall_cons in Hfr as [Hfr _]. lia. }
    exists (S np), ns. rewrite (impl_leaf log j np ns p rest) by done.
    destruct (next_page_head log np p rest Ep) as [_ Er]. rewrite Ep, indices_cons in *.
    cbn [frontier] in *. change (2 ^ Z.of_nat 0) with 1 in *. rewrite Z.mul_1_r in *.
    rewrite (proj2 (Z.leb_gt _ _)) in * by lia. cbn [fst snd app] in *.
    split; [|split; [by rewrite Er|split; [done|lia]]].
    apply Forall_cons in Hp as [Hp _]. cbn [node]. by rewrite Hp, Ei.
  - destruct (half_bound n j) as [E1 E2]. pose proof (pow2_pos (Z.of_nat n)).
    assert (Ef : frontier tree (S n) j (indices (next_pages log np)) =
      let l := frontier tree n (2 * j) (indices (next_pages log np)) in
      let r := frontier tree n (2 * j + 1) l.1 in (r.1, l.2 ++ r.2)).
    { rewrite Ep, indices_cons, frontier_split by lia. done. }
    cbv zeta in Ef. rewrite Ef in *. cbn [fst snd] in *. rewrite <-app_assoc in Hd.
    destruct (IH (2 * j) np ns _ ltac:(lia) ltac:(nia) Hs ltac:(by rewrite E1) Hp
      (fun i Hi => Ht i (in_half n j i 0 ltac:(lia) ltac:(by rewrite Z.add_0_r))) Hd)
      as (np1 & ns1 & El & Ei1 & Ed1 & Hle1).
    pose proof (frontier_sorted tree n (2 * j) _ Hs ltac:(by rewrite E1)) as Hs1.
    destruct (frontier_used tree n (2 * j) _ Hs ltac:(by rewrite E1)) as (u & Eu & Hu & Hfr1).
    set (l := frontier tree n (2 * j) (indices (next_pages log np))) in *. rewrite <-Ei1 in *.
    destruct (IH (2 * j + 1) np1 ns1 s ltac:(lia) ltac:(nia) Hs1 Hfr1) as (np2 & ns2 & Er & Ei2 & Ed2 & Hle2).
    + unfold next_pages in *. replace np1 with (np + (np1 - np))%nat by lia. rewrite <-drop_drop. by apply Forall_drop.
    + intros i Hi Hin. apply Ht; [by apply (in_half n j i 1)|]. rewrite Eu. intros [Hc|Hc]%elem_of_app; [|done].
      rewrite Forall_forall in Hu. apply Hu, in_node_bounds in Hc. apply in_node_bounds in Hi. lia.
    + done.
    + exists np2, ns2. rewrite (impl_split log n j np ns p rest) by done. rewrite El. cbn [mbind outcome_bind].
      rewrite Er. cbn [mbind outcome_bind]. rewrite Hf. split; [done|]. split; [done|]. split; [done|lia].
Qed.

(** What a node whose hash is that of [tree] says of the log. *)
Definition proves log (tree : Z -> H) n j np ns np' ns' : Prop :=
  indices (next_pages log np') = (frontier tree n j (indices (next_pages log np))).1 /\
  drop ns (sibling_hashes log) = (frontier tree n j (indices (next_pages log np))).2 ++ drop ns' (sibling_hashes log) /\
  Forall (fun p => page_hash p = tree (page_index p)) (take (np' - np) (next_pages log np)) /\ (np <= np')%nat.

Lemma take_next_pages log np np1 np2 :
  (np <= np1 <= np2)%nat ->
  take (np2 - np) (next_pages log np) = take (np1 - np) (next_pages log np) ++ take (np2 - np1) (next_pages log np1).
Proof.
  intros Hle. unfold next_pages. replace (drop np1 (pages log)) with (drop (np1 - np) (drop np (pages log)))
    by (rewrite drop_drop; f_equal; lia).
  set (l := drop np (pages log)). rewrite take_drop_commute.
  replace (np1 - np + (np2 - np1))%nat with (np2 - np)%nat by lia.
  rewrite <-(take_drop (np1 - np) (take (np2 - np) l)) at 1. rewrite take_take. do 2 f_equal. lia.
Qed.

Lemma skip_proves log tree n j np ns np' ns' :
  0 <= j -> (j + 1) * 2 ^ Z.of_nat n <= 2 ^ 63 -> from ((j + 1) * 2 ^ Z.of_nat n) (indices (next_pages log np)) ->
  compute_root_hash_impl log (j * 2 ^ Z.of_nat n) n np ns = Ret (node tree n j, np', ns') ->
  proves log tree n j np ns np' ns'.
Proof.
  intros Hj Hn Hafter E. rewrite impl_skip in E by done. unfold proves. rewrite frontier_after by done.
  apply outcome_bind_Ret in E as ([h k] & Et & [= -> <- <-]). apply take_sibling_Ret in Et as [_ Et].
  split; [done|]. split; [done|]. rewrite Nat.sub_diag. split; [by apply Forall_nil|done].
Qed.

Lemma impl_sound `{!CollisionFree H} log tree n j np ns np' ns' :
  log_hash_function log = f ->
  0 <= j -> (j + 1) * 2 ^ Z.of_nat n <= 2 ^ 63 ->
  StronglySorted Z.lt (indices (next_pages log np)) -> from (j * 2 ^ Z.of_nat n) (indices (next_pages log np)) ->
  compute_root_hash_impl log (j * 2 ^ Z.of_nat n) n np ns = Ret (node tree n j, np', ns') ->
  proves log tree n j np ns np' ns'.
Proof.
  intros Hf. revert j np ns np' ns'.
  induction n as [|n IH]; intros j np ns np' ns' Hj Hn Hs Hfr E;
    match goal with |- proves _ _ ?n _ _ _ _ _ =>
      destruct (range_cases log np ((j + 1) * 2 ^ Z.of_nat n) Hs) as [Hafter|(p & rest & Ep & Hlt)];
        [by eapply skip_proves|] end; unfold proves.
  - change (2 ^ Z.of_nat 0) with 1 in *. rewrite Z.mul_1_r in *.
    assert (page_index p = j) as Ei.
    { rewrite Ep, indices_cons in Hfr. apply Forall_cons in Hfr as [Hfr _]. lia. }
    rewrite (impl_leaf log j np ns p rest) in E by done. cbn [node] in E. injection E as Eh <- <-.
    destruct (next_page_head log np p rest Ep) as [_ Er]. rewrite Ep, Er, indices_cons.
    cbn [frontier]. change (2 ^ Z.of_nat 0) with 1 in *. rewrite Z.mul_1_r.
    rewrite (proj2 (Z.leb_gt _ _)) by lia. cbn [fst snd app].
    split; [done|]. split; [done|]. replace (S np - np)%nat with 1%nat by lia. split; [|lia].
    cbn [take]. apply Forall_singleton. by rewrite Ei.
  - destruct (half_bound n j) as [E1 E2]. pose proof (pow2_pos (Z.of_nat n)).
    assert (Ef : frontier tree (S n) j (indices (next_pages log np)) =
      let l := frontier tree n (2 * j) (indices (next_pages log np)) in
      let r := frontier tree n (2 * j + 1) l.1 in (r.1, l.2 ++ r.2)).
    { rewrite Ep, indices_cons, frontier_split by lia. done. }
    cbv zeta in Ef. rewrite Ef. cbn [fst snd].
    rewrite (impl_split log n j np ns p rest) in E by done.
    apply outcome_bind_Ret in E as ([[hl np1] ns1] & El & E).
    apply outcome_bind_Ret in E as ([[hr np2] ns2] & Er & E).
    cbn [node] in E. unfold log_concat_hash in E. rewrite Hf in E. injection E as E <- <-.
    apply concat_hash_inj in E as [-> ->].
    destruct (IH (2 * j) np ns np1 ns1 ltac:(lia) ltac:(nia) Hs ltac:(by rewrite E1) El) as (Ei1 & Ed1 & Hh1 & Hle1).
    pose proof (frontier_sorted tree n (2 * j) _ Hs ltac:(by rewrite E1)) as Hs1.
    destruct (frontier_used tree n (2 * j) _ Hs ltac:(by rewrite E1)) as (u & Eu & Hu & Hfr1).
    set (l := frontier tree n (2 * j) (indices (next_pages log np))) in *. rewrite <-Ei1 in *.
    destruct (IH (2 * j + 1) np1 ns1 np2 ns2 ltac:(lia) ltac:(nia) Hs1 Hfr1 Er) as (Ei2 & Ed2 & Hh2 & Hle2).
    split; [done|]. split; [by rewrite Ed1, Ed2, app_assoc|]. split; [|lia].
    rewrite (take_next_pages log np np1 np2) by lia. by apply Forall_app.
Qed.

(** ** compute_root_hash *)

(** The arrays are not read past their ends. *)
Lemma skip_bounds log np ns h np' ns' :
  (('(h, ns) ← take_sibling log ns; mret (h, np, ns)) : outcome (H * nat * nat)) = Ret (h, np', ns') ->
  (np <= length (pages log))%nat -> (np' <= length (pages log))%nat /\ (ns' <= length (sibling_hashes log))%nat.
Proof.
  intros E Hnp. apply outcome_bind_Ret in E as ([h' k] & Et & [= <- <- <-]).
  unfold take_sibling in Et. destruct (sibling_hashes log !! ns) as [x|] eqn:Ex; [|done].
  injection Et as <- <-. apply lookup_lt_Some in Ex. lia.
Qed.

Lemma impl_bounds log range_index n np ns h np' ns' :
  compute_root_hash_impl log range_index n np ns = Ret (h, np', ns') ->
  (np <= length (pages log))%nat -> (ns <= length (sibling_hashes log))%nat ->
  (np' <= length (pages log))%nat /\ (ns' <= length (sibling_hashes log))%nat.
Proof.
  revert range_index np ns h np' ns'.
  induction n as [|n IH]; intros range_index np ns h np' ns' E Hnp Hns; cbn [compute_root_hash_impl] in E;
    destruct (pages log !! np) as [p|] eqn:Ep; try (by eapply skip_bounds);
    destruct (_ <=? page_index p); try (by eapply skip_bounds).
  - destruct (_ =? _); [|by eapply skip_bounds]. injection E as <- <- <-. apply lookup_lt_Some in Ep. lia.
  - apply outcome_bind_Ret in E as ([[hl np1] ns1] & El & E).
    apply outcome_bind_Ret in E as ([[hr np2] ns2] & Er & [= <- <- <-]).
    destruct (IH _ _ _ _ _ _ El Hnp Hns) as [H1 H2]. by destruct (IH _ _ _ _ _ _ Er H1 H2).
Qed.


Definition hashed (p : page_type H) : page_type H :=
  {| page_index := page_index p; page_data := page_data p;
     page_hash := node (fun i => hash (chunk (page_data p) i)) 7 0 |}.

Definition data_size_ok (p : page_type H) : Prop := length (page_data p) = 4096%nat.

Lemma hash_pages_ok ps : Forall data_size_ok ps -> hash_pages f ps = Ret (map hashed ps).
Proof.
  induction 1 as [|p ps Hp Hps IH]; cbn [hash_pages map]; [done|].
  unfold merkle_tree_hash. change HASH_TREE_WORD_SIZE with 32.
  rewrite page_merkle by done. cbn [mbind outcome_bind]. rewrite IH. done.
Qed.

Lemma indices_hashed ps : indices (map hashed ps) = indices ps.
Proof. unfold indices. rewrite map_map. done. Qed.

Definition holds (m : memory) (p : page_type H) : Prop := page_data p = page_bytes m (page_index p).

Lemma holds_size m p : holds m p -> data_size_ok p.
Proof. unfold holds, data_size_ok. intros ->. apply length_page_bytes. Qed.

Lemma holds_hash m p : holds m p -> page_hash (hashed p) = page_node m (page_index p).
Proof. unfold holds, hashed. cbn [page_hash]. intros ->. apply node_chunks. Qed.

Lemma hash_holds `{!CollisionFree H} m p :
  data_size_ok p -> page_hash (hashed p) = page_node m (page_index p) -> holds m p.
Proof. intros Hs E. apply page_merkle_inj; [done|]. rewrite page_merkle by done. f_equal. exact E. Qed.

(** Pages in increasing order. *)
Definition ordered (ps : list (page_type H)) : Prop :=
  StronglySorted Z.lt (indices ps) /\ Forall (Z.le 0) (indices ps).

Lemma LOG2_PAGES_value : LOG2_PAGES = 52%nat.
Proof. reflexivity. Qed.

Lemma root_from ps : ordered ps -> from (0 * 2 ^ Z.of_nat 52) (indices ps).
Proof. intros [_ Hf]. exact Hf. Qed.

(** The log of some pages of a memory [m], with the contents they have in
    [m'], leads to the root hash of [m'] when nothing else differs. *)
Lemma compute_root_hash_complete log m m' :
  log_hash_function log = f -> ordered (pages log) -> Forall (fun i => i < 2 ^ 52) (indices (pages log)) ->
  Forall (holds m') (pages log) ->
  (forall i, 0 <= i < 2 ^ 52 -> i ∉ indices (pages log) -> page_node m i = page_node m' i) ->
  sibling_hashes log = (frontier (page_node m) 52 0 (indices (pages log))).2 ->
  compute_root_hash log = Ret (root_hash_of m', set_pages (map hashed (pages log)) log).
Proof.
  intros Hf Hord Hlt Hm Hne Hsib. pose proof Hord as [Hs Hpos]. unfold compute_root_hash.
  rewrite Hf, hash_pages_ok by (eapply Forall_impl; [exact Hm|]; intros; by eapply holds_size).
  cbn [mbind outcome_bind]. set (log1 := set_pages _ log).
  assert (Ei : indices (next_pages log1 0) = indices (pages log)).
  { unfold next_pages. rewrite drop_0. apply indices_hashed. }
  destruct (impl_complete log1 (page_node m) (page_node m') 52 0 0 0 []) as (np & ns & E & Ei' & Ed & _).
  - done.
  - lia.
  - vm_compute. done.
  - by rewrite Ei.
  - rewrite Ei. by apply root_from.
  - unfold next_pages. rewrite drop_0. unfold log1. cbn [pages set_pages]. apply Forall_map.
    eapply Forall_impl; [exact Hm|]. intros p Hp. exact (holds_hash m' p Hp).
  - rewrite Ei. intros i Hi%in_node_bounds. apply Hne. change (Z.of_nat 52) with 52 in Hi. lia.
  - by rewrite Ei, drop_0, app_nil_r.
  - rewrite LOG2_PAGES_value, Z.mul_0_l in *. rewrite E. cbn [mbind outcome_bind].
    rewrite Ei, frontier_root in Ei'.
    2:{ done. }
    2:{ apply Forall_forall. intros i Hi. rewrite Forall_forall in Hpos, Hlt. split; [by apply Hpos|by apply Hlt]. }
    destruct (impl_bounds _ _ _ _ _ _ _ _ E) as [Hnp Hns]; [lia|lia|].
    apply (f_equal length) in Ei', Ed. unfold next_pages, indices in Ei'. rewrite length_map, !length_drop in *.
    cbn [length] in *. assert (np = length (pages log1)) as -> by lia.
    assert (ns = length (sibling_hashes log1)) as -> by lia.
    unfold page_count, sibling_count. rewrite !Z.eqb_refl. cbn [negb].
    by rewrite root_hash_of_pages.
Qed.

(** With an ideal hash, a log that leads to the root hash of [m] has pages
    of [m], and the siblings of these pages. *)
Lemma compute_root_hash_sound `{!CollisionFree H} log m log' :
  log_hash_function log = f -> ordered (pages log) -> Forall data_size_ok (pages log) ->
  compute_root_hash log = Ret (root_hash_of m, log') ->
  Forall (holds m) (pages log) /\ Forall (fun i => i < 2 ^ 52) (indices (pages log)) /\
  sibling_hashes log = (frontier (page_node m) 52 0 (indices (pages log))).2 /\
  log' = set_pages (map hashed (pages log)) log.
Proof.
  intros Hf Hord Hsz E. pose proof Hord as [Hs Hpos]. unfold compute_root_hash in E.
  rewrite Hf, hash_pages_ok in E by done. cbn [mbind outcome_bind] in E. set (log1 := set_pages _ log) in *.
  apply outcome_bind_Ret in E as ([[h np] ns] & E & E').
  destruct (negb (Z.of_nat np =? page_count log1)) eqn:Enp; [done|].
  destruct (negb (Z.of_nat ns =? sibling_count log1)) eqn:Ens; [done|]. injection E' as -> <-.
  unfold page_count, sibling_count in *.
  assert (Hnp : np = length (pages log1)) by lia. assert (Hns : ns = length (sibling_hashes log1)) by lia.
  assert (Ei : indices (next_pages log1 0) = indices (pages log)).
  { unfold next_pages. rewrite drop_0. apply indices_hashed. }
  rewrite LOG2_PAGES_value, root_hash_of_pages in E.
  destruct (impl_sound log1 (page_node m) 52 0 0 0 np ns) as (Ei' & Ed & Hh & _).
  - done.
  - lia.
  - vm_compute. done.
  - by rewrite Ei.
  - rewrite Ei. by apply root_from.
  - by rewrite Z.mul_0_l.
  - rewrite Ei in *. rewrite Hns, drop_all, drop_0, app_nil_r in Ed.
    unfold next_pages in Ei', Hh. rewrite Hnp, drop_all in Ei'. rewrite Hnp, drop_0, take_ge in Hh by lia.
    split; [|split; [|split; [exact Ed|done]]].
    + unfold log1 in Hh. cbn [pages set_pages] in Hh. rewrite Forall_forall in *. intros p Hp.
      apply hash_holds; [by apply Hsz|]. exact (Hh (hashed p) (list_elem_of_fmap_2 hashed _ _ Hp)).
    + destruct (frontier_used (page_node m) 52 0 (indices (pages log)) Hs) as (u & Eu & Hu & _); [by apply root_from|].
      rewrite <-Ei' in Eu. cbn [indices map] in Eu. rewrite app_nil_r in Eu. rewrite Eu.
      eapply Forall_impl; [exact Hu|]. intros i Hi%in_node_bounds. change (Z.of_nat 52) with 52 in Hi. lia.
Qed.
End root.

(** ** The format of a log *)

Lemma bytes_from_app img o s1 s2 :
  0 <= o -> 0 <= s1 -> 0 <= s2 -> bytes_from img o s1 ++ bytes_from img (o + s1) s2 = bytes_from img o (s1 + s2).
Proof.
  intros Ho H1 H2. unfold bytes_from. rewrite !Z2Nat.inj_add, <-drop_drop by lia.
  set (l := drop _ img). rewrite take_drop_commute.
  transitivity (take (Z.to_nat s1) (take (Z.to_nat s1 + Z.to_nat s2) l) ++ drop (Z.to_nat s1) (take (Z.to_nat s1 + Z.to_nat s2) l));
    [|apply take_drop]. rewrite take_take. do 2 f_equal. lia.
Qed.

Lemma bytes_from_all img : bytes_from img 0 (Z.of_nat (length img)) = img.
Proof. unfold bytes_from. by rewrite drop_0, take_ge by lia. Qed.

Lemma bytes_from_zero img o : bytes_from img o 0 = [].
Proof. done. Qed.

Lemma length_bytes_from img o s :
  0 <= o -> 0 <= s -> o + s <= Z.of_nat (length img) -> length (bytes_from img o s) = Z.to_nat s.
Proof. intros. unfold bytes_from. rewrite length_take, length_drop. lia. Qed.

Lemma bytes_from_range img o s : Forall (is_u 8) img -> Forall (is_u 8) (bytes_from img o s).
Proof. intros. by apply Forall_take, Forall_drop. Qed.

(** What is at an offset when the image is cut there. *)
Lemma bytes_from_mid a b c o s :
  o = Z.of_nat (length a) -> s = Z.of_nat (length b) -> bytes_from (a ++ b ++ c) o s = b.
Proof. intros -> ->. unfold bytes_from. by rewrite !Nat2Z.id, drop_app_length, take_app_length. Qed.

Lemma bytes_from_within a b c o s k :
  o = Z.of_nat (length a) -> 0 <= k -> 0 <= s -> k + s <= Z.of_nat (length b) ->
  bytes_from (a ++ b ++ c) (o + k) s = bytes_from b k s.
Proof.
  intros -> Hk Hs Hl. unfold bytes_from. rewrite Z2Nat.inj_add, Nat2Z.id, <-drop_drop, drop_app_length by lia.
  rewrite skipn_app, take_app_le; [done|]. rewrite length_drop. lia.
Qed.

Lemma le_bytes8_of_value bs : length bs = 8%nat -> Forall (is_u 8) bs -> le_bytes 8 (le_value bs) = bs.
Proof. intros Hl Hb. unfold le_bytes, le_value. apply Z_to_little_endian_to_Z; [by rewrite Hl|lia|exact Hb]. Qed.

Lemma validate_Some max current elsize elcount next :
  0 <= current -> 0 <= elsize * elcount ->
  (validate_and_advance_offset max current elsize elcount = Some next <->
   next = current + elsize * elcount /\ next <= max /\ next < 2 ^ 64).
Proof.
  intros. unfold validate_and_advance_offset. repeat case_match; split; try intros [= <-]; intros; try lia.
  f_equal. lia.
Qed.

Lemma advance_Ret max current elsize elcount what next :
  0 <= current -> 0 <= elsize * elcount -> advance max current elsize elcount what = Ret next ->
  next = current + elsize * elcount /\ next <= max /\ next < 2 ^ 64.
Proof.
  intros Hc He E. apply validate_Some; [done..|]. unfold advance in E.
  destruct (validate_and_advance_offset _ _ _ _); [|done]. by injection E as ->.
Qed.

Lemma advance_ok max current elsize elcount what :
  0 <= current -> 0 <= elsize * elcount -> current + elsize * elcount <= max -> max < 2 ^ 64 ->
  advance max current elsize elcount what = Ret (current + elsize * elcount).
Proof.
  intros Hc He Hm Hmax. unfold advance.
  rewrite (proj2 (validate_Some max current elsize elcount (current + elsize * elcount) Hc He)); [done|]. split; [done|lia].
Qed.

Section format.
Context `{SH : StepHash H}.
Implicit Types log : step_log H.

(** The bytes of a log. *)
Definition page_type_image (p : page_type H) : list Z :=
  le_bytes 8 (page_index p) ++ page_data p ++ replicate 32 0.

Definition log_image log : list Z :=
  bytes_of_hash (logged_root_hash_before log) ++ le_bytes 8 (logged_mcycle_count log) ++
  bytes_of_hash (logged_root_hash_after log) ++ le_bytes 8 (hash_function_code (log_hash_function log)) ++
  le_bytes 8 (page_count log) ++ mjoin (map page_type_image (pages log)) ++
  le_bytes 8 (sibling_count log) ++ mjoin (map bytes_of_hash (sibling_hashes log)).

(** A hash that its bytes determine. *)
Definition hash_ok (h : H) : Prop := length (bytes_of_hash h) = 32%nat /\ hash_of_bytes (bytes_of_hash h) = h.

(** What the log of a recording has. *)
Record log_ok log : Prop := {
  ok_before : hash_ok (logged_root_hash_before log);
  ok_after : hash_ok (logged_root_hash_after log);
  ok_mcycle : is_u 64 (logged_mcycle_count log);
  ok_some : pages log <> [];
  ok_index : Forall (fun p => is_u 64 (page_index p)) (pages log);
  ok_order : StronglySorted Z.lt (indices (pages log));
  ok_data : Forall data_size_ok (pages log);
  ok_scratch : Forall (fun p => page_hash p = all_zeros) (pages log);
  ok_siblings : Forall hash_ok (sibling_hashes log);
  ok_size : Z.of_nat (length (log_image log)) < 2 ^ 64
}.

Lemma length_mjoin_map {A} (g : A -> list Z) k l :
  Forall (fun x => length (g x) = k) l -> length (mjoin (map g l)) = (k * length l)%nat.
Proof.
  induction 1 as [|x l Hx Hl IH]; [cbn; lia|].
  change (mjoin (map g (x :: l))) with (g x ++ mjoin (map g l)). rewrite length_app, Hx, IH. cbn. lia.
Qed.

(** The [i]-th element of an array of fixed-size elements. *)
Lemma bytes_from_mjoin {A} (g : A -> list Z) k l i x :
  0 <= k -> Forall (fun x => Z.of_nat (length (g x)) = k) l -> l !! i = Some x ->
  bytes_from (mjoin (map g l)) (Z.of_nat i * k) k = g x.
Proof.
  intros Hk Hl Hi. rewrite <-(take_drop_middle _ _ _ Hi), map_app, join_app.
  change (mjoin (map g (x :: drop (S i) l))) with (g x ++ mjoin (map g (drop (S i) l))).
  assert (Hl1 : Forall (fun x => length (g x) = Z.to_nat k) (take i l)).
  { apply Forall_take. eapply Forall_impl; [exact Hl|]. cbn. lia. }
  apply bytes_from_mid.
  - rewrite (length_mjoin_map _ _ _ Hl1), length_take. apply lookup_lt_Some in Hi. lia.
  - symmetry. apply (proj1 (Forall_lookup _ _) Hl _ _ Hi).
Qed.

Lemma check_pages_ok previous ps :
  match previous with Some i => from (i + 1) (indices ps) | None => True end ->
  StronglySorted Z.lt (indices ps) -> Forall (fun p => page_hash p = all_zeros) ps -> check_pages previous ps = Ret ().
Proof.
  revert previous. induction ps as [|p ps IH]; intros previous Hp Hs Hz; cbn [check_pages]; [done|].
  apply Forall_cons in Hz as [Hz Hzs]. rewrite indices_cons in *. apply StronglySorted_inv in Hs as [Hs Hf].
  assert (match previous with Some i => page_index p <=? i | None => false end = false) as ->.
  { destruct previous; [|done]. apply Forall_cons in Hp as [Hp _]. lia. }
  rewrite bool_decide_eq_true_2 by done. cbn [negb]. apply IH; [|done|done].
  eapply Forall_impl; [exact Hf|]. cbn. lia.
Qed.

Lemma check_pages_Ret previous ps :
  check_pages previous ps = Ret () ->
  match previous with Some i => from (i + 1) (indices ps) | None => True end /\
  StronglySorted Z.lt (indices ps) /\ Forall (fun p => page_hash p = all_zeros) ps.
Proof.
  revert previous. induction ps as [|p ps IH]; intros previous E; cbn [check_pages] in E.
  - split; [destruct previous; [apply Forall_nil; done|done]|]. split; [apply SSorted_nil|by apply Forall_nil].
  - destruct (match previous with Some i => page_index p <=? i | None => false end) eqn:Ep; [done|].
    destruct (bool_decide (page_hash p = all_zeros)) eqn:Ez; [|done]. cbn [negb] in E.
    apply bool_decide_eq_true in Ez. destruct (IH _ E) as (Hf & Hs & Hz). rewrite indices_cons.
    split; [|split].
    + destruct previous; [|done]. apply Forall_cons. split; [lia|]. eapply Forall_impl; [exact Hf|]. cbn. lia.
    + apply SSorted_cons; [done|]. eapply Forall_impl; [exact Hf|]. cbn. lia.
    + by apply Forall_cons.
Qed.

(** The fields of an image, one after the other. *)
Lemma bytes_from_first a b o s : o = 0 -> s = Z.of_nat (length a) -> bytes_from (a ++ b) o s = a.
Proof. intros -> ->. unfold bytes_from. by rewrite drop_0, Nat2Z.id, take_app_length. Qed.

Lemma bytes_from_rest a b o s :
  Z.of_nat (length a) <= o -> bytes_from (a ++ b) o s = bytes_from b (o - Z.of_nat (length a)) s.
Proof.
  intros Ho. unfold bytes_from. replace (Z.to_nat o) with (length a + Z.to_nat (o - Z.of_nat (length a)))%nat by lia.
  by rewrite <-drop_drop, drop_app_length.
Qed.

Lemma bytes_from_whole a o s : o = 0 -> s = Z.of_nat (length a) -> bytes_from a o s = a.
Proof. intros -> ->. apply bytes_from_all. Qed.

Ltac cut_fields := repeat first
  [ rewrite bytes_from_first by (rewrite ?length_le_bytes8, ?length_replicate; lia)
  | rewrite bytes_from_whole by (rewrite ?length_le_bytes8, ?length_replicate; lia)
  | match goal with |- context [bytes_from (?a ++ ?b) ?o ?s] =>
      rewrite (bytes_from_rest a b o s) by (rewrite ?length_le_bytes8, ?length_replicate; lia) end ].

Lemma length_page_type_image p : data_size_ok p -> length (page_type_image p) = 4136%nat.
Proof. unfold data_size_ok, page_type_image. intros Hp. rewrite !length_app, length_le_bytes8, Hp, length_replicate. done. Qed.

Lemma page_at_image img o p :
  data_size_ok p -> is_u 64 (page_index p) -> page_hash p = all_zeros ->
  bytes_from img o sizeof_page_type = page_type_image p -> 0 <= o -> page_at img o = p.
Proof.
  intros Hp Hi Hh E Ho. change sizeof_page_type with 4136 in E.
  assert (Hsub : forall k s, 0 <= k -> 0 <= s -> k + s <= 4136 -> bytes_from img (o + k) s = bytes_from (page_type_image p) k s).
  { intros k s Hk Hs Hks. rewrite <-E. unfold bytes_from. rewrite Z2Nat.inj_add, <-drop_drop by lia.
    set (l := drop (Z.to_nat o) img). rewrite !take_drop_commute, take_take. do 2 f_equal. lia. }
  unfold page_at, read_uint64, read_hash. change sizeof_uint64 with 8. change AR_PAGE_SIZE with 4096.
  change MACHINE_HASH_SIZE with 32. rewrite <-(Z.add_0_r o) at 1.
  replace (o + 8 + 4096) with (o + 4104) by lia. rewrite !Hsub by lia. unfold page_type_image.
  unfold data_size_ok in Hp. cut_fields.
  rewrite le_bytes8_value. unfold uint64. rewrite uwrap_small by done.
  change (hash_of_bytes (replicate 32 0)) with all_zeros. rewrite <-Hh. by destruct p.
Qed.

(** The elements of an array within an image. *)
Lemma array_at {A B} (at_ : list Z -> Z -> B) (g : A -> list Z) (to : A -> B) k img o l :
  0 <= k -> 0 <= o -> Forall (fun x => Z.of_nat (length (g x)) = k) l ->
  (forall x o, x ∈ l -> 0 <= o -> bytes_from img o k = g x -> at_ img o = to x) ->
  bytes_from img o (Z.of_nat (length l) * k) = mjoin (map g l) ->
  map (fun i => at_ img (o + i * k)) (seqZ 0 (Z.of_nat (length l))) = map to l.
Proof.
  intros Hk Ho Hl Hat E. apply list_eq. intros i. rewrite !list_lookup_fmap.
  destruct (decide (i < length l)%nat) as [Hi|Hi].
  2:{ rewrite lookup_seqZ_ge, lookup_ge_None_2 by lia. done. }
  destruct (lookup_lt_is_Some_2 l i Hi) as [x Hx]. rewrite lookup_seqZ_lt, Hx by lia. cbn [fmap option_fmap option_map].
  f_equal. apply Hat; [by eapply list_elem_of_lookup_2|lia|].
  rewrite <-(bytes_from_mjoin g k l i x Hk Hl Hx), <-E. unfold bytes_from.
  rewrite Z.add_0_l, (Z2Nat.inj_add o), <-drop_drop by lia. set (d := drop (Z.to_nat o) img).
  rewrite !take_drop_commute, take_take. do 2 f_equal. nia.
Qed.

Lemma pages_at_image img o ps :
  0 <= o -> Forall data_size_ok ps -> Forall (fun p => is_u 64 (page_index p)) ps ->
  Forall (fun p => page_hash p = all_zeros) ps ->
  bytes_from img o (Z.of_nat (length ps) * sizeof_page_type) = mjoin (map page_type_image ps) ->
  pages_at img o (Z.of_nat (length ps)) = ps.
Proof.
  intros Ho Hd Hi Hz E. unfold pages_at.
  rewrite (array_at page_at page_type_image id sizeof_page_type); [by rewrite map_id|done|done| | |done].
  - eapply Forall_impl; [exact Hd|]. intros p Hp. by rewrite length_page_type_image.
  - rewrite Forall_forall in *. intros p o' Hp Ho' E'. by apply page_at_image; auto.
Qed.

Lemma hashes_at_image img o hs :
  0 <= o -> Forall hash_ok hs ->
  bytes_from img o (Z.of_nat (length hs) * MACHINE_HASH_SIZE) = mjoin (map bytes_of_hash hs) ->
  hashes_at img o (Z.of_nat (length hs)) = hs.
Proof.
  intros Ho Hh E. unfold hashes_at.
  rewrite (array_at read_hash bytes_of_hash id MACHINE_HASH_SIZE); [by rewrite map_id|done|done| | |done].
  - eapply Forall_impl; [exact Hh|]. intros h [Hl _]. by rewrite Hl.
  - rewrite Forall_forall in *. intros h o' Hin Ho' E'. unfold read_hash. rewrite E'. by apply Hh.
Qed.

Lemma length_pages_image ps : Forall data_size_ok ps -> length (mjoin (map page_type_image ps)) = (4136 * length ps)%nat.
Proof. intros Hd. apply length_mjoin_map. eapply Forall_impl; [exact Hd|]. intros p. apply length_page_type_image. Qed.

Lemma length_hashes_image hs : Forall hash_ok hs -> length (mjoin (map bytes_of_hash hs)) = (32 * length hs)%nat.
Proof. intros Hh. apply length_mjoin_map. eapply Forall_impl; [exact Hh|]. by intros h []. Qed.

(** A log is read back from its bytes. *)
Lemma parse_log_image log : log_ok log -> parse_step_log (log_image log) = Ret log.
Proof.
  intros [[Hb Hb'] [Ha Ha'] Hm Hsome Hi Ho Hd Hz Hs Hsz].
  pose proof (length_pages_image _ Hd) as Lp. pose proof (length_hashes_image _ Hs) as Ls.
  assert (Ll : Z.of_nat (length (log_image log)) = 96 + page_count log * 4136 + sibling_count log * 32).
  { unfold log_image, page_count, sibling_count. rewrite !length_app, !length_le_bytes8, Hb, Ha, Lp, Ls. lia. }
  assert (Hn : 0 < page_count log).
  { unfold page_count. destruct (pages log); [done|]. cbn [length]. lia. }
  assert (Hk : 0 <= sibling_count log) by (unfold sibling_count; lia).
  assert (Hfields :
    bytes_from (log_image log) 0 32 = bytes_of_hash (logged_root_hash_before log) /\
    bytes_from (log_image log) 32 8 = le_bytes 8 (logged_mcycle_count log) /\
    bytes_from (log_image log) 40 32 = bytes_of_hash (logged_root_hash_after log) /\
    bytes_from (log_image log) 72 8 = le_bytes 8 (hash_function_code (log_hash_function log)) /\
    bytes_from (log_image log) 80 8 = le_bytes 8 (page_count log) /\
    bytes_from (log_image log) 88 (page_count log * sizeof_page_type) = mjoin (map page_type_image (pages log)) /\
    bytes_from (log_image log) (88 + 4136 * page_count log) 8 = le_bytes 8 (sibling_count log) /\
    bytes_from (log_image log) (96 + 4136 * page_count log) (sibling_count log * MACHINE_HASH_SIZE) =
      mjoin (map bytes_of_hash (sibling_hashes log))).
  { change sizeof_page_type with 4136. change MACHINE_HASH_SIZE with 32. unfold log_image, page_count, sibling_count in *.
    repeat split; cut_fields; done. }
  destruct Hfields as (F1 & F2 & F3 & F4 & F5 & F6 & F7 & F8).
  unfold parse_step_log. set (img := log_image log) in *.
  change MACHINE_HASH_SIZE with 32 in *. change sizeof_uint64 with 8. change sizeof_page_type with 4136 in *.
  assert (Hcode : hash_function_of (hash_function_code (log_hash_function log)) = Ret (log_hash_function log))
    by (by destruct (log_hash_function log)).
  assert (Rn : read_uint64 img 80 = page_count log).
  { unfold read_uint64. change sizeof_uint64 with 8. rewrite F5, le_bytes8_value. unfold uint64.
    apply uwrap_small. unfold is_u. lia. }
  assert (Rk : read_uint64 img (88 + 4136 * page_count log) = sibling_count log).
  { unfold read_uint64. change sizeof_uint64 with 8. rewrite F7, le_bytes8_value. unfold uint64.
    apply uwrap_small. unfold is_u. lia. }
  repeat (rewrite advance_ok by lia; cbn [mbind outcome_bind]).
  change (0 + 32 * 1) with 32. change (32 + 8 * 1) with 40. change (40 + 32 * 1) with 72. change (72 + 8 * 1) with 80.
  replace (read_uint64 img 72) with (hash_function_code (log_hash_function log)).
  2:{ unfold read_uint64. change sizeof_uint64 with 8. rewrite F4, le_bytes8_value. by destruct (log_hash_function log). }
  rewrite Hcode. cbn [mbind outcome_bind]. repeat (rewrite advance_ok by lia; cbn [mbind outcome_bind]).
  change (80 + 8 * 1) with 88. rewrite Rn, (proj2 (Z.eqb_neq _ 0)) by lia.
  repeat (rewrite advance_ok by lia; cbn [mbind outcome_bind]). rewrite Rk.
  rewrite (proj2 (Z.eqb_eq _ _)) by lia. cbn [negb].
  replace (88 + 4136 * page_count log + 8 * 1) with (96 + 4136 * page_count log) by lia.
  change (pages_at img 88 (page_count log)) with (pages_at img 88 (Z.of_nat (length (pages log)))).
  rewrite (pages_at_image img 88) by (done || lia). 
  change (sibling_count log) with (Z.of_nat (length (sibling_hashes log))).
  rewrite (hashes_at_image img) by (done || lia).
  rewrite check_pages_ok by done. cbn [mbind outcome_bind].
  unfold mret, outcome_ret, read_hash, read_uint64. change MACHINE_HASH_SIZE with 32. change sizeof_uint64 with 8.
  rewrite F1, F2, F3, Hb', Ha', le_bytes8_value. unfold uint64. rewrite uwrap_small by done. by destruct log.
Qed.

(** What the constructor has checked of a log that it accepts. *)
Record parsed (img : list Z) log (n k : Z) : Prop := {
  parsed_n : n = read_uint64 img 80 /\ 0 < n;
  parsed_k : k = read_uint64 img (88 + 4136 * n) /\ is_u 64 k;
  parsed_size : Z.of_nat (length img) = 96 + 4136 * n + 32 * k /\ Z.of_nat (length img) < 2 ^ 64;
  parsed_function : hash_function_of (read_uint64 img 72) = Ret (log_hash_function log);
  parsed_before : logged_root_hash_before log = read_hash img 0;
  parsed_mcycle : logged_mcycle_count log = read_uint64 img 32;
  parsed_after : logged_root_hash_after log = read_hash img 40;
  parsed_pages : pages log = pages_at img 88 n;
  parsed_siblings : sibling_hashes log = hashes_at img (96 + 4136 * n) k;
  parsed_order : StronglySorted Z.lt (indices (pages log));
  parsed_scratch : Forall (fun p => page_hash p = all_zeros) (pages log)
}.

Lemma read_uint64_range img o :
  Forall (is_u 8) img -> 0 <= o -> o + 8 <= Z.of_nat (length img) -> is_u 64 (read_uint64 img o).
Proof.
  intros Hb Ho Hl. unfold read_uint64. change sizeof_uint64 with 8.
  rewrite <-(le_bytes8_of_value (bytes_from img o 8)), le_bytes8_value; [by apply uwrap_range| |by apply bytes_from_range].
  by rewrite length_bytes_from by lia.
Qed.

Lemma parse_Ret img log :
  Forall (is_u 8) img -> parse_step_log img = Ret log -> exists n k, parsed img log n k.
Proof.
  intros Hb E. unfold parse_step_log in E. cbv zeta in E.
  change MACHINE_HASH_SIZE with 32 in E. change sizeof_uint64 with 8 in E. change sizeof_page_type with 4136 in E.
  apply outcome_bind_Ret in E as (o1 & E1 & E). apply advance_Ret in E1 as (-> & H1 & _); [|lia|lia].
  apply outcome_bind_Ret in E as (o2 & E2 & E). apply advance_Ret in E2 as (-> & H2 & _); [|lia|lia].
  apply outcome_bind_Ret in E as (o3 & E3 & E). apply advance_Ret in E3 as (-> & H3 & _); [|lia|lia].
  apply outcome_bind_Ret in E as (o4 & E4 & E). apply advance_Ret in E4 as (-> & H4 & _); [|lia|lia].
  apply outcome_bind_Ret in E as (f & Ef & E).
  apply outcome_bind_Ret in E as (o5 & E5 & E). apply advance_Ret in E5 as (-> & H5 & _); [|lia|lia].
  change (0 + 32 * 1 + 8 * 1 + 32 * 1 + 8 * 1) with 80 in *. change (0 + 32 * 1 + 8 * 1 + 32 * 1) with 72 in *.
  change (0 + 32 * 1 + 8 * 1) with 40 in *. change (0 + 32 * 1) with 32 in *. change (80 + 8 * 1) with 88 in *.
  pose proof (read_uint64_range img 80 Hb) as Hn. set (n := read_uint64 img 80) in *.
  destruct (n =? 0) eqn:En; [done|]. assert (0 < n) by (unfold is_u in Hn; lia).
  apply outcome_bind_Ret in E as (o6 & E6 & E). apply advance_Ret in E6 as (-> & H6 & _); [|lia|lia].
  apply outcome_bind_Ret in E as (o7 & E7 & E). apply advance_Ret in E7 as (-> & H7 & _); [|lia|lia].
  pose proof (read_uint64_range img (88 + 4136 * n) Hb) as Hk. set (k := read_uint64 img (88 + 4136 * n)) in *.
  apply outcome_bind_Ret in E as (o8 & E8 & E). apply advance_Ret in E8 as (-> & H8 & H8'); [|lia|unfold is_u in Hk; lia].
  destruct (_ =? Z.of_nat (length img)) eqn:Eend; [|done]. cbn [negb] in E.
  apply outcome_bind_Ret in E as ([] & Ec & E). apply check_pages_Ret in Ec as (_ & Hs & Hz).
  injection E as <-. exists n, k. split; cbn [logged_root_hash_before logged_mcycle_count logged_root_hash_after
    log_hash_function pages sibling_hashes]; try done; try lia; [split; [done|apply Hk; lia]|].
  f_equal. lia.
Qed.

Lemma parsed_ordered img log n k : Forall (is_u 8) img -> parsed img log n k -> Forall (fun p => is_u 64 (page_index p)) (pages log).
Proof.
  intros Hb Hp. rewrite (parsed_pages _ _ _ _ Hp). destruct (parsed_size _ _ _ _ Hp) as [Hl _].
  destruct (parsed_n _ _ _ _ Hp) as [_ Hn].
  destruct (parsed_k _ _ _ _ Hp) as [_ Hk]. unfold is_u in Hk.
  unfold pages_at. apply Forall_fmap, Forall_forall. intros i Hi%elem_of_seqZ. cbn [page_at page_index compose].
  change sizeof_page_type with 4136. apply read_uint64_range; [done|lia|]. lia.
Qed.

Lemma parsed_data img log n k : parsed img log n k -> Forall data_size_ok (pages log).
Proof.
  intros Hp. destruct (parsed_k _ _ _ _ Hp) as [_ Hk]. unfold is_u in Hk. rewrite (parsed_pages _ _ _ _ Hp). destruct (parsed_size _ _ _ _ Hp) as [Hl _].
  destruct (parsed_n _ _ _ _ Hp) as [_ Hn].
  unfold pages_at. apply Forall_fmap, Forall_forall. intros i Hi%elem_of_seqZ. unfold compose, data_size_ok, page_at.
  cbn [page_data]. change sizeof_page_type with 4136. change sizeof_uint64 with 8. change AR_PAGE_SIZE with 4096.
  rewrite length_bytes_from by lia. done.
Qed.

(** The elements of an array make up the part of the image they are read
    from. *)
Lemma array_image {A} (at_ : Z -> A) (g : A -> list Z) k img o (n : nat) :
  0 <= k -> 0 <= o ->
  (forall i, (i < n)%nat -> g (at_ (o + Z.of_nat i * k)) = bytes_from img (o + Z.of_nat i * k) k) ->
  mjoin (map g (map (fun i => at_ (o + i * k)) (seqZ 0 (Z.of_nat n)))) = bytes_from img o (Z.of_nat n * k).
Proof.
  intros Hk Ho Hg. induction n as [|n IH]; [done|].
  replace (Z.of_nat (S n)) with (Z.of_nat n + 1) by lia.
  rewrite seqZ_app, !map_app, join_app, IH by (intros; lia || (apply Hg; lia)).
  replace ((Z.of_nat n + 1) * k) with (Z.of_nat n * k + k) by lia. rewrite <-bytes_from_app by nia. f_equal.
  rewrite Z.add_0_l. cbn [seqZ map mjoin list_join app]. rewrite <-Hg by lia. apply app_nil_r.
Qed.

Lemma bytes_from_app_eq img o o2 s1 s2 :
  o2 = o + s1 -> 0 <= o -> 0 <= s1 -> 0 <= s2 -> bytes_from img o s1 ++ bytes_from img o2 s2 = bytes_from img o (s1 + s2).
Proof. intros ->. apply bytes_from_app. Qed.

Lemma page_at_bytes img o :
  Forall (is_u 8) img -> (forall b, length b = 32%nat -> bytes_of_hash (hash_of_bytes b : H) = b) ->
  0 <= o -> o + 4136 <= Z.of_nat (length img) -> page_hash (page_at img o) = all_zeros ->
  page_type_image (page_at img o) = bytes_from img o 4136.
Proof.
  intros Hb Hbytes Ho Hl Hz. unfold page_type_image, page_at in *. cbn [page_index page_data page_hash] in *.
  change sizeof_uint64 with 8 in *. change AR_PAGE_SIZE with 4096 in *.
  assert (Ez : bytes_from img (o + 8 + 4096) 32 = replicate 32 0).
  { unfold read_hash, all_zeros in Hz. change MACHINE_HASH_SIZE with 32 in Hz. apply (f_equal bytes_of_hash) in Hz.
    rewrite !Hbytes in Hz; [done|done|]. by rewrite length_bytes_from by lia. }
  unfold read_uint64. change sizeof_uint64 with 8.
  rewrite le_bytes8_of_value by (by (rewrite length_bytes_from by lia) || by apply bytes_from_range).
  rewrite <-Ez, app_assoc. by rewrite !bytes_from_app_eq by lia.
Qed.

(** Only the bytes of a log are read as this log. *)
Lemma parse_image img log :
  Forall (is_u 8) img -> (forall b, length b = 32%nat -> bytes_of_hash (hash_of_bytes b : H) = b) ->
  parse_step_log img = Ret log -> log_image log = img.
Proof.
  intros Hb Hbytes E. destruct (parse_Ret _ _ Hb E) as (n & k & Hp). destruct Hp as [[Hn Hn'] [Hk Hk'] [Hl _] Hf Hbe Hm Ha Hps Hss _ Hz].
  unfold is_u in Hk'.
  assert (Hcode : hash_function_code (log_hash_function log) = read_uint64 img 72).
  { unfold hash_function_of in Hf. destruct (_ =? 0) eqn:E0; [|destruct (_ =? 1) eqn:E1; [|done]];
      injection Hf as <-; cbn [hash_function_code]; lia. }
  assert (Hw : forall o, 0 <= o -> o + 8 <= Z.of_nat (length img) -> le_bytes 8 (read_uint64 img o) = bytes_from img o 8).
  { intros o Ho Hol. apply le_bytes8_of_value; [by rewrite length_bytes_from by (unfold sizeof_uint64; lia)|by apply bytes_from_range]. }
  assert (Hh : forall o, 0 <= o -> o + 32 <= Z.of_nat (length img) ->
    bytes_of_hash (read_hash img o) = bytes_from img o 32).
  { intros o Ho Hol. apply Hbytes. by rewrite length_bytes_from by (unfold MACHINE_HASH_SIZE; lia). }
  unfold log_image. rewrite Hbe, Hm, Ha, Hcode.
  assert (Hcount : page_count log = n /\ sibling_count log = k).
  { unfold page_count, sibling_count. rewrite Hps, Hss. unfold pages_at, hashes_at.
    rewrite !length_map, !length_seqZ. lia. }
  destruct Hcount as [-> ->]. rewrite Hn at 1. rewrite Hk at 1. rewrite !Hw, !Hh by lia.
  assert (Hpi : mjoin (map page_type_image (pages log)) = bytes_from img 88 (n * 4136)).
  { rewrite <-(Z2Nat.id n), Hps by lia. unfold pages_at. rewrite <-(Z2Nat.id n) at 1 by lia.
    apply array_image; [done|done|]. intros i Hi. apply page_at_bytes; [done..|lia|lia|].
    rewrite Hps, Forall_forall in Hz. apply Hz. unfold pages_at. apply list_elem_of_fmap.
    exists (Z.of_nat i). split; [done|]. apply elem_of_seqZ. lia. }
  assert (Hsi : mjoin (map bytes_of_hash (sibling_hashes log)) = bytes_from img (96 + 4136 * n) (k * 32)).
  { rewrite <-(Z2Nat.id k), Hss by lia. unfold hashes_at. rewrite <-(Z2Nat.id k) at 1 by lia.
    apply array_image; [done|lia|]. intros i Hi. apply Hh; unfold MACHINE_HASH_SIZE; lia. }
  rewrite Hpi, Hsi, !app_assoc. rewrite !bytes_from_app_eq by lia.
  rewrite <-(bytes_from_all img) at 2. f_equal. lia.
Qed.
End format.

(** ** The log of the machine's hashes, whole *)

Lemma bytes_hash_ok (h : list Z) : length h = 32%nat -> hash_ok h.
Proof. by split. Qed.

Lemma parsed_ok img (log : step_log (list Z)) : Forall (is_u 8) img -> parse_step_log img = Ret log -> log_ok log.
Proof.
  intros Hb E. pose proof (parse_image img log Hb (fun b _ => eq_refl) E) as Eimg.
  destruct (parse_Ret _ _ Hb E) as (n & k & Hp). pose proof (parsed_ordered _ _ _ _ Hb Hp) as Hi. pose proof (parsed_data _ _ _ _ Hp) as Hd.
  destruct Hp as [[Hn Hn'] [_ Hk] [Hl Hl'] Hf Hbe Hm Ha Hps Hss Ho Hz]. unfold is_u in Hk.
  assert (Hh : forall o, 0 <= o -> o + 32 <= Z.of_nat (length img) -> hash_ok (read_hash img o : list Z)).
  { intros o Ho' Hol. apply bytes_hash_ok. unfold read_hash. cbn [hash_of_bytes machine_step_hash].
    rewrite length_bytes_from by (unfold MACHINE_HASH_SIZE; lia). done. }
  split; try done.
  - rewrite Hbe. apply Hh; lia.
  - rewrite Ha. apply Hh; lia.
  - rewrite Hm. apply read_uint64_range; [done|lia|lia].
  - rewrite Hps. unfold pages_at. intros E0%(f_equal length). rewrite length_map, length_seqZ in E0. cbn in E0. lia.
  - rewrite Hss. unfold hashes_at. apply Forall_fmap, Forall_forall. intros i Hin%elem_of_seqZ. apply Hh; unfold MACHINE_HASH_SIZE; lia.
  - by rewrite Eimg.
Qed.

(** C17: the format of step logs.  Of all strings of bytes, exactly
    the images of well-formed logs are parsed, each to the log it is the
    image of. *)
Theorem step_log_format img (log : step_log (list Z)) :
  Forall (is_u 8) img -> parse_step_log img = Ret log <-> log_ok log /\ log_image log = img.
Proof.
  intros Hb. split.
  - intros E. split; [by eapply parsed_ok|]. by apply parse_image.
  - intros [Hok <-]. by apply parse_log_image.
Qed.

(** One page of zeros and no siblings. *)
Definition short_log : step_log (list Z) :=
  {| logged_root_hash_before := replicate 32 1; logged_mcycle_count := 7; logged_root_hash_after := replicate 32 2;
     log_hash_function := sha256;
     pages := [ {| page_index := 5; page_data := replicate 4096 0; page_hash := all_zeros |} ]; sibling_hashes := [] |}.

Lemma step_log_format_witness :
  Forall (is_u 8) (log_image short_log) /\
  (parse_step_log (log_image short_log) = Ret short_log <-> log_ok short_log /\ log_image short_log = log_image short_log).
Proof.
  assert (Hb : Forall (is_u 8) (log_image short_log)).
  { apply Forall_lookup. intros i x Hx%list_elem_of_lookup_2. unfold is_u.
    assert (Hall : forallb (fun b => (0 <=? b) && (b <? 256)) (log_image short_log) = true) by (by vm_compute).
    rewrite List.forallb_forall in Hall. specialize (Hall x). rewrite <-list_elem_of_In in Hall. specialize (Hall Hx). lia. }
  split; [exact Hb|]. apply (step_log_format (log_image short_log) short_log Hb).
Defined.

(** ** Recording *)

Lemma length_keccak_256 DataExtent data :
  exists h, keccak_256_simd_concat_hash 1 DataExtent data = [h] /\ length h = 32%nat.
Proof.
  unfold keccak_256_simd_concat_hash. destruct (foldl _ _ data) as [words pos].
  pose proof (finish_bytes 1 words pos 0 ltac:(lia)) as [H0 _].
  destruct (keccak_256_finish 1 words pos) as [|h [|? ?]] eqn:E; [done|by exists h|done].
Qed.

Lemma length_sha_256 DataExtent data :
  exists h, sha_256_simd_concat_hash 1 DataExtent data = [h] /\ length h = 32%nat.
Proof.
  unfold sha_256_simd_concat_hash, sha_256_finish. destruct (if _ <=? _ then _ else _) as [words state].
  cbn [seq map]. eexists. split; [reflexivity|].
  cbn [mjoin list_join]. rewrite !length_app, !length_le_bytes by done. reflexivity.
Qed.

Lemma length_concat_hash (f : hash_function_type) (l r : list Z) : length (log_concat_hash f l r) = 32%nat.
Proof.
  assert (Hdo : forall b, length (only_hash (variant_do_simd_concat_hash f 2 1 b [[l]; [r]])) = 32%nat).
  { intros b. destruct f, b; unfold variant_do_simd_concat_hash, keccak_256_do_simd_concat_hash, sha_256_do_simd_concat_hash.
    - destruct (length_keccak_256 None [[l]; [r]]) as (h & E & Hh). unfold keccak_256_data_2x1. rewrite E. exact Hh.
    - destruct (length_keccak_256 word_extent [[l]; [r]]) as (h & E & Hh). unfold keccak_256_hash_2x1. rewrite E. exact Hh.
    - destruct (length_sha_256 None [[l]; [r]]) as (h & E & Hh). unfold sha_256_data_2x1. rewrite E. exact Hh.
    - destruct (length_sha_256 (Some 32) [[l]; [r]]) as (h & E & Hh). unfold sha_256_hash_2x1. rewrite E. exact Hh. }
  unfold log_concat_hash. change (length (i_hasher_concat_hash f l r) = 32%nat). unfold i_hasher_concat_hash.
  destruct (_ && _); apply Hdo.
Qed.

Section recording.
Context (f : hash_function_type).
#[local] Instance machine_hasher : IHasher (list Z) := variant_hasher_of f.

Lemma length_node (leaf : Z -> list Z) n i : length (node leaf (S n) i) = 32%nat.
Proof. cbn [node]. apply (length_concat_hash f). Qed.

Lemma length_page_node m n i : length (node (page_node m) n i) = 32%nat.
Proof. unfold page_node. rewrite node_node. apply length_node. Qed.

(** The hash of a range of pages, from the tree of the machine. *)
Lemma get_node_hash_range m n j :
  0 <= j -> (j + 1) * 2 ^ Z.of_nat n <= 2 ^ 52 ->
  get_node_hash (uint64 (Z.shiftl (j * 2 ^ Z.of_nat n) HASH_TREE_LOG2_PAGE_SIZE)) (Z.of_nat n + HASH_TREE_LOG2_PAGE_SIZE) m =
    (Ret (node (page_node (m_ht m)) n j), m).
Proof.
  intros Hj Hn. unfold HASH_TREE_LOG2_PAGE_SIZE. pose proof (pow2_pos (Z.of_nat n)).
  assert (Hn52 : Z.of_nat n <= 52).
  { destruct (decide (Z.of_nat n <= 52)); [done|]. pose proof (Z.pow_lt_mono_r 2 52 (Z.of_nat n)). nia. }
  assert (Ea : uint64 (Z.shiftl (j * 2 ^ Z.of_nat n) 12) = j * 2 ^ (Z.of_nat n + 12)).
  { rewrite Z.shiftl_mul_pow2, Z.pow_add_r, Z.mul_assoc by lia. apply uwrap_small. unfold is_u. nia. }
  rewrite Ea. unfold get_node_hash, HASH_TREE_LOG2_WORD_SIZE, HASH_TREE_LOG2_ROOT_SIZE.
  rewrite (proj2 (Z.ltb_ge _ _)), (proj2 (Z.ltb_ge 64 _)) by lia. cbn [orb].
  assert (aligned_to (j * 2 ^ (Z.of_nat n + 12)) (Z.of_nat n + 12) = true) as ->.
  { unfold aligned_to, HASH_TREE_LOG2_ROOT_SIZE. destruct (_ =? 64) eqn:E.
    - replace (Z.of_nat n) with 52 in * by lia. assert (j = 0) as -> by lia. done.
    - rewrite Z.shiftr_div_pow2, Z.div_mul, Z.shiftl_mul_pow2 by (try lia; apply Z.pow_nonzero; lia). apply Z.eqb_refl. }
  cbn [negb]. unfold mbind, M_bind, get, mret, M_ret. do 2 f_equal.
  rewrite Z.div_mul by (apply Z.pow_nonzero; lia). unfold page_node. rewrite node_node. f_equal. lia.
Qed.

(** The siblings that are recorded are those of the frontier. *)
Lemma get_sibling_hashes_frontier m n j idxs sibs :
  0 <= j -> (j + 1) * 2 ^ Z.of_nat n <= 2 ^ 52 ->
  get_sibling_hashes_impl f (j * 2 ^ Z.of_nat n) n idxs sibs m =
    (Ret ((frontier (page_node (m_ht m)) n j idxs).1, sibs ++ (frontier (page_node (m_ht m)) n j idxs).2), m).
Proof.
  revert j idxs sibs. induction n as [|n IH]; intros j idxs sibs Hj Hn; cbn [get_sibling_hashes_impl frontier];
    rewrite range_end by lia.
  - destruct idxs as [|i rest]; [by rewrite (bind_Ret _ _ _ _ _ (get_node_hash_range m 0 j Hj Hn))|].
    destruct (_ <=? i); [by rewrite (bind_Ret _ _ _ _ _ (get_node_hash_range m 0 j Hj Hn))|].
    cbn [fst snd]. by rewrite app_nil_r.
  - destruct idxs as [|i rest]; [by rewrite (bind_Ret _ _ _ _ _ (get_node_hash_range m (S n) j Hj Hn))|].
    destruct (_ <=? i); [by rewrite (bind_Ret _ _ _ _ _ (get_node_hash_range m (S n) j Hj Hn))|].
    destruct (half_bound n j) as [E1 E2]. rewrite <-E1.
    assert (Hb : (2 * j + 1 + 1) * 2 ^ Z.of_nat n <= 2 ^ 52) by lia. pose proof (pow2_pos (Z.of_nat n)).
    rewrite (bind_Ret _ _ _ _ _ (IH (2 * j) (i :: rest) sibs ltac:(lia) ltac:(lia))).
    assert (Eu : uint64 (2 * j * 2 ^ Z.of_nat n + Z.shiftl 1 (Z.of_nat n)) = (2 * j + 1) * 2 ^ Z.of_nat n).
    { rewrite range_end by lia. done. }
    rewrite Eu, IH by lia. cbn [fst snd]. by rewrite app_assoc.
Qed.

(** What a recording does: it touches pages, and changes the contents of
    pages that it has touched. *)
Inductive recording_step : record_context -> record_context -> Prop :=
| recording_touch address s s' : is_u 64 address -> touch_page address s = (Ret (), s') -> recording_step s s'
| recording_change s m' :
    machine_ok m' -> m_ht m' = m_ht (m_m s) ->
    (forall p, contains (4096 * p) (touched_pages s) = false -> page_bytes (m_contents m') p = page_bytes (m_contents (m_m s)) p) ->
    recording_step s {| touched_pages := touched_pages s; m_m := m' |}.

Definition recording_of (m : machine) : record_context := {| touched_pages := []; m_m := m |}.

(** The pages that are held are as they were at the start, in order. *)
Record records (m : machine) (s : record_context) : Prop := {
  rec_machine : machine_ok (m_m s) /\ m_ht (m_m s) = m_ht m;
  rec_sorted : StronglySorted Z.lt (map fst (touched_pages s));
  rec_pages : Forall (fun p => exists i, 0 <= i < 2 ^ 52 /\ p = (4096 * i, page_bytes (m_contents m) i)) (touched_pages s);
  rec_others : forall i, contains (4096 * i) (touched_pages s) = false ->
    page_bytes (m_contents (m_m s)) i = page_bytes (m_contents m) i
}.

Lemma contains_false address ps : contains address ps = false <-> address ∉ map fst ps.
Proof.
  unfold contains. induction ps as [|p ps IH]; cbn [existsb map]; [split; [intros _; apply not_elem_of_nil|done]|].
  rewrite orb_false_iff, IH, not_elem_of_cons, Z.eqb_neq. split; intros [? ?]; split; congruence.
Qed.

Lemma emplace_perm address data ps : emplace address data ps ≡ₚ (address, data) :: ps.
Proof.
  induction ps as [|p ps IH]; cbn [emplace]; [done|]. destruct (address <? p.1); [done|]. rewrite IH. apply Permutation_swap.
Qed.

Lemma emplace_sorted address data ps :
  StronglySorted Z.lt (map fst ps) -> address ∉ map fst ps -> StronglySorted Z.lt (map fst (emplace address data ps)).
Proof.
  induction ps as [|p ps IH]; cbn [emplace map]; intros Hs Hn; [by repeat constructor|].
  apply not_elem_of_cons in Hn as [Hne Hn]. apply StronglySorted_inv in Hs as [Hs Hp].
  destruct (address <? p.1) eqn:E; cbn [map fst].
  - constructor; [by constructor|]. constructor; [lia|]. eapply Forall_impl; [exact Hp|]. cbn. lia.
  - constructor; [by apply IH|]. rewrite emplace_perm. cbn [map fst]. constructor; [lia|done].
Qed.

Lemma page_of_address a : is_u 64 a -> exists i, 0 <= i < 2 ^ 52 /\ Z.land a (not64 PAGE_OFFSET_MASK) = 4096 * i.
Proof.
  intros Ha. exists (a / 4096). change PAGE_OFFSET_MASK with (Z.ones 12). rewrite land_not64_ones by (done || lia).
  unfold is_u in Ha. split; [|change (2 ^ 12) with 4096; lia].
  split; [apply Z.div_pos; lia|apply Z.div_lt_upper_bound; lia].
Qed.

(** What touching a page does. *)
Definition touched (address : Z) (s : record_context) : record_context :=
  let page := Z.land address (not64 PAGE_OFFSET_MASK) in
  if contains page (touched_pages s) then s
  else {| touched_pages := emplace page (bytes_at (m_contents (m_m s)) page AR_PAGE_SIZE) (touched_pages s); m_m := m_m s |}.

Lemma touch_page_run a s : machine_ok (m_m s) -> is_u 64 a -> touch_page a s = (Ret (), touched a s).
Proof.
  intros Hok Ha. destruct (page_of_address a Ha) as (i & Hi & Ei). unfold touch_page, touched. rewrite Ei. cbv zeta.
  rewrite (bind_Ret _ _ _ _ _ (eq_refl : get s = (Ret s, s))). destruct (contains _ _); [done|].
  assert (Er : on_m (read_memory (4096 * i) AR_PAGE_SIZE) s = (Ret (bytes_at (m_contents (m_m s)) (4096 * i) AR_PAGE_SIZE), s)).
  { unfold on_m. rewrite read_memory_spec by (done || (change AR_PAGE_SIZE with 4096; lia)). by destruct s. }
  by rewrite (bind_Ret _ _ _ _ _ Er).
Qed.

Lemma recording_step_records m s s' : records m s -> recording_step s s' -> records m s'.
Proof.
  intros [[Hok Hht] Hs Hp Ho] Hstep. destruct Hstep as [a s s' Ha E|s m' Hok' Hht' Hsame].
  - rewrite touch_page_run in E by done. injection E as <-. destruct (page_of_address a Ha) as (i & Hi & Ei).
    unfold touched. rewrite Ei. cbv zeta. destruct (contains (4096 * i) (touched_pages s)) eqn:Ec; [done|].
    apply contains_false in Ec as Ec'.
    assert (Hdata : bytes_at (m_contents (m_m s)) (4096 * i) AR_PAGE_SIZE = page_bytes (m_contents m) i) by by apply Ho.
    split; cbn [touched_pages m_m].
    + by split.
    + by apply emplace_sorted.
    + rewrite emplace_perm. constructor; [|done]. exists i. split; [done|]. by f_equal.
    + intros k Hk. apply Ho. apply contains_false. apply contains_false in Hk. rewrite emplace_perm in Hk.
      cbn [map] in Hk. by apply not_elem_of_cons in Hk as [_ Hk].
  - split; cbn [touched_pages m_m]; [by rewrite Hht'|done..|]. intros i Hi. rewrite Hsame by done. by apply Ho.
Qed.

Lemma rtc_records m s : machine_ok m -> rtc recording_step (recording_of m) s -> records m s.
Proof.
  intros Hok Hr. assert (H0 : records m (recording_of m)).
  { split; [done|constructor|constructor|done]. }
  induction Hr as [s|s s1 s2 Hstep _ IH]; [done|]. apply IH. by eapply recording_step_records.
Qed.

(** Writing a register is a step of both kinds. *)
Lemma log_write_reg_run m reg val s :
  records m s -> is_u 63 reg -> is_read_only_reg reg = false -> is_machine_reg reg = true ->
  let s' := touched reg s in
  log_write_reg reg val s =
    (Ret (), {| touched_pages := touched_pages s'; m_m := set_contents (mem_write reg val) (m_m s') |}).
Proof.
  intros Hr Hu Hro Hreg. cbv zeta. pose proof (rec_machine m s Hr) as [Hok _]. unfold log_write_reg.
  assert (machine_reg_address reg 0 = reg) as ->.
  { unfold machine_reg_address, uint64. rewrite Z.mul_0_l, Z.add_0_r. apply uwrap_small. unfold is_u in *. lia. }
  rewrite (bind_Ret _ _ _ _ _ (touch_page_run reg s Hok ltac:(unfold is_u in *; lia))).
  unfold on_m, write_reg. by rewrite Hro, Hreg.
Qed.

Lemma touched_contains a s : contains (Z.land a (not64 PAGE_OFFSET_MASK)) (touched_pages (touched a s)) = true.
Proof.
  unfold touched. cbv zeta. destruct (contains _ (touched_pages s)) eqn:E; [done|]. cbn [touched_pages].
  apply not_false_iff_true. intros Hn%contains_false. rewrite emplace_perm in Hn. cbn [map fst] in Hn. set_solver.
Qed.

Lemma log_write_reg_steps m reg val s :
  records m s -> is_u 63 reg -> is_read_only_reg reg = false -> is_machine_reg reg = true ->
  rtc recording_step s (log_write_reg reg val s).2.
Proof.
  intros Hr Hu Hro Hreg. rewrite (log_write_reg_run m) by done. cbv zeta. cbn [snd].
  assert (Hu64 : is_u 64 reg) by (unfold is_u in *; lia). pose proof (rec_machine m s Hr) as [Hok _].
  assert (Ht : recording_step s (touched reg s)).
  { apply (recording_touch reg); [done|]. by apply touch_page_run. }
  eapply rtc_l; [exact Ht|]. apply rtc_once. pose proof (recording_step_records m s _ Hr Ht) as [[Hok1 _] _ _ _].
  apply recording_change; [|done|].
  - apply machine_ok_write; [done|]. by apply is_machine_reg_covered.
  - intros p Hp. cbn [set_contents m_contents]. apply page_bytes_ext. intros w Hw. unfold mem_write.
    rewrite word_at_insert, decide_False; [done|]. intros <-.
    destruct (page_of_address reg Hu64) as (i & _ & Ei). pose proof (touched_contains reg s) as Hc.
    rewrite Ei in Hc. assert (i = p) as ->; [|congruence].
    change PAGE_OFFSET_MASK with (Z.ones 12) in Ei. rewrite land_not64_ones in Ei by (done || lia). change (2 ^ 12) with 4096 in Ei.
    unfold in_node in Hw. change (2 ^ Z.of_nat 9) with 512 in Hw. rewrite word_index_div, Z.div_div in Hw by lia.
    change (8 * 512) with 4096 in Hw. lia.
Qed.

(** ** The log that is written *)

Lemma length_frontier (tree : Z -> list Z) n j idxs :
  StronglySorted Z.lt idxs -> from (j * 2 ^ Z.of_nat n) idxs ->
  (length (frontier tree n j idxs).2 + n * length (frontier tree n j idxs).1 <= 1 + n * length idxs)%nat.
Proof.
  revert j idxs. induction n as [|n IH]; intros j [|i rest] Hs Hf; cbn [frontier].
  - cbn. lia.
  - destruct (_ <=? i); cbn [fst snd length]; lia.
  - cbn. lia.
  - destruct (_ <=? i) eqn:E; [cbn [fst snd length]; lia|]. apply Z.leb_gt in E. cbn [fst snd]. rewrite length_app.
    destruct (half_bound n j) as [E1 E2]. rewrite <-E1 in Hf.
    pose proof (IH (2 * j) (i :: rest) Hs Hf) as Hl.
    pose proof (frontier_sorted tree n (2 * j) (i :: rest) Hs Hf) as Hs'.
    destruct (frontier_used tree n (2 * j) (i :: rest) Hs Hf) as (u & Eu & _ & Hf').
    pose proof (IH (2 * j + 1) _ Hs' Hf') as Hr.
    (* the page at the head is used *)
    assert (Hused : (length (frontier tree n (2 * j + 1) (frontier tree n (2 * j) (i :: rest)).1).1 < length (i :: rest))%nat).
    { destruct (frontier_used tree (S n) j (i :: rest) Hs ltac:(by rewrite <-E1)) as (v & Ev & _ & Hv).
      cbn [frontier] in Ev, Hv. rewrite (proj2 (Z.leb_gt _ _) E) in Ev, Hv. cbn [fst] in Ev, Hv.
      destruct v as [|x v]; [|apply (f_equal length) in Ev; rewrite length_app in Ev; cbn [length] in *; lia]. cbn [app] in Ev. rewrite <-Ev in Hv.
      apply Forall_cons in Hv as [Hv _]. lia. }
    nia.
Qed.

Definition recorded_log (before : list Z) (mcycle_count : Z) (after : list Z) (s : record_context) : step_log (list Z) :=
  let indices := map (fun p => Z.shiftr p.1 HASH_TREE_LOG2_PAGE_SIZE) (touched_pages s) in
  {| logged_root_hash_before := before; logged_mcycle_count := mcycle_count; logged_root_hash_after := after;
     log_hash_function := f;
     pages := map (fun p => {| page_index := Z.shiftr p.1 HASH_TREE_LOG2_PAGE_SIZE; page_data := p.2; page_hash := all_zeros |})
                  (touched_pages s);
     sibling_hashes := (frontier (page_node (m_ht (m_m s))) 52 0 indices).2 |}.

Lemma indices_recorded before n after s :
  indices (pages (recorded_log before n after s)) = map (fun p => Z.shiftr p.1 HASH_TREE_LOG2_PAGE_SIZE) (touched_pages s).
Proof. unfold indices, recorded_log. cbn [pages]. rewrite map_map. done. Qed.

Lemma shiftr_page i : Z.shiftr (4096 * i) HASH_TREE_LOG2_PAGE_SIZE = i.
Proof. unfold HASH_TREE_LOG2_PAGE_SIZE. rewrite Z.shiftr_div_pow2, Z.mul_comm by lia. by apply Z.div_mul. Qed.

Lemma records_indices m s :
  records m s ->
  let idxs := map (fun p => Z.shiftr p.1 HASH_TREE_LOG2_PAGE_SIZE) (touched_pages s) in
  StronglySorted Z.lt idxs /\ Forall (fun i => 0 <= i < 2 ^ 52) idxs.
Proof.
  intros [_ Hs Hp _]. cbv zeta. induction (touched_pages s) as [|p ps IH]; cbn [map] in *; [by split; constructor|].
  apply StronglySorted_inv in Hs as [Hs Hlt]. apply Forall_cons in Hp as [(i & Hi & ->) Hp]. destruct (IH Hs Hp) as [IHs IHp].
  cbn [fst] in *. rewrite shiftr_page. split; [|by constructor]. constructor; [done|]. clear IH IHs IHp Hs.
  induction ps as [|q ps IH]; cbn [map] in *; [constructor|]. apply Forall_cons in Hlt as [Hlt Hlts].
  apply Forall_cons in Hp as [(k & Hk & ->) Hp]. cbn [fst] in *. rewrite shiftr_page. constructor; [lia|by apply IH].
Qed.

Lemma get_sibling_hashes_run m s :
  records m s -> get_sibling_hashes f s =
    (Ret (frontier (page_node (m_ht (m_m s))) 52 0 (map (fun p => Z.shiftr p.1 HASH_TREE_LOG2_PAGE_SIZE) (touched_pages s))).2, s).
Proof.
  intros Hr. destruct (records_indices m s Hr) as [Hs Hb]. unfold get_sibling_hashes.
  rewrite (bind_Ret _ _ _ _ _ (eq_refl : get s = (Ret s, s))). set (idxs := map _ _) in *.
  change (Z.to_nat (HASH_TREE_LOG2_ROOT_SIZE - HASH_TREE_LOG2_PAGE_SIZE)) with 52%nat.
  pose proof (get_sibling_hashes_frontier (m_m s) 52 0 idxs [] ltac:(lia) ltac:(lia)) as E. rewrite Z.mul_0_l in E.
  rewrite (frontier_root _ 52) in E by done.
  assert (Em : on_m (get_sibling_hashes_impl f 0 52 idxs []) s = (Ret ([], (frontier (page_node (m_ht (m_m s))) 52 0 idxs).2), s)).
  { unfold on_m. rewrite E. by destruct s. }
  by rewrite (bind_Ret _ _ _ _ _ Em).
Qed.

Lemma log_image_recorded before n after s :
  log_image (recorded_log before n after s) =
    bytes_of_hash before ++ le_bytes 8 n ++ bytes_of_hash after ++ le_bytes 8 (hash_function_code f) ++
    le_bytes 8 (Z.of_nat (length (touched_pages s))) ++ mjoin (map page_image (touched_pages s)) ++
    le_bytes 8 (Z.of_nat (length (sibling_hashes (recorded_log before n after s)))) ++
    mjoin (map bytes_of_hash (sibling_hashes (recorded_log before n after s))).
Proof.
  unfold log_image, page_count, sibling_count.
  assert (length (pages (recorded_log before n after s)) = length (touched_pages s)) as -> by apply length_map.
  assert (map page_type_image (pages (recorded_log before n after s)) = map page_image (touched_pages s)) as ->.
  { unfold recorded_log. cbn [pages]. rewrite map_map. by apply map_ext. }
  reflexivity.
Qed.

Lemma finish_recording_image m before n after s :
  records m s -> finish_recording f before n after s = (Ret (log_image (recorded_log before n after s)), s).
Proof.
  intros Hr. rewrite log_image_recorded. unfold finish_recording.
  rewrite (bind_Ret _ _ _ _ _ (get_sibling_hashes_run m s Hr)), (bind_Ret _ _ _ _ _ (eq_refl : get s = (Ret s, s))).
  unfold recorded_log. cbn [sibling_hashes].
  exact eq_refl.
Qed.

Lemma page_node_equiv `{IHasher K} m m' i : m ≡ m' -> page_node m i = page_node m' i :> K.
Proof.
  intros E. unfold page_node. apply node_ext. intros j _. apply leaf_ext. intros k _. apply E.
Qed.

Lemma recorded_log_ok m before n after s :
  records m s -> touched_pages s <> [] -> Z.of_nat (length (touched_pages s)) < 2 ^ 40 ->
  is_u 64 n -> length before = 32%nat -> length after = 32%nat -> log_ok (recorded_log before n after s).
Proof.
  intros Hr Hsome Hlen Hn Hb Ha. destruct (records_indices m s Hr) as [Hs Hi].
  assert (Hd : Forall data_size_ok (pages (recorded_log before n after s))).
  { unfold recorded_log. cbn [pages]. apply Forall_fmap. eapply Forall_impl; [exact (rec_pages m s Hr)|].
    intros p (i & _ & ->). apply length_page_bytes. }
  assert (Hsib : Forall hash_ok (sibling_hashes (recorded_log before n after s))).
  { unfold recorded_log. cbn [sibling_hashes]. set (idxs := map _ _). clearbody idxs.
    assert (Hfr : forall k j l, Forall hash_ok (frontier (page_node (m_ht (m_m s))) k j l).2).
    { intros k. induction k as [|k IH]; intros j [|i rest]; cbn [frontier]; try case_match; cbn [snd];
        try (by apply Forall_nil); try (apply Forall_singleton, bytes_hash_ok, length_page_node).
      apply Forall_app. by split. }
    apply Hfr. }
  assert (Hcount : (length (sibling_hashes (recorded_log before n after s)) <= 1 + 52 * length (touched_pages s))%nat).
  { unfold recorded_log. cbn [sibling_hashes]. set (idxs := map _ _) in *.
    assert (Hl : length idxs = length (touched_pages s)) by apply length_map. rewrite <-Hl.
    pose proof (length_frontier (page_node (m_ht (m_m s))) 52 0 idxs Hs) as Hf.
    assert (Hf0 : from (0 * 2 ^ Z.of_nat 52) idxs) by (eapply Forall_impl; [exact Hi|]; cbn; lia). specialize (Hf Hf0). lia. }
  split; try done.
  - unfold recorded_log. cbn [pages]. by destruct (touched_pages s).
  - apply (proj1 (Forall_fmap page_index (is_u 64) (pages (recorded_log before n after s)))).
    change (page_index <$> ?l) with (indices l). rewrite indices_recorded. eapply Forall_impl; [exact Hi|]. cbn. unfold is_u. lia.
  - by rewrite indices_recorded.
  - unfold recorded_log. cbn [pages]. apply Forall_fmap, Forall_true. done.
  - unfold log_image. rewrite !length_app, !length_le_bytes8, length_pages_image, length_hashes_image by done.
    change (length (bytes_of_hash (logged_root_hash_before (recorded_log before n after s)))) with (length before).
    change (length (bytes_of_hash (logged_root_hash_after (recorded_log before n after s)))) with (length after).
    assert (length (pages (recorded_log before n after s)) = length (touched_pages s)) as -> by apply length_map. lia.
Qed.

Lemma recorded_holds m before n after s :
  records m s -> Forall (holds (m_contents m)) (pages (recorded_log before n after s)).
Proof.
  intros Hr. unfold recorded_log. cbn [pages]. apply Forall_fmap. eapply Forall_impl; [exact (rec_pages m s Hr)|].
  intros p (i & _ & ->). unfold compose, holds. cbn [page_data page_index fst snd]. by rewrite shiftr_page.
Qed.

Lemma recorded_root m before n after s :
  records m s -> tree_ok m ->
  compute_root_hash (recorded_log before n after s) =
    Ret (root_hash_of (m_contents m), set_pages (map (hashed f) (pages (recorded_log before n after s))) (recorded_log before n after s)).
Proof.
  intros Hr Ht. destruct (records_indices m s Hr) as [Hs Hi]. pose proof (rec_machine m s Hr) as [_ Em].
  pose proof (indices_recorded before n after s) as Ei. set (log := recorded_log before n after s) in *.
  assert (Hf : log_hash_function log = f) by reflexivity.
  assert (Hsib : sibling_hashes log = (frontier (page_node (m_ht m)) 52 0 (indices (pages log))).2) by (rewrite Ei, <-Em; reflexivity).
  pose proof (recorded_holds m before n after s Hr) as Hh. fold log in Hh. clearbody log.
  apply (compute_root_hash_complete f log (m_ht m) (m_contents m) Hf).
  - split; rewrite Ei; [exact Hs|]. eapply Forall_impl; [exact Hi|]. cbn. lia.
  - rewrite Ei. eapply Forall_impl; [exact Hi|]. cbn. lia.
  - exact Hh.
  - intros i _ _. by apply page_node_equiv.
  - exact Hsib.
Qed.

(** C22: recording is complete.  Whatever sequence of touches and of
    changes to touched pages a recording makes of a machine whose hash tree
    is up to date, the log that [finish] writes is opened by the replay, which
    finds the root hash in it, the counts and hashes that were given, and the
    pages as they were before the recording. *)
Theorem recorded_log_opens m s mcycle_count root_hash_after :
  machine_ok m -> tree_ok m -> rtc recording_step (recording_of m) s ->
  touched_pages s <> [] -> Z.of_nat (length (touched_pages s)) < 2 ^ 40 ->
  is_u 64 mcycle_count -> length root_hash_after = 32%nat ->
  exists img log,
    finish_recording f (root_hash_of (m_contents m)) mcycle_count root_hash_after s = (Ret img, s) /\
    open_step_log img = Ret log /\
    logged_root_hash_before log = root_hash_of (m_contents m) /\ logged_mcycle_count log = mcycle_count /\
    logged_root_hash_after log = root_hash_after /\ log_hash_function log = f /\
    map (fun p => (4096 * page_index p, page_data p)) (pages log) = touched_pages s /\
    Forall (holds (m_contents m)) (pages log).
Proof.
  intros Hok Ht Hrec Hsome Hlen Hn Ha. pose proof (rtc_records m s Hok Hrec) as Hr.
  set (before := root_hash_of (m_contents m)). set (log := recorded_log before mcycle_count root_hash_after s).
  assert (Hb : length before = 32%nat) by (unfold before, root_hash_of; rewrite TREE_DEPTH_value; apply length_node).
  exists (log_image log), (set_pages (map (hashed f) (pages log)) log).
  pose proof (recorded_holds m before mcycle_count root_hash_after s Hr) as Hh.
  split; [by eapply finish_recording_image|]. split.
  - unfold open_step_log. rewrite parse_log_image by (by eapply recorded_log_ok). cbn [mbind outcome_bind].
    unfold log. rewrite (recorded_root m) by done. cbn [mbind outcome_bind].
    rewrite bool_decide_eq_true_2 by done. done.
  - do 4 (split; [done|]). split.
    + cbn [set_pages pages]. rewrite map_map. unfold log, recorded_log. cbn [pages]. rewrite map_map.
      rewrite <-(map_id (touched_pages s)) at 2. apply map_ext_in. intros p Hp.
      pose proof (rec_pages m s Hr) as Hps. rewrite List.Forall_forall in Hps. destruct (Hps p Hp) as (i & _ & ->).
      cbn [hashed page_index page_data fst snd]. by rewrite shiftr_page.
    + cbn [set_pages pages]. apply Forall_fmap. eapply Forall_impl; [exact Hh|]. intros p. done.
Qed.
End recording.

(** A recording that writes one register. *)
Definition recorded_machine : machine := set_ht (fun c _ => c) sample_machine.

Lemma recorded_log_opens_witness :
  let s := (log_write_reg machine_reg.mcycle 1 (recording_of recorded_machine)).2 in
  exists img log,
    finish_recording keccak256 (@root_hash_of _ (variant_hasher_of keccak256) sample_memory) 1 (replicate 32 0) s = (Ret img, s) /\
    open_step_log img = Ret log /\
    logged_root_hash_before log = @root_hash_of _ (variant_hasher_of keccak256) sample_memory /\ logged_mcycle_count log = 1 /\
    logged_root_hash_after log = replicate 32 0 /\ log_hash_function log = keccak256 /\
    map (fun p => (4096 * page_index p, page_data p)) (pages log) = touched_pages s /\
    Forall (holds sample_memory) (pages log).
Proof.
  assert (Hok : machine_ok recorded_machine) by apply machine_ok_set_ht, sample_machine_ok.
  assert (Hr : records recorded_machine (recording_of recorded_machine)) by (by apply rtc_records; [|apply rtc_refl]).
  assert (Es : touched_pages (log_write_reg machine_reg.mcycle 1 (recording_of recorded_machine)).2 =
               [(0, page_bytes sample_memory 0)]) by (rewrite (log_write_reg_run recorded_machine) by done; done).
  assert (Hs : rtc recording_step (recording_of recorded_machine) (log_write_reg machine_reg.mcycle 1 (recording_of recorded_machine)).2).
  { apply (log_write_reg_steps recorded_machine); [exact Hr|split; [discriminate|reflexivity]|reflexivity|reflexivity]. }
  intros s. change (log_write_reg machine_reg.mcycle 1 (recording_of recorded_machine)).2 with s in Hs, Es. clearbody s.
  apply (recorded_log_opens keccak256 recorded_machine s 1 (replicate 32 0)).
  - exact Hok.
  - by intros i.
  - exact Hs.
  - rewrite Es. discriminate.
  - rewrite Es. reflexivity.
  - split; [discriminate|reflexivity].
  - reflexivity.
Defined.
