(* ===== verification/StepAccess.v ===== *)
(** * State access over a step log (src/replay-step-state-access.hpp)

    The interpreter runs a step again on the pages of a log.  Registers, TLB
    slots, the PMA table and memory are all found in these pages, and fast
    addresses are addresses of the host: the log image is in its memory.
    src/mock-address-range.hpp gives the address ranges that the PMA table
    describes.  The class [StepAccess] is what the interpreter uses of an access, with its
    handling of TLB slots (src/interpret.cpp); it has two instances, the
    replay and the memory of the machine. *)

From S2P Require Import Prelude Htif Shadow HashTree Memory Machine MachineFacts UarchMemory Riscv Hart Keccak256 VariantHasher StepLog.

(** ** Address ranges without contents *)

Definition hex_range (start length : Z) : string := "0x" +:+ to_hex start +:+ ":0x" +:+ to_hex length.

Definition no_flags : pmas_flags :=
  {| flag_M := false; flag_IO := false; flag_R := false; flag_W := false; flag_X := false;
     flag_IR := false; flag_IW := false; flag_DID := PMA_ISTART_DID.empty |}.

(** The constructor of [address_range], with its checks. *)
Definition address_range_new (description : string) (start length : Z) (f : pmas_flags) : outcome address_range :=
  let m_end := uint64 (start + length) in
  if bool_decide (description = "") then
    Throw (runtime_error ("address range " +:+ hex_range start length +:+ " has empty description"))
  else if uint64 (2 ^ 64 - 1 - length) <=? start then
    Throw (runtime_error (hex_range start length +:+ " is out of bounds when initializing " +:+ description))
  else if negb (Z.land start (not64 PMA_ISTART_START_MASK) =? 0) then
    Throw (runtime_error ("start of " +:+ description +:+ " (0x" +:+ to_hex start +:+
                          ") must be aligned to page boundary (every 4096 bytes)"))
  else if negb (Z.land m_end (not64 PMA_ISTART_START_MASK) =? 0) then
    Throw (runtime_error ("length of " +:+ description +:+ " (0x" +:+ to_hex length +:+
                          ") must be multiple of page length (4096 bytes)"))
  else if (length =? 0) && negb (start =? 0) then
    Throw (runtime_error ("empty range with length 0 must start at 0 when initializing " +:+ description))
  else if (length =? 0) && negb (pmas_pack_istart f start =? 0) then
    Throw (runtime_error ("empty range must have clear flags when initializing " +:+ description))
  else mret {| m_description := description; m_start := start; m_end := m_end; m_flags := f;
               has_host_memory := false; is_host_read_only := false |}.

(** [address_range{description}] *)
Definition address_range_empty (description : string) : address_range :=
  {| m_description := description; m_start := 0; m_end := 0; m_flags := no_flags;
     has_host_memory := false; is_host_read_only := false |}.

Definition device_flags (DID : Z) : pmas_flags :=
  {| flag_M := false; flag_IO := true; flag_R := true; flag_W := true; flag_X := false;
     flag_IR := false; flag_IW := false; flag_DID := DID |}.
Definition clint_address_range : outcome address_range :=
  address_range_new "CLINT device" AR_CLINT_START AR_CLINT_LENGTH (device_flags PMA_ISTART_DID.CLINT).
Definition plic_address_range : outcome address_range :=
  address_range_new "PLIC device" AR_PLIC_START AR_PLIC_LENGTH (device_flags PMA_ISTART_DID.PLIC).
Definition htif_address_range : outcome address_range :=
  address_range_new "HTIF device" AR_HTIF_START AR_HTIF_LENGTH (device_flags PMA_ISTART_DID.HTIF).

Definition check_mock_address_range (ar : address_range) (start length : Z) (flags : pmas_flags) : outcome address_range :=
  if negb (bool_decide (m_flags ar = flags)) || negb (start =? get_start ar) || negb (length =? get_length ar) then
    Throw (runtime_error "incompatible mock address range")
  else mret ar.

Definition make_mock_address_range (istart ilength : Z) : outcome address_range :=
  let '(flags, start) := pmas_unpack_istart istart in
  if flag_M flags then
    ar ← address_range_new (pmas_get_DID_name (flag_DID flags)) start ilength flags;
    check_mock_address_range ar start ilength flags
  else if ilength =? 0 then check_mock_address_range (address_range_empty "empty") start ilength flags
  else if flag_DID flags =? PMA_ISTART_DID.CLINT then
    ar ← clint_address_range; check_mock_address_range ar start ilength flags
  else if flag_DID flags =? PMA_ISTART_DID.PLIC then
    ar ← plic_address_range; check_mock_address_range ar start ilength flags
  else if flag_DID flags =? PMA_ISTART_DID.HTIF then
    ar ← htif_address_range; check_mock_address_range ar start ilength flags
  else Throw (runtime_error "unhandled mock address range").

(** [std::monostate] is [None]. *)
Definition get_mock_address_range (mock : option address_range) : outcome address_range :=
  match mock with
  | Some ar => mret ar
  | None => Throw (runtime_error "unhandled mock address range")
  end.

(** ** What the interpreter uses of an access

    [F] is the type of fast addresses. *)
Class StepAccess (S F : Type) := {
  sa_read_register : Z -> M S Z;
  sa_write_register : Z -> Z -> M S ();
  sa_read_pma : Z -> M S address_range;
  sa_get_faddr : Z -> M S F;                          (* get_faddr(paddr) *)
  sa_read_word : Z -> F -> Z -> M S Z;                (* read_memory_word<T>(faddr + delta) *)
  sa_write_word : Z -> F -> Z -> Z -> M S ();
  sa_vaddr_page : Z -> Z -> M S Z;                    (* read_tlb_vaddr_page<SET>(slot_index) *)
  sa_init_slot : Z -> Z -> M S Z;                     (* init_hot_tlb_slot<SET>(slot_index) *)
  sa_verify_slot : Z -> Z -> M S bool;                (* verify_cold_tlb_slot<SET>(slot_index) *)
  sa_pma_index : Z -> Z -> M S Z;                     (* read_tlb_pma_index<SET>(slot_index) *)
  sa_hit_faddr : Z -> Z -> Z -> M S F;                (* vaddr + read_tlb_vf_offset<SET>(slot_index) *)
  sa_map_slot : Z -> Z -> Z -> F -> Z -> M S ();      (* write_tlb<SET>(slot_index, vaddr_page, faddr - vaddr, pma_index) *)
  sa_flush_slot : Z -> Z -> M S ()                    (* write_tlb<SET>(slot_index, TLB_INVALID_PAGE, 0, TLB_INVALID_PMA_INDEX) *)
}.

(** ** The access of the replay *)

Record hot_tlb_slot := { hot_vaddr_page : Z; hot_vh_offset : Z }.

Section replay.
Context `{SH : StepHash H}.

Record step_replay_context := {
  r_log : step_log H;
  r_pages : Z;                            (* the address of m_context.pages *)
  r_ars : list (option address_range);    (* m_context.ars *)
  r_tlb : list (list hot_tlb_slot);       (* m_context.tlb *)
  m_shadow_regs_page : option nat         (* nullptr is None *)
}.

Definition set_log (log : step_log H) (c : step_replay_context) : step_replay_context :=
  {| r_log := log; r_pages := r_pages c; r_ars := r_ars c; r_tlb := r_tlb c; m_shadow_regs_page := m_shadow_regs_page c |}.
Definition set_ar (i : nat) (ar : address_range) (c : step_replay_context) : step_replay_context :=
  {| r_log := r_log c; r_pages := r_pages c; r_ars := <[i := Some ar]> (r_ars c); r_tlb := r_tlb c;
     m_shadow_regs_page := m_shadow_regs_page c |}.
Definition set_hot_slot (SET slot_index : Z) (slot : hot_tlb_slot) (c : step_replay_context) : step_replay_context :=
  {| r_log := r_log c; r_pages := r_pages c; r_ars := r_ars c;
     r_tlb := alter (fun set => <[Z.to_nat slot_index := slot]> set) (Z.to_nat SET) (r_tlb c);
     m_shadow_regs_page := m_shadow_regs_page c |}.
Definition set_shadow_regs_page (page : nat) (c : step_replay_context) : step_replay_context :=
  {| r_log := r_log c; r_pages := r_pages c; r_ars := r_ars c; r_tlb := r_tlb c; m_shadow_regs_page := Some page |}.

Definition unverified_slot : hot_tlb_slot := {| hot_vaddr_page := TLB_UNVERIFIED_PAGE; hot_vh_offset := 0 |}.

(** [m_context.tlb[SET][slot_index]] *)
Definition hot_slot (c : step_replay_context) (SET slot_index : Z) : hot_tlb_slot :=
  default unverified_slot (r_tlb c !! Z.to_nat SET ≫= lookup (Z.to_nat slot_index)).

(** The constructor, with the image at host address [log_image_host]. *)
Definition replay_step_state_access (log_image_host : Z) (log_image : list Z) : outcome step_replay_context :=
  log ← open_step_log log_image;
  mret {| r_log := log; r_pages := log_image_host + (2 * MACHINE_HASH_SIZE + 3 * sizeof_uint64);
          r_ars := replicate (Z.to_nat PMA_MAX) None;
          r_tlb := replicate (Z.to_nat TLB_NUM_SETS_) (replicate (Z.to_nat TLB_SET_SIZE) unverified_slot);
          m_shadow_regs_page := None |}.

(** ** Pages and host addresses

    A pointer to a page is its position in the array. *)

(** [cast_ptr_to_host_addr(pages[i].data)] *)
Definition page_host (c : step_replay_context) (i : nat) : Z :=
  r_pages c + Z.of_nat i * sizeof_page_type + sizeof_uint64.

(** [std::ranges::lower_bound]: the first element that is not less. *)
Fixpoint lower_bound {A} (less : A -> bool) (l : list A) : nat :=
  match l with
  | [] => O
  | x :: l => if less x then S (lower_bound less l) else O
  end.

Definition try_find_page (c : step_replay_context) (paddr_page : Z) : option nat :=
  let index := Z.shiftr paddr_page AR_LOG2_PAGE_SIZE in
  let it := lower_bound (fun p => page_index p <? index) (pages (r_log c)) in
  match pages (r_log c) !! it with
  | Some p => if page_index p =? index then Some it else None
  | None => None
  end.

Definition try_find_host_page (c : step_replay_context) (haddr_page : Z) : option nat :=
  let n := length (pages (r_log c)) in
  let it := lower_bound (fun i => page_host c i <? haddr_page) (seq 0 n) in
  if (it <? n)%nat && (page_host c it =? haddr_page) then Some it else None.

Definition found (page_log : option nat) : outcome nat :=
  match page_log with
  | Some i => mret i
  | None => Throw (runtime_error "required page not found")
  end.
Definition find_page (paddr_page : Z) : M step_replay_context nat := fun s => (found (try_find_page s paddr_page), s).
Definition find_host_page (haddr_page : Z) : M step_replay_context nat := fun s => (found (try_find_host_page s haddr_page), s).

(** The page and the offset in its data of a host address.  The code uses
    no other addresses; the model throws on them. *)
Definition locate (c : step_replay_context) (haddr size : Z) : outcome (nat * Z) :=
  let o := haddr - r_pages c in
  let i := Z.to_nat (o / sizeof_page_type) in
  let offset := o mod sizeof_page_type - sizeof_uint64 in
  if (0 <=? o) && (i <? length (pages (r_log c)))%nat && (0 <=? offset) && (offset + size <=? AR_PAGE_SIZE)
  then mret (i, offset)
  else Throw (logic_error "not an address of page data").

(** [aliased_aligned_read] and [aliased_aligned_write] of [size] bytes. *)
Definition aliased_read (size haddr : Z) : M step_replay_context Z :=
  c ← get;
  '(i, offset) ← lift (locate c haddr size);
  match pages (r_log c) !! i with
  | Some p => mret (le_value (bytes_from (page_data p) offset size))
  | None => throw (logic_error "not an address of page data")
  end.

Definition set_page_data (f : list Z -> list Z) (p : page_type H) : page_type H :=
  {| page_index := page_index p; page_data := f (page_data p); page_hash := page_hash p |}.

(** Replaces bytes from [offset] on. *)
Definition splice (offset : Z) (bs data : list Z) : list Z :=
  take (Z.to_nat offset) data ++ bs ++ drop (Z.to_nat offset + length bs) data.

Definition aliased_write (size haddr val : Z) : M step_replay_context () :=
  c ← get;
  '(i, offset) ← lift (locate c haddr size);
  modify (fun c => set_log (set_pages (alter (set_page_data (splice offset (le_bytes size val))) i (pages (r_log c))) (r_log c)) c).

(** ** Registers *)

Definition page_of (paddr : Z) : Z := Z.land paddr (not64 PAGE_OFFSET_MASK).
Definition offset_of (paddr : Z) : Z := Z.land paddr PAGE_OFFSET_MASK.

Definition get_shadow_reg_host_addr (what : Z) : M step_replay_context Z :=
  c ← get;
  i ← match m_shadow_regs_page c with
      | Some i => mret i
      | None => i ← find_page (page_of what); modify (set_shadow_regs_page i) ;; mret i
      end;
  mret (uint64 (page_host c i + offset_of what)).

Definition check_read_reg (what : Z) : M step_replay_context Z := haddr ← get_shadow_reg_host_addr what; aliased_read 8 haddr.
Definition check_write_reg (what val : Z) : M step_replay_context () :=
  haddr ← get_shadow_reg_host_addr what; aliased_write 8 haddr val.

Definition replay_read_revert_root_hash : M step_replay_context H :=
  i ← find_page (page_of AR_SHADOW_REVERT_ROOT_HASH_START);
  c ← get;
  match pages (r_log c) !! i with
  | Some p => mret (hash_of_bytes (bytes_from (page_data p) (offset_of AR_SHADOW_REVERT_ROOT_HASH_START) MACHINE_HASH_SIZE))
  | None => throw (logic_error "not an address of page data")
  end.

(** ** Memory and PMAs *)

Definition do_get_faddr (paddr : Z) : M step_replay_context Z :=
  i ← find_page (page_of paddr);
  c ← get;
  mret (uint64 (page_host c i + offset_of paddr)).

Definition read_pmas_istart (index : Z) : M step_replay_context Z :=
  haddr ← do_get_faddr (pmas_get_abs_addr index); aliased_read 8 haddr.
Definition read_pmas_ilength (index : Z) : M step_replay_context Z :=
  haddr ← do_get_faddr (pmas_get_abs_addr index + 8); aliased_read 8 haddr.

Definition do_read_pma (index : Z) : M step_replay_context address_range :=
  if PMA_MAX <=? index then mret sentinel
  else
    istart ← read_pmas_istart index;
    ilength ← read_pmas_ilength index;
    let i := Z.to_nat index in
    c ← get;
    match mjoin (r_ars c !! i) with
    | None => ar ← lift (make_mock_address_range istart ilength); modify (set_ar i ar)
    | Some _ => mret ()
    end ;;
    c ← get;
    lift (get_mock_address_range (mjoin (r_ars c !! i))).

(** ** The TLB *)

Definition do_read_tlb_vaddr_page (SET slot_index : Z) : M step_replay_context Z :=
  gets (fun c => hot_vaddr_page (hot_slot c SET slot_index)).
Definition do_read_tlb_vf_offset (SET slot_index : Z) : M step_replay_context Z :=
  gets (fun c => hot_vh_offset (hot_slot c SET slot_index)).

Definition check_read_tlb (set_index slot_index what : Z) : M step_replay_context Z :=
  haddr ← do_get_faddr (uint64 (shadow_tlb_get_abs_addr set_index slot_index + what)); aliased_read 8 haddr.
Definition check_write_tlb (set_index slot_index what val : Z) : M step_replay_context () :=
  haddr ← do_get_faddr (uint64 (shadow_tlb_get_abs_addr set_index slot_index + what)); aliased_write 8 haddr val.

Definition do_read_tlb_pma_index (SET slot_index : Z) : M step_replay_context Z := check_read_tlb SET slot_index 16.

Definition do_init_hot_tlb_slot (SET slot_index : Z) : M step_replay_context Z :=
  hot_vaddr_page ← do_read_tlb_vaddr_page SET slot_index;
  if negb (hot_vaddr_page =? TLB_UNVERIFIED_PAGE) then mret hot_vaddr_page
  else
    vaddr_page ← check_read_tlb SET slot_index 0;
    vp_offset ← check_read_tlb SET slot_index 8;
    pma_index ← check_read_tlb SET slot_index 16;
    zero_padding ← check_read_tlb SET slot_index 24;
    ar ← do_read_pma pma_index;
    if shadow_tlb_verify_slot vaddr_page vp_offset zero_padding (is_memory ar) (get_start ar) (get_length ar)
         =? TLB_INVALID_PAGE then
      modify (fun c => set_hot_slot SET slot_index
        {| hot_vaddr_page := TLB_INVALID_PAGE; hot_vh_offset := hot_vh_offset (hot_slot c SET slot_index) |} c) ;;
      mret TLB_INVALID_PAGE
    else
      let paddr_page := uint64 (vaddr_page + vp_offset) in
      i ← find_page paddr_page;
      c ← get;
      let vh_offset := uint64 (page_host c i - vaddr_page) in
      modify (set_hot_slot SET slot_index {| hot_vaddr_page := vaddr_page; hot_vh_offset := vh_offset |}) ;;
      mret vaddr_page.

Definition do_verify_cold_tlb_slot (SET slot_index : Z) : M step_replay_context bool := mret true.

Definition do_write_tlb (SET slot_index vaddr_page vh_offset pma_index : Z) : M step_replay_context () :=
  if vaddr_page =? TLB_UNVERIFIED_PAGE then throw (assertion_failed "vaddr_page != TLB_UNVERIFIED_PAGE")
  else
    check_write_tlb SET slot_index 0 vaddr_page ;;
    (if negb (vaddr_page =? TLB_INVALID_PAGE) then
       i ← find_host_page (uint64 (vaddr_page + vh_offset));
       c ← get;
       let index := match pages (r_log c) !! i with Some p => page_index p | None => 0 end in
       let paddr_page := uint64 (Z.shiftl index AR_LOG2_PAGE_SIZE) in
       check_write_tlb SET slot_index 8 (uint64 (paddr_page - vaddr_page))
     else check_write_tlb SET slot_index 8 vh_offset) ;;
    check_write_tlb SET slot_index 16 pma_index ;;
    check_write_tlb SET slot_index 24 0 ;;
    modify (set_hot_slot SET slot_index unverified_slot).

#[export] Instance step_replay_access : StepAccess step_replay_context Z := {
  sa_read_register := check_read_reg;
  sa_write_register := check_write_reg;
  sa_read_pma := do_read_pma;
  sa_get_faddr := do_get_faddr;
  sa_read_word size faddr delta := aliased_read size (uint64 (faddr + delta));
  sa_write_word size faddr delta val := aliased_write size (uint64 (faddr + delta)) val;
  sa_vaddr_page := do_read_tlb_vaddr_page;
  sa_init_slot := do_init_hot_tlb_slot;
  sa_verify_slot := do_verify_cold_tlb_slot;
  sa_pma_index := do_read_tlb_pma_index;
  sa_hit_faddr SET slot_index vaddr :=
    vf_offset ← do_read_tlb_vf_offset SET slot_index; mret (uint64 (vaddr + vf_offset));
  sa_map_slot SET slot_index vaddr faddr pma_index :=
    do_write_tlb SET slot_index (tlb_addr_page vaddr) (uint64 (faddr - vaddr)) pma_index;
  sa_flush_slot SET slot_index := do_write_tlb SET slot_index TLB_INVALID_PAGE 0 TLB_INVALID_PMA_INDEX
}.
End replay.
Arguments step_replay_context : clear implicits.

(** ** The memory of the machine as an access

    The access of Hart.v, with the entries of the PMA table read from memory. *)

Definition mem_read_pma (index : Z) : M memory address_range :=
  if PMA_MAX <=? index then mret sentinel
  else
    istart ← gets (fun m => mem_read m (pmas_get_abs_addr index));
    ilength ← gets (fun m => mem_read m (pmas_get_abs_addr index + 8));
    lift (make_mock_address_range istart ilength).

Definition mem_verify_slot (SET slot_index : Z) : M memory bool :=
  vaddr_page ← read_shadow_tlb SET slot_index 0;
  vp_offset ← read_shadow_tlb SET slot_index 8;
  pma_index ← read_shadow_tlb SET slot_index 16;
  zero_padding ← read_shadow_tlb SET slot_index 24;
  ar ← mem_read_pma pma_index;
  mret (negb (shadow_tlb_verify_slot vaddr_page vp_offset zero_padding (is_memory ar) (get_start ar) (get_length ar)
                =? TLB_INVALID_PAGE)).

#[export] Instance memory_access : StepAccess memory Z := {
  sa_read_register := read_shadow_register;
  sa_write_register := write_shadow_register;
  sa_read_pma := mem_read_pma;
  sa_get_faddr paddr := mret paddr;
  sa_read_word size faddr delta := read_memory_word size (uint64 (faddr + delta));
  sa_write_word size faddr delta val := write_memory_word size (uint64 (faddr + delta)) val;
  sa_vaddr_page := read_tlb_vaddr_page;
  sa_init_slot := init_hot_tlb_slot;
  sa_verify_slot := mem_verify_slot;
  sa_pma_index := read_tlb_pma_index;
  sa_hit_faddr SET slot_index vaddr :=
    vf_offset ← read_tlb_vf_offset SET slot_index; mret (uint64 (vaddr + vf_offset));
  sa_map_slot SET slot_index vaddr faddr pma_index :=
    write_tlb SET slot_index (tlb_addr_page vaddr) (uint64 (faddr - vaddr)) pma_index;
  sa_flush_slot SET slot_index := write_tlb SET slot_index TLB_INVALID_PAGE 0 TLB_INVALID_PMA_INDEX
}.

(** ** The hit of the TLB (src/interpret.cpp)

    The parts of [read_virtual_memory], [write_virtual_memory],
    [fetch_translate_pc] and [replace_tlb_entry] that use the TLB. *)
Section tlb.
Context {S F : Type} `{StepAccess S F}.

(** The fast address of [vaddr] and the index of its PMA, on a hit. *)
Definition tlb_lookup (size SET vaddr : Z) : M S (option (F * Z)) :=
  let slot_index := tlb_slot_index vaddr in
  let verified_hit :=
    ok ← sa_verify_slot SET slot_index;
    if negb ok then mret None
    else
      pma_index ← sa_pma_index SET slot_index;
      faddr ← sa_hit_faddr SET slot_index vaddr;
      mret (Some (faddr, pma_index)) in
  slot_vaddr_page ← sa_vaddr_page SET slot_index;
  if tlb_is_hit size slot_vaddr_page vaddr then verified_hit
  else
    slot_vaddr_page ← sa_init_slot SET slot_index;
    if tlb_is_hit size slot_vaddr_page vaddr then verified_hit else mret None.

Definition tlb_replace (SET vaddr paddr pma_index : Z) : M S F :=
  let slot_index := tlb_slot_index vaddr in
  faddr ← sa_get_faddr paddr;
  sa_map_slot SET slot_index vaddr faddr pma_index ;;
  mret faddr.
End tlb.

(** ** is_rejected_manual_yield (src/rejected-manual-yield.hpp) *)
Definition is_rejected_manual_yield {S F} `{StepAccess S F} : M S bool :=
  iflags_Y ← sa_read_register machine_reg.iflags_Y;
  if iflags_Y =? 0 then mret false
  else
    tohost ← sa_read_register machine_reg.htif_tohost;
    mret ((HTIF_DEV_FIELD tohost =? HTIF_DEV_YIELD) && (HTIF_CMD_FIELD tohost =? HTIF_YIELD_CMD_MANUAL)
          && (HTIF_REASON_FIELD tohost =? HTIF_YIELD_MANUAL_REASON_RX_REJECTED)).

(** ** replay_step_state_access::finish *)
Section finish.
Context `{SH : StepHash H}.

Definition replay_compute_root_hash : M (step_replay_context H) H := fun c =>
  match compute_root_hash (r_log c) with
  | Ret (root_hash, log) => (Ret root_hash, set_log log c)
  | Throw e => (Throw e, c)
  end.

Definition replay_finish : M (step_replay_context H) H :=
  rejected ← is_rejected_manual_yield;
  obtained_root_hash ← if (rejected : bool) then replay_read_revert_root_hash else replay_compute_root_hash;
  c ← get;
  if negb (bool_decide (obtained_root_hash = logged_root_hash_after (r_log c))) then
    throw (runtime_error "final root hash mismatch")
  else mret obtained_root_hash.
End finish.

(** ** Programs over an access

    The interpreter is a template over the access: a program that asks for
    accesses, one after the other, and goes on with the answers.  It never
    looks into a fast address: it keeps those it was given (here, by their
    number) and adds to them within the page.  What it writes through a fast
    address is memory above the PMA table. *)

Inductive request :=
| ReadRegister (what : Z)
| WriteRegister (what val : Z)
| ReadPma (index : Z)
| GetFaddr (paddr : Z)
| Lookup (size SET vaddr : Z)
| Replace (SET vaddr paddr pma_index : Z)
| FlushSlot (SET slot_index : Z)
| ReadWord (size : Z) (handle : nat) (delta : Z)
| WriteWord (size : Z) (handle : nat) (delta val : Z).

Inductive answer :=
| Value (v : Z)
| Range (ar : address_range)
| Address (pma_index : Z)
| Miss
| Done_.

Inductive program :=
| Done (v : Z)
| Ask (r : request) (k : answer -> program).

(** A fast address, its offset in the page, and whether it can be written. *)
Record handle (F : Type) := { h_faddr : F; h_offset : Z; h_writeable : bool }.
Arguments h_faddr {F} _.
Arguments h_offset {F} _.
Arguments h_writeable {F} _.

Definition is_size (size : Z) : bool := (size =? 1) || (size =? 2) || (size =? 4) || (size =? 8).
Definition is_set (SET : Z) : bool := (SET =? TLB_CODE) || (SET =? TLB_READ) || (SET =? TLB_WRITE).
(** Where memory that programs write starts. *)
Definition WRITEABLE_START : Z := AR_PMAS_START + AR_PMAS_LENGTH.

Definition misuse {S A} : M S A := throw (logic_error "not a use of the access").

Section run.
Context {S F : Type} `{StepAccess S F}.

(** Word accesses stay within the page of their fast address, and writes are
    aligned. *)
Definition with_handle {A} (size : Z) (hs : list (handle F)) (n : nat) (delta : Z) (writing : bool)
    (f : F -> M S A) : M S A :=
  match hs !! n with
  | Some h =>
      if is_size size && (0 <=? h_offset h + delta) && (h_offset h + delta + size <=? AR_PAGE_SIZE)
         && (negb writing || h_writeable h && (Z.land (h_offset h + delta) (size - 1) =? 0))
      then f (h_faddr h) else misuse
  | None => misuse
  end.

(** The answer, and the fast address it comes with. *)
Definition ask (r : request) (hs : list (handle F)) : M S (answer * list (handle F)) :=
  match r with
  | ReadRegister what =>
      if (Z.land what 7 =? 0) && (0 <=? what) && (what <? AR_SHADOW_REVERT_ROOT_HASH_START) then
        v ← sa_read_register what; mret (Value v, [])
      else misuse
  | WriteRegister what val =>
      if (Z.land what 7 =? 0) && (0 <=? what) && (what <? AR_SHADOW_REVERT_ROOT_HASH_START) then
        sa_write_register what val ;; mret (Done_, [])
      else misuse
  | ReadPma index => if 0 <=? index then ar ← sa_read_pma index; mret (Range ar, []) else misuse
  | GetFaddr paddr =>
      if (0 <=? paddr) && (paddr <? 2 ^ 64) then
        faddr ← sa_get_faddr paddr;
        mret (Done_, [{| h_faddr := faddr; h_offset := offset_of paddr; h_writeable := WRITEABLE_START <=? paddr |}])
      else misuse
  | Lookup size SET vaddr =>
      if is_size size && is_set SET && (0 <=? vaddr) && (vaddr <? 2 ^ 64) then
        hit ← tlb_lookup size SET vaddr;
        match hit with
        | Some (faddr, pma_index) =>
            mret (Address pma_index, [{| h_faddr := faddr; h_offset := offset_of vaddr; h_writeable := SET =? TLB_WRITE |}])
        | None => mret (Miss, [])
        end
      else misuse
  | Replace SET vaddr paddr pma_index =>
      if is_set SET && (0 <=? vaddr) && (vaddr <? 2 ^ 64) && (0 <=? paddr) && (paddr <? 2 ^ 64)
         && (0 <=? pma_index) && (pma_index <? 2 ^ 64)
         && (offset_of paddr =? offset_of vaddr) && (negb (SET =? TLB_WRITE) || (WRITEABLE_START <=? paddr)) then
        faddr ← tlb_replace SET vaddr paddr pma_index;
        mret (Done_, [{| h_faddr := faddr; h_offset := offset_of paddr; h_writeable := WRITEABLE_START <=? paddr |}])
      else misuse
  | FlushSlot SET slot_index =>
      if is_set SET && (0 <=? slot_index) && (slot_index <? TLB_SET_SIZE) then
        sa_flush_slot SET slot_index ;; mret (Done_, [])
      else misuse
  | ReadWord size n delta =>
      with_handle size hs n delta false (fun faddr => v ← sa_read_word size faddr delta; mret (Value v, []))
  | WriteWord size n delta val =>
      with_handle size hs n delta true (fun faddr => sa_write_word size faddr delta val ;; mret (Done_, []))
  end.

Fixpoint run (p : program) (hs : list (handle F)) : M S Z :=
  match p with
  | Done v => mret v
  | Ask r k => '(a, hs') ← ask r hs; run (k a) (hs ++ hs')
  end.
End run.

(** ** verify_step (src/machine.cpp)

    [interpret] is the interpreter, given the cycle to stop at.  The log is at
    host address [log_image_host]. *)
Definition saturating_add (a b : Z) : Z :=
  let max := 2 ^ 64 - 1 in if (max <? b) || (max - b <? a) then max else a + b.

Definition verify_step `{SH : StepHash H} (interpret : Z -> program) (log_image_host : Z) (log_image : list Z)
    (root_hash_before : H) (mcycle_count : Z) (root_hash_after : option H) : outcome H :=
  c ← replay_step_state_access log_image_host log_image;
  if negb (bool_decide (logged_root_hash_before (r_log c) = root_hash_before)) then
    Throw (runtime_error "root hash before does not match step log header")
  else if negb (logged_mcycle_count (r_log c) =? mcycle_count) then
    Throw (runtime_error "mcycle count does not match step log header")
  else
    obtained_root_hash ← fst (
      (mcycle ← check_read_reg machine_reg.mcycle;
       run (interpret (saturating_add mcycle mcycle_count)) [] ;;
       replay_finish) c);
    match root_hash_after with
    | Some h =>
        if negb (bool_decide (obtained_root_hash = h)) then
          Throw (runtime_error "root hash after does not match step log header")
        else mret obtained_root_hash
    | None => mret obtained_root_hash
    end.
