(* ===== verification/StepSound.v ===== *)
(** * Replaying a step on its log

    Programs that run over the pages of a log do what they do over the memory
    of the machine: a simulation between the two accesses of StepAccess.v, and
    what it means for the root hashes. *)

From S2P Require Import Prelude Bits Htif Shadow HashTree Memory Machine MachineFacts UarchMemory Riscv Hart HartFacts HartSafety Keccak256 VariantHasher SymHash StepLog StepLogFacts StepAccess.
From Stdlib Require Import Sorted.

(** ** Bytes of a page after a write *)

Lemma lookup_le_bytes n v k : 0 <= n -> (k < Z.to_nat n)%nat -> le_bytes n v !! k = Some (bitfield (8 * Z.of_nat k) 8 v).
Proof.
  intros Hn Hk. unfold le_bytes. apply Z_to_little_endian_lookup_Some; [lia|lia|]. split; [lia|].
  unfold bitfield. do 2 f_equal. lia.
Qed.

Lemma lookup_page_bytes m p k : (k < 4096)%nat -> page_bytes m p !! k = Some (byte_at m (4096 * p + Z.of_nat k)).
Proof. intros Hk. unfold page_bytes, bytes_at. rewrite list_lookup_fmap, lookup_seqZ_lt by lia. done. Qed.

Lemma length_splice o bs data :
  0 <= o -> (Z.to_nat o + length bs <= length data)%nat -> length (splice o bs data) = length data.
Proof. intros. unfold splice. rewrite !length_app, length_take, length_drop. lia. Qed.

Lemma lookup_splice o bs data k :
  0 <= o -> (Z.to_nat o + length bs <= length data)%nat ->
  splice o bs data !! k =
    if decide (Z.to_nat o <= k < Z.to_nat o + length bs)%nat then bs !! (k - Z.to_nat o)%nat else data !! k.
Proof.
  intros Ho Hl. unfold splice. case_decide.
  - rewrite lookup_app_r, lookup_app_l by (rewrite ?length_take; lia). f_equal. rewrite length_take. lia.
  - destruct (decide (k < Z.to_nat o)%nat).
    + rewrite lookup_app_l, lookup_take_lt by (rewrite ?length_take; lia). done.
    + rewrite !lookup_app_r, lookup_drop by (rewrite ?length_take; lia). f_equal. rewrite length_take. lia.
Qed.

Lemma page_bytes_store m a n v p :
  0 <= n -> 0 <= a -> a mod 8 + n <= 8 ->
  page_bytes (store_bytes m a n v) p =
    if decide (a / 4096 = p) then splice (a mod 4096) (le_bytes n v) (page_bytes m p) else page_bytes m p.
Proof.
  intros Hn Ha Ham. pose proof (Z.div_mod a 4096 ltac:(lia)). pose proof (Z.mod_pos_bound a 4096 ltac:(lia)).
  assert (a mod 4096 + n <= 4096).
  { pose proof (Z.div_mod a 8 ltac:(lia)). pose proof (Z.mod_pos_bound a 8 ltac:(lia)). lia. }
  pose proof (length_le_bytes n v Hn) as Hlen.
  assert (Hb : forall k, (k < 4096)%nat -> page_bytes (store_bytes m a n v) p !! k =
    Some (if decide (a <= 4096 * p + Z.of_nat k < a + n) then bitfield (8 * (4096 * p + Z.of_nat k - a)) 8 v
          else byte_at m (4096 * p + Z.of_nat k))).
  { intros k Hk. rewrite lookup_page_bytes, byte_at_store by lia. done. }
  assert (Hsp : (Z.to_nat (a mod 4096) + length (le_bytes n v) <= length (page_bytes m p))%nat)
    by (rewrite length_page_bytes; lia).
  case_decide as Hp; (apply list_eq_same_length with 4096%nat; [by rewrite ?length_splice, ?length_page_bytes by lia|by rewrite length_page_bytes|]).
  - intros k x y Hk. rewrite Hb, lookup_splice by lia. intros [= <-].
    repeat case_decide; try lia; [|rewrite lookup_page_bytes by lia; congruence].
    rewrite lookup_le_bytes by lia. intros [= <-]. f_equal. lia.
  - intros k x y Hk. rewrite Hb, lookup_page_bytes by lia. intros [= <-] [= <-]. rewrite decide_False by lia. done.
Qed.

Lemma mem_write_uint64 a v m : mem_write a v m ≡ mem_write a (uint64 v) m.
Proof. intros i. unfold mem_write. rewrite !word_at_insert. case_decide; [|done]. unfold uint64. by rewrite uwrap_uwrap by lia. Qed.

Lemma page_bytes_equiv m m' p : m ≡ m' -> page_bytes m p = page_bytes m' p.
Proof. intros E. apply page_bytes_ext. intros w _. by rewrite E. Qed.

Lemma page_bytes_write m a v p :
  0 <= a -> a mod 8 = 0 ->
  page_bytes (mem_write a v m) p =
    if decide (a / 4096 = p) then splice (a mod 4096) (le_bytes 8 v) (page_bytes m p) else page_bytes m p.
Proof.
  intros Ha Ham. assert (is_u 64 (uint64 v)) by (by apply uwrap_range).
  rewrite (page_bytes_equiv _ _ p (mem_write_uint64 a v m)), <-(page_bytes_equiv _ _ p (store_word m a (uint64 v) Ham ltac:(done))).
  rewrite page_bytes_store, le_bytes8_uint64 by lia. done.
Qed.

(** The bytes at an offset of a page. *)
Lemma page_bytes_part m p o n :
  0 <= o -> 0 <= n -> o + n <= 4096 -> bytes_from (page_bytes m p) o n = bytes_at m (4096 * p + o) n.
Proof.
  intros Ho Hn Hl. unfold page_bytes. replace 4096 with (o + (n + (4096 - o - n))) at 2 by lia.
  rewrite <-!bytes_at_app by lia. rewrite app_assoc, <-app_assoc.
  apply bytes_from_mid; rewrite length_bytes_at; lia.
Qed.

(** ** Addresses *)

Lemma offset_of_mod p : offset_of p = p mod 4096.
Proof. unfold offset_of. change PAGE_OFFSET_MASK with (Z.ones 12). by apply Z.land_ones. Qed.

Lemma page_of_div p : is_u 64 p -> page_of p = p / 4096 * 4096.
Proof. intros Hp. unfold page_of. change PAGE_OFFSET_MASK with (Z.ones 12). rewrite land_not64_ones by (done || lia). done. Qed.

Lemma tlb_addr_page_div p : is_u 64 p -> tlb_addr_page p = p / 4096 * 4096.
Proof. apply page_of_div. Qed.

Lemma page_index_of p : Z.shiftr p AR_LOG2_PAGE_SIZE = p / 4096.
Proof. unfold AR_LOG2_PAGE_SIZE. by rewrite Z.shiftr_div_pow2 by lia. Qed.

Lemma page_of_shiftr p : is_u 64 p -> Z.shiftr (page_of p) AR_LOG2_PAGE_SIZE = p / 4096.
Proof. intros. rewrite page_of_div, page_index_of, Z.div_mul by done. done. Qed.

Lemma lower_bound_le {A} (less : A -> bool) l : (lower_bound less l <= length l)%nat.
Proof. induction l as [|x l IH]; cbn [lower_bound length]; [lia|]. destruct (less x); lia. Qed.

(** In an array in increasing order, the element that is looked for. *)
Lemma lower_bound_at {A} (less : A -> bool) l i x :
  l !! i = Some x -> less x = false -> (forall j y, (j < i)%nat -> l !! j = Some y -> less y = true) ->
  lower_bound less l = i.
Proof.
  revert i. induction l as [|y l IH]; intros i Hx Hn Hlt; [done|]. cbn [lower_bound].
  destruct i as [|i].
  - injection Hx as ->. by rewrite Hn.
  - rewrite (Hlt O y) by (done || lia). f_equal. apply IH; [done|done|].
    intros j z Hj Hz. apply (Hlt (S j) z); [lia|done].
Qed.

Section access.
Context `{SH : StepHash H}.
Implicit Types c : step_replay_context H.

(** Where the pages are: their indices and their address in the host. *)
Definition layout c : list Z * Z := (indices (pages (r_log c)), r_pages c).

Definition layout_ok (L : list Z * Z) : Prop :=
  StronglySorted Z.lt L.1 /\ Forall (fun i => 0 <= i < 2 ^ 52) L.1 /\
  0 < L.2 /\ L.2 + Z.of_nat (length L.1) * 4136 < 2 ^ 64.

(** The host address of the physical address [p]. *)
Definition fast (L : list Z * Z) (h p : Z) : Prop :=
  exists i, L.1 !! i = Some (p / 4096) /\ h = L.2 + Z.of_nat i * 4136 + 8 + p mod 4096.

Lemma page_host_eq c i : page_host c i = (layout c).2 + Z.of_nat i * 4136 + 8.
Proof. done. Qed.

Lemma lookup_indices c i x : (layout c).1 !! i = Some x <-> exists p, pages (r_log c) !! i = Some p /\ page_index p = x.
Proof.
  unfold layout, indices. cbn [fst]. rewrite list_lookup_fmap, fmap_Some.
  split; intros (p & Hp & Hx); exists p; split; congruence.
Qed.

Lemma length_indices c : length (layout c).1 = length (pages (r_log c)).
Proof. unfold layout, indices. cbn [fst]. by rewrite length_map. Qed.

Lemma host_range c i k :
  layout_ok (layout c) -> (i < length (pages (r_log c)))%nat -> 0 <= k < 4096 -> is_u 64 (page_host c i + k).
Proof. intros (_ & _ & Hp & Hl) Hi Hk. rewrite length_indices in Hl. rewrite page_host_eq. unfold is_u. lia. Qed.

Lemma try_find_page_Some c paddr i :
  try_find_page c paddr = Some i -> (layout c).1 !! i = Some (Z.shiftr paddr AR_LOG2_PAGE_SIZE).
Proof.
  unfold try_find_page. set (it := lower_bound _ _). destruct (pages (r_log c) !! it) as [p|] eqn:Ep; [|done].
  destruct (page_index p =? _) eqn:E; [|done]. intros [= <-]. apply lookup_indices. exists p. split; [done|lia].
Qed.

Lemma find_page_Ret c paddr i c' :
  find_page paddr c = (Ret i, c') -> c' = c /\ (layout c).1 !! i = Some (Z.shiftr paddr AR_LOG2_PAGE_SIZE).
Proof.
  unfold find_page, found. destruct (try_find_page c paddr) as [j|] eqn:E; [|done]. intros [= <- <-].
  split; [done|]. by apply try_find_page_Some.
Qed.

(** A page whose address in the host is looked for is found. *)
Lemma find_host_page_at c i :
  (i < length (pages (r_log c)))%nat -> find_host_page (page_host c i) c = (Ret i, c).
Proof.
  intros Hi. unfold find_host_page, try_find_host_page.
  rewrite (lower_bound_at _ (seq 0 (length (pages (r_log c)))) i i).
  - rewrite Z.eqb_refl, (proj2 (Nat.ltb_lt _ _) Hi). done.
  - by rewrite lookup_seq_lt.
  - by apply Z.ltb_irrefl.
  - intros j y Hj Hy. apply lookup_seq in Hy as [-> _]. rewrite Nat.add_0_l. rewrite !page_host_eq. lia.
Qed.

Lemma locate_at c i k size :
  (i < length (pages (r_log c)))%nat -> 0 <= k -> k + size <= 4096 -> 0 < size ->
  locate c (page_host c i + k) size = Ret (i, k).
Proof.
  intros Hi Hk Hs Hs'. unfold locate. rewrite page_host_eq. change sizeof_page_type with 4136.
  change sizeof_uint64 with 8. change AR_PAGE_SIZE with 4096.
  replace ((layout c).2 + Z.of_nat i * 4136 + 8 + k - r_pages c) with (Z.of_nat i * 4136 + (8 + k)) by (unfold layout; cbn [snd]; lia).
  assert (E1 : (Z.of_nat i * 4136 + (8 + k)) / 4136 = Z.of_nat i) by (symmetry; apply Z.div_unique with (8 + k); lia).
  assert (E2 : (Z.of_nat i * 4136 + (8 + k)) mod 4136 = 8 + k) by (symmetry; apply Z.mod_unique with (Z.of_nat i); lia).
  rewrite E1, E2, Nat2Z.id, (proj2 (Nat.ltb_lt _ _) Hi). replace (8 + k - 8) with k by lia.
  rewrite (proj2 (Z.leb_le _ _)), (proj2 (Z.leb_le 0 k)), (proj2 (Z.leb_le _ 4096)) by lia. done.
Qed.

(** Fast addresses are addresses of page data. *)
Lemma fast_locate c h p delta size :
  layout_ok (layout c) -> fast (layout c) h p -> 0 <= p mod 4096 + delta -> p mod 4096 + delta + size <= 4096 -> 0 < size ->
  exists i pg, pages (r_log c) !! i = Some pg /\ page_index pg = p / 4096 /\
    locate c (uint64 (h + delta)) size = Ret (i, p mod 4096 + delta).
Proof.
  intros Hok (i & Hi & ->) Hd Hs Hs'. destruct (proj1 (lookup_indices c i _) Hi) as (pg & Hpg & Hidx).
  exists i, pg. split; [done|]. split; [done|]. pose proof (lookup_lt_Some _ _ _ Hpg) as Hlt.
  assert (E : (layout c).2 + Z.of_nat i * 4136 + 8 + p mod 4096 + delta = page_host c i + (p mod 4096 + delta))
    by (rewrite page_host_eq; lia).
  rewrite E. unfold uint64. rewrite uwrap_small by (apply host_range; [done|done|lia]). by apply locate_at.
Qed.

(** ** The replay and the memory it stands for *)

Definition tlb_word m (SET slot_index what : Z) : Z := mem_read m (shadow_tlb_get_abs_addr SET slot_index + what).

(** A hot slot is not verified, or is what the slot of the shadow says. *)
Definition hot_ok (L : list Z * Z) (m : memory) (SET slot_index : Z) (h : hot_tlb_slot) : Prop :=
  hot_vaddr_page h = TLB_UNVERIFIED_PAGE \/
  (hot_vaddr_page h = TLB_INVALID_PAGE /\ mem_verify_slot SET slot_index m = (Ret false, m)) \/
  (mem_verify_slot SET slot_index m = (Ret true, m) /\ hot_vaddr_page h = tlb_word m SET slot_index 0 /\
   fast L (uint64 (hot_vaddr_page h + hot_vh_offset h)) (uint64 (hot_vaddr_page h + tlb_word m SET slot_index 8))).

Definition slot_range (SET slot_index : Z) : Prop := 0 <= SET < 3 /\ 0 <= slot_index < 256.

(** The slot [ex], if any, is being written. *)
Record replays (m0 : memory) (L : list Z * Z) (f : hash_function_type) (ex : option (Z * Z)) c (m : memory) : Prop := {
  rp_layout : layout c = L;
  rp_function : log_hash_function (r_log c) = f;
  rp_holds : Forall (holds m) (pages (r_log c));
  rp_outside : forall i, i ∉ L.1 -> page_bytes m i = page_bytes m0 i;
  rp_siblings : sibling_hashes (r_log c) = (@frontier H (variant_hasher_of f) (@page_node H (variant_hasher_of f) m0) 52 0 L.1).2;
  rp_regs : forall i, m_shadow_regs_page c = Some i -> L.1 !! i = Some 0;
  rp_ars : length (r_ars c) = 32%nat /\
    forall i ar, r_ars c !! i = Some (Some ar) -> mem_read_pma (Z.of_nat i) m = (Ret ar, m);
  rp_tlb_size : length (r_tlb c) = 3%nat /\ Forall (fun set => length set = 256%nat) (r_tlb c);
  rp_tlb : forall SET slot_index, slot_range SET slot_index -> ex <> Some (SET, slot_index) ->
    hot_ok L m SET slot_index (hot_slot c SET slot_index);
  rp_write : forall slot_index, 0 <= slot_index < 256 -> ex <> Some (TLB_WRITE, slot_index) ->
    mem_verify_slot TLB_WRITE slot_index m = (Ret true, m) ->
    WRITEABLE_START <= uint64 (tlb_word m TLB_WRITE slot_index 0 + tlb_word m TLB_WRITE slot_index 8)
}.

(** ** Simulation with related values *)

Definition vsim {S1 S2 A1 A2} (R : S1 -> S2 -> Prop) (V : A1 -> A2 -> Prop) (k1 : M S1 A1) (k2 : M S2 A2) : Prop :=
  forall s1 s2 a1 s1', R s1 s2 -> k1 s1 = (Ret a1, s1') -> exists a2 s2', k2 s2 = (Ret a2, s2') /\ R s1' s2' /\ V a1 a2.

Lemma vsim_ret {S1 S2 A1 A2} (R : S1 -> S2 -> Prop) (V : A1 -> A2 -> Prop) a1 a2 : V a1 a2 -> vsim R V (mret a1) (mret a2).
Proof. intros HV s1 s2 x s1' HR [= <- <-]. by exists a2, s2. Qed.

Lemma vsim_throw {S1 S2 A1 A2} (R : S1 -> S2 -> Prop) (V : A1 -> A2 -> Prop) e k2 : vsim R V (throw e : M S1 A1) (k2 : M S2 A2).
Proof. by intros s1 s2 x s1' HR E. Qed.

Lemma vsim_bind {S1 S2 A1 A2 B1 B2} (R : S1 -> S2 -> Prop) (V : A1 -> A2 -> Prop) (W : B1 -> B2 -> Prop) k1 k2 f1 f2 :
  vsim R V k1 k2 -> (forall a1 a2, V a1 a2 -> vsim R W (f1 a1) (f2 a2)) -> vsim R W (k1 ≫= f1) (k2 ≫= f2).
Proof.
  intros Hk Hf s1 s2 b s1' HR E. apply bind_Ret_inv in E as (a & s & Ek & Ef).
  destruct (Hk _ _ _ _ HR Ek) as (a2 & s2' & E2 & HR' & HV). destruct (Hf _ _ HV _ _ _ _ HR' Ef) as (b2 & s2'' & E3 & HR'' & HW).
  exists b2, s2''. split; [by rewrite (bind_Ret _ _ _ _ _ E2)|done].
Qed.


(** ** What a write leaves alone *)

(** Words of the PMA table and of the slots but [ex]. *)
Definition frame (ex : option (Z * Z)) (m m' : memory) : Prop :=
  (forall i, 0 <= i < 32 -> mem_read m' (pmas_get_abs_addr i) = mem_read m (pmas_get_abs_addr i) /\
    mem_read m' (pmas_get_abs_addr i + 8) = mem_read m (pmas_get_abs_addr i + 8)) /\
  (forall SET slot_index what, slot_range SET slot_index -> ex <> Some (SET, slot_index) -> what ∈ [0; 8; 16; 24] ->
    tlb_word m' SET slot_index what = tlb_word m SET slot_index what).

Lemma mem_read_pma_frame ex m m' i x :
  frame ex m m' -> 0 <= i -> mem_read_pma i m = (x, m) -> mem_read_pma i m' = (x, m').
Proof.
  intros [Hp _] Hi. unfold mem_read_pma. destruct (PMA_MAX <=? i) eqn:Ei; [intros [= <-]; done|].
  change PMA_MAX with 32 in Ei. destruct (Hp i ltac:(lia)) as [E1 E2].
  unfold mbind, M_bind, gets, lift. rewrite E1, E2. intros [= <-]. done.
Qed.

Lemma mem_read_pma_same i m : exists x, mem_read_pma i m = (x, m).
Proof. unfold mem_read_pma. case_match; [by eexists|]. unfold mbind, M_bind, gets, lift. by eexists. Qed.

Lemma mem_verify_slot_frame ex m m' SET slot_index b :
  frame ex m m' -> slot_range SET slot_index -> ex <> Some (SET, slot_index) ->
  mem_verify_slot SET slot_index m = (Ret b, m) -> mem_verify_slot SET slot_index m' = (Ret b, m').
Proof.
  intros Hf Hs Hex. pose proof Hf as [_ Ht]. unfold mem_verify_slot, read_shadow_tlb.
  unfold mbind, M_bind, gets. fold (tlb_word m SET slot_index 0) (tlb_word m SET slot_index 8) (tlb_word m SET slot_index 16)
    (tlb_word m SET slot_index 24) (tlb_word m' SET slot_index 0) (tlb_word m' SET slot_index 8) (tlb_word m' SET slot_index 16)
    (tlb_word m' SET slot_index 24).
  rewrite !(Ht SET slot_index) by (done || set_solver).
  destruct (mem_read_pma_same (tlb_word m SET slot_index 16) m) as [x Ex]. rewrite Ex.
  rewrite (mem_read_pma_frame ex m m' _ x Hf) by (done || apply word_at_range).
  destruct x; intros [= <-]; done.
Qed.

Lemma hot_ok_frame L ex m m' SET slot_index h :
  frame ex m m' -> slot_range SET slot_index -> ex <> Some (SET, slot_index) ->
  hot_ok L m SET slot_index h -> hot_ok L m' SET slot_index h.
Proof.
  intros Hf Hs Hex. pose proof Hf as [_ Ht]. intros [Hu|[[Hi Hv]|(Hv & Ha & Hfast)]]; [by left| |].
  - right; left. split; [done|]. by eapply mem_verify_slot_frame.
  - right; right. split; [by eapply mem_verify_slot_frame|].
    rewrite !(Ht SET slot_index) by (done || set_solver). done.
Qed.

(** Whether a slot is valid, the other way around. *)
Lemma frame_sym ex m m' : frame ex m m' -> frame ex m' m.
Proof.
  intros [Hp Ht]. split.
  - intros i Hi. destruct (Hp i Hi). by split.
  - intros SET slot_index what Hs Hex Hw. symmetry. by apply Ht.
Qed.

Lemma in_0 : 0 ∈ [0; 8; 16; 24].
Proof. by apply (bool_decide_unpack _). Qed.
Lemma in_8 : 8 ∈ [0; 8; 16; 24].
Proof. by apply (bool_decide_unpack _). Qed.
Lemma in_16 : 16 ∈ [0; 8; 16; 24].
Proof. by apply (bool_decide_unpack _). Qed.
Lemma in_24 : 24 ∈ [0; 8; 16; 24].
Proof. by apply (bool_decide_unpack _). Qed.

Lemma slot_addr SET slot_index :
  slot_range SET slot_index -> shadow_tlb_get_abs_addr SET slot_index = 4096 + SET * 8192 + slot_index * 32.
Proof.
  intros [H1 H2]. unfold shadow_tlb_get_abs_addr, sizeof_shadow_tlb_set, uint64.
  change AR_SHADOW_TLB_START with 4096. change SHADOW_TLB_SLOT_SIZE with 32. change TLB_SET_SIZE with 256.
  rewrite uwrap_small by (unfold is_u; lia). lia.
Qed.

Lemma pma_addr i : 0 <= i < 32 -> pmas_get_abs_addr i = 65536 + i * 16.
Proof. intros Hi. unfold pmas_get_abs_addr. change PMA_MAX with 32. rewrite (proj2 (Z.ltb_lt _ _)) by lia. done. Qed.

Lemma what_cases (what : Z) : what ∈ [0; 8; 16; 24] -> what mod 8 = 0 /\ 0 <= what <= 24.
Proof. rewrite !elem_of_cons, elem_of_nil. intros [->|[->|[->|[->|[]]]]]; (split; [done|lia]). Qed.

(** A change that leaves the words of an aligned address alone. *)
Lemma frame_words ex m m' :
  (forall a, a mod 8 = 0 -> 4096 <= a < WRITEABLE_START ->
    (forall SET slot_index, ex = Some (SET, slot_index) -> slot_range SET slot_index ->
       ~ shadow_tlb_get_abs_addr SET slot_index <= a < shadow_tlb_get_abs_addr SET slot_index + 32) ->
    mem_read m' a = mem_read m a) ->
  match ex with Some (SET, slot_index) => slot_range SET slot_index | None => True end ->
  frame ex m m'.
Proof.
  unfold WRITEABLE_START. change (AR_PMAS_START + AR_PMAS_LENGTH) with 69632. intros Hw Hex. split.
  - intros i Hi. rewrite pma_addr by done.
    assert (Hi8 : forall k, 8192 <= k < 8256 -> mem_read m' (k * 8) = mem_read m (k * 8)).
    { intros k Hk. apply Hw; [by apply Z.mod_mul|lia|]. intros SET slot_index _ Hs.
      rewrite slot_addr by done. destruct Hs. lia. }
    replace (65536 + i * 16) with ((8192 + 2 * i) * 8) by lia.
    replace ((8192 + 2 * i) * 8 + 8) with ((8193 + 2 * i) * 8) by lia. split; apply Hi8; lia.
  - intros SET slot_index what Hs Hne (Hw8 & Hw24)%what_cases. unfold tlb_word. rewrite slot_addr by done.
    destruct Hs as [Hs1 Hs2]. apply Hw; [|lia|].
    + replace (4096 + SET * 8192 + slot_index * 32 + what) with (what + (512 + SET * 1024 + slot_index * 4) * 8) by lia.
      by rewrite Z.mod_add by lia.
    + intros S s -> Hs. rewrite slot_addr by done. destruct Hs. assert (~ (S = SET /\ s = slot_index)) by (intros [-> ->]; done). lia.
Qed.

Lemma mem_read_write_other a a' v m : a mod 8 = 0 -> a' mod 8 = 0 -> a <> a' -> mem_read (mem_write a v m) a' = mem_read m a'.
Proof.
  intros Ha Ha' Hne. apply read_write_other. rewrite !word_index_div.
  pose proof (Z.div_mod a 8 ltac:(lia)). pose proof (Z.div_mod a' 8 ltac:(lia)). lia.
Qed.

Lemma frame_store a n v m : 0 <= n -> WRITEABLE_START <= a -> frame None m (store_bytes m a n v).
Proof.
  unfold WRITEABLE_START. change (AR_PMAS_START + AR_PMAS_LENGTH) with 69632.
  intros Hn Ha. apply frame_words; [|done]. unfold WRITEABLE_START. change (AR_PMAS_START + AR_PMAS_LENGTH) with 69632.
  intros b Hb Hr _. apply store_bytes_other; [done|done|]. pose proof (Z.div_mod b 8 ltac:(lia)). lia.
Qed.

Lemma frame_register what v m : what mod 8 = 0 -> 0 <= what < 4096 -> frame None m (mem_write what v m).
Proof. intros Hw Hr. apply frame_words; [|done]. intros b Hb Hr' _. apply mem_read_write_other; [done|done|lia]. Qed.

Lemma frame_slot SET slot_index what v m :
  slot_range SET slot_index -> what ∈ [0; 8; 16; 24] ->
  frame (Some (SET, slot_index)) m (mem_write (shadow_tlb_get_abs_addr SET slot_index + what) v m).
Proof.
  intros Hs (Hw8 & Hw24)%what_cases. apply frame_words; [|done]. intros b Hb Hr Hne.
  specialize (Hne SET slot_index eq_refl Hs). apply mem_read_write_other; [|done|lia].
  rewrite slot_addr by done. replace (4096 + SET * 8192 + slot_index * 32 + what) with (what + (512 + SET * 1024 + slot_index * 4) * 8) by lia.
  by rewrite Z.mod_add by lia.
Qed.

(** ** Reads and writes of page data *)
Section simulation.
Context (m0 : memory) (L : list Z * Z) (f : hash_function_type) (HL : layout_ok L).

Lemma sorted_inj l i j (x : Z) : StronglySorted Z.lt l -> l !! i = Some x -> l !! j = Some x -> i = j.
Proof.
  revert i j. induction l as [|y l IH]; intros i j Hs Hi Hj; [done|]. apply StronglySorted_inv in Hs as [Hs Hy].
  rewrite Forall_lookup in Hy. destruct i as [|i], j as [|j]; [done| | |f_equal; by apply IH].
  - injection Hi as ->. specialize (Hy _ _ Hj). lia.
  - injection Hj as ->. specialize (Hy _ _ Hi). lia.
Qed.

Lemma within_page p delta size :
  0 <= p mod 4096 + delta -> p mod 4096 + delta + size <= 4096 -> 0 < size ->
  (p + delta) / 4096 = p / 4096 /\ (p + delta) mod 4096 = p mod 4096 + delta.
Proof.
  intros. pose proof (Z.div_mod p 4096 ltac:(lia)).
  split; symmetry; [apply Z.div_unique with (p mod 4096 + delta)|apply Z.mod_unique with (p / 4096)]; lia.
Qed.

Lemma read_replays ex c m h p delta size :
  replays m0 L f ex c m -> fast L h p -> 0 <= p mod 4096 + delta -> p mod 4096 + delta + size <= 4096 -> 0 < size ->
  aliased_read size (uint64 (h + delta)) c = (Ret (load_bytes m (p + delta) size), c).
Proof.
  intros Hr Hf Hd Hs Hs'. destruct Hr as [Hlay _ Hh _ _ _ _ _ _ _]. rewrite <-Hlay in HL, Hf.
  destruct (fast_locate c h p delta size HL Hf Hd Hs Hs') as (i & pg & Hpg & Hidx & Hloc).
  unfold aliased_read, mbind, M_bind, get, lift. rewrite Hloc, Hpg. unfold mret, M_ret. do 2 f_equal.
  rewrite Forall_lookup in Hh. rewrite (Hh _ _ Hpg), Hidx, page_bytes_part by lia. unfold load_bytes. do 2 f_equal.
  pose proof (Z.div_mod p 4096 ltac:(lia)). lia.
Qed.

Lemma indices_alter g i (ps : list (page_type H)) : indices (alter (set_page_data g) i ps) = indices ps.
Proof.
  unfold indices. apply list_eq. intros j. rewrite !list_lookup_fmap.
  destruct (decide (i = j)) as [->|]; [rewrite list_lookup_alter_eq|by rewrite list_lookup_alter_ne].
  by destruct (ps !! j).
Qed.

Lemma write_replays ex c m m' h p delta size val :
  replays m0 L f ex c m -> fast L h p -> 0 <= p mod 4096 + delta -> p mod 4096 + delta + size <= 4096 -> 0 < size ->
  (forall q, page_bytes m' q =
     if decide ((p + delta) / 4096 = q) then splice ((p + delta) mod 4096) (le_bytes size val) (page_bytes m q)
     else page_bytes m q) ->
  frame ex m m' ->
  exists c', aliased_write size (uint64 (h + delta)) val c = (Ret (), c') /\ replays m0 L f ex c' m'.
Proof.
  intros Hr Hf Hd Hs Hs' Hpb Hfr. destruct (within_page p delta size Hd Hs Hs') as [Ediv Emod]. rewrite Ediv, Emod in Hpb.
  destruct Hr as [Hlay Hfun Hh Hout Hsib Hregs [Hars1 Hars2] Htlbs Htlb Hws].
  pose proof Hf as Hf0. rewrite <-Hlay in Hf0.
  destruct (fast_locate c h p delta size ltac:(by rewrite Hlay) Hf0 Hd Hs Hs') as (i & pg & Hpg & Hidx & Hloc).
  unfold aliased_write, mbind, M_bind, get, lift, modify. rewrite Hloc. eexists. split; [reflexivity|].
  assert (Hi : L.1 !! i = Some (p / 4096)) by (rewrite <-Hlay; apply lookup_indices; eauto).
  split; try done.
  - rewrite <-Hlay. unfold layout. cbn [set_log r_log set_pages pages r_pages]. by rewrite indices_alter.
  - cbn [set_log r_log set_pages pages]. apply Forall_lookup. intros j pj Hj. rewrite Forall_lookup in Hh. unfold holds.
    destruct (decide (i = j)) as [<-|Hne].
    + rewrite list_lookup_alter_eq, Hpg in Hj. injection Hj as <-. cbn [set_page_data page_data page_index].
      by rewrite Hpb, decide_True, (Hh _ _ Hpg), Hidx by done.
    + rewrite list_lookup_alter_ne in Hj by done. rewrite Hpb, decide_False; [exact (Hh _ _ Hj)|]. intros E. apply Hne.
      apply (sorted_inj L.1 i j (p / 4096)); [apply HL|done|]. rewrite <-Hlay. apply lookup_indices. by exists pj.
  - intros q Hq. rewrite Hpb, decide_False; [by apply Hout|]. intros <-. apply Hq. by eapply list_elem_of_lookup_2.
  - split; [done|]. cbn [set_log r_ars]. intros j ar Hj. apply (mem_read_pma_frame ex m m' (Z.of_nat j) (Ret ar) Hfr); [lia|by apply Hars2].
  - intros SET slot_index Hsl Hex. apply (hot_ok_frame L ex m m' SET slot_index _ Hfr Hsl Hex). by apply Htlb.
  - intros slot_index Hsl Hex Hv. pose proof Hfr as [_ Ht].
    assert (Hsr : slot_range TLB_WRITE slot_index) by (split; [by vm_compute|done]).
    rewrite (Ht TLB_WRITE slot_index 0 Hsr Hex in_0), (Ht TLB_WRITE slot_index 8 Hsr Hex in_8).
    apply Hws; [done|done|]. exact (mem_verify_slot_frame ex m' m TLB_WRITE slot_index true (frame_sym _ _ _ Hfr) Hsr Hex Hv).
Qed.

Lemma fast_u64 h p : fast L h p -> uint64 (h + 0) = h.
Proof using HL.
  intros (i & Hi & ->). rewrite Z.add_0_r. apply uwrap_small. destruct HL as (_ & _ & Hp & Hl).
  apply lookup_lt_Some in Hi. pose proof (Z.mod_pos_bound p 4096 ltac:(lia)). unfold is_u. lia.
Qed.

Lemma faddr_of_page ex c m i paddr :
  replays m0 L f ex c m -> L.1 !! i = Some (paddr / 4096) ->
  fast L (uint64 (page_host c i + offset_of paddr)) paddr.
Proof using HL.
  intros Hr Hi. exists i. split; [done|]. pose proof (rp_layout _ _ _ _ _ _ Hr) as Hlay.
  rewrite offset_of_mod. unfold uint64. rewrite uwrap_small.
  - rewrite page_host_eq, Hlay. done.
  - apply host_range; [by rewrite Hlay| |by apply Z.mod_pos_bound]. rewrite <-length_indices, Hlay. by eapply lookup_lt_Some.
Qed.

Lemma get_faddr_sim ex paddr :
  is_u 64 paddr -> vsim (replays m0 L f ex) (fast L) (do_get_faddr paddr) (mret paddr).
Proof using HL.
  intros Hu c m h c' Hr E. unfold do_get_faddr in E. apply bind_Ret_inv in E as (i & c1 & Ef & E).
  apply find_page_Ret in Ef as [-> Hi]. injection E as <- <-. exists paddr, m. split; [done|]. split; [done|].
  rewrite page_of_shiftr in Hi by done. rewrite (rp_layout _ _ _ _ _ _ Hr) in Hi. by eapply faddr_of_page.
Qed.

Lemma set_shadow_regs_page_replays ex c m i :
  replays m0 L f ex c m -> L.1 !! i = Some 0 -> replays m0 L f ex (set_shadow_regs_page i c) m.
Proof. intros [] Hi. split; try done. by intros j [= <-]. Qed.

Lemma shadow_reg_addr ex what :
  0 <= what < 4096 -> vsim (replays m0 L f ex) (fast L) (get_shadow_reg_host_addr what) (mret what).
Proof using HL.
  intros Hw c m h c' Hr E. assert (Hu : is_u 64 what) by (unfold is_u; lia).
  assert (Ed : what / 4096 = 0) by (apply Z.div_small; lia).
  unfold get_shadow_reg_host_addr in E. apply bind_Ret_inv in E as (c0 & c0' & [= <- <-] & E).
  exists what, m. split; [done|]. destruct (m_shadow_regs_page c) as [i|] eqn:Ei.
  - injection E as <- <-. split; [done|]. eapply faddr_of_page; [done|]. rewrite Ed. by eapply rp_regs.
  - apply bind_Ret_inv in E as (i & c1 & E & E'). apply bind_Ret_inv in E as (j & c2 & Ef & E).
    apply find_page_Ret in Ef as [-> Hi]. injection E as <- <-. injection E' as <- <-.
    rewrite page_of_shiftr, (rp_layout _ _ _ _ _ _ Hr) in Hi by done.
    split; [apply set_shadow_regs_page_replays; [done|by rewrite Hi, Ed]|]. by eapply faddr_of_page.
Qed.

(** An 8-byte word at a fast address. *)
Lemma read_fast8_sim ex h p :
  fast L h p -> p mod 8 = 0 -> vsim (replays m0 L f ex) eq (aliased_read 8 h) (gets (fun m => mem_read m p)).
Proof using HL.
  intros Hf Hp c m v c' Hr E. rewrite <-(fast_u64 h p Hf) in E.
  assert (p mod 4096 + 0 + 8 <= 4096).
  { pose proof (Z.mod_pos_bound p 4096 ltac:(lia)). pose proof (Z.div_mod p 4096 ltac:(lia)).
    pose proof (Z.div_mod p 8 ltac:(lia)). lia. }
  rewrite (read_replays ex c m h p 0 8 Hr Hf) in E by (pose proof (Z.mod_pos_bound p 4096 ltac:(lia)); lia).
  injection E as <- <-. exists (mem_read m p), m. split; [done|]. split; [done|]. by rewrite Z.add_0_r, load_word.
Qed.

Lemma write_fast8_sim ex h p v :
  fast L h p -> p mod 8 = 0 -> 0 <= p -> (forall m, frame ex m (mem_write p v m)) ->
  vsim (replays m0 L f ex) eq (aliased_write 8 h v) (modify (mem_write p v)).
Proof using HL.
  intros Hf Hp Hpos Hfr c m u c' Hr E. rewrite <-(fast_u64 h p Hf) in E.
  assert (p mod 4096 + 0 + 8 <= 4096).
  { pose proof (Z.mod_pos_bound p 4096 ltac:(lia)). pose proof (Z.div_mod p 4096 ltac:(lia)).
    pose proof (Z.div_mod p 8 ltac:(lia)). lia. }
  destruct (write_replays ex c m (mem_write p v m) h p 0 8 v Hr Hf) as (c1 & E1 & Hr1);
    [pose proof (Z.mod_pos_bound p 4096 ltac:(lia)); lia|done|lia| |done|].
  - intros q. rewrite Z.add_0_r. by apply page_bytes_write.
  - rewrite E1 in E. injection E as <- <-. by exists (), (mem_write p v m).
Qed.

(** Registers. *)
Lemma check_read_reg_sim ex what :
  0 <= what < 4096 -> what mod 8 = 0 -> vsim (replays m0 L f ex) eq (check_read_reg what) (read_shadow_register what).
Proof using HL.
  intros Hw H8. unfold check_read_reg. intros c m v c' Hr E. apply bind_Ret_inv in E as (h & c1 & Eh & E).
  destruct (shadow_reg_addr ex what Hw _ _ _ _ Hr Eh) as (p & m1 & [= <- <-] & Hr1 & Hf).
  by apply (read_fast8_sim ex h what Hf H8 c1 m).
Qed.

Lemma check_write_reg_sim what val :
  0 <= what < 4096 -> what mod 8 = 0 ->
  vsim (replays m0 L f None) eq (check_write_reg what val) (write_shadow_register what val).
Proof using HL.
  intros Hw H8. unfold check_write_reg. intros c m v c' Hr E. apply bind_Ret_inv in E as (h & c1 & Eh & E).
  destruct (shadow_reg_addr None what Hw _ _ _ _ Hr Eh) as (p & m1 & [= <- <-] & Hr1 & Hf).
  apply (write_fast8_sim None h what val Hf H8) with c1; [lia| |done|done]. intros m'. by apply frame_register.
Qed.

(** PMAs. *)
Lemma set_ar_replays ex c m i ar :
  replays m0 L f ex c m -> mem_read_pma (Z.of_nat i) m = (Ret ar, m) -> replays m0 L f ex (set_ar i ar c) m.
Proof.
  intros [Hlay Hfun Hh Hout Hsib Hregs [Hars1 Hars2] Htlbs Htlb Hws] Har. split; try done.
  cbn [set_ar r_ars]. split; [by rewrite length_insert|]. intros j ar' Hj. apply list_lookup_insert_Some in Hj.
  destruct Hj as [(<- & [= <-] & _)|[_ Hj]]; [done|by apply Hars2].
Qed.

Lemma read_at_faddr_sim ex paddr :
  is_u 64 paddr -> paddr mod 8 = 0 ->
  vsim (replays m0 L f ex) eq (haddr ← do_get_faddr paddr; aliased_read 8 haddr) (gets (fun m => mem_read m paddr)).
Proof using HL.
  intros Hu H8 c m v c' Hr E. apply bind_Ret_inv in E as (h & c1 & Eh & E).
  destruct (get_faddr_sim ex paddr Hu _ _ _ _ Hr Eh) as (p & m1 & [= <- <-] & Hr1 & Hf).
  by apply (read_fast8_sim ex h paddr Hf H8 c1 m).
Qed.

Lemma pma_word i k : 0 <= i < 32 -> 0 <= k < 2 -> is_u 64 (pmas_get_abs_addr i + k * 8) /\ (pmas_get_abs_addr i + k * 8) mod 8 = 0.
Proof.
  intros Hi Hk. rewrite pma_addr by done. split; [unfold is_u; lia|].
  replace (65536 + i * 16 + k * 8) with ((8192 + 2 * i + k) * 8) by lia. by apply Z.mod_mul.
Qed.

(** A read of the replay returns what is in memory. *)
Lemma read_at_faddr_Ret ex paddr c m v c' :
  is_u 64 paddr -> paddr mod 8 = 0 -> replays m0 L f ex c m ->
  (haddr ← do_get_faddr paddr; aliased_read 8 haddr) c = (Ret v, c') -> v = mem_read m paddr /\ replays m0 L f ex c' m.
Proof using HL.
  intros Hu H8 Hr E. destruct (read_at_faddr_sim ex paddr Hu H8 _ _ _ _ Hr E) as (v' & m' & [= <- <-] & Hr' & ->). done.
Qed.

Lemma do_read_pma_sim ex index :
  0 <= index -> vsim (replays m0 L f ex) eq (do_read_pma index) (mem_read_pma index).
Proof using HL.
  intros Hpos. unfold do_read_pma. destruct (PMA_MAX <=? index) eqn:Ei.
  { unfold mem_read_pma. rewrite Ei. by apply vsim_ret. }
  change PMA_MAX with 32 in Ei. unfold read_pmas_istart, read_pmas_ilength.
  destruct (pma_word index 0) as [U0 A0]; [lia|lia|]. destruct (pma_word index 1) as [U1 A1]; [lia|lia|].
  rewrite Z.mul_0_l, Z.add_0_r in U0, A0. rewrite Z.mul_1_l in U1, A1.
  intros c m ar c' Hr E.
  apply bind_Ret_inv in E as (istart & c1 & E1 & E). destruct (read_at_faddr_Ret _ _ _ _ _ _ U0 A0 Hr E1) as [-> Hr1].
  apply bind_Ret_inv in E as (ilength & c2 & E2 & E). destruct (read_at_faddr_Ret _ _ _ _ _ _ U1 A1 Hr1 E2) as [-> Hr2].
  apply bind_Ret_inv in E as (c3 & c3' & [= <- <-] & E). apply bind_Ret_inv in E as ([] & c4 & E3 & E).
  apply bind_Ret_inv in E as (c5 & c5' & [= <- <-] & E). unfold lift in E. exists ar, m.
  assert (Hm : replays m0 L f ex c4 m /\ exists ar4, mjoin (r_ars c4 !! Z.to_nat index) = Some ar4 /\ mem_read_pma index m = (Ret ar4, m)).
  { destruct (mjoin (r_ars c2 !! Z.to_nat index)) as [ar2|] eqn:Ear.
    - injection E3 as <-. split; [done|]. exists ar2. split; [done|]. destruct (rp_ars _ _ _ _ _ _ Hr2) as [_ Hars].
      rewrite <-(Z2Nat.id index) by lia. apply Hars. by destruct (r_ars c2 !! Z.to_nat index) as [[]|]; simplify_eq/=.
    - apply bind_Ret_inv in E3 as (ar3 & c6 & E3 & E4). unfold lift in E3. injection E3 as Emk <-. injection E4 as <-.
      assert (Hpma : mem_read_pma index m = (Ret ar3, m)).
      { unfold mem_read_pma. change PMA_MAX with 32. rewrite Ei. unfold mbind, M_bind, gets, lift. by rewrite Emk. }
      split; [apply set_ar_replays; [done|by rewrite Z2Nat.id by lia]|]. exists ar3. split; [|done].
      cbn [set_ar r_ars]. destruct (rp_ars _ _ _ _ _ _ Hr2) as [Hl _]. by rewrite list_lookup_insert_eq by lia. }
  destruct Hm as (Hr4 & ar4 & Ear & Hpma). rewrite Ear in E. injection E as <- <-. by rewrite Hpma.
Qed.

(** Reads leave the state of the replay alone. *)
Lemma read_at_faddr_state paddr c v c' :
  (haddr ← do_get_faddr paddr; aliased_read 8 haddr) c = (Ret v, c') -> c' = c.
Proof using Type.
  intros E. apply bind_Ret_inv in E as (h & c1 & E1 & E). unfold do_get_faddr in E1.
  apply bind_Ret_inv in E1 as (i & c2 & E2 & E1). apply find_page_Ret in E2 as [-> _]. injection E1 as <- <-.
  unfold aliased_read in E. apply bind_Ret_inv in E as (c3 & c4 & [= <- <-] & E).
  apply bind_Ret_inv in E as ([j o] & c5 & E3 & E). unfold lift in E3. injection E3 as _ <-.
  destruct (pages (r_log c) !! j); [by injection E as _ <-|done].
Qed.

(** Words of TLB slots. *)
Lemma slot_word_ok SET slot_index what :
  slot_range SET slot_index -> what ∈ [0; 8; 16; 24] ->
  let p := shadow_tlb_get_abs_addr SET slot_index + what in uint64 p = p /\ is_u 64 p /\ p mod 8 = 0.
Proof using Type.
  intros Hs (H8 & Hr)%what_cases p. subst p. rewrite slot_addr by done. destruct Hs.
  split; [apply uwrap_small; unfold is_u; lia|]. split; [unfold is_u; lia|].
  replace (4096 + SET * 8192 + slot_index * 32 + what) with (what + (512 + SET * 1024 + slot_index * 4) * 8) by lia.
  by rewrite Z.mod_add by lia.
Qed.

Lemma check_read_tlb_sim ex SET slot_index what :
  slot_range SET slot_index -> what ∈ [0; 8; 16; 24] ->
  vsim (replays m0 L f ex) eq (check_read_tlb SET slot_index what) (read_shadow_tlb SET slot_index what).
Proof using HL.
  intros Hs Hw. destruct (slot_word_ok _ _ _ Hs Hw) as (E & Hu & H8). unfold check_read_tlb. rewrite E.
  by apply read_at_faddr_sim.
Qed.

Lemma check_read_tlb_Ret ex SET slot_index what c m v c' :
  slot_range SET slot_index -> what ∈ [0; 8; 16; 24] -> replays m0 L f ex c m ->
  check_read_tlb SET slot_index what c = (Ret v, c') -> v = tlb_word m SET slot_index what /\ replays m0 L f ex c' m.
Proof using HL.
  intros Hs Hw Hr E. destruct (check_read_tlb_sim ex SET slot_index what Hs Hw _ _ _ _ Hr E) as (v' & m' & [= <- <-] & Hr' & ->).
  done.
Qed.

Lemma check_write_tlb_Ret SET slot_index what val c m u c' :
  slot_range SET slot_index -> what ∈ [0; 8; 16; 24] -> replays m0 L f (Some (SET, slot_index)) c m ->
  check_write_tlb SET slot_index what val c = (Ret u, c') ->
  replays m0 L f (Some (SET, slot_index)) c' (mem_write (shadow_tlb_get_abs_addr SET slot_index + what) val m).
Proof using HL.
  intros Hs Hw Hr E. destruct (slot_word_ok _ _ _ Hs Hw) as (Eu & Hu & H8). unfold check_write_tlb in E. rewrite Eu in E.
  apply bind_Ret_inv in E as (h & c1 & Eh & E).
  destruct (get_faddr_sim _ _ Hu _ _ _ _ Hr Eh) as (p & m1 & [= <- <-] & Hr1 & Hf).
  destruct (write_fast8_sim (Some (SET, slot_index)) h _ val Hf H8 ltac:(unfold is_u in Hu; lia)) with c1 m u c'
    as (u' & m2 & [= <- <-] & Hr2 & _); [|done|done|done].
  intros m'. by apply frame_slot.
Qed.

(** ** TLB slots *)

Lemma is_set_range SET : is_set SET = true -> 0 <= SET < 3.
Proof using Type. unfold is_set. change TLB_CODE with 0. change TLB_READ with 1. change TLB_WRITE with 2. lia. Qed.

Lemma slot_index_range vaddr : 0 <= tlb_slot_index vaddr < 256.
Proof using Type.
  unfold tlb_slot_index. change (TLB_SET_SIZE - 1) with (Z.ones 8). rewrite Z.land_ones by lia. by apply Z.mod_pos_bound.
Qed.

(** Neither mark of a hot slot is ever hit. *)
Lemma not_hit size x vaddr :
  is_size size = true -> is_u 64 vaddr -> Z.testbit x 11 = true -> tlb_is_hit size x vaddr = false.
Proof using Type.
  intros Hs Hv Hx. unfold tlb_is_hit. apply Z.eqb_neq. intros ->. rewrite Z.land_spec in Hx.
  assert (E : Z.testbit (not64 (Z.land PAGE_OFFSET_MASK (not64 (size - 1)))) 11 = false).
  { unfold is_size in Hs. assert (size = 1 \/ size = 2 \/ size = 4 \/ size = 8) as [->|[->|[->| ->]]] by lia; reflexivity. }
  by rewrite E, andb_false_r in Hx.
Qed.

Lemma page_offset_mod x : Z.land x PAGE_OFFSET_MASK = 0 -> x mod 4096 = 0.
Proof using Type. change PAGE_OFFSET_MASK with (Z.ones 12). by rewrite Z.land_ones by lia. Qed.

(** What a valid slot has. *)
Lemma verify_slot_page v vp z im st len :
  (shadow_tlb_verify_slot v vp z im st len =? TLB_INVALID_PAGE) = false ->
  Z.land v PAGE_OFFSET_MASK = 0 /\ Z.land (uint64 (v + vp)) PAGE_OFFSET_MASK = 0 /\
  shadow_tlb_verify_slot v vp z im st len = v.
Proof using Type.
  unfold shadow_tlb_verify_slot. repeat (case_match; [by rewrite Z.eqb_refl|]). intros _.
  repeat match goal with E : negb (_ =? 0) = false |- _ => apply negb_false_iff, Z.eqb_eq in E end. done.
Qed.

Lemma mem_verify_slot_run SET slot_index m b :
  mem_verify_slot SET slot_index m = (Ret b, m) <->
  exists ar, mem_read_pma (tlb_word m SET slot_index 16) m = (Ret ar, m) /\
    b = negb (shadow_tlb_verify_slot (tlb_word m SET slot_index 0) (tlb_word m SET slot_index 8) (tlb_word m SET slot_index 24)
                (is_memory ar) (get_start ar) (get_length ar) =? TLB_INVALID_PAGE).
Proof using Type.
  unfold mem_verify_slot, read_shadow_tlb, mbind, M_bind, gets. unfold tlb_word at 2 3 4.
  fold (tlb_word m SET slot_index 16). destruct (mem_read_pma_same (tlb_word m SET slot_index 16) m) as [[ar|e] Ex]; rewrite Ex.
  - split; [intros [= <-]; by exists ar|]. intros (ar' & [= <-] & ->). done.
  - split; [done|]. by intros (ar' & E & _).
Qed.

Lemma mem_verify_true SET slot_index m :
  mem_verify_slot SET slot_index m = (Ret true, m) ->
  Z.land (tlb_word m SET slot_index 0) PAGE_OFFSET_MASK = 0 /\
  Z.land (uint64 (tlb_word m SET slot_index 0 + tlb_word m SET slot_index 8)) PAGE_OFFSET_MASK = 0.
Proof using Type.
  intros (ar & _ & E)%mem_verify_slot_run. symmetry in E. apply negb_true_iff in E.
  by destruct (verify_slot_page _ _ _ _ _ _ E) as (H1 & H2 & _).
Qed.

Lemma hot_slot_set c SET slot_index h SET' slot_index' :
  length (r_tlb c) = 3%nat -> Forall (fun set => length set = 256%nat) (r_tlb c) ->
  slot_range SET slot_index -> slot_range SET' slot_index' ->
  hot_slot (set_hot_slot SET slot_index h c) SET' slot_index' =
    if decide (SET = SET' /\ slot_index = slot_index') then h else hot_slot c SET' slot_index'.
Proof using Type.
  intros Hl Hf [H1 H2] [H3 H4]. unfold hot_slot. cbn [set_hot_slot r_tlb].
  destruct (decide (SET = SET')) as [<-|Hne].
  - rewrite list_lookup_alter_eq. destruct (lookup_lt_is_Some_2 (r_tlb c) (Z.to_nat SET)) as [set Hset]; [lia|].
    rewrite Hset. cbn [fmap option_fmap option_map mbind option_bind].
    rewrite Forall_lookup in Hf. specialize (Hf _ _ Hset). cbn in Hf.
    destruct (decide (slot_index = slot_index')) as [<-|Hne'].
    + rewrite list_lookup_insert_eq, decide_True by (done || lia). done.
    + rewrite list_lookup_insert_ne by lia. rewrite decide_False; [done|]. by intros [_ E].
  - rewrite list_lookup_alter_ne by lia. rewrite decide_False; [done|]. by intros [E _].
Qed.

(** A hot slot that is right replaces the slot. *)
Lemma set_hot_replays ex c m SET slot_index h :
  replays m0 L f ex c m -> slot_range SET slot_index -> (ex = None \/ ex = Some (SET, slot_index)) ->
  hot_ok L m SET slot_index h ->
  (SET = TLB_WRITE -> mem_verify_slot TLB_WRITE slot_index m = (Ret true, m) ->
     WRITEABLE_START <= uint64 (tlb_word m TLB_WRITE slot_index 0 + tlb_word m TLB_WRITE slot_index 8)) ->
  replays m0 L f None (set_hot_slot SET slot_index h c) m.
Proof using Type.
  intros [Hlay Hfun Hh Hout Hsib Hregs Hars [Hl Hf] Htlb Hws] Hs Hex Hhot Hw. split; try done.
  - cbn [set_hot_slot r_tlb]. split; [by rewrite length_alter|]. apply Forall_lookup. intros i set Hi.
    rewrite Forall_lookup in Hf. rewrite list_lookup_alter in Hi. destruct (decide _) as [<-|]; [|by eapply Hf].
    apply fmap_Some in Hi as (set' & Hset & ->). rewrite length_insert. by eapply Hf.
  - intros SET' slot' Hs' _. rewrite hot_slot_set by done. destruct (decide _) as [[<- <-]|Hne]; [done|].
    apply Htlb; [done|]. destruct Hex as [->| ->]; [done|]. intros [= -> ->]. by apply Hne.
  - intros slot' Hs' _ Hv. destruct (decide (SET = TLB_WRITE /\ slot_index = slot')) as [[-> ->]|Hne]; [by apply Hw|].
    apply Hws; [done| |done]. destruct Hex as [->| ->]; [done|]. intros [= -> ->]. by apply Hne.
Qed.

(** The host address of a page that is found, from a virtual address. *)
Lemma fast_of_page c m ex i v p :
  replays m0 L f ex c m -> is_u 64 p -> p mod 4096 = 0 -> L.1 !! i = Some (Z.shiftr p AR_LOG2_PAGE_SIZE) ->
  fast L (uint64 (v + uint64 (page_host c i - v))) p.
Proof using HL.
  intros Hr Hp Hp0 Hi. rewrite page_index_of in Hi. exists i. split; [done|].
  unfold uint64. rewrite uwrap_add_r. replace (v + (page_host c i - v)) with (page_host c i + 0) by lia.
  pose proof (rp_layout _ _ _ _ _ _ Hr) as Hlay. rewrite uwrap_small.
  - rewrite page_host_eq, Hlay, Hp0. lia.
  - apply host_range; [by rewrite Hlay| |lia]. rewrite <-length_indices, Hlay. by eapply lookup_lt_Some.
Qed.

Lemma aligned_not_marked v : Z.land v PAGE_OFFSET_MASK = 0 -> v <> TLB_UNVERIFIED_PAGE /\ v <> TLB_INVALID_PAGE.
Proof using Type. intros E. split; intros ->; by vm_compute in E. Qed.

Lemma init_slot_Ret SET slot_index c m v c' :
  slot_range SET slot_index -> replays m0 L f None c m -> do_init_hot_tlb_slot SET slot_index c = (Ret v, c') ->
  replays m0 L f None c' m /\ hot_vaddr_page (hot_slot c' SET slot_index) = v /\ v <> TLB_UNVERIFIED_PAGE.
Proof using HL.
  intros Hs Hr E. unfold do_init_hot_tlb_slot in E. apply bind_Ret_inv in E as (hv & c0 & [= <- <-] & E).
  destruct (hot_vaddr_page (hot_slot c SET slot_index) =? TLB_UNVERIFIED_PAGE) eqn:Eu; cbn [negb] in E.
  2:{ injection E as <- <-. apply Z.eqb_neq in Eu. done. }
  apply bind_Ret_inv in E as (v0 & c1 & E1 & E). destruct (check_read_tlb_Ret _ _ _ _ _ _ _ _ Hs in_0 Hr E1) as [-> Hr1].
  apply bind_Ret_inv in E as (v8 & c2 & E2 & E). destruct (check_read_tlb_Ret _ _ _ _ _ _ _ _ Hs in_8 Hr1 E2) as [-> Hr2].
  apply bind_Ret_inv in E as (v16 & c3 & E3 & E). destruct (check_read_tlb_Ret _ _ _ _ _ _ _ _ Hs in_16 Hr2 E3) as [-> Hr3].
  apply bind_Ret_inv in E as (v24 & c4 & E4 & E). destruct (check_read_tlb_Ret _ _ _ _ _ _ _ _ Hs in_24 Hr3 E4) as [-> Hr4].
  apply bind_Ret_inv in E as (ar & c5 & E5 & E).
  destruct (do_read_pma_sim None (tlb_word m SET slot_index 16) ltac:(apply word_at_range) _ _ _ _ Hr4 E5) as (ar' & m' & Epma & Hr5 & <-).
  destruct (mem_read_pma_same (tlb_word m SET slot_index 16) m) as [x Ex]. rewrite Epma in Ex. injection Ex as <- ->.
  assert (Hrun : forall b, b = negb (shadow_tlb_verify_slot (tlb_word m SET slot_index 0) (tlb_word m SET slot_index 8)
      (tlb_word m SET slot_index 24) (is_memory ar) (get_start ar) (get_length ar) =? TLB_INVALID_PAGE) ->
      mem_verify_slot SET slot_index m = (Ret b, m)) by (intros b Hb; apply mem_verify_slot_run; by exists ar).
  pose proof (rp_tlb_size _ _ _ _ _ _ Hr5) as [Hl Hf].
  destruct (shadow_tlb_verify_slot _ _ _ _ _ _ =? TLB_INVALID_PAGE) eqn:Ev.
  - apply bind_Ret_inv in E as (u & c6 & [= <- <-] & E). injection E as <- <-.
    rewrite hot_slot_set, decide_True by done. split; [|done].
    apply (set_hot_replays None c5 m); [done|done|by left| |].
    + right; left. split; [done|]. by apply Hrun.
    + intros -> Hv. rewrite (Hrun false) in Hv by done. done.
  - apply bind_Ret_inv in E as (i & c6 & E6 & E). apply find_page_Ret in E6 as [-> Hi].
    apply bind_Ret_inv in E as (c7 & c7' & [= <- <-] & E). apply bind_Ret_inv in E as (u & c8 & [= <- <-] & E).
    injection E as <- <-. destruct (verify_slot_page _ _ _ _ _ _ Ev) as (Hv0 & Hvp & _).
    rewrite hot_slot_set, decide_True by done. split; [|split; [done|by apply aligned_not_marked]].
    rewrite (rp_layout _ _ _ _ _ _ Hr5) in Hi.
    apply (set_hot_replays None c5 m); [done|done|by left| |].
    + right; right. split; [by apply Hrun|]. split; [done|]. cbn [hot_vaddr_page hot_vh_offset].
      eapply fast_of_page; [exact Hr5|by apply uwrap_range|by apply page_offset_mod|exact Hi].
    + intros -> Hv. apply (rp_write _ _ _ _ _ _ Hr5); [apply Hs|done|done].
Qed.

Lemma mem_verify_same SET slot_index m : exists x, mem_verify_slot SET slot_index m = (x, m).
Proof using Type.
  unfold mem_verify_slot, read_shadow_tlb, mbind, M_bind, gets.
  destruct (mem_read_pma_same (tlb_word m SET slot_index 16) m) as [[ar|e] Ex]; unfold tlb_word in Ex; rewrite Ex; by eexists.
Qed.

(** The lookup over memory. *)
Lemma mem_tlb_lookup size SET vaddr m :
  tlb_lookup size SET vaddr m =
    let slot_index := tlb_slot_index vaddr in
    if tlb_is_hit size (tlb_word m SET slot_index 0) vaddr then
      match mem_verify_slot SET slot_index m with
      | (Ret true, _) => (Ret (Some (uint64 (vaddr + tlb_word m SET slot_index 8), tlb_word m SET slot_index 16)), m)
      | (Ret false, _) => (Ret None, m)
      | (Throw e, _) => (Throw e, m)
      end
    else (Ret None, m).
Proof using Type.
  unfold tlb_lookup. cbn [sa_vaddr_page sa_init_slot sa_verify_slot sa_pma_index sa_hit_faddr memory_access].
  unfold read_tlb_vaddr_page, init_hot_tlb_slot, read_tlb_pma_index, read_tlb_vf_offset, read_shadow_tlb.
  unfold mbind at 1, M_bind at 1, gets at 1. fold (tlb_word m SET (tlb_slot_index vaddr) 0). cbv zeta.
  destruct (tlb_is_hit _ _ _) eqn:Eh.
  - destruct (mem_verify_same SET (tlb_slot_index vaddr) m) as [x Ex]. unfold mbind at 1, M_bind at 1. rewrite Ex.
    by destruct x as [[]|].
  - unfold mbind at 1, M_bind at 1, gets at 1. fold (tlb_word m SET (tlb_slot_index vaddr) 0). by rewrite Eh.
Qed.

(** Adding an offset within the page. *)
Lemma fast_add h p k :
  fast L h p -> p mod 4096 = 0 -> 0 <= k < 4096 -> is_u 64 (h + k) /\ fast L (h + k) (p + k).
Proof using HL.
  intros (i & Hi & ->) Hp Hk. rewrite Hp. destruct HL as (_ & _ & Hpos & Hl). pose proof (lookup_lt_Some _ _ _ Hi).
  split; [unfold is_u; lia|]. exists i. destruct (within_page p k 1) as [-> ->]; [lia..|]. split; [done|]. lia.
Qed.

(** What a lookup returns: the fast address of a physical address with the
    offset of [vaddr], in writeable memory for the write set. *)
Definition hit_rel SET vaddr (x : option (Z * Z)) (y : option (Z * Z)) : Prop :=
  match x, y with
  | Some (h, i), Some (p, j) =>
      fast L h p /\ i = j /\ p mod 4096 = vaddr mod 4096 /\ (SET = TLB_WRITE -> WRITEABLE_START <= p)
  | None, None => True
  | _, _ => False
  end.

Lemma size_pow2 size : is_size size = true -> exists k, 0 <= k <= 3 /\ size = 2 ^ k.
Proof using Type.
  unfold is_size. intros Hs. assert (size = 1 \/ size = 2 \/ size = 4 \/ size = 8) as [->|[->|[->| ->]]] by lia;
    [exists 0|exists 1|exists 2|exists 3]; (split; [lia|done]).
Qed.

Lemma hit_page size m SET vaddr :
  is_size size = true -> is_u 64 vaddr -> Z.land (tlb_word m SET (tlb_slot_index vaddr) 0) PAGE_OFFSET_MASK = 0 ->
  tlb_is_hit size (tlb_word m SET (tlb_slot_index vaddr) 0) vaddr = true ->
  vaddr = tlb_word m SET (tlb_slot_index vaddr) 0 + vaddr mod 4096.
Proof using Type.
  intros Hs Hv Hp Hhit. destruct (size_pow2 size Hs) as (k & Hk & ->).
  rewrite tlb_is_hit_spec in Hhit by (done || lia). apply bool_decide_eq_true in Hhit as [<- _].
  rewrite tlb_addr_page_div by done. pose proof (Z.div_mod vaddr 4096 ltac:(lia)). lia.
Qed.

(** A hit of a verified slot. *)
Lemma verified_hit_sim size SET vaddr c m r c' :
  is_size size = true -> is_u 64 vaddr -> 0 <= SET < 3 -> replays m0 L f None c m ->
  let slot_index := tlb_slot_index vaddr in
  tlb_is_hit size (hot_vaddr_page (hot_slot c SET slot_index)) vaddr = true ->
  (pma_index ← do_read_tlb_pma_index SET slot_index;
   faddr ← (vf_offset ← do_read_tlb_vf_offset SET slot_index; mret (uint64 (vaddr + vf_offset)));
   mret (Some (faddr, pma_index))) c = (Ret r, c') ->
  exists y, tlb_lookup size SET vaddr m = (Ret y, m) /\ replays m0 L f None c' m /\ hit_rel SET vaddr r y.
Proof using HL.
  intros Hsz Hv HS Hr slot_index Hhit E.
  assert (Hs : slot_range SET slot_index) by (split; [done|apply slot_index_range]).
  apply bind_Ret_inv in E as (i & c1 & E1 & E).
  assert (c1 = c) as -> by (by eapply read_at_faddr_state).
  destruct (check_read_tlb_Ret _ _ _ _ _ _ _ _ Hs in_16 Hr E1) as [-> _].
  apply bind_Ret_inv in E as (h & c2 & E2 & E). injection E2 as <- <-. injection E as <- <-.
  destruct (rp_tlb _ _ _ _ _ _ Hr SET slot_index Hs ltac:(done)) as [Hu|[[Hu _]|(Hver & Hw0 & Hfast)]].
  1, 2: rewrite Hu, not_hit in Hhit by done; done.
  destruct (mem_verify_true _ _ _ Hver) as [Hp0 Hpp]. rewrite mem_tlb_lookup. fold slot_index. cbv zeta.
  rewrite Hw0 in Hhit, Hfast. rewrite Hhit, Hver. eexists. split; [reflexivity|]. split; [done|].
  pose proof (hit_page size m SET vaddr Hsz Hv Hp0 Hhit) as Epage. fold slot_index in Epage.
  set (w0 := tlb_word m SET slot_index 0) in *. set (w8 := tlb_word m SET slot_index 8) in *.
  set (vh := hot_vh_offset (hot_slot c SET slot_index)) in *.
  pose proof (Z.mod_pos_bound vaddr 4096 ltac:(lia)) as Hk. set (k := vaddr mod 4096) in *.
  apply page_offset_mod in Hpp. destruct (fast_add _ _ k Hfast Hpp Hk) as [Hu Hf].
  assert (Eh : uint64 (vaddr + vh) = uint64 (w0 + vh) + k).
  { rewrite Epage. rewrite <-(uwrap_small 64 (uint64 (w0 + vh) + k)) by done. unfold uint64.
    rewrite uwrap_add_l. f_equal. lia. }
  assert (Hpk : is_u 64 (uint64 (w0 + w8) + k)).
  { pose proof (uwrap_range 64 (w0 + w8) ltac:(lia)) as Hr64. unfold is_u, uint64 in *.
    pose proof (Z.div_mod (uwrap 64 (w0 + w8)) 4096 ltac:(lia)). lia. }
  assert (Ep : uint64 (vaddr + w8) = uint64 (w0 + w8) + k).
  { rewrite Epage. rewrite <-(uwrap_small 64 (uint64 (w0 + w8) + k)) by done. unfold uint64.
    rewrite uwrap_add_l. f_equal. lia. }
  unfold hit_rel. rewrite Eh, Ep. split; [done|]. split; [done|]. split.
  - rewrite Z.add_mod, Hpp, Z.add_0_l, Z.mod_mod by lia. unfold k. by rewrite Z.mod_mod by lia.
  - intros ->. pose proof (rp_write _ _ _ _ _ _ Hr slot_index (slot_index_range vaddr) ltac:(done) Hver) as Hw.
    change (WRITEABLE_START <= uint64 (w0 + w8)) in Hw. lia.
Qed.

(** A miss of a slot whose hot slot was looked at. *)
Lemma miss_sim size SET vaddr c m :
  is_size size = true -> is_u 64 vaddr -> 0 <= SET < 3 -> replays m0 L f None c m ->
  let slot_index := tlb_slot_index vaddr in
  hot_vaddr_page (hot_slot c SET slot_index) <> TLB_UNVERIFIED_PAGE ->
  tlb_is_hit size (hot_vaddr_page (hot_slot c SET slot_index)) vaddr = false ->
  tlb_lookup size SET vaddr m = (Ret None, m).
Proof using HL.
  intros Hsz Hv HS Hr slot_index Hu Hmiss. assert (Hs : slot_range SET slot_index) by (split; [done|apply slot_index_range]).
  rewrite mem_tlb_lookup. fold slot_index. cbv zeta.
  destruct (rp_tlb _ _ _ _ _ _ Hr SET slot_index Hs ltac:(done)) as [Hc|[[_ Hver]|(_ & Hw0 & _)]]; [done| |].
  - rewrite Hver. case_match; reflexivity.
  - rewrite <-Hw0, Hmiss. reflexivity.
Qed.

Lemma tlb_lookup_sim size SET vaddr :
  is_size size = true -> is_u 64 vaddr -> 0 <= SET < 3 ->
  vsim (replays m0 L f None) (hit_rel SET vaddr) (tlb_lookup size SET vaddr) (tlb_lookup size SET vaddr).
Proof using HL.
  intros Hsz Hv HS c m r c' Hr E. unfold tlb_lookup at 1 in E.
  cbn [sa_vaddr_page sa_init_slot sa_verify_slot sa_pma_index sa_hit_faddr step_replay_access] in E.
  assert (Hs : slot_range SET (tlb_slot_index vaddr)) by (split; [done|apply slot_index_range]).
  apply bind_Ret_inv in E as (v & c1 & [= <- <-] & E). cbv zeta in E.
  destruct (tlb_is_hit size _ vaddr) eqn:Eh.
  - apply bind_Ret_inv in E as (b & c1 & [= <- <-] & E). cbn [negb] in E.
    destruct (verified_hit_sim size SET vaddr c m r c' Hsz Hv HS Hr Eh E) as (y & Ey & Hr' & Hy). by exists y, m.
  - apply bind_Ret_inv in E as (v & c1 & E1 & E).
    destruct (init_slot_Ret _ _ _ _ _ _ Hs Hr E1) as (Hr1 & Ev & Hu). rewrite <-Ev in E, Hu.
    destruct (tlb_is_hit size (hot_vaddr_page (hot_slot c1 _ _)) vaddr) eqn:Eh1.
    + apply bind_Ret_inv in E as (b & c2 & [= <- <-] & E). cbn [negb] in E.
      destruct (verified_hit_sim size SET vaddr c1 m r c' Hsz Hv HS Hr1 Eh1 E) as (y & Ey & Hr' & Hy). by exists y, m.
    + injection E as <- <-. exists None, m. split; [by eapply miss_sim|done].
Qed.

(** ** Writes of TLB slots *)

Lemma replays_weaken ex c m : replays m0 L f None c m -> replays m0 L f ex c m.
Proof using Type.
  intros [Hlay Hfun Hh Hout Hsib Hregs Hars Htlbs Htlb Hws]. split; try done.
  - intros SET slot_index Hs _. by apply Htlb.
  - intros slot_index Hs _. by apply Hws.
Qed.

Lemma tlb_word_write SET slot_index v vp pma m :
  slot_range SET slot_index ->
  tlb_word (mem_write_tlb SET slot_index v vp pma m) SET slot_index 0 = uint64 v /\
  tlb_word (mem_write_tlb SET slot_index v vp pma m) SET slot_index 8 = uint64 vp.
Proof using Type.
  intros Hs. unfold tlb_word, mem_read. destruct (mem_write_tlb_words SET slot_index v vp pma m) as (n & En & ->). rewrite En.
  pose proof (word_index_slot n 0 ltac:(lia)) as W0. pose proof (word_index_slot n 1 ltac:(lia)) as W1.
  rewrite Z.mul_0_r in W0. rewrite Z.mul_1_r in W1. rewrite W0, W1, !word_at_insert. 
  rewrite !Z.add_0_r. split; repeat case_decide; try lia; done.
Qed.

Lemma four_writes SET slot_index v vp pma c m u1 u2 u3 u4 c1 c2 c3 c4 :
  slot_range SET slot_index -> replays m0 L f None c m ->
  check_write_tlb SET slot_index 0 v c = (Ret u1, c1) -> check_write_tlb SET slot_index 8 vp c1 = (Ret u2, c2) ->
  check_write_tlb SET slot_index 16 pma c2 = (Ret u3, c3) -> check_write_tlb SET slot_index 24 0 c3 = (Ret u4, c4) ->
  (SET = TLB_WRITE -> mem_verify_slot SET slot_index (mem_write_tlb SET slot_index v vp pma m) =
     (Ret true, mem_write_tlb SET slot_index v vp pma m) -> WRITEABLE_START <= uint64 (uint64 v + uint64 vp)) ->
  replays m0 L f None (set_hot_slot SET slot_index unverified_slot c4) (mem_write_tlb SET slot_index v vp pma m).
Proof using HL.
  intros Hs Hr E1 E2 E3 E4 Hw. apply (replays_weaken (Some (SET, slot_index))) in Hr.
  apply (check_write_tlb_Ret _ _ _ _ _ _ _ _ Hs in_0 Hr) in E1. apply (check_write_tlb_Ret _ _ _ _ _ _ _ _ Hs in_8 E1) in E2.
  apply (check_write_tlb_Ret _ _ _ _ _ _ _ _ Hs in_16 E2) in E3. apply (check_write_tlb_Ret _ _ _ _ _ _ _ _ Hs in_24 E3) in E4.
  assert (Em : mem_write (shadow_tlb_get_abs_addr SET slot_index + 24) 0
    (mem_write (shadow_tlb_get_abs_addr SET slot_index + 16) pma
      (mem_write (shadow_tlb_get_abs_addr SET slot_index + 8) vp
        (mem_write (shadow_tlb_get_abs_addr SET slot_index + 0) v m))) = mem_write_tlb SET slot_index v vp pma m)
    by (by rewrite Z.add_0_r).
  rewrite Em in E4. apply (set_hot_replays (Some (SET, slot_index))); [done|done|by right|by left|].
  intros -> Hv. destruct (tlb_word_write TLB_WRITE slot_index v vp pma m Hs) as [-> ->]. by apply Hw.
Qed.

Lemma invalid_not_verified SET slot_index vp pma m :
  slot_range SET slot_index ->
  mem_verify_slot SET slot_index (mem_write_tlb SET slot_index TLB_INVALID_PAGE vp pma m) <>
    (Ret true, mem_write_tlb SET slot_index TLB_INVALID_PAGE vp pma m).
Proof using Type.
  intros Hs Hv. apply mem_verify_true in Hv as [H0 _].
  destruct (tlb_word_write SET slot_index TLB_INVALID_PAGE vp pma m Hs) as [E _]. rewrite E in H0. by vm_compute in H0.
Qed.

Lemma flush_slot_sim SET slot_index :
  slot_range SET slot_index ->
  vsim (replays m0 L f None) eq (sa_flush_slot SET slot_index) (sa_flush_slot SET slot_index).
Proof using HL.
  intros Hs c m [] c' Hr E. cbn [sa_flush_slot step_replay_access memory_access] in *. unfold do_write_tlb in E.
  change (TLB_INVALID_PAGE =? TLB_UNVERIFIED_PAGE) with false in E. rewrite Z.eqb_refl in E. cbn [negb] in E.
  apply bind_Ret_inv in E as (u1 & c1 & E1 & E). apply bind_Ret_inv in E as (u2 & c2 & E2 & E).
  apply bind_Ret_inv in E as (u3 & c3 & E3 & E). apply bind_Ret_inv in E as (u4 & c4 & E4 & E). injection E as <-.
  eexists (), _. split; [reflexivity|]. split; [|done].
  eapply (four_writes SET slot_index); [done|exact Hr|exact E1|exact E2|exact E3|exact E4|].
  intros _ Hv. by apply invalid_not_verified in Hv.
Qed.

Lemma check_write_tlb_layout SET slot_index what val c m u c' :
  slot_range SET slot_index -> what ∈ [0; 8; 16; 24] -> replays m0 L f None c m ->
  check_write_tlb SET slot_index what val c = (Ret u, c') -> layout c' = L.
Proof using HL.
  intros Hs Hw Hr E. apply (replays_weaken (Some (SET, slot_index))) in Hr.
  apply (check_write_tlb_Ret _ _ _ _ _ _ _ _ Hs Hw Hr) in E. apply (rp_layout _ _ _ _ _ _ E).
Qed.

Lemma tlb_replace_sim SET vaddr paddr pma_index :
  0 <= SET < 3 -> is_u 64 vaddr -> is_u 64 paddr -> is_u 64 pma_index ->
  paddr mod 4096 = vaddr mod 4096 -> (SET = TLB_WRITE -> WRITEABLE_START <= paddr) ->
  vsim (replays m0 L f None) (fast L) (tlb_replace SET vaddr paddr pma_index) (tlb_replace SET vaddr paddr pma_index).
Proof using HL.
  intros HS Hv Hp Hpma Ho Hw c m h c' Hr E. unfold tlb_replace at 1 in E.
  cbn [sa_get_faddr sa_map_slot step_replay_access] in E. set (slot_index := tlb_slot_index vaddr) in *.
  assert (Hs : slot_range SET slot_index) by (split; [done|apply slot_index_range]).
  apply bind_Ret_inv in E as (h1 & c1 & E1 & E). apply bind_Ret_inv in E as ([] & c2 & E2 & E). injection E as <- <-.
  destruct (get_faddr_sim None paddr Hp _ _ _ _ Hr E1) as (p & m1 & [= <- <-] & Hr1 & Hf).
  unfold do_write_tlb in E2. rewrite tlb_addr_page_div in E2 by done.
  set (v := vaddr / 4096 * 4096) in *. assert (Hv0 : v mod 4096 = 0) by (by apply Z.mod_mul).
  assert (Hvl : Z.land v PAGE_OFFSET_MASK = 0) by (change PAGE_OFFSET_MASK with (Z.ones 12); by rewrite Z.land_ones).
  destruct (aligned_not_marked v Hvl) as [Hn1 Hn2].
  rewrite (proj2 (Z.eqb_neq _ _) Hn1), (proj2 (Z.eqb_neq _ _) Hn2) in E2. cbn [negb] in E2.
  apply bind_Ret_inv in E2 as (u1 & c3 & W1 & E2). apply bind_Ret_inv in E2 as (u2 & c4 & W2 & E2).
  apply bind_Ret_inv in E2 as (u3 & c5 & W3 & E2). apply bind_Ret_inv in E2 as (u4 & c6 & W4 & E2). injection E2 as <-.
  (* the host page of the fast address *)
  pose proof (check_write_tlb_layout _ _ _ _ _ _ _ _ Hs in_0 Hr1 W1) as Hlay.
  pose proof (Z.div_mod vaddr 4096 ltac:(lia)) as Dv. pose proof (Z.div_mod paddr 4096 ltac:(lia)) as Dp.
  pose proof (Z.mod_pos_bound paddr 4096 ltac:(lia)) as Bp.
  destruct Hf as (i & Hi & Eh).
  assert (Ehost : uint64 (v + uint64 (h1 - vaddr)) = page_host c3 i).
  { unfold uint64. rewrite uwrap_add_r. rewrite page_host_eq, Hlay.
    replace (v + (h1 - vaddr)) with (L.2 + Z.of_nat i * 4136 + 8) by (subst v; lia).
    apply uwrap_small. destruct HL as (_ & _ & Hpos & Hl). apply lookup_lt_Some in Hi. unfold is_u. lia. }
  assert (Hilt : (i < length (pages (r_log c3)))%nat) by (rewrite <-length_indices, Hlay; by eapply lookup_lt_Some).
  rewrite Ehost in W2. apply bind_Ret_inv in W2 as (j & c7 & F & W2). rewrite find_host_page_at in F by done.
  injection F as <- <-. apply bind_Ret_inv in W2 as (c8 & c8' & [= <- <-] & W2).
  rewrite <-Hlay in Hi. apply lookup_indices in Hi as Hi'. destruct Hi' as (pg & Hpg & Hidx). rewrite Hpg, Hidx in W2.
  assert (Hb : paddr / 4096 < 2 ^ 52) by (apply Z.div_lt_upper_bound; unfold is_u in Hp; lia).
  assert (Evp : uint64 (uint64 (Z.shiftl (paddr / 4096) AR_LOG2_PAGE_SIZE) - v) = uint64 (paddr - vaddr)).
  { unfold AR_LOG2_PAGE_SIZE. rewrite Z.shiftl_mul_pow2 by lia. change (2 ^ 12) with 4096.
    unfold uint64 at 2. rewrite uwrap_small by (unfold is_u in *; pose proof (Z.div_pos paddr 4096); lia).
    f_equal. subst v. lia. }
  rewrite Evp in W2. exists paddr, (mem_write_tlb SET slot_index v (uint64 (paddr - vaddr)) pma_index m).
  split; [|split].
  - unfold tlb_replace. cbn [sa_get_faddr sa_map_slot memory_access]. by rewrite tlb_addr_page_div by done.
  - eapply (four_writes SET slot_index v (uint64 (paddr - vaddr)) pma_index c1 m); [done|done|exact W1|exact W2|exact W3|exact W4|].
    intros HSw _. specialize (Hw HSw). unfold uint64. rewrite uwrap_add_l, (uwrap_small 64 (uwrap _ _)) by (by apply uwrap_range).
    rewrite uwrap_add_r. replace (v + (paddr - vaddr)) with (paddr / 4096 * 4096) by (subst v; lia).
    rewrite uwrap_small by (unfold is_u in *; pose proof (Z.div_pos paddr 4096); lia).
    unfold WRITEABLE_START in *. change (AR_PMAS_START + AR_PMAS_LENGTH) with (17 * 4096) in *.
    pose proof (Z.div_le_mono (17 * 4096) paddr 4096 ltac:(lia) Hw). rewrite Z.div_mul in * by done. lia.
  - exists i. rewrite Hlay in Hi. done.
Qed.

(** ** Programs *)

Definition handle_rel (h1 h2 : handle Z) : Prop :=
  fast L (h_faddr h1) (h_faddr h2) /\ h_offset h1 = h_faddr h2 mod 4096 /\ h_offset h2 = h_offset h1 /\
  h_writeable h2 = h_writeable h1 /\ (h_writeable h1 = true -> WRITEABLE_START <= h_faddr h2).

Definition answer_rel (x y : answer * list (handle Z)) : Prop := x.1 = y.1 /\ Forall2 handle_rel x.2 y.2.

Lemma fast_range h p : fast L h p -> is_u 64 p.
Proof using HL.
  intros (i & Hi & _). destruct HL as (_ & Hb & _). rewrite Forall_lookup in Hb. specialize (Hb _ _ Hi). cbn in Hb.
  pose proof (Z.div_mod p 4096 ltac:(lia)). pose proof (Z.mod_pos_bound p 4096 ltac:(lia)). unfold is_u. lia.
Qed.

Lemma word_uint64 h p delta size :
  fast L h p -> 0 <= p mod 4096 + delta -> p mod 4096 + delta + size <= 4096 -> 0 < size -> uint64 (p + delta) = p + delta.
Proof using HL.
  intros Hf Hd Hs Hs'. destruct (within_page p delta size Hd Hs Hs') as [E1 E2]. destruct Hf as (i & Hi & _).
  destruct HL as (_ & Hb & _). rewrite Forall_lookup in Hb. specialize (Hb _ _ Hi). cbn in Hb.
  pose proof (Z.div_mod (p + delta) 4096 ltac:(lia)). pose proof (Z.mod_pos_bound (p + delta) 4096 ltac:(lia)).
  apply uwrap_small. unfold is_u. lia.
Qed.

Lemma is_size_pos size : is_size size = true -> 0 < size.
Proof using Type. unfold is_size. lia. Qed.

Lemma aligned_word p size k :
  is_size size = true -> p mod 4096 = k -> Z.land k (size - 1) = 0 -> p mod 8 + size <= 8.
Proof using Type.
  intros Hs Hp Hk. destruct (size_pow2 size Hs) as (j & Hj & ->). replace (2 ^ j - 1) with (Z.ones j) in Hk by (rewrite Z.ones_equiv; lia).
  rewrite Z.land_ones in Hk by lia. pose proof (Z.div_mod p 4096 ltac:(lia)). rewrite Hp in *.
  assert (j = 0 \/ j = 1 \/ j = 2 \/ j = 3) as [->|[->|[->| ->]]] by lia;
    (pose proof (Z.mod_pos_bound p 8 ltac:(lia)); pose proof (Z.div_mod p 8 ltac:(lia)));
    [change (2 ^ 0) with 1 in *|change (2 ^ 1) with 2 in *|change (2 ^ 2) with 4 in *|change (2 ^ 3) with 8 in *];
    match type of Hk with _ mod ?n = 0 => pose proof (Z.div_mod k n ltac:(lia)) end; lia.
Qed.

Lemma read_word_sim size h1 h2 delta :
  handle_rel h1 h2 -> is_size size = true -> 0 <= h_offset h1 + delta -> h_offset h1 + delta + size <= 4096 ->
  vsim (replays m0 L f None) eq (sa_read_word size (h_faddr h1) delta) (sa_read_word size (h_faddr h2) delta).
Proof using HL.
  intros (Hf & Ho & _) Hs Hd Hl c m v c' Hr E. rewrite Ho in *. pose proof (is_size_pos size Hs).
  cbn [sa_read_word step_replay_access memory_access] in *.
  rewrite (read_replays None c m _ _ delta size Hr Hf) in E by done. injection E as <- <-.
  exists (load_bytes m (h_faddr h2 + delta) size), m. split; [|done].
  unfold read_memory_word, gets. by rewrite (word_uint64 _ _ _ _ Hf Hd Hl).
Qed.

Lemma write_word_sim size h1 h2 delta val :
  handle_rel h1 h2 -> is_size size = true -> 0 <= h_offset h1 + delta -> h_offset h1 + delta + size <= 4096 ->
  h_writeable h1 = true -> Z.land (h_offset h1 + delta) (size - 1) = 0 ->
  vsim (replays m0 L f None) eq (sa_write_word size (h_faddr h1) delta val) (sa_write_word size (h_faddr h2) delta val).
Proof using HL.
  intros (Hf & Ho & _ & _ & Hw) Hs Hd Hl Hwr Hal c m [] c' Hr E. rewrite Ho in *. pose proof (is_size_pos size Hs).
  specialize (Hw Hwr). cbn [sa_write_word step_replay_access memory_access] in *. set (p := h_faddr h2) in *.
  destruct (within_page p delta size Hd Hl ltac:(done)) as [Ediv Emod].
  assert (Hp0 : WRITEABLE_START <= p + delta).
  { unfold WRITEABLE_START in *. change (AR_PMAS_START + AR_PMAS_LENGTH) with (17 * 4096) in *.
    pose proof (Z.div_le_mono (17 * 4096) p 4096 ltac:(lia) Hw) as Hdiv. rewrite Z.div_mul in Hdiv by done.
    pose proof (Z.div_mod (p + delta) 4096 ltac:(lia)). pose proof (Z.mod_pos_bound (p + delta) 4096 ltac:(lia)). lia. }
  assert (0 <= p + delta) by (unfold WRITEABLE_START in Hp0; change (AR_PMAS_START + AR_PMAS_LENGTH) with (17 * 4096) in Hp0; lia).
  destruct (write_replays None c m (store_bytes m (p + delta) size val) _ _ delta size val Hr Hf Hd Hl) as (c1 & E1 & Hr1).
  - done.
  - intros q. apply page_bytes_store; [lia|done|]. by eapply aligned_word.
  - apply frame_store; [lia|done].
  - rewrite E1 in E. injection E as <-. eexists (), _. split; [|split; [exact Hr1|done]].
    unfold write_memory_word, modify. by rewrite (word_uint64 _ _ _ _ Hf Hd Hl).
Qed.

Lemma with_handle_sim {A} (V : A -> A -> Prop) size hs1 hs2 n delta writing k1 k2 :
  Forall2 handle_rel hs1 hs2 ->
  (forall h1 h2, handle_rel h1 h2 -> is_size size = true -> 0 <= h_offset h1 + delta -> h_offset h1 + delta + size <= 4096 ->
     (writing = true -> h_writeable h1 = true /\ Z.land (h_offset h1 + delta) (size - 1) = 0) ->
     vsim (replays m0 L f None) V (k1 (h_faddr h1)) (k2 (h_faddr h2))) ->
  vsim (replays m0 L f None) V (with_handle size hs1 n delta writing k1) (with_handle size hs2 n delta writing k2).
Proof using Type.
  intros Hhs Hk. unfold with_handle. destruct (hs1 !! n) as [h1|] eqn:E1; [|by apply vsim_throw].
  destruct (Forall2_lookup_l _ _ _ _ _ Hhs E1) as (h2 & -> & Hh). pose proof Hh as (_ & _ & -> & -> & _).
  change AR_PAGE_SIZE with 4096. destruct (is_size size && _ && _ && _) eqn:Eb; [|by apply vsim_throw].
  apply andb_true_iff in Eb as [Eb Hw]. apply andb_true_iff in Eb as [Eb Hl]. apply andb_true_iff in Eb as [Hs Hd].
  apply Z.leb_le in Hl, Hd. apply Hk; [done..|]. intros ->. cbn [negb orb] in Hw. apply andb_true_iff in Hw as [Hw Ha].
  split; [done|]. by apply Z.eqb_eq.
Qed.

Lemma register_range what :
  (Z.land what 7 =? 0) && (0 <=? what) && (what <? AR_SHADOW_REVERT_ROOT_HASH_START) = true -> 0 <= what < 4096 /\ what mod 8 = 0.
Proof using Type.
  intros [[Ha Hp]%andb_true_iff Hl]%andb_true_iff. change AR_SHADOW_REVERT_ROOT_HASH_START with 4064 in Hl.
  change 7 with (Z.ones 3) in Ha. rewrite Z.land_ones in Ha by lia. change (2 ^ 3) with 8 in Ha. lia.
Qed.

Lemma vsim_value {A1 A2} (V : A1 -> A2 -> Prop) k1 k2 (g1 : A1 -> answer * list (handle Z)) (g2 : A2 -> answer * list (handle Z)) :
  vsim (replays m0 L f None) V k1 k2 -> (forall x y, V x y -> answer_rel (g1 x) (g2 y)) ->
  vsim (replays m0 L f None) answer_rel (x ← k1; mret (g1 x)) (y ← k2; mret (g2 y)).
Proof using Type. intros Hk Hg. eapply vsim_bind; [exact Hk|]. intros x y Hxy. by apply vsim_ret, Hg. Qed.

Lemma answer_rel_no_handle a : answer_rel (a, []) (a, []).
Proof using Type. by split. Qed.

(** A new fast address. *)
Lemma answer_rel_handle a h p writeable :
  fast L h p -> (writeable = true -> WRITEABLE_START <= p) ->
  answer_rel (a, [{| h_faddr := h; h_offset := p mod 4096; h_writeable := writeable |}])
             (a, [{| h_faddr := p; h_offset := p mod 4096; h_writeable := writeable |}]).
Proof using Type. intros Hf Hw. split; [done|]. constructor; [|constructor]. by split. Qed.

Lemma ask_sim r hs1 hs2 :
  Forall2 handle_rel hs1 hs2 -> vsim (replays m0 L f None) answer_rel (ask r hs1) (ask r hs2).
Proof using HL.
  intros Hhs. destruct r as [what|what val|index|paddr|size SET vaddr|SET vaddr paddr pma_index|SET slot_index|size n delta|size n delta val];
    cbn [ask]; try (destruct (_ : bool) eqn:E; [|by apply vsim_throw]).
  - apply register_range in E as [Hr H8]. apply (vsim_value eq); [by apply check_read_reg_sim|]. intros x ? <-. apply answer_rel_no_handle.
  - apply register_range in E as [Hr H8]. apply (vsim_value eq); [by apply check_write_reg_sim|]. intros x ? <-. apply answer_rel_no_handle.
  - apply (vsim_value eq); [by apply do_read_pma_sim, Z.leb_le|]. intros x ? <-. apply answer_rel_no_handle.
  - assert (Hp : is_u 64 paddr) by (unfold is_u; lia). intros c m x c' Hr Ek.
    rewrite offset_of_mod in *. apply bind_Ret_inv in Ek as (h & c1 & E1 & Ek). injection Ek as <- <-.
    destruct (get_faddr_sim None paddr Hp _ _ _ _ Hr E1) as (p & m1 & [= <- <-] & Hr1 & Hf).
    eexists _, _. split; [reflexivity|]. split; [done|]. apply answer_rel_handle; [done|]. apply Z.leb_le.
  - apply andb_true_iff in E as [[[Hs HS%is_set_range]%andb_true_iff H0]%andb_true_iff H1].
    eapply vsim_bind; [apply tlb_lookup_sim; [done|unfold is_u; lia|done]|].
    intros [[h i]|] [[p j]|] Hxy; try done; [|by apply vsim_ret, answer_rel_no_handle].
    destruct Hxy as (Hf & <- & Ho & Hw). apply vsim_ret. rewrite offset_of_mod, <-Ho. apply answer_rel_handle; [done|].
    intros HW%Z.eqb_eq. by apply Hw.
  - apply andb_true_iff in E as [[E Ho%Z.eqb_eq]%andb_true_iff Hw]. rewrite !offset_of_mod in Ho. rewrite !offset_of_mod.
    repeat (apply andb_true_iff in E as [E ?]). apply is_set_range in E as HS.
    assert (Hp : is_u 64 paddr) by (unfold is_u; lia).
    assert (Hwr : SET = TLB_WRITE -> WRITEABLE_START <= paddr).
    { intros ->. rewrite Z.eqb_refl in Hw. by apply Z.leb_le. }
    intros c m x c' Hr Ek. apply bind_Ret_inv in Ek as (h & c1 & E1 & Ek). injection Ek as <- <-.
    destruct (tlb_replace_sim SET vaddr paddr pma_index HS ltac:(unfold is_u; lia) Hp ltac:(unfold is_u; lia) Ho Hwr _ _ _ _ Hr E1)
      as (p & m1 & E2 & Hr1 & Hf).
    assert (p = paddr) as -> by (unfold tlb_replace in E2; apply bind_Ret_inv in E2 as (q & m2 & [= <- <-] & E2);
      apply bind_Ret_inv in E2 as (u & m3 & _ & [= <- _]); done).
    eexists _, _. split; [exact (bind_Ret _ _ _ _ _ E2)|]. split; [done|]. apply answer_rel_handle; [done|]. apply Z.leb_le.
  - apply andb_true_iff in E as [[HS%is_set_range H0]%andb_true_iff H1]. change TLB_SET_SIZE with 256 in H1.
    apply (vsim_value eq); [by apply flush_slot_sim; split; [done|lia]|]. intros x ? <-. apply answer_rel_no_handle.
  - apply with_handle_sim; [done|]. intros h1 h2 Hh Hs Hd Hl _. apply (vsim_value eq); [by apply read_word_sim|].
    intros x ? <-. apply answer_rel_no_handle.
  - apply with_handle_sim; [done|]. intros h1 h2 Hh Hs Hd Hl [Hw Ha]; [done|].
    apply (vsim_value eq); [by apply write_word_sim|]. intros x ? <-. apply answer_rel_no_handle.
Qed.

Lemma run_sim p hs1 hs2 :
  Forall2 handle_rel hs1 hs2 -> vsim (replays m0 L f None) eq (run p hs1) (run p hs2).
Proof using HL.
  revert hs1 hs2. induction p as [v|r k IH]; intros hs1 hs2 Hhs; cbn [run]; [by apply vsim_ret|].
  eapply vsim_bind; [by apply ask_sim|]. intros [a l1] [a' l2] [E Hl]. cbn in E, Hl. subst a'. apply IH. by apply Forall2_app.
Qed.
End simulation.

(** ** The start of a replay *)

(** Valid slots of the write set map memory above the PMA table. *)
Definition write_slots_ok (m : memory) : Prop :=
  forall slot_index, 0 <= slot_index < 256 -> mem_verify_slot TLB_WRITE slot_index m = (Ret true, m) ->
  WRITEABLE_START <= uint64 (tlb_word m TLB_WRITE slot_index 0 + tlb_word m TLB_WRITE slot_index 8).

Lemma hot_slot_initial c SET slot_index :
  r_tlb c = replicate (Z.to_nat TLB_NUM_SETS_) (replicate (Z.to_nat TLB_SET_SIZE) unverified_slot) ->
  hot_slot c SET slot_index = unverified_slot.
Proof.
  intros E. unfold hot_slot. rewrite E. destruct (replicate _ _ !! Z.to_nat SET) as [set|] eqn:Es; [|done].
  apply lookup_replicate in Es as [-> _]. cbn [mbind option_bind].
  destruct (replicate _ _ !! Z.to_nat slot_index) as [slot|] eqn:Et; [|done]. by apply lookup_replicate in Et as [-> _].
Qed.

(** A log with the root hash of [m0] has the pages of [m0]. *)
Lemma open_pages img log f m0 `{!@CollisionFree H (variant_hasher_of f)} :
  Forall (is_u 8) img -> open_step_log img = Ret log -> log_hash_function log = f ->
  logged_root_hash_before log = @root_hash_of H (variant_hasher_of f) m0 ->
  Forall (holds m0) (pages log) /\ ordered (pages log) /\ Forall (fun i => i < 2 ^ 52) (indices (pages log)) /\
  sibling_hashes log = (@frontier H (variant_hasher_of f) (@page_node H (variant_hasher_of f) m0) 52 0 (indices (pages log))).2 /\
  96 + 4136 * Z.of_nat (length (pages log)) <= Z.of_nat (length img).
Proof.
  intros Hb E Hf Hroot. unfold open_step_log in E. apply outcome_bind_Ret in E as (log0 & E0 & E).
  apply outcome_bind_Ret in E as ([h log1] & E1 & E). destruct (negb (bool_decide _)) eqn:Eh; [done|]. injection E as ->.
  apply negb_false_iff, bool_decide_eq_true in Eh. destruct (parse_Ret _ _ Hb E0) as (n & k & Hp).
  assert (Hord : ordered (pages log0)).
  { split; [exact (parsed_order _ _ _ _ Hp)|]. apply Forall_fmap. eapply Forall_impl; [exact (parsed_ordered _ _ _ _ Hb Hp)|].
    cbn. unfold is_u. lia. }
  assert (Hlog : log = set_pages (map (@hashed H SH f) (pages log0)) log0 /\ log_hash_function log0 = log_hash_function log).
  { unfold compute_root_hash in E1. apply outcome_bind_Ret in E1 as (ps & Eps & E1). apply outcome_bind_Ret in E1 as ([[h1 np] ns] & _ & E1).
    destruct (negb _); [done|]. destruct (negb _); [done|]. injection E1 as _ <-. cbn [set_pages log_hash_function] in *. subst f.
    rewrite hash_pages_ok in Eps by exact (parsed_data _ _ _ _ Hp). injection Eps as <-. done. }
  destruct Hlog as [Elog Ef]. rewrite <-Ef in Hf.
  rewrite Eh, Hroot in E1.
  destruct (compute_root_hash_sound f log0 m0 log Hf Hord (parsed_data _ _ _ _ Hp) E1) as (Hh & Hlt & Hsib & _).
  rewrite Elog. cbn [set_pages pages sibling_hashes]. rewrite indices_hashed.
  split; [|split; [|split; [done|split; [done|]]]].
  - apply Forall_fmap. eapply Forall_impl; [exact Hh|]. intros p. done.
  - unfold ordered. rewrite indices_hashed. exact Hord.
  - rewrite length_map, (parsed_pages _ _ _ _ Hp). unfold pages_at. rewrite length_map, length_seqZ.
    destruct (parsed_size _ _ _ _ Hp) as [Hl _]. destruct (parsed_k _ _ _ _ Hp) as [_ Hk]. destruct (parsed_n _ _ _ _ Hp) as [_ Hn].
    unfold is_u in Hk. lia.
Qed.

Lemma constructor_Ret host img c :
  replay_step_state_access host img = Ret c ->
  open_step_log img = Ret (r_log c) /\ r_pages c = host + 88 /\ r_ars c = replicate (Z.to_nat PMA_MAX) None /\
  r_tlb c = replicate (Z.to_nat TLB_NUM_SETS_) (replicate (Z.to_nat TLB_SET_SIZE) unverified_slot) /\
  m_shadow_regs_page c = None.
Proof.
  unfold replay_step_state_access. intros E. apply outcome_bind_Ret in E as (log & Elog & E).
  assert (c = {| r_log := log; r_pages := host + (2 * MACHINE_HASH_SIZE + 3 * sizeof_uint64);
     r_ars := replicate (Z.to_nat PMA_MAX) None;
     r_tlb := replicate (Z.to_nat TLB_NUM_SETS_) (replicate (Z.to_nat TLB_SET_SIZE) unverified_slot);
     m_shadow_regs_page := None |}) as -> by (symmetry; exact (f_equal (fun o => match o with Ret x => x | Throw _ => c end) E)).
  split; [exact Elog|done].
Qed.

Lemma initial_replays host img c f m0 `{!@CollisionFree H (variant_hasher_of f)} :
  Forall (is_u 8) img -> 0 <= host -> host + Z.of_nat (length img) < 2 ^ 64 -> write_slots_ok m0 ->
  replay_step_state_access host img = Ret c -> log_hash_function (r_log c) = f ->
  logged_root_hash_before (r_log c) = @root_hash_of H (variant_hasher_of f) m0 ->
  layout_ok (layout c) /\ replays m0 (layout c) f None c m0.
Proof.
  intros Hb Hh0 Hh1 Hws E Hf Hroot. destruct (constructor_Ret _ _ _ E) as (Elog & Ep & Ears & Etlb & Eregs).
  destruct (open_pages img (r_log c) f m0 Hb Elog Hf Hroot) as (Hh & [Hs Hpos] & Hlt & Hsib & Hlen). split.
  - unfold layout. cbn [fst snd]. split; [done|]. split; [|split].
    + rewrite Forall_forall in *. intros i Hi. split; [by apply Hpos|by apply Hlt].
    + cbn [snd]. lia.
    + cbn [fst snd]. unfold indices. rewrite length_map. lia.
  - split; try done.
    + intros i Ei. by rewrite Eregs in Ei.
    + rewrite Ears. split; [by rewrite length_replicate|]. intros i ar [Ei _]%lookup_replicate. done.
    + rewrite Etlb. split; [by rewrite length_replicate|]. apply Forall_replicate. by rewrite length_replicate.
    + intros SET slot_index _ _. left. by rewrite hot_slot_initial.
    + intros slot_index Hi _. by apply Hws.
Qed.

(** ** The end of a replay *)
Section finish.
Context (m0 : memory) (L : list Z * Z) (f : hash_function_type) (HL : layout_ok L).

Lemma is_rejected_sim :
  vsim (replays m0 L f None) eq (is_rejected_manual_yield (S := step_replay_context H)) (is_rejected_manual_yield (S := memory)).
Proof using HL.
  unfold is_rejected_manual_yield. eapply vsim_bind; [by apply check_read_reg_sim|]. intros y ? <-.
  destruct (y =? 0); [by apply vsim_ret|]. eapply vsim_bind; [by apply check_read_reg_sim|]. intros t ? <-. by apply vsim_ret.
Qed.

Lemma mem_is_rejected m b m' : is_rejected_manual_yield (S := memory) m = (Ret b, m') -> m' = m.
Proof using Type.
  unfold is_rejected_manual_yield. intros E. apply bind_Ret_inv in E as (y & m1 & E1 & E).
  assert (m1 = m) as -> by exact (eq_sym (f_equal snd E1)). destruct (y =? 0); [exact (eq_sym (f_equal snd E))|].
  apply bind_Ret_inv in E as (t & m2 & E2 & E). assert (m2 = m) as -> by exact (eq_sym (f_equal snd E2)).
  exact (eq_sym (f_equal snd E)).
Qed.

(** The bytes of the hash to revert to. *)
Definition revert_root_hash (m : memory) : H := hash_of_bytes (bytes_at m AR_SHADOW_REVERT_ROOT_HASH_START MACHINE_HASH_SIZE).

Lemma revert_hash_sim : vsim (replays m0 L f None) (fun h m => h = revert_root_hash m) replay_read_revert_root_hash get.
Proof using HL.
  intros c m h c' Hr E. unfold replay_read_revert_root_hash in E. apply bind_Ret_inv in E as (i & c1 & Ef & E).
  apply find_page_Ret in Ef as [-> Hi]. apply bind_Ret_inv in E as (c2 & c3 & [= <- <-] & E).
  change (Z.shiftr (page_of AR_SHADOW_REVERT_ROOT_HASH_START) AR_LOG2_PAGE_SIZE) with 0 in Hi.
  apply lookup_indices in Hi as (p & Hp & Hidx). rewrite Hp in E. injection E as <- <-.
  exists m, m. split; [done|]. split; [done|]. pose proof (rp_holds _ _ _ _ _ _ Hr) as Hh. rewrite Forall_lookup in Hh.
  unfold revert_root_hash. by rewrite (Hh _ _ Hp), Hidx, page_bytes_part by done.
Qed.

Lemma page_node_bytes `{IHasher K} m m' p : page_bytes m p = page_bytes m' p -> page_node m p = page_node m' p :> K.
Proof using Type. intros E. pose proof (page_merkle_bytes m p) as E1. rewrite E, page_merkle_bytes in E1. by injection E1. Qed.

Lemma replay_root_hash c m h c' :
  replays m0 L f None c m -> replay_compute_root_hash c = (Ret h, c') -> h = @root_hash_of H (variant_hasher_of f) m.
Proof using HL.
  intros Hr E. pose proof Hr as [Hlay Hf Hh Hout Hsib _ _ _ _ _]. unfold replay_compute_root_hash in E.
  destruct HL as (Hs & Hb & _). subst L. cbn [layout fst] in *.
  rewrite (compute_root_hash_complete f (r_log c) m0 m) in E; [by injection E as <- _| | | | | |]; try done.
  - split; [done|]. eapply Forall_impl; [exact Hb|]. cbn. lia.
  - eapply Forall_impl; [exact Hb|]. cbn. lia.
  - intros i _ Hi. apply page_node_bytes. symmetry. by apply Hout.
Qed.

(** What [finish] returns. *)
Definition hash_after (rejected : bool) (m : memory) : H :=
  if rejected then revert_root_hash m else @root_hash_of H (variant_hasher_of f) m.

Lemma finish_sound c m h c' :
  replays m0 L f None c m -> replay_finish c = (Ret h, c') ->
  exists rejected, is_rejected_manual_yield (S := memory) m = (Ret rejected, m) /\ h = hash_after rejected m.
Proof using HL.
  intros Hr E. unfold replay_finish in E. apply bind_Ret_inv in E as (rejected & c1 & E1 & E).
  destruct (is_rejected_sim _ _ _ _ Hr E1) as (b & m1 & E2 & Hr1 & <-). pose proof (mem_is_rejected _ _ _ E2) as ->.
  exists rejected. split; [done|]. apply bind_Ret_inv in E as (h1 & c2 & E3 & E).
  apply bind_Ret_inv in E as (c3 & c4 & [= <- <-] & E). destruct (negb _); [done|]. injection E as <- _.
  destruct rejected.
  - destruct (revert_hash_sim _ _ _ _ Hr1 E3) as (? & ? & [= <- <-] & _ & ->). done.
  - by apply (replay_root_hash c1 m h1 c2).
Qed.
End finish.

(** ** verify_step *)

Lemma open_function img log :
  Forall (is_u 8) img -> open_step_log img = Ret log -> hash_function_of (read_uint64 img 72) = Ret (log_hash_function log).
Proof.
  intros Hb E. unfold open_step_log in E. apply outcome_bind_Ret in E as (log0 & E0 & E).
  destruct (parse_Ret _ _ Hb E0) as (n & k & Hp). rewrite (parsed_function _ _ _ _ Hp). f_equal.
  apply outcome_bind_Ret in E as ([h log1] & E1 & E). destruct (negb _); [done|]. injection E as ->.
  unfold compute_root_hash in E1. apply outcome_bind_Ret in E1 as (ps & _ & E1). apply outcome_bind_Ret in E1 as ([[h1 np] ns] & _ & E1).
  destruct (negb _); [done|]. destruct (negb _); [done|]. by injection E1 as _ <-.
Qed.

(** C9: soundness of step logs.  Let the hash function that a log names
    be collision free, and let the slots of the write TLB set in the memory [m] map
    memory above the PMA table.  If [verify_step] accepts a log for the root
    hash of [m], then the interpreter, whatever program of accesses it is, runs
    to its end on [m] itself, from the cycle counter of [m] to the count of the
    log; and the hash that is returned is that of the memory it leaves, or the
    revert root hash that it leaves when it has rejected an input. *)
Theorem verify_step_sound interpret host img root_hash_before mcycle_count root_hash_after h m f
    `{!@CollisionFree H (variant_hasher_of f)} :
  Forall (is_u 8) img -> 0 <= host -> host + Z.of_nat (length img) < 2 ^ 64 ->
  hash_function_of (read_uint64 img 72) = Ret f ->
  root_hash_before = @root_hash_of H (variant_hasher_of f) m ->
  write_slots_ok m ->
  verify_step interpret host img root_hash_before mcycle_count root_hash_after = Ret h ->
  exists v m' rejected,
    run (interpret (saturating_add (mem_read m machine_reg.mcycle) mcycle_count)) [] m = (Ret v, m') /\
    is_rejected_manual_yield (S := memory) m' = (Ret rejected, m') /\
    h = hash_after f rejected m'.
Proof.
  intros Hb Hlo Hhi Hf Hroot Hws E. unfold verify_step in E. apply outcome_bind_Ret in E as (c & Ec & E).
  destruct (negb (bool_decide _)) eqn:Er; [done|]. apply negb_false_iff, bool_decide_eq_true in Er.
  destruct (negb _); [done|]. apply outcome_bind_Ret in E as (h1 & E1 & E).
  assert (h1 = h) as -> by (destruct root_hash_after; [destruct (negb _); [done|]|]; by injection E).
  destruct (constructor_Ret _ _ _ Ec) as (Eopen & _).
  assert (Hfc : log_hash_function (r_log c) = f) by (pose proof (open_function _ _ Hb Eopen); congruence).
  destruct (initial_replays host img c f m Hb Hlo Hhi Hws Ec Hfc) as [HL Hr]; [by rewrite Er|].
  match type of E1 with fst (?k c) = _ => destruct (k c) as [r c'] eqn:Ek end. cbn [fst] in E1. subst r.
  apply bind_Ret_inv in Ek as (mcycle & c1 & Em & Ek).
  destruct (check_read_reg_sim m _ f HL None machine_reg.mcycle ltac:(done) ltac:(done) _ _ _ _ Hr Em) as (mc & m1 & [= <- <-] & Hr1 & ->).
  apply bind_Ret_inv in Ek as (v & c2 & Ep & Ek).
  destruct (run_sim m _ f HL _ [] [] ltac:(constructor) _ _ _ _ Hr1 Ep) as (v' & m' & Em' & Hr2 & _).
  destruct (finish_sound m _ f HL _ _ _ _ Hr2 Ek) as (rejected & Hrej & ->). by exists v', m', rejected.
Qed.
End access.

(** *** A log of one page

    The hashes of SymHash.v with bytes: those of the all-zero subtrees, and
    the root after a step that counts one cycle. *)

Definition counted_root : sym_hash :=
  fold_left (fun h k => if decide (k = 3)%nat then SymNode (Pristine k) h else SymNode h (Pristine k))
            (seq 0 59) (SymBytes (1 :: replicate 31 0)).

Definition one_page_hash : StepHash sym_hash := {|
  variant_hasher_of _ := sym_hasher;
  hash_of_bytes bs := match bs with
    | k :: _ => if k <? 60 then Pristine (Z.to_nat k) else counted_root
    | [] => Pristine 0
    end;
  bytes_of_hash h := match h with Pristine k => Z.of_nat k | _ => 60 end :: replicate 31 0;
  step_hash_eq_dec := sym_hash_eq_dec
|}.

Definition one_page_image : list Z :=
  @log_image sym_hash one_page_hash
    {| logged_root_hash_before := Pristine 59; logged_mcycle_count := 1; logged_root_hash_after := counted_root;
       log_hash_function := keccak256;
       pages := [ {| page_index := 0; page_data := replicate 4096 0; page_hash := Pristine 0 |} ];
       sibling_hashes := map Pristine (seq 7 52) |}.

Definition count_to (mcycle_end : Z) : program := Ask (WriteRegister machine_reg.mcycle mcycle_end) (fun _ => Done mcycle_end).

Lemma bytes_forallb l : forallb (fun b => (0 <=? b) && (b <? 256)) l = true -> Forall (is_u 8) l.
Proof. rewrite List.forallb_forall, List.Forall_forall. intros E x Hx%E. unfold is_u. lia. Qed.

Lemma empty_write_slots_ok : write_slots_ok ∅.
Proof.
  intros slot_index _ E. exfalso. unfold mem_verify_slot, read_shadow_tlb, mbind, M_bind, gets in E.
  unfold mem_read, word_at in E. rewrite !lookup_empty in E. vm_compute in E. done.
Qed.

Lemma one_page_verifies :
  @verify_step sym_hash one_page_hash count_to 4096 one_page_image (Pristine 59) 1 None = Ret (counted_root).
Proof. vm_compute. reflexivity. Qed.

Lemma verify_step_sound_witness :
  exists v m' rejected,
    run (count_to (saturating_add (mem_read ∅ machine_reg.mcycle) 1)) [] (∅ : memory) = (Ret v, m') /\
    is_rejected_manual_yield (S := memory) m' = (Ret rejected, m') /\
    counted_root = @hash_after sym_hash one_page_hash keccak256 rejected m'.
Proof.
  apply (verify_step_sound (SH := one_page_hash) count_to 4096 one_page_image (Pristine 59) 1 None counted_root ∅ keccak256).
  - apply bytes_forallb. vm_compute. reflexivity.
  - discriminate.
  - vm_compute. reflexivity.
  - vm_compute. reflexivity.
  - symmetry. apply (pristine_node 59 0).
  - apply empty_write_slots_ok.
  - apply one_page_verifies.
Defined.
